(* ===== verification/_CoqProject ===== *)
-Q . S2P
Prelude.v
Lmb.v
CString.v
Qsort.v
Hashtable.v
HashIO.v
Digest.v
Sha256.v
Sha1.v
Md5.v
Crc.v
EnvFlags.v
Div64.v
Numbers.v
Vsprintf.v
CircBuf.v
CliSimple.v
Environment.v
Aes.v
Lists.v
ListSort.v
Image.v
Bootm.v
Tftp.v
Rbtree.v
Readline.v
Fat.v
FatDir.v
PartDos.v
