(* ===== verification/Prelude.v ===== *)
(** * A verification of the U-Boot core (i.MX6 tree)

    The repository holds the boot loader U-Boot for the i.MX6 ([uboot-imx/]).
    This library models, function by function, the part of it that does not
    touch hardware: the services that the board code, the drivers and the
    commands are built on.

    ** The program

    A board starts with memory described by logical blocks ([lib/lmb.c]), from
    which images are placed.  Its settings are environment variables: before
    relocation they are searched in their linear form, then they are imported
    into a hash table ([lib/hashtable.c]) that checks every change against the
    flags of the variable ([common/env_flags.c]) and calls the callback bound
    to it ([common/env_callback.c]); both come from attribute lists
    ([common/env_attr.c]).  [common/cmd_nvedit.c] and [common/env_common.c] are
    the interface to the table, [common/env_mmc.c] keeps it on a card with a
    checksum ([lib/crc32.c]).  Command lines are expanded with variables, split
    and dispatched by [common/cli_simple.c] and [common/command.c]; they are typed
    with the line editor of [common/cli_readline.c].  [bootm]
    ([common/bootm.c], [common/image.c]) finds a kernel and a ramdisk in memory,
    verifies them, loads the kernel and moves the ramdisk into free memory, which
    it takes from the logical blocks.  Files come from the network by TFTP
    ([net/tftp.c], driven by [net/net.c]) or from FAT file systems
    ([fs/fat/fat.c]) on partitions ([disk/part_dos.c]).  Underneath are the string library, sorting, lists and
    red-black trees, numbers and formatted output, division, the digests that
    verify images, and a ring buffer for the serial gadget.

    ** The files

    - [Prelude]: machine integers, arrays with bounds, tactics, shared lemmas.
    - [Lmb]: [lib/lmb.c], the tables of memory and reserved regions.
    - [CString]: [lib/string.c], [lib/ctype.c], over a byte-addressed memory.
    - [Qsort]: [lib/qsort.c], the shell sort behind [hexport_r].
    - [Hashtable]: [lib/hashtable.c], creation, search, insertion, deletion; the
      class [EnvHooks] holds what the table asks of the rest of the program
      (allocation, flags and callbacks of a new entry), [EnvHooksOk] its laws.
    - [HashIO]: [hexport_r] and [himport_r] of the same file.
    - [Digest], [Sha256], [Sha1], [Md5]: the digests; [Digest] is the buffering
      they share.  [Crc]: the four checksums.  [Aes]: [lib/aes.c].
    - [EnvFlags]: attribute lists, flags, callbacks.
    - [Div64], [Numbers], [Vsprintf]: [lib/div64.c] and [lib/vsprintf.c]; the
      class [Sink] is where a conversion puts its characters, with the
      bounded buffer of the code and an unbounded text as instances.
    - [CircBuf]: [lib/circbuf.c].
    - [CliSimple]: [common/cli_simple.c], [common/command.c]; the world commands
      act on is a type parameter.
    - [Lists], [ListSort]: [include/linux/list.h] and [lib/list_sort.c], on a heap
      of nodes with their links.
    - [Environment]: [common/cmd_nvedit.c], [common/env_common.c],
      [common/env_mmc.c]; the class [Mmc] is the card, [MmcOk] its laws.
    - [Image]: legacy images of [common/image.c] and [include/image.h].
    - [Bootm]: [common/bootm.c], the rest of [common/image.c],
      [common/image-fdt.c] and [common/image-android.c]; the class [Board] holds
      the memory of the board and decompression, [BootFns] the functions that
      start an operating system.  It uses [Lmb], [Environment] and [Image].
    - [Tftp]: [net/tftp.c] and the turns of [NetLoop] that run it; the class [Net]
      holds the addresses and settings; the server and the network are a
      transition system.
    - [Rbtree]: [lib/rbtree.c] with [include/linux/rbtree.h] and
      [rbtree_augmented.h], on a heap of nodes whose parent word also holds the
      color, as in the code.
    - [Readline]: [common/cli_readline.c] (keys, editing, history), the completion of
      [common/command.c] and [env edit]; what is sent to the terminal is kept.
    - [Fat]: [fs/fat/fat.c], the FAT, clusters and the contents of files; the class
      [BlockDev] is the device with its partition, [BlockDevOk] says that it holds
      the bytes of a disk.  [FatDir]: names, directories, paths and the boot
      sector of the same file, with the static buffers as part of the state.
    - [PartDos]: [disk/part_dos.c], the parts of [disk/part.c] around it and
      [fat_register_device]; it gives [Fat] the device with its partition.

    ** Conventions

    An integer of the program is a [Z] with its wrap-around written out
    ([u8], [u32], [u64], [s32], ...); an array is the list of its elements,
    read with [aget] and written with [aset]; a C string is the list of its
    characters without the terminator ([cstr]), or bytes in a memory where
    addresses matter.  Undefined behaviour, an access outside an object or a
    null pointer, is [None], so that a theorem whose conclusion is [Some ...]
    also says that the code stays inside its objects.  Loops are structural
    where they count and take fuel otherwise; the fuel is computed from the
    input (its length, the size of the table, the width of a word) and the
    theorems show that it is enough: they state results, not partial
    correctness.  [long] and pointers have 32 bits, [char] is unsigned and
    words are little-endian, as on the ARMv7 of the i.MX6; the configuration is
    that of the mx6sabresd boards.  Console output, debugging output and the
    watchdog leave no trace in the model.

    ** What is shown

    - Memory blocks: [lmb_reserve] and [lmb_free] insert and remove a block in
      the set of reserved addresses, and [lmb_alloc_base] finds the highest
      free aligned address; the tables are never left.
    - Hash table: search, insertion and deletion implement those of a finite
      map, for every probe sequence; a rejected change leaves the map as it
      was; export and import are inverse.
    - Environment: [setenv] and [getenv] implement the map; what [saveenv] wrote
      the next boot loads, and anything unusable gives the default
      environment; numbers survive; before the import the first entry is found.
    - Flags: a change is accepted exactly when type and access permit it, and
      protected variables are kept.
    - Command line: every line is processed inside the buffers; macros,
      separators and dispatch follow their grammar.
    - Formatted output: [vsnprintf] stores the text of the format cut to its
      buffer; conversions print what they should, and are read back.
    - Strings, sorting, digests, checksums and division equal their reference
      definitions; the ring buffer is a bounded queue.  AES with its combined
      tables is the cipher of FIPS-197, and decryption inverts it.
    - Linked lists: every operation gives the list its comment describes with
      all links in place, and [list_sort] sorts stably whatever the length.
    - Red-black trees: insertion and deletion of any node keep the colors, the equal
      numbers of black nodes and the order, and the iterators walk in order.
    - Line editor: for every sequence of keys the editor follows a machine on lines
      (text before and after the cursor, history, position in it), inside its
      arrays, and the terminal shows the line and the cursor.
    - File systems: an entry of the FAT is the field of the number the FAT is; a file
      is read exactly, wherever its clusters are; a directory is searched as the
      list of its files with their short and long names; a path leads from the
      root directory to the bytes of the file it names, or fails without effect;
      partitions have the numbers of fdisk, and a file is read through the table.
    - Images: a legacy image is accepted exactly when its checksums and fields
      are right; the components of an image are found where the format puts
      them; moving in chunks is [memmove].
    - Booting: [bootm] accepts a kernel exactly when it is valid; the ramdisk goes
      to the highest free place; a kernel and a ramdisk that are valid and do not
      get in each other's way arrive intact at the start of the operating system,
      with memory map, environment and images composed as the code does.
    - File transfer: with packets lost, repeated and mixed with those of others, a
      transfer that succeeds has put the file into memory and written nothing
      else, every attempt can still be completed while retries are left, and no
      packet takes the client out of its types.

    ** What is not modelled

    Drivers, architecture and board code read and write device registers whose
    behaviour the sources do not define; vendored code (zlib, bzip2, lzma,
    libfdt, file systems such as yaffs2 and UBI) is third-party.  FIT images are
    not configured; of libfdt only the header checks that [bootm] relies on are
    modelled, decompression and [fdt_open_into] are arguments.  The hush shell,
    [malloc], most of the network stack, BCH, the augmented variants of the
    red-black trees, listing directories and the [env] commands for import and
    export are the program's own and are left: the parser of the shell
    and the allocator are adaptations of busybox and dlmalloc, the rest are
    variants of what is modelled or need the devices.  Of the network only the
    transfer of files is modelled; the network of the theorems keeps the order of
    packets.  The theorems on file systems take directories whose long names do
    not cross clusters; the definitions have that case too. *)
From stdpp Require Export base numbers list option.
From Stdlib Require Export ZArith Lia Bool.
#[global] Open Scope Z_scope.

(** ** Machine integers

    An unsigned integer of [w] bits is the [Z] it denotes; arithmetic is done
    in [Z] and reduced where the C code stores it.  [long], [size_t] and
    pointers are 32 bits wide on the i.MX6 (ARMv7). *)

Definition u8 (z : Z) : Z := z mod 2 ^ 8.
Definition u16 (z : Z) : Z := z mod 2 ^ 16.
Definition u32 (z : Z) : Z := z mod 2 ^ 32.
Definition u64 (z : Z) : Z := z mod 2 ^ 64.

(** Conversion to a two's complement signed type. *)
Definition s8 (z : Z) : Z := (z + 2 ^ 7) mod 2 ^ 8 - 2 ^ 7.
Definition s32 (z : Z) : Z := (z + 2 ^ 31) mod 2 ^ 32 - 2 ^ 31.
Definition s64 (z : Z) : Z := (z + 2 ^ 63) mod 2 ^ 64 - 2 ^ 63.

Lemma u8_small z : 0 <= z < 2 ^ 8 -> u8 z = z.
Proof. apply Z.mod_small. Qed.
Lemma u32_small z : 0 <= z < 2 ^ 32 -> u32 z = z.
Proof. apply Z.mod_small. Qed.
Lemma u64_small z : 0 <= z < 2 ^ 64 -> u64 z = z.
Proof. apply Z.mod_small. Qed.
Lemma u8_range z : 0 <= u8 z < 2 ^ 8.
Proof. apply Z.mod_pos_bound; lia. Qed.
Lemma u32_range z : 0 <= u32 z < 2 ^ 32.
Proof. apply Z.mod_pos_bound; lia. Qed.
Lemma u64_range z : 0 <= u64 z < 2 ^ 64.
Proof. apply Z.mod_pos_bound; lia. Qed.

Lemma s32_small z : - 2 ^ 31 <= z < 2 ^ 31 -> s32 z = z.
Proof. intros H. unfold s32. rewrite Z.mod_small; lia. Qed.
Lemma s32_range z : - 2 ^ 31 <= s32 z < 2 ^ 31.
Proof. unfold s32. pose proof (Z.mod_pos_bound (z + 2 ^ 31) (2 ^ 32)). lia. Qed.

(** ** Bit fields *)

Lemma bits_above k n i : 0 <= k -> 0 <= n < 2 ^ k -> k <= i -> Z.testbit n i = false.
Proof. intros Hk Hn. apply (proj1 (Z.bounded_iff_bits_nonneg k n Hk (proj1 Hn)) (proj2 Hn)). Qed.

(** Placing a [k]-bit field below a shifted value does not carry. *)
Lemma lor_low a v k : 0 <= k -> 0 <= v < 2 ^ k -> Z.lor (a * 2 ^ k) v = a * 2 ^ k + v.
Proof.
  intros Hk Hv. rewrite Z.add_nocarry_lor; [done|].
  apply Z.bits_inj'. intros i Hi. rewrite Z.land_spec, Z.bits_0.
  destruct (Z.ltb_spec i k); [by rewrite Z.mul_pow2_bits_low by lia|].
  rewrite (bits_above k v i) by lia. apply andb_false_r.
Qed.

(** ** Arrays

    A C array is the list of its elements.  Indices are [Z]; reading or
    writing outside the array is undefined behaviour and gives [None]. *)

Definition aget {A} (l : list A) (i : Z) : option A :=
  if 0 <=? i then l !! Z.to_nat i else None.

Definition aset {A} (l : list A) (i : Z) (x : A) : option (list A) :=
  if (0 <=? i) && (i <? Z.of_nat (length l)) then Some (<[Z.to_nat i := x]> l)
  else None.

(** [asets l i x] is [aset] on an index known to be in range. *)
Definition asets {A} (l : list A) (i : Z) (x : A) : list A := <[Z.to_nat i := x]> l.

(** ** Tactics *)

(** Case analysis on the boolean comparison tested by the first [if] found. *)
Ltac zcase_on b :=
  lazymatch b with
  | Z.eqb ?x ?y => destruct (Z.eqb_spec x y)
  | Z.ltb ?x ?y => destruct (Z.ltb_spec x y)
  | Z.leb ?x ?y => destruct (Z.leb_spec x y)
  | Z.gtb ?x ?y => rewrite (Z.gtb_ltb x y); destruct (Z.ltb_spec y x)
  | Z.geb ?x ?y => rewrite (Z.geb_leb x y); destruct (Z.leb_spec y x)
  | Nat.eqb ?x ?y => destruct (Nat.eqb_spec x y)
  | negb ?c => zcase_on c
  | andb ?c ?d => first [zcase_on c | zcase_on d]
  | orb ?c ?d => first [zcase_on c | zcase_on d]
  | bool_decide ?P => destruct (bool_decide_reflect P)
  end.

Ltac zcase :=
  match goal with
  | |- context [if ?b then _ else _] => zcase_on b; cbn [negb andb orb]
  end.

Ltac zcase_in H :=
  match type of H with
  | context [if ?b then _ else _] => zcase_on b; cbn [negb andb orb] in H
  end.

(** Turns boolean comparisons in the hypotheses into propositions. *)
Ltac zbool :=
  repeat match goal with
  | H : andb _ _ = true |- _ => apply andb_prop in H; destruct H
  | H : orb _ _ = false |- _ => apply orb_false_elim in H; destruct H
  | H : negb _ = true |- _ => apply negb_true_iff in H
  | H : negb _ = false |- _ => apply negb_false_iff in H
  | H : Z.eqb _ _ = true |- _ => apply Z.eqb_eq in H
  | H : Z.eqb _ _ = false |- _ => apply Z.eqb_neq in H
  | H : Z.ltb _ _ = true |- _ => apply Z.ltb_lt in H
  | H : Z.ltb _ _ = false |- _ => apply Z.ltb_ge in H
  | H : Z.leb _ _ = true |- _ => apply Z.leb_le in H
  | H : Z.leb _ _ = false |- _ => apply Z.leb_gt in H
  end.

(** Length equations of appended lists. *)
Ltac len := repeat (rewrite ?length_app, ?length_insert in *; simpl length in *); lia.

(** ** Array lemmas *)

Section arrays.
Context {A : Type}.
Implicit Types (l : list A) (i j : Z) (x : A).

Lemma aget_lookup l i : 0 <= i -> aget l i = l !! Z.to_nat i.
Proof. intros H. unfold aget. zcase; [done | lia]. Qed.

Lemma aget_Some_range l i x : aget l i = Some x -> 0 <= i < Z.of_nat (length l).
Proof.
  unfold aget. zcase; [|done]. intros Hx%lookup_lt_Some. lia.
Qed.

Lemma aget_is_Some l i : 0 <= i < Z.of_nat (length l) -> exists x, aget l i = Some x.
Proof.
  intros H. rewrite aget_lookup by lia. apply lookup_lt_is_Some_2. lia.
Qed.

Lemma aset_Some l i x :
  0 <= i < Z.of_nat (length l) -> aset l i x = Some (<[Z.to_nat i := x]> l).
Proof. intros H. unfold aset. zcase; [zcase; [done | lia] | lia]. Qed.

Lemma aset_inv l i x l' :
  aset l i x = Some l' ->
  0 <= i < Z.of_nat (length l) /\ l' = <[Z.to_nat i := x]> l.
Proof. unfold aset. zcase; [zcase|]; naive_solver lia. Qed.

Lemma app_snoc l1 x l2 : l1 ++ x :: l2 = (l1 ++ [x]) ++ l2.
Proof. by rewrite <- app_assoc. Qed.

(** The slot right after a prefix. *)
Lemma aget_mid l1 l2 i x : i = Z.of_nat (length l1) -> aget (l1 ++ x :: l2) i = Some x.
Proof. intros ->. rewrite aget_lookup, Nat2Z.id by lia. by apply list_lookup_middle. Qed.

Lemma aset_mid l1 l2 i x y :
  i = Z.of_nat (length l1) -> aset (l1 ++ x :: l2) i y = Some (l1 ++ y :: l2).
Proof.
  intros ->. rewrite aset_Some, Nat2Z.id by (rewrite length_app; simpl; lia).
  by rewrite insert_app_r_alt, Nat.sub_diag by lia.
Qed.

Lemma aset_length l i x l' : aset l i x = Some l' -> length l' = length l.
Proof. intros [_ ->]%aset_inv. apply length_insert. Qed.
End arrays.

(** Unfolding one turn of a loop, without conversion on the accumulator. *)
Lemma fold_left_cons {A B} (f : A -> B -> A) x l a : fold_left f (x :: l) a = fold_left f l (f a x).
Proof. done. Qed.

(** Two loops over a list that agree on the states of an invariant. *)
Lemma fold_left_agree {A B} (f g : A -> B -> A) (I : A -> Prop) (P : B -> Prop) :
  (forall a b, I a -> P b -> f a b = g a b /\ I (f a b)) ->
  forall l a, I a -> Forall P l -> fold_left f l a = fold_left g l a /\ I (fold_left f l a).
Proof.
  intros Hfg l a Ha Hl. revert a Ha. induction Hl as [|x l Hx Hl IH]; intros a Ha; [done|]. cbn [fold_left].
  destruct (Hfg a x Ha Hx) as [E HI]. rewrite <- E. by apply IH.
Qed.

Create HintDb cmodel.
Create Rewrite HintDb cmodel.
#[export] Hint Resolve u8_range u32_range u64_range s32_range : cmodel.
#[export] Hint Rewrite @length_insert @length_app @length_take @length_drop : cmodel.
#[global] Arguments aget : simpl never.
#[global] Arguments aset : simpl never.
