(* ===== verification/Lmb.v ===== *)
(** * Lmb: logical memory blocks ([lib/lmb.c])

    The boot loader keeps two bounded tables of address ranges, the RAM of
    the board ([memory]) and what is already used of it ([reserved]), and
    allocates the space for the kernel, the ramdisk and the device tree from
    the difference.  Addresses and sizes are [phys_addr_t]/[phys_size_t],
    32-bit unsigned on this machine. *)
From S2P Require Import Prelude.

(** ** Data *)

Definition MAX_LMB_REGIONS : Z := 8.
Definition LMB_ALLOC_ANYWHERE : Z := 0.

Record lmb_property := mk_prop { p_base : Z; p_size : Z }.

(** [region] has [MAX_LMB_REGIONS + 1] slots, the first [r_cnt] are live. *)
Record lmb_region := mk_region {
  r_cnt : Z; r_size : Z; r_region : list lmb_property }.

Record lmb := mk_lmb { memory : lmb_region; reserved : lmb_region }.

Definition set_region (r : lmb_region) (l : list lmb_property) : lmb_region :=
  mk_region (r_cnt r) (r_size r) l.
Definition set_cnt (r : lmb_region) (n : Z) : lmb_region :=
  mk_region n (r_size r) (r_region r).

(** ** Operations *)

Definition lmb_addrs_overlap (base1 size1 base2 size2 : Z) : bool :=
  (base1 <? u32 (base2 + size2)) && (base2 <? u32 (base1 + size1)).

Definition lmb_addrs_adjacent (base1 size1 base2 size2 : Z) : Z :=
  if base2 =? u32 (base1 + size1) then 1
  else if base1 =? u32 (base2 + size2) then -1
  else 0.

Definition lmb_regions_adjacent (rgn : lmb_region) (r1 r2 : Z) : option Z :=
  x1 ← aget (r_region rgn) r1;
  x2 ← aget (r_region rgn) r2;
  Some (lmb_addrs_adjacent (p_base x1) (p_size x1) (p_base x2) (p_size x2)).

(** The shift loop of [lmb_remove_region]; [last] is [rgn->cnt - 1].  The
    index grows until a slot outside the array is touched, so one step more
    than the array has slots is enough fuel. *)
Fixpoint remove_loop (fuel : nat) (l : list lmb_property) (i last : Z)
    : option (list lmb_property) :=
  match fuel with
  | O => None
  | S fuel =>
      if i <? last then
        nxt ← aget l (i + 1);
        l' ← aset l i nxt;
        remove_loop fuel l' (i + 1) last
      else Some l
  end.

Definition lmb_remove_region (rgn : lmb_region) (r : Z) : option lmb_region :=
  l ← remove_loop (S (length (r_region rgn))) (r_region rgn) r (u32 (r_cnt rgn - 1));
  Some (mk_region (u32 (r_cnt rgn - 1)) (r_size rgn) l).

Definition lmb_coalesce_regions (rgn : lmb_region) (r1 r2 : Z) : option lmb_region :=
  x1 ← aget (r_region rgn) r1;
  x2 ← aget (r_region rgn) r2;
  l ← aset (r_region rgn) r1 (mk_prop (p_base x1) (u32 (p_size x1 + p_size x2)));
  lmb_remove_region (set_region rgn l) r2.

(** [lmb_init] on one table: slot 0 becomes the dummy of size zero. *)
Definition init_region (rgn : lmb_region) : option lmb_region :=
  l ← aset (r_region rgn) 0 (mk_prop 0 0);
  Some (mk_region 1 0 l).

Definition lmb_init (m : lmb) : option lmb :=
  mem ← init_region (memory m);
  res ← init_region (reserved m);
  Some (mk_lmb mem res).

(** Outcome of the first loop of [lmb_add_region]. *)
Inductive scan :=
  | Scan_have                                     (* [return 0] *)
  | Scan_coalesced (i : Z) (l : list lmb_property) (* [break] at [i] *)
  | Scan_none (i : Z).                            (* loop condition false *)

Fixpoint coalesce_scan (fuel : nat) (l : list lmb_property) (cnt base size i : Z)
    : option scan :=
  match fuel with
  | O => None
  | S fuel =>
      if i <? cnt then
        x ← aget l i;
        if (p_base x =? base) && (p_size x =? size) then Some Scan_have
        else
          let adjacent := lmb_addrs_adjacent base size (p_base x) (p_size x) in
          if 0 <? adjacent then
            l' ← aset l i (mk_prop (u32 (p_base x - size)) (u32 (p_size x + size)));
            Some (Scan_coalesced i l')
          else if adjacent <? 0 then
            l' ← aset l i (mk_prop (p_base x) (u32 (p_size x + size)));
            Some (Scan_coalesced i l')
          else coalesce_scan fuel l cnt base size (i + 1)
      else Some (Scan_none i)
  end.

(** The insertion loop [for (i = rgn->cnt-1; i >= 0; i--)]. *)
Fixpoint insert_loop (fuel : nat) (l : list lmb_property) (base size i : Z)
    : option (list lmb_property) :=
  match fuel with
  | O => None
  | S fuel =>
      if 0 <=? i then
        x ← aget l i;
        if base <? p_base x then
          l' ← aset l (i + 1) x;
          insert_loop fuel l' base size (i - 1)
        else aset l (i + 1) (mk_prop base size)
      else Some l
  end.

(** What follows the scan: merge slot [i] with its right neighbour when they
    touch, else insert the block into the sorted table. *)
Definition add_rest (rgn : lmb_region) (i coalesced base size : Z)
    : option (Z * lmb_region) :=
  adj ← (if u32 i <? u32 (r_cnt rgn - 1)
         then lmb_regions_adjacent rgn i (i + 1) else Some 0);
  '(rgn, coalesced) ←
    (if negb (adj =? 0) then
       r ← lmb_coalesce_regions rgn i (i + 1); Some (r, coalesced + 1)
     else Some (rgn, coalesced));
  if negb (coalesced =? 0) then Some (coalesced, rgn)
  else if MAX_LMB_REGIONS <=? r_cnt rgn then Some (-1, rgn)
  else
    l ← insert_loop (S (length (r_region rgn))) (r_region rgn) base size
          (s32 (r_cnt rgn - 1));
    first ← aget l 0;
    l' ← (if base <? p_base first then aset l 0 (mk_prop base size) else Some l);
    Some (0, mk_region (u32 (r_cnt rgn + 1)) (r_size rgn) l').

Definition lmb_add_region (rgn : lmb_region) (base size : Z)
    : option (Z * lmb_region) :=
  first ← aget (r_region rgn) 0;
  if (r_cnt rgn =? 1) && (p_size first =? 0) then
    l ← aset (r_region rgn) 0 (mk_prop base size);
    Some (0, set_region rgn l)
  else
    sc ← coalesce_scan (S (length (r_region rgn))) (r_region rgn) (r_cnt rgn) base size 0;
    match sc with
    | Scan_have => Some (0, rgn)
    | Scan_coalesced i l => add_rest (set_region rgn l) i 1 base size
    | Scan_none i => add_rest rgn i 0 base size
    end.

Definition lmb_add (m : lmb) (base size : Z) : option (Z * lmb) :=
  '(ret, rgn) ← lmb_add_region (memory m) base size;
  Some (ret, mk_lmb rgn (reserved m)).

Definition lmb_reserve (m : lmb) (base size : Z) : option (Z * lmb) :=
  '(ret, rgn) ← lmb_add_region (reserved m) base size;
  Some (ret, mk_lmb (memory m) rgn).

(** The search loop of [lmb_free]: the index and the bounds of the region
    that contains [base, end), or [Some None] when there is none. *)
Fixpoint free_scan (fuel : nat) (l : list lmb_property) (cnt base end_ i : Z)
    : option (option (Z * Z * Z)) :=
  match fuel with
  | O => None
  | S fuel =>
      if i <? cnt then
        x ← aget l i;
        let rgnbegin := p_base x in
        let rgnend := u32 (rgnbegin + p_size x) in
        if (rgnbegin <=? base) && (end_ <=? rgnend)
        then Some (Some (i, rgnbegin, rgnend))
        else free_scan fuel l cnt base end_ (i + 1)
      else Some None
  end.

Definition lmb_free (m : lmb) (base size : Z) : option (Z * lmb) :=
  let rgn := reserved m in
  let end_ := u32 (base + size) in
  found ← free_scan (S (length (r_region rgn))) (r_region rgn) (r_cnt rgn) base end_ 0;
  match found with
  | None => Some (-1, m)
  | Some (i, rgnbegin, rgnend) =>
      if (rgnbegin =? base) && (rgnend =? end_) then
        rgn' ← lmb_remove_region rgn i;
        Some (0, mk_lmb (memory m) rgn')
      else
        x ← aget (r_region rgn) i;
        if rgnbegin =? base then
          l ← aset (r_region rgn) i (mk_prop end_ (u32 (p_size x - size)));
          Some (0, mk_lmb (memory m) (set_region rgn l))
        else if rgnend =? end_ then
          l ← aset (r_region rgn) i (mk_prop (p_base x) (u32 (p_size x - size)));
          Some (0, mk_lmb (memory m) (set_region rgn l))
        else
          l ← aset (r_region rgn) i (mk_prop (p_base x) (u32 (base - p_base x)));
          '(ret, rgn') ← lmb_add_region (set_region rgn l) end_ (u32 (rgnend - end_));
          Some (ret, mk_lmb (memory m) rgn')
  end.

Fixpoint overlap_scan (fuel : nat) (l : list lmb_property) (cnt base size i : Z)
    : option Z :=
  match fuel with
  | O => None
  | S fuel =>
      if i <? cnt then
        x ← aget l i;
        if lmb_addrs_overlap base size (p_base x) (p_size x) then Some i
        else overlap_scan fuel l cnt base size (i + 1)
      else Some (-1)
  end.

Definition lmb_overlaps_region (rgn : lmb_region) (base size : Z) : option Z :=
  overlap_scan (S (length (r_region rgn))) (r_region rgn) (r_cnt rgn) base size 0.

Definition lmb_align_down (addr size : Z) : Z := Z.land addr (u32 (Z.lnot (u32 (size - 1)))).
Definition lmb_align_up (addr size : Z) : Z :=
  Z.land (u32 (addr + u32 (size - 1))) (u32 (Z.lnot (u32 (size - 1)))).

(** The [while (base && lmbbase <= base)] loop of [__lmb_alloc_base].
    [Some (Some (ret, reserved'))] is a [return] from inside the loop,
    [Some None] goes on with the next memory region. *)
Fixpoint alloc_loop (fuel : nat) (res : lmb_region) (lmbbase size align base : Z)
    : option (option (Z * lmb_region)) :=
  match fuel with
  | O => None
  | S fuel =>
      if negb (base =? 0) && (lmbbase <=? base) then
        j ← lmb_overlaps_region res base size;
        if j <? 0 then
          '(ret, res') ← lmb_add_region res base (lmb_align_up size align);
          Some (Some (if ret <? 0 then (0, res') else (base, res')))
        else
          x ← aget (r_region res) j;
          let res_base := p_base x in
          if res_base <? size then Some None
          else alloc_loop fuel res lmbbase size align
                 (lmb_align_down (u32 (res_base - size)) align)
      else Some None
  end.

(** The address tried first in a memory region, or [None] for [continue]. *)
Definition first_base (lmbbase lmbsize size align max_addr : Z) : option Z :=
  if lmbsize <? size then None
  else if max_addr =? LMB_ALLOC_ANYWHERE then
    Some (lmb_align_down (u32 (u32 (lmbbase + lmbsize) - size)) align)
  else if lmbbase <? max_addr then
    let base := u32 (lmbbase + lmbsize) in
    let base := if base <? lmbbase then u32 (-1) else base in
    let base := Z.min base max_addr in
    Some (lmb_align_down (u32 (base - size)) align)
  else None.

(** The loop over the memory regions, from the last one down.  Each pass of
    [alloc_loop] moves below one more reserved region, hence its fuel. *)
Fixpoint region_loop (i : nat) (m : lmb) (size align max_addr : Z)
    : option (Z * lmb_region) :=
  match i with
  | O => Some (0, reserved m)
  | S i =>
      x ← aget (r_region (memory m)) (Z.of_nat i);
      match first_base (p_base x) (p_size x) size align max_addr with
      | None => region_loop i m size align max_addr
      | Some base =>
          r ← alloc_loop (S (S (length (r_region (reserved m))))) (reserved m)
                (p_base x) size align base;
          match r with
          | Some out => Some out
          | None => region_loop i m size align max_addr
          end
      end
  end.

(** [i] starts at [memory.cnt - 1], a [long]. *)
Definition __lmb_alloc_base (m : lmb) (size align max_addr : Z) : option (Z * lmb) :=
  '(ret, res) ← region_loop (Z.to_nat (s32 (r_cnt (memory m) - 1) + 1)) m size align max_addr;
  Some (ret, mk_lmb (memory m) res).

(** [lmb_alloc_base] adds only a message when the allocation fails. *)
Definition lmb_alloc_base (m : lmb) (size align max_addr : Z) : option (Z * lmb) :=
  __lmb_alloc_base m size align max_addr.

Definition lmb_alloc (m : lmb) (size align : Z) : option (Z * lmb) :=
  lmb_alloc_base m size align LMB_ALLOC_ANYWHERE.

Fixpoint reserved_scan (fuel : nat) (l : list lmb_property) (cnt addr i : Z)
    : option Z :=
  match fuel with
  | O => None
  | S fuel =>
      if i <? cnt then
        x ← aget l i;
        let upper := u32 (p_base x + p_size x - 1) in
        if (p_base x <=? addr) && (addr <=? upper) then Some 1
        else reserved_scan fuel l cnt addr (i + 1)
      else Some 0
  end.

Definition lmb_is_reserved (m : lmb) (addr : Z) : option Z :=
  reserved_scan (S (length (r_region (reserved m)))) (r_region (reserved m))
    (r_cnt (reserved m)) addr 0.

(** ** Specification

    A table stands for a list of non-empty ranges, in ascending order and
    with a gap between neighbours: [chain lo l] says that [l] is such a list
    starting above [lo].  The address space it covers is the abstract state. *)

Definition p_end (x : lmb_property) : Z := p_base x + p_size x.

Fixpoint chain (lo : Z) (l : list lmb_property) : Prop :=
  match l with
  | [] => True
  | x :: l => lo < p_base x /\ 0 < p_size x /\ p_end x < 2 ^ 32 /\ chain (p_end x) l
  end.

Definition in_prop (x : lmb_property) (a : Z) : Prop := p_base x <= a < p_end x.
Definition covered (l : list lmb_property) (a : Z) : Prop := Exists (fun x => in_prop x a) l.

(** [rep rgn l]: the table [rgn] holds exactly the ranges [l].  The empty
    list is the dummy entry that [lmb_init] leaves. *)
Definition rep (rgn : lmb_region) (l : list lmb_property) : Prop :=
  length (r_region rgn) = Z.to_nat (MAX_LMB_REGIONS + 1) /\
  ((l = [] /\ r_cnt rgn = 1 /\ exists junk, r_region rgn = mk_prop 0 0 :: junk) \/
   (l <> [] /\ r_cnt rgn = Z.of_nat (length l) /\ r_cnt rgn <= MAX_LMB_REGIONS /\
    exists junk, r_region rgn = l ++ junk)).

(** The invariant of a table. *)
Definition wf_region (rgn : lmb_region) (l : list lmb_property) : Prop :=
  rep rgn l /\ chain (-1) l.

(** A block of addresses that fits the address space. *)
Definition block_ok (base size : Z) : Prop :=
  0 <= base /\ 0 < size /\ base + size < 2 ^ 32.
Definition in_block (base size a : Z) : Prop := base <= a < base + size.
Definition free_block (l : list lmb_property) (base size : Z) : Prop :=
  forall a, in_block base size a -> ~ covered l a.

(** End of the last range of [l], [lo] when there is none. *)
Fixpoint hi (lo : Z) (l : list lmb_property) : Z :=
  match l with [] => lo | x :: l => hi (p_end x) l end.

Lemma chain_app lo l1 l2 : chain lo (l1 ++ l2) <-> chain lo l1 /\ chain (hi lo l1) l2.
Proof. revert lo. induction l1 as [|x l1 IH]; intros lo; simpl; [tauto|]. rewrite IH. tauto. Qed.

Lemma hi_app lo l1 l2 : hi lo (l1 ++ l2) = hi (hi lo l1) l2.
Proof. revert lo. induction l1 as [|x l1 IH]; intros lo; simpl; auto. Qed.

Lemma chain_hi lo l : chain lo l -> lo <= hi lo l.
Proof.
  revert lo. induction l as [|x l IH]; simpl; [lia|]. unfold p_end in *.
  intros lo (? & ? & ? & Hc). specialize (IH _ Hc). lia.
Qed.

Lemma chain_weaken lo lo' l : lo' <= lo -> chain lo l -> chain lo' l.
Proof. destruct l; simpl; [tauto | intuition lia]. Qed.

Lemma chain_below_hi lo l x :
  chain lo l -> In x l -> lo < p_base x /\ 0 < p_size x /\ p_end x <= hi lo l /\ p_end x < 2 ^ 32.
Proof.
  revert lo. induction l as [|y l IH]; simpl; [tauto|]. unfold p_end in *.
  intros lo (H1 & H2 & H3 & Hc) [-> | Hin].
  - pose proof (chain_hi _ _ Hc). lia.
  - destruct (IH _ Hc Hin). lia.
Qed.

Lemma covered_app l1 l2 a : covered (l1 ++ l2) a <-> covered l1 a \/ covered l2 a.
Proof. apply Exists_app. Qed.
Lemma covered_cons x l a : covered (x :: l) a <-> in_prop x a \/ covered l a.
Proof. apply Exists_cons. Qed.
Lemma covered_nil a : covered [] a <-> False.
Proof. apply Exists_nil. Qed.
Create Rewrite HintDb lmb.
#[export] Hint Rewrite chain_app hi_app covered_app covered_cons covered_nil : lmb.

(** ** The array loops as list operations *)

Lemma remove_loop_spec pre x post junk fuel i last :
  i = Z.of_nat (length pre) -> last = i + Z.of_nat (length post) ->
  (length post < fuel)%nat ->
  exists junk', length junk' = S (length junk) /\
    remove_loop fuel (pre ++ x :: post ++ junk) i last = Some (pre ++ post ++ junk').
Proof.
  revert pre x fuel i. induction post as [|y post IH]; intros pre x fuel i Hi Hl Hf;
    destruct fuel as [|fuel]; simpl in *; try lia.
  - zcase; [lia|]. exists (x :: junk). done.
  - zcase; [|lia].
    assert (Hget : aget (pre ++ x :: y :: post ++ junk) (i + 1) = Some y).
    { rewrite app_snoc. apply aget_mid. rewrite length_app; simpl; lia. }
    rewrite Hget. simpl.
    rewrite aset_mid by done. simpl.
    destruct (IH (pre ++ [y]) y fuel (i + 1)) as (junk' & Hlen & Hrun); try lia.
    { rewrite length_app; simpl; lia. }
    exists junk'. split; [done|]. by rewrite <- !app_assoc in Hrun.
Qed.

(** Entries that neither equal nor touch the block being added. *)
Definition skips (base size : Z) (x : lmb_property) : Prop :=
  ~ (p_base x = base /\ p_size x = size) /\
  lmb_addrs_adjacent base size (p_base x) (p_size x) = 0.

Lemma coalesce_scan_skip pre l rest fuel cnt base size i :
  Forall (skips base size) l -> i = Z.of_nat (length pre) ->
  i + Z.of_nat (length l) <= cnt -> (length l <= fuel)%nat ->
  coalesce_scan fuel (pre ++ l ++ rest) cnt base size i =
  coalesce_scan (fuel - length l) (pre ++ l ++ rest) cnt base size
    (i + Z.of_nat (length l)).
Proof.
  intros Hs. revert pre fuel i. induction Hs as [|x l [Hne Hadj] Hs IH];
    intros pre fuel i Hi Hc Hf; simpl in *.
  { f_equal; lia. }
  destruct fuel as [|fuel]; [lia|]. simpl.
  zcase; [|lia]. rewrite aget_mid by done. simpl.
  destruct ((p_base x =? base) && (p_size x =? size)) eqn:E; [exfalso; zbool; tauto|].
  rewrite Hadj. simpl.
  specialize (IH (pre ++ [x]) fuel (i + 1)). rewrite <- !app_assoc in IH. simpl in IH.
  rewrite IH by (rewrite ?length_app; simpl; lia). f_equal; lia.
Qed.

(** Entries after the insertion point move one slot up. *)
Lemma insert_loop_shift pre post w junk fuel base size i :
  Forall (fun x => base < p_base x) post ->
  i = Z.of_nat (length pre + length post) - 1 -> (length post <= fuel)%nat ->
  exists w',
    insert_loop fuel (pre ++ post ++ w :: junk) base size i =
    insert_loop (fuel - length post) (pre ++ w' :: post ++ junk) base size
      (Z.of_nat (length pre) - 1) /\
    (post = [] /\ w' = w \/ base < p_base w').
Proof.
  revert w junk fuel i. induction post as [|z post IH] using rev_ind;
    intros w junk fuel i Hall Hi Hf.
  { exists w. rewrite Nat.sub_0_r. simpl in *. split; [f_equal; lia | auto]. }
  rewrite length_app in *. simpl in *.
  apply Forall_app in Hall as [Hall Hz]. rewrite Forall_singleton in Hz.
  destruct fuel as [|fuel]; [lia|]. simpl. zcase; [|lia].
  assert (Heq : pre ++ (post ++ [z]) ++ w :: junk = (pre ++ post) ++ z :: w :: junk)
    by (by rewrite <- !app_assoc).
  rewrite Heq. rewrite aget_mid by (rewrite length_app; lia). simpl.
  zcase; [|lia].
  assert (Heq2 : (pre ++ post) ++ z :: w :: junk = ((pre ++ post) ++ [z]) ++ w :: junk)
    by (by rewrite <- !app_assoc).
  rewrite Heq2, aset_mid by (rewrite !length_app; simpl; lia). simpl.
  destruct (IH z (z :: junk) fuel (i - 1)) as (w' & Hrun & Hw'); [done|lia|lia|].
  exists w'. split.
  - rewrite <- !app_assoc in *. simpl in *. rewrite Hrun. f_equal; lia.
  - right. destruct Hw' as [[_ ->] |]; done.
Qed.

(** ** [lmb_add_region] *)

(** [x] lies beside the block with a gap. *)
Definition apart (base size : Z) (x : lmb_property) : Prop :=
  0 <= p_base x /\ 0 < p_size x /\ p_end x < 2 ^ 32 /\
  (p_end x < base \/ base + size < p_base x).

Lemma apart_skips base size x : block_ok base size -> apart base size x -> skips base size x.
Proof.
  unfold block_ok, apart, skips, p_end, lmb_addrs_adjacent. intros Hb Hx. split; [lia|].
  rewrite !u32_small by lia. zcase; [lia|]. zcase; lia.
Qed.

Lemma adjacent_left base size x :
  block_ok base size -> 0 <= p_base x -> 0 < p_size x -> p_end x = base ->
  lmb_addrs_adjacent base size (p_base x) (p_size x) = -1.
Proof.
  unfold block_ok, p_end, lmb_addrs_adjacent. intros.
  rewrite !u32_small by lia. zcase; [lia|]. zcase; lia.
Qed.

Lemma adjacent_right base size x :
  block_ok base size -> p_base x = base + size ->
  lmb_addrs_adjacent base size (p_base x) (p_size x) = 1.
Proof.
  unfold block_ok, lmb_addrs_adjacent. intros. rewrite u32_small by lia. zcase; lia.
Qed.

Lemma scan_skips base size l : block_ok base size -> Forall (apart base size) l ->
  Forall (skips base size) l.
Proof. intros Hb. apply Forall_impl. auto using apart_skips. Qed.

Lemma coalesce_scan_skip0 l rest fuel cnt base size :
  block_ok base size -> Forall (apart base size) l ->
  Z.of_nat (length l) <= cnt -> (length l <= fuel)%nat ->
  coalesce_scan fuel (l ++ rest) cnt base size 0 =
  coalesce_scan (fuel - length l) (l ++ rest) cnt base size (Z.of_nat (length l)).
Proof.
  intros Hb Hl Hc Hf. apply (coalesce_scan_skip [] l); auto using scan_skips; lia.
Qed.

Lemma coalesce_scan_none fuel l rest base size :
  block_ok base size -> Forall (apart base size) l -> (length l < fuel)%nat ->
  coalesce_scan fuel (l ++ rest) (Z.of_nat (length l)) base size 0 =
  Some (Scan_none (Z.of_nat (length l))).
Proof.
  intros Hb Hl Hf. rewrite coalesce_scan_skip0 by (auto; lia).
  destruct (fuel - length l)%nat eqn:E; [lia|]. simpl. zcase; [lia | done].
Qed.

Lemma coalesce_scan_left fuel pre x rest cnt base size :
  block_ok base size -> Forall (apart base size) pre -> (length pre < fuel)%nat ->
  Z.of_nat (length pre) < cnt -> 0 <= p_base x -> 0 < p_size x -> p_end x = base ->
  coalesce_scan fuel (pre ++ x :: rest) cnt base size 0 =
  Some (Scan_coalesced (Z.of_nat (length pre))
          (pre ++ mk_prop (p_base x) (p_size x + size) :: rest)).
Proof.
  intros Hb Hl Hf Hc Hx0 Hx Hxe.
  rewrite coalesce_scan_skip0 by (auto; lia).
  destruct (fuel - length pre)%nat eqn:E; [lia|]. simpl. zcase; [|lia].
  rewrite aget_mid by done. simpl. rewrite adjacent_left by auto.
  unfold block_ok, p_end in *. zcase; [lia|]. simpl.
  rewrite aset_mid, u32_small by (done || lia). done.
Qed.

Lemma coalesce_scan_right fuel pre x rest cnt base size :
  block_ok base size -> Forall (apart base size) pre -> (length pre < fuel)%nat ->
  Z.of_nat (length pre) < cnt -> 0 < p_size x -> p_end x < 2 ^ 32 ->
  p_base x = base + size ->
  coalesce_scan fuel (pre ++ x :: rest) cnt base size 0 =
  Some (Scan_coalesced (Z.of_nat (length pre))
          (pre ++ mk_prop base (p_size x + size) :: rest)).
Proof.
  intros Hb Hl Hf Hc Hx Hxe Hxb.
  rewrite coalesce_scan_skip0 by (auto; lia).
  destruct (fuel - length pre)%nat eqn:E; [lia|]. simpl. zcase; [|lia].
  rewrite aget_mid by done. simpl. rewrite adjacent_right by auto.
  unfold block_ok, p_end in *. zcase; [lia|]. simpl.
  rewrite aset_mid, !u32_small by (done || lia). simpl. do 4 f_equal. f_equal; lia.
Qed.

(** A free block falls in a gap of the list. *)
Lemma split_at lo l base size :
  chain lo l -> 0 < size -> free_block l base size -> lo <= base ->
  exists pre post, l = pre ++ post /\ hi lo pre <= base /\
    (forall x, head post = Some x -> base + size <= p_base x).
Proof.
  revert lo. induction l as [|x l IH]; intros lo Hc Hs Hf Hlo.
  { exists [], []. simpl. split_and!; [done|lia|done]. }
  simpl in Hc. destruct Hc as (H1 & H2 & H3 & Hc).
  assert (Hx : p_end x <= base \/ base + size <= p_base x).
  { destruct (Z_le_gt_dec (p_end x) base); [auto|]. right.
    destruct (Z_le_gt_dec (base + size) (p_base x)); [auto|]. exfalso.
    apply (Hf (Z.max base (p_base x))); [unfold in_block; lia|].
    apply covered_cons. left. unfold in_prop, p_end in *. lia. }
  destruct Hx as [Hx | Hx].
  - destruct (IH (p_end x)) as (pre & post & -> & Hhi & Hhd); auto.
    { intros a Ha Hcov. apply (Hf a Ha). apply covered_cons. auto. }
    exists (x :: pre), post. simpl. auto.
  - exists [], (x :: l). simpl. split_and!; [done|lia|]. intros ? [= <-]. done.
Qed.

Lemma chain_Forall_below lo l base size :
  -1 <= lo -> chain lo l -> hi lo l < base -> Forall (apart base size) l.
Proof.
  intros Hlo Hc Hhi. apply List.Forall_forall. intros x Hin.
  destruct (chain_below_hi _ _ _ Hc Hin) as (?&?&?&?). unfold apart. lia.
Qed.

Lemma chain_Forall_above lo l base size :
  0 < size -> 0 <= base -> chain lo l -> base + size <= lo -> Forall (apart base size) l.
Proof.
  intros Hs Hb Hc Hlo. apply List.Forall_forall. intros x Hin.
  destruct (chain_below_hi _ _ _ Hc Hin) as (?&?&?&?). unfold apart. lia.
Qed.

(** A non-empty table: its live entries and the stale slots after them. *)
Definition table (rgn : lmb_region) (l junk : list lmb_property) : Prop :=
  r_region rgn = l ++ junk /\ r_cnt rgn = Z.of_nat (length l) /\ (1 <= length l <= 8)%nat /\
  length (r_region rgn) = 9%nat.

Lemma table_rep rgn l junk : table rgn l junk -> rep rgn l.
Proof.
  intros (Hr & Hc & Hl & Hlen). split; [done|]. right. unfold MAX_LMB_REGIONS.
  split; [by intros -> ; simpl in Hl; lia|]. split_and!; [done | lia | eauto].
Qed.

Lemma rep_table rgn l : rep rgn l -> l <> [] -> exists junk, table rgn l junk.
Proof.
  intros [Hlen [[-> _] | (Hne & Hc & Hm & junk & Hr)]] Hl; [done|].
  exists junk. unfold MAX_LMB_REGIONS in *. destruct l; [done|]. simpl in *.
  repeat split; try done; simpl; lia.
Qed.

Lemma add_region_scan rgn l junk lo base size :
  table rgn l junk -> chain lo l ->
  lmb_add_region rgn base size =
  (sc ← coalesce_scan 10 (l ++ junk) (Z.of_nat (length l)) base size 0;
   match sc with
   | Scan_have => Some (0, rgn)
   | Scan_coalesced i l => add_rest (set_region rgn l) i 1 base size
   | Scan_none i => add_rest rgn i 0 base size
   end).
Proof.
  intros (Hr & Hc & Hl & Hlen) Hch. unfold lmb_add_region.
  rewrite Hlen, Hr, Hc. destruct l as [|x l]; [simpl in Hl; lia|].
  simpl in Hch. simpl app. rewrite aget_lookup by lia. simpl.
  destruct (p_size x =? 0) eqn:E; [zbool; lia|]. by rewrite andb_false_r.
Qed.

Lemma table_get rgn pre y post junk :
  table rgn (pre ++ y :: post) junk -> aget (r_region rgn) (Z.of_nat (length pre)) = Some y.
Proof. intros (-> & _). rewrite <- app_assoc. by apply aget_mid. Qed.

Lemma table_get_next rgn pre y z post junk :
  table rgn (pre ++ y :: z :: post) junk ->
  aget (r_region rgn) (Z.of_nat (length pre) + 1) = Some z.
Proof.
  intros (-> & _). rewrite app_snoc, <- app_assoc. apply aget_mid.
  rewrite length_app; simpl; lia.
Qed.

Lemma table_set rgn pre y y' post junk :
  table rgn (pre ++ y :: post) junk ->
  aset (r_region rgn) (Z.of_nat (length pre)) y' = Some (pre ++ y' :: post ++ junk) /\
  table (set_region rgn (pre ++ y' :: post ++ junk)) (pre ++ y' :: post) junk.
Proof.
  intros (Hr & Hc & Hl & Hlen). split.
  - rewrite Hr, <- app_assoc. by apply aset_mid.
  - rewrite Hr in Hlen. unfold table. simpl. rewrite <- app_assoc. split_and!; try done; len.
Qed.

(** After a coalescing [break] at the last entry, or before a gap. *)
Lemma add_rest_no_merge rgn pre y post junk base size :
  table rgn (pre ++ y :: post) junk -> 0 <= p_base y -> 0 < p_size y -> p_end y < 2 ^ 32 ->
  (forall z, head post = Some z -> p_end y < p_base z /\ 0 < p_size z /\ p_end z < 2 ^ 32) ->
  add_rest rgn (Z.of_nat (length pre)) 1 base size = Some (1, rgn).
Proof.
  intros Ht Hy0 Hy Hye Hz. pose proof Ht as (Hr & Hc & Hl & Hlen). unfold add_rest.
  rewrite length_app in *. simpl in *. rewrite !u32_small by lia.
  destruct post as [|z post]; simpl in *.
  { zcase; [lia|]. reflexivity. }
  destruct (Hz z eq_refl) as (Hz1 & Hz2 & Hz3). zcase; [|lia].
  unfold lmb_regions_adjacent.
  rewrite (table_get _ _ _ _ _ Ht), (table_get_next _ _ _ _ _ _ Ht). simpl.
  destruct (apart_skips (p_base y) (p_size y) z) as [_ ->];
    unfold block_ok, apart, p_end in *; [lia | lia | reflexivity].
Qed.

Lemma remove_region_list rgn pre x post junk r :
  r_region rgn = pre ++ x :: post ++ junk ->
  r_cnt rgn = Z.of_nat (length pre + S (length post)) -> r_cnt rgn <= MAX_LMB_REGIONS ->
  r = Z.of_nat (length pre) ->
  exists rgn' junk', lmb_remove_region rgn r = Some rgn' /\
    r_region rgn' = pre ++ post ++ junk' /\ r_cnt rgn' = r_cnt rgn - 1 /\
    length (r_region rgn') = length (r_region rgn).
Proof.
  intros Hr Hc Hm ->. unfold lmb_remove_region, MAX_LMB_REGIONS in *.
  rewrite u32_small by lia. rewrite Hr.
  edestruct (remove_loop_spec pre x post junk) as (junk' & Hj & Hrun);
    [done | | | erewrite Hrun].
  - lia.
  - rewrite length_app. simpl. rewrite length_app. lia.
  - simpl. eexists _, junk'. split_and!; [done..|]. simpl.
    rewrite !length_app. simpl. rewrite length_app. lia.
Qed.

(** After a coalescing [break] that closed the gap to the next entry. *)
Lemma add_rest_merge rgn pre y z post junk base size :
  table rgn (pre ++ y :: z :: post) junk -> 0 <= p_base y -> 0 < p_size y -> 0 < p_size z ->
  p_end y = p_base z -> p_end z < 2 ^ 32 ->
  exists rgn' junk', add_rest rgn (Z.of_nat (length pre)) 1 base size = Some (2, rgn') /\
    table rgn' (pre ++ mk_prop (p_base y) (p_size y + p_size z) :: post) junk'.
Proof.
  intros Ht Hy0 Hy Hz Hyz Hze. pose proof Ht as (Hr & Hc & Hl & Hlen). unfold add_rest.
  rewrite length_app in Hl, Hc; simpl in Hl, Hc. unfold p_end in *.
  rewrite !u32_small by lia. zcase; [|lia].
  pose proof (table_get _ _ _ _ _ Ht) as Hgy.
  pose proof (table_get_next _ _ _ _ _ _ Ht) as Hgz.
  unfold lmb_regions_adjacent. rewrite Hgy, Hgz. simpl.
  rewrite adjacent_right by (unfold block_ok, p_end in *; lia). simpl.
  unfold lmb_coalesce_regions. rewrite Hgy, Hgz. simpl.
  rewrite Hr, <- app_assoc. simpl. rewrite aset_mid by done. simpl.
  rewrite (u32_small (p_size y + p_size z)) by lia. set (y' := mk_prop (p_base y) _).
  destruct (remove_region_list (set_region rgn (pre ++ y' :: z :: post ++ junk))
      (pre ++ [y']) z post junk (Z.of_nat (length pre) + 1))
    as (rgn' & junk' & Hrun & Hr' & Hc' & Hl').
  { simpl. by rewrite app_snoc. }
  1-3: unfold MAX_LMB_REGIONS; rewrite ?length_app; simpl; lia.
  rewrite Hrun. simpl. exists rgn', junk'. split; [done|]. simpl in *.
  rewrite Hr in Hlen. rewrite <- !app_assoc in *. simpl in *.
  unfold table. rewrite Hc', Hl', Hr', <- app_assoc. simpl.
  split_and!; try done; len.
Qed.

(** The insertion loop followed by the test of slot 0, as in the code. *)
Definition insert_sorted (l : list lmb_property) (base size i : Z) : option (list lmb_property) :=
  l ← insert_loop 10 l base size i;
  first ← aget l 0;
  if base <? p_base first then aset l 0 (mk_prop base size) else Some l.

Lemma insert_sorted_front z post w junk base size :
  Forall (fun x => base < p_base x) (z :: post) -> (length (z :: post) < 8)%nat ->
  insert_sorted ((z :: post) ++ w :: junk) base size (Z.of_nat (length (z :: post)) - 1) =
  Some (mk_prop base size :: (z :: post) ++ junk).
Proof.
  intros Hab Hl. unfold insert_sorted.
  destruct (insert_loop_shift [] (z :: post) w junk 10 base size
    (Z.of_nat (length (z :: post)) - 1)) as (w' & Hrun & Hw'); [done | done | lia |].
  simpl app in Hrun. simpl app. rewrite Hrun. clear Hrun.
  destruct Hw' as [[? _] | Hw']; [done|].
  destruct (10 - length (z :: post))%nat as [|f] eqn:Ef; [lia|]. simpl.
  zcase; [done | lia].
Qed.

Lemma insert_sorted_after pre p post w junk base size lo :
  Forall (fun x => base < p_base x) post -> (length (pre ++ p :: post) < 8)%nat ->
  chain lo (pre ++ [p]) -> p_base p <= base ->
  insert_sorted ((pre ++ p :: post) ++ w :: junk) base size
    (Z.of_nat (length (pre ++ p :: post)) - 1) =
  Some ((pre ++ p :: mk_prop base size :: post) ++ junk).
Proof.
  intros Hab Hl Hch Hp. unfold insert_sorted.
  destruct (insert_loop_shift (pre ++ [p]) post w junk 10 base size
    (Z.of_nat (length (pre ++ p :: post)) - 1)) as (w' & Hrun & _); [done | len | len |].
  rewrite <- !app_assoc in Hrun. rewrite <- app_assoc. simpl app in *.
  rewrite Hrun. clear Hrun.
  destruct (10 - length post)%nat as [|f] eqn:Ef; [len|]. simpl.
  rewrite length_app. simpl length. zcase; [|lia].
  rewrite aget_mid by lia. simpl. zcase; [lia|].
  rewrite (app_snoc pre p), aset_mid by len. simpl.
  assert (Hfirst : exists first, aget ((pre ++ [p]) ++ mk_prop base size :: post ++ junk) 0
      = Some first /\ p_base first <= base).
  { rewrite aget_lookup by lia. destruct pre as [|q pre]; simpl; [eauto|].
    eexists. split; [done|]. autorewrite with lmb in Hch. simpl in Hch.
    destruct Hch as ((?&?&?&Hq) & Hq' & _). pose proof (chain_hi _ _ Hq). unfold p_end in *. lia. }
  destruct Hfirst as (first & -> & Hfb). simpl. zcase; [lia|].
  by rewrite <- !app_assoc.
Qed.

Lemma chain_above lo post base :
  chain lo post -> (forall z, head post = Some z -> base < p_base z) ->
  Forall (fun x => base < p_base x) post.
Proof.
  intros Hch Hz. destruct post as [|z post]; [done|]. specialize (Hz z eq_refl).
  constructor; [done|]. apply List.Forall_forall. intros x Hin.
  destruct Hch as (? & ? & ? & Hch). destruct (chain_below_hi _ _ _ Hch Hin).
  unfold p_end in *. lia.
Qed.

(** The block touches nothing and the table has room: it is inserted. *)
Lemma add_rest_insert rgn pre post junk base size lo :
  table rgn (pre ++ post) junk -> (length (pre ++ post) < 8)%nat ->
  chain lo (pre ++ post) -> hi lo pre < base ->
  (forall z, head post = Some z -> base < p_base z) ->
  exists rgn' junk', add_rest rgn (Z.of_nat (length (pre ++ post))) 0 base size = Some (0, rgn') /\
    table rgn' (pre ++ mk_prop base size :: post) junk'.
Proof.
  intros Ht Hlt Hch Hlo Hpost. pose proof Ht as (Hr & Hc & Hl & Hlen).
  pose proof Hch as [Hc1 Hc2]%chain_app. pose proof (chain_above _ _ _ Hc2 Hpost) as Hab.
  destruct junk as [|w junk]; [rewrite Hr, app_nil_r in Hlen; lia|].
  assert (Hins : insert_sorted ((pre ++ post) ++ w :: junk) base size
      (Z.of_nat (length (pre ++ post)) - 1) = Some ((pre ++ mk_prop base size :: post) ++ junk)).
  { destruct pre as [|p pre _] using rev_ind.
    - destruct post; [simpl in Hl; lia|]. by apply insert_sorted_front.
    - assert (Heq : (pre ++ [p]) ++ post = pre ++ p :: post) by (by rewrite <- app_assoc).
      rewrite Heq in *. rewrite (insert_sorted_after _ _ _ _ _ _ _ lo);
        [by rewrite <- !app_assoc | done | done | done |].
      rewrite hi_app in Hlo. simpl in Hlo. autorewrite with lmb in Hc1. simpl in Hc1.
      unfold p_end in *. lia. }
  unfold add_rest, MAX_LMB_REGIONS. rewrite Hc, !u32_small by lia. zcase; [lia|].
  change (Some 0 ≫= ?f) with (f 0). cbv beta. change (negb (0 =? 0)) with false. cbv iota.
  change (Some (rgn, 0) ≫= ?f) with (f (rgn, 0)). cbv beta iota.
  rewrite Hc. change (negb (0 =? 0)) with false. cbv iota. zcase; [lia|].
  rewrite s32_small, Hlen, Hr by lia. unfold insert_sorted in Hins.
  destruct (insert_loop 10 _ _ _ _) as [l1|]; [|done]. simpl in *.
  destruct (aget l1 0) as [first|]; [|done]. simpl in *. rewrite Hins. simpl.
  eexists _, junk. split; [done|]. rewrite Hr in Hlen. unfold table. simpl.
  rewrite u32_small by lia. split_and!; try done; len.
Qed.

(** The four outcomes of adding a free block, on the abstract list. *)
Inductive added (base size : Z) : list lmb_property -> list lmb_property -> Z -> Prop :=
  | added_empty : added base size [] [mk_prop base size] 0
  | added_left pre x post : p_end x = base ->
      (forall z, head post = Some z -> base + size < p_base z) ->
      added base size (pre ++ x :: post) (pre ++ mk_prop (p_base x) (p_size x + size) :: post) 1
  | added_right pre z post : p_base z = base + size -> hi (-1) pre < base ->
      added base size (pre ++ z :: post) (pre ++ mk_prop base (p_size z + size) :: post) 1
  | added_both pre x z post : p_end x = base -> p_base z = base + size ->
      added base size (pre ++ x :: z :: post)
        (pre ++ mk_prop (p_base x) (p_size x + size + p_size z) :: post) 2
  | added_new pre post : pre ++ post <> [] -> hi (-1) pre < base ->
      (forall z, head post = Some z -> base + size < p_base z) ->
      added base size (pre ++ post) (pre ++ mk_prop base size :: post) 0.

Lemma added_covered base size l l' ret a :
  block_ok base size -> chain (-1) l -> added base size l l' ret ->
  covered l' a <-> covered l a \/ in_block base size a.
Proof.
  intros Hb Hch H; destruct H; autorewrite with lmb in *; simpl in *;
    unfold block_ok, in_block, in_prop, p_end in *; simpl in *; intuition lia.
Qed.

Lemma added_chain base size l l' ret :
  block_ok base size -> chain (-1) l -> added base size l l' ret -> chain (-1) l'.
Proof.
  intros Hb Hch H; destruct H as [| pre x post Hx Hz | pre z post Hz Hp | pre x z post Hx Hz
    | pre post _ Hp Hz]; autorewrite with lmb in *; simpl in *; try destruct post as [|y post];
    try specialize (Hz y eq_refl); unfold block_ok, p_end in *; simpl in *; intuition lia.
Qed.

Definition add_ok (rgn : lmb_region) (l : list lmb_property) (base size : Z) : Prop :=
  exists l' ret rgn', added base size l l' ret /\
    lmb_add_region rgn base size = Some (ret, rgn') /\ rep rgn' l'.

Lemma add_dummy rgn base size : rep rgn [] -> add_ok rgn [] base size.
Proof.
  intros [Hlen [(_ & Hc & junk & Hr) | (? & _)]]; [|done].
  eexists _, _, _. split; [constructor|]. unfold lmb_add_region.
  rewrite Hc, Hr, aget_lookup by lia. simpl.
  split; [done|]. apply (table_rep _ _ junk). unfold table. rewrite Hr in Hlen.
  simpl in *. split_and!; try done; lia.
Qed.

Lemma add_touch_left rgn pre x post junk base size :
  table rgn (pre ++ x :: post) junk -> chain (-1) (pre ++ x :: post) -> block_ok base size ->
  p_end x = base -> (forall z, head post = Some z -> base + size <= p_base z) ->
  add_ok rgn (pre ++ x :: post) base size.
Proof.
  intros Ht Hch Hb Hx Hz. unfold add_ok. rewrite (add_region_scan _ _ _ _ _ _ Ht Hch).
  pose proof Ht as (Hr & Hc & Hl & Hlen). rewrite <- app_assoc. simpl app.
  autorewrite with lmb in Hch. simpl in Hch. destruct Hch as (Hpre & Hx1 & Hx2 & Hx3 & Hpost).
  pose proof (chain_hi _ _ Hpre).
  rewrite coalesce_scan_left; try (done || lia || len).
  2:{ eapply (chain_Forall_below (-1)); unfold p_end in *; (lia || done). }
  simpl. set (x' := mk_prop (p_base x) (p_size x + size)).
  destruct (table_set _ _ _ x' _ _ Ht) as [_ Ht'].
  destruct post as [|z post].
  - do 3 eexists. split; [by apply added_left|].
    rewrite (add_rest_no_merge _ _ _ _ _ _ _ Ht'); unfold block_ok, p_end in *; simpl; try (done || lia).
    eauto using table_rep.
  - specialize (Hz z eq_refl). simpl in Hpost. destruct (decide (p_base z = base + size)).
    + destruct (add_rest_merge _ _ _ _ _ _ base size Ht') as (rgn' & junk' & -> & Ht'');
        unfold block_ok, p_end in *; simpl in *; try lia.
      do 3 eexists. split; [by apply added_both|]. eauto using table_rep.
    + do 3 eexists. split; [apply added_left; [done|]; intros ? [= <-]; lia|].
      rewrite (add_rest_no_merge _ _ _ _ _ _ _ Ht'); unfold block_ok, p_end in *; simpl in *;
        try (done || lia); [eauto using table_rep|]. intros ? [= <-]. unfold p_end. lia.
Qed.

Lemma add_touch_right rgn pre z post junk base size :
  table rgn (pre ++ z :: post) junk -> chain (-1) (pre ++ z :: post) -> block_ok base size ->
  p_base z = base + size -> hi (-1) pre < base -> add_ok rgn (pre ++ z :: post) base size.
Proof.
  intros Ht Hch Hb Hz Hp. unfold add_ok. rewrite (add_region_scan _ _ _ _ _ _ Ht Hch).
  pose proof Ht as (Hr & Hc & Hl & Hlen). rewrite <- app_assoc. simpl app.
  autorewrite with lmb in Hch. simpl in Hch. destruct Hch as (Hpre & Hz1 & Hz2 & Hz3 & Hpost).
  rewrite coalesce_scan_right; try (done || lia || len).
  2:{ eapply (chain_Forall_below (-1)); (lia || done). }
  simpl. set (z' := mk_prop base (p_size z + size)).
  destruct (table_set _ _ _ z' _ _ Ht) as [_ Ht'].
  do 3 eexists. split; [by apply added_right|].
  rewrite (add_rest_no_merge _ _ _ _ _ _ _ Ht'); unfold block_ok, p_end in *; simpl; try lia.
  - eauto using table_rep.
  - destruct post; [done|]. intros ? [= <-]. simpl in Hpost. unfold p_end in *. lia.
Qed.

Lemma add_apart rgn pre post junk base size :
  table rgn (pre ++ post) junk -> chain (-1) (pre ++ post) -> block_ok base size ->
  hi (-1) pre < base -> (forall z, head post = Some z -> base + size < p_base z) ->
  add_ok rgn (pre ++ post) base size \/
  lmb_add_region rgn base size = Some (-1, rgn) /\ length (pre ++ post) = 8%nat.
Proof.
  intros Ht Hch Hb Hp Hz. unfold add_ok. rewrite (add_region_scan _ _ _ _ _ _ Ht Hch).
  pose proof Ht as (Hr & Hc & Hl & Hlen).
  rewrite coalesce_scan_none; try (done || lia).
  2:{ pose proof Hch as [Hc1 Hc2]%chain_app. apply Forall_app. split.
      - eapply (chain_Forall_below (-1)); (lia || done).
      - unfold block_ok in Hb. destruct post as [|z post]; [done|]. specialize (Hz z eq_refl).
        apply (chain_Forall_above (p_base z - 1)); try lia. simpl in *. intuition lia. }
  simpl. destruct (decide (length (pre ++ post) = 8%nat)) as [H8 | H8].
  - right. split; [|done]. unfold add_rest. rewrite Hc, H8. simpl. by rewrite Hc, H8.
  - left. destruct (add_rest_insert rgn pre post junk base size (-1)) as (rgn' & junk' & -> & Ht');
      try (done || lia).
    { intros z Hz'. specialize (Hz z Hz'). unfold block_ok in Hb. lia. }
    do 3 eexists. split; [apply added_new; try done; intros Hnil; rewrite Hnil in Hl; simpl in Hl; lia|].
    eauto using table_rep.
Qed.

Lemma add_region_spec rgn l base size :
  wf_region rgn l -> block_ok base size -> free_block l base size ->
  add_ok rgn l base size \/
  lmb_add_region rgn base size = Some (-1, rgn) /\ length l = 8%nat.
Proof.
  intros [Hrep Hch] Hb Hf. destruct (decide (l = [])) as [-> | Hne]; [left; by apply add_dummy|].
  destruct (rep_table _ _ Hrep Hne) as (junk & Ht). pose proof Hb as (Hb0 & Hb1 & Hb2).
  destruct (split_at (-1) l base size) as (pre & post & -> & Hhi & Hhd); auto; [lia|].
  destruct (decide (hi (-1) pre = base)) as [Htouch | Hgap].
  - left. destruct pre as [|x pre _] using rev_ind; [simpl in *; lia|].
    rewrite hi_app in Htouch. simpl in Htouch. rewrite <- app_assoc in *. simpl app in *.
    by eapply add_touch_left.
  - destruct post as [|z post].
    + apply (add_apart _ _ _ junk); auto; [lia | done].
    + specialize (Hhd z eq_refl). destruct (decide (p_base z = base + size)).
      * left. eapply add_touch_right; eauto. lia.
      * apply (add_apart _ _ _ junk); auto; [lia|]. intros ? [= <-]. lia.
Qed.

(** ** Alignment *)

Lemma align_mask k : 0 <= k < 32 -> u32 (2 ^ k - 1) = Z.ones k.
Proof.
  intros Hk. pose proof (Z.pow_pos_nonneg 2 k). pose proof (Z.pow_lt_mono_r 2 k 32).
  rewrite u32_small, Z.ones_equiv by lia. lia.
Qed.

Lemma land_not_ones addr k :
  0 <= addr < 2 ^ 32 -> 0 <= k < 32 -> Z.land addr (u32 (Z.lnot (Z.ones k))) = addr / 2 ^ k * 2 ^ k.
Proof.
  intros Ha Hk. unfold u32. rewrite <- Z.land_ones, Z.land_assoc, (Z.land_comm addr), <- Z.land_assoc by lia.
  rewrite (Z.land_ones addr), (Z.mod_small addr) by lia.
  rewrite Z.land_comm, <- Z.ldiff_land, Z.ldiff_ones_r by lia.
  by rewrite Z.shiftl_mul_pow2, Z.shiftr_div_pow2 by lia.
Qed.

Lemma align_down_eq addr k :
  0 <= addr < 2 ^ 32 -> 0 <= k < 32 -> lmb_align_down addr (2 ^ k) = addr / 2 ^ k * 2 ^ k.
Proof. intros Ha Hk. unfold lmb_align_down. rewrite align_mask by done. by apply land_not_ones. Qed.

Lemma align_down_spec addr k :
  0 <= addr < 2 ^ 32 -> 0 <= k < 32 ->
  let a := lmb_align_down addr (2 ^ k) in
  0 <= a <= addr /\ (2 ^ k | a) /\ (forall b, (2 ^ k | b) -> b <= addr -> b <= a).
Proof.
  intros Ha Hk. cbv zeta. rewrite align_down_eq by done.
  pose proof (Z.pow_pos_nonneg 2 k). pose proof (Z.div_mod addr (2 ^ k)).
  pose proof (Z.mod_pos_bound addr (2 ^ k)). pose proof (Z.div_pos addr (2 ^ k)).
  split; [nia|]. split; [by exists (addr / 2 ^ k)|]. intros b [q ->] Hb.
  apply Z.mul_le_mono_nonneg_r; [lia|]. apply Z.div_le_lower_bound; lia.
Qed.

Lemma align_up_multiple size k :
  0 <= k < 32 -> 0 < size < 2 ^ 32 - 2 ^ k -> (2 ^ k | size) -> lmb_align_up size (2 ^ k) = size.
Proof.
  intros Hk Hs [q ->]. unfold lmb_align_up. rewrite align_mask by done.
  pose proof (Z.pow_pos_nonneg 2 k).
  rewrite land_not_ones, Z.ones_equiv by auto with cmodel.
  rewrite u32_small, Z.div_add_l, Z.div_small by lia. lia.
Qed.

(** ** Overlap search *)

Lemma overlap_iff base size x :
  block_ok base size -> 0 <= p_base x -> 0 <= p_size x -> p_end x < 2 ^ 32 ->
  lmb_addrs_overlap base size (p_base x) (p_size x) = true <->
  base < p_end x /\ p_base x < base + size.
Proof.
  unfold block_ok, lmb_addrs_overlap, p_end. intros Hb H0 H1 H2.
  rewrite !u32_small by lia. rewrite andb_true_iff, !Z.ltb_lt. tauto.
Qed.

Lemma overlap_scan_spec pre l junk fuel cnt base size lo :
  block_ok base size -> -1 <= lo -> chain lo l -> cnt = Z.of_nat (length (pre ++ l)) ->
  (length l < fuel)%nat ->
  (overlap_scan fuel (pre ++ l ++ junk) cnt base size (Z.of_nat (length pre)) = Some (-1) /\
   free_block l base size) \/
  (exists j x, overlap_scan fuel (pre ++ l ++ junk) cnt base size (Z.of_nat (length pre)) = Some j /\
     0 <= j /\ aget (pre ++ l ++ junk) j = Some x /\ In x l /\
     base < p_end x /\ p_base x < base + size).
Proof.
  revert pre fuel lo. induction l as [|x l IH]; intros pre fuel lo Hb Hlo Hch Hcnt Hf;
    (destruct fuel as [|fuel]; [simpl in *; lia|]); simpl.
  - left. rewrite app_nil_r in Hcnt. zcase; [lia|]. split; [done|]. by intros a _ ?%covered_nil.
  - zcase; [|len]. rewrite aget_mid by done. simpl in *.
    destruct Hch as (H1 & H2 & H3 & Hch). unfold p_end in H3.
    destruct (lmb_addrs_overlap _ _ _ _) eqn:E.
    + right. apply overlap_iff in E; unfold p_end in *; try lia || done.
      eexists _, x. split; [done|]. rewrite aget_mid by done. split_and!; auto; lia.
    + destruct (IH (pre ++ [x]) fuel (p_end x)) as [[Hrun Hfree] | (j & y & Hrun & Hj & Hg & Hin & Ho)];
        unfold p_end in *; auto; try lia; try len.
      all: rewrite <- app_assoc in *; simpl in *;
        replace (Z.of_nat (length (pre ++ [x]))) with (Z.of_nat (length pre) + 1) in Hrun by len;
        rewrite Hrun.
      * left. split; [done|]. intros a Ha [Hx | Hc]%covered_cons; [|by apply (Hfree a)].
        assert (lmb_addrs_overlap base size (p_base x) (p_size x) = true); [|congruence].
        apply overlap_iff; unfold in_prop, in_block, p_end in *; try lia || done.
      * right. exists j, y. tauto.
Qed.

Lemma overlaps_region_spec rgn l base size :
  wf_region rgn l -> block_ok base size ->
  (lmb_overlaps_region rgn base size = Some (-1) /\ free_block l base size) \/
  (exists j x, lmb_overlaps_region rgn base size = Some j /\ 0 <= j /\
     aget (r_region rgn) j = Some x /\ In x l /\ base < p_end x /\ p_base x < base + size).
Proof.
  intros [[Hlen [(-> & Hc & junk & Hr) | (Hne & Hc & Hm & junk & Hr)]] Hch] Hb;
    unfold lmb_overlaps_region; rewrite Hlen, Hr, Hc.
  - left. split; [|by intros a _ ?%covered_nil].
    destruct Hb as (Hb & _). simpl. unfold lmb_addrs_overlap. rewrite u32_small by lia.
    by rewrite (proj2 (Z.ltb_ge _ _)) by lia.
  - unfold MAX_LMB_REGIONS in *.
    apply (overlap_scan_spec [] l junk _ _ _ _ (-1)); auto; simpl in *; try lia.
Qed.

(** ** Allocation *)

(** [fits l lo top size align a]: a block of [size] bytes may be placed at
    [a], inside [[lo, top)] and clear of the reserved ranges [l]. *)
Definition fits (l : list lmb_property) (lo top size align a : Z) : Prop :=
  0 < a /\ lo <= a /\ a + size <= top /\ (align | a) /\ free_block l a size.

(** The reserved ranges that start below [top]: each turn of the [while]
    loop leaves one of them above. *)
Definition below (l : list lmb_property) (top : Z) : nat :=
  length (filter (fun x => p_base x < top) l).

Lemma below_le l t t' : t' <= t -> (below l t' <= below l t)%nat.
Proof.
  intros Ht. unfold below. induction l as [|x l IH]; [done|].
  rewrite !filter_cons. repeat case_decide; simpl; lia.
Qed.

Lemma below_lt l t t' x : In x l -> p_base x < t -> t' <= p_base x -> (below l t' < below l t)%nat.
Proof.
  intros Hin Hx Hx'. unfold below in *. induction l as [|y l IH]; [done|].
  rewrite !filter_cons. destruct Hin as [-> | Hin].
  - case_decide; [lia|]. case_decide; [|lia]. pose proof (below_le l t t'). unfold below in *. simpl. lia.
  - specialize (IH Hin). repeat case_decide; simpl; lia.
Qed.

(** A candidate not above [base] that avoids the range [x] met at [base]
    lies below [x]. *)
Lemma fits_skip l lo top size k base x a :
  In x l -> 0 < p_size x -> base < p_end x -> p_base x < base + size -> 0 < size ->
  fits l lo top size (2 ^ k) a -> a <= base -> a <= p_base x - size.
Proof.
  intros Hin Hx0 Hx1 Hx2 Hs (Ha1 & Ha2 & Ha3 & Ha4 & Hf) Hab.
  destruct (Z_le_gt_dec a (p_base x - size)); [done|]. exfalso.
  apply (Hf (Z.max a (p_base x))); [unfold in_block; lia|].
  apply List.Exists_exists. exists x. split; [done|]. unfold in_prop, p_end in *. lia.
Qed.

Definition alloc_outcome (res : lmb_region) (l : list lmb_property) (lo top size align : Z)
    (out : option (option (Z * lmb_region))) : Prop :=
  (out = Some None /\ forall a, ~ fits l lo top size align a) \/
  (exists b, fits l lo top size align b /\ (forall a, fits l lo top size align a -> a <= b) /\
   out = ('(ret, res') ← lmb_add_region res b (lmb_align_up size align);
          Some (Some (if ret <? 0 then (0, res') else (b, res'))))).

Lemma alloc_loop_spec fuel res l lo top size k base :
  wf_region res l -> 0 < size -> 0 <= k < 32 -> 0 <= lo -> top < 2 ^ 32 ->
  0 <= base -> (2 ^ k | base) -> base + size <= top ->
  (forall a, fits l lo top size (2 ^ k) a -> a <= base) ->
  (below l (base + size) < fuel)%nat ->
  alloc_outcome res l lo top size (2 ^ k) (alloc_loop fuel res lo size (2 ^ k) base).
Proof.
  intros Hwf Hs Hk Hlo Htop. revert base.
  induction fuel as [|fuel IH]; intros base Hb0 Hal Hbt Hmax Hfuel; [lia|]. simpl.
  destruct (negb (base =? 0) && (lo <=? base)) eqn:Eguard.
  2:{ left. split; [done|]. intros a Ha. specialize (Hmax a Ha). destruct Ha as (?&?&_).
      apply andb_false_iff in Eguard as [E | E]; zbool; lia. }
  zbool. destruct (overlaps_region_spec res l base size) as
    [[-> Hfree] | (j & x & -> & Hj & Hget & Hin & Hx1 & Hx2)]; [done | unfold block_ok; lia | |].
  - right. exists base. split; [unfold fits; split_and!; (done || lia)|]. auto.
  - simpl. zcase; [lia|]. rewrite Hget. simpl. destruct Hwf as [Hrep Hch].
    destruct (chain_below_hi _ _ _ Hch Hin) as (Hx3 & Hx4 & _ & Hx5).
    assert (Hskip : forall a, fits l lo top size (2 ^ k) a -> a <= p_base x - size).
    { intros a Ha. eapply fits_skip; eauto. }
    zcase.
    + left. split; [done|]. intros a Ha. pose proof (Hskip a Ha). destruct Ha. lia.
    + unfold p_end in *. rewrite u32_small by lia.
      destruct (align_down_spec (p_base x - size) k) as (Hd1 & Hd2 & Hd3); [lia | done |].
      apply IH; auto; try lia.
      * intros a Ha. apply Hd3; [apply Ha | auto].
      * pose proof (below_lt l (base + size)
          (lmb_align_down (p_base x - size) (2 ^ k) + size) x Hin Hx2). lia.
Qed.

(** Upper bound of the addresses tried in memory region [x]. *)
Definition window (x : lmb_property) (max_addr : Z) : Z :=
  if max_addr =? LMB_ALLOC_ANYWHERE then p_end x else Z.min (p_end x) max_addr.

Definition max_ok (max_addr size : Z) : Prop :=
  max_addr = LMB_ALLOC_ANYWHERE \/ size <= max_addr < 2 ^ 32.

(** The block may be placed at [a] in one of the memory regions [ml]. *)
Definition placeable (ml l : list lmb_property) (size align max_addr a : Z) : Prop :=
  Exists (fun x => fits l (p_base x) (window x max_addr) size align a) ml.

Lemma first_base_spec l lo x size k max_addr :
  chain lo [x] -> -1 <= lo -> 0 < size -> 0 <= k < 32 -> max_ok max_addr size ->
  match first_base (p_base x) (p_size x) size (2 ^ k) max_addr with
  | None => forall a, ~ fits l (p_base x) (window x max_addr) size (2 ^ k) a
  | Some b => 0 <= b /\ (2 ^ k | b) /\ b + size <= window x max_addr /\
      forall a, fits l (p_base x) (window x max_addr) size (2 ^ k) a -> a <= b
  end.
Proof.
  unfold first_base, window, max_ok, LMB_ALLOC_ANYWHERE. simpl. unfold p_end.
  intros (H1 & H2 & H3 & _) Hlo Hs Hk Hmax.
  zcase; [intros a (Ha1 & Ha2 & Ha3 & _); zcase_in Ha3; lia|].
  assert (Hdown : forall t, 0 <= t - size -> t < 2 ^ 32 ->
    let b := lmb_align_down (u32 (t - size)) (2 ^ k) in
    0 <= b /\ (2 ^ k | b) /\ b + size <= t /\ forall a, fits l (p_base x) t size (2 ^ k) a -> a <= b).
  { intros t Ht1 Ht2. cbv zeta. rewrite u32_small by lia.
    destruct (align_down_spec (t - size) k) as (Hd1 & Hd2 & Hd3); [lia | done |].
    split_and!; [lia | done | lia |]. intros a (?&?&?&?&_). apply Hd3; [done | lia]. }
  zcase; [rewrite (u32_small (_ + _)) by lia; apply Hdown; lia|].
  zcase; [|intros a (?&?&?&_); lia].
  rewrite (u32_small (_ + _)) by lia. rewrite (proj2 (Z.ltb_ge (p_base x + p_size x) _)) by lia.
  apply Hdown; lia.
Qed.

Definition loop_outcome (m : lmb) (ml l : list lmb_property) (size align max_addr : Z)
    (out : option (Z * lmb_region)) : Prop :=
  (out = Some (0, reserved m) /\ forall a, ~ placeable ml l size align max_addr a) \/
  (exists b, placeable ml l size align max_addr b /\
   (forall a, placeable ml l size align max_addr a -> a <= b) /\
   out = ('(ret, res') ← lmb_add_region (reserved m) b (lmb_align_up size align);
          Some (if ret <? 0 then (0, res') else (b, res')))).

(** A memory region with no room changes nothing of the outcome. *)
Lemma loop_outcome_snoc m ml x l size align max_addr out :
  (forall a, ~ fits l (p_base x) (window x max_addr) size align a) ->
  loop_outcome m ml l size align max_addr out ->
  loop_outcome m (ml ++ [x]) l size align max_addr out.
Proof.
  intros Hno IH.
  assert (Hiff : forall a, placeable (ml ++ [x]) l size align max_addr a <->
    placeable ml l size align max_addr a).
  { intros a. unfold placeable. rewrite Exists_app, Exists_cons, Exists_nil.
    specialize (Hno a). tauto. }
  unfold loop_outcome in *. setoid_rewrite Hiff. exact IH.
Qed.

(** Candidates of lower memory regions are lower. *)
Lemma placeable_lower ml x l size align max_addr a b :
  chain (-1) (ml ++ [x]) -> 0 < size ->
  placeable ml l size align max_addr a -> p_base x <= b -> a <= b.
Proof.
  intros [Hch Hx]%chain_app Hs (y & Hin & Ha)%List.Exists_exists Hb.
  destruct (chain_below_hi _ _ _ Hch Hin) as (?&?&?&_). simpl in Hx.
  destruct Ha as (_ & _ & Ha & _). unfold window in Ha. zcase_in Ha; lia.
Qed.

Lemma below_fuel rgn l top : wf_region rgn l -> (below l top < S (S (length (r_region rgn))))%nat.
Proof.
  intros [(Hl & [(-> & _) | (_ & Hc & Hm & junk & Hr)]) _]; unfold below; [simpl; lia|].
  pose proof (length_filter (fun x => p_base x < top) l). unfold MAX_LMB_REGIONS in *. lia.
Qed.

#[local] Arguments alloc_loop : simpl never.

Lemma region_loop_spec m ml rest l size k max_addr :
  r_region (memory m) = ml ++ rest -> chain (-1) ml -> wf_region (reserved m) l ->
  0 < size -> 0 <= k < 32 -> max_ok max_addr size ->
  loop_outcome m ml l size (2 ^ k) max_addr
    (region_loop (length ml) m size (2 ^ k) max_addr).
Proof.
  intros Hmem Hch Hwf Hs Hk Hmax. revert rest Hmem.
  induction ml as [|x ml IH] using rev_ind; intros rest Hmem.
  { left. split; [done|]. by intros a ?%Exists_nil. }
  rewrite length_app, Nat.add_1_r. cbn [region_loop]. rewrite <- app_assoc in Hmem. simpl in Hmem.
  rewrite Hmem, aget_mid by done. simpl mbind.
  pose proof (fun a b => placeable_lower _ _ l size (2 ^ k) max_addr a b Hch Hs) as Hlow.
  apply chain_app in Hch as [Hch Hx]. pose proof (chain_hi _ _ Hch) as Hhi.
  specialize (IH Hch _ Hmem).
  pose proof (first_base_spec l _ x size k max_addr Hx Hhi Hs Hk Hmax) as Hfb.
  destruct (first_base _ _ _ _ _) as [b|]; [|by apply loop_outcome_snoc].
  destruct Hfb as (Hb0 & Hbal & Hbt & Hbmax). simpl in Hx.
  assert (Hwin : window x max_addr < 2 ^ 32) by (unfold window; zcase; lia).
  destruct (alloc_loop_spec (S (S (length (r_region (reserved m))))) (reserved m) l (p_base x)
    (window x max_addr) size k b) as [[-> Hno] | (b' & Hfit & Hmx & ->)];
    auto using below_fuel; try lia.
  - by apply loop_outcome_snoc.
  - right. exists b'. split; [|split].
    + apply Exists_app. right. by apply Exists_cons_hd.
    + intros a [Ha | Ha]%Exists_app; [apply (Hlow a); [done | apply Hfit]|].
      apply Exists_cons in Ha as [Ha | ?%Exists_nil]; [auto | done].
    + destruct (lmb_add_region _ _ _) as [[ret res']|]; simpl; [|done]. by zcase.
Qed.

(** ** Memory safety of [lmb_add_region] on any block *)

Definition bounded (rgn : lmb_region) : Prop :=
  length (r_region rgn) = 9%nat /\ 1 <= r_cnt rgn <= MAX_LMB_REGIONS.

Lemma remove_loop_total fuel l i last :
  0 <= i -> last < Z.of_nat (length l) -> (Z.to_nat (last - i) < fuel)%nat ->
  exists l', remove_loop fuel l i last = Some l' /\ length l' = length l.
Proof.
  revert l i. induction fuel as [|fuel IH]; intros l i Hi Hlast Hf; [lia|]. simpl.
  zcase; [|eauto]. destruct (aget_is_Some l (i + 1)) as [x ->]; [lia|]. simpl.
  rewrite aset_Some by lia. simpl.
  edestruct IH as (l' & -> & Hl'); [..|exists l'; split; [done|]]; len.
Qed.

Lemma coalesce_scan_total fuel l cnt base size i :
  0 <= i <= cnt -> cnt <= Z.of_nat (length l) -> (Z.to_nat (cnt - i) < fuel)%nat ->
  exists sc, coalesce_scan fuel l cnt base size i = Some sc /\
    match sc with
    | Scan_have => True
    | Scan_coalesced j l' => 0 <= j < cnt /\ length l' = length l
    | Scan_none j => j = cnt
    end.
Proof.
  revert i. induction fuel as [|fuel IH]; intros i Hi Hc Hf; [lia|]. simpl.
  zcase; [|eexists; split; [done | simpl; lia]].
  destruct (aget_is_Some l i) as [x ->]; [lia|]. simpl.
  destruct (_ && _); [by eexists|]. rewrite !aset_Some by lia. simpl.
  destruct (0 <? _); [|destruct (_ <? 0)]; [..|apply IH; lia];
    (eexists; split; [done|]; simpl; len).
Qed.

Lemma insert_loop_total fuel l base size i :
  i + 1 < Z.of_nat (length l) -> (Z.to_nat (i + 1) < fuel)%nat ->
  exists l', insert_loop fuel l base size i = Some l' /\ length l' = length l.
Proof.
  revert l i. induction fuel as [|fuel IH]; intros l i Hi Hf; [lia|]. simpl.
  zcase; [|eauto]. destruct (aget_is_Some l i) as [x ->]; [lia|]. simpl.
  rewrite !aset_Some by lia. simpl. zcase; [|eexists; split; [done|]; len].
  edestruct IH as (l' & -> & Hl'); [..|exists l'; split; [done|]]; len.
Qed.

#[local] Arguments insert_loop : simpl never.
#[local] Arguments coalesce_scan : simpl never.
#[local] Arguments remove_loop : simpl never.

Lemma coalesce_regions_total rgn i :
  bounded rgn -> 0 <= i < r_cnt rgn - 1 ->
  exists rgn', lmb_coalesce_regions rgn i (i + 1) = Some rgn' /\ bounded rgn'.
Proof.
  intros [Hlen Hc] Hi. unfold lmb_coalesce_regions, MAX_LMB_REGIONS in *.
  destruct (aget_is_Some (r_region rgn) i) as [x ->]; [lia|].
  destruct (aget_is_Some (r_region rgn) (i + 1)) as [y ->]; [lia|]. simpl.
  rewrite aset_Some by lia. simpl mbind. set (l1 := <[_ := _]> _).
  assert (Hl1 : length l1 = 9%nat) by (unfold l1; len).
  unfold lmb_remove_region. simpl r_region. simpl r_cnt. rewrite (u32_small (r_cnt rgn - 1)) by lia.
  destruct (remove_loop_total (S (length l1)) l1 (i + 1) (r_cnt rgn - 1)) as (l' & -> & Hl'); try lia.
  simpl. eexists. split; [done|]. unfold bounded, MAX_LMB_REGIONS. simpl. len.
Qed.

Lemma add_rest_total rgn i c base size :
  bounded rgn -> 0 <= i <= r_cnt rgn -> 0 <= c ->
  exists ret rgn', add_rest rgn i c base size = Some (ret, rgn') /\ bounded rgn' /\
    (r_cnt rgn < MAX_LMB_REGIONS -> 0 <= ret).
Proof.
  intros Hb Hi Hc0. pose proof Hb as [Hlen Hc]. unfold add_rest, MAX_LMB_REGIONS in *.
  rewrite !u32_small by lia.
  assert (Hadj : exists adj, (if i <? r_cnt rgn - 1 then lmb_regions_adjacent rgn i (i + 1)
      else Some 0) = Some adj /\ (adj <> 0 -> i < r_cnt rgn - 1)).
  { zcase; [|by exists 0]. unfold lmb_regions_adjacent.
    destruct (aget_is_Some (r_region rgn) i) as [x ->]; [lia|].
    destruct (aget_is_Some (r_region rgn) (i + 1)) as [y ->]; [lia|]. simpl. eauto. }
  destruct Hadj as (adj & -> & Hadj). simpl. zcase; simpl.
  2:{ destruct (coalesce_regions_total rgn i) as (rgn' & -> & Hb'); [done | auto with lia |]. simpl.
      zcase; [lia|]. eauto 10 with lia. }
  zcase; simpl; [|eauto 10]. zcase; [eauto 10 with lia|]. rewrite s32_small, Hlen by lia.
  destruct (insert_loop_total 10 (r_region rgn) base size (r_cnt rgn - 1)) as (l' & -> & Hl'); try lia.
  simpl. destruct (aget_is_Some l' 0) as [x Hx]; [lia|]. rewrite Hx. simpl.
  rewrite aset_Some by lia. unfold bounded, MAX_LMB_REGIONS.
  zcase; simpl; do 2 eexists; (split; [done|]); simpl; rewrite u32_small by lia; len.
Qed.

Lemma add_region_total rgn base size :
  bounded rgn -> exists ret rgn', lmb_add_region rgn base size = Some (ret, rgn') /\ bounded rgn' /\
    (r_cnt rgn < MAX_LMB_REGIONS -> 0 <= ret).
Proof.
  intros Hb. pose proof Hb as [Hlen Hc]. unfold lmb_add_region, MAX_LMB_REGIONS in *.
  destruct (aget_is_Some (r_region rgn) 0) as [x ->]; [lia|]. simpl mbind.
  destruct (_ && _).
  { rewrite aset_Some by lia. simpl. do 2 eexists. split; [done|].
    unfold bounded, MAX_LMB_REGIONS. simpl. len. }
  destruct (coalesce_scan_total (S (length (r_region rgn))) (r_region rgn) (r_cnt rgn) base size 0)
    as (sc & -> & Hsc); try lia. simpl.
  destruct sc as [|i l|i]; [eauto 10 with lia | | apply add_rest_total; (done || lia)].
  apply (add_rest_total (set_region rgn l)); simpl; [|lia|lia]. unfold bounded, MAX_LMB_REGIONS. simpl. len.
Qed.

Lemma wf_bounded rgn l : wf_region rgn l -> bounded rgn.
Proof.
  intros [[Hlen [(_ & Hc & _) | (Hne & Hc & Hm & _)]] _]; split; unfold MAX_LMB_REGIONS in *; try lia.
  destruct l; [done|]. simpl in *. lia.
Qed.

(** ** [lmb_free] *)

Definition inside (base size : Z) (x : lmb_property) : Prop :=
  p_base x <= base /\ base + size <= p_end x.

Lemma free_scan_spec pre l junk fuel cnt base size lo :
  block_ok base size -> -1 <= lo -> chain lo l -> cnt = Z.of_nat (length (pre ++ l)) ->
  (length l < fuel)%nat ->
  (free_scan fuel (pre ++ l ++ junk) cnt base (u32 (base + size)) (Z.of_nat (length pre)) = Some None /\
   Forall (fun x => ~ inside base size x) l) \/
  (exists l1 x l2, l = l1 ++ x :: l2 /\ inside base size x /\
     free_scan fuel (pre ++ l ++ junk) cnt base (u32 (base + size)) (Z.of_nat (length pre)) =
     Some (Some (Z.of_nat (length (pre ++ l1)), p_base x, p_end x))).
Proof.
  revert pre fuel lo. induction l as [|x l IH]; intros pre fuel lo Hb Hlo Hch Hcnt Hf;
    (destruct fuel as [|fuel]; [simpl in *; lia|]); simpl.
  { left. rewrite app_nil_r in Hcnt. zcase; [lia|]. done. }
  zcase; [|len]. rewrite aget_mid by done. simpl in *. pose proof Hb as (Hb0 & Hb1 & Hb2).
  destruct Hch as (H1 & H2 & H3 & Hch). unfold p_end in H3. rewrite !u32_small by lia.
  destruct ((p_base x <=? base) && (base + size <=? p_base x + p_size x)) eqn:E.
  - right. zbool. exists [], x, l. simpl. rewrite app_nil_r. done.
  - destruct (IH (pre ++ [x]) fuel (p_end x)) as [[Hrun Hno] | (l1 & y & l2 & -> & Hy & Hrun)];
      unfold p_end in *; auto; try lia; try len.
    all: rewrite u32_small in Hrun by lia; rewrite <- app_assoc in Hrun; simpl in *;
      replace (Z.of_nat (length (pre ++ [x]))) with (Z.of_nat (length pre) + 1) in Hrun by len;
      rewrite Hrun.
    + left. split; [done|]. constructor; [|done]. unfold inside, p_end. intros [??].
      apply andb_false_iff in E as [E|E]; zbool; lia.
    + right. exists (x :: l1), y, l2. split; [done|]. split; [done|].
      rewrite <- app_assoc. done.
Qed.

(** What is left of [x] after the block is cut out of it. *)
Definition left_rest (base : Z) (x : lmb_property) : list lmb_property :=
  if p_base x =? base then [] else [mk_prop (p_base x) (base - p_base x)].
Definition right_rest (base size : Z) (x : lmb_property) : list lmb_property :=
  if p_end x =? base + size then [] else [mk_prop (base + size) (p_end x - (base + size))].

Lemma cut_chain lo pre x post base size :
  chain lo (pre ++ x :: post) -> 0 < size -> inside base size x ->
  chain lo (pre ++ left_rest base x ++ right_rest base size x ++ post).
Proof.
  intros Hch Hs [Hi1 Hi2]. unfold left_rest, right_rest. autorewrite with lmb in *. simpl in *.
  destruct Hch as (Hpre & H1 & H2 & H3 & Hpost). split; [done|]. unfold p_end in *.
  repeat zcase; simpl; unfold p_end; simpl; split_and!; try lia;
    (eapply chain_weaken; [|exact Hpost]; lia).
Qed.

Lemma cut_covered lo pre x post base size a :
  -1 <= lo -> chain lo (pre ++ x :: post) -> 0 < size -> inside base size x ->
  covered (pre ++ left_rest base x ++ right_rest base size x ++ post) a <->
  covered (pre ++ x :: post) a /\ ~ in_block base size a.
Proof.
  intros Hlo Hch Hs [Hi1 Hi2].
  assert (Hdis : covered pre a \/ covered post a -> ~ in_block base size a).
  { apply chain_app in Hch as [Hpre Hx]. simpl in Hx. destruct Hx as (H1 & H2 & H3 & Hpost).
    unfold in_block. intros [Hc | Hc]; apply List.Exists_exists in Hc as (y & Hin & Hy);
      [destruct (chain_below_hi _ _ _ Hpre Hin) | destruct (chain_below_hi _ _ _ Hpost Hin)];
      unfold in_prop, p_end in *; lia. }
  assert (Hx : covered (left_rest base x) a \/ covered (right_rest base size x) a <->
    in_prop x a /\ ~ in_block base size a).
  { unfold left_rest, right_rest, in_prop, in_block, p_end in *. repeat zcase;
      rewrite ?covered_cons, ?covered_nil; unfold in_prop, p_end; simpl; lia. }
  autorewrite with lmb. tauto.
Qed.

Lemma free_scan_found m l base size :
  wf_region (reserved m) l -> block_ok base size ->
  let run := free_scan (S (length (r_region (reserved m)))) (r_region (reserved m))
    (r_cnt (reserved m)) base (u32 (base + size)) 0 in
  (run = Some None /\ Forall (fun x => ~ inside base size x) l) \/
  (exists l1 x l2, l = l1 ++ x :: l2 /\ inside base size x /\
     run = Some (Some (Z.of_nat (length l1), p_base x, p_end x))).
Proof.
  intros [[Hlen [(-> & Hc & junk & Hr) | (Hne & Hc & Hm & junk & Hr)]] Hch] Hb; cbv zeta;
    rewrite Hlen, Hr, Hc.
  - left. split; [|done]. destruct Hb as (?&?&?). simpl.
    rewrite !u32_small by lia. zcase; [|lia]. zcase; [lia | done].
  - unfold MAX_LMB_REGIONS in *.
    apply (free_scan_spec [] l junk _ _ base size (-1)); auto; simpl in *; lia.
Qed.

(** Cutting a whole range out of the table. *)
Lemma remove_table rgn pre x post junk :
  table rgn (pre ++ x :: post) junk ->
  exists rgn', lmb_remove_region rgn (Z.of_nat (length pre)) = Some rgn' /\
    (pre ++ post <> [] /\ rep rgn' (pre ++ post) \/ pre ++ post = [] /\ r_cnt rgn' = 0).
Proof.
  intros (Hr & Hc & Hl & Hlen).
  destruct (remove_region_list rgn pre x post junk (Z.of_nat (length pre)))
    as (rgn' & junk' & Hrun & Hr' & Hc' & Hl'); try done.
  { by rewrite Hr, <- app_assoc. }
  1-2: unfold MAX_LMB_REGIONS; len.
  exists rgn'. split; [done|]. destruct (decide (pre ++ post = [])) as [Hnil | Hne].
  - right. split; [done|]. apply app_nil in Hnil as [-> ->]. simpl in *. lia.
  - left. split; [done|]. apply (table_rep _ _ junk'). unfold table.
    rewrite Hr', Hc', Hc, <- app_assoc. rewrite Hr' in Hl'.
    assert (length (pre ++ post) <> 0%nat) by (by destruct (pre ++ post)).
    split_and!; try done; len.
Qed.

(** The table after a successful [lmb_free]; an emptied table has [cnt = 0]. *)
Definition freed (rgn : lmb_region) (l : list lmb_property) (base size : Z) : Prop :=
  (exists l', wf_region rgn l' /\ forall a, covered l' a <-> covered l a /\ ~ in_block base size a) \/
  (r_cnt rgn = 0 /\ forall a, covered l a <-> in_block base size a).

(** Splitting [x] in a full table: the part above the block is lost. *)
Definition free_lost (rgn : lmb_region) (l : list lmb_property) (x : lmb_property) (base : Z) : Prop :=
  length l = 8%nat /\ exists l', wf_region rgn l' /\
    forall a, covered l' a <-> covered l a /\ ~ base <= a < p_end x.

Lemma free_split rgn pre x post junk base size :
  table rgn (pre ++ x :: post) junk -> chain (-1) (pre ++ x :: post) -> block_ok base size ->
  p_base x < base -> base + size < p_end x ->
  let rgn1 := set_region rgn (pre ++ mk_prop (p_base x) (base - p_base x) :: post ++ junk) in
  exists ret rgn', lmb_add_region rgn1 (base + size) (p_end x - (base + size)) = Some (ret, rgn') /\
    (0 <= ret /\ freed rgn' (pre ++ x :: post) base size \/
     ret = -1 /\ free_lost rgn' (pre ++ x :: post) x base).
Proof.
  intros Ht Hch Hb H1 H2 rgn1. set (x1 := mk_prop (p_base x) (base - p_base x)).
  destruct (table_set _ _ _ x1 _ _ Ht) as [_ Ht1]. fold rgn1 in Ht1. pose proof Hb as (Hb0 & Hb1 & Hb2).
  assert (Hcut : forall a, covered (pre ++ x1 :: post) a <->
    covered (pre ++ x :: post) a /\ ~ in_block base (p_end x - base) a).
  { intros a. pose proof (cut_covered (-1) pre x post base (p_end x - base) a) as Hc.
    unfold left_rest, right_rest in Hc. do 2 zcase_in Hc; try lia.
    apply Hc; [lia | done | lia | unfold inside; lia]. }
  assert (Hch1 : chain (-1) (pre ++ x1 :: post)).
  { pose proof (cut_chain (-1) pre x post base (p_end x - base) Hch) as Hc.
    unfold left_rest, right_rest in Hc. do 2 zcase_in Hc; try lia.
    apply Hc; [lia | unfold inside; lia]. }
  assert (Hx : p_end x < 2 ^ 32 /\ forall a, in_prop x a -> covered (pre ++ x :: post) a).
  { split; [|intros a Ha; autorewrite with lmb; auto].
    autorewrite with lmb in Hch. simpl in Hch. tauto. }
  destruct Hx as [Hx Hxc]. unfold in_block, in_prop in *.
  assert (Hb' : block_ok (base + size) (p_end x - (base + size))) by (unfold block_ok; lia).
  destruct (add_region_spec rgn1 (pre ++ x1 :: post) (base + size) (p_end x - (base + size)))
    as [(l' & ret & rgn' & Had & Hrun & Hrep) | [Hrun H8]]; auto.
  { split; [eauto using table_rep | done]. }
  { intros a Ha Hc%Hcut. unfold in_block in *. lia. }
  - exists ret, rgn'. split; [done|]. left.
    split; [destruct Had; lia|]. left. exists l'. split; [split; [done | by eapply added_chain]|].
    intros a. rewrite added_covered, Hcut by eauto. unfold in_block. split.
    + intros [Ha | Ha]; [intuition lia|]. split; [apply Hxc; lia | lia].
    + intros [Ha Hn]. destruct (decide (base + size <= a < p_end x)); [right; lia | left; split; [done | lia]].
  - exists (-1), rgn1. split; [done|]. right. split; [done|]. split; [len|].
    exists (pre ++ x1 :: post). split; [split; [eauto using table_rep | done]|].
    intros a. rewrite Hcut. intuition lia.
Qed.

Lemma free_spec m l base size :
  wf_region (reserved m) l -> block_ok base size ->
  (lmb_free m base size = Some (-1, m) /\ Forall (fun x => ~ inside base size x) l) \/
  (exists x ret m', In x l /\ inside base size x /\ lmb_free m base size = Some (ret, m') /\
     memory m' = memory m /\
     (0 <= ret /\ freed (reserved m') l base size \/ ret = -1 /\ free_lost (reserved m') l x base)).
Proof.
  intros Hwf Hb. unfold lmb_free.
  destruct (free_scan_found m l base size Hwf Hb) as [[-> Hno] | (l1 & x & l2 & -> & Hx & ->)]; [auto|].
  right. exists x. simpl. destruct Hwf as [Hrep Hch].
  destruct (rep_table _ _ Hrep) as (junk & Ht); [by destruct l1|].
  pose proof Hb as (Hb0 & Hb1 & Hb2). rewrite u32_small by lia. pose proof Hx as [Hx1 Hx2].
  pose proof (cut_chain _ _ _ _ _ _ Hch Hb1 Hx) as Hcc.
  pose proof (fun a => cut_covered (-1) _ _ _ _ _ a ltac:(lia) Hch Hb1 Hx) as Hcv.
  assert (Hin : In x (l1 ++ x :: l2)) by (apply in_or_app; right; left; done).
  destruct (chain_below_hi _ _ _ Hch Hin) as (Hx3 & Hx4 & _ & Hx5).
  rewrite (table_get _ _ _ _ _ Ht). simpl. unfold left_rest, right_rest, p_end in *.
  destruct (Z.eqb_spec (p_base x) base) as [He1|He1], (Z.eqb_spec (p_base x + p_size x) (base + size)) as [He2|He2];
    cbn [andb app] in *.
  - destruct (remove_table _ _ _ _ _ Ht) as (rgn' & -> & [[Hne Hr'] | [Hnil Hc']]); simpl;
      exists 0, (mk_lmb (memory m) rgn'); (split_and!; try done); left; (split; [done|]).
    + left. exists (l1 ++ l2). done.
    + right. split; [done|]. apply app_nil in Hnil as [-> ->]. intros a. simpl.
      rewrite covered_cons, covered_nil. unfold in_prop, in_block, p_end. lia.
  - destruct (table_set _ _ _ (mk_prop (base + size) (p_size x - size)) _ _ Ht) as [Hset Ht'].
    rewrite u32_small, Hset by lia. simpl. do 2 eexists. split_and!; try done. left. split; [done|].
    left. replace (p_base x + p_size x - (base + size)) with (p_size x - size) in * by lia.
    eexists. split; [split; [eapply table_rep; exact Ht' | exact Hcc] | exact Hcv].
  - destruct (table_set _ _ _ (mk_prop (p_base x) (p_size x - size)) _ _ Ht) as [Hset Ht'].
    rewrite u32_small, Hset by lia. simpl. do 2 eexists. split_and!; try done. left. split; [done|].
    left. replace (base - p_base x) with (p_size x - size) in * by lia.
    eexists. split; [split; [eapply table_rep; exact Ht' | exact Hcc] | exact Hcv].
  - destruct (table_set _ _ _ (mk_prop (p_base x) (base - p_base x)) _ _ Ht) as [Hset Ht'].
    rewrite (u32_small (base - p_base x)), Hset, u32_small by lia. simpl.
    destruct (free_split _ _ _ _ _ base size Ht Hch Hb) as (ret & rgn' & Hrun & Hres);
      unfold p_end in *; try lia.
    rewrite Hrun. simpl. exists ret, (mk_lmb (memory m) rgn'). done.
Qed.

(** ** [lmb_is_reserved] *)

Lemma reserved_scan_spec pre l junk fuel cnt addr lo :
  -1 <= lo -> chain lo l -> cnt = Z.of_nat (length (pre ++ l)) -> (length l < fuel)%nat ->
  exists r, reserved_scan fuel (pre ++ l ++ junk) cnt addr (Z.of_nat (length pre)) = Some r /\
    (r = 0 \/ r = 1) /\ (r = 1 <-> covered l addr).
Proof.
  revert pre fuel lo. induction l as [|x l IH]; intros pre fuel lo Hlo Hch Hcnt Hf;
    (destruct fuel as [|fuel]; [simpl in *; lia|]); simpl.
  { rewrite app_nil_r in Hcnt. zcase; [lia|]. exists 0. rewrite covered_nil. intuition lia. }
  zcase; [|len]. rewrite aget_mid by done. simpl in *. unfold p_end in *.
  rewrite u32_small by lia.
  destruct ((p_base x <=? addr) && (addr <=? p_base x + p_size x - 1)) eqn:E.
  { exists 1. rewrite covered_cons. unfold in_prop, p_end. zbool. intuition lia. }
  destruct (IH (pre ++ [x]) fuel (p_end x)) as (r & Hrun & Hr & Hiff); unfold p_end; try lia; try len; try tauto.
  rewrite <- app_assoc in Hrun. simpl in Hrun.
  replace (Z.of_nat (length (pre ++ [x]))) with (Z.of_nat (length pre) + 1) in Hrun by len.
  rewrite Hrun. exists r. split; [done|]. split; [done|]. rewrite Hiff, covered_cons.
  unfold in_prop, p_end. apply andb_false_iff in E. split; [auto|].
  intros [Hx|]; [|done]. exfalso. destruct E; zbool; lia.
Qed.

Lemma alloc_base_spec m ml l size k max_addr :
  wf_region (memory m) ml -> wf_region (reserved m) l ->
  0 < size -> 0 <= k < 32 -> max_ok max_addr size ->
  (lmb_alloc_base m size (2 ^ k) max_addr = Some (0, m) /\
   forall a, ~ placeable ml l size (2 ^ k) max_addr a) \/
  (exists b ret res', placeable ml l size (2 ^ k) max_addr b /\
    (forall a, placeable ml l size (2 ^ k) max_addr a -> a <= b) /\
    lmb_add_region (reserved m) b (lmb_align_up size (2 ^ k)) = Some (ret, res') /\
    lmb_alloc_base m size (2 ^ k) max_addr =
      Some (if ret <? 0 then 0 else b, mk_lmb (memory m) res')).
Proof.
  intros Hmem Hres Hs Hk Hmax.
  assert (Hrun : loop_outcome m ml l size (2 ^ k) max_addr
    (region_loop (Z.to_nat (s32 (r_cnt (memory m) - 1) + 1)) m size (2 ^ k) max_addr)).
  { destruct Hmem as [[Hlen [(-> & Hc & junk & Hr) | (Hne & Hc & Hm & junk & Hr)]] Hch].
    - rewrite Hc. simpl. rewrite Hr, aget_lookup by lia. simpl.
      unfold first_base. simpl. zcase; [|lia]. left. split; [done|]. by intros a ?%Exists_nil.
    - rewrite s32_small by (unfold MAX_LMB_REGIONS in *; lia).
      replace (Z.to_nat (r_cnt (memory m) - 1 + 1)) with (length ml) by lia.
      by eapply region_loop_spec. }
  unfold lmb_alloc_base, __lmb_alloc_base.
  destruct Hrun as [[-> Hno] | (b & Hb & Hmx & ->)].
  - left. simpl. destruct m. auto.
  - right. destruct (add_region_total (reserved m) b (lmb_align_up size (2 ^ k)))
      as (ret & res' & Hadd & _); [by eapply wf_bounded|].
    rewrite Hadd. simpl. exists b, ret, res'. split_and!; try done. by zcase.
Qed.

(** ** The properties *)

(** C4: [lmb_reserve] implements the insertion of a free block into the set
    of reserved addresses: with a table in its normal form (sorted, disjoint,
    no two ranges touching) and a free block, the call returns, leaves the
    memory table alone, and either the new table is again in normal form and
    covers exactly the old addresses and the block, or all 8 entries are in
    use, -1 is returned and nothing has changed. *)
Theorem lmb_reserve_refines_insert m l base size :
  wf_region (reserved m) l -> block_ok base size -> free_block l base size ->
  exists ret m', lmb_reserve m base size = Some (ret, m') /\ memory m' = memory m /\
    ((0 <= ret /\ exists l', wf_region (reserved m') l' /\
        forall a, covered l' a <-> covered l a \/ in_block base size a) \/
     (ret = -1 /\ m' = m /\ length l = 8%nat)).
Proof.
  intros Hwf Hb Hf. unfold lmb_reserve.
  destruct (add_region_spec _ _ _ _ Hwf Hb Hf) as [(l' & ret & rgn' & Had & -> & Hrep) | [-> H8]]; simpl.
  - exists ret, (mk_lmb (memory m) rgn'). split; [done|]. split; [done|]. left.
    split; [destruct Had; lia|]. exists l'. destruct Hwf as [_ Hch].
    split; [split; [done | by eapply added_chain] | intros a; by eapply added_covered].
  - exists (-1), m. destruct m. simpl in *. auto 6.
Qed.


(** C18: [lmb_alloc_base] with a power-of-two alignment is correct, complete
    and terminates: it returns, and either no aligned non-zero address of any
    memory region (below [max_addr]) can hold the block and the result is 0,
    or it picks the highest address that can; the result is then that
    address, or 0 when the reserved table refused the new entry. *)
Theorem lmb_alloc_base_highest m ml l size k max_addr :
  wf_region (memory m) ml -> wf_region (reserved m) l ->
  0 < size -> 0 <= k < 32 -> max_ok max_addr size ->
  (lmb_alloc_base m size (2 ^ k) max_addr = Some (0, m) /\
   forall a, ~ placeable ml l size (2 ^ k) max_addr a) \/
  (exists b ret res', placeable ml l size (2 ^ k) max_addr b /\
    (forall a, placeable ml l size (2 ^ k) max_addr a -> a <= b) /\
    lmb_add_region (reserved m) b (lmb_align_up size (2 ^ k)) = Some (ret, res') /\
    lmb_alloc_base m size (2 ^ k) max_addr =
      Some (if ret <? 0 then 0 else b, mk_lmb (memory m) res')).
Proof. apply alloc_base_spec. Qed.

(** when the size is a multiple of the alignment, a successful
    [lmb_alloc_base] returns a block that lies in memory below [max_addr],
    was free, and is reserved afterwards, together with everything that was
    reserved before; it fails only when nothing fits or when all 8 entries of
    the reserved table are in use. *)
Theorem lmb_alloc_base_reserves m ml l size k max_addr :
  wf_region (memory m) ml -> wf_region (reserved m) l ->
  0 < size < 2 ^ 32 - 2 ^ k -> 0 <= k < 32 -> max_ok max_addr size -> (2 ^ k | size) ->
  exists b m', lmb_alloc_base m size (2 ^ k) max_addr = Some (b, m') /\ memory m' = memory m /\
    (b = 0 /\ m' = m /\
       ((forall a, ~ placeable ml l size (2 ^ k) max_addr a) \/ length l = 8%nat) \/
     placeable ml l size (2 ^ k) max_addr b /\
       exists l', wf_region (reserved m') l' /\
         forall a, covered l' a <-> covered l a \/ in_block b size a).
Proof.
  intros Hmem Hres Hs Hk Hmax Hdiv.
  destruct (alloc_base_spec m ml l size k max_addr) as [[-> Hno] | (b & ret & res' & Hb & _ & Hadd & ->)];
    auto; try lia.
  { exists 0, m. auto 10. }
  rewrite align_up_multiple in Hadd by done.
  assert (Hbl : block_ok b size /\ free_block l b size).
  { apply List.Exists_exists in Hb as (x & Hin & H1 & _ & H2 & _ & Hf). split; [|done].
    destruct Hmem as [_ Hch]. destruct (chain_below_hi _ _ _ Hch Hin) as (_ & _ & _ & Hx).
    unfold block_ok. unfold window in H2. zcase_in H2; lia. }
  destruct (add_region_spec _ _ _ _ Hres (proj1 Hbl) (proj2 Hbl))
    as [(l' & ret' & rgn' & Had & Hrun & Hrep) | [Hrun H8]]; rewrite Hadd in Hrun; injection Hrun as -> ->.
  - exists b, (mk_lmb (memory m) rgn'). assert (0 <= ret') by (destruct Had; lia). zcase; [lia|].
    split; [done|]. split; [done|]. right. split; [done|]. destruct Hres as [_ Hch], Hbl as [Hbl _].
    exists l'. split; [split; [done | by eapply added_chain] | intros a; by eapply added_covered].
  - exists 0, m. destruct m; simpl in *. auto 10.
Qed.

(** on a table with at least one range, [lmb_is_reserved] decides
    membership in the reserved addresses. *)
Theorem lmb_is_reserved_iff m l addr :
  wf_region (reserved m) l -> l <> [] ->
  exists r, lmb_is_reserved m addr = Some r /\ (r = 0 \/ r = 1) /\ (r = 1 <-> covered l addr).
Proof.
  intros [Hrep Hch] Hne. destruct (rep_table _ _ Hrep Hne) as (junk & Hr & Hc & Hl & Hlen).
  unfold lmb_is_reserved. rewrite Hlen, Hr, Hc.
  apply (reserved_scan_spec [] l junk _ _ _ (-1)); simpl; (done || lia).
Qed.

(** whatever the block (also one that overlaps reserved ranges or wraps
    around), adding it to a table with 1 to 8 entries never reads or writes
    outside the 9 slots, terminates, and leaves 1 to 8 entries; it fails only
    when all 8 entries are in use. *)
Theorem lmb_add_region_memory_safe rgn base size :
  bounded rgn -> exists ret rgn', lmb_add_region rgn base size = Some (ret, rgn') /\ bounded rgn' /\
    (r_cnt rgn < MAX_LMB_REGIONS -> 0 <= ret).
Proof. apply add_region_total. Qed.

(** ** Witnesses and counterexamples *)

Definition slots (l : list lmb_property) : list lmb_property :=
  l ++ replicate (9 - length l) (mk_prop 0 0).

(** 2 GB of RAM at 0x10000000, a kernel and a device tree reserved. *)
Definition ex_reserved : list lmb_property :=
  [mk_prop 0x12000000 0x800000; mk_prop 0x18000000 0x20000].
Definition ex_lmb : lmb :=
  mk_lmb (mk_region 1 0 (slots [mk_prop 0x10000000 0x80000000]))
         (mk_region 2 0 (slots ex_reserved)).

Lemma ex_memory_wf : wf_region (memory ex_lmb) [mk_prop 0x10000000 0x80000000].
Proof.
  split; [split; [done|]; right; split_and!; try done; by eexists|]. vm_compute. intuition done.
Defined.
Lemma ex_reserved_wf : wf_region (reserved ex_lmb) ex_reserved.
Proof.
  split; [split; [done|]; right; split_and!; try done; by eexists|]. vm_compute. intuition done.
Defined.
Lemma ex_free : free_block ex_reserved 0x12800000 0x1000.
Proof.
  unfold free_block, ex_reserved, in_block. intros a Ha. autorewrite with lmb.
  unfold in_prop, p_end. simpl. lia.
Defined.

Lemma lmb_reserve_refines_insert_witness :
  exists ret m', lmb_reserve ex_lmb 0x12800000 0x1000 = Some (ret, m') /\ ret = 1 /\
   exists ret2 m2, lmb_reserve ex_lmb 0x12800000 0x1000 = Some (ret2, m2) /\
     memory m2 = memory ex_lmb.
Proof.
  do 2 eexists. split; [vm_compute; reflexivity|]. split; [reflexivity|].
  destruct (lmb_reserve_refines_insert ex_lmb ex_reserved 0x12800000 0x1000) as (r & m' & H1 & H2 & _).
  - apply ex_reserved_wf.
  - unfold block_ok; lia.
  - apply ex_free.
  - exists r, m'. auto.
Defined.


Lemma lmb_alloc_base_highest_witness :
  exists r, lmb_alloc_base ex_lmb 0x1000 (2 ^ 12) 0x12000000 = Some r.
Proof.
  destruct (lmb_alloc_base_highest ex_lmb _ _ 0x1000 12 0x12000000 ex_memory_wf ex_reserved_wf)
    as [[H _] | (b & r & res & _ & _ & _ & H)]; try (unfold max_ok; lia); eauto.
Defined.

Lemma lmb_alloc_base_reserves_witness :
  exists b m', lmb_alloc_base ex_lmb 0x1000 (2 ^ 12) 0x12000000 = Some (b, m').
Proof.
  destruct (lmb_alloc_base_reserves ex_lmb _ _ 0x1000 12 0x12000000 ex_memory_wf ex_reserved_wf)
    as (b & m' & H & _); try (unfold max_ok; lia).
  - by exists 1.
  - eauto.
Defined.

Lemma lmb_is_reserved_iff_witness : exists r, lmb_is_reserved ex_lmb 0x12000001 = Some r.
Proof.
  destruct (lmb_is_reserved_iff ex_lmb _ 0x12000001 ex_reserved_wf) as (r & H & _); [done | eauto].
Defined.

Lemma lmb_add_region_memory_safe_witness :
  exists ret rgn, lmb_add_region (reserved ex_lmb) 0x12000010 0xffffffff = Some (ret, rgn).
Proof.
  destruct (lmb_add_region_memory_safe (reserved ex_lmb) 0x12000010 0xffffffff) as (r & g & H & _).
  - split; [reflexivity | unfold MAX_LMB_REGIONS; simpl; lia].
  - eauto.
Defined.

(** On the dummy entry that [lmb_init] leaves, [upper] wraps to 0xffffffff
    and every address is reported as reserved. *)
Theorem lmb_is_reserved_after_init m m' addr :
  length (r_region (memory m)) = 9%nat -> length (r_region (reserved m)) = 9%nat ->
  lmb_init m = Some m' -> 0 <= addr < 2 ^ 32 -> lmb_is_reserved m' addr = Some 1.
Proof.
  intros Hm Hr Hinit Ha. unfold lmb_init, init_region in Hinit.
  rewrite !aset_Some in Hinit by lia. simpl in Hinit. injection Hinit as <-.
  unfold lmb_is_reserved. simpl. rewrite length_insert, Hr. simpl.
  destruct (r_region (reserved m)) as [|x l]; [done|]. simpl.
  change (u32 (0 + 0 - 1)) with 0xffffffff.
  by rewrite (proj2 (Z.leb_le 0 addr)), (proj2 (Z.leb_le addr 0xffffffff)) by lia.
Qed.

(** After the only reservation has been freed ([cnt = 0]) a reservation at a
    higher address is lost: slot 0 keeps the stale range. *)
Theorem lmb_reserve_after_free_all :
  exists m m', lmb_free (mk_lmb (memory ex_lmb) (mk_region 1 0 (slots [mk_prop 0x2000 0x100]))) 0x2000 0x100
    = Some (0, m) /\
    lmb_reserve m 0x3000 0x200 = Some (0, m') /\
    take 1 (r_region (reserved m')) = [mk_prop 0x2000 0x100] /\
    lmb_is_reserved m' 0x3000 = Some 0.
Proof. do 2 eexists. repeat split; vm_compute; reflexivity. Qed.

(** With [max_addr < size], [base - size] wraps below zero and the result is
    an address above [max_addr]. *)
Theorem lmb_alloc_base_above_max :
  exists m', lmb_alloc_base (mk_lmb (mk_region 1 0 (slots [mk_prop 0 0x10000000]))
      (mk_region 1 0 (slots []))) 0x1000 0x100 0x800 = Some (0xfffff800, m').
Proof. eexists. vm_compute. reflexivity. Qed.

(** The overlap test uses [size] but the entry made uses the aligned-up size:
    the new entry can overlap its neighbour. *)
Theorem lmb_alloc_base_overlapping_entry :
  exists m', lmb_alloc_base (mk_lmb (mk_region 1 0 (slots [mk_prop 0x10000000 0x10000]))
      (mk_region 1 0 (slots [mk_prop 0x1000f800 0x100]))) 0x700 0x1000 0x1000f800 = Some (0x1000f000, m') /\
    take 2 (r_region (reserved m')) = [mk_prop 0x1000f000 0x1000; mk_prop 0x1000f800 0x100].
Proof. eexists. repeat split; vm_compute; reflexivity. Qed.
