(* ===== verification/CString.v ===== *)
(** * CString: the C string library ([lib/string.c]) and character classes
      ([lib/ctype.c], [include/linux/ctype.h])

    The functions run on a byte-addressed memory: a finite map from the
    allocated addresses to their bytes.  Reading or writing an address that
    is not allocated is undefined behaviour, the result is then [None].
    [char] is unsigned (ARM).  Loops that stop at a NUL byte take one step
    more than there are allocated bytes as fuel: a longer run would have left
    the allocated memory. *)
From stdpp Require Import gmap.
From S2P Require Import Prelude.

Abbreviation mem := (gmap Z Z).
Definition NULL : Z := 0.

Definition load (m : mem) (a : Z) : option Z := m !! a.
Definition store (m : mem) (a v : Z) : option mem :=
  match m !! a with Some _ => Some (<[a := v]> m) | None => None end.

Definition str_fuel (m : mem) : nat := S (size m).

(** ** Character classes *)

Definition _U : Z := 0x01.
Definition _L : Z := 0x02.
Definition _D : Z := 0x04.
Definition _C : Z := 0x08.
Definition _P : Z := 0x10.
Definition _S : Z := 0x20.
Definition _X : Z := 0x40.
Definition _SP : Z := 0x80.

Definition _ctype : list Z :=
  [_C; _C; _C; _C; _C; _C; _C; _C;
   _C; Z.lor _C _S; Z.lor _C _S; Z.lor _C _S; Z.lor _C _S; Z.lor _C _S; _C; _C;
   _C; _C; _C; _C; _C; _C; _C; _C;
   _C; _C; _C; _C; _C; _C; _C; _C;
   Z.lor _S _SP; _P; _P; _P; _P; _P; _P; _P;
   _P; _P; _P; _P; _P; _P; _P; _P;
   _D; _D; _D; _D; _D; _D; _D; _D;
   _D; _D; _P; _P; _P; _P; _P; _P;
   _P; Z.lor _U _X; Z.lor _U _X; Z.lor _U _X; Z.lor _U _X; Z.lor _U _X; Z.lor _U _X; _U;
   _U; _U; _U; _U; _U; _U; _U; _U;
   _U; _U; _U; _U; _U; _U; _U; _U;
   _U; _U; _U; _P; _P; _P; _P; _P;
   _P; Z.lor _L _X; Z.lor _L _X; Z.lor _L _X; Z.lor _L _X; Z.lor _L _X; Z.lor _L _X; _L;
   _L; _L; _L; _L; _L; _L; _L; _L;
   _L; _L; _L; _L; _L; _L; _L; _L;
   _L; _L; _L; _P; _P; _P; _P; _C;
   0; 0; 0; 0; 0; 0; 0; 0;
   0; 0; 0; 0; 0; 0; 0; 0;
   0; 0; 0; 0; 0; 0; 0; 0;
   0; 0; 0; 0; 0; 0; 0; 0;
   Z.lor _S _SP; _P; _P; _P; _P; _P; _P; _P;
   _P; _P; _P; _P; _P; _P; _P; _P;
   _P; _P; _P; _P; _P; _P; _P; _P;
   _P; _P; _P; _P; _P; _P; _P; _P;
   _U; _U; _U; _U; _U; _U; _U; _U;
   _U; _U; _U; _U; _U; _U; _U; _U;
   _U; _U; _U; _U; _U; _U; _U; _P;
   _U; _U; _U; _U; _U; _U; _U; _L;
   _L; _L; _L; _L; _L; _L; _L; _L;
   _L; _L; _L; _L; _L; _L; _L; _L;
   _L; _L; _L; _L; _L; _L; _L; _P;
   _L; _L; _L; _L; _L; _L; _L; _L].

Definition __ismask (x : Z) : Z := nth (Z.to_nat (u8 x)) _ctype 0.
Definition has_class (mask c : Z) : bool := negb (Z.land (__ismask c) mask =? 0).

Definition isalnum (c : Z) : bool := has_class (Z.lor _U (Z.lor _L _D)) c.
Definition isalpha (c : Z) : bool := has_class (Z.lor _U _L) c.
Definition isdigit (c : Z) : bool := has_class _D c.
Definition islower (c : Z) : bool := has_class _L c.
Definition isspace (c : Z) : bool := has_class _S c.
Definition isupper (c : Z) : bool := has_class _U c.
Definition isxdigit (c : Z) : bool := has_class (Z.lor _D _X) c.
Definition isblank (c : Z) : bool := (c =? 32) || (c =? 9).

Definition tolower (c : Z) : Z := if isupper c then u8 (c - (65 - 97)) else c.
Definition toupper (c : Z) : Z := if islower c then u8 (c - (97 - 65)) else c.

(** ** String functions *)

(** [do { ... } while (--len)]; [len] is a [size_t]. *)
Fixpoint strncasecmp_loop (fuel : nat) (m : mem) (s1 s2 len : Z) : option Z :=
  match fuel with
  | O => None
  | S fuel =>
      c1 ← load m s1;
      c2 ← load m s2;
      if c1 =? 0 then Some (c1 - c2)
      else if c2 =? 0 then Some (c1 - c2)
      else if c1 =? c2 then
        if u32 (len - 1) =? 0 then Some (c1 - c2)
        else strncasecmp_loop fuel m (s1 + 1) (s2 + 1) (u32 (len - 1))
      else
        let c1 := tolower c1 in
        let c2 := tolower c2 in
        if negb (c1 =? c2) then Some (c1 - c2)
        else if u32 (len - 1) =? 0 then Some (c1 - c2)
        else strncasecmp_loop fuel m (s1 + 1) (s2 + 1) (u32 (len - 1))
  end.

Definition strncasecmp (m : mem) (s1 s2 len : Z) : option Z :=
  if len =? 0 then Some 0 else strncasecmp_loop (str_fuel m) m s1 s2 len.

Definition strcasecmp (m : mem) (s1 s2 : Z) : option Z := strncasecmp m s1 s2 (u32 (-1)).

Fixpoint strcpy_loop (fuel : nat) (m : mem) (dest src : Z) : option mem :=
  match fuel with
  | O => None
  | S fuel =>
      c ← load m src;
      m' ← store m dest c;
      if c =? 0 then Some m' else strcpy_loop fuel m' (dest + 1) (src + 1)
  end.

Definition strcpy (m : mem) (dest src : Z) : option (Z * mem) :=
  m' ← strcpy_loop (str_fuel m) m dest src; Some (dest, m').

Fixpoint strncpy_loop (count : nat) (m : mem) (dest src : Z) : option mem :=
  match count with
  | O => Some m
  | S count =>
      c ← load m src;
      m' ← store m dest c;
      if c =? 0 then Some m' else strncpy_loop count m' (dest + 1) (src + 1)
  end.

Definition strncpy (m : mem) (dest src count : Z) : option (Z * mem) :=
  m' ← strncpy_loop (Z.to_nat count) m dest src; Some (dest, m').

(** [for (sc = s; *sc != '\0'; ++sc)]: the address of the terminator. *)
Fixpoint scan_nul (fuel : nat) (m : mem) (sc : Z) : option Z :=
  match fuel with
  | O => None
  | S fuel => c ← load m sc; if c =? 0 then Some sc else scan_nul fuel m (sc + 1)
  end.

Definition strlen (m : mem) (s : Z) : option Z :=
  sc ← scan_nul (str_fuel m) m s; Some (sc - s).

Fixpoint strnlen_loop (count : nat) (m : mem) (sc : Z) : option Z :=
  match count with
  | O => Some sc
  | S count => c ← load m sc; if c =? 0 then Some sc else strnlen_loop count m (sc + 1)
  end.

Definition strnlen (m : mem) (s count : Z) : option Z :=
  sc ← strnlen_loop (Z.to_nat count) m s; Some (sc - s).

(** [while (count--) *d++ = *s++]. *)
Fixpoint copy_up (count : nat) (m : mem) (d s : Z) : option mem :=
  match count with
  | O => Some m
  | S count => c ← load m s; m' ← store m d c; copy_up count m' (d + 1) (s + 1)
  end.

(** [while (count--) *--d = *--s]. *)
Fixpoint copy_down (count : nat) (m : mem) (d s : Z) : option mem :=
  match count with
  | O => Some m
  | S count => c ← load m (s - 1); m' ← store m (d - 1) c; copy_down count m' (d - 1) (s - 1)
  end.

(** A word of [n] bytes, little endian. *)
Fixpoint load_word (n : nat) (m : mem) (a : Z) : option Z :=
  match n with
  | O => Some 0
  | S n => lo ← load m a; hi ← load_word n m (a + 1); Some (lo + 256 * hi)
  end.

Fixpoint store_word (n : nat) (m : mem) (a v : Z) : option mem :=
  match n with
  | O => Some m
  | S n => m' ← store m a (v mod 256); store_word n m' (a + 1) (v / 256)
  end.

(** [while (count >= sizeof(ulong))] of [memcpy]: the rest is copied by bytes. *)
Fixpoint copy_words (fuel : nat) (m : mem) (dl sl count : Z) : option (mem * Z * Z * Z) :=
  match fuel with
  | O => None
  | S fuel =>
      if 4 <=? count then
        w ← load_word 4 m sl;
        m' ← store_word 4 m dl w;
        copy_words fuel m' (dl + 4) (sl + 4) (count - 4)
      else Some (m, dl, sl, count)
  end.

Definition memcpy (m : mem) (dest src count : Z) : option (Z * mem) :=
  if src =? dest then Some (dest, m)
  else
    '(m, dl, sl, count) ←
      (if Z.land (Z.lor dest src) 3 =? 0
       then copy_words (S (Z.to_nat count)) m dest src count
       else Some (m, dest, src, count));
    m' ← copy_up (Z.to_nat count) m dl sl;
    Some (dest, m').

Definition memmove (m : mem) (dest src count : Z) : option (Z * mem) :=
  if src =? dest then Some (dest, m)
  else if dest <=? src then
    m' ← copy_up (Z.to_nat count) m dest src; Some (dest, m')
  else
    m' ← copy_down (Z.to_nat count) m (dest + count) (src + count); Some (dest, m').

(** [bcopy] takes an [int] count; a negative one counts down through the
    whole range of [int] and leaves every buffer. *)
Definition bcopy (m : mem) (src dest count : Z) : option (Z * mem) :=
  if count <? 0 then None else
  m' ← copy_up (Z.to_nat count) m dest src; Some (dest, m').

Fixpoint fill_bytes (count : nat) (m : mem) (s c : Z) : option mem :=
  match count with
  | O => Some m
  | S count => m' ← store m s (u8 c); fill_bytes count m' (s + 1) c
  end.

Fixpoint fill_words (fuel : nat) (m : mem) (sl cl count : Z) : option (mem * Z * Z) :=
  match fuel with
  | O => None
  | S fuel =>
      if 4 <=? count then
        m' ← store_word 4 m sl cl;
        fill_words fuel m' (sl + 4) cl (count - 4)
      else Some (m, sl, count)
  end.

(** [for (i = 0; i < sizeof(ulong); i++) { cl <<= 8; cl |= c & 0xff; }] *)
Fixpoint spread (i : nat) (cl c : Z) : Z :=
  match i with
  | O => cl
  | S i => spread i (Z.lor (u32 (Z.shiftl cl 8)) (Z.land c 0xff)) c
  end.

Definition memset (m : mem) (s c count : Z) : option (Z * mem) :=
  '(m, s8, count) ←
    (if Z.land s 3 =? 0 then fill_words (S (Z.to_nat count)) m s (spread 4 0 c) count
     else Some (m, s, count));
  m' ← fill_bytes (Z.to_nat count) m s8 c;
  Some (s, m').

Definition strlcpy (m : mem) (dest src size : Z) : option (Z * mem) :=
  ret ← strlen m src;
  if negb (size =? 0) then
    let len := if size <=? ret then size - 1 else ret in
    '(_, m) ← memcpy m dest src len;
    m ← store m (dest + len) 0;
    Some (ret, m)
  else Some (ret, m).

Definition strcat (m : mem) (dest src : Z) : option (Z * mem) :=
  e ← scan_nul (str_fuel m) m dest;
  m' ← strcpy_loop (str_fuel m) m e src;
  Some (dest, m').

Fixpoint strncat_loop (count : nat) (m : mem) (dest src : Z) : option mem :=
  match count with
  | O => None                       (* not reached: the count is positive *)
  | S count =>
      c ← load m src;
      m' ← store m dest c;
      if c =? 0 then Some m'
      else match count with
           | O => store m' (dest + 1) 0
           | S _ => strncat_loop count m' (dest + 1) (src + 1)
           end
  end.

Definition strncat (m : mem) (dest src count : Z) : option (Z * mem) :=
  if negb (count =? 0) then
    e ← scan_nul (str_fuel m) m dest;
    m' ← strncat_loop (Z.to_nat count) m e src;
    Some (dest, m')
  else Some (dest, m).

(** The difference is kept in a [signed char]. *)
Fixpoint strcmp_loop (fuel : nat) (m : mem) (cs ct : Z) : option Z :=
  match fuel with
  | O => None
  | S fuel =>
      c1 ← load m cs;
      c2 ← load m ct;
      let __res := s8 (c1 - c2) in
      if negb (__res =? 0) || (c1 =? 0) then Some __res
      else strcmp_loop fuel m (cs + 1) (ct + 1)
  end.

Definition strcmp (m : mem) (cs ct : Z) : option Z := strcmp_loop (str_fuel m) m cs ct.

Fixpoint strncmp_loop (count : nat) (m : mem) (cs ct : Z) : option Z :=
  match count with
  | O => Some 0
  | S count =>
      c1 ← load m cs;
      c2 ← load m ct;
      let __res := s8 (c1 - c2) in
      if negb (__res =? 0) || (c1 =? 0) then Some __res
      else strncmp_loop count m (cs + 1) (ct + 1)
  end.

Definition strncmp (m : mem) (cs ct count : Z) : option Z :=
  strncmp_loop (Z.to_nat count) m cs ct.

Fixpoint strchr_loop (fuel : nat) (m : mem) (s c : Z) : option Z :=
  match fuel with
  | O => None
  | S fuel =>
      x ← load m s;
      if x =? u8 c then Some s
      else if x =? 0 then Some NULL else strchr_loop fuel m (s + 1) c
  end.

Definition strchr (m : mem) (s c : Z) : option Z := strchr_loop (str_fuel m) m s c.

Fixpoint strrchr_loop (fuel : nat) (m : mem) (s p c : Z) : option Z :=
  match fuel with
  | O => None
  | S fuel =>
      x ← load m p;
      if x =? u8 c then Some p
      else if s <=? p - 1 then strrchr_loop fuel m s (p - 1) c else Some NULL
  end.

Definition strrchr (m : mem) (s c : Z) : option Z :=
  n ← strlen m s; strrchr_loop (str_fuel m) m s (s + n) c.

(** [strdup] on the block that [malloc] returned ([NULL] when it failed). *)
Definition strdup (m : mem) (s new : Z) : option (Z * mem) :=
  if (s =? NULL) || (new =? NULL) then Some (NULL, m) else strcpy m new s.

(** Inner loop of [strspn] and [strpbrk]: is [c] in the string at [a]? *)
Fixpoint in_set (fuel : nat) (m : mem) (a c : Z) : option bool :=
  match fuel with
  | O => None
  | S fuel =>
      x ← load m a;
      if x =? 0 then Some false
      else if c =? x then Some true else in_set fuel m (a + 1) c
  end.

Fixpoint strspn_loop (fuel : nat) (m : mem) (p accept count : Z) : option Z :=
  match fuel with
  | O => None
  | S fuel =>
      c ← load m p;
      if c =? 0 then Some count
      else
        b ← in_set (str_fuel m) m accept c;
        if (b : bool) then strspn_loop fuel m (p + 1) accept (count + 1) else Some count
  end.

Definition strspn (m : mem) (s accept : Z) : option Z := strspn_loop (str_fuel m) m s accept 0.

Fixpoint strpbrk_loop (fuel : nat) (m : mem) (sc1 ct : Z) : option Z :=
  match fuel with
  | O => None
  | S fuel =>
      c ← load m sc1;
      if c =? 0 then Some NULL
      else
        b ← in_set (str_fuel m) m ct c;
        if (b : bool) then Some sc1 else strpbrk_loop fuel m (sc1 + 1) ct
  end.

Definition strpbrk (m : mem) (cs ct : Z) : option Z := strpbrk_loop (str_fuel m) m cs ct.

(** The static [___strtok] is an argument and a component of the result. *)
Definition strtok (m : mem) (___strtok s ct : Z) : option (Z * Z * mem) :=
  let sbegin := if negb (s =? NULL) then s else ___strtok in
  if sbegin =? NULL then Some (NULL, ___strtok, m)
  else
    n ← strspn m sbegin ct;
    let sbegin := sbegin + n in
    c ← load m sbegin;
    if c =? 0 then Some (NULL, NULL, m)
    else
      send ← strpbrk m sbegin ct;
      if negb (send =? NULL) then
        e ← load m send;
        if negb (e =? 0) then m' ← store m send 0; Some (sbegin, send + 1, m')
        else Some (sbegin, send, m)
      else Some (sbegin, send, m).

(** [strsep] returns the token and the new value of [*s]. *)
Definition strsep (m : mem) (s ct : Z) : option (Z * Z * mem) :=
  if s =? NULL then Some (NULL, s, m)
  else
    e ← strpbrk m s ct;
    if negb (e =? NULL) then m' ← store m e 0; Some (s, e + 1, m')
    else Some (s, e, m).

Fixpoint strswab_loop (fuel : nat) (m : mem) (p : Z) : option mem :=
  match fuel with
  | O => None
  | S fuel =>
      c ← load m p;
      if c =? 0 then Some m
      else
        d ← load m (p + 1);
        if d =? 0 then Some m
        else
          m' ← store m p d;
          m'' ← store m' (p + 1) c;
          strswab_loop fuel m'' (p + 2)
  end.

Definition strswab (m : mem) (s : Z) : option (Z * mem) :=
  if s =? NULL then Some (NULL, m)
  else
    c ← load m s;
    if c =? 0 then Some (NULL, m)
    else m' ← strswab_loop (str_fuel m) m s; Some (s, m').

Fixpoint memcmp_loop (count : nat) (m : mem) (su1 su2 : Z) : option Z :=
  match count with
  | O => Some 0
  | S count =>
      c1 ← load m su1;
      c2 ← load m su2;
      if negb (c1 - c2 =? 0) then Some (c1 - c2) else memcmp_loop count m (su1 + 1) (su2 + 1)
  end.

Definition memcmp (m : mem) (cs ct count : Z) : option Z := memcmp_loop (Z.to_nat count) m cs ct.

Fixpoint memscan_loop (size : nat) (m : mem) (p c : Z) : option Z :=
  match size with
  | O => Some p
  | S size => x ← load m p; if x =? c then Some p else memscan_loop size m (p + 1) c
  end.

Definition memscan (m : mem) (addr c size : Z) : option Z := memscan_loop (Z.to_nat size) m addr c.

Fixpoint strstr_loop (fuel : nat) (m : mem) (s1 s2 l1 l2 : Z) : option Z :=
  match fuel with
  | O => None
  | S fuel =>
      if l2 <=? l1 then
        r ← memcmp m s1 s2 l2;
        if r =? 0 then Some s1 else strstr_loop fuel m (s1 + 1) s2 (l1 - 1) l2
      else Some NULL
  end.

Definition strstr (m : mem) (s1 s2 : Z) : option Z :=
  l2 ← strlen m s2;
  if l2 =? 0 then Some s1
  else l1 ← strlen m s1; strstr_loop (S (str_fuel m)) m s1 s2 l1 l2.

Fixpoint memchr_loop (n : nat) (m : mem) (p c : Z) : option Z :=
  match n with
  | O => Some NULL
  | S n => x ← load m p; if u8 c =? x then Some p else memchr_loop n m (p + 1) c
  end.

Definition memchr (m : mem) (s c n : Z) : option Z := memchr_loop (Z.to_nat n) m s c.

Fixpoint check_bytes (bytes : nat) (m : mem) (start value : Z) : option Z :=
  match bytes with
  | O => Some NULL
  | S bytes =>
      x ← load m start;
      if negb (x =? value) then Some start else check_bytes bytes m (start + 1) value
  end.

Definition check_bytes8 (m : mem) (start value bytes : Z) : option Z :=
  check_bytes (Z.to_nat bytes) m start value.

(** [while (words)] of [memchr_inv], the tail check included. *)
Fixpoint check_words (words : nat) (m : mem) (start value value64 tail : Z) : option Z :=
  match words with
  | O => check_bytes8 m start value tail
  | S words =>
      w ← load_word 8 m start;
      if negb (w =? value64) then check_bytes8 m start value 8
      else check_words words m (start + 8) value value64 tail
  end.

Definition value64_of (value : Z) : Z :=
  let v := value in
  let v := Z.lor v (u64 (Z.shiftl v 8)) in
  let v := Z.lor v (u64 (Z.shiftl v 16)) in
  Z.lor v (u64 (Z.shiftl v 32)).

Definition memchr_inv (m : mem) (start c bytes : Z) : option Z :=
  let value := u8 c in
  if bytes <=? 16 then check_bytes8 m start value bytes
  else
    let prefix := start mod 8 in
    r ← (if negb (prefix =? 0) then check_bytes8 m start value (8 - prefix) else Some NULL);
    if negb (r =? NULL) then Some r
    else
      let skip := if negb (prefix =? 0) then 8 - prefix else 0 in
      let start := start + skip in
      let bytes := bytes - skip in
      check_words (Z.to_nat (bytes / 8)) m start value (value64_of value) (bytes mod 8).

(** ** Memory predicates *)

(** The bytes [l] are stored from address [p] on. *)
Fixpoint bytes_at (m : mem) (p : Z) (l : list Z) : Prop :=
  match l with
  | [] => True
  | x :: l => m !! p = Some x /\ bytes_at m (p + 1) l
  end.

Definition char_ok (x : Z) : Prop := 0 < x < 256.

(** The NUL terminated string [s] is stored at [p]. *)
Definition str_at (m : mem) (p : Z) (s : list Z) : Prop :=
  bytes_at m p (s ++ [0]) /\ Forall char_ok s.

(** The [n] addresses from [p] on are allocated. *)
Definition allocated (m : mem) (p n : Z) : Prop :=
  forall a, p <= a < p + n -> is_Some (m !! a).

(** Every stored value is a byte. *)
Definition mem_ok (m : mem) : Prop := forall a x, m !! a = Some x -> 0 <= x < 256.

(** [m'] is [m] with the [n] bytes at [s] moved to [d]. *)
Definition copied (m m' : mem) (d s n : Z) : Prop :=
  forall a, m' !! a = if (d <=? a) && (a <? d + n) then m !! (s + (a - d)) else m !! a.

Lemma bytes_at_app m p l1 l2 :
  bytes_at m p (l1 ++ l2) <-> bytes_at m p l1 /\ bytes_at m (p + Z.of_nat (length l1)) l2.
Proof.
  revert p. induction l1 as [|x l1 IH]; intros p; simpl.
  - rewrite Z.add_0_r. tauto.
  - rewrite IH. replace (p + 1 + Z.of_nat (length l1)) with (p + Z.of_nat (S (length l1))) by lia. tauto.
Qed.

Lemma bytes_at_size m p l : bytes_at m p l -> (length l <= size m)%nat.
Proof.
  intros H.
  transitivity (size (list_to_set (seqZ p (Z.of_nat (length l))) : gset Z)).
  - rewrite size_list_to_set by apply NoDup_seqZ. rewrite length_seqZ, Nat2Z.id. lia.
  - rewrite <- (size_dom (D := gset Z)). apply subseteq_size.
    intros a Ha%elem_of_list_to_set%elem_of_seqZ. apply elem_of_dom.
    revert p H Ha. induction l as [|x l IH]; intros p H Ha; simpl in *; [lia|].
    destruct H as [Hx H]. destruct (decide (a = p)) as [-> |]; [eauto|].
    apply (IH (p + 1)); [done | lia].
Qed.

Lemma str_at_fuel m p s : str_at m p s -> (length s < str_fuel m)%nat.
Proof.
  intros [H _]. apply bytes_at_size in H. rewrite length_app in H. simpl in H.
  unfold str_fuel. lia.
Qed.

Lemma store_Some m a v : is_Some (m !! a) -> store m a v = Some (<[a := v]> m).
Proof. intros [x Hx]. unfold store. by rewrite Hx. Qed.

Lemma insert_alloc (m : mem) a v b : is_Some (m !! b) -> is_Some (<[a := v]> m !! b).
Proof. intros H. rewrite lookup_insert. case_decide; eauto. Qed.

Lemma str_at_cons m p x s : str_at m p (x :: s) <->
  m !! p = Some x /\ char_ok x /\ str_at m (p + 1) s.
Proof. unfold str_at. simpl. rewrite Forall_cons_iff. tauto. Qed.

Lemma str_at_nil m p : str_at m p [] <-> m !! p = Some 0.
Proof. unfold str_at. simpl. rewrite Forall_nil_iff. tauto. Qed.

(** ** Copying *)

Lemma copy_up_spec n m d s :
  (d <= s \/ s + Z.of_nat n <= d) -> allocated m s (Z.of_nat n) -> allocated m d (Z.of_nat n) ->
  exists m', copy_up n m d s = Some m' /\ copied m m' d s (Z.of_nat n).
Proof.
  revert m d s. induction n as [|n IH]; intros m d s Hds Hs Hd.
  { exists m. split; [done|]. intros a. by destruct (d <=? a) eqn:E, (a <? d + Z.of_nat 0) eqn:E2; zbool; simpl; try lia. }
  destruct (Hs s) as [c Hc]; [lia|]. simpl. unfold load. rewrite Hc. simpl.
  rewrite store_Some by (apply Hd; lia). simpl.
  destruct (IH (<[d := c]> m) (d + 1) (s + 1)) as (m' & -> & Hcp); [lia | | |].
  1-2: intros a Ha; apply insert_alloc; first [apply Hs; lia | apply Hd; lia].
  exists m'. split; [done|]. intros a. rewrite Hcp.
  destruct (decide (a = d)) as [-> | Hne].
  - rewrite (proj2 (Z.leb_gt _ _)) by lia. simpl. rewrite lookup_insert_eq.
    rewrite (proj2 (Z.leb_le d d)), (proj2 (Z.ltb_lt _ _)) by lia. simpl.
    by rewrite Z.sub_diag, Z.add_0_r.
  - destruct (Z.leb_spec (d + 1) a), (Z.leb_spec d a), (Z.ltb_spec a (d + 1 + Z.of_nat n)),
      (Z.ltb_spec a (d + Z.of_nat (S n))); simpl; try lia;
      rewrite lookup_insert_ne by lia; [f_equal; lia | done..].
Qed.

Lemma copy_down_spec n m d s :
  s <= d -> allocated m s (Z.of_nat n) -> allocated m d (Z.of_nat n) ->
  exists m', copy_down n m (d + Z.of_nat n) (s + Z.of_nat n) = Some m' /\
    copied m m' d s (Z.of_nat n).
Proof.
  revert m. induction n as [|n IH]; intros m Hds Hs Hd.
  { exists m. split; [done|]. intros a. by destruct (d <=? a) eqn:E, (a <? d + Z.of_nat 0) eqn:E2; zbool; simpl; try lia. }
  replace (d + Z.of_nat (S n)) with (d + Z.of_nat n + 1) by lia.
  replace (s + Z.of_nat (S n)) with (s + Z.of_nat n + 1) by lia. simpl.
  replace (d + Z.of_nat n + 1 - 1) with (d + Z.of_nat n) by lia.
  replace (s + Z.of_nat n + 1 - 1) with (s + Z.of_nat n) by lia.
  destruct (Hs (s + Z.of_nat n)) as [c Hc]; [lia|]. unfold load. rewrite Hc. simpl.
  rewrite store_Some by (apply Hd; lia). simpl.
  destruct (IH (<[d + Z.of_nat n := c]> m)) as (m' & -> & Hcp); [lia | | |].
  1-2: intros a Ha; apply insert_alloc; first [apply Hs; lia | apply Hd; lia].
  exists m'. split; [done|]. intros a. rewrite Hcp.
  destruct (decide (a = d + Z.of_nat n)) as [-> | Hne].
  - rewrite (proj2 (Z.ltb_ge (d + Z.of_nat n) (d + Z.of_nat n))) by lia. rewrite andb_false_r, lookup_insert_eq.
    rewrite (proj2 (Z.leb_le _ _)), (proj2 (Z.ltb_lt _ _)) by lia. simpl.
    rewrite <- Hc. f_equal; lia.
  - destruct (Z.leb_spec d a), (Z.ltb_spec a (d + Z.of_nat n)),
      (Z.ltb_spec a (d + Z.of_nat (S n))); simpl; try lia;
      rewrite lookup_insert_ne by lia; done.
Qed.

(** Membership in an address range, for rewriting [copied] and [filled]. *)
Definition in_range (d n a : Z) : bool := (d <=? a) && (a <? d + n).
Lemma in_range_spec d n a : reflect (d <= a < d + n) (in_range d n a).
Proof. apply iff_reflect. unfold in_range. rewrite andb_true_iff, Z.leb_le, Z.ltb_lt. lia. Qed.

Ltac ranges :=
  repeat match goal with
  | |- context [in_range ?d ?n ?a] => destruct (in_range_spec d n a); try lia
  end.

Lemma copied_refl m d n : copied m m d d n.
Proof. intros a. fold (in_range d n a). ranges; f_equal; lia. Qed.

Lemma copied_0 m d s : copied m m d s 0.
Proof. intros a. fold (in_range d 0 a). ranges. done. Qed.

Lemma copied_trans m m1 m2 d s k n :
  0 <= k -> 0 <= n -> (d <= s \/ s + k + n <= d) ->
  copied m m1 d s k -> copied m1 m2 (d + k) (s + k) n -> copied m m2 d s (k + n).
Proof.
  intros Hk Hn Hds H1 H2 a. rewrite H2. fold (in_range (d + k) n a) (in_range d (k + n) a).
  ranges; rewrite H1; [fold (in_range d k (s + k + (a - (d + k)))) | fold (in_range d k a)..];
    ranges; f_equal; lia.
Qed.

Lemma copied_alloc m m' d s n p k :
  allocated m s n -> copied m m' d s n -> allocated m p k -> allocated m' p k.
Proof.
  intros Hs Hc Hp a Ha. rewrite Hc. fold (in_range d n a). ranges; [apply Hs; lia | auto].
Qed.

Lemma copied_mem_ok m m' d s n : mem_ok m -> copied m m' d s n -> mem_ok m'.
Proof. intros Hm Hc a x. rewrite Hc. case_match; apply Hm. Qed.

Lemma copy_word_spec n m m0 d a :
  mem_ok m -> allocated m a (Z.of_nat n) -> allocated m0 d (Z.of_nat n) ->
  exists w m', load_word n m a = Some w /\ store_word n m0 d w = Some m' /\
    forall b, m' !! b = if in_range d (Z.of_nat n) b then m !! (a + (b - d)) else m0 !! b.
Proof.
  intros Hm. revert m0 d a. induction n as [|n IH]; intros m0 d a Ha Hd.
  { exists 0, m0. repeat split; try done. intros b. ranges. done. }
  destruct (Ha a) as [x Hx]; [lia|]. pose proof (Hm _ _ Hx) as Hxb.
  destruct (IH (<[d := x]> m0) (d + 1) (a + 1)) as (w & m' & Hl & Hst & Hb).
  { intros b Hb. apply Ha. lia. }
  { intros b Hb. apply insert_alloc, Hd. lia. }
  exists (x + 256 * w), m'. simpl. unfold load. rewrite Hx. simpl. rewrite Hl. simpl.
  replace ((x + 256 * w) mod 256) with x by (rewrite Z.mul_comm, Z_mod_plus_full, Z.mod_small; lia).
  replace ((x + 256 * w) / 256) with w by (rewrite Z.mul_comm, Z.div_add, Z.div_small; lia).
  rewrite store_Some by (apply Hd; lia). simpl. split; [done|]. split; [done|].
  intros b. rewrite Hb. destruct (decide (b = d)) as [-> | Hne].
  - ranges. rewrite lookup_insert_eq, <- Hx. f_equal; lia.
  - rewrite lookup_insert_ne by done. ranges; f_equal; lia.
Qed.

Lemma copy_words_spec fuel m d s count :
  mem_ok m -> 0 <= count -> (Z.to_nat count < fuel)%nat ->
  (d <= s \/ s + count <= d) -> allocated m s count -> allocated m d count ->
  exists m' k, copy_words fuel m d s count = Some (m', d + k, s + k, count - k) /\
    0 <= k <= count /\ copied m m' d s k.
Proof.
  revert m d s count. induction fuel as [|fuel IH]; intros m d s count Hm Hc Hf Hds Hs Hd; [lia|].
  cbn [copy_words]. zcase.
  2:{ exists m, 0. rewrite !Z.add_0_r, Z.sub_0_r. split; [done|]. split; [lia | apply copied_0]. }
  destruct (copy_word_spec 4 m m d s) as (w & m1 & -> & Hst & Hb); auto.
  1-2: intros a Ha; first [apply Hs; lia | apply Hd; lia].
  cbn [mbind option_bind]. rewrite Hst. cbn [mbind option_bind]. change (Z.of_nat 4) with 4 in Hb.
  assert (H1 : copied m m1 d s 4) by exact Hb.
  assert (Hs4 : allocated m s 4) by (intros a Ha; apply Hs; lia).
  destruct (IH m1 (d + 4) (s + 4) (count - 4)) as (m' & k & -> & Hk & Hcp);
    eauto using copied_mem_ok; try lia.
  1-2: eapply copied_alloc; [exact Hs4 | exact H1 |]; intros a Ha; first [apply Hs; lia | apply Hd; lia].
  exists m', (4 + k). split; [do 2 f_equal; [f_equal; [f_equal|]|]; lia|].
  split; [lia|]. eapply (copied_trans _ m1); eauto; lia.
Qed.

Lemma memcpy_spec m dest src count :
  mem_ok m -> 0 <= count -> (dest <= src \/ src + count <= dest) ->
  allocated m src count -> allocated m dest count ->
  exists m', memcpy m dest src count = Some (dest, m') /\ copied m m' dest src count.
Proof.
  intros Hm Hc Hds Hs Hd. unfold memcpy. zcase.
  { exists m. subst. split; [done | apply copied_refl]. }
  assert (Hw : exists m1 k, (if Z.land (Z.lor dest src) 3 =? 0
      then copy_words (S (Z.to_nat count)) m dest src count else Some (m, dest, src, count))
      = Some (m1, dest + k, src + k, count - k) /\ 0 <= k <= count /\ copied m m1 dest src k).
  { zcase; [apply copy_words_spec; auto; lia|].
    exists m, 0. rewrite !Z.add_0_r, Z.sub_0_r. split; [done|]. split; [lia | apply copied_0]. }
  destruct Hw as (m1 & k & -> & Hk & H1). simpl.
  assert (Hsk : allocated m src k) by (intros a Ha; apply Hs; lia).
  destruct (copy_up_spec (Z.to_nat (count - k)) m1 (dest + k) (src + k)) as (m2 & -> & H2).
  { lia. }
  1-2: rewrite Z2Nat.id by lia; eapply copied_alloc; [exact Hsk | exact H1 |];
    intros a Ha; first [apply Hs; lia | apply Hd; lia].
  simpl. exists m2. split; [done|]. rewrite Z2Nat.id in H2 by lia.
  replace count with (k + (count - k)) by lia. eapply (copied_trans _ m1); eauto; lia.
Qed.

Lemma memmove_spec m dest src count :
  0 <= count -> allocated m src count -> allocated m dest count ->
  exists m', memmove m dest src count = Some (dest, m') /\ copied m m' dest src count.
Proof.
  intros Hc Hs Hd. unfold memmove. zcase.
  { exists m. subst. split; [done | apply copied_refl]. }
  rewrite <- (Z2Nat.id count) in Hs, Hd by lia. zcase.
  - destruct (copy_up_spec (Z.to_nat count) m dest src) as (m' & -> & Hcp); auto.
    rewrite Z2Nat.id in Hcp by lia. by exists m'.
  - destruct (copy_down_spec (Z.to_nat count) m dest src) as (m' & Hr & Hcp); auto; [lia|].
    rewrite Z2Nat.id in Hr, Hcp by lia. rewrite Hr. by exists m'.
Qed.

(** ** Filling *)

(** [m'] is [m] with the [n] bytes at [s] set to [v]. *)
Definition filled (m m' : mem) (s n v : Z) : Prop :=
  forall a, m' !! a = if in_range s n a then Some v else m !! a.

Lemma filled_0 m s v : filled m m s 0 v.
Proof. intros a. ranges. done. Qed.

Lemma filled_trans m m1 m2 s k n v :
  0 <= k -> 0 <= n -> filled m m1 s k v -> filled m1 m2 (s + k) n v -> filled m m2 s (k + n) v.
Proof. intros Hk Hn H1 H2 a. rewrite H2, H1. ranges; done. Qed.

Lemma filled_alloc m m' s n v p k : filled m m' s n v -> allocated m p k -> allocated m' p k.
Proof. intros Hf Hp a Ha. rewrite Hf. case_match; eauto. Qed.

Lemma fill_bytes_spec n m s c :
  allocated m s (Z.of_nat n) ->
  exists m', fill_bytes n m s c = Some m' /\ filled m m' s (Z.of_nat n) (u8 c).
Proof.
  revert m s. induction n as [|n IH]; intros m s Hs; [eauto using filled_0|]. simpl.
  rewrite store_Some by (apply Hs; lia). simpl.
  destruct (IH (<[s := u8 c]> m) (s + 1)) as (m' & -> & Hf).
  { intros a Ha. apply insert_alloc, Hs. lia. }
  exists m'. split; [done|]. intros a. rewrite Hf, lookup_insert.
  case_decide; subst; ranges; done.
Qed.

(** The word whose [n] bytes are all [v]. *)
Fixpoint rep_word (n : nat) (v : Z) : Z :=
  match n with O => 0 | S n => v + 256 * rep_word n v end.

Lemma store_rep_word n m s v :
  0 <= v < 256 -> allocated m s (Z.of_nat n) ->
  exists m', store_word n m s (rep_word n v) = Some m' /\ filled m m' s (Z.of_nat n) v.
Proof.
  intros Hv. revert m s. induction n as [|n IH]; intros m s Hs; [eauto using filled_0|].
  cbn [store_word rep_word].
  replace ((v + 256 * rep_word n v) mod 256) with v by (rewrite Z.mul_comm, Z_mod_plus_full, Z.mod_small; lia).
  replace ((v + 256 * rep_word n v) / 256) with (rep_word n v) by (rewrite Z.mul_comm, Z.div_add, Z.div_small; lia).
  rewrite store_Some by (apply Hs; lia). simpl.
  destruct (IH (<[s := v]> m) (s + 1)) as (m' & -> & Hf).
  { intros a Ha. apply insert_alloc, Hs. lia. }
  exists m'. split; [done|]. intros a. rewrite Hf, lookup_insert. case_decide; subst; ranges; done.
Qed.

Lemma spread_rep c : spread 4 0 c = rep_word 4 (u8 c).
Proof.
  assert (Hc : Z.land c 0xff = u8 c) by (apply (Z.land_ones c 8); lia).
  pose proof (u8_range c) as Hv. cbn [spread rep_word]. rewrite Hc. set (v := u8 c) in *.
  assert (Hstep : forall cl, 0 <= cl < 2 ^ 24 -> Z.lor (u32 (Z.shiftl cl 8)) v = v + 256 * cl).
  { intros cl Hcl. rewrite Z.shiftl_mul_pow2, u32_small, lor_low by lia. lia. }
  rewrite (Hstep 0), (Hstep (v + 256 * 0)), (Hstep (v + 256 * (v + 256 * 0))),
    (Hstep (v + 256 * (v + 256 * (v + 256 * 0)))) by lia. done.
Qed.

Lemma fill_words_spec fuel m s v count :
  0 <= v < 256 -> 0 <= count -> (Z.to_nat count < fuel)%nat -> allocated m s count ->
  exists m' k, fill_words fuel m s (rep_word 4 v) count = Some (m', s + k, count - k) /\
    0 <= k <= count /\ filled m m' s k v.
Proof.
  intros Hv. revert m s count. induction fuel as [|fuel IH]; intros m s count Hc Hf Hs; [lia|].
  cbn [fill_words]. zcase.
  2:{ exists m, 0. rewrite Z.add_0_r, Z.sub_0_r. split; [done|]. split; [lia | apply filled_0]. }
  destruct (store_rep_word 4 m s v) as (m1 & -> & H1); auto.
  { intros a Ha. apply Hs. lia. }
  cbn [mbind option_bind]. destruct (IH m1 (s + 4) (count - 4)) as (m' & k & -> & Hk & H2); try lia.
  { eapply filled_alloc; [done|]. intros a Ha. apply Hs. lia. }
  exists m', (4 + k). split; [do 2 f_equal; [f_equal|]; lia|]. split; [lia|].
  eapply (filled_trans _ m1); eauto; lia.
Qed.

Lemma memset_spec m s c count :
  0 <= count -> allocated m s count ->
  exists m', memset m s c count = Some (s, m') /\ filled m m' s count (u8 c).
Proof.
  intros Hc Hs. unfold memset. rewrite spread_rep.
  assert (Hw : exists m1 k, (if Z.land s 3 =? 0 then
      fill_words (S (Z.to_nat count)) m s (rep_word 4 (u8 c)) count else Some (m, s, count))
      = Some (m1, s + k, count - k) /\ 0 <= k <= count /\ filled m m1 s k (u8 c)).
  { zcase; [apply fill_words_spec; auto with cmodel; lia|].
    exists m, 0. rewrite Z.add_0_r, Z.sub_0_r. split; [done|]. split; [lia | apply filled_0]. }
  destruct Hw as (m1 & k & -> & Hk & H1). simpl.
  destruct (fill_bytes_spec (Z.to_nat (count - k)) m1 (s + k) c) as (m2 & -> & H2).
  { rewrite Z2Nat.id by lia. eapply filled_alloc; [done|]. intros a Ha. apply Hs. lia. }
  simpl. exists m2. split; [done|]. rewrite Z2Nat.id in H2 by lia.
  replace count with (k + (count - k)) by lia. eapply (filled_trans _ m1); eauto; lia.
Qed.

(** ** Strings in memory *)

Lemma scan_nul_spec fuel m p s :
  str_at m p s -> (length s < fuel)%nat -> scan_nul fuel m p = Some (p + Z.of_nat (length s)).
Proof.
  revert p fuel. induction s as [|x s IH]; intros p [|fuel] Hs Hf; simpl in *; try lia.
  - apply str_at_nil in Hs. unfold load. rewrite Hs. simpl. f_equal; lia.
  - apply str_at_cons in Hs as (Hx & Hc & Hs). unfold load. rewrite Hx. simpl.
    unfold char_ok in Hc. zcase; [lia|]. rewrite IH by (done || lia). f_equal; lia.
Qed.

Lemma strlen_spec m p s : str_at m p s -> strlen m p = Some (Z.of_nat (length s)).
Proof.
  intros Hs. unfold strlen. rewrite (scan_nul_spec _ _ _ s) by eauto using str_at_fuel.
  simpl. f_equal; lia.
Qed.

(** [strcmp] on the contents. *)
Fixpoint strcmp_l (s t : list Z) : Z :=
  match s, t with
  | [], [] => 0
  | [], y :: _ => s8 (0 - y)
  | x :: _, [] => s8 (x - 0)
  | x :: s, y :: t => if negb (s8 (x - y) =? 0) then s8 (x - y) else strcmp_l s t
  end.

Lemma s8_zero x y : 0 <= x < 256 -> 0 <= y < 256 -> s8 (x - y) = 0 <-> x = y.
Proof.
  intros Hx Hy. unfold s8. split; [|intros ->; by rewrite Z.sub_diag].
  intros H. assert (Hm : (x - y + 2 ^ 7) mod 2 ^ 8 = 2 ^ 7) by lia.
  pose proof (Z.div_mod (x - y + 2 ^ 7) (2 ^ 8)). nia.
Qed.

Lemma s8_small z : -128 <= z < 128 -> s8 z = z.
Proof. intros H. unfold s8. rewrite Z.mod_small; lia. Qed.

Lemma strcmp_loop_spec fuel m p q s t :
  str_at m p s -> str_at m q t -> (length s < fuel)%nat ->
  strcmp_loop fuel m p q = Some (strcmp_l s t).
Proof.
  revert p q t fuel. induction s as [|x s IH]; intros p q t [|fuel] Hs Ht Hf; simpl in *; try lia.
  - apply str_at_nil in Hs. unfold load. rewrite Hs. destruct t as [|y t].
    + apply str_at_nil in Ht. by rewrite Ht.
    + apply str_at_cons in Ht as (Hy & _ & _). rewrite Hy. simpl. by rewrite orb_true_r.
  - apply str_at_cons in Hs as (Hx & Hcx & Hs). unfold load, char_ok in *. rewrite Hx.
    assert (Hx0 : (x =? 0) = false) by (apply Z.eqb_neq; lia). destruct t as [|y t].
    + apply str_at_nil in Ht. rewrite Ht. simpl. rewrite Hx0, orb_false_r.
      rewrite (proj2 (Z.eqb_neq (s8 (x - 0)) 0)); [done|]. rewrite s8_zero; lia.
    + apply str_at_cons in Ht as (Hy & Hcy & Ht). rewrite Hy. simpl. rewrite Hx0, orb_false_r.
      destruct (negb _) eqn:E; [done|]. apply IH; (done || lia).
Qed.

Lemma strcmp_spec m p q s t :
  str_at m p s -> str_at m q t -> strcmp m p q = Some (strcmp_l s t).
Proof. intros Hs Ht. apply strcmp_loop_spec; eauto using str_at_fuel. Qed.

Lemma strcmp_l_eq s t : Forall char_ok s -> Forall char_ok t -> strcmp_l s t = 0 <-> s = t.
Proof.
  intros Hs. revert t. induction Hs as [|x s Hx Hs IH]; intros t Ht; destruct Ht as [|y t Hy Ht];
    simpl; unfold char_ok in *; try done.
  - rewrite s8_zero by lia. split; [lia | done].
  - rewrite s8_zero by lia. split; [lia | done].
  - destruct (negb _) eqn:E; zbool.
    + split; [done|]. intros [= -> ->]. rewrite s8_zero in E by lia. done.
    + rewrite s8_zero in E by lia. subst. rewrite IH by done. split; [by intros -> | by intros [= ->]].
Qed.

(** Byte order of strings, the order [strcmp] is meant to compute. *)
Fixpoint lex_lt (s t : list Z) : Prop :=
  match s, t with
  | _, [] => False
  | [], _ :: _ => True
  | x :: s, y :: t => x < y \/ x = y /\ lex_lt s t
  end.

Definition ascii7 (x : Z) : Prop := 0 < x < 128.

Lemma strcmp_l_lt s t : Forall ascii7 s -> Forall ascii7 t -> strcmp_l s t < 0 <-> lex_lt s t.
Proof.
  intros Hs. revert t. induction Hs as [|x s Hx Hs IH]; intros t Ht; destruct Ht as [|y t Hy Ht];
    simpl; unfold ascii7 in *; rewrite ?s8_small by lia; try lia.
  destruct (negb _) eqn:E; zbool; [lia|]. rewrite IH by done. intuition lia.
Qed.

Lemma lex_lt_trichotomy s t : lex_lt s t \/ s = t \/ lex_lt t s.
Proof.
  revert t. induction s as [|x s IH]; destruct t as [|y t]; simpl; auto.
  destruct (Z.lt_total x y) as [|[-> |]]; [auto | | auto].
  destruct (IH t) as [|[-> |]]; auto.
Qed.

Lemma lex_lt_trans s t u : lex_lt s t -> lex_lt t u -> lex_lt s u.
Proof.
  revert t u. induction s as [|x s IH]; destruct t as [|y t], u as [|z u]; simpl; try tauto.
  intros [?|[-> ?]] [?|[-> ?]]; [left; lia | left; lia | left; lia |]. right. eauto.
Qed.

Lemma lex_lt_irrefl s : ~ lex_lt s s.
Proof. induction s as [|x s IH]; simpl; [tauto | intros [?|[_ ?]]; [lia | auto]]. Qed.

(** ** Comparison and search *)

Lemma memcmp_zero n m p q l k :
  bytes_at m p l -> bytes_at m q k -> length l = n -> length k = n ->
  exists r, memcmp_loop n m p q = Some r /\ (r = 0 <-> l = k).
Proof.
  revert p q l k. induction n as [|n IH]; intros p q [|x l] [|y k] Hl Hk Hn Hn'; simpl in *; try lia.
  { by exists 0. }
  destruct Hl as [Hx Hl], Hk as [Hy Hk]. unfold load. rewrite Hx, Hy. simpl.
  zcase; simpl.
  - destruct (IH (p + 1) (q + 1) l k) as (r & -> & Hr); auto. exists r. split; [done|].
    rewrite Hr. replace y with x by lia. split; [by intros -> | by intros [= ->]].
  - exists (x - y). split; [done|]. split; [lia | intros [= -> ->]; lia].
Qed.

Lemma bytes_at_take m p l n : bytes_at m p l -> bytes_at m p (take n l).
Proof. intros H. rewrite <- (take_drop n l) in H. by apply bytes_at_app in H as [H _]. Qed.

(** The first position at which [t] occurs in [s]. *)
Fixpoint find_sub (t s : list Z) : option nat :=
  if decide (take (length t) s = t) then Some O
  else match s with [] => None | _ :: s => S <$> find_sub t s end.

Lemma find_sub_length t s i : find_sub t s = Some i -> (length t <= length s)%nat.
Proof.
  revert i. induction s as [|y s IH]; simpl; intros i; case_decide as Hd; try done.
  1-2: intros _; apply (f_equal length) in Hd; rewrite length_take in Hd; simpl in *; lia.
  destruct (find_sub t s) as [j|]; [|done]. intros _. specialize (IH j eq_refl). lia.
Qed.

(** One probe of [strstr]. *)
Lemma memcmp_probe m p q s t :
  str_at m p s -> str_at m q t -> (length t <= length s)%nat ->
  exists r, memcmp m p q (Z.of_nat (length t)) = Some r /\ (r = 0 <-> take (length t) s = t).
Proof.
  intros [Hs _] [Ht _] Hl. apply bytes_at_app in Hs as [Hs _], Ht as [Ht _].
  unfold memcmp. rewrite Nat2Z.id. apply memcmp_zero; auto using bytes_at_take.
  rewrite length_take. lia.
Qed.

Lemma strstr_loop_spec fuel m p q s t :
  str_at m p s -> str_at m q t -> t <> [] -> (S (length s) < fuel)%nat ->
  strstr_loop fuel m p q (Z.of_nat (length s)) (Z.of_nat (length t)) =
  Some (match find_sub t s with Some i => p + Z.of_nat i | None => NULL end).
Proof.
  intros Hs Ht Hne. revert p fuel Hs. induction s as [|x s IH]; intros p [|fuel] Hs Hf; try lia.
  { destruct t as [|y t]; [done|]. simpl. done. }
  cbn [strstr_loop].
  destruct (Z.leb_spec (Z.of_nat (length t)) (Z.of_nat (length (x :: s)))) as [Hle | Hgt].
  2:{ destruct (find_sub t (x :: s)) eqn:E; [|done]. apply find_sub_length in E. lia. }
  destruct (memcmp_probe m p q (x :: s) t Hs Ht) as (r & -> & Hr); [lia|]. cbn [mbind option_bind].
  cbn [find_sub]. case_decide as Hdec.
  - rewrite (proj2 (Z.eqb_eq r 0)) by tauto. f_equal; lia.
  - rewrite (proj2 (Z.eqb_neq r 0)) by tauto. apply str_at_cons in Hs as (_ & _ & Hs).
    replace (Z.of_nat (length (x :: s)) - 1) with (Z.of_nat (length s)) by (simpl; lia).
    rewrite IH by (done || (simpl in *; lia)). destruct (find_sub t s); simpl; f_equal; lia.
Qed.

Lemma strstr_spec m p q s t :
  str_at m p s -> str_at m q t ->
  strstr m p q = Some (match find_sub t s with Some i => p + Z.of_nat i | None => NULL end).
Proof.
  intros Hs Ht. unfold strstr. rewrite (strlen_spec _ _ _ Ht). cbn [mbind option_bind].
  destruct t as [|y t]; [destruct s; simpl; f_equal; lia|]. zcase; [simpl in *; lia|].
  rewrite (strlen_spec _ _ _ Hs). cbn [mbind option_bind].
  apply strstr_loop_spec; auto. apply str_at_fuel in Hs. lia.
Qed.

(** [find_sub] is the first occurrence. *)
Lemma find_sub_first t s :
  match find_sub t s with
  | Some i => take (length t) (drop i s) = t /\ forall j, (j < i)%nat -> take (length t) (drop j s) <> t
  | None => forall j, take (length t) (drop j s) <> t
  end.
Proof.
  induction s as [|x s IH]; cbn [find_sub]; case_decide as Hd.
  - split; [done | lia].
  - intros j. by rewrite drop_nil.
  - split; [done | lia].
  - destruct (find_sub t s) as [i|]; simpl.
    + destruct IH as [H1 H2]. split; [done|]. intros [|j] Hj; [done|]. apply H2. lia.
    + intros [|j]; [done | apply IH].
Qed.

(** ** [memchr_inv] *)

Lemma value64_rep v : 0 <= v < 256 -> value64_of v = rep_word 8 v.
Proof.
  intros Hv. unfold value64_of.
  assert (Hstep : forall x k, 0 <= k -> 0 <= x < 2 ^ k -> x * 2 ^ k < 2 ^ 64 ->
    Z.lor x (u64 (Z.shiftl x k)) = x * 2 ^ k + x).
  { intros x k Hk Hx Hb. rewrite Z.shiftl_mul_pow2, u64_small by nia.
    rewrite Z.lor_comm. by apply lor_low. }
  rewrite (Hstep v 8) by lia. rewrite (Hstep (v * 2 ^ 8 + v) 16) by lia.
  rewrite Hstep by lia. simpl. lia.
Qed.

Lemma check_bytes_app a b m s v :
  0 < s ->
  check_bytes (a + b) m s v =
  (r ← check_bytes a m s v;
   if r =? NULL then check_bytes b m (s + Z.of_nat a) v else Some r).
Proof.
  revert s. induction a as [|a IH]; intros s Hs; simpl; [by rewrite Z.add_0_r|].
  destruct (load m s) as [x|]; simpl; [|done]. destruct (negb _); simpl.
  - unfold NULL. zcase; [lia | done].
  - rewrite IH by lia. destruct (check_bytes a m (s + 1) v); simpl; [|done].
    zcase; [f_equal; lia | done].
Qed.

(** A word equals the replicated byte exactly when the byte check passes. *)
Lemma word_check n m s v :
  mem_ok m -> 0 < s -> 0 <= v < 256 -> allocated m s (Z.of_nat n) ->
  exists w r, load_word n m s = Some w /\ check_bytes n m s v = Some r /\
    (w = rep_word n v <-> r = NULL) /\ 0 <= w.
Proof.
  intros Hm. revert s. induction n as [|n IH]; intros s Hs Hv Ha.
  { exists 0, NULL. done. }
  destruct (Ha s) as [x Hx]; [lia|]. pose proof (Hm _ _ Hx).
  destruct (IH (s + 1)) as (w & r & Hw & Hr & Hiff & Hw0); [lia | done | intros a Hb; apply Ha; lia|].
  cbn [load_word check_bytes rep_word]. unfold load. rewrite Hx. cbn [mbind option_bind].
  rewrite Hw. cbn [mbind option_bind].
  destruct (Z.eqb_spec x v) as [-> | Hne]; cbn [negb].
  - exists (v + 256 * w), r. rewrite Hr. split_and!; try done; [|lia]. rewrite <- Hiff. lia.
  - exists (x + 256 * w), s. split_and!; try done; [|lia].
    unfold NULL. split; [|lia]. intros Heq. exfalso.
    apply (f_equal (fun z => z mod 256)) in Heq.
    rewrite !(Z.mul_comm 256), !Z_mod_plus_full, !Z.mod_small in Heq by lia. lia.
Qed.

Lemma check_words_spec words m s v tail :
  mem_ok m -> 0 < s -> 0 <= v < 256 -> 0 <= tail ->
  allocated m s (8 * Z.of_nat words + tail) ->
  check_words words m s v (rep_word 8 v) tail = check_bytes (8 * words + Z.to_nat tail) m s v.
Proof.
  intros Hm. revert s. induction words as [|words IH]; intros s Hs Hv Ht Ha; [done|].
  cbn [check_words]. replace (8 * S words + Z.to_nat tail)%nat with (8 + (8 * words + Z.to_nat tail))%nat by lia.
  rewrite check_bytes_app by done.
  destruct (word_check 8 m s v) as (w & r & -> & Hr & Hiff & _); auto.
  { intros a Hb. apply Ha. lia. }
  cbn [mbind option_bind]. unfold check_bytes8. change (Z.to_nat 8) with 8%nat. rewrite Hr.
  cbn [mbind option_bind]. destruct (Z.eqb_spec w (rep_word 8 v)) as [He | He]; cbn [negb].
  - rewrite (proj2 (Z.eqb_eq r NULL)) by tauto. apply IH; auto; [lia|].
    intros a Hb. apply Ha. lia.
  - rewrite (proj2 (Z.eqb_neq r NULL)) by tauto. done.
Qed.

Lemma memchr_inv_spec m start c bytes :
  mem_ok m -> 0 < start -> 0 <= bytes -> allocated m start bytes ->
  memchr_inv m start c bytes = check_bytes (Z.to_nat bytes) m start (u8 c).
Proof.
  intros Hm Hs Hb Ha. unfold memchr_inv. zcase; [done|].
  rewrite value64_rep by apply u8_range. pose proof (u8_range c) as Hv.
  pose proof (Z.mod_pos_bound start 8). set (skip := if negb (start mod 8 =? 0) then 8 - start mod 8 else 0).
  assert (Hskip : 0 <= skip < 8) by (unfold skip; zcase; lia).
  assert (Hpre : (if negb (start mod 8 =? 0) then check_bytes8 m start (u8 c) (8 - start mod 8)
    else Some NULL) = check_bytes (Z.to_nat skip) m start (u8 c)) by (unfold skip, check_bytes8; by zcase).
  rewrite Hpre. replace (Z.to_nat bytes) with (Z.to_nat skip + Z.to_nat (bytes - skip))%nat by lia.
  rewrite check_bytes_app by done. destruct (check_bytes (Z.to_nat skip) m start (u8 c)) as [r|]; [|done].
  cbn [mbind option_bind]. destruct (Z.eqb_spec r NULL); cbn [negb]; [|done].
  rewrite Z2Nat.id by lia. pose proof (Z.div_mod (bytes - skip) 8). pose proof (Z.mod_pos_bound (bytes - skip) 8).
  pose proof (Z.div_pos (bytes - skip) 8).
  rewrite check_words_spec; auto; try lia.
  - f_equal. lia.
  - rewrite Z2Nat.id by lia. intros a Hra. apply Ha. lia.
Qed.

(** The reference: the address of the first byte that is not [v]. *)
Lemma check_bytes_first n m s v :
  0 < s -> allocated m s (Z.of_nat n) ->
  exists r, check_bytes n m s v = Some r /\
    ((r = NULL /\ forall a, s <= a < s + Z.of_nat n -> m !! a = Some v) \/
     (s <= r < s + Z.of_nat n /\ m !! r <> Some v /\ forall a, s <= a < r -> m !! a = Some v)).
Proof.
  revert s. induction n as [|n IH]; intros s Hs Ha.
  { exists NULL. split; [done|]. left. split; [done | lia]. }
  destruct (Ha s) as [x Hx]; [lia|]. cbn [check_bytes]. unfold load. rewrite Hx. cbn [mbind option_bind].
  destruct (Z.eqb_spec x v) as [-> | Hne]; cbn [negb].
  - destruct (IH (s + 1)) as (r & -> & Hr); [lia | intros a Hb; apply Ha; lia|].
    exists r. split; [done|].
    assert (Hext : forall hi, (forall a, s + 1 <= a < hi -> m !! a = Some v) -> forall a, s <= a < hi -> m !! a = Some v).
    { intros hi Hall a Hra. destruct (decide (a = s)) as [-> |]; [done | apply Hall; lia]. }
    destruct Hr as [[-> Hall] | (Hr & Hnv & Hall)]; [left | right].
    + split; [done|]. apply Hext. intros a Hra. apply Hall. lia.
    + split; [lia|]. split; [done|]. by apply Hext.
  - exists s. split; [done|]. right. split; [lia|]. split; [congruence | lia].
Qed.

(** ** Bounded copy and tokens *)

Lemma bytes_at_lookup m p l i x : bytes_at m p l -> l !! i = Some x -> m !! (p + Z.of_nat i) = Some x.
Proof.
  revert p i. induction l as [|y l IH]; intros p [|i] Hb Hi; simpl in *; try done.
  - injection Hi as ->. rewrite Z.add_0_r. apply Hb.
  - destruct Hb as [_ Hb]. specialize (IH _ _ Hb Hi). rewrite <- IH. f_equal. lia.
Qed.

Lemma bytes_at_intro m p l :
  (forall i x, l !! i = Some x -> m !! (p + Z.of_nat i) = Some x) -> bytes_at m p l.
Proof.
  revert p. induction l as [|y l IH]; intros p H; simpl; [done|]. split.
  - specialize (H O y eq_refl). by rewrite Z.add_0_r in H.
  - apply IH. intros i x Hi. specialize (H (S i) x Hi). rewrite <- H. f_equal. lia.
Qed.

Lemma str_at_allocated m p s : str_at m p s -> allocated m p (Z.of_nat (length s) + 1).
Proof.
  intros [Hb _] a Ha.
  destruct (lookup_lt_is_Some_2 (s ++ [0]) (Z.to_nat (a - p))) as [x Hx]; [len|].
  exists x. rewrite <- (bytes_at_lookup _ _ _ _ _ Hb Hx). f_equal. lia.
Qed.

Lemma strlcpy_spec m dest src size s :
  mem_ok m -> str_at m src s -> 0 < size ->
  let len := Z.min (Z.of_nat (length s)) (size - 1) in
  allocated m dest (len + 1) -> (dest + len < src \/ src + Z.of_nat (length s) < dest) ->
  exists m', strlcpy m dest src size = Some (Z.of_nat (length s), m') /\
    str_at m' dest (take (Z.to_nat (size - 1)) s) /\
    forall a, ~ dest <= a <= dest + len -> m' !! a = m !! a.
Proof.
  intros Hm Hs Hsz len Hd Hdis. unfold strlcpy. rewrite (strlen_spec _ _ _ Hs). simpl. zcase; [lia|]. simpl.
  replace (if size <=? Z.of_nat (length s) then size - 1 else Z.of_nat (length s)) with len
    by (unfold len; zcase; lia).
  pose proof (str_at_allocated _ _ _ Hs) as Hsa. assert (Hl : 0 <= len <= Z.of_nat (length s)) by lia.
  destruct (memcpy_spec m dest src len) as (m1 & -> & Hcp); auto; try lia.
  1-2: intros a Ha; first [apply Hsa; lia | apply Hd; lia].
  simpl. rewrite store_Some.
  2:{ rewrite Hcp. fold (in_range dest len (dest + len)). ranges. apply Hd. lia. }
  simpl. eexists. split; [done|]. split.
  - split; [|apply Forall_take, Hs]. apply bytes_at_intro. intros i x Hi.
    assert (Hlen : length (take (Z.to_nat (size - 1)) s) = Z.to_nat len) by (rewrite length_take; lia).
    destruct (decide (i < Z.to_nat len)%nat) as [Hlt | Hge].
    + rewrite lookup_insert_ne, Hcp by lia. fold (in_range dest len (dest + Z.of_nat i)). ranges.
      rewrite lookup_app_l, lookup_take_lt in Hi by lia. destruct Hs as [Hb _].
      replace (src + (dest + Z.of_nat i - dest)) with (src + Z.of_nat i) by lia.
      eapply bytes_at_lookup; [done|]. rewrite lookup_app_l; [done|]. eapply lookup_lt_Some, Hi.
    + pose proof (lookup_lt_Some _ _ _ Hi) as Hlt. rewrite length_app, Hlen in Hlt. simpl in Hlt.
      rewrite lookup_app_r, Hlen in Hi by lia. replace (i - Z.to_nat len)%nat with O in Hi by lia.
      injection Hi as <-. replace (dest + Z.of_nat i) with (dest + len) by lia. apply lookup_insert_eq.
  - intros a Ha. rewrite lookup_insert_ne, Hcp by lia. fold (in_range dest len a). ranges. done.
Qed.

Lemma in_set_spec fuel m a c t :
  str_at m a t -> (length t < fuel)%nat -> in_set fuel m a c = Some (bool_decide (c ∈ t)).
Proof.
  revert a fuel. induction t as [|x t IH]; intros a [|fuel] Ht Hf; simpl in *; try lia.
  - apply str_at_nil in Ht. unfold load. by rewrite Ht.
  - apply str_at_cons in Ht as (Hx & Hc & Ht). unfold load, char_ok in *. rewrite Hx. simpl.
    zcase; [lia|]. destruct (Z.eqb_spec c x) as [-> | Hne].
    + rewrite bool_decide_eq_true_2; [done | apply elem_of_cons; auto].
    + rewrite IH by (done || lia). f_equal. apply bool_decide_ext. rewrite elem_of_cons. tauto.
Qed.

(** The part of [s] before the first character of [t], and what follows. *)
Fixpoint span_not (t s : list Z) : list Z * list Z :=
  match s with
  | [] => ([], [])
  | x :: s' => if bool_decide (x ∈ t) then ([], s)
               else let '(a, b) := span_not t s' in (x :: a, b)
  end.

Lemma span_not_app t s : let '(a, b) := span_not t s in
  s = a ++ b /\ Forall (fun x => x ∉ t) a /\ (forall x, head b = Some x -> x ∈ t).
Proof.
  induction s as [|x s IH]; simpl; [by split|]. case_bool_decide as Hin.
  - split; [done|]. split; [done|]. by intros ? [= <-].
  - destruct (span_not t s) as [a b]. destruct IH as (-> & Ha & Hb). split; [done|]. split; [by constructor | done].
Qed.

Lemma strpbrk_loop_spec fuel m p ct s t :
  str_at m p s -> str_at m ct t -> (length s < fuel)%nat ->
  strpbrk_loop fuel m p ct =
  Some (let '(a, b) := span_not t s in
        match b with [] => NULL | _ => p + Z.of_nat (length a) end).
Proof.
  intros Hs Ht. revert p fuel Hs. induction s as [|x s IH]; intros p [|fuel] Hs Hf;
    simpl length in Hf; try lia; cbn [strpbrk_loop span_not].
  - apply str_at_nil in Hs. unfold load. by rewrite Hs.
  - apply str_at_cons in Hs as (Hx & Hc & Hs). unfold load, char_ok in *. rewrite Hx.
    cbn [mbind option_bind]. zcase; [lia|].
    rewrite (in_set_spec _ _ _ _ t) by eauto using str_at_fuel. cbn [mbind option_bind].
    case_bool_decide; simpl; [f_equal; lia|]. rewrite IH by (done || lia).
    destruct (span_not t s) as [a [|y b]]; simpl; [done | f_equal; lia].
Qed.

Lemma strpbrk_spec m p ct s t :
  str_at m p s -> str_at m ct t ->
  strpbrk m p ct = Some (let '(a, b) := span_not t s in
    match b with [] => NULL | _ => p + Z.of_nat (length a) end).
Proof. intros Hs Ht. apply strpbrk_loop_spec; eauto using str_at_fuel. Qed.

Lemma bytes_at_insert m p l a v :
  (a < p \/ p + Z.of_nat (length l) <= a) -> bytes_at m p l -> bytes_at (<[a := v]> m) p l.
Proof.
  intros Ha Hb. apply bytes_at_intro. intros i x Hi. pose proof (lookup_lt_Some _ _ _ Hi).
  rewrite lookup_insert_ne by lia. by eapply bytes_at_lookup.
Qed.

(** Writing a NUL over the character after [a] cuts the string there. *)
Lemma str_at_cut m p a c b :
  str_at m p (a ++ c :: b) ->
  let e := p + Z.of_nat (length a) in
  is_Some (m !! e) /\ str_at (<[e := 0]> m) p a /\ str_at (<[e := 0]> m) (e + 1) b.
Proof.
  intros [Hb Hf] e. apply Forall_app in Hf as [Hfa Hfb]. apply Forall_cons_iff in Hfb as [_ Hfb].
  rewrite <- app_assoc in Hb. apply bytes_at_app in Hb as [Ha [Hc Hb]]. fold e in Hc, Hb.
  split; [eauto|]. split; (split; [|done]).
  - apply bytes_at_app. split; [apply bytes_at_insert; [right; lia | done]|].
    simpl. split; [|done]. fold e. apply lookup_insert_eq.
  - apply bytes_at_insert; [left; lia | done].
Qed.

Lemma strsep_spec m p ct s t :
  p <> NULL -> 0 < p -> str_at m p s -> str_at m ct t ->
  let '(a, b) := span_not t s in
  match b with
  | [] => strsep m p ct = Some (p, NULL, m)
  | _ :: b => exists m', strsep m p ct = Some (p, p + Z.of_nat (length a) + 1, m') /\
      str_at m' p a /\ str_at m' (p + Z.of_nat (length a) + 1) b /\
      forall q, q <> p + Z.of_nat (length a) -> m' !! q = m !! q
  end.
Proof.
  intros Hp Hp0 Hs Ht. pose proof (span_not_app t s) as Happ. pose proof (strpbrk_spec _ _ _ _ _ Hs Ht) as Hbrk.
  destruct (span_not t s) as [a [|c b]]; destruct Happ as (-> & Ha & Hb);
    unfold strsep; (zcase; [done|]); rewrite Hbrk; simpl; [done|].
  unfold NULL in *. zcase; [lia|]. simpl.
  destruct (str_at_cut _ _ _ _ _ Hs) as (Halloc & H1 & H2). rewrite store_Some by done. simpl.
  eexists. split; [done|]. split; [done|]. split; [done|]. intros q Hq. by rewrite lookup_insert_ne.
Qed.

(** ** The properties *)

(** C28: [memmove] is correct whatever the overlap of the two areas: it
    returns, the destination ends up with the bytes the source had before the
    call, and no other byte changes. *)
Theorem memmove_correct m dest src count :
  0 <= count -> allocated m src count -> allocated m dest count ->
  exists m', memmove m dest src count = Some (dest, m') /\
    forall a, m' !! a = if in_range dest count a then m !! (src + (a - dest)) else m !! a.
Proof. intros Hc Hs Hd. destruct (memmove_spec m dest src count Hc Hs Hd) as (m' & Hr & H). eauto. Qed.

(** [memcpy], which copies a word at a time when both pointers are
    aligned, moves exactly the bytes of the source when the areas are
    disjoint, and also when the destination lies below the source. *)
Theorem memcpy_correct m dest src count :
  mem_ok m -> 0 <= count -> dest <= src \/ src + count <= dest ->
  allocated m src count -> allocated m dest count ->
  exists m', memcpy m dest src count = Some (dest, m') /\
    forall a, m' !! a = if in_range dest count a then m !! (src + (a - dest)) else m !! a.
Proof.
  intros Hm Hc Ho Hs Hd. destruct (memcpy_spec m dest src count Hm Hc Ho Hs Hd) as (m' & Hr & H). eauto.
Qed.

(** [memset] with its word loop sets exactly the [count] bytes to the low
    byte of [c]. *)
Theorem memset_correct m s c count :
  0 <= count -> allocated m s count ->
  exists m', memset m s c count = Some (s, m') /\
    forall a, m' !! a = if in_range s count a then Some (u8 c) else m !! a.
Proof. apply memset_spec. Qed.

(** [memchr_inv], with its unaligned prefix, 64-bit comparisons and
    tail, agrees with the byte-by-byte search: it returns [NULL] when the area
    holds only the byte [c], else the address of the first other byte. *)
Theorem memchr_inv_correct m start c bytes :
  mem_ok m -> 0 < start -> 0 <= bytes -> allocated m start bytes ->
  exists r, memchr_inv m start c bytes = Some r /\
    ((r = NULL /\ forall a, start <= a < start + bytes -> m !! a = Some (u8 c)) \/
     (start <= r < start + bytes /\ m !! r <> Some (u8 c) /\
      forall a, start <= a < r -> m !! a = Some (u8 c))).
Proof.
  intros Hm Hs Hb Ha. rewrite memchr_inv_spec by done.
  destruct (check_bytes_first (Z.to_nat bytes) m start (u8 c)) as (r & Hr & H); [done | by rewrite Z2Nat.id|].
  rewrite Z2Nat.id in H by done. eauto.
Qed.

(** on strings of 7-bit characters [strcmp] returns, its result is zero
    exactly for equal strings and negative exactly when the first string
    comes first in byte order. *)
Theorem strcmp_correct m p q s t :
  str_at m p s -> str_at m q t -> Forall ascii7 s -> Forall ascii7 t ->
  exists r, strcmp m p q = Some r /\ (r = 0 <-> s = t) /\ (r < 0 <-> lex_lt s t).
Proof.
  intros Hs Ht H7s H7t. exists (strcmp_l s t). split; [by apply strcmp_spec|].
  split; [apply strcmp_l_eq; [apply Hs | apply Ht] | by apply strcmp_l_lt].
Qed.

(** [strstr] returns the address of the first occurrence of the second
    string in the first one, and [NULL] when there is none. *)
Theorem strstr_first_occurrence m p q s t :
  str_at m p s -> str_at m q t ->
  exists r, strstr m p q = Some r /\
    ((exists i, r = p + Z.of_nat i /\ take (length t) (drop i s) = t /\
        forall j, (j < i)%nat -> take (length t) (drop j s) <> t) \/
     (r = NULL /\ forall j, take (length t) (drop j s) <> t)).
Proof.
  intros Hs Ht. rewrite (strstr_spec _ _ _ _ _ Hs Ht). pose proof (find_sub_first t s) as Hf.
  destruct (find_sub t s) as [i|]; eexists; (split; [done|]); [left; exists i | right]; tauto.
Qed.

(** [strlcpy] never writes past the [size] bytes of the destination,
    always terminates it, copies as much of the source as fits and returns
    the length of the source. *)
Theorem strlcpy_bounded m dest src size s :
  mem_ok m -> str_at m src s -> 0 < size ->
  let len := Z.min (Z.of_nat (length s)) (size - 1) in
  allocated m dest (len + 1) -> (dest + len < src \/ src + Z.of_nat (length s) < dest) ->
  exists m', strlcpy m dest src size = Some (Z.of_nat (length s), m') /\
    str_at m' dest (take (Z.to_nat (size - 1)) s) /\
    forall a, ~ dest <= a <= dest + len -> m' !! a = m !! a.
Proof. apply strlcpy_spec. Qed.

(** [strsep] cuts the string at the first separator: the token is what
    precedes it, [*s] then points to what follows it, and only the separator
    byte is overwritten; without a separator the whole string is the last
    token and [*s] becomes [NULL]. *)
Theorem strsep_tokens m p ct s t :
  0 < p -> str_at m p s -> str_at m ct t ->
  let '(a, b) := span_not t s in
  s = a ++ b /\ Forall (fun x => x ∉ t) a /\
  match b with
  | [] => strsep m p ct = Some (p, NULL, m)
  | c :: b => c ∈ t /\
      exists m', strsep m p ct = Some (p, p + Z.of_nat (length a) + 1, m') /\
      str_at m' p a /\ str_at m' (p + Z.of_nat (length a) + 1) b /\
      forall q, q <> p + Z.of_nat (length a) -> m' !! q = m !! q
  end.
Proof.
  intros Hp Hs Ht. pose proof (strsep_spec m p ct s t) as H. pose proof (span_not_app t s) as Happ.
  destruct (span_not t s) as [a [|c b]]; destruct Happ as (-> & Ha & Hb); (split; [done|]; split; [done|]).
  - apply H; unfold NULL; auto; lia.
  - split; [by apply Hb|]. apply H; unfold NULL; auto; lia.
Qed.

(** ** Witnesses *)

Definition mem_of (p : Z) (l : list Z) : mem :=
  list_to_map (zip (seqZ p (Z.of_nat (length l))) l).

(** "bootcmd=run" at 100, "=" at 120 and a 16 byte buffer at 128. *)
Definition ex_cmd : list Z := [98; 111; 111; 116; 99; 109; 100; 61; 114; 117; 110].
Definition ex_mem : mem :=
  mem_of 100 (ex_cmd ++ [0]) ∪ mem_of 120 [61; 0] ∪ mem_of 128 (replicate 32 7).

Lemma ex_cmd_at : str_at ex_mem 100 ex_cmd.
Proof. split; [vm_compute; intuition done | repeat constructor]. Defined.
Lemma ex_sep_at : str_at ex_mem 120 [61].
Proof. split; [vm_compute; intuition done | repeat constructor]. Defined.
Lemma ex_mem_ok : mem_ok ex_mem.
Proof.
  change (map_Forall (fun _ x => 0 <= x < 256) ex_mem).
  apply (bool_decide_unpack _). vm_compute. exact I.
Defined.
Lemma ex_buf n : 0 <= n <= 32 -> allocated ex_mem 128 n.
Proof.
  intros Hn a Ha. assert (Hb : bytes_at ex_mem 128 (replicate 32 7)) by (vm_compute; intuition done).
  exists 7. replace a with (128 + Z.of_nat (Z.to_nat (a - 128))) by lia.
  eapply bytes_at_lookup; [exact Hb|]. apply lookup_replicate_2. lia.
Defined.
Lemma ex_src n : 0 <= n <= 12 -> allocated ex_mem 100 n.
Proof. intros Hn a Ha. apply (str_at_allocated _ _ _ ex_cmd_at). simpl. lia. Defined.

Lemma memmove_correct_witness : exists m', memmove ex_mem 102 100 6 = Some (102, m').
Proof.
  destruct (memmove_correct ex_mem 102 100 6) as (m' & H & _); [lia | apply ex_src; lia | | eauto].
  intros a Ha. apply (ex_src 12); lia.
Defined.
Lemma memcpy_correct_witness : exists m', memcpy ex_mem 128 100 11 = Some (128, m').
Proof.
  destruct (memcpy_correct ex_mem 128 100 11) as (m' & H & _);
    [apply ex_mem_ok | lia | lia | apply ex_src; lia | apply ex_buf; lia | eauto].
Defined.
Lemma memset_correct_witness : exists m', memset ex_mem 128 0 13 = Some (128, m').
Proof. destruct (memset_correct ex_mem 128 0 13) as (m' & H & _); [lia | apply ex_buf; lia | eauto]. Defined.
Lemma memchr_inv_correct_witness : exists r, memchr_inv ex_mem 129 7 30 = Some r.
Proof.
  destruct (memchr_inv_correct ex_mem 129 7 30) as (r & H & _);
    [apply ex_mem_ok | lia | lia | intros a Ha; apply (ex_buf 32); lia | eauto].
Defined.
Lemma strcmp_correct_witness : exists r, strcmp ex_mem 100 120 = Some r.
Proof.
  destruct (strcmp_correct ex_mem 100 120 ex_cmd [61]) as (r & H & _);
    [apply ex_cmd_at | apply ex_sep_at | repeat constructor | repeat constructor | eauto].
Defined.
Lemma strstr_first_occurrence_witness : exists r, strstr ex_mem 100 120 = Some r.
Proof.
  destruct (strstr_first_occurrence ex_mem 100 120 ex_cmd [61]) as (r & H & _);
    [apply ex_cmd_at | apply ex_sep_at | eauto].
Defined.
Lemma strlcpy_bounded_witness : exists m', strlcpy ex_mem 128 100 8 = Some (11, m').
Proof.
  destruct (strlcpy_bounded ex_mem 128 100 8 ex_cmd) as (m' & H & _);
    [apply ex_mem_ok | apply ex_cmd_at | lia | apply ex_buf; simpl; lia | simpl; lia | eauto].
Defined.
Lemma strsep_tokens_witness : exists m', strsep ex_mem 100 120 = Some (100, 108, m').
Proof.
  pose proof (strsep_tokens ex_mem 100 120 ex_cmd [61] ltac:(lia) ex_cmd_at ex_sep_at) as H.
  vm_compute in H. destruct H as (_ & _ & _ & m' & H & _). exists m'. exact H.
Defined.

(** The comparison keeps the difference of two characters in a signed char:
    on characters above 127 it is not an order. *)
Theorem strcmp_not_transitive :
  let m := mem_of 100 [1; 0; 100; 0; 200; 0] in
  strcmp m 100 102 = Some (-99) /\ strcmp m 102 104 = Some (-100) /\ strcmp m 100 104 = Some 57.
Proof. vm_compute. done. Qed.
