(* ===== verification/Qsort.v ===== *)
(** * Qsort: the shell sort of [lib/qsort.c]

    The array is a list of elements of [width] bytes; [wgap], [i], [j] and
    the converted [nel] are byte offsets, as in the code, and the element at
    offset [j] is the one with index [j / width].  The byte loop that
    exchanges two elements is the exchange of two list entries.  [comp] is
    the caller's comparison function. *)
From S2P Require Import Prelude.
From Stdlib Require Import Sorted Permutation.

Section qsort.
Context {A : Type} (comp : A -> A -> Z) (width : Z).

(** [do { wgap = 3 * wgap + 1; } while (wgap < (nel-1)/3);] *)
Fixpoint first_gap (fuel : nat) (nel wgap : Z) : option Z :=
  match fuel with
  | O => None
  | S fuel =>
      let wgap := 3 * wgap + 1 in
      if wgap <? (nel - 1) / 3 then first_gap fuel nel wgap else Some wgap
  end.

Definition elem (l : list A) (off : Z) : option A := aget l (off / width).

Definition swap (l : list A) (a b : Z) : option (list A) :=
  x ← elem l a;
  y ← elem l b;
  l1 ← aset l (a / width) y;
  aset l1 (b / width) x.

(** The innermost loop, entered with [j = i]. *)
Fixpoint sift (fuel : nat) (l : list A) (wgap j : Z) : option (list A) :=
  match fuel with
  | O => None
  | S fuel =>
      let j := j - wgap in
      a ← elem l j;
      b ← elem l (j + wgap);
      if comp a b <=? 0 then Some l
      else
        l ← swap l j (j + wgap);
        if wgap <=? j then sift fuel l wgap j else Some l
  end.

(** [do { ... i += width; } while (i < nel);] *)
Fixpoint pass (fuel : nat) (l : list A) (wgap i nel : Z) : option (list A) :=
  match fuel with
  | O => None
  | S fuel =>
      l ← sift (S (length l)) l wgap i;
      let i := i + width in
      if i <? nel then pass fuel l wgap i nel else Some l
  end.

(** [do { ... wgap = (wgap - width)/3; } while (wgap);] *)
Fixpoint gaps (fuel : nat) (l : list A) (wgap nel : Z) : option (list A) :=
  match fuel with
  | O => None
  | S fuel =>
      l ← pass (S (length l)) l wgap wgap nel;
      let wgap := (wgap - width) / 3 in
      if negb (wgap =? 0) then gaps fuel l wgap nel else Some l
  end.

Definition qsort (l : list A) (nel : Z) : option (list A) :=
  if (1 <? nel) && (0 <? width) then
    wgap ← first_gap (S (Z.to_nat nel)) nel 0;
    gaps (S (Z.to_nat nel)) l (wgap * width) (nel * width)
  else Some l.

(** ** Exchange of elements *)

Hypothesis width_pos : 0 < width.

Lemma elem_at l off i : off = width * Z.of_nat i -> elem l off = l !! i.
Proof.
  intros ->. unfold elem. rewrite Z.mul_comm, Z.div_mul, aget_lookup by lia. by rewrite Nat2Z.id.
Qed.

Lemma swap_split l1 a l2 b l3 oa ob :
  oa = width * Z.of_nat (length l1) -> ob = width * Z.of_nat (length (l1 ++ a :: l2)) ->
  swap (l1 ++ a :: l2 ++ b :: l3) oa ob = Some (l1 ++ b :: l2 ++ a :: l3).
Proof.
  intros Ha Hb. unfold swap. rewrite (elem_at _ oa (length l1)), (elem_at _ ob (length (l1 ++ a :: l2))) by done.
  rewrite (list_lookup_middle l1 _ a (length l1)) by done.
  assert (Hget : (l1 ++ a :: l2 ++ b :: l3) !! length (l1 ++ a :: l2) = Some b).
  { replace (l1 ++ a :: l2 ++ b :: l3) with ((l1 ++ a :: l2) ++ b :: l3) by (by rewrite <- app_assoc).
    by apply list_lookup_middle. }
  rewrite Hget. simpl.
  rewrite aset_mid by (subst oa; rewrite Z.mul_comm, Z.div_mul by lia; done). simpl.
  replace (l1 ++ b :: l2 ++ b :: l3) with ((l1 ++ b :: l2) ++ b :: l3) by (by rewrite <- app_assoc).
  rewrite aset_mid; [by rewrite <- app_assoc|].
  subst ob. rewrite Z.mul_comm, Z.div_mul by lia. len.
Qed.

(** Two positions of a list. *)
Lemma split_two (l : list A) i j a b :
  (i < j)%nat -> l !! i = Some a -> l !! j = Some b ->
  exists l1 l2 l3, l = l1 ++ a :: l2 ++ b :: l3 /\ length l1 = i /\ length (l1 ++ a :: l2) = j.
Proof.
  intros Hij Ha Hb. exists (take i l), (take (j - S i) (drop (S i) l)), (drop (S j) l).
  pose proof (lookup_lt_Some _ _ _ Hb) as Hl.
  split.
  - rewrite <- (take_drop_middle l i a Ha) at 1. do 2 f_equal.
    assert (Hm : drop (S i) l !! (j - S i)%nat = Some b).
    { rewrite lookup_drop. rewrite <- Hb. f_equal. lia. }
    apply take_drop_middle in Hm. rewrite drop_drop in Hm.
    by replace (S i + S (j - S i))%nat with (S j) in Hm by lia.
  - rewrite length_app. cbn [length]. rewrite !length_take, length_drop. lia.
Qed.

Lemma perm_swap_two (l1 : list A) a l2 b l3 :
  Permutation (l1 ++ a :: l2 ++ b :: l3) (l1 ++ b :: l2 ++ a :: l3).
Proof.
  apply Permutation_app_head. rewrite <- !Permutation_middle. apply perm_swap.
Qed.

(** The innermost loop only exchanges elements and stays in the array. *)
Lemma sift_perm fuel l g j i :
  g = width * Z.of_nat i -> (0 < i)%nat -> forall n, j = width * Z.of_nat n ->
  (i <= n < length l)%nat -> (n < fuel)%nat ->
  exists l', sift fuel l g j = Some l' /\ Permutation l l'.
Proof.
  intros Hg Hi. revert l j. induction fuel as [|fuel IH]; intros l j n Hj Hn Hf; [lia|]. cbn [sift].
  destruct (lookup_lt_is_Some_2 l (n - i)) as [a Ha]; [lia|].
  destruct (lookup_lt_is_Some_2 l n) as [b Hb]; [lia|].
  rewrite (elem_at l (j - g) (n - i)), (elem_at l (j - g + g) n), Ha, Hb by nia.
  cbn [mbind option_bind]. zcase; [eauto|].
  destruct (split_two l (n - i) n a b) as (l1 & l2 & l3 & -> & Hl1 & Hl2); [lia | done | done |].
  rewrite swap_split by (rewrite ?Hl1, ?Hl2; nia). cbn [mbind option_bind].
  zcase; [|eauto using perm_swap_two].
  destruct (IH (l1 ++ b :: l2 ++ a :: l3) (j - g) (n - i)%nat) as (l' & -> & Hp).
  - nia.
  - split; [nia | len].
  - lia.
  - exists l'. split; [done|]. etransitivity; [apply perm_swap_two | done].
Qed.

Lemma pass_perm fuel l g i nel n o :
  g = width * Z.of_nat i -> (0 < i)%nat -> nel = width * Z.of_nat (length l) ->
  o = width * Z.of_nat n -> (i <= n < length l)%nat -> (length l - n <= fuel)%nat ->
  exists l', pass fuel l g o nel = Some l' /\ Permutation l l'.
Proof.
  intros Hg Hi. revert l n o. induction fuel as [|fuel IH]; intros l n o Hnel Ho Hn Hf; [lia|].
  cbn [pass]. destruct (sift_perm (S (length l)) l g o i Hg Hi n Ho) as (l1 & -> & Hp); [done | lia |].
  cbn [mbind option_bind]. pose proof (Permutation_length Hp) as Hlen.
  zcase; [|eauto].
  destruct (IH l1 (S n) (o + width)) as (l' & -> & Hp').
  - by rewrite <- Hlen.
  - lia.
  - rewrite <- Hlen. nia.
  - lia.
  - exists l'. split; [done|]. by transitivity l1.
Qed.

(** ** The last pass, with a gap of one element, sorts *)

Definition le_comp (x y : A) : Prop := comp x y <= 0.

(** [comp] is a total preorder. *)
Hypothesis comp_total : forall x y, 0 < comp x y -> comp y x <= 0.
Hypothesis comp_trans : forall x y z, comp x y <= 0 -> comp y z <= 0 -> comp x z <= 0.

Lemma ssorted_app l1 l2 :
  StronglySorted le_comp (l1 ++ l2) <->
  StronglySorted le_comp l1 /\ StronglySorted le_comp l2 /\
  forall x y, In x l1 -> In y l2 -> le_comp x y.
Proof.
  induction l1 as [|a l1 IH]; simpl.
  { split; [intros H; split_and!; [constructor | done | done] | tauto]. }
  split.
  - intros H. apply StronglySorted_inv in H as [H Ha]. apply IH in H as (H1 & H2 & H3).
    apply Forall_app in Ha as [Ha1 Ha2]. split_and!; [by constructor | done|].
    intros x y [-> |Hx] Hy; [by eapply (proj1 (List.Forall_forall _ _) Ha2)|auto].
  - intros (H1 & H2 & H3). apply StronglySorted_inv in H1 as [H1 Ha]. constructor.
    + apply IH. split_and!; auto.
    + apply Forall_app. split; [done|]. apply List.Forall_forall. auto.
Qed.

Lemma ssorted_insert pre x mid :
  StronglySorted le_comp (pre ++ mid) -> Forall (le_comp x) mid ->
  (forall y, In y pre -> le_comp y x) -> StronglySorted le_comp (pre ++ x :: mid).
Proof.
  rewrite !ssorted_app. intros (H1 & H2 & H3) Hx Hpre. split; [done|].
  split; [by constructor|]. intros y z Hy [-> |Hz]; auto.
Qed.

Lemma sift_insert fuel pre x mid rest :
  pre <> [] -> StronglySorted le_comp (pre ++ mid) -> Forall (le_comp x) mid ->
  (length pre < fuel)%nat ->
  exists out, sift fuel (pre ++ x :: mid ++ rest) width (width * Z.of_nat (length pre)) =
    Some (out ++ rest) /\ Permutation (pre ++ x :: mid) out /\ StronglySorted le_comp out.
Proof.
  revert pre mid. induction fuel as [|fuel IH]; intros pre mid Hne Hs Hx Hf; [lia|].
  destruct pre as [|y pre _] using rev_ind; [done|]. clear Hne. cbn [sift].
  rewrite length_app in *. cbn [length] in *.
  rewrite (elem_at _ (width * Z.of_nat (length pre + 1) - width) (length pre)) by lia.
  rewrite (elem_at _ (_ - width + width) (length (pre ++ [y]))) by (rewrite length_app; simpl; lia).
  rewrite <- !app_assoc. cbn [app].
  rewrite (list_lookup_middle pre _ y (length pre)) by done.
  assert (Hget : (pre ++ y :: x :: mid ++ rest) !! length (pre ++ [y]) = Some x).
  { rewrite (app_snoc pre y (x :: mid ++ rest)). by apply list_lookup_middle. }
  rewrite Hget. cbn [mbind option_bind]. rewrite <- app_assoc in Hs. cbn [app] in Hs.
  zcase.
  - exists (pre ++ y :: x :: mid). split; [by rewrite <- app_assoc|]. split; [done|].
    rewrite (app_snoc pre y (x :: mid)). apply ssorted_insert; [by rewrite <- app_assoc | done|].
    intros z [Hz | [-> |[]]]%in_app_or; [|done]. apply comp_trans with y; [|done].
    apply ssorted_app in Hs as (_ & _ & Hs). apply Hs; [done | by left].
  - assert (Hswap : swap (pre ++ y :: x :: mid ++ rest) (width * Z.of_nat (length pre + 1) - width)
      (width * Z.of_nat (length pre + 1) - width + width) = Some (pre ++ x :: y :: mid ++ rest)).
    { apply (swap_split pre y [] x (mid ++ rest)); len. }
    rewrite Hswap. cbn [mbind option_bind]. apply comp_total in H.
    assert (Hxy : Forall (le_comp x) (y :: mid)) by (by constructor).
    destruct pre as [|z pre].
    + zcase; [simpl in *; lia|]. exists (x :: y :: mid). split; [done|]. split; [apply perm_swap|].
      by constructor.
    + zcase; [|simpl length in *; lia].
      destruct (IH (z :: pre) (y :: mid)) as (out & Hrun & Hp & Hout); auto; [len|].
      replace (width * Z.of_nat (length (z :: pre) + 1) - width)
        with (width * Z.of_nat (length (z :: pre))) by lia.
      cbn [app] in *. rewrite Hrun. exists out. split; [done|]. split; [|done].
      etransitivity; [|exact Hp]. apply (Permutation_app_head (z :: pre)), perm_swap.
Qed.

Lemma pass_sorts fuel pre rest nel :
  pre <> [] -> rest <> [] -> StronglySorted le_comp pre ->
  nel = width * Z.of_nat (length (pre ++ rest)) -> (length rest <= fuel)%nat ->
  exists out, pass fuel (pre ++ rest) width (width * Z.of_nat (length pre)) nel = Some out /\
    Permutation (pre ++ rest) out /\ StronglySorted le_comp out.
Proof.
  intros Hpre Hrest. revert pre rest Hpre Hrest. induction fuel as [|fuel IH]; intros pre [|x rest] Hpre Hrest Hs Hn Hf;
    try done; [simpl in Hf; lia|]. cbn [pass].
  destruct (sift_insert (S (length (pre ++ x :: rest))) pre x [] rest) as (out & Hrun & Hp & Hout);
    try rewrite app_nil_r; try done; [len|].
  cbn [app] in Hrun. rewrite Hrun. cbn [mbind option_bind].
  pose proof (Permutation_length Hp) as Hlen. rewrite length_app in Hlen. simpl in Hlen.
  assert (Hall : Permutation (pre ++ x :: rest) (out ++ rest)).
  { rewrite (app_snoc pre x rest). by apply Permutation_app_tail. }
  destruct rest as [|y rest].
  - rewrite app_nil_r in *. zcase; [exfalso; revert H; subst nel; len|]. eauto.
  - zcase; [|exfalso; revert H; subst nel; rewrite length_app; simpl; nia].
    replace (width * Z.of_nat (length pre) + width) with (width * Z.of_nat (length out)) by lia.
    destruct (IH out (y :: rest)) as (out' & -> & Hp' & Hs'); auto.
    + intros ->. simpl in Hlen. lia.
    + subst nel. rewrite !length_app. simpl. f_equal. lia.
    + simpl in *. lia.
    + exists out'. split; [done|]. split; [by etransitivity | done].
Qed.
(** ** The gap sequence 1, 4, 13, ... *)

Inductive knuth : Z -> Prop :=
  | knuth_1 : knuth 1
  | knuth_next g : knuth g -> knuth (3 * g + 1).

Lemma knuth_pos g : knuth g -> 1 <= g.
Proof. induction 1; lia. Qed.

Lemma first_gap_spec fuel nel g :
  (g = 0 \/ knuth g) -> g < (nel - 1) / 3 \/ g = 0 -> 1 < nel -> (Z.to_nat (nel - g) < fuel)%nat ->
  exists g', first_gap fuel nel g = Some g' /\ knuth g' /\ g' < nel.
Proof.
  revert g. induction fuel as [|fuel IH]; intros g Hg Hlt Hn Hf; [lia|]. cbn [first_gap].
  assert (Hk : knuth (3 * g + 1)) by (destruct Hg as [-> |]; constructor; done).
  pose proof (knuth_pos _ Hk). pose proof (Z.mul_div_le (nel - 1) 3).
  zcase; [apply IH; [by right | by left | done | lia]|].
  exists (3 * g + 1). split; [done|]. split; [done | lia].
Qed.

Lemma gaps_sorts fuel l g :
  knuth g -> g < Z.of_nat (length l) -> (Z.to_nat g <= fuel)%nat ->
  exists l', gaps fuel l (g * width) (Z.of_nat (length l) * width) = Some l' /\
    Permutation l l' /\ StronglySorted le_comp l'.
Proof.
  intros Hk. pose proof (knuth_pos _ Hk). revert fuel l. induction Hk as [|g Hk IH]; intros fuel l Hl Hf;
    (destruct fuel as [|fuel]; [lia|]); cbn [gaps].
  - destruct l as [|x [|y l]]; [simpl in Hl; lia.. |].
    destruct (pass_sorts (S (length (x :: y :: l))) [x] (y :: l) (Z.of_nat (length (x :: y :: l)) * width))
      as (out & Hrun & Hp & Hs); try done; [by repeat constructor | simpl app; lia | simpl; lia|].
    rewrite Z.mul_1_l. replace (width * Z.of_nat (length [x])) with width in Hrun by (simpl; lia).
    cbn [app] in Hrun. rewrite Hrun. cbn [mbind option_bind].
    rewrite Z.sub_diag. simpl. eauto.
  - specialize (IH (knuth_pos _ Hk)). pose proof (knuth_pos _ Hk).
    destruct (pass_perm (S (length l)) l ((3 * g + 1) * width) (Z.to_nat (3 * g + 1))
      (Z.of_nat (length l) * width) (Z.to_nat (3 * g + 1)) ((3 * g + 1) * width)) as (l1 & -> & Hp); try lia.
    cbn [mbind option_bind]. pose proof (Permutation_length Hp) as Hlen.
    replace ((3 * g + 1) * width - width) with ((g * width) * 3) by lia. rewrite Z.div_mul by lia.
    zcase; [nia|]. cbn [negb]. rewrite Hlen in Hl |- *.
    destruct (IH fuel l1) as (l' & -> & Hp' & Hs); [lia | lia |].
    exists l'. split; [done|]. split; [by etransitivity | done].
Qed.

Lemma qsort_spec l :
  exists l', qsort l (Z.of_nat (length l)) = Some l' /\ Permutation l l' /\ StronglySorted le_comp l'.
Proof.
  unfold qsort. rewrite (proj2 (Z.ltb_lt 0 width)), andb_true_r by done. zcase.
  - destruct (first_gap_spec (S (Z.to_nat (Z.of_nat (length l)))) (Z.of_nat (length l)) 0)
      as (g & -> & Hk & Hg); auto; [lia|].
    cbn [mbind option_bind]. apply gaps_sorts; auto. pose proof (knuth_pos _ Hk). lia.
  - exists l. split; [done|]. split; [done|]. destruct l as [|x [|y l]]; [constructor | by repeat constructor | simpl in *; lia].
Qed.
End qsort.

(** ** A comparison that is a preorder on the elements of the array only

    The result depends only on the comparisons of elements of the array. *)

Section restrict.
Context {A : Type} (width : Z) (P : A -> Prop).

Lemma elem_Forall (l : list A) off x : Forall P l -> elem width l off = Some x -> P x.
Proof.
  intros Hl Hx. unfold elem in Hx. pose proof (aget_Some_range _ _ _ Hx).
  rewrite aget_lookup in Hx by lia. by eapply Forall_lookup_1.
Qed.

Lemma swap_Forall (l l' : list A) a b : Forall P l -> swap width l a b = Some l' -> Forall P l'.
Proof.
  intros Hl. unfold swap. destruct (elem width l a) as [x|] eqn:Ex; [|done].
  destruct (elem width l b) as [y|] eqn:Ey; [|done]. cbn [mbind option_bind].
  destruct (aset l (a / width) y) as [l1|] eqn:E1; [|done]. cbn [mbind option_bind]. intros E2.
  apply aset_inv in E1 as [_ ->], E2 as [_ ->].
  eauto using Forall_insert, elem_Forall.
Qed.

Context (comp comp' : A -> A -> Z).
Hypothesis comp_ext : forall x y, P x -> P y -> comp x y = comp' x y.

Lemma sift_ext fuel l g j : Forall P l ->
  sift comp width fuel l g j = sift comp' width fuel l g j /\
  forall l', sift comp width fuel l g j = Some l' -> Forall P l'.
Proof.
  revert l j. induction fuel as [|fuel IH]; intros l j Hl; [done|]. cbn [sift].
  destruct (elem width l (j - g)) as [a|] eqn:Ea; [|done].
  destruct (elem width l (j - g + g)) as [b|] eqn:Eb; [|done]. cbn [mbind option_bind].
  rewrite <- (comp_ext a b) by eauto using elem_Forall. zcase; [by split; [|intros ? [= <-]]|].
  destruct (swap width l (j - g) (j - g + g)) as [l1|] eqn:Es; [|done]. cbn [mbind option_bind].
  pose proof (swap_Forall _ _ _ _ Hl Es). zcase; [by apply IH | by split; [|intros ? [= <-]]].
Qed.

Lemma pass_ext fuel l g o nel : Forall P l ->
  pass comp width fuel l g o nel = pass comp' width fuel l g o nel /\
  forall l', pass comp width fuel l g o nel = Some l' -> Forall P l'.
Proof.
  revert l o. induction fuel as [|fuel IH]; intros l o Hl; [done|]. cbn [pass].
  destruct (sift_ext (S (length l)) l g o Hl) as [<- Hs].
  destruct (sift comp width (S (length l)) l g o) as [l1|]; [|done]. cbn [mbind option_bind].
  specialize (Hs l1 eq_refl). zcase; [by apply IH | by split; [|intros ? [= <-]]].
Qed.

Lemma gaps_ext fuel l g nel : Forall P l ->
  gaps comp width fuel l g nel = gaps comp' width fuel l g nel.
Proof.
  revert l g. induction fuel as [|fuel IH]; intros l g Hl; [done|]. cbn [gaps].
  destruct (pass_ext (S (length l)) l g g nel Hl) as [<- Hs].
  destruct (pass comp width (S (length l)) l g g nel) as [l1|]; [|done]. cbn [mbind option_bind].
  specialize (Hs l1 eq_refl). zcase; [done | by apply IH].
Qed.

Lemma qsort_ext l nel : Forall P l -> qsort comp width l nel = qsort comp' width l nel.
Proof.
  intros Hl. unfold qsort. destruct (_ && _); [|done]. destruct (first_gap _ _ _); [|done].
  by apply gaps_ext.
Qed.
End restrict.

(** [qsort_spec] for a comparison that is a total preorder on [P]. *)
Lemma qsort_spec_on {A} (P : A -> Prop) `{!forall x, Decision (P x)} (comp : A -> A -> Z) width l :
  0 < width -> Forall P l ->
  (forall x y, P x -> P y -> 0 < comp x y -> comp y x <= 0) ->
  (forall x y z, P x -> P y -> P z -> comp x y <= 0 -> comp y z <= 0 -> comp x z <= 0) ->
  exists l', qsort comp width l (Z.of_nat (length l)) = Some l' /\ Permutation l l' /\
    StronglySorted (fun x y => comp x y <= 0) l'.
Proof.
  intros Hw Hl Ht Htr.
  set (comp' x y := if decide (P x) then if decide (P y) then comp x y else -1
                    else if decide (P y) then 1 else 0).
  rewrite (qsort_ext width P comp comp') by (done || (intros x y Hx Hy; unfold comp'; by rewrite !decide_True)).
  destruct (qsort_spec comp' width Hw) with (l := l) as (l' & Hq & Hp & Hs).
  - intros x y. unfold comp'. repeat case_decide; try lia. by apply Ht.
  - intros x y z. unfold comp'. repeat case_decide; try lia. by apply Htr.
  - exists l'. split; [done|]. split; [done|]. assert (Hl' : Forall P l') by by rewrite <- Hp.
    clear Hq Hp. induction Hs as [|x l' Hs IH Hx]; [constructor|]. inversion Hl'; subst.
    constructor; [by apply IH|]. rewrite Forall_forall in *. intros y Hy. specialize (Hx y Hy).
    unfold le_comp, comp' in Hx. rewrite !decide_True in Hx by auto. done.
Qed.

(** C29: for a comparison function that is a total preorder, [qsort] returns,
    never reads or writes outside the array, and leaves a sorted permutation
    of its elements: every element compares at most zero with all that follow. *)
Theorem qsort_sorts {A} (comp : A -> A -> Z) (width : Z) (l : list A) :
  0 < width ->
  (forall x y, 0 < comp x y -> comp y x <= 0) ->
  (forall x y z, comp x y <= 0 -> comp y z <= 0 -> comp x z <= 0) ->
  exists l', qsort comp width l (Z.of_nat (length l)) = Some l' /\
    Permutation l l' /\ StronglySorted (fun x y => comp x y <= 0) l'.
Proof. intros Hw Ht Htr. by apply qsort_spec. Qed.

Lemma qsort_sorts_witness :
  exists l', qsort Z.sub 4 [5; 3; 9; 1; 1; 7] 6 = Some l' /\ Permutation [5; 3; 9; 1; 1; 7] l'.
Proof.
  destruct (qsort_sorts Z.sub 4 [5; 3; 9; 1; 1; 7]) as (l' & H & Hp & _); [lia | lia | lia |].
  exists l'. split; [exact H | exact Hp].
Defined.
