(* ===== verification/Hashtable.v ===== *)
(** * Hashtable: the environment's hash table ([lib/hashtable.c])

    An open-addressing table with double hashing.  Slot 0 is never used;
    [used] is 0 for a slot that was never filled, -1 for a deleted entry and
    else the first hash value of the key it holds.  C strings are modelled by
    their contents (the bytes before the NUL), a null or dangling pointer by
    [None]; dereferencing it is undefined behaviour ([None] as a result).

    The functions of other components that the table calls are the operations
    of the class [EnvHooks]: the allocator and the two attribute lookups made
    for a new entry ([common/env_callback.c], [common/env_flags.c]). *)
From stdpp Require Import gmap.
From Stdlib Require Import Zdivisibility.
From S2P Require Import Prelude CString.

Abbreviation cstr := (list Z).

Inductive env_op := env_op_create | env_op_delete | env_op_overwrite.
Inductive ACTION := FIND | ENTER.

Definition EPERM : Z := 1.
Definition ESRCH : Z := 3.
Definition ENOMEM : Z := 12.
Definition EINVAL : Z := 22.



(** The callback of an entry, called with the variable's name, its new value,
    the operation and the flags; only the verdict is modelled, not the effect
    on the device. *)
Abbreviation callback_t := (cstr -> option cstr -> env_op -> Z -> Z).

Record ENTRY := mk_entry {
  e_key : option cstr; e_data : option cstr; e_callback : option callback_t; e_flags : Z }.

Record _ENTRY := mk_slot { used : Z; entry : ENTRY }.

Abbreviation change_t := (ENTRY -> option cstr -> env_op -> Z -> Z).

Record hsearch_data := mk_htab {
  table : option (list _ENTRY); hsize : Z; filled : Z; change_ok : option change_t }.

(** What a call returns: the value, [*retval] as the index of the entry it
    points to ([None] for a null pointer), and the value [errno] was set to. *)
Record hresult := mk_res { ret : Z; rv : option Z; errno : option Z }.

Class EnvHooks := {
  dup_string : cstr -> option cstr;
  malloc_ok : Z -> bool;
  env_callback_init : hsearch_data -> ENTRY -> ENTRY;
  env_flags_init : hsearch_data -> ENTRY -> ENTRY
}.

(** What the table relies on. *)
Class EnvHooksOk (H : EnvHooks) := {
  dup_string_copies s s' : dup_string s = Some s' -> s' = s;
  callback_init_key h e : e_key (env_callback_init h e) = e_key e;
  callback_init_data h e : e_data (env_callback_init h e) = e_data e;
  flags_init_key h e : e_key (env_flags_init h e) = e_key e;
  flags_init_data h e : e_data (env_flags_init h e) = e_data e
}.

(** ** Creation *)

(** [while (div * div < number && number % div != 0) div += 2;] *)
Fixpoint isprime_loop (fuel : nat) (number div : Z) : option Z :=
  match fuel with
  | O => None
  | S fuel =>
      if (u32 (div * div) <? number) && negb (number mod div =? 0)
      then isprime_loop fuel number (div + 2) else Some div
  end.

Definition isprime (number : Z) : option bool :=
  div ← isprime_loop (S (Z.to_nat number)) number 3;
  Some (negb (number mod div =? 0)).

(** [while (!isprime(nel)) nel += 2;] *)
Fixpoint next_prime (fuel : nat) (nel : Z) : option Z :=
  match fuel with
  | O => None
  | S fuel => b ← isprime nel; if (b : bool) then Some nel else next_prime fuel (nel + 2)
  end.

Definition empty_entry : ENTRY := mk_entry None None None 0.
Definition empty_slot : _ENTRY := mk_slot 0 empty_entry.

Section operations.
Context {H : EnvHooks}.

(** [htab] is the argument, [None] for a null pointer.  512 steps of the prime
    search go past every gap between primes of this size. *)
Definition hcreate_r (nel : Z) (htab : option hsearch_data) : option (Z * option hsearch_data) :=
  match htab with
  | None => Some (0, htab)
  | Some h =>
      match table h with
      | Some _ => Some (0, htab)
      | None =>
          size ← next_prime 512 (Z.lor nel 1);
          if malloc_ok (size + 1) then
            Some (1, Some (mk_htab (Some (replicate (Z.to_nat (size + 1)) empty_slot)) size 0 (change_ok h)))
          else Some (0, Some (mk_htab None size 0 (change_ok h)))
      end
  end.

(** All entries and the table are released. *)
Definition hdestroy_r (htab : option hsearch_data) : option hsearch_data :=
  match htab with
  | None => None
  | Some h => Some (mk_htab None (hsize h) (filled h) (change_ok h))
  end.

(** ** Search and insertion *)

Definition set_table (h : hsearch_data) (t : list _ENTRY) : hsearch_data :=
  mk_htab (Some t) (hsize h) (filled h) (change_ok h).

(** [hval = len; while (count-- > 0) { hval <<= 4; hval += key[count]; }] *)
Definition hash_raw (key : cstr) : Z :=
  fold_left (fun hval c => u32 (u32 (Z.shiftl hval 4) + c)) (rev key) (u32 (Z.of_nat (length key))).

Definition first_hash (size : Z) (key : cstr) : Z :=
  let hval := hash_raw key mod size in
  if hval =? 0 then hval + 1 else hval.

Definition second_hash (size hval : Z) : Z := 1 + hval mod (size - 2).

(** A rejecting verdict of an optional check. *)
Definition rejects (verdict : option Z) : bool :=
  match verdict with Some v => negb (v =? 0) | None => false end.

Definition set_data (s : _ENTRY) (d : option cstr) : _ENTRY :=
  mk_slot (used s) (mk_entry (e_key (entry s)) d (e_callback (entry s)) (e_flags (entry s))).

(** The body of [_compare_and_overwrite_entry] once the entry matches. *)
Definition overwrite_entry (key : cstr) (data : option cstr) (action : ACTION)
    (h : hsearch_data) (flag idx : Z) : option (hresult * hsearch_data) :=
  tab ← table h;
  s ← aget tab idx;
  match action, data with
  | ENTER, Some d =>
      if rejects (option_map (fun f => f (entry s) data env_op_overwrite flag) (change_ok h))
      then Some (mk_res 0 None (Some EPERM), h)
      else if rejects (option_map (fun f => f key data env_op_overwrite flag) (e_callback (entry s)))
      then Some (mk_res 0 None (Some EINVAL), h)
      else
        tab' ← aset tab idx (set_data s (dup_string d));
        match dup_string d with
        | None => Some (mk_res 0 None (Some ENOMEM), set_table h tab')
        | Some _ => Some (mk_res idx (Some idx) None, set_table h tab')
        end
  | _, _ => Some (mk_res idx (Some idx) None, h)
  end.

(** [Some None] is the return value -1, "keep searching". *)
Definition _compare_and_overwrite_entry (key : cstr) (data : option cstr) (action : ACTION)
    (h : hsearch_data) (flag hval idx : Z) : option (option (hresult * hsearch_data)) :=
  tab ← table h;
  s ← aget tab idx;
  if u32 (used s) =? hval then
    k ← e_key (entry s);
    if strcmp_l key k =? 0 then
      out ← overwrite_entry key data action h flag idx; Some (Some out)
    else Some None
  else Some None.

Definition next_idx (size hval2 idx : Z) : Z :=
  if idx <=? hval2 then size + idx - hval2 else idx - hval2.

(** The [do ... while (htab->table[idx].used)] loop: the result of a matching
    entry, or the index at which the loop stopped. *)
Fixpoint probe (fuel : nat) (key : cstr) (data : option cstr) (action : ACTION)
    (h : hsearch_data) (flag hval hval2 idx : Z) : option ((hresult * hsearch_data) + Z) :=
  match fuel with
  | O => None
  | S fuel =>
      let idx := next_idx (hsize h) hval2 idx in
      if idx =? hval then Some (inr idx)
      else
        r ← _compare_and_overwrite_entry key data action h flag hval idx;
        match r with
        | Some out => Some (inl out)
        | None =>
            tab ← table h;
            s ← aget tab idx;
            if negb (used s =? 0) then probe fuel key data action h flag hval hval2 idx
            else Some (inr idx)
        end
  end.

(** [_hdelete]: the strings are freed, the pointers to them dangle. *)
Definition _hdelete (h : hsearch_data) (idx : Z) : option hsearch_data :=
  tab ← table h;
  tab' ← aset tab idx (mk_slot (-1) (mk_entry None None None 0));
  Some (mk_htab (Some tab') (hsize h) (u32 (filled h - 1)) (change_ok h)).

(** The part of [hsearch_r] after an empty bucket has been found, action ENTER. *)
Definition enter_new (key : cstr) (data : option cstr) (h : hsearch_data)
    (flag hval idx first_deleted : Z) : option (hresult * hsearch_data) :=
  if filled h =? hsize h then Some (mk_res 0 None (Some ENOMEM), h)
  else
    let idx := if negb (first_deleted =? 0) then first_deleted else idx in
    tab ← table h;
    s ← aget tab idx;
    let k' := dup_string key in
    let d' := d ← data; dup_string d in
    let e := mk_entry k' d' (e_callback (entry s)) (e_flags (entry s)) in
    tab1 ← aset tab idx (mk_slot hval e);
    match k', d' with
    | Some _, Some _ =>
        let h1 := mk_htab (Some tab1) (hsize h) (u32 (filled h + 1)) (change_ok h) in
        let e := env_callback_init h1 e in
        let e := env_flags_init h1 e in
        tab2 ← aset tab1 idx (mk_slot hval e);
        let h2 := mk_htab (Some tab2) (hsize h) (u32 (filled h + 1)) (change_ok h) in
        if rejects (option_map (fun f => f e data env_op_create flag) (change_ok h)) then
          h3 ← _hdelete h2 idx; Some (mk_res 0 None (Some EPERM), h3)
        else if rejects (option_map (fun f => f key data env_op_create flag) (e_callback e)) then
          h3 ← _hdelete h2 idx; Some (mk_res 0 None (Some EINVAL), h3)
        else Some (mk_res 1 (Some idx) None, h2)
    | _, _ => Some (mk_res 0 None (Some ENOMEM), set_table h tab1)
    end.

Definition hsearch_r (key : cstr) (data : option cstr) (action : ACTION)
    (h : hsearch_data) (flag : Z) : option (hresult * hsearch_data) :=
  let hval := first_hash (hsize h) key in
  tab ← table h;
  s ← aget tab hval;
  let finish (idx first_deleted : Z) :=
    match action with
    | ENTER => enter_new key data h flag hval idx first_deleted
    | FIND => Some (mk_res 0 None (Some ESRCH), h)
    end in
  if negb (used s =? 0) then
    let first_deleted := if used s =? -1 then hval else 0 in
    r ← _compare_and_overwrite_entry key data action h flag hval hval;
    match r with
    | Some out => Some out
    | None =>
        p ← probe (S (Z.to_nat (hsize h))) key data action h flag hval
              (second_hash (hsize h) hval) hval;
        match p with
        | inl out => Some out
        | inr idx => finish idx first_deleted
        end
    end
  else finish hval 0.

(** ** Deletion *)

Definition hdelete_r (key : cstr) (h : hsearch_data) (flag : Z) : option (hresult * hsearch_data) :=
  '(r, h) ← hsearch_r key None FIND h 0;
  let idx := ret r in
  if idx =? 0 then Some (mk_res 0 None (Some ESRCH), h)
  else
    tab ← table h;
    s ← aget tab idx;
    if rejects (option_map (fun f => f (entry s) None env_op_delete flag) (change_ok h))
    then Some (mk_res 0 None (Some EPERM), h)
    else if rejects (option_map (fun f => f key None env_op_delete flag) (e_callback (entry s)))
    then Some (mk_res 0 None (Some EINVAL), h)
    else h' ← _hdelete h idx; Some (mk_res 1 None None, h').

(** ** Prefix match and walk *)

(** [strncmp(match, key, strlen(match)) == 0] on the contents. *)
Definition key_matches (match_ key : cstr) : bool := bool_decide (take (length match_) key = match_).

Fixpoint hmatch_loop (n : nat) (tab : list _ENTRY) (match_ : cstr) (idx : Z) : option hresult :=
  match n with
  | O => Some (mk_res 0 None (Some ESRCH))
  | S n =>
      s ← aget tab idx;
      if used s <=? 0 then hmatch_loop n tab match_ (idx + 1)
      else
        k ← e_key (entry s);
        if key_matches match_ k then Some (mk_res idx (Some idx) None)
        else hmatch_loop n tab match_ (idx + 1)
  end.

(** [for (idx = last_idx + 1; idx < htab->size; ++idx)]. *)
Definition hmatch_r (match_ : cstr) (last_idx : Z) (h : hsearch_data) : option hresult :=
  tab ← table h;
  hmatch_loop (Z.to_nat (hsize h - (last_idx + 1))) tab match_ (last_idx + 1).

(** The callback may change the entry it is called on. *)
Fixpoint hwalk_loop (n : nat) (tab : list _ENTRY) (cb : ENTRY -> Z * ENTRY) (i : Z)
    : option (Z * list _ENTRY) :=
  match n with
  | O => Some (0, tab)
  | S n =>
      s ← aget tab i;
      if 0 <? used s then
        let '(r, e) := cb (entry s) in
        tab' ← aset tab i (mk_slot (used s) e);
        if negb (r =? 0) then Some (r, tab') else hwalk_loop n tab' cb (i + 1)
      else hwalk_loop n tab cb (i + 1)
  end.

Definition hwalk_r (h : hsearch_data) (cb : ENTRY -> Z * ENTRY) : option (Z * hsearch_data) :=
  tab ← table h;
  '(r, tab') ← hwalk_loop (Z.to_nat (hsize h)) tab cb 1;
  Some (r, set_table h tab').
End operations.

(** ** The prime test and the table size *)

(** The loop stops at a divisor, or past the square root of the number. *)
Lemma isprime_loop_spec fuel number div :
  0 < number < 2 ^ 31 -> 3 <= div -> div * div < number + 4 * div -> number + 4 < div + 2 * Z.of_nat fuel ->
  exists d, isprime_loop fuel number div = Some d /\ div <= d /\
    (forall q, div <= q < d -> (exists j, 0 <= j /\ q = div + 2 * j) -> ~ (q | number)) /\
    (number mod d = 0 \/ number <= d * d).
Proof.
  revert div. induction fuel as [|fuel IH]; intros div Hn Hd Hsq Hf; [nia|]. cbn [isprime_loop].
  assert (div * div < 2 ^ 32) by nia. rewrite u32_small by nia.
  destruct (Z.ltb_spec (div * div) number) as [Hlt|Hge]; cbn [andb].
  - destruct (Z.eqb_spec (number mod div) 0) as [Hm|Hm]; cbn [negb].
    + exists div. repeat split; [lia | intros; lia | by left].
    + destruct (IH (div + 2)) as (d & -> & Hdd & Hq & Hend); try nia.
      exists d. repeat split; [lia | | done].
      intros q Hqr (j & Hj & Hqe). destruct (Z.eq_dec j 0) as [->|].
      { intros Hdv. apply Z.mod_divide in Hdv; [|lia]. replace q with div in Hdv by lia. done. }
      apply Hq; [lia | exists (j - 1); lia].
  - exists div. repeat split; [lia | intros; lia | right; lia].
Qed.

Lemma isprime_prime n : 5 <= n < 2 ^ 31 -> Z.odd n = true -> isprime n = Some true -> Z.prime n.
Proof.
  intros Hn Hodd. unfold isprime.
  destruct (isprime_loop_spec (S (Z.to_nat n)) n 3) as (d & -> & Hd & Hq & Hend); try lia.
  cbn [mbind option_bind]. intros [= Hm%negb_true_iff%Z.eqb_neq].
  destruct Hend as [Hend|Hend]; [done|].
  (* no divisor whose square is at most n *)
  assert (Hsmall : forall q, 1 < q -> q * q <= n -> ~ (q | n)).
  { intros q Hq1 Hqq Hdv. destruct (Z.odd q) eqn:Hqo.
    - apply Z.odd_spec in Hqo as [j Hj]. destruct (Z.eq_dec q d) as [->|Hne].
      { apply Hm, Z.mod_divide; [lia|done]. }
      apply (Hq q); [nia | exists (j - 1); lia | done].
    - destruct Hdv as [z Hz]. rewrite Hz, Z.odd_mul, Hqo, andb_false_r in Hodd. done. }
  split; [lia|]. intros q Hq1 Hdv.
  destruct (Z.le_gt_cases (q * q) n) as [Hle|Hgt]; [destruct (Hsmall q); (lia || done)|].
  destruct Hdv as [z Hz]. destruct (Hsmall z); [nia | nia | exists q; lia].
Qed.

Lemma next_prime_spec fuel nel p :
  5 <= nel -> Z.odd nel = true -> nel + 2 * Z.of_nat fuel < 2 ^ 31 ->
  next_prime fuel nel = Some p -> nel <= p < 2 ^ 31 /\ Z.prime p.
Proof.
  revert nel. induction fuel as [|fuel IH]; intros nel Hn Ho Hf; [done|]. cbn [next_prime].
  destruct (isprime nel) as [[]|] eqn:E; [| |done]; cbn [mbind option_bind].
  - intros [= <-]. split; [lia|]. apply isprime_prime; [lia|done|done].
  - intros Hp. destruct (IH (nel + 2)); [lia | | lia | done | split; [lia | done]].
    by rewrite Z.odd_add, Ho.
Qed.

(** There is a prime within the search range above every size the environment asks for. *)
Lemma next_prime_total nel : 2 <= nel <= 1024 -> exists p, next_prime 512 (Z.lor nel 1) = Some p /\ 5 <= p.
Proof.
  intros H.
  assert (Hall : forallb (fun n => match next_prime 512 (Z.lor (Z.of_nat n) 1) with
    | Some p => 5 <=? p | None => false end) (seq 2 1023) = true) by by vm_compute.
  rewrite forallb_forall in Hall. specialize (Hall (Z.to_nat nel)).
  rewrite Z2Nat.id in Hall by lia.
  destruct (next_prime 512 (Z.lor nel 1)) as [p|].
  - exists p. split; [done|]. apply Z.leb_le, Hall, in_seq. lia.
  - exfalso. assert (false = true) by (apply Hall, in_seq; lia). done.
Qed.

Lemma lor_1_odd n : 0 <= n -> Z.odd (Z.lor n 1) = true /\ n <= Z.lor n 1 <= n + 1.
Proof.
  intros Hn. destruct (Z.Even_or_Odd n) as [[k ->]|[k ->]].
  - pose proof (lor_low k 1 1 ltac:(lia) ltac:(lia)) as E. replace (k * 2 ^ 1) with (2 * k) in E by lia.
    rewrite E. split; [|lia]. rewrite Z.add_comm, Z.odd_add_mul_2. done.
  - assert (Z.lor (2 * k + 1) 1 = 2 * k + 1) as ->.
    { pose proof (lor_low k 1 1 ltac:(lia) ltac:(lia)) as E. replace (k * 2 ^ 1) with (2 * k) in E by lia.
      rewrite <- E at 1. rewrite <- Z.lor_assoc. done. }
    split; [|lia]. rewrite Z.add_comm, Z.odd_add_mul_2. done.
Qed.

Lemma next_prime_prime nel p :
  2 <= nel <= 1024 -> next_prime 512 (Z.lor nel 1) = Some p -> Z.prime p /\ nel <= p < 2 ^ 31 /\ 5 <= p.
Proof.
  intros Hn Hp. destruct (lor_1_odd nel) as [Ho Hr]; [lia|].
  destruct (next_prime_total nel) as (p' & Hp' & H5); [lia|]. assert (p' = p) by congruence; subst p'.
  destruct (Z.le_gt_cases 5 (Z.lor nel 1)) as [Hge|Hlt].
  - destruct (next_prime_spec 512 (Z.lor nel 1) p); [lia | done | lia | done |]. split; [done | lia].
  - assert (nel = 2 \/ nel = 3 \/ nel = 4) as [->|[->| ->]] by lia; vm_compute in Hp.
    all: assert (p = 5) as -> by congruence; split; [apply isprime_prime; [lia | by vm_compute..] | lia].
Qed.

(** ** The probe sequence *)

Section probing.
Variable s : Z.
Hypothesis s_prime : Z.prime s.
Hypothesis s_ge : 5 <= s.

(** The slot looked at in step [n], for first hash value [h]. *)
Definition pos (h n : Z) : Z := (h - n * second_hash s h - 1) mod s + 1.

Lemma second_hash_range h : 0 <= h -> 1 <= second_hash s h <= s - 2.
Proof. intros. unfold second_hash. pose proof (Z.mod_pos_bound h (s - 2)). lia. Qed.

Lemma pos_range h n : 1 <= pos h n <= s.
Proof. unfold pos. pose proof (Z.mod_pos_bound (h - n * second_hash s h - 1) s). lia. Qed.

Lemma pos_0 h : 1 <= h <= s -> pos h 0 = h.
Proof. intros. unfold pos. rewrite Z.mod_small by lia. lia. Qed.

Lemma next_idx_pos h n : 1 <= h <= s -> next_idx s (second_hash s h) (pos h n) = pos h (n + 1).
Proof.
  intros Hh. pose proof (second_hash_range h ltac:(lia)) as H2. unfold pos.
  set (a := h - n * second_hash s h - 1).
  replace (h - (n + 1) * second_hash s h - 1) with (a - second_hash s h) by (unfold a; lia).
  pose proof (Z.mod_pos_bound a s ltac:(lia)) as Hb. unfold next_idx.
  assert ((a - second_hash s h) mod s = (a mod s - second_hash s h) mod s) as ->
    by (rewrite Zminus_mod_idemp_l; done).
  zcase.
  - rewrite <- (Z.mod_add (a mod s - second_hash s h) 1) by lia.
    rewrite (Z.mod_small (_ + 1 * s)) by lia. lia.
  - rewrite (Z.mod_small (a mod s - _)) by lia. lia.
Qed.

Lemma pos_inj h m n : 1 <= h <= s -> 0 <= m < s -> 0 <= n < s -> pos h m = pos h n -> m = n.
Proof.
  intros Hh Hm Hn E. pose proof (second_hash_range h ltac:(lia)) as H2.
  assert (Hz : ((n - m) * second_hash s h) mod s = 0).
  { replace ((n - m) * second_hash s h)
      with ((h - m * second_hash s h - 1) - (h - n * second_hash s h - 1)) by lia.
    rewrite Zminus_mod. unfold pos in E. replace ((h - m * second_hash s h - 1) mod s)
      with ((h - n * second_hash s h - 1) mod s) by lia. rewrite Z.sub_diag. apply Z.mod_0_l. lia. }
  apply Z.mod_divide in Hz; [|lia]. rewrite Z.divide_prime_mul in Hz by done. destruct Hz as [[q Hq]|[q Hq]].
  all: destruct (Z.lt_trichotomy q 0) as [?|[->|?]]; nia.
Qed.

(** The sequence comes back to its start after [s] steps. *)
Lemma pos_wrap h : 1 <= h <= s -> pos h s = h.
Proof.
  intros Hh. rewrite <- (pos_0 h Hh) at 2. unfold pos. f_equal.
  replace (h - s * second_hash s h - 1) with (h - 0 * second_hash s h - 1 + (- second_hash s h) * s) by lia.
  apply Z.mod_add. lia.
Qed.

Lemma pos_ne h n : 1 <= h <= s -> 0 < n < s -> pos h n <> h.
Proof. intros Hh Hn E. rewrite <- (pos_0 h Hh) in E at 2. apply pos_inj in E; lia. Qed.

Lemma first_hash_range k : 1 <= first_hash s k < s.
Proof. unfold first_hash. pose proof (Z.mod_pos_bound (hash_raw k) s). zcase; lia. Qed.
End probing.

(** ** The representation invariant *)

(** Slot [i] holds the key [k] with the value [d]. *)
Definition holds (tab : list _ENTRY) (i : Z) (k d : cstr) : Prop :=
  exists s, aget tab i = Some s /\ 0 < used s /\ e_key (entry s) = Some k /\ e_data (entry s) = Some d.

Definition used_at (tab : list _ENTRY) (i : Z) : Z :=
  match aget tab i with Some s => used s | None => 0 end.

Definition live (s : _ENTRY) : Prop := 0 < used s.
#[global] Instance live_dec s : Decision (live s) := Z_lt_dec 0 (used s).

Definition live_count (tab : list _ENTRY) : Z := Z.of_nat (length (filter live (tail tab))).

(** What a non-empty slot must satisfy: it is deleted, or it holds a string
    under the hash value of that string and every slot that its probe
    sequence visits before it is in use. *)
Definition slot_ok (sz : Z) (tab : list _ENTRY) (i : Z) : Prop :=
  used_at tab i = 0 \/ used_at tab i = -1 \/
  exists k d n, holds tab i k d /\ Forall char_ok k /\ used_at tab i = first_hash sz k /\
    0 <= n < sz /\ i = pos sz (first_hash sz k) n /\
    forall m, 0 <= m < n -> used_at tab (pos sz (first_hash sz k) m) <> 0.

(** The table implements the finite map [M] from names to values. *)
Record Rep (h : hsearch_data) (tab : list _ENTRY) (M : gmap cstr cstr) : Prop := {
  rep_table : table h = Some tab;
  rep_prime : Z.prime (hsize h);
  rep_size : 5 <= hsize h < 2 ^ 31;
  rep_length : Z.of_nat (length tab) = hsize h + 1;
  rep_slots : forall i, 1 <= i <= hsize h -> slot_ok (hsize h) tab i;
  rep_map : forall k d, M !! k = Some d <-> exists i, 1 <= i <= hsize h /\ holds tab i k d;
  rep_inj : forall i j k d d', 1 <= i <= hsize h -> 1 <= j <= hsize h ->
    holds tab i k d -> holds tab j k d' -> i = j;
  rep_clear : forall i s, 1 <= i <= hsize h -> aget tab i = Some s -> used s <= 0 ->
    e_callback (entry s) = None;
  rep_filled : filled h = live_count tab }.

(** Some slot has never been used. *)
Definition has_unused (h : hsearch_data) (tab : list _ENTRY) : Prop :=
  exists i, 1 <= i <= hsize h /\ used_at tab i = 0.

Lemma holds_fun tab i k d k' d' : holds tab i k d -> holds tab i k' d' -> k = k' /\ d = d'.
Proof. intros (s & Hs & _ & Hk & Hd) (s' & Hs' & _ & Hk' & Hd'). split; congruence. Qed.

Lemma holds_used tab i k d : holds tab i k d -> 0 < used_at tab i.
Proof. intros (s & Hs & Hu & _). unfold used_at. by rewrite Hs. Qed.

Lemma slot_get h tab M i : Rep h tab M -> 1 <= i <= hsize h ->
  exists s, aget tab i = Some s /\ used s = used_at tab i.
Proof.
  intros HR Hi. destruct (aget_is_Some tab i) as [s Hs]; [pose proof (rep_length _ _ _ HR); lia|].
  exists s. unfold used_at. by rewrite Hs.
Qed.

Section search.
Context {H : EnvHooks}.
Variables (h : hsearch_data) (tab : list _ENTRY) (M : gmap cstr cstr).
Hypothesis HR : Rep h tab M.
Variables (key : cstr) (data : option cstr) (action : ACTION) (flag : Z).
Hypothesis Hkey : Forall char_ok key.

#[local] Abbreviation hv := (first_hash (hsize h) key).
#[local] Abbreviation P n := (pos (hsize h) hv n).

Lemma hv_range : 1 <= hv < hsize h.
Proof using HR. apply first_hash_range. pose proof (rep_size _ _ _ HR). lia. Qed.

Lemma P_range n : 1 <= P n <= hsize h.
Proof using HR. apply pos_range. pose proof (rep_size _ _ _ HR). lia. Qed.

(** The fast comparison of [used] and [strcmp] together decide whether the slot holds the key. *)
Lemma cmp_miss i :
  1 <= i <= hsize h -> (forall d, ~ holds tab i key d) ->
  _compare_and_overwrite_entry key data action h flag hv i = Some None.
Proof using HR Hkey.
  intros Hi Hno. unfold _compare_and_overwrite_entry. rewrite (rep_table _ _ _ HR).
  destruct (slot_get _ _ _ i HR Hi) as (s & Hs & Hu). cbn [mbind option_bind]. rewrite Hs.
  cbn [mbind option_bind]. pose proof hv_range. pose proof (rep_size _ _ _ HR).
  destruct (rep_slots _ _ _ HR i Hi) as [E|[E|(k & d & n & Hh & Hck & E & _)]]; rewrite Hu, E.
  - rewrite u32_small by lia. zcase; [lia|done].
  - zcase; [|done]. exfalso. unfold u32 in *. vm_compute ((-1) mod 2 ^ 32) in e. lia.
  - zcase; [|done]. pose proof Hh as (s' & Hs' & _ & Hk & Hd).
    assert (s' = s) as -> by congruence. rewrite Hk. cbn [mbind option_bind].
    zcase; [|done]. exfalso. apply strcmp_l_eq in e0; [|done..]. subst k. by apply (Hno d).
Qed.

Lemma cmp_hit i d :
  1 <= i <= hsize h -> holds tab i key d ->
  _compare_and_overwrite_entry key data action h flag hv i =
    (out ← overwrite_entry key data action h flag i; Some (Some out)).
Proof using HR Hkey.
  intros Hi Hh. unfold _compare_and_overwrite_entry. rewrite (rep_table _ _ _ HR).
  destruct (slot_get _ _ _ i HR Hi) as (s & Hs & Hu). cbn [mbind option_bind]. rewrite Hs.
  cbn [mbind option_bind]. pose proof hv_range. pose proof (rep_size _ _ _ HR).
  pose proof (holds_used _ _ _ _ Hh).
  destruct (rep_slots _ _ _ HR i Hi) as [E|[E|(k & d' & n & Hh' & Hck & E & _)]]; [lia | lia |].
  destruct (holds_fun _ _ _ _ _ _ Hh Hh') as [<- <-].
  rewrite Hu, E, u32_small, Z.eqb_refl by lia.
  pose proof Hh as (s' & Hs' & _ & Hk & Hd). assert (s' = s) as -> by congruence.
  rewrite Hk. cbn [mbind option_bind].
  assert (strcmp_l key key = 0) as -> by by apply strcmp_l_eq. done.
Qed.

(** A search that has missed in the first [n] steps and goes on from there. *)
Definition missed (n : Z) : Prop := forall m d, 0 <= m < n -> ~ holds tab (P m) key d.
Definition in_use (n : Z) : Prop := forall m, 0 <= m < n -> used_at tab (P m) <> 0.

Lemma missed_S n : missed n -> (forall d, ~ holds tab (P n) key d) -> missed (n + 1).
Proof using Type. intros Hm Hn m d Hr. destruct (Z.eq_dec m n) as [->|]; [apply Hn | apply Hm; lia]. Qed.

Lemma in_use_S n : in_use n -> used_at tab (P n) <> 0 -> in_use (n + 1).
Proof using Type. intros Hm Hn m Hr. destruct (Z.eq_dec m n) as [->|]; [apply Hn | apply Hm; lia]. Qed.

Lemma holds_dec i : (exists d, holds tab i key d) \/ (forall d, ~ holds tab i key d).
Proof using Type.
  unfold holds. destruct (aget tab i) as [s|]; [|right; intros d (? & ? & _); congruence].
  destruct (decide (0 < used s)); [|right; intros d (? & [= <-] & ? & _); lia].
  destruct (decide (e_key (entry s) = Some key)); [|right; intros d (? & [= <-] & _ & ? & _); congruence].
  destruct (e_data (entry s)) as [d|] eqn:Ed; [left; by exists d, s|].
  right; intros d (? & [= <-] & _ & _ & ?); congruence.
Qed.

(** The outcome of the probe loop. *)
Lemma probe_spec fuel n idx :
  idx = P n -> 0 <= n < hsize h -> hsize h - n <= Z.of_nat fuel -> missed (n + 1) -> in_use (n + 1) ->
  let r := probe fuel key data action h flag hv (second_hash (hsize h) hv) idx in
  (exists i d, 1 <= i <= hsize h /\ holds tab i key d /\
     r = (out ← overwrite_entry key data action h flag i; Some (inl out))) \/
  (exists m, n < m < hsize h /\ used_at tab (P m) = 0 /\ missed (m + 1) /\ in_use m /\ r = Some (inr (P m))) \/
  (missed (hsize h) /\ in_use (hsize h) /\ r = Some (inr hv)).
Proof using HR Hkey.
  pose proof (rep_size _ _ _ HR) as Hsz. pose proof hv_range as Hv.
  revert n idx. induction fuel as [|fuel IH]; intros n idx -> Hn Hf Hmi Hiu; [lia|]. cbn [probe].
  rewrite next_idx_pos by (lia || apply HR).
  destruct (Z.eq_dec (n + 1) (hsize h)) as [En|En].
  { right; right. rewrite En in *. rewrite pos_wrap, Z.eqb_refl by (lia || apply HR). done. }
  destruct (Z.eqb_spec (P (n + 1)) hv) as [E|_]; [by apply pos_ne in E; (lia || apply HR)|].
  destruct (holds_dec (P (n + 1))) as [[d Hd]|Hno].
  { left. exists (P (n + 1)), d. split_and!; [apply P_range.. | done |].
    rewrite (cmp_hit _ d) by (apply P_range || done).
    by destruct (overwrite_entry _ _ _ _ _ _) as [?|]. }
  rewrite cmp_miss by (apply P_range || done). cbn [mbind option_bind].
  rewrite (rep_table _ _ _ HR). cbn [mbind option_bind].
  destruct (slot_get _ _ _ (P (n + 1)) HR (P_range _)) as (s & Hs & Hu). rewrite Hs. cbn [mbind option_bind]. rewrite Hu.
  pose proof (missed_S _ Hmi Hno) as Hmi'.
  destruct (Z.eqb_spec (used_at tab (P (n + 1))) 0) as [E|E]; cbn [negb].
  - right; left. exists (n + 1). split_and!; done || lia.
  - destruct (IH (n + 1) _ eq_refl) as [?|[(m & ? & ?)|?]]; [lia | lia | done | by apply in_use_S | by left | | by right; right].
    right; left. exists m. split; [lia|done].
Qed.

(** A slot that holds the key is found by the search. *)
Lemma not_missed i d m :
  1 <= i <= hsize h -> holds tab i key d -> missed (m + 1) -> used_at tab (P m) = 0 -> 0 <= m -> False.
Proof using HR.
  intros Hi Hh Hmi Hz Hm. pose proof (holds_used _ _ _ _ Hh).
  destruct (rep_slots _ _ _ HR i Hi) as [E|[E|(k & d' & n & Hh' & Hck & E & Hn & -> & Hall)]]; [lia | lia |].
  destruct (holds_fun _ _ _ _ _ _ Hh Hh') as [<- <-].
  destruct (Z.le_gt_cases n m); [by apply (Hmi n d); [lia|] | apply (Hall m); [lia|done]].
Qed.

Lemma not_missed_all i d : 1 <= i <= hsize h -> holds tab i key d -> missed (hsize h) -> False.
Proof using HR.
  intros Hi Hh Hmi. pose proof (holds_used _ _ _ _ Hh).
  destruct (rep_slots _ _ _ HR i Hi) as [E|[E|(k & d' & n & Hh' & Hck & E & Hn & -> & Hall)]]; [lia | lia |].
  destruct (holds_fun _ _ _ _ _ _ Hh Hh') as [<- <-]. by apply (Hmi n d).
Qed.

(** The probe sequence visits every slot. *)
Lemma pos_surj i : 1 <= i <= hsize h -> exists n, 0 <= n < hsize h /\ P n = i.
Proof using HR.
  intros Hi. pose proof (rep_size _ _ _ HR) as Hsz. pose proof hv_range as Hv.
  pose proof (second_hash_range _ ltac:(apply (proj1 Hsz)) hv ltac:(lia)) as H2.
  unfold pos. set (h2 := second_hash (hsize h) hv) in *.
  destruct (Z.Bezout_coprime _ _ (Z.coprime_prime_small _ h2 (rep_prime _ _ _ HR) ltac:(lia)))
    as (v & u & Huv).
  exists (((hv - i) * u) mod hsize h). split; [apply Z.mod_pos_bound; lia|].
  assert (E : (hv - ((hv - i) * u) mod hsize h * h2 - 1) mod hsize h = (i - 1) mod hsize h).
  { rewrite (Z.mod_eq ((hv - i) * u)) by lia. set (q := (hv - i) * u / hsize h).
    replace (hv - ((hv - i) * u - hsize h * q) * h2 - 1)
      with ((i - 1) + ((hv - i) * v + q * h2) * hsize h) by nia.
    apply Z.mod_add. lia. }
  rewrite E, Z.mod_small by lia. lia.
Qed.

Lemma hsearch_hit i d :
  1 <= i <= hsize h -> holds tab i key d ->
  hsearch_r key data action h flag = overwrite_entry key data action h flag i.
Proof using HR Hkey.
  intros Hi Hh. unfold hsearch_r. rewrite (rep_table _ _ _ HR). cbn [mbind option_bind].
  pose proof hv_range as Hv. pose proof (rep_size _ _ _ HR) as Hsz.
  assert (HP0 : P 0 = hv) by (apply pos_0; lia).
  destruct (slot_get _ _ _ hv HR ltac:(lia)) as (s & Hs & Hu). rewrite Hs. cbn [mbind option_bind].
  rewrite Hu. destruct (Z.eqb_spec (used_at tab hv) 0) as [E|E]; cbn [negb].
  { exfalso. apply (not_missed i d 0); [done|done| |by rewrite HP0|lia].
    intros m d' Hm. replace m with 0 by lia. rewrite HP0. intros Hc%holds_used. lia. }
  destruct (holds_dec hv) as [[d' Hd]|Hno].
  { rewrite (cmp_hit _ d') by (lia || done). assert (hv = i) as ->.
    { apply (rep_inj _ _ _ HR _ _ key d' d); (lia || done). }
    by destruct (overwrite_entry _ _ _ _ _ _) as [?|]. }
  rewrite cmp_miss by (lia || done). cbn [mbind option_bind].
  destruct (probe_spec (S (Z.to_nat (hsize h))) 0 hv) as [(j & d' & Hj & Hd & ->)|[(m & Hm & Hz & Hmi & _)|(Hmi & _)]].
  - done.
  - lia.
  - lia.
  - intros m d' Hm. replace m with 0 by lia. rewrite HP0. apply Hno.
  - intros m Hm. replace m with 0 by lia. by rewrite HP0.
  - assert (j = i) as -> by (apply (rep_inj _ _ _ HR _ _ key d' d); (lia || done)).
    by destruct (overwrite_entry _ _ _ _ _ _) as [?|].
  - exfalso. by apply (not_missed i d m); [..|lia].
  - exfalso. by apply (not_missed_all i d).
Qed.

(** A search for a key that is not there ends at a slot fit for it. *)
Lemma hsearch_miss :
  (forall i d, 1 <= i <= hsize h -> ~ holds tab i key d) ->
  exists idx fd n,
    hsearch_r key data action h flag =
      match action with
      | ENTER => enter_new key data h flag hv idx fd
      | FIND => Some (mk_res 0 None (Some ESRCH), h)
      end /\
    (has_unused h tab -> 0 <= n < hsize h /\ in_use n /\
       (if negb (fd =? 0) then fd else idx) = P n /\ used_at tab (P n) <= 0).
Proof using HR Hkey.
  intros Hno. unfold hsearch_r. rewrite (rep_table _ _ _ HR). cbn [mbind option_bind].
  pose proof hv_range as Hv. pose proof (rep_size _ _ _ HR) as Hsz.
  assert (HP0 : P 0 = hv) by (apply pos_0; lia).
  destruct (slot_get _ _ _ hv HR ltac:(lia)) as (s & Hs & Hu). rewrite Hs. cbn [mbind option_bind].
  rewrite Hu. destruct (Z.eqb_spec (used_at tab hv) 0) as [E|E]; cbn [negb].
  { exists hv, 0, 0. split; [done|]. intros _. rewrite HP0. split_and!; [lia..| |done|lia].
    intros m Hm; lia. }
  rewrite cmp_miss by first [lia | intros d; apply Hno; lia]. cbn [mbind option_bind].
  set (fd := if used_at tab hv =? -1 then hv else 0).
  assert (Hfd : fd <> 0 -> fd = hv /\ used_at tab hv = -1).
  { unfold fd. zcase; [done | lia]. }
  destruct (probe_spec (S (Z.to_nat (hsize h))) 0 hv) as [(j & d' & Hj & Hd & _)|[(m & Hm & Hz & Hmi & Hiu & ->)|(Hmi & Hiu & ->)]].
  - done.
  - lia.
  - lia.
  - intros m d' Hm. replace m with 0 by lia. rewrite HP0. apply Hno. lia.
  - intros m Hm. replace m with 0 by lia. by rewrite HP0.
  - exfalso. by apply (Hno j d').
  - cbn [mbind option_bind]. exists (P m), fd, (if negb (fd =? 0) then 0 else m). split; [done|]. intros _.
    destruct (Z.eqb_spec fd 0) as [Hf|Hf]; cbn [negb].
    + split_and!; [lia.. | done | done | lia].
    + destruct (Hfd Hf) as [-> Hm1]. rewrite HP0, Hm1. split_and!; [lia.. | intros ? ?; lia | done | lia].
  - cbn [mbind option_bind]. exists hv, fd, 0. split; [done|]. intros (i & Hi & Hz). exfalso.
    destruct (pos_surj i Hi) as (n & Hn & <-). by apply (Hiu n).
Qed.
End search.

(** ** Updates of one slot *)

Section update.
Variables (h : hsearch_data) (tab : list _ENTRY) (M : gmap cstr cstr).
Hypothesis HR : Rep h tab M.
Variables (i : Z) (s : _ENTRY).
Hypothesis Hi : 1 <= i <= hsize h.
#[local] Abbreviation tab' := (<[Z.to_nat i := s]> tab).

Lemma aset_slot : aset tab i s = Some tab'.
Proof using HR Hi. apply aset_Some. pose proof (rep_length _ _ _ HR). lia. Qed.

Lemma aget_slot j : 0 <= j -> aget tab' j = if j =? i then Some s else aget tab j.
Proof using HR Hi.
  intros Hj. pose proof (rep_length _ _ _ HR). rewrite !aget_lookup by lia. zcase.
  - subst. apply list_lookup_insert_eq. lia.
  - apply list_lookup_insert_ne. lia.
Qed.

Lemma used_at_slot j : 0 <= j -> used_at tab' j = if j =? i then used s else used_at tab j.
Proof using HR Hi. intros Hj. unfold used_at. rewrite aget_slot by done. by zcase. Qed.

Lemma holds_other j k d : 0 <= j -> j <> i -> holds tab' j k d <-> holds tab j k d.
Proof using HR Hi. intros Hj Hne. unfold holds. rewrite aget_slot by done. zcase; [done|done]. Qed.

Lemma holds_slot k d :
  holds tab' i k d <-> 0 < used s /\ e_key (entry s) = Some k /\ e_data (entry s) = Some d.
Proof using HR Hi.
  unfold holds. rewrite aget_slot, Z.eqb_refl by lia. split; [by intros (? & [= <-] & ?) | by exists s].
Qed.

Lemma length_slot : Z.of_nat (length tab') = hsize h + 1.
Proof using HR. rewrite length_insert. apply HR. Qed.

(** The number of live entries changes only by this slot. *)
Lemma live_count_slot :
  live_count tab' = live_count tab - (if 0 <? used_at tab i then 1 else 0) + (if 0 <? used s then 1 else 0).
Proof using HR Hi.
  destruct (slot_get _ _ _ i HR Hi) as (s0 & Hs0 & <-). pose proof (rep_length _ _ _ HR) as Hl.
  unfold live_count. rewrite aget_lookup in Hs0 by lia. destruct tab as [|x t]; [done|].
  replace (Z.to_nat i) with (S (Z.to_nat (i - 1))) in * by lia. simpl in Hs0 |- *.
  rewrite <- (take_drop_middle t _ _ Hs0) at 2.
  rewrite insert_take_drop by (apply lookup_lt_Some in Hs0; done).
  rewrite !list.filter_app, !filter_cons, !length_app.
  destruct (decide (live s)) as [l|l], (decide (live s0)) as [l0|l0], (Z.ltb_spec 0 (used s0)),
    (Z.ltb_spec 0 (used s)); unfold live in l, l0; simpl; lia.
Qed.

(** If an in-use slot stays in use, the other slots keep their invariant. *)
Lemma slot_ok_other j :
  1 <= j <= hsize h -> j <> i -> (used_at tab i <> 0 -> used s <> 0) -> slot_ok (hsize h) tab' j.
Proof using HR Hi.
  intros Hj Hne Hu. unfold slot_ok. rewrite used_at_slot by lia. zcase; [done|].
  destruct (rep_slots _ _ _ HR j Hj) as [E|[E|(k & d & n' & Hh & Hc & E & Hn & Hp & Hall)]]; [auto..|].
  right; right. exists k, d, n'. rewrite holds_other by lia. split_and!; try done; try lia.
  intros m Hm. pose proof (rep_size _ _ _ HR).
  pose proof (pos_range (hsize h) ltac:(lia) (first_hash (hsize h) k) m).
  rewrite used_at_slot by lia. zcase; [subst; by apply Hu, Hall | by apply Hall].
Qed.

Lemma clear_slot : (used s <= 0 -> e_callback (entry s) = None) ->
  forall j s', 1 <= j <= hsize h -> aget tab' j = Some s' -> used s' <= 0 -> e_callback (entry s') = None.
Proof using HR Hi.
  intros Hs j s' Hj. rewrite aget_slot by lia. zcase; [by intros [= <-]|]. by apply (rep_clear _ _ _ HR).
Qed.

(** Deleting the entry of slot [i]. *)
Lemma rep_delete key d :
  holds tab i key d -> used s = -1 -> e_callback (entry s) = None ->
  Rep (mk_htab (Some tab') (hsize h) (u32 (filled h - 1)) (change_ok h)) tab' (delete key M).
Proof using HR Hi.
  intros Hh Hs Hcb. pose proof (rep_size _ _ _ HR) as Hsz.
  assert (Hx : forall k d', ~ holds tab' i k d') by (intros k d'; rewrite holds_slot; lia).
  split; simpl; try apply HR; try done.
  - apply length_slot.
  - intros j Hj. destruct (Z.eq_dec j i) as [->|Hne]; [|apply slot_ok_other; lia].
    right; left. by rewrite used_at_slot, Z.eqb_refl by lia.
  - intros k d'. rewrite lookup_delete_Some, (rep_map _ _ _ HR). split.
    + intros [Hne (j & Hj & Hd')]. exists j. split; [done|]. rewrite holds_other; [done | lia |].
      intros ->. by destruct (holds_fun _ _ _ _ _ _ Hh Hd').
    + intros (j & Hj & Hd'). destruct (Z.eq_dec j i) as [->|Hne]; [by apply Hx in Hd'|].
      rewrite holds_other in Hd' by lia. split; [|by exists j].
      intros ->. apply Hne. by apply (rep_inj _ _ _ HR _ _ k d' d).
  - intros a b k d1 d2 Ha Hb. destruct (Z.eq_dec a i) as [->|], (Z.eq_dec b i) as [->|].
    1-3: by intros ? ?; exfalso; eapply Hx.
    rewrite !holds_other by lia. by apply (rep_inj _ _ _ HR).
  - apply clear_slot. done.
  - rewrite live_count_slot, Hs, (rep_filled _ _ _ HR). pose proof (holds_used _ _ _ _ Hh).
    destruct (Z.ltb_spec 0 (used_at tab i)); [|lia]. simpl.
    pose proof live_count_slot as Hc. rewrite Hs in Hc. destruct (Z.ltb_spec 0 (used_at tab i)); [|lia].
    simpl in Hc. rewrite u32_small; [lia|].
    assert (live_count tab <= Z.of_nat (length tab)) by
      (unfold live_count; pose proof (length_filter live (tail tab)); destruct tab; simpl in *; lia).
    pose proof (rep_length _ _ _ HR). unfold live_count in *. lia.
Qed.

(** Storing a value for [key] at slot [i], which is free or holds [key] already. *)
Lemma rep_store key d n f :
  Forall char_ok key ->
  (forall j d', 1 <= j <= hsize h -> holds tab j key d' -> j = i) ->
  (forall k d', holds tab i k d' -> k = key) ->
  used s = first_hash (hsize h) key -> e_key (entry s) = Some key -> e_data (entry s) = Some d ->
  0 <= n < hsize h -> i = pos (hsize h) (first_hash (hsize h) key) n ->
  (forall m, 0 <= m < n -> used_at tab (pos (hsize h) (first_hash (hsize h) key) m) <> 0) ->
  f = live_count tab' ->
  Rep (mk_htab (Some tab') (hsize h) f (change_ok h)) tab' (<[key:=d]> M).
Proof using HR Hi.
  intros Hck Huniq Hsame Hu Hk Hd Hn Hp Hall Hf. pose proof (rep_size _ _ _ HR) as Hsz.
  pose proof (first_hash_range (hsize h) ltac:(lia) key) as Hr.
  assert (Hx : holds tab' i key d) by (rewrite holds_slot; split_and!; [lia|done..]).
  assert (Huniq' : forall j d', 1 <= j <= hsize h -> holds tab' j key d' -> j = i).
  { intros j d' Hj Hd'. destruct (Z.eq_dec j i) as [->|]; [done|].
    rewrite holds_other in Hd' by lia. by eapply Huniq. }
  split; simpl; try apply HR; try done.
  - apply length_slot.
  - intros j Hj. destruct (Z.eq_dec j i) as [->|Hne]; [|apply slot_ok_other; lia].
    right; right. exists key, d, n. rewrite used_at_slot, Z.eqb_refl by lia. split_and!; try done; try lia.
    intros m Hm. pose proof (pos_range (hsize h) ltac:(lia) (first_hash (hsize h) key) m).
    rewrite used_at_slot by lia. zcase; [lia | by apply Hall].
  - intros k d'. rewrite lookup_insert_Some, (rep_map _ _ _ HR). split.
    + intros [[<- <-]|[Hne (j & Hj & Hd')]]; [by exists i|]. exists j. split; [done|].
      rewrite holds_other; [done | lia |]. intros ->. apply Hne. symmetry. by eapply Hsame.
    + intros (j & Hj & Hd'). destruct (Z.eq_dec j i) as [->|Hne].
      { left. destruct (holds_fun _ _ _ _ _ _ Hx Hd'); auto. }
      right. rewrite holds_other in Hd' by lia. split; [|by exists j].
      intros ->. by apply Hne, (Huniq j d').
  - intros a b k d1 d2 Ha Hb H1 H2. destruct (decide (k = key)) as [->|Hne].
    { by rewrite (Huniq' a d1), (Huniq' b d2). }
    assert (Hni : forall j d', holds tab' j k d' -> j <> i).
    { intros j d' Hd' ->. by destruct (holds_fun _ _ _ _ _ _ Hx Hd'). }
    rewrite holds_other in H1, H2 by (lia || eauto).
    by apply (rep_inj _ _ _ HR a b k d1 d2).
  - apply clear_slot. lia.
Qed.
End update.

(** ** The operations refine those of a finite map *)

Section refinement.
Context {H : EnvHooks} {HOk : EnvHooksOk H}.
Variables (h : hsearch_data) (tab : list _ENTRY) (M : gmap cstr cstr).
Hypothesis HR : Rep h tab M.
Variables (key : cstr) (flag : Z).
Hypothesis Hkey : Forall char_ok key.

(** Either some slot holds the key with its value in the map, or none does. *)
Lemma rep_lookup :
  (exists d i, M !! key = Some d /\ 1 <= i <= hsize h /\ holds tab i key d) \/
  (M !! key = None /\ forall i d, 1 <= i <= hsize h -> ~ holds tab i key d).
Proof using HR.
  destruct (M !! key) as [d|] eqn:E.
  - left. pose proof E as (i & ? & ?)%(rep_map _ _ _ HR). by exists d, i.
  - right. split; [done|]. intros i d Hi Hh. assert (M !! key = Some d) by (apply (rep_map _ _ _ HR); eauto).
    congruence.
Qed.

Lemma rep_pos i d : 1 <= i <= hsize h -> holds tab i key d ->
  used_at tab i = first_hash (hsize h) key /\
  exists n, 0 <= n < hsize h /\ i = pos (hsize h) (first_hash (hsize h) key) n /\
    forall m, 0 <= m < n -> used_at tab (pos (hsize h) (first_hash (hsize h) key) m) <> 0.
Proof using HR.
  intros Hi Hh. pose proof (holds_used _ _ _ _ Hh).
  destruct (rep_slots _ _ _ HR i Hi) as [E|[E|(k & d' & n & Hh' & _ & E & Hn & Hp & Hall)]]; [lia..|].
  destruct (holds_fun _ _ _ _ _ _ Hh Hh') as [<- _]. split; [done|]. by exists n.
Qed.

Lemma live_count_unused : has_unused h tab -> live_count tab < hsize h.
Proof using HR.
  intros (i & Hi & Hz). destruct (slot_get _ _ _ i HR Hi) as (s & Hs & Hu).
  pose proof (rep_length _ _ _ HR) as Hl. unfold live_count.
  rewrite aget_lookup in Hs by lia. destruct tab as [|x t]; [done|]. simpl in Hl |- *.
  replace (Z.to_nat i) with (S (Z.to_nat (i - 1))) in Hs by lia. simpl in Hs.
  apply list_elem_of_lookup_2 in Hs. assert (Hd : ~ live s) by (unfold live; lia).
  pose proof (length_filter_lt live t s Hs Hd). lia.
Qed.

(** Overwriting the value of a key that is present. *)
Lemma overwrite_rep i d0 d :
  1 <= i <= hsize h -> holds tab i key d0 ->
  forall s, aget tab i = Some s ->
  Rep (set_table h (<[Z.to_nat i := set_data s (Some d)]> tab)) (<[Z.to_nat i := set_data s (Some d)]> tab)
    (<[key := d]> M) /\
  holds (<[Z.to_nat i := set_data s (Some d)]> tab) i key d.
Proof using HR Hkey.
  intros Hi Hh s Hs. destruct (rep_pos i d0 Hi Hh) as (Hu & n & Hn & Hp & Hall).
  pose proof Hh as (s' & Hs' & Hl & Hk & _). assert (s' = s) as -> by congruence.
  assert (Hus : used s = used_at tab i) by (unfold used_at; by rewrite Hs).
  split.
  - unfold set_table. apply (rep_store _ _ _ HR i (set_data s (Some d)) Hi key d n); simpl; try done; try lia.
    + intros j d' Hj Hj'. by apply (rep_inj _ _ _ HR _ _ key d' d0).
    + intros k d' Hk'. by destruct (holds_fun _ _ _ _ _ _ Hh Hk').
    + rewrite (live_count_slot _ _ _ HR), <- Hus by done. simpl. rewrite (rep_filled _ _ _ HR). lia.
  - apply (holds_slot _ _ _ HR); simpl; [done|]. split_and!; [lia|done..].
Qed.

(** Filling a free slot of the probe sequence; the entry's string pointers are
    those of the copies made of the key and the value. *)
Lemma enter_rep d e n :
  (forall i d, 1 <= i <= hsize h -> ~ holds tab i key d) -> live_count tab < hsize h ->
  0 <= n < hsize h ->
  (forall m, 0 <= m < n -> used_at tab (pos (hsize h) (first_hash (hsize h) key) m) <> 0) ->
  used_at tab (pos (hsize h) (first_hash (hsize h) key) n) <= 0 ->
  e_key e = Some key -> e_data e = Some d ->
  let i := pos (hsize h) (first_hash (hsize h) key) n in
  let tab' := <[Z.to_nat i := mk_slot (first_hash (hsize h) key) e]> tab in
  Rep (mk_htab (Some tab') (hsize h) (u32 (filled h + 1)) (change_ok h)) tab' (<[key := d]> M) /\
  holds tab' i key d.
Proof using HR Hkey.
  intros Hno Hc Hn Hall Hfree Hk Hd i tab'. pose proof (rep_size _ _ _ HR) as Hsz.
  assert (Hi : 1 <= i <= hsize h) by (apply pos_range; lia).
  pose proof (first_hash_range (hsize h) ltac:(lia) key) as Hr.
  split.
  - apply (rep_store _ _ _ HR i (mk_slot (first_hash (hsize h) key) e) Hi key d n); simpl; try done.
    + intros j d' Hj Hj'. by apply Hno in Hj'.
    + intros k d' Hk'%holds_used. unfold i in Hk'. lia.
    + rewrite (live_count_slot _ _ _ HR) by done. fold i in Hfree. simpl. rewrite (rep_filled _ _ _ HR).
      destruct (Z.ltb_spec 0 (used_at tab i)); [lia|]. destruct (Z.ltb_spec 0 (first_hash (hsize h) key)); [|lia].
      rewrite u32_small; [lia|]. unfold live_count in *. lia.
  - apply (holds_slot _ _ _ HR); simpl; [done|]. split_and!; [lia|done..].
Qed.
End refinement.

(** ** The three operations *)

Section operations_spec.
Context {HH : EnvHooks} {HOk : EnvHooksOk HH}.
Variables (h : hsearch_data) (tab : list _ENTRY) (M : gmap cstr cstr).
Hypothesis HR : Rep h tab M.
Variables (key : cstr) (flag : Z).
Hypothesis Hkey : Forall char_ok key.

Lemma hsearch_find data fl :
  match M !! key with
  | Some d => exists i, 1 <= i <= hsize h /\ holds tab i key d /\
      hsearch_r key data FIND h fl = Some (mk_res i (Some i) None, h)
  | None => hsearch_r key data FIND h fl = Some (mk_res 0 None (Some ESRCH), h)
  end.
Proof using HR Hkey.
  destruct (rep_lookup _ _ _ HR key) as [(d & i & -> & Hi & Hh)|[-> Hno]].
  - exists i. split; [done|]. split; [done|].
    rewrite (hsearch_hit _ _ _ HR key data FIND fl Hkey i d) by done.
    unfold overwrite_entry. rewrite (rep_table _ _ _ HR). cbn [mbind option_bind].
    by destruct (slot_get _ _ _ i HR Hi) as (s & -> & _).
  - by destruct (hsearch_miss _ _ _ HR key data FIND fl Hkey Hno) as (idx & fd & n & -> & _).
Qed.

(** At most one slot is changed. *)
Definition one_slot (tab' : list _ENTRY) : Prop :=
  tab' = tab \/ exists i s, 1 <= i <= hsize h /\ tab' = <[Z.to_nat i := s]> tab.

(** How a call that changes the map from [M] to [M'] may end. *)
Definition changed (r : hresult) (h' : hsearch_data) (M' : gmap cstr cstr) (P : list _ENTRY -> Prop)
    (A Q : Prop) : Prop :=
  hsize h' = hsize h /\ change_ok h' = change_ok h /\
  exists tab', one_slot tab' /\
    ((errno r = None /\ 0 < ret r /\ Rep h' tab' M' /\ P tab') \/
    ((errno r = Some EPERM /\ A \/ errno r = Some EINVAL /\ Q) /\
       ret r = 0 /\ rv r = None /\ Rep h' tab' M)).

(** The two checks made before a change is committed: each rejecting branch
    ends in a table that represents [M], the accepting one in [M']. *)
Lemma checks_changed (e : ENTRY) (data : option cstr) (op : env_op) (cb : option callback_t)
    (hrej : option hsearch_data) (out : option (hresult * hsearch_data)) (M' : gmap cstr cstr) P (A Q : Prop) :
  (rejects (option_map (fun f : change_t => f e data op flag) (change_ok h)) = true -> A) ->
  (rejects (option_map (fun f : callback_t => f key data op flag) cb) = true -> Q) ->
  (exists h3 tab3, hrej = Some h3 /\ Rep h3 tab3 M /\ one_slot tab3 /\ hsize h3 = hsize h /\ change_ok h3 = change_ok h) ->
  (exists r h' tab', out = Some (r, h') /\ hsize h' = hsize h /\ change_ok h' = change_ok h /\ one_slot tab' /\ errno r = None /\ 0 < ret r /\ Rep h' tab' M' /\ P tab') ->
  exists r h',
    (if rejects (option_map (fun f : change_t => f e data op flag) (change_ok h))
     then h3 ← hrej; Some (mk_res 0 None (Some EPERM), h3)
     else if rejects (option_map (fun f : callback_t => f key data op flag) cb)
     then h3 ← hrej; Some (mk_res 0 None (Some EINVAL), h3)
     else out) = Some (r, h') /\ changed r h' M' P A Q.
Proof using Type.
  intros HA HQ (h3 & tab3 & -> & HR3 & H1 & Hz & Hc) (r & h' & tab' & -> & Hz' & Hc' & H1' & Hok). cbn [mbind option_bind].
  destruct (rejects (option_map _ (change_ok h))) eqn:Er1.
  { eexists _, h3. split; [done|]. split; [done|]. split; [done|]. exists tab3. split; [done|]. right.
    split; [left; auto | done]. }
  clear Er1 HA. destruct (rejects _) eqn:Er2.
  { eexists _, h3. split; [done|]. split; [done|]. split; [done|]. exists tab3. split; [done|]. right.
    split; [right; auto | done]. }
  exists r, h'. split; [done|]. split; [done|]. split; [done|]. exists tab'. split; [done|]. by left.
Qed.

Lemma enter_present d d0 i :
  1 <= i <= hsize h -> holds tab i key d0 -> dup_string d = Some d ->
  exists r h', hsearch_r key (Some d) ENTER h flag = Some (r, h') /\
    changed r h' (<[key := d]> M) (fun tab' => exists i, rv r = Some i /\ holds tab' i key d) (change_ok h <> None) True.
Proof using HR Hkey.
  intros Hi Hh Ed. rewrite (hsearch_hit _ _ _ HR key _ ENTER flag Hkey i d0) by done. unfold overwrite_entry.
  rewrite (rep_table _ _ _ HR). cbn [mbind option_bind].
  destruct (slot_get _ _ _ i HR Hi) as (s & Hs & _). rewrite Hs. cbn [mbind option_bind].
  rewrite (aset_slot _ _ _ HR), Ed by done. cbn [mbind option_bind].
  destruct (overwrite_rep _ _ _ HR key Hkey i d0 d Hi Hh s Hs) as [HR' Hh'].
  destruct (checks_changed (entry s) (Some d) env_op_overwrite (e_callback (entry s)) (Some h)
    (Some (mk_res i (Some i) None, set_table h (<[Z.to_nat i := set_data s (Some d)]> tab)))
    (<[key := d]> M) (fun t => holds t i key d) (change_ok h <> None) True)
    as (r & h' & Hrun & Hz & Hc & tab' & H1 & Hch); [by destruct (change_ok h) | done | | |].
  - exists h, tab. split; [done|]. split; [done|]. split; [by left|done].
  - eexists _, _, _. do 3 (split; [done|]). split; [right; by eexists i, _|]. split; [done|]. split; [simpl; lia|done].
  - exists r, h'. split; [exact Hrun|]. do 2 (split; [done|]). exists tab'. split; [done|].
    destruct Hch as [(He & Hr & HRr & Hh2)|Hch]; [left|by right].
    do 3 (split; [done|]). exists i. split; [|done].
    repeat (destruct (rejects _) in Hrun); simplify_eq/=; done.
Qed.

(** Rolling back an entry that was just made. *)
Lemma rollback d i tab2 f :
  M !! key = None -> 1 <= i <= hsize h -> holds tab2 i key d ->
  Rep (mk_htab (Some tab2) (hsize h) f (change_ok h)) tab2 (<[key := d]> M) ->
  (exists s, tab2 = <[Z.to_nat i := s]> tab) ->
  exists h3 tab3, _hdelete (mk_htab (Some tab2) (hsize h) f (change_ok h)) i = Some h3 /\ Rep h3 tab3 M /\
    one_slot tab3 /\ hsize h3 = hsize h /\ change_ok h3 = change_ok h.
Proof using Type.
  intros HM Hi Hh HR' [s Hs]. unfold _hdelete. simpl. rewrite (aset_slot _ _ _ HR') by done. cbn [mbind option_bind].
  eexists _, (<[Z.to_nat i := mk_slot (-1) (mk_entry None None None 0)]> tab2).
  split; [done|]. split; [|split; [right; subst tab2; rewrite list_insert_insert_eq; by eexists i, _ | done]].
  rewrite <- (delete_insert_id M key d HM).
  by apply (rep_delete _ _ _ HR' i (mk_slot (-1) (mk_entry None None None 0)) Hi key d).
Qed.

(** The permission check and the callback bound to it accept the variable when it is created. *)
Definition accepts_new (ck : option change_t) (d : cstr) : Prop :=
  forall h1 e0, e_callback e0 = None -> e_key e0 = Some key ->
  let e := env_flags_init h1 (env_callback_init h1 e0) in
  rejects (option_map (fun f : change_t => f e (Some d) env_op_create flag) ck) = false /\
  rejects (option_map (fun f : callback_t => f key (Some d) env_op_create flag) (e_callback e)) = false.

Lemma enter_absent d :
  M !! key = None -> (forall i d, 1 <= i <= hsize h -> ~ holds tab i key d) -> has_unused h tab ->
  dup_string key = Some key -> dup_string d = Some d ->
  exists r h', hsearch_r key (Some d) ENTER h flag = Some (r, h') /\
    changed r h' (<[key := d]> M) (fun tab' => exists i, rv r = Some i /\ holds tab' i key d)
      (change_ok h <> None /\ ~ accepts_new (change_ok h) d) (~ accepts_new (change_ok h) d).
Proof using HR Hkey HOk.
  intros HM Hno Hfree Ek Ed. pose proof (rep_size _ _ _ HR) as Hsz.
  destruct (hsearch_miss _ _ _ HR key (Some d) ENTER flag Hkey Hno) as (idx & fd & n & -> & Hspec).
  destruct (Hspec Hfree) as (Hn & Hall & Hidx & Hu).
  pose proof (live_count_unused _ _ _ HR Hfree) as Hc.
  unfold enter_new. rewrite Hidx, (rep_table _ _ _ HR), (rep_filled _ _ _ HR).
  destruct (Z.eqb_spec (live_count tab) (hsize h)); [lia|]. cbn [mbind option_bind].
  pose proof (pos_range (hsize h) ltac:(lia) (first_hash (hsize h) key) n) as Hi.
  set (i := pos (hsize h) (first_hash (hsize h) key) n) in *.
  destruct (slot_get _ _ _ i HR Hi) as (s & Hs & Hus).
  assert (Hclear : e_callback (entry s) = None) by (apply (rep_clear _ _ _ HR i); (lia || done)).
  rewrite Hs. cbn [mbind option_bind]. rewrite Ek, Ed, (aset_slot _ _ _ HR) by done. cbn [mbind option_bind].
  set (t1 := <[Z.to_nat i := _]> tab).
  set (e0 := mk_entry (Some key) (Some d) _ _). assert (He0 : e_callback e0 = None) by done.
  match goal with |- context [env_flags_init ?h _] => set (h1 := h) end. set (e := env_flags_init h1 _).
  assert (Hek : e_key e = Some key) by (unfold e; by rewrite flags_init_key, callback_init_key).
  assert (Hed : e_data e = Some d) by (unfold e; by rewrite flags_init_data, callback_init_data).
  assert (aset t1 i (mk_slot (first_hash (hsize h) key) e) =
    Some (<[Z.to_nat i := mk_slot (first_hash (hsize h) key) e]> tab)) as ->.
  { unfold t1. rewrite aset_Some; [by rewrite list_insert_insert_eq|].
    rewrite length_insert. pose proof (rep_length _ _ _ HR). lia. }
  cbn [mbind option_bind]. rewrite <- (rep_filled _ _ _ HR).
  destruct (enter_rep _ _ _ HR key Hkey d e n Hno Hc Hn Hall Hu Hek Hed) as [HR' Hh'].
  fold i in HR', Hh'. set (tab2 := <[Z.to_nat i := mk_slot _ e]> tab) in *.
  pose proof (rollback d i tab2 _ HM Hi Hh' HR' ltac:(by eexists)) as Hback.
  set (h2 := mk_htab (Some tab2) _ _ _) in *.
  destruct (checks_changed e (Some d) env_op_create (e_callback e) (_hdelete h2 i)
    (Some (mk_res 1 (Some i) None, h2)) (<[key := d]> M) (fun t => holds t i key d)
    (change_ok h <> None /\ ~ accepts_new (change_ok h) d) (~ accepts_new (change_ok h) d))
    as (r & h' & Hrun & Hz & Hck & tab' & H1 & Hch);
    [intros Hrej; split; [by intros E; rewrite E in Hrej | intros Ha; destruct (Ha h1 e0 He0 eq_refl) as [Ha1 _]; unfold e in Hrej; congruence]
    | intros Hrej Ha; destruct (Ha h1 e0 He0 eq_refl) as [_ Ha2]; unfold e in Hrej; congruence | done
    | eexists _, h2, tab2; do 3 (split; [done|]); split; [right; by eexists i, _ | done] |].
  exists r, h'. split; [exact Hrun|]. do 2 (split; [done|]). exists tab'. split; [done|].
  destruct Hch as [(He & Hr & HRr & Hh)|Hch]; [left|by right].
  split; [done|]. split; [done|]. split; [done|]. exists i. split; [|done].
  repeat (destruct (rejects _) in Hrun); destruct (_hdelete h2 i); simplify_eq/=; done.
Qed.

Lemma hdelete_spec :
  exists r h' tab', hdelete_r key h flag = Some (r, h') /\
    match M !! key with
    | None => errno r = Some ESRCH /\ ret r = 0 /\ h' = h
    | Some _ => (ret r = 1 /\ errno r = None /\ Rep h' tab' (delete key M)) \/
        ((errno r = Some EPERM /\ change_ok h <> None \/ errno r = Some EINVAL) /\ ret r = 0 /\ h' = h)
    end.
Proof using HR Hkey.
  unfold hdelete_r. pose proof (hsearch_find None 0) as Hf. destruct (M !! key) as [d|].
  - destruct Hf as (i & Hi & Hh & ->). cbn [mbind option_bind ret]. destruct (Z.eqb_spec i 0); [lia|].
    rewrite (rep_table _ _ _ HR). cbn [mbind option_bind].
    destruct (slot_get _ _ _ i HR Hi) as (s & -> & _). cbn [mbind option_bind].
    destruct (rejects (option_map _ (change_ok h))) eqn:Er1.
    { eexists _, h, tab. split; [done|]. right. split; [left; split; [done|] | done].
      intros E. by rewrite E in Er1. }
    clear Er1. destruct (rejects _); [eexists _, h, tab; split; [done|]; right; by split; [right|]|].
    unfold _hdelete. rewrite (rep_table _ _ _ HR). cbn [mbind option_bind].
    rewrite (aset_slot _ _ _ HR) by done. cbn [mbind option_bind].
    eexists _, _, _. split; [done|]. left. split; [done|]. split; [done|].
    by apply (rep_delete _ _ _ HR i (mk_slot (-1) (mk_entry None None None 0)) Hi key d).
  - rewrite Hf. by eexists _, h, tab.
Qed.
End operations_spec.

(** ** Creation *)

Lemma used_at_empty n i : used_at (replicate n empty_slot) i = 0.
Proof.
  unfold used_at, aget. zcase; [|done]. destruct (_ !! _) as [s|] eqn:E; [|done].
  by apply lookup_replicate in E as [-> _].
Qed.

Lemma rep_empty sz ck :
  Z.prime sz -> 5 <= sz < 2 ^ 31 ->
  let tab := replicate (Z.to_nat (sz + 1)) empty_slot in
  Rep (mk_htab (Some tab) sz 0 ck) tab ∅ /\ has_unused (mk_htab (Some tab) sz 0 ck) tab.
Proof.
  intros Hp Hsz tab.
  assert (Hno : forall i k d, ~ holds tab i k d).
  { intros i k d Hh%holds_used. unfold tab in Hh. rewrite used_at_empty in Hh. lia. }
  split; [split; simpl; try done|].
  - unfold tab. rewrite length_replicate. lia.
  - intros i Hi. left. apply used_at_empty.
  - intros k d. rewrite lookup_empty. split; [done|]. intros (i & _ & Hh). by apply Hno in Hh.
  - intros i j k d d' _ _ Hh. by apply Hno in Hh.
  - intros i s _. unfold tab, aget. zcase; [|done]. by intros [-> _]%lookup_replicate.
  - unfold live_count, tab. replace (Z.to_nat (sz + 1)) with (S (Z.to_nat sz)) by lia. simpl.
    induction (Z.to_nat sz) as [|n IH]; [done|]. simpl. rewrite filter_cons_False; [done|].
    unfold live. simpl. lia.
  - exists 1. simpl. split; [lia|]. apply used_at_empty.
Qed.

(** [hcreate_r] on a table that is not in use gives an empty table of
    prime size, at least the size asked for (any size up to 1024; the
    environment asks for at most 512), with every slot unused; it fails only
    when the memory is not available. *)
Theorem hcreate_correct `{EnvHooks} nel h :
  2 <= nel <= 1024 -> table h = None ->
  exists h', (hcreate_r nel (Some h) = Some (1, Some h') /\ nel <= hsize h' /\
      exists tab, Rep h' tab ∅ /\ has_unused h' tab) \/
    (hcreate_r nel (Some h) = Some (0, Some h') /\ malloc_ok (hsize h' + 1) = false /\ table h' = None).
Proof.
  intros Hn Ht. unfold hcreate_r. rewrite Ht.
  destruct (next_prime_total nel Hn) as (p & Hp & H5). rewrite Hp. cbn [mbind option_bind].
  destruct (next_prime_prime nel p Hn Hp) as (Hpr & Hr & _).
  destruct (malloc_ok (p + 1)) eqn:Em; eexists; [left | right; by split].
  split; [done|]. split; [simpl; lia|]. eexists. apply rep_empty; [done | lia].
Qed.

(** [hsearch_r] with FIND decides membership: for a table that represents
    [M] it returns the slot that holds the key and the value [M] gives it, or
    [ESRCH] when the key is not in [M]; the table does not change.  In
    particular the probe loop terminates. *)
Theorem hsearch_find_correct `{EnvHooks} h tab M key data flag :
  Rep h tab M -> Forall char_ok key ->
  match M !! key with
  | Some d => exists i, 1 <= i <= hsize h /\ holds tab i key d /\
      hsearch_r key data FIND h flag = Some (mk_res i (Some i) None, h)
  | None => hsearch_r key data FIND h flag = Some (mk_res 0 None (Some ESRCH), h)
  end.
Proof. intros HR Hk. by apply (hsearch_find h tab M HR key Hk). Qed.



(** ** How many slots are left *)

Definition unused_count (tab : list _ENTRY) : Z :=
  Z.of_nat (length (filter (fun s => used s = 0) (tail tab))).

Lemma unused_has_unused h tab M : Rep h tab M -> 0 < unused_count tab -> has_unused h tab.
Proof.
  intros HR Hc. unfold unused_count in Hc. pose proof (rep_length _ _ _ HR) as Hl.
  destruct (filter _ (tail tab)) as [|s l] eqn:E; [done|].
  assert (Hs : s ∈ filter (fun s => used s = 0) (tail tab)) by (rewrite E; left).
  apply list_elem_of_filter in Hs as [Hu [i Hi]%list_elem_of_lookup_1].
  rewrite lookup_tail in Hi. pose proof (lookup_lt_Some _ _ _ Hi).
  exists (Z.of_nat (S i)). split; [lia|]. unfold used_at. by rewrite aget_lookup, Nat2Z.id, Hi by lia.
Qed.

Lemma unused_one_slot h tab M tab' :
  Rep h tab M -> one_slot h tab tab' -> unused_count tab - 1 <= unused_count tab'.
Proof.
  intros HR [->|(i & s & Hi & ->)]; [lia|].
  destruct (slot_get _ _ _ i HR Hi) as (s0 & Hs0 & _). unfold unused_count.
  rewrite aget_lookup in Hs0 by lia. destruct tab as [|x t]; [done|].
  replace (Z.to_nat i) with (S (Z.to_nat (i - 1))) in * by lia. simpl in Hs0 |- *.
  rewrite <- (take_drop_middle t _ _ Hs0) at 1.
  rewrite insert_take_drop by (apply lookup_lt_Some in Hs0; done).
  rewrite !list.filter_app, !filter_cons, !length_app.
  destruct (decide _), (decide _); simpl; lia.
Qed.

Lemma unused_empty n : unused_count (replicate (S n) empty_slot) = Z.of_nat n.
Proof.
  unfold unused_count. cbn [replicate tail]. induction n as [|n IH]; [done|]. cbn [replicate].
  rewrite filter_cons_True by done. simpl length. lia.
Qed.

(** ** Concrete runs *)

(** Closes [Forall char_ok] of a literal string. *)
Ltac chars := repeat constructor; unfold char_ok; lia.

(** Hooks under which every allocation succeeds and no variable has attributes. *)
Definition plain_hooks : EnvHooks :=
  {| dup_string s := Some s; malloc_ok _ := true;
     env_callback_init _ e := e; env_flags_init _ e := e |}.

Lemma plain_hooks_ok : EnvHooksOk plain_hooks.
Proof. split; simpl; congruence. Qed.

Definition null_htab : hsearch_data := mk_htab None 0 0 None.

(** A table of size 5 with the variable ["a"] set to ["1"]. *)
Definition table_a : hsearch_data :=
  mk_htab (Some [empty_slot; empty_slot; empty_slot;
    mk_slot 3 (mk_entry (Some [97]) (Some [49]) None 0); empty_slot; empty_slot]) 5 1 None.

Lemma prime_5 : Z.prime 5.
Proof. apply isprime_prime; [lia | by vm_compute..]. Qed.

Lemma table_a_rep : exists tab, Rep table_a tab {[ [97] := [49] ]}.
Proof.
  pose proof plain_hooks_ok. destruct (rep_empty 5 None prime_5 ltac:(lia)) as [HR Hf].
  assert (Hk : Forall char_ok [97]) by chars.
  destruct (@enter_absent plain_hooks _ _ _ _ HR [97] 0 Hk [49]) as (r & h' & Hrun & _ & _ & tab' & _ & Hch);
    try done.
  { intros i d Hi Hh%holds_used. rewrite used_at_empty in Hh. lia. }
  vm_compute in Hrun. injection Hrun as <- <-.
  destruct Hch as [(_ & _ & HR' & _)|([[? _]|[? _]] & _)]; [by exists tab' | done | done].
Qed.

Lemma hcreate_correct_witness :
  exists h', (@hcreate_r plain_hooks 64 (Some null_htab) = Some (1, Some h') /\ 64 <= hsize h' /\
      exists tab, Rep h' tab ∅ /\ has_unused h' tab) \/
    (@hcreate_r plain_hooks 64 (Some null_htab) = Some (0, Some h') /\
       @malloc_ok plain_hooks (hsize h' + 1) = false /\ table h' = None).
Proof. apply (@hcreate_correct plain_hooks 64 null_htab); [lia | reflexivity]. Defined.

Lemma hsearch_find_correct_witness :
  exists tab i, holds tab i [97] [49] /\
    @hsearch_r plain_hooks [97] None FIND table_a 0 = Some (mk_res i (Some i) None, table_a).
Proof.
  destruct table_a_rep as [tab HR].
  destruct (@hsearch_find_correct plain_hooks table_a tab {[ [97] := [49] ]} [97] None 0 HR
    (ltac:(chars) : Forall char_ok [97])) as (i & _ & Hh & Hr).
  by exists tab, i.
Defined.



(** ** What the code does outside these conditions *)

Definition enter_all (l : list (cstr * cstr)) (h : hsearch_data) : option hsearch_data :=
  foldr (fun '(k, d) acc => h ← acc; '(_, h) ← @hsearch_r plain_hooks k (Some d) ENTER h 0; Some h)
    (Some h) (rev l).

Definition table_5 : hsearch_data := mk_htab (Some (replicate 6 empty_slot)) 5 0 None.

(** The outcome of a search for [key]. *)
Definition found (key : cstr) (h : hsearch_data) : option (option Z) :=
  '(r, _) ← @hsearch_r plain_hooks key None FIND h 0; Some (rv r).

(** When every slot has been used once, the search of [hsearch_r] can end at
    the live slot it started from, and the new entry takes that slot although
    another one is free: setting ["k"] here destroys the variable ["a"]. *)
Lemma hsearch_overwrites_live :
  (h ← enter_all [([97], [49]); ([98], [49]); ([99], [49]); ([100], [49]); ([101], [49])] table_5;
   r1 ← found [97] h;
   '(_, h) ← @hdelete_r plain_hooks [98] h 0;
   h ← enter_all [([107], [50])] h;
   r2 ← found [97] h; Some (filled h, r1, r2)) = Some (5, Some 3, None).
Proof. vm_compute. reflexivity. Qed.

(** Hooks whose allocation of the string ["a"] fails. *)
Definition failing_hooks : EnvHooks :=
  {| dup_string s := if bool_decide (s = [97]) then None else Some s; malloc_ok _ := true;
     env_callback_init _ e := e; env_flags_init _ e := e |}.

(** An allocation failure for the key leaves a slot that is marked used and
    has a null key: the next search for that key dereferences it. *)
Lemma hsearch_after_enomem :
  match @hsearch_r failing_hooks [97] (Some [49]) ENTER table_5 0 with
  | Some (r, h) => errno r = Some ENOMEM /\ @hsearch_r failing_hooks [97] None FIND h 0 = None
  | None => False
  end.
Proof. vm_compute. split; reflexivity. Qed.

(** [hmatch_r] stops before the last slot of the table: a variable stored
    there is never listed, although [hsearch_r] finds it. *)
Lemma hmatch_misses_last :
  (h ← enter_all [([97], [49]); ([102], [49]); ([107], [49]); ([112], [49])] table_5;
   r ← found [112] h; m ← hmatch_r [112] 0 h; Some (r, rv m)) = Some (Some 5, None).
Proof. vm_compute. reflexivity. Qed.
