(* ===== verification/HashIO.v ===== *)
(** * HashIO: export and import of the environment ([lib/hashtable.c])

    [hexport_r] linearizes a hash table into ["name=value"] strings,
    [himport_r] parses them back.  Buffers are arrays of bytes; an access
    outside of a buffer is undefined behaviour ([None]).  Output on the
    console is not modelled. *)
From stdpp Require Import gmap.
From Stdlib Require Import Sorted Permutation.
From S2P Require Import Prelude CString Qsort Hashtable.

Definition H_NOCLEAR : Z := Z.shiftl 1 0.
Definition H_HIDE_DOT : Z := Z.shiftl 1 3.
Definition H_MATCH_KEY : Z := Z.shiftl 1 4.
Definition H_MATCH_DATA : Z := Z.shiftl 1 5.
Definition H_MATCH_IDENT : Z := Z.shiftl 1 6.
Definition H_MATCH_SUBSTR : Z := Z.shiftl 1 7.
Definition H_MATCH_REGEX : Z := Z.shiftl 1 8.
Definition H_MATCH_METHOD : Z := Z.lor H_MATCH_IDENT (Z.lor H_MATCH_SUBSTR H_MATCH_REGEX).

Definition CONFIG_ENV_MIN_ENTRIES : Z := 64.
Definition CONFIG_ENV_MAX_ENTRIES : Z := 512.

Definition has_flag (flag bit : Z) : bool := negb (Z.land flag bit =? 0).

(** ** Export *)

Definition cmpkey (e1 e2 : cstr * cstr) : Z := strcmp_l (fst e1) (fst e2).

(** [CONFIG_REGEX] is not set: that method takes the [default] branch. *)
Definition match_string (flag : Z) (str pat : cstr) : bool :=
  let method := Z.land flag H_MATCH_METHOD in
  if method =? H_MATCH_IDENT then strcmp_l str pat =? 0
  else if method =? H_MATCH_SUBSTR then bool_decide (is_Some (find_sub pat str))
  else false.

Fixpoint match_entry (e : cstr * cstr) (flag : Z) (argv : list cstr) : bool :=
  match argv with
  | [] => false
  | arg :: argv =>
      if has_flag flag H_MATCH_KEY && match_string flag (fst e) arg then true
      else if has_flag flag H_MATCH_DATA && match_string flag (snd e) arg then true
      else match_entry e flag argv
  end.

(** The characters that are escaped: the separator and the backslash. *)
Definition needs_escape (sep c : Z) : bool := (c =? sep) || (c =? 92).

(** The length that pass 1 reserves for one entry. *)
Definition entry_len (sep : Z) (e : cstr * cstr) : Z :=
  Z.of_nat (length (fst e)) + 2 +
  (if sep =? 0 then Z.of_nat (length (snd e))
   else foldr (fun c n => (if needs_escape sep c then 2 else 1) + n) 0 (snd e)) + 2.

(** Pass 1: the entries to export, in table order, and the total length. *)
Fixpoint collect (n : nat) (tab : list _ENTRY) (i sep flag : Z) (argv : list cstr)
    : option (list (cstr * cstr) * Z) :=
  match n with
  | O => Some ([], 0)
  | S n =>
      s ← aget tab i;
      if 0 <? used s then
        k ← e_key (entry s);
        d ← e_data (entry s);
        let found := match_entry (k, d) flag argv in
        if (0 <? Z.of_nat (length argv)) && negb found then collect n tab (i + 1) sep flag argv
        else if has_flag flag H_HIDE_DOT && bool_decide (head k = Some 46)
        then collect n tab (i + 1) sep flag argv
        else
          '(l, totlen) ← collect n tab (i + 1) sep flag argv;
          Some ((k, d) :: l, entry_len sep (k, d) + totlen)
      else collect n tab (i + 1) sep flag argv
  end.

(** [*p++ = c] in a buffer of known size. *)
Fixpoint put (res : list Z) (p : Z) (s : list Z) : option (list Z * Z) :=
  match s with
  | [] => Some (res, p)
  | c :: s => res ← aset res p c; put res (p + 1) s
  end.

Fixpoint put_escaped (res : list Z) (p sep : Z) (s : list Z) : option (list Z * Z) :=
  match s with
  | [] => Some (res, p)
  | c :: s =>
      '(res, p) ← if needs_escape sep c then put res p [92] else Some (res, p);
      '(res, p) ← put res p [c];
      put_escaped res p sep s
  end.

(** Pass 2. *)
Fixpoint put_entries (res : list Z) (p sep : Z) (l : list (cstr * cstr)) : option (list Z * Z) :=
  match l with
  | [] => Some (res, p)
  | (k, d) :: l =>
      '(res, p) ← put res p k;
      '(res, p) ← put res p [61];
      '(res, p) ← put_escaped res p sep d;
      '(res, p) ← put res p [sep];
      put_entries res p sep l
  end.

(** A failing call: the return value -1 and [errno]; else the number of bytes
    and the buffer [*resp]. *)
Definition export_result : Type := Z + Z * list Z.

Section io.
Context {H : EnvHooks}.

(** [htab] and [resp] are not null; [*resp] is [None] for a null pointer.
    The entries fit in memory, so that [totlen] does not wrap. *)
Definition hexport_r (h : hsearch_data) (sep flag : Z) (resp : option (list Z)) (size : Z)
    (argv : list cstr) : option export_result :=
  tab ← table h;
  '(l, totlen) ← collect (Z.to_nat (hsize h)) tab 1 sep flag argv;
  l ← qsort cmpkey 4 l (Z.of_nat (length l));
  if negb (size =? 0) && (size <? totlen + 1) then Some (inl ENOMEM)
  else
    let size := if negb (size =? 0) then size else totlen + 1 in
    let fill res :=
      '(res, p) ← put_entries res 0 sep l;
      res ← aset res p 0;
      Some (inr (size, res)) in
    match resp with
    | Some buf =>
        if size <=? Z.of_nat (length buf)
        then fill (replicate (Z.to_nat size) 0 ++ drop (Z.to_nat size) buf) else None
    | None =>
        if malloc_ok size then fill (replicate (Z.to_nat size) 0) else Some (inl ENOMEM)
    end.

(** ** Import *)

(** Removes the variable from the list; [localvars] entries are null ([None])
    once they have been seen. *)
Definition drop_var_from_set (name : cstr) (vars : list (option cstr)) : bool * list (option cstr) :=
  if Z.of_nat (length vars) =? 0 then (true, vars)
  else
    let hit v := match v with Some v => strcmp_l name v =? 0 | None => false end in
    (existsb hit vars, map (fun v => if hit v then None else v) vars).

(** [for(;dp < data + size && *dp; ++dp)]: drops carriage returns before line feeds. *)
Fixpoint strip_cr (fuel : nat) (data : list Z) (size dp ignored_crs : Z) : option (list Z * Z) :=
  match fuel with
  | O => None
  | S fuel =>
      if dp <? size then
        c ← aget data dp;
        if c =? 0 then Some (data, ignored_crs)
        else
          lf ← (if (c =? 13) && (dp <? size - 1)
                then c1 ← aget data (dp + 1); Some (c1 =? 10) else Some false);
          if (lf : bool) then strip_cr fuel data size (dp + 1) (ignored_crs + 1)
          else
            data ← aset data (dp - ignored_crs) c;
            strip_cr fuel data size (dp + 1) ignored_crs
      else Some (data, ignored_crs)
  end.

(** [while (P( *dp)) ++dp;] *)
Fixpoint scan (fuel : nat) (P : Z -> bool) (data : list Z) (dp : Z) : option Z :=
  match fuel with
  | O => None
  | S fuel => c ← aget data dp; if P c then scan fuel P data (dp + 1) else Some dp
  end.

(** The NUL terminated string at index [i] of the buffer. *)
Definition string_at (data : list Z) (i : Z) : option cstr :=
  e ← scan (S (length data)) (fun c => negb (c =? 0)) data i;
  Some (take (Z.to_nat (e - i)) (drop (Z.to_nat i) data)).

(** [for (value = sp = dp; *dp && ( *dp != sep); ++dp)]: removes escapes in place. *)
Fixpoint unescape (fuel : nat) (data : list Z) (sep sp dp : Z) : option (list Z * Z * Z) :=
  match fuel with
  | O => None
  | S fuel =>
      c ← aget data dp;
      if (c =? 0) || (c =? sep) then Some (data, sp, dp)
      else
        skip ← (if c =? 92 then c1 ← aget data (dp + 1); Some (negb (c1 =? 0)) else Some false);
        let dp := if (skip : bool) then dp + 1 else dp in
        c ← aget data dp;
        data ← aset data sp c;
        unescape fuel data sep (sp + 1) (dp + 1)
  end.

(** The variables of the loop of [himport_r]. *)
Record istate := mk_ist { i_data : list Z; i_dp : Z; i_htab : hsearch_data; i_vars : list (option cstr) }.

(** The conditions of the test for entries without a value. *)
Definition no_value (data : list Z) (sep dp : Z) : option bool :=
  c ← aget data dp;
  if c =? 0 then Some true
  else
    c1 ← aget data (dp + 1);
    Some ((c1 =? 0) || (c =? sep) || (c1 =? sep)).

(** The body of the parse loop; [inl] is the early [return 0]. *)
Definition import_entry (sep flag : Z) (st : istate) : option (Z * hsearch_data + istate) :=
  let data := i_data st in
  let h := i_htab st in
  let fuel := S (length data) in
  dp ← scan fuel isblank data (i_dp st);
  c ← aget data dp;
  if c =? 35 then
    dp ← scan fuel (fun c => negb (c =? 0) && negb (c =? sep)) data dp;
    Some (inr (mk_ist data (dp + 1) h (i_vars st)))
  else
    let name := dp in
    dp ← scan fuel (fun c => negb (c =? 61) && negb (c =? 0) && negb (c =? sep)) data dp;
    nv ← no_value data sep dp;
    if (nv : bool) then
      c ← aget data dp;
      '(data, dp) ← (if c =? 61 then data ← aset data dp 0; Some (data, dp + 1) else Some (data, dp));
      data ← aset data dp 0;
      let dp := dp + 1 in
      name ← string_at data name;
      let '(b, vars) := drop_var_from_set name (i_vars st) in
      if b then
        '(_, h) ← hdelete_r name h flag;
        Some (inr (mk_ist data dp h vars))
      else Some (inr (mk_ist data dp h vars))
    else
      data ← aset data dp 0;
      let dp := dp + 1 in
      let value := dp in
      '(data, sp, dp) ← unescape fuel data sep value dp;
      data ← aset data sp 0;
      let dp := dp + 1 in
      n0 ← aget data name;
      if n0 =? 0 then Some (inl (EINVAL, h))
      else
        name ← string_at data name;
        let '(b, vars) := drop_var_from_set name (i_vars st) in
        if b then
          value ← string_at data value;
          '(_, h) ← hsearch_r name (Some value) ENTER h flag;
          Some (inr (mk_ist data dp h vars))
        else Some (inr (mk_ist data dp h vars)).

Fixpoint import_loop (fuel : nat) (sep flag size : Z) (st : istate) : option (Z * hsearch_data + istate) :=
  match fuel with
  | O => None
  | S fuel =>
      r ← import_entry sep flag st;
      match r with
      | inl e => Some (inl e)
      | inr st =>
          if i_dp st <? size then
            c ← aget (i_data st) (i_dp st);
            if negb (c =? 0) then import_loop fuel sep flag size st else Some (inr st)
          else Some (inr st)
      end
  end.

(** The variables that did not occur in the input are deleted. *)
Fixpoint delete_rest (vars : list (option cstr)) (h : hsearch_data) (flag : Z) : option hsearch_data :=
  match vars with
  | [] => Some h
  | None :: vars => delete_rest vars h flag
  | Some v :: vars => '(_, h) ← hdelete_r v h flag; delete_rest vars h flag
  end.

(** The return value, [errno] if it was set, and the table. *)
Definition himport_r (htab : option hsearch_data) (env : list Z) (size sep flag : Z)
    (crlf_is_lf : bool) (vars : list cstr) : option (Z * option Z * option hsearch_data) :=
  match htab with
  | None => Some (0, Some EINVAL, None)
  | Some h =>
      if negb (malloc_ok size) then Some (0, Some ENOMEM, Some h)
      else if Z.of_nat (length env) <? size then None
      else
        let data := take (Z.to_nat size) env in
        let h :=
          if negb (has_flag flag H_NOCLEAR) && bool_decide (is_Some (table h))
          then default h (hdestroy_r (Some h)) else h in
        '(ok, h) ← match table h with
          | None =>
              let nent := CONFIG_ENV_MIN_ENTRIES + size / 8 in
              let nent := if nent >? CONFIG_ENV_MAX_ENTRIES then CONFIG_ENV_MAX_ENTRIES else nent in
              '(r, h') ← hcreate_r nent (Some h);
              Some (r, default h h')
          | Some _ => Some (1, h)
          end;
        if ok =? 0 then Some (0, None, Some h)
        else if size =? 0 then Some (1, None, Some h)
        else
          '(data, size) ← (if crlf_is_lf then
              '(data, n) ← strip_cr (S (length data)) data size 0 0; Some (data, size - n)
            else Some (data, size));
          r ← import_loop (S (length data)) sep flag size (mk_ist data 0 h (map Some vars));
          match r with
          | inl (err, h) => Some (0, Some err, Some h)
          | inr st => h ← delete_rest (i_vars st) (i_htab st) flag; Some (1, None, Some h)
          end
  end.
End io.

(** ** The linear format *)

Definition escape (sep : Z) (v : cstr) : list Z :=
  flat_map (fun c => if needs_escape sep c then [92; c] else [c]) v.

Definition encode_entry (sep : Z) (e : cstr * cstr) : list Z :=
  fst e ++ 61 :: escape sep (snd e) ++ [sep].

Definition encode (sep : Z) (l : list (cstr * cstr)) : list Z := flat_map (encode_entry sep) l.

(** The names and values that the format can represent. *)
Record entry_ok (sep : Z) (e : cstr * cstr) : Prop := {
  ok_key : Forall char_ok (fst e);
  ok_key_chars : Forall (fun c => c <> 61 /\ c <> sep) (fst e);
  ok_key_head : exists c k, fst e = c :: k /\ isblank c = false /\ c <> 35;
  ok_data : Forall char_ok (snd e);
  ok_data_ne : snd e <> [] }.

Definition sep_ok (sep : Z) : Prop := sep <> 92 /\ sep <> 61 /\ 0 <= sep < 256.

(** *** Scanning *)

Lemma aget_skip (l1 l2 : list Z) i j : i = Z.of_nat (length l1) + j -> 0 <= j -> aget (l1 ++ l2) i = aget l2 j.
Proof.
  intros -> Hj. rewrite !aget_lookup by lia. rewrite lookup_app_r by lia. f_equal. lia.
Qed.

Lemma scan_spec fuel P pre s c post dp :
  dp = Z.of_nat (length pre) -> Forall (fun c => P c = true) s -> P c = false -> (length s < fuel)%nat ->
  scan fuel P (pre ++ s ++ c :: post) dp = Some (dp + Z.of_nat (length s)).
Proof.
  revert pre dp fuel. induction s as [|x s IH]; intros pre dp [|fuel] Hdp Hs Hc Hf; simpl in Hf; try lia; cbn [scan].
  - cbn [app]. rewrite aget_mid by done. simpl. rewrite Hc. f_equal. simpl. lia.
  - inversion Hs as [|? ? Hx Hs']; subst. cbn [app]. rewrite aget_mid by done. simpl. rewrite Hx.
    rewrite app_snoc, IH by (done || (rewrite ?length_app; simpl; lia)). f_equal. simpl. lia.
Qed.

Lemma string_at_spec pre s post i :
  i = Z.of_nat (length pre) -> Forall char_ok s -> string_at (pre ++ s ++ 0 :: post) i = Some s.
Proof.
  intros -> Hs. unfold string_at. rewrite scan_spec; [|done| |done|rewrite !length_app; simpl; lia].
  - cbn [mbind option_bind]. f_equal. rewrite Nat2Z.id, drop_app_length. by rewrite take_app_length' by lia.
  - revert Hs. apply Forall_impl. intros c Hc. unfold char_ok in Hc. zcase_on (c =? 0); [lia|done].
Qed.

(** Writing below a non-empty region eats its first element. *)
Lemma aset_region (pre w rest : list Z) i x y :
  i = Z.of_nat (length pre) -> aset (pre ++ (y :: w) ++ rest) i x = Some ((pre ++ [x]) ++ w ++ rest).
Proof. intros ->. cbn [app]. rewrite aset_mid by done. by rewrite <- app_assoc. Qed.

Lemma unescape_spec fuel sep v pre gap post sp dp :
  sep_ok sep -> Forall char_ok v -> sp = Z.of_nat (length pre) -> dp = Z.of_nat (length (pre ++ gap)) ->
  (length v < fuel)%nat ->
  exists gap',
    unescape fuel (pre ++ gap ++ escape sep v ++ sep :: post) sep sp dp =
      Some ((pre ++ v) ++ gap' ++ sep :: post, Z.of_nat (length (pre ++ v)), Z.of_nat (length (pre ++ v ++ gap'))) /\
    length (v ++ gap') = length (gap ++ escape sep v).
Proof.
  intros Hsep Hv. revert pre gap sp dp fuel.
  induction Hv as [|x v Hx Hv IH]; intros pre gap sp dp [|fuel] Hsp Hdp Hf; simpl in Hf; try lia; cbn [unescape].
  - exists gap. cbn [escape flat_map app]. rewrite app_assoc, (aget_mid _ _ dp) by done. cbn [mbind option_bind].
    rewrite Z.eqb_refl, orb_true_r, !app_nil_r, <- app_assoc. by subst.
  - unfold char_ok in Hx. destruct Hsep as (H92 & H61 & Hr). cbn [escape flat_map]. fold (escape sep v).
    rewrite app_assoc. destruct (needs_escape sep x) eqn:En.
    + rewrite <- (app_assoc [92; x]). cbn [app]. rewrite (aget_mid _ _ dp) by done. cbn [mbind option_bind].
      destruct (Z.eqb_spec 92 sep); [lia|]. change (92 =? 0) with false. change (92 =? 92) with true. cbn [orb].
      rewrite (app_snoc (pre ++ gap)), (aget_mid _ _ (dp + 1)) by (rewrite (length_app (pre ++ gap)); simpl; lia).
      cbn [mbind option_bind]. destruct (Z.eqb_spec x 0); [lia|]. cbn [negb mbind option_bind].
      rewrite (aget_mid _ _ (dp + 1)) by (rewrite (length_app (pre ++ gap)); simpl; lia). cbn [mbind option_bind].
      destruct (gap ++ [92; x]) as [|y w] eqn:Ew; [by destruct gap|].
      replace ((pre ++ gap) ++ [92]) with (pre ++ gap ++ [92]) by by rewrite app_assoc.
      replace ((pre ++ gap ++ [92]) ++ x :: escape sep v ++ sep :: post)
        with (pre ++ (y :: w) ++ escape sep v ++ sep :: post) by (rewrite <- Ew, <- !app_assoc; done).
      assert (Hlw : S (length w) = (length gap + 2)%nat).
      { apply (f_equal length) in Ew. rewrite length_app in Ew. simpl in Ew. lia. }
      rewrite aset_region by done. cbn [mbind option_bind].
      destruct (IH (pre ++ [x]) w (sp + 1) (dp + 1 + 1) fuel) as (gap' & -> & Hg); try (rewrite ?length_app in *; simpl; lia).
      exists gap'. split; [rewrite <- !(app_assoc pre [x]); done|].
      cbn [app length]. rewrite ?length_app in *. cbn [length] in *. rewrite ?length_app in *. lia.
    + unfold needs_escape in En. zbool. cbn [app]. rewrite (aget_mid _ _ dp) by done. cbn [mbind option_bind].
      destruct (Z.eqb_spec x 0); [lia|]. destruct (Z.eqb_spec x sep); [lia|]. cbn [orb].
      destruct (Z.eqb_spec x 92); [lia|]. cbn [mbind option_bind].
      rewrite (aget_mid _ _ dp) by done. cbn [mbind option_bind].
      destruct (gap ++ [x]) as [|y w] eqn:Ew; [by destruct gap|].
      replace ((pre ++ gap) ++ x :: escape sep v ++ sep :: post)
        with (pre ++ (y :: w) ++ escape sep v ++ sep :: post) by (rewrite <- Ew, <- !app_assoc; done).
      assert (Hlw : length w = length gap).
      { apply (f_equal length) in Ew. rewrite length_app in Ew. simpl in Ew. lia. }
      rewrite aset_region by done. cbn [mbind option_bind].
      destruct (IH (pre ++ [x]) w (sp + 1) (dp + 1) fuel) as (gap' & -> & Hg); try (rewrite ?length_app in *; simpl; lia).
      exists gap'. split; [rewrite <- !(app_assoc pre [x]); done|].
      cbn [app length]. rewrite ?length_app in *. cbn [length] in *. rewrite ?length_app in *. lia.
Qed.

(** *** One entry *)

Lemma escape_head sep v : sep_ok sep -> Forall char_ok v -> v <> [] ->
  exists c w, escape sep v ++ [sep] = c :: w /\ c <> 0 /\ c <> sep.
Proof.
  intros (H92 & _ & _) Hv Hne. destruct Hv as [|x v Hx Hv]; [done|]. unfold char_ok in Hx. cbn [escape flat_map].
  destruct (needs_escape sep x) eqn:En.
  - eexists _, _. split; [done|]. split; [done | auto].
  - unfold needs_escape in En. zbool. eexists _, _. split; [done|]. lia.
Qed.

Lemma escape_length sep v : (length v <= length (escape sep v))%nat.
Proof.
  induction v as [|x v IH]; [done|]. cbn [escape flat_map]. fold (escape sep v). rewrite length_app.
  destruct (needs_escape _ _); simpl; lia.
Qed.

(** The name of an entry: it starts at [dp] and ends at the equals sign, which a value follows. *)
Lemma name_scan sep fuel pre k v post dp :
  sep_ok sep -> entry_ok sep (k, v) -> dp = Z.of_nat (length pre) -> (length k < fuel)%nat ->
  let data := pre ++ k ++ 61 :: escape sep v ++ sep :: post in
  let eq := Z.of_nat (length (pre ++ k)) in
  scan fuel isblank data dp = Some dp /\
  (exists c, aget data dp = Some c /\ c <> 35) /\
  scan fuel (fun c => negb (c =? 61) && negb (c =? 0) && negb (c =? sep)) data dp = Some eq /\
  no_value data sep eq = Some false.
Proof.
  intros Hsep [Hk Hkc (c0 & k0 & Hk0 & Hbl & Hh) Hv Hvne] Hdp Hf data eq. cbn [fst snd] in *.
  pose proof Hsep as (H92 & H61 & Hr).
  assert (Hd0 : data = pre ++ [] ++ c0 :: k0 ++ 61 :: escape sep v ++ sep :: post) by (unfold data; by rewrite Hk0).
  split; [|split; [|split]].
  - rewrite Hd0, scan_spec by (done || (simpl; lia)). f_equal. simpl. lia.
  - exists c0. split; [|done]. rewrite Hd0. by apply aget_mid.
  - unfold data. rewrite scan_spec; [|done| |done|done].
    + f_equal. unfold eq. rewrite length_app. lia.
    + apply Forall_forall. intros c Hc.
      pose proof (proj1 (Forall_forall _ _) Hk c Hc) as H1. pose proof (proj1 (Forall_forall _ _) Hkc c Hc) as [H2 H3].
      unfold char_ok in H1. destruct (Z.eqb_spec c 61), (Z.eqb_spec c 0), (Z.eqb_spec c sep); (lia || done).
  - destruct (escape_head sep v Hsep Hv Hvne) as (c1 & w & Hw & Hc10 & Hc1s).
    assert (data = (pre ++ k) ++ 61 :: c1 :: w ++ post) as ->.
    { unfold data. replace (c1 :: w ++ post) with ((c1 :: w) ++ post) by done. by rewrite <- Hw, <- !app_assoc. }
    unfold no_value. rewrite (aget_mid _ _ eq) by done. cbn [mbind option_bind].
    change (61 =? 0) with false. cbn iota. rewrite app_snoc, (aget_mid _ _ (eq + 1)) by (rewrite (length_app (pre ++ k)); simpl; lia).
    cbn [mbind option_bind]. f_equal. destruct (Z.eqb_spec c1 0), (Z.eqb_spec 61 sep), (Z.eqb_spec c1 sep); (lia || done).
Qed.

Section import.
Context {HH : EnvHooks} {HOk : EnvHooksOk HH}.

(** The loop body reads one entry and enters it; what follows the entry in the
    buffer is untouched. *)
Lemma import_entry_spec sep flag pre k v post dp h r h' :
  sep_ok sep -> entry_ok sep (k, v) -> dp = Z.of_nat (length pre) ->
  hsearch_r k (Some v) ENTER h flag = Some (r, h') ->
  exists pre', length pre' = length (pre ++ encode_entry sep (k, v)) /\
    import_entry sep flag (mk_ist (pre ++ encode_entry sep (k, v) ++ post) dp h []) =
      Some (inr (mk_ist (pre' ++ post) (Z.of_nat (length pre')) h' [])).
Proof using Type.
  intros Hsep Hok Hdp Hrun. pose proof Hok as [Hk _ (c0 & k0 & Hk0 & _) Hv _]. cbn [fst snd] in *.
  unfold import_entry. cbn [i_data i_dp i_htab i_vars].
  replace (pre ++ encode_entry sep (k, v) ++ post) with (pre ++ k ++ 61 :: escape sep v ++ sep :: post)
    by (unfold encode_entry; cbn [fst snd]; by rewrite <- !app_assoc; cbn [app]; rewrite <- !app_assoc).
  set (fuel := S (length _)).
  assert (Hfuel : (length pre + length k + length (escape sep v) + 2 < fuel)%nat).
  { unfold fuel. rewrite !length_app. cbn [length]. rewrite !length_app. cbn [length]. lia. }
  destruct (name_scan sep fuel pre k v post dp Hsep Hok Hdp ltac:(lia)) as (-> & (c & Hc & Hc35) & Hs2 & Hnv).
  cbn [mbind option_bind]. rewrite Hc. cbn [mbind option_bind]. destruct (Z.eqb_spec c 35); [done|].
  rewrite Hs2. cbn [mbind option_bind]. rewrite Hnv. cbn [mbind option_bind].
  rewrite app_assoc, aset_mid by done. cbn [mbind option_bind]. rewrite (app_snoc (pre ++ k)).
  destruct (unescape_spec fuel sep v ((pre ++ k) ++ [0]) [] post (Z.of_nat (length (pre ++ k)) + 1)
    (Z.of_nat (length (pre ++ k)) + 1)) as (gap & Hun & Hgl); try done.
  { rewrite (length_app (pre ++ k)). simpl. lia. }
  { rewrite app_nil_r, (length_app (pre ++ k)). simpl. lia. }
  { pose proof (escape_length sep v). lia. }
  cbn [app] in Hun. rewrite Hun. cbn [mbind option_bind].
  destruct (gap ++ [sep]) as [|y u] eqn:Eu; [by destruct gap|].
  replace (gap ++ sep :: post) with ((y :: u) ++ post) by (rewrite <- Eu, <- app_assoc; done).
  rewrite aset_region by done. cbn [mbind option_bind].
  remember ((((pre ++ k) ++ [0]) ++ v) ++ [0]) as fin eqn:Efin.
  assert (Hf1 : fin ++ u ++ post = pre ++ k ++ 0 :: (v ++ 0 :: u ++ post)) by (rewrite Efin; by rewrite <- !app_assoc).
  assert (Hf2 : fin ++ u ++ post = ((pre ++ k) ++ [0]) ++ v ++ 0 :: (u ++ post)) by (rewrite Efin; by rewrite <- !app_assoc).
  assert (aget (fin ++ u ++ post) dp = Some c0) as ->.
  { rewrite Hf1, Hk0. cbn [app]. by rewrite aget_mid. }
  cbn [mbind option_bind].
  assert (c0 <> 0) by (rewrite Hk0 in Hk; inversion Hk as [|? ? Hx]; unfold char_ok in Hx; lia).
  destruct (Z.eqb_spec c0 0) as [|_]; [done|].
  assert (string_at (fin ++ u ++ post) dp = Some k) as -> by (rewrite Hf1; by apply string_at_spec).
  cbn [mbind option_bind].
  change (drop_var_from_set k []) with (true, @nil (option cstr)). cbn iota beta.
  assert (string_at (fin ++ u ++ post) (Z.of_nat (length (pre ++ k)) + 1) = Some v) as ->.
  { rewrite Hf2. apply string_at_spec; [|done]. rewrite (length_app (pre ++ k)). simpl. lia. }
  cbn [mbind option_bind]. rewrite Hrun. cbn [mbind option_bind].
  apply (f_equal length) in Eu. rewrite length_app in Eu. simpl in Eu.
  exists (fin ++ u). subst fin. rewrite !length_app in *. cbn [length] in *. rewrite ?length_app in *.
  split; [unfold encode_entry; cbn [fst snd]; rewrite length_app; cbn [length]; rewrite length_app; simpl; lia|].
  rewrite app_assoc. do 3 f_equal. cbn [length]. lia.
Qed.

(** *** All entries *)

(** Nothing stands in the way of entering the list [L]: copies can be made,
    and the permission check and the callbacks accept every variable. *)
Record permissive (ck : option change_t) (flag : Z) (L : list (cstr * cstr)) : Prop := {
  p_dup : forall s, dup_string s <> None;
  p_accept : Forall (fun e => accepts_new (fst e) flag ck (snd e)) L }.

Lemma dup_total s : (forall s, dup_string s <> None) -> dup_string s = Some s.
Proof using HOk.
  intros Hd. destruct (dup_string s) as [s'|] eqn:E; [|by destruct (Hd s)].
  by rewrite (dup_string_copies _ _ E).
Qed.

Lemma enter_permissive h tab M k v flag :
  Rep h tab M -> (forall s, dup_string s <> None) -> accepts_new k flag (change_ok h) v ->
  Forall char_ok k -> M !! k = None -> 0 < unused_count tab ->
  exists r h' tab', hsearch_r k (Some v) ENTER h flag = Some (r, h') /\ Rep h' tab' (<[k := v]> M) /\
    change_ok h' = change_ok h /\ hsize h' = hsize h /\ unused_count tab - 1 <= unused_count tab'.
Proof using HOk.
  intros HR Hd Ha Hk HM Hu.
  assert (Hno : forall i d, 1 <= i <= hsize h -> ~ holds tab i k d).
  { intros i d Hi Hh. assert (M !! k = Some d) by (apply (rep_map _ _ _ HR); eauto). congruence. }
  destruct (enter_absent h tab M HR k flag Hk v HM Hno) as (r & h' & Hrun & Hz & Hck & tab' & H1 & Hch);
    [by eapply unused_has_unused | by apply dup_total.. |].
  exists r, h', tab'. split; [done|].
  destruct Hch as [(_ & _ & HR' & _)|([[_ [_ ?]]|[_ ?]] & _)]; [|done..].
  split; [done|]. split; [done|]. split; [done|]. by eapply unused_one_slot.
Qed.

Lemma import_loop_spec sep flag size L : forall fuel pre post dp h tab M,
  sep_ok sep -> Forall (entry_ok sep) L -> L <> [] -> NoDup (L.*1) -> (forall e, e ∈ L -> M !! e.1 = None) ->
  dp = Z.of_nat (length pre) ->
  Z.of_nat (length (pre ++ encode sep L)) <= size <= Z.of_nat (length (pre ++ encode sep L ++ 0 :: post)) ->
  (length L <= fuel)%nat ->
  Rep h tab M -> permissive (change_ok h) flag L -> Z.of_nat (length L) <= unused_count tab ->
  exists data' dp' h' tab',
    import_loop fuel sep flag size (mk_ist (pre ++ encode sep L ++ 0 :: post) dp h []) =
      Some (inr (mk_ist data' dp' h' [])) /\ Rep h' tab' (list_to_map L ∪ M) /\ hsize h' = hsize h.
Proof using HOk.
  induction L as [|[k v] L IH]; intros fuel pre post dp h tab M Hsep Hok Hne Hnd Hfresh Hdp Hsz Hf HR Hp Hu; [done|].
  destruct fuel as [|fuel]; [simpl in Hf; lia|]. cbn [import_loop].
  inversion Hok as [|? ? Hkv HL]; subst. cbn [length] in Hu.
  rewrite fmap_cons in Hnd. apply list.NoDup_cons in Hnd as [Hnin Hnd]. cbn [fst] in Hnin.
  destruct (enter_permissive h tab M k v flag) as (r & h1 & tab1 & Hrun & HR1 & Hp1 & Hz1 & Hu1); try done.
  { apply Hp. } { by apply (Forall_inv (p_accept _ _ _ Hp)). }
  { apply (ok_key _ _ Hkv). } { apply (Hfresh (k, v)). left. } { lia. }
  destruct (import_entry_spec sep flag pre k v (encode sep L ++ 0 :: post) (Z.of_nat (length pre)) h r h1)
    as (pre' & Hpl & Hent); try done.
  cbn [encode flat_map]. fold (encode sep L). rewrite <- (app_assoc (encode_entry _ _)), Hent.
  cbn [mbind option_bind i_dp i_data].
  cbn [encode flat_map] in Hsz. fold (encode sep L) in Hsz.
  assert (Hlk : (list_to_map L : gmap cstr cstr) !! k = None) by by apply not_elem_of_list_to_map_1.
  assert (list_to_map ((k, v) :: L) ∪ M = list_to_map L ∪ <[k:=v]> M) as ->
    by by rewrite list_to_map_cons, <- insert_union_l, insert_union_r.
  destruct L as [|[k2 v2] L'] eqn:EL.
  - cbn [encode flat_map app] in *. rewrite app_nil_r in Hsz. rewrite !length_app in Hsz. cbn [length] in Hsz.
    rewrite length_app in Hpl. rewrite aget_mid by done. cbn [mbind option_bind].
    change (negb (0 =? 0)) with false. cbn iota. rewrite list_to_map_nil, (left_id_L ∅ (∪)).
    zcase; by eexists _, _, _, _.
  - rewrite <- EL in *. assert (Hk2 : entry_ok sep (k2, v2)) by (rewrite EL in HL; by inversion HL).
    destruct (ok_key_head _ _ Hk2) as (c & k2' & Hc & _). cbn [fst] in Hc.
    assert (Hc0 : char_ok c) by (pose proof (ok_key _ _ Hk2) as Hx; cbn [fst] in Hx; rewrite Hc in Hx; by inversion Hx).
    unfold char_ok in Hc0.
    assert (Hget : aget (pre' ++ encode sep L ++ 0 :: post) (Z.of_nat (length pre')) = Some c).
    { rewrite EL, Hc. unfold encode, encode_entry. cbn [flat_map fst]. cbn [app]. by rewrite aget_mid. }
    repeat rewrite length_app in Hsz. rewrite length_app in Hpl.
    assert (0 < Z.of_nat (length (encode sep L))).
    { rewrite EL, Hc. unfold encode, encode_entry. cbn [flat_map fst]. simpl. lia. }
    destruct (Z.ltb_spec (Z.of_nat (length pre')) size); [|lia].
    rewrite Hget. cbn [mbind option_bind]. destruct (Z.eqb_spec c 0); [lia|]. cbn [negb].
    destruct (IH fuel pre' post (Z.of_nat (length pre')) h1 tab1 (<[k:=v]> M)) as (d' & dp' & h' & tab' & Hl & HR' & Hz');
      try done; try lia.
    + by rewrite EL.
    + intros e He. rewrite lookup_insert_ne; [apply Hfresh; by right|]. intros ->. apply Hnin. by apply list_elem_of_fmap_2.
    + rewrite !length_app. cbn [length] in *. lia.
    + simpl in Hf. lia.
    + rewrite Hp1. split; [apply Hp | exact (Forall_inv_tail (p_accept _ _ _ Hp))].
    + rewrite Hl. eexists _, _, _, _. split; [done|]. split; [done|congruence].
Qed.
End import.

(** ** Export *)

(** The total length that pass 1 computes. *)
Definition total_len (sep : Z) (l : list (cstr * cstr)) : Z :=
  foldr (fun e n => entry_len sep e + n) 0 l.

Lemma total_len_perm sep l l' : Permutation l l' -> total_len sep l = total_len sep l'.
Proof. induction 1; simpl; lia. Qed.

(** Pass 1 of a full export collects every entry once. *)
Lemma collect_spec h tab M sep flag n : forall i,
  Rep h tab M -> has_flag flag H_HIDE_DOT = false -> 1 <= i -> i + Z.of_nat n = hsize h + 1 ->
  exists l, collect n tab i sep flag [] = Some (l, total_len sep l) /\
    (forall k d, (k, d) ∈ l <-> exists j, i <= j <= hsize h /\ holds tab j k d) /\ NoDup (l.*1).
Proof.
  induction n as [|n IH]; intros i HR Hdot Hi Hn; cbn [collect].
  - exists []. split; [done|]. split; [|constructor]. intros k d. rewrite elem_of_nil.
    split; [done|]. intros (j & Hj & _). lia.
  - destruct (slot_get _ _ _ i HR ltac:(lia)) as (s & Hs & Hu). rewrite Hs. cbn [mbind option_bind].
    destruct (IH (i + 1) HR Hdot) as (l & Hl & Hin & Hnd); [lia..|].
    destruct (Z.ltb_spec 0 (used s)) as [Hlive|Hdead].
    + destruct (rep_slots _ _ _ HR i ltac:(lia)) as [E|[E|(k & d & n' & Hh & _)]]; [lia | lia |].
      pose proof Hh as (s' & Hs' & _ & Hk & Hd). assert (s' = s) as -> by congruence.
      rewrite Hk, Hd. cbn [mbind option_bind]. change (0 <? Z.of_nat (length (@nil cstr))) with false.
      cbn [andb]. rewrite Hdot. cbn [andb]. rewrite Hl. cbn [mbind option_bind].
      exists ((k, d) :: l). split; [done|]. split.
      * intros k' d'. rewrite elem_of_cons, Hin. split.
        -- intros [[= -> ->]|(j & Hj & Hh')]; [exists i | exists j]; (split; [lia|done]).
        -- intros (j & Hj & Hh'). destruct (Z.eq_dec j i) as [->|]; [left|right; exists j; split; [lia|done]].
           by destruct (holds_fun _ _ _ _ _ _ Hh Hh') as [-> ->].
      * rewrite fmap_cons. apply list.NoDup_cons. split; [|done]. cbn [fst].
        intros ([k' d'] & -> & (j & Hj & Hh')%Hin)%list_elem_of_fmap. cbn [fst] in Hh.
        assert (j = i) by (apply (rep_inj _ _ _ HR _ _ k' d' d); (lia || done)). lia.
    + rewrite Hl. exists l. split; [done|]. split; [|done]. intros k d. rewrite Hin.
      split; intros (j & Hj & Hh'); exists j; (split; [|done]); [lia|].
      destruct (Z.eq_dec j i) as [->|]; [|lia]. apply holds_used in Hh'. lia.
Qed.

(** Writing into a buffer whose rest is [gap]. *)
Lemma put_spec s : forall pre gap p,
  p = Z.of_nat (length pre) -> (length s <= length gap)%nat ->
  put (pre ++ gap) p s = Some ((pre ++ s) ++ drop (length s) gap, Z.of_nat (length (pre ++ s))).
Proof.
  induction s as [|c s IH]; intros pre gap p Hp Hl; cbn [put].
  - rewrite app_nil_r. subst. done.
  - destruct gap as [|g gap]; [simpl in Hl; lia|]. rewrite aset_mid by done. cbn [mbind option_bind].
    rewrite app_snoc, IH by (rewrite ?length_app; simpl in *; lia). cbn [length drop].
    by rewrite <- !(app_assoc pre [c] s).
Qed.

Lemma put_escaped_spec sep s : forall pre gap p,
  p = Z.of_nat (length pre) -> (length (escape sep s) <= length gap)%nat ->
  put_escaped (pre ++ gap) p sep s =
    Some ((pre ++ escape sep s) ++ drop (length (escape sep s)) gap, Z.of_nat (length (pre ++ escape sep s))).
Proof.
  induction s as [|c s IH]; intros pre gap p Hp Hl; cbn [put_escaped].
  - change (escape sep []) with (@nil Z). rewrite app_nil_r. subst. done.
  - change (escape sep (c :: s)) with ((if needs_escape sep c then [92; c] else [c]) ++ escape sep s) in *.
    rewrite length_app in *. destruct (needs_escape sep c); cbn [length] in *.
    + rewrite put_spec by (simpl; lia). cbn [mbind option_bind]. rewrite put_spec by (rewrite ?length_drop; simpl; lia).
      cbn [mbind option_bind]. rewrite !drop_drop, IH by (rewrite ?length_drop; simpl; lia).
      rewrite drop_drop, <- !app_assoc. done.
    + cbn [mbind option_bind]. rewrite put_spec by (simpl; lia). cbn [mbind option_bind].
      rewrite IH by (rewrite ?length_drop; simpl; lia). rewrite drop_drop, <- !app_assoc. done.
Qed.

Lemma put_entries_spec sep l : forall pre gap p,
  p = Z.of_nat (length pre) -> (length (encode sep l) <= length gap)%nat ->
  put_entries (pre ++ gap) p sep l =
    Some ((pre ++ encode sep l) ++ drop (length (encode sep l)) gap, Z.of_nat (length (pre ++ encode sep l))).
Proof.
  induction l as [|[k d] l IH]; intros pre gap p Hp Hl; cbn [put_entries].
  - change (encode sep []) with (@nil Z). rewrite app_nil_r. subst. done.
  - change (encode sep ((k, d) :: l)) with ((k ++ [61] ++ escape sep d ++ [sep]) ++ encode sep l) in *.
    rewrite !length_app in Hl. cbn [length] in Hl.
    rewrite put_spec by lia. cbn [mbind option_bind].
    rewrite put_spec by (rewrite ?length_drop; simpl; lia). cbn [mbind option_bind].
    rewrite put_escaped_spec by (rewrite ?length_drop; simpl; lia). cbn [mbind option_bind].
    rewrite put_spec by (rewrite ?length_drop; simpl; lia). cbn [mbind option_bind].
    rewrite IH by (rewrite ?length_drop; simpl; lia).
    rewrite !drop_drop, !length_app, <- !app_assoc. cbn [length]. do 2 f_equal; [|rewrite ?length_app; cbn [length]; rewrite ?length_app; f_equal; lia].
    do 5 f_equal. f_equal. f_equal. lia.
Qed.

(** With separator NUL the reserved length does not account for escaped backslashes. *)
Definition no_backslash_if_nul (sep : Z) (e : cstr * cstr) : Prop := sep = 0 -> 92 ∉ snd e.

Lemma entry_len_spec sep e :
  Forall char_ok (snd e) -> no_backslash_if_nul sep e ->
  entry_len sep e = Z.of_nat (length (encode_entry sep e)) + 2.
Proof.
  destruct e as [k d]. unfold entry_len, encode_entry. cbn [fst snd]. intros Hd Hnb.
  repeat (rewrite length_app; cbn [length]).
  assert (Hlen : (if sep =? 0 then Z.of_nat (length d)
    else foldr (fun c n => (if needs_escape sep c then 2 else 1) + n) 0 d) = Z.of_nat (length (escape sep d))).
  2:{ rewrite Hlen. lia. }
  unfold no_backslash_if_nul in Hnb. cbn [snd] in *.
  induction Hd as [|c d Hc Hd IH]; [by zcase|].
  change (escape sep (c :: d)) with ((if needs_escape sep c then [92; c] else [c]) ++ escape sep d).
  rewrite length_app. assert (Hnb' : sep = 0 -> 92 ∉ d) by (intros ->; specialize (Hnb eq_refl); set_solver).
  specialize (IH Hnb'). unfold char_ok in Hc. cbn [length foldr].
  destruct (Z.eqb_spec sep 0) as [->|Hs]; [|destruct (needs_escape sep c); cbn [length]; lia].
  assert (needs_escape 0 c = false) as ->; [|simpl; lia].
  unfold needs_escape. specialize (Hnb eq_refl).
  destruct (Z.eqb_spec c 0); [lia|]. destruct (Z.eqb_spec c 92) as [->|]; [|done]. by destruct Hnb; left.
Qed.

Lemma total_len_spec sep l :
  Forall (fun e => Forall char_ok (snd e) /\ no_backslash_if_nul sep e) l ->
  total_len sep l = Z.of_nat (length (encode sep l)) + 2 * Z.of_nat (length l).
Proof.
  induction 1 as [|e l [Hd Hn] Hl IH]; [done|]. cbn [total_len foldr encode flat_map]. fold (total_len sep l).
  fold (encode sep l). rewrite length_app, IH, entry_len_spec by done. cbn [length]. lia.
Qed.

(** *** Order of the names *)

#[global] Instance ascii7_dec c : Decision (ascii7 c).
Proof. unfold ascii7. apply _. Defined.

Lemma ascii7_char_ok s : Forall ascii7 s -> Forall char_ok s.
Proof. apply Forall_impl. unfold ascii7, char_ok. lia. Qed.

Definition key_le (a b : cstr * cstr) : Prop := fst a = fst b \/ lex_lt (fst a) (fst b).

Lemma cmpkey_le a b : Forall ascii7 (fst a) -> Forall ascii7 (fst b) -> cmpkey a b <= 0 <-> key_le a b.
Proof.
  intros Ha Hb. unfold cmpkey, key_le. rewrite <- (strcmp_l_lt _ _ Ha Hb).
  rewrite <- (strcmp_l_eq _ _ (ascii7_char_ok _ Ha) (ascii7_char_ok _ Hb)). lia.
Qed.

Lemma cmpkey_sorts (l : list (cstr * cstr)) :
  Forall (fun e => Forall ascii7 (fst e)) l ->
  exists l', qsort cmpkey 4 l (Z.of_nat (length l)) = Some l' /\ Permutation l l' /\ StronglySorted key_le l'.
Proof.
  intros Hl.
  destruct (qsort_spec_on (fun e : cstr * cstr => Forall ascii7 (fst e)) cmpkey 4 l) as (l' & Hq & Hp & Hs);
    [lia | done | | |].
  - intros x y Hx Hy Hxy. rewrite cmpkey_le by done.
    assert (Hn : ~ key_le x y) by (rewrite <- cmpkey_le by done; lia). unfold key_le in *.
    destruct (lex_lt_trichotomy (fst x) (fst y)) as [?|[?|?]]; tauto.
  - intros x y z Hx Hy Hz. rewrite !cmpkey_le by done. unfold key_le. intros [->|?] [E|?]; rewrite <- ?E; auto.
    right. by eapply lex_lt_trans.
  - exists l'. split; [done|]. split; [done|]. assert (Hl' : Forall (fun e => Forall ascii7 (fst e)) l') by by rewrite <- Hp.
    clear Hq Hp. induction Hs as [|x l' Hs IH Hx]; [constructor|]. inversion Hl' as [|? ? Hx' Hl'']; subst.
    constructor; [by apply IH|]. rewrite Forall_forall in Hx, Hl'' |- *. intros y Hy.
    apply cmpkey_le; [done | by apply Hl'' | by apply Hx].
Qed.

Lemma replicate_cons_drop n m (x : Z) : (m < n)%nat -> drop m (replicate n x) = x :: replicate (n - S m) x.
Proof. intros H. rewrite drop_replicate. by replace (n - m)%nat with (S (n - S m)) by lia. Qed.

(** The two passes before the output: what is exported, and the length reserved for it. *)
Lemma hexport_list h tab M sep flag :
  Rep h tab M -> has_flag flag H_HIDE_DOT = false ->
  map_Forall (fun k d => Forall ascii7 k /\ Forall char_ok d /\ no_backslash_if_nul sep (k, d)) M ->
  exists l L, collect (Z.to_nat (hsize h)) tab 1 sep flag [] =
      Some (l, Z.of_nat (length (encode sep L)) + 2 * Z.of_nat (length L)) /\
    qsort cmpkey 4 l (Z.of_nat (length l)) = Some L /\
    list_to_map L = M /\ NoDup (L.*1) /\ StronglySorted key_le L.
Proof.
  intros HR Hdot HM. pose proof (rep_size _ _ _ HR) as Hsz.
  destruct (collect_spec h tab M sep flag (Z.to_nat (hsize h)) 1 HR Hdot) as (l & Hl & Hin & Hnd); [lia..|].
  assert (HinM : forall k d, (k, d) ∈ l <-> M !! k = Some d) by (intros; rewrite Hin; symmetry; apply (rep_map _ _ _ HR)).
  assert (HlM : Forall (fun e => Forall ascii7 (fst e) /\ Forall char_ok (snd e) /\ no_backslash_if_nul sep e) l).
  { apply Forall_forall. intros [k d] Hkd%list_elem_of_In%HinM. by apply HM. }
  destruct (cmpkey_sorts l) as (L & Hq & Hp & Hs).
  { revert HlM. apply Forall_impl. tauto. }
  assert (HLM : Forall (fun e => Forall char_ok (snd e) /\ no_backslash_if_nul sep e) L).
  { rewrite <- Hp. revert HlM. apply Forall_impl. tauto. }
  pose proof (total_len_spec sep L HLM) as Htl. rewrite <- (total_len_perm sep _ _ Hp) in Htl.
  exists l, L. rewrite Hl, Htl. split_and!; [done..| |by rewrite <- Hp|done].
  apply map_eq. intros k. apply option_eq. intros d. rewrite <- HinM, Hp.
  rewrite elem_of_list_to_map; [done|]. by rewrite <- Hp.
Qed.

(** The output of the entries into a buffer of zeros that is large enough. *)
Lemma hexport_fill sep L sz rest :
  (length (encode sep L) < sz)%nat ->
  ('(res, p) ← put_entries (replicate sz 0 ++ rest) 0 sep L; aset res p 0) =
    Some (encode sep L ++ replicate (sz - length (encode sep L)) 0 ++ rest).
Proof.
  intros Hsz. rewrite (put_entries_spec sep L [] (replicate sz 0 ++ rest)) by (rewrite ?length_app, ?length_replicate; simpl; lia).
  cbn [mbind option_bind app]. rewrite drop_app_le by (rewrite length_replicate; lia).
  rewrite replicate_cons_drop by lia. cbn [app]. rewrite aset_mid by done.
  by replace (sz - length (encode sep L))%nat with (S (sz - S (length (encode sep L)))) by lia.
Qed.

(** Export of the whole table into a new buffer. *)
Lemma hexport_spec `{EnvHooks} h tab M sep flag :
  Rep h tab M -> has_flag flag H_HIDE_DOT = false -> (forall n, malloc_ok n = true) ->
  map_Forall (fun k d => Forall ascii7 k /\ Forall char_ok d /\ no_backslash_if_nul sep (k, d)) M ->
  exists L n, hexport_r h sep flag None 0 [] =
      Some (inr (Z.of_nat (length (encode sep L ++ replicate (S n) 0)), encode sep L ++ replicate (S n) 0)) /\
    list_to_map L = M /\ NoDup (L.*1) /\ StronglySorted key_le L /\ n = (2 * length L)%nat.
Proof.
  intros HR Hdot Hm HM. destruct (hexport_list h tab M sep flag HR Hdot HM) as (l & L & Hl & Hq & HL & Hnd & Hs).
  exists L, (2 * length L)%nat. unfold hexport_r. rewrite (rep_table _ _ _ HR). cbn [mbind option_bind].
  rewrite Hl. cbn [mbind option_bind]. rewrite Hq. cbn [mbind option_bind].
  change (0 =? 0) with true. cbn [negb andb]. rewrite Hm. set (sz := Z.to_nat _).
  pose proof (hexport_fill sep L sz [] ltac:(lia)) as Hf. rewrite app_nil_r in Hf.
  destruct (put_entries (replicate sz 0) 0 sep L) as [[res p]|]; [|done]. cbn [mbind option_bind] in *. rewrite Hf.
  cbn [mbind option_bind]. rewrite app_nil_r. replace (sz - length (encode sep L))%nat with (S (2 * length L)) by lia.
  split; [|done]. do 3 f_equal. rewrite length_app, length_replicate. lia.
Qed.

(** Export of the whole table into a buffer of the caller: it fails exactly
    when the buffer does not have room for the reserved length. *)
Lemma hexport_into `{EnvHooks} h tab M sep flag buf sz :
  Rep h tab M -> has_flag flag H_HIDE_DOT = false -> 0 < sz <= Z.of_nat (length buf) ->
  map_Forall (fun k d => Forall ascii7 k /\ Forall char_ok d /\ no_backslash_if_nul sep (k, d)) M ->
  exists L, list_to_map L = M /\ NoDup (L.*1) /\ StronglySorted key_le L /\
    hexport_r h sep flag (Some buf) sz [] =
      (if sz <? Z.of_nat (length (encode sep L)) + 2 * Z.of_nat (length L) + 1 then Some (inl ENOMEM)
       else Some (inr (sz, encode sep L ++ replicate (Z.to_nat sz - length (encode sep L)) 0 ++ drop (Z.to_nat sz) buf))).
Proof.
  intros HR Hdot Hsz HM. destruct (hexport_list h tab M sep flag HR Hdot HM) as (l & L & Hl & Hq & HL & Hnd & Hs).
  exists L. split_and!; [done..|]. unfold hexport_r. rewrite (rep_table _ _ _ HR). cbn [mbind option_bind].
  rewrite Hl. cbn [mbind option_bind]. rewrite Hq. cbn [mbind option_bind].
  destruct (Z.eqb_spec sz 0); [lia|]. cbn [negb andb].
  destruct (Z.ltb_spec sz (Z.of_nat (length (encode sep L)) + 2 * Z.of_nat (length L) + 1)); [done|].
  destruct (Z.leb_spec sz (Z.of_nat (length buf))); [|lia].
  pose proof (hexport_fill sep L (Z.to_nat sz) (drop (Z.to_nat sz) buf) ltac:(lia)) as Hf.
  destruct (put_entries _ 0 sep L) as [[res p]|]; [|done]. cbn [mbind option_bind] in *. by rewrite Hf.
Qed.

(** ** Import into a new table *)

Section fresh.
Context {HH : EnvHooks} {HOk : EnvHooksOk HH}.

Lemma hcreate_fresh nel h :
  2 <= nel <= 1024 -> table h = None -> (forall n, malloc_ok n = true) ->
  exists h' tab, hcreate_r nel (Some h) = Some (1, Some h') /\ Rep h' tab ∅ /\ nel <= hsize h' /\
    change_ok h' = change_ok h /\ unused_count tab = hsize h'.
Proof using Type.
  intros Hn Ht Hm. unfold hcreate_r. rewrite Ht.
  destruct (next_prime_total nel Hn) as (p & Hp & H5). rewrite Hp. cbn [mbind option_bind].
  destruct (next_prime_prime nel p Hn Hp) as (Hpr & Hr & _). rewrite Hm.
  eexists _, _. split; [done|]. split; [apply rep_empty; [done|lia]|]. cbn [hsize change_ok]. split; [lia|].
  split; [done|]. replace (Z.to_nat (p + 1)) with (S (Z.to_nat p)) by lia. rewrite unused_empty. lia.
Qed.

(** The number of entries the new table is made for. *)
Definition import_entries (size : Z) : Z :=
  Z.min (CONFIG_ENV_MIN_ENTRIES + size / 8) CONFIG_ENV_MAX_ENTRIES.

Lemma himport_spec h sep flag L post size :
  sep_ok sep -> Forall (entry_ok sep) L -> L <> [] -> NoDup (L.*1) ->
  permissive (change_ok h) flag L -> (forall n, malloc_ok n = true) -> has_flag flag H_NOCLEAR = false ->
  Z.of_nat (length (encode sep L)) < size <= Z.of_nat (length (encode sep L ++ 0 :: post)) ->
  Z.of_nat (length L) <= import_entries size ->
  exists h' tab', himport_r (Some h) (encode sep L ++ 0 :: post) size sep flag false [] =
      Some (1, None, Some h') /\ Rep h' tab' (list_to_map L).
Proof using HOk.
  intros Hsep Hok Hne Hnd Hp Hm Hfl Hsz Hn. unfold himport_r. rewrite Hm. cbn [negb].
  destruct (Z.ltb_spec (Z.of_nat (length (encode sep L ++ 0 :: post))) size); [lia|].
  rewrite Hfl. cbn [negb andb].
  set (h0 := if bool_decide (is_Some (table h)) then _ else h).
  assert (Hh0 : table h0 = None /\ change_ok h0 = change_ok h).
  { unfold h0. case_bool_decide as Ht; [done|]. split; [|done]. by apply eq_None_not_Some. }
  destruct Hh0 as [Ht0 Hc0]. rewrite Ht0.
  set (nent := if _ >? _ then _ else _).
  assert (Hnent : nent = import_entries size).
  { unfold nent, import_entries. zcase; lia. }
  assert (Hr : 64 <= import_entries size <= 512).
  { unfold import_entries, CONFIG_ENV_MIN_ENTRIES, CONFIG_ENV_MAX_ENTRIES. pose proof (Z.div_pos size 8). lia. }
  destruct (hcreate_fresh nent h0) as (h1 & tab & Hcr & HR & Hge & Hc1 & Hun); [lia | done | done |].
  rewrite Hcr. cbn [mbind option_bind default id]. change (1 =? 0) with false. cbn iota.
  destruct (Z.eqb_spec size 0); [lia|]. cbn [mbind option_bind map].
  assert (take (Z.to_nat size) (encode sep L ++ 0 :: post) =
    [] ++ encode sep L ++ 0 :: take (Z.to_nat size - S (length (encode sep L))) post) as ->.
  { rewrite take_app_ge by lia. cbn [app].
    by replace (Z.to_nat size - length (encode sep L))%nat with (S (Z.to_nat size - S (length (encode sep L)))) by lia. }
  rewrite length_app in Hsz. cbn [length] in Hsz.
  set (post' := take _ post).
  assert (Hpl : length post' = (Z.to_nat size - S (length (encode sep L)))%nat) by (unfold post'; rewrite length_take; lia).
  destruct (import_loop_spec sep flag size L (S (length ([] ++ encode sep L ++ 0 :: post'))) [] post' 0 h1 tab ∅)
    as (data' & dp' & h' & tab' & -> & HR' & _); try done.
  - cbn [app length]. rewrite length_app. cbn [length]. lia.
  - assert (length L <= length (encode sep L))%nat; [|cbn [app]; rewrite length_app; lia].
    clear. induction L as [|e L IH]; [simpl; lia|]. cbn [encode flat_map]. fold (encode sep L).
    rewrite length_app. unfold encode_entry. rewrite length_app. simpl. lia.
  - by replace (change_ok h1) with (change_ok h) by congruence.
  - lia.
  - cbn [mbind option_bind i_vars i_htab delete_rest]. rewrite (right_id_L ∅ (∪)) in HR'. by exists h', tab'.
Qed.
End fresh.

(** C13: [himport_r] after [hexport_r] restores the environment: the text that
    the export of a table writes, imported with the same separator into any
    table, gives a table that represents the same variables.  The variables
    are those the format can represent ([entry_ok]) and the permission check
    and the callbacks of the new table accept; with separator NUL the values
    contain no backslash, and there are at most as many of them as the new
    table is made for. *)
Theorem hexport_himport_roundtrip `{HH : EnvHooks} `{!EnvHooksOk HH} h tab M h0 sep flag :
  Rep h tab M -> (forall s, dup_string s <> None) -> (forall n, malloc_ok n = true) ->
  map_Forall (fun k d => accepts_new k flag (change_ok h0) d) M -> sep_ok sep -> M <> ∅ ->
  has_flag flag H_HIDE_DOT = false -> has_flag flag H_NOCLEAR = false ->
  map_Forall (fun k d => entry_ok sep (k, d) /\ Forall ascii7 k /\ no_backslash_if_nul sep (k, d)) M ->
  Z.of_nat (size M) <= CONFIG_ENV_MIN_ENTRIES ->
  exists n buf h' tab', hexport_r h sep flag None 0 [] = Some (inr (n, buf)) /\
    himport_r (Some h0) buf n sep flag false [] = Some (1, None, Some h') /\ Rep h' tab' M.
Proof.
  intros HR Hdup Hm Hacc Hsep Hne Hdot Hnc HM Hsz.
  destruct (hexport_spec h tab M sep flag) as (L & n & Hex & HL & Hnd & _ & Hn); try done.
  { intros k d Hkd. destruct (HM k d Hkd) as ([_ _ _ ? _] & ? & ?). done. }
  assert (HokL : Forall (entry_ok sep) L).
  { apply Forall_forall. intros [k d] Hkd%list_elem_of_In. apply HM. rewrite <- HL.
    by apply elem_of_list_to_map_1. }
  assert (HLne : L <> []) by (intros ->; by apply Hne).
  assert (Hp : permissive (change_ok h0) flag L).
  { split; [done|]. apply Forall_forall. intros [k d] Hkd%list_elem_of_In. apply Hacc. rewrite <- HL.
    by apply elem_of_list_to_map_1. }
  assert (HLs : length L = size M).
  { rewrite <- HL, map_size_list_to_map by done. done. }
  destruct (himport_spec h0 sep flag L (replicate n 0) (Z.of_nat (length (encode sep L ++ replicate (S n) 0))))
    as (h' & tab' & Him & HR'); try done.
  - cbn [replicate]. rewrite length_app. cbn [length]. lia.
  - unfold import_entries, CONFIG_ENV_MIN_ENTRIES, CONFIG_ENV_MAX_ENTRIES in *.
    pose proof (Z.div_pos (Z.of_nat (length (encode sep L ++ replicate (S n) 0))) 8). lia.
  - eexists _, _, h', tab'. split; [exact Hex|]. split; [exact Him|]. by rewrite <- HL.
Qed.

(** [hexport_r] of a table with 7-bit names writes every variable exactly
    once, in ascending order of the names, as ["name=value"] with the
    separator and backslashes escaped, then NUL bytes up to the size it
    returns, and never writes outside of the buffer it allocated. *)
Theorem hexport_correct `{EnvHooks} h tab M sep flag :
  Rep h tab M -> has_flag flag H_HIDE_DOT = false -> (forall n, malloc_ok n = true) ->
  map_Forall (fun k d => Forall ascii7 k /\ Forall char_ok d /\ no_backslash_if_nul sep (k, d)) M ->
  exists L n, hexport_r h sep flag None 0 [] =
      Some (inr (Z.of_nat (length (encode sep L ++ replicate (S n) 0)), encode sep L ++ replicate (S n) 0)) /\
    list_to_map L = M /\ NoDup (L.*1) /\ StronglySorted key_le L.
Proof.
  intros HR Hd Hm HM. destruct (hexport_spec h tab M sep flag HR Hd Hm HM) as (L & n & He & ? & ? & ? & _).
  by exists L, n.
Qed.

(** The table with ["a"] set to ["1"], through both functions. *)
Lemma entry_a_ok : entry_ok 10 ([97], [49]).
Proof.
  split; cbn [fst snd]; [chars | repeat constructor; lia | exists 97, []; by vm_compute | chars | done].
Qed.

Lemma hexport_himport_roundtrip_witness :
  exists n buf h' tab', @hexport_r plain_hooks table_a 10 0 None 0 [] = Some (inr (n, buf)) /\
    @himport_r plain_hooks (Some null_htab) buf n 10 0 false [] = Some (1, None, Some h') /\
    Rep h' tab' {[ [97] := [49] ]}.
Proof.
  pose proof plain_hooks_ok. destruct table_a_rep as [tab HR].
  apply (@hexport_himport_roundtrip plain_hooks _ table_a tab {[ [97] := [49] ]} null_htab 10 0 HR); try reflexivity.
  - intros s; discriminate.
  - apply map_Forall_singleton. intros h1 e0 H0 _. split; [reflexivity|]. simpl. by rewrite H0.
  - by vm_compute.
  - discriminate.
  - apply map_Forall_singleton. split; [apply entry_a_ok|]. split; [repeat constructor; unfold ascii7; lia | done].
  - by vm_compute.
Defined.

Lemma hexport_correct_witness :
  exists L n, @hexport_r plain_hooks table_a 10 0 None 0 [] =
      Some (inr (Z.of_nat (length (encode 10 L ++ replicate (S n) 0)), encode 10 L ++ replicate (S n) 0)) /\
    list_to_map L = ({[ [97] := [49] ]} : gmap cstr cstr).
Proof.
  destruct table_a_rep as [tab HR].
  destruct (@hexport_correct plain_hooks table_a tab {[ [97] := [49] ]} 10 0 HR) as (L & n & He & HL & _);
    [reflexivity | reflexivity | | by exists L, n].
  apply map_Forall_singleton. split; [repeat constructor; unfold ascii7; lia|]. split; [chars | done].
Defined.

(** With separator NUL, backslashes in a value are escaped but not counted:
    exporting one variable whose value is four backslashes writes past the
    buffer that was allocated for it. *)
Lemma hexport_nul_overflow :
  (h ← enter_all [([97], [92; 92; 92; 92])] table_5;
   @hexport_r plain_hooks h 0 0 None 0 []) = None.
Proof. vm_compute. reflexivity. Qed.

(** The same with separator newline fits. *)
Lemma hexport_newline_fits :
  exists n buf, (h ← enter_all [([97], [92; 92; 92; 92])] table_5;
    @hexport_r plain_hooks h 10 0 None 0 []) = Some (inr (n, buf)) /\
  take 11 buf = [97; 61; 92; 92; 92; 92; 92; 92; 92; 92; 10].
Proof. eexists _, _. split; vm_compute; reflexivity. Qed.
