(* ===== verification/Digest.v ===== *)
(** * Digest: the buffering shared by the digests of [lib/]

    [sha1_update] and [sha256_update] are the same code around different
    block functions; [md_update] is that code.  A context is the byte count
    in two 32-bit words, the chaining state and the 64-byte buffer.  The
    reference is [absorb]: the block function applied to the consecutive
    64-byte blocks of the message. *)
From S2P Require Import Prelude.

(** ** Words and bytes *)

(** [GET_UINT32_BE], [PUT_UINT32_BE]. *)
Definition GET_UINT32_BE (b : list Z) (i : nat) : Z :=
  Z.lor (Z.lor (Z.lor (Z.shiftl (nth i b 0) 24) (Z.shiftl (nth (i + 1) b 0) 16))
    (Z.shiftl (nth (i + 2) b 0) 8)) (nth (i + 3) b 0).

Definition PUT_UINT32_BE (n : Z) : list Z :=
  [u8 (Z.shiftr n 24); u8 (Z.shiftr n 16); u8 (Z.shiftr n 8); u8 n].

(** [memcpy(buffer + i, s, strlen)] inside a buffer. *)
Definition copy_at (buf : list Z) (i : Z) (s : list Z) : option (list Z) :=
  if (0 <=? i) && (i + Z.of_nat (length s) <=? Z.of_nat (length buf))
  then Some (take (Z.to_nat i) buf ++ s ++ drop (Z.to_nat i + length s) buf) else None.

(** ** The update function *)

Record context (St : Type) := mk_ctx { total0 : Z; total1 : Z; state : St; buffer : list Z }.
Arguments mk_ctx {St} _ _ _ _.
Arguments total0 {St} _.
Arguments total1 {St} _.
Arguments state {St} _.
Arguments buffer {St} _.

Section md.
Context {St : Type} (process : St -> list Z -> St).

(** [while (length >= 64) { process(ctx, input); length -= 64; input += 64; }] *)
Fixpoint md_blocks (fuel : nat) (st : St) (input : list Z) : option (St * list Z) :=
  match fuel with
  | O => None
  | S fuel =>
      if 64 <=? Z.of_nat (length input)
      then md_blocks fuel (process st (take 64 input)) (drop 64 input)
      else Some (st, input)
  end.

(** [input] is the list of the [length] bytes at the pointer. *)
Definition md_update (ctx : context St) (input : list Z) : option (context St) :=
  let len := Z.of_nat (length input) in
  if len =? 0 then Some ctx
  else
    let left := Z.land (total0 ctx) 63 in
    let fill := 64 - left in
    let total0 := Z.land (u32 (total0 ctx + len)) 4294967295 in
    let total1 := if total0 <? len then u32 (total1 ctx + 1) else total1 ctx in
    '(st, buf, input, left) ←
      (if negb (left =? 0) && (fill <=? len) then
         buf ← copy_at (buffer ctx) left (take (Z.to_nat fill) input);
         Some (process (state ctx) buf, buf, drop (Z.to_nat fill) input, 0)
       else Some (state ctx, buffer ctx, input, left));
    '(st, input) ← md_blocks (S (length input)) st input;
    buf ← (if negb (Z.of_nat (length input) =? 0) then copy_at buf left input else Some buf);
    Some (mk_ctx total0 total1 st buf).

(** [sha1_padding], [sha256_padding]. *)
Definition md_padding : list Z := 128 :: replicate 63 0.

(** The part of [sha1_finish] and [sha256_finish] before the digest is stored. *)
Definition md_finish (ctx : context St) : option St :=
  let high := Z.lor (Z.shiftr (total0 ctx) 29) (u32 (Z.shiftl (total1 ctx) 3)) in
  let low := u32 (Z.shiftl (total0 ctx) 3) in
  let msglen := PUT_UINT32_BE high ++ PUT_UINT32_BE low in
  let last := Z.land (total0 ctx) 63 in
  let padn := if last <? 56 then 56 - last else 120 - last in
  ctx ← md_update ctx (take (Z.to_nat padn) md_padding);
  ctx ← md_update ctx msglen;
  Some (state ctx).

(** [while (curr < end)] of [sha1_csum_wd] and [sha256_csum_wd], with a watchdog configured. *)
Fixpoint md_chunks (fuel : nat) (ctx : context St) (input : list Z) (chunk_sz : Z) : option (context St) :=
  match fuel with
  | O => None
  | S fuel =>
      if 0 <? Z.of_nat (length input) then
        let chunk := Z.of_nat (length input) in
        let chunk := if chunk >? chunk_sz then chunk_sz else chunk in
        ctx ← md_update ctx (take (Z.to_nat chunk) input);
        md_chunks fuel ctx (drop (Z.to_nat chunk) input) chunk_sz
      else Some ctx
  end.

(** ** The reference *)

(** The bytes of a 64-bit number, most significant first. *)
Definition be64 (n : Z) : list Z := map (fun i => u8 (n / 256 ^ i)) [7; 6; 5; 4; 3; 2; 1; 0].

(** The padded message: a one bit, the least number of zero bits that leaves
    64 bits of the last block, and the length in bits (modulo [2 ^ 64]). *)
Definition pad_zeros (n : Z) : nat := Z.to_nat ((55 - n) mod 64).

Definition pad (msg : list Z) : list Z :=
  msg ++ 128 :: replicate (pad_zeros (Z.of_nat (length msg))) 0 ++ be64 (8 * Z.of_nat (length msg)).


(** All complete blocks of the message processed, and the bytes left over. *)
Fixpoint absorb_n (n : nat) (st : St) (msg : list Z) : St * list Z :=
  match n with
  | O => (st, msg)
  | S n => absorb_n n (process st (take 64 msg)) (drop 64 msg)
  end.

Definition absorb (st : St) (msg : list Z) : St * list Z := absorb_n (length msg / 64) st msg.

Lemma absorb_short st msg : (length msg < 64)%nat -> absorb st msg = (st, msg).
Proof. intros H. unfold absorb. by rewrite Nat.div_small. Qed.

Lemma absorb_block st b msg : length b = 64%nat -> absorb st (b ++ msg) = absorb (process st b) msg.
Proof.
  intros Hb. unfold absorb. rewrite length_app, Hb.
  replace (64 + length msg)%nat with (1 * 64 + length msg)%nat by lia.
  rewrite Nat.div_add_l by lia. cbn [Nat.add absorb_n].
  by rewrite take_app_length', drop_app_length' by done.
Qed.

Lemma absorb_ind (P : St -> list Z -> Prop) :
  (forall st msg, (length msg < 64)%nat -> P st msg) ->
  (forall st b msg, length b = 64%nat -> P (process st b) msg -> P st (b ++ msg)) ->
  forall st msg, P st msg.
Proof.
  intros Hs Hb st msg. remember (length msg) as n eqn:Hn. revert st msg Hn.
  induction n as [n IH] using lt_wf_ind. intros st msg ->.
  destruct (Nat.lt_ge_cases (length msg) 64) as [Hlt|Hge]; [by apply Hs|].
  rewrite <- (take_drop 64 msg). apply Hb; [rewrite length_take; lia|].
  eapply IH; [|done]. rewrite length_drop. lia.
Qed.

(** Absorbing in two pieces. *)
Lemma absorb_app st a b : absorb st (a ++ b) = let '(st', r) := absorb st a in absorb st' (r ++ b).
Proof.
  revert st a. apply (absorb_ind (fun st a => absorb st (a ++ b) = let '(st', r) := absorb st a in absorb st' (r ++ b))).
  - intros st msg Hm. by rewrite (absorb_short st msg Hm).
  - intros st bl msg Hb IH. rewrite <- app_assoc, (absorb_block st bl msg), (absorb_block st bl (msg ++ b)) by done. exact IH.
Qed.

Lemma absorb_rest st msg : (length (snd (absorb st msg)) < 64)%nat /\
  length (snd (absorb st msg)) = (length msg mod 64)%nat.
Proof.
  revert st msg. apply (absorb_ind (fun st msg => (length (snd (absorb st msg)) < 64)%nat /\
    length (snd (absorb st msg)) = (length msg mod 64)%nat)).
  - intros st msg Hm. rewrite absorb_short by done. cbn [snd]. by rewrite Nat.mod_small.
  - intros st b msg Hb IH. rewrite absorb_block, length_app, Hb by done.
    replace (64 + length msg)%nat with (length msg + 1 * 64)%nat by lia. by rewrite Nat.Div0.mod_add.
Qed.

Lemma md_blocks_absorb fuel st msg : (length msg < fuel)%nat -> md_blocks fuel st msg = Some (absorb st msg).
Proof.
  revert fuel. revert st msg. apply (absorb_ind (fun st msg => forall fuel, (length msg < fuel)%nat ->
    md_blocks fuel st msg = Some (absorb st msg))).
  - intros st msg Hm [|fuel] Hf; [lia|]. cbn [md_blocks]. zcase; [lia|]. by rewrite absorb_short.
  - intros st b msg Hb IH [|fuel] Hf; [lia|]. cbn [md_blocks]. rewrite length_app in *. zcase; [|lia].
    rewrite absorb_block, take_app_length', drop_app_length' by done. apply IH. lia.
Qed.

(** The context after the bytes of [msg] have been fed to it. *)
Record Fed (init : St) (ctx : context St) (msg : list Z) : Prop := {
  fed_total0 : total0 ctx = u32 (Z.of_nat (length msg));
  fed_total1 : total1 ctx = u32 (Z.of_nat (length msg) / 2 ^ 32);
  fed_state : state ctx = fst (absorb init msg);
  fed_buffer : take (length (snd (absorb init msg))) (buffer ctx) = snd (absorb init msg);
  fed_length : length (buffer ctx) = 64%nat }.

Lemma copy_at_spec buf i s r :
  take (length r) buf = r -> i = Z.of_nat (length r) -> (length r + length s <= length buf)%nat ->
  copy_at buf i s = Some (r ++ s ++ drop (length r + length s) buf).
Proof.
  intros Hr -> Hl. unfold copy_at. zcase; [|lia]. zcase; [|lia]. by rewrite Nat2Z.id, Hr.
Qed.

Lemma land_63 n : Z.land n 63 = n mod 64.
Proof. apply (Z.land_ones n 6). lia. Qed.

Lemma land_ones32 n : Z.land (u32 n) 4294967295 = u32 n.
Proof.
  change 4294967295 with (Z.ones 32). rewrite Z.land_ones by lia. unfold u32. apply Z.mod_mod. lia.
Qed.

Lemma fed_left init ctx msg : Fed init ctx msg ->
  Z.land (total0 ctx) 63 = Z.of_nat (length (snd (absorb init msg))).
Proof.
  intros HF. rewrite land_63, (fed_total0 _ _ _ HF). unfold u32.
  rewrite (proj2 (absorb_rest init msg)), Nat2Z.inj_mod.
  replace (2 ^ 32) with (64 * 2 ^ 26) by lia. rewrite Z.rem_mul_r by lia.
  rewrite Z.mul_comm, Z.mod_add by lia. apply Z.mod_mod. lia.
Qed.

(** The two words hold the length modulo [2 ^ 64]. *)
Lemma total_carry n len : 0 <= n -> 0 < len < 2 ^ 32 ->
  (if u32 (u32 n + len) <? len then u32 (u32 (n / 2 ^ 32) + 1) else u32 (n / 2 ^ 32)) =
  u32 ((n + len) / 2 ^ 32).
Proof.
  intros Hn Hl. unfold u32. pose proof (Z.mod_pos_bound n (2 ^ 32)). pose proof (Z.div_mod n (2 ^ 32)).
  set (q := n / 2 ^ 32) in *. set (r := n mod 2 ^ 32) in *.
  destruct (Z.ltb_spec ((r + len) mod 2 ^ 32) len) as [Hc|Hc].
  - destruct (Z.lt_ge_cases (r + len) (2 ^ 32)); [rewrite Z.mod_small in Hc; lia|].
    replace ((n + len) / 2 ^ 32) with (q + 1) by (apply Z.div_unique with (r + len - 2 ^ 32); lia).
    by rewrite Zplus_mod_idemp_l.
  - destruct (Z.lt_ge_cases (r + len) (2 ^ 32)).
    + f_equal. apply Z.div_unique with (r + len); lia.
    + rewrite <- (Z.mod_add (r + len) (-1)), Z.mod_small in Hc by lia. lia.
Qed.

(** Feeding [input] to a context that has been fed [msg]. *)
Lemma md_update_fed init ctx msg input :
  Fed init ctx msg -> Z.of_nat (length input) < 2 ^ 32 ->
  exists ctx', md_update ctx input = Some ctx' /\ Fed init ctx' (msg ++ input).
Proof.
  intros HF Hlen. unfold md_update. zcase.
  { exists ctx. split; [done|]. destruct input; [by rewrite app_nil_r | simpl in *; lia]. }
  rewrite (fed_left _ _ _ HF). destruct (absorb init msg) as [st r] eqn:Ha. cbn [snd] in *.
  pose proof (proj1 (absorb_rest init msg)) as Hr. rewrite Ha in Hr. cbn [snd] in Hr.
  pose proof (fed_buffer _ _ _ HF) as Hbuf. rewrite Ha in Hbuf. cbn [snd] in Hbuf.
  pose proof (fed_length _ _ _ HF) as Hbl. pose proof (fed_state _ _ _ HF) as Hst. rewrite Ha in Hst. cbn [fst] in Hst.
  rewrite land_ones32, (fed_total0 _ _ _ HF), (fed_total1 _ _ _ HF), total_carry by lia.
  assert (Hab : absorb init (msg ++ input) = absorb st (r ++ input)) by by rewrite absorb_app, Ha.
  assert (Htot : forall st' buf', st' = fst (absorb st (r ++ input)) -> length buf' = 64%nat ->
    take (length (snd (absorb st (r ++ input)))) buf' = snd (absorb st (r ++ input)) ->
    Fed init (mk_ctx (u32 (u32 (Z.of_nat (length msg)) + Z.of_nat (length input)))
      (u32 ((Z.of_nat (length msg) + Z.of_nat (length input)) / 2 ^ 32)) st' buf') (msg ++ input)).
  { intros st' buf' -> Hl Ht. split; cbn [total0 total1 state buffer]; rewrite ?Hab; try done.
    - rewrite length_app, Nat2Z.inj_add. unfold u32. by rewrite Zplus_mod_idemp_l.
    - by rewrite length_app, Nat2Z.inj_add. }
  destruct (negb (Z.of_nat (length r) =? 0) && (64 - Z.of_nat (length r) <=? Z.of_nat (length input))) eqn:Ec.
  - zbool. set (f := Z.to_nat (64 - Z.of_nat (length r))).
    rewrite (copy_at_spec _ _ _ r) by (done || (rewrite ?length_take; lia)). cbn [mbind option_bind].
    rewrite length_take, drop_ge, app_nil_r by lia.
    rewrite md_blocks_absorb by lia. cbn [mbind option_bind].
    assert (Hab2 : absorb st (r ++ input) = absorb (process st (r ++ take f input)) (drop f input)).
    { rewrite <- (take_drop f input) at 1. rewrite app_assoc. apply absorb_block.
      rewrite length_app, length_take. lia. }
    rewrite Hst, <- Hab2. destruct (absorb st (r ++ input)) as [st' r'] eqn:Hab'.
    pose proof (proj1 (absorb_rest st (r ++ input))) as Hr'. rewrite Hab' in Hr'. cbn [snd fst] in *.
    assert (Hb2 : length (r ++ take f input) = 64%nat) by (rewrite length_app, length_take; lia).
    zcase; cbn [mbind option_bind].
    + destruct r'; [|simpl in *; lia]. eexists. split; [done|]. by apply Htot.
    + rewrite (copy_at_spec _ 0 r' []) by (done || (simpl; lia)). cbn [mbind option_bind].
      eexists. split; [done|]. apply Htot; [done| |cbn [app]; by rewrite take_app_length'].
      cbn [app length]. rewrite length_app, length_drop. lia.
  - cbn [mbind option_bind]. destruct (Z.eqb_spec (Z.of_nat (length r)) 0) as [E0|E0]; cbn [negb andb] in Ec.
    + destruct r; [|simpl in *; lia]. cbn [app length] in *. rewrite Hst, md_blocks_absorb by lia. cbn [mbind option_bind].
      destruct (absorb st input) as [st' r'] eqn:Hab'.
      pose proof (proj1 (absorb_rest st input)) as Hr'. rewrite Hab' in Hr'. cbn [snd fst] in *.
      zcase; cbn [mbind option_bind].
      * destruct r'; [|simpl in *; lia]. eexists. split; [done|]. by apply Htot.
      * rewrite (copy_at_spec _ _ r' []) by (done || (simpl; lia)). cbn [mbind option_bind].
        eexists. split; [done|]. apply Htot; [done| |cbn [app]; by rewrite take_app_length'].
        cbn [app length]. rewrite length_app, length_drop. lia.
    + zbool. rewrite Hst, md_blocks_absorb, absorb_short by lia. cbn [mbind option_bind].
      rewrite absorb_short in Htot by (rewrite length_app; lia). cbn [fst snd] in Htot.
      zcase; cbn [mbind option_bind]; [lia|].
      rewrite (copy_at_spec _ _ input r) by (done || lia). cbn [mbind option_bind].
      eexists. split; [done|]. rewrite app_assoc. apply Htot; [done| |cbn [app]; by rewrite take_app_length'].
      rewrite !length_app, length_drop. lia.
Qed.

(** *** Finishing *)

Lemma u8_u32 x k : 0 <= k <= 24 -> u8 (Z.shiftr (u32 x) k) = u8 (x / 2 ^ k).
Proof.
  intros Hk. rewrite Z.shiftr_div_pow2 by lia. unfold u8, u32.
  replace (2 ^ 32) with (2 ^ k * (2 ^ 8 * 2 ^ (24 - k))) by (rewrite <- !Z.pow_add_r by lia; f_equal; lia).
  rewrite Z.rem_mul_r by lia. rewrite Z.add_comm, Z.mul_comm, Z.div_add_l, (Z.div_small (x mod 2 ^ k)), Z.add_0_r
    by (try apply Z.mod_pos_bound; lia).
  rewrite Z.rem_mul_r, Z.mul_comm, Z.mod_add, Z.mod_mod by lia. done.
Qed.

Lemma u8_u32_0 x : u8 (u32 x) = u8 x.
Proof. pose proof (u8_u32 x 0 ltac:(lia)) as E. by rewrite Z.shiftr_0_r, Z.div_1_r in E. Qed.

Lemma msglen_be64 n : 0 <= n ->
  PUT_UINT32_BE (Z.lor (Z.shiftr (u32 n) 29) (u32 (Z.shiftl (u32 (n / 2 ^ 32)) 3))) ++
  PUT_UINT32_BE (u32 (Z.shiftl (u32 n) 3)) = be64 (8 * n).
Proof.
  intros Hn.
  assert (Hlow : u32 (Z.shiftl (u32 n) 3) = u32 (8 * n)).
  { rewrite Z.shiftl_mul_pow2 by lia. unfold u32. rewrite Zmult_mod_idemp_l. f_equal. lia. }
  assert (Hhigh : Z.lor (Z.shiftr (u32 n) 29) (u32 (Z.shiftl (u32 (n / 2 ^ 32)) 3)) = u32 (8 * n / 2 ^ 32)).
  { rewrite Z.shiftl_mul_pow2, Z.shiftr_div_pow2 by lia. unfold u32. rewrite Zmult_mod_idemp_l.
    pose proof (Z.mod_pos_bound n (2 ^ 32) ltac:(lia)) as Hr.
    assert (E : (n / 2 ^ 32 * 2 ^ 3) mod 2 ^ 32 = (n / 2 ^ 32 mod 2 ^ 29) * 2 ^ 3).
    { replace (2 ^ 32) with (2 ^ 29 * 2 ^ 3) at 2 by lia. apply Z.mul_mod_distr_r; lia. }
    rewrite E, Z.lor_comm, lor_low by
      (try (split; [apply Z.div_pos; lia | apply Z.div_lt_upper_bound; lia]); lia).
    pose proof (Z.mod_pos_bound (n / 2 ^ 32) (2 ^ 29) ltac:(lia)).
    pose proof (Z.div_mod (n / 2 ^ 32) (2 ^ 29) ltac:(lia)). pose proof (Z.div_mod n (2 ^ 32) ltac:(lia)).
    pose proof (Z.div_mod (n mod 2 ^ 32) (2 ^ 29) ltac:(lia)).
    pose proof (Z.mod_pos_bound (n mod 2 ^ 32) (2 ^ 29) ltac:(lia)).
    assert (0 <= n mod 2 ^ 32 / 2 ^ 29 < 8) by (split; [apply Z.div_pos | apply Z.div_lt_upper_bound]; lia).
    assert (8 * n / 2 ^ 32 = n / 2 ^ 32 * 2 ^ 3 + n mod 2 ^ 32 / 2 ^ 29) as ->.
    { symmetry. apply Z.div_unique with (8 * ((n mod 2 ^ 32) mod 2 ^ 29)); lia. }
    apply Z.mod_unique with (n / 2 ^ 32 / 2 ^ 29); lia. }
  rewrite Hlow, Hhigh. unfold PUT_UINT32_BE, be64. cbn [map app].
  rewrite !u8_u32, !u8_u32_0, !Z.div_div by lia.
  change (256 ^ 0) with 1. rewrite Z.div_1_r. reflexivity.
Qed.

Lemma pad_count n : 0 <= n ->
  (if n mod 64 <? 56 then 56 - n mod 64 else 120 - n mod 64) = 1 + (55 - n) mod 64.
Proof.
  intros Hn. pose proof (Z.mod_pos_bound n 64 ltac:(lia)). pose proof (Z.div_mod n 64 ltac:(lia)).
  zcase.
  - replace ((55 - n) mod 64) with (55 - n mod 64); [lia|]. apply Z.mod_unique with (- (n / 64)); lia.
  - replace ((55 - n) mod 64) with (119 - n mod 64); [lia|]. apply Z.mod_unique with (- (n / 64) - 1); lia.
Qed.

(** Finishing gives the state after the padded message. *)
Lemma md_finish_fed init ctx msg : Fed init ctx msg -> md_finish ctx = Some (fst (absorb init (pad msg))).
Proof.
  intros HF. unfold md_finish.
  assert (Hleft : Z.land (total0 ctx) 63 = Z.of_nat (length msg) mod 64).
  { rewrite (fed_left _ _ _ HF), (proj2 (absorb_rest init msg)). apply Nat2Z.inj_mod. }
  rewrite Hleft, pad_count by lia.
  pose proof (Z.mod_pos_bound (55 - Z.of_nat (length msg)) 64 ltac:(lia)) as Hp.
  assert (take (Z.to_nat (1 + (55 - Z.of_nat (length msg)) mod 64)) md_padding =
    128 :: replicate (pad_zeros (Z.of_nat (length msg))) 0) as ->.
  { unfold md_padding, pad_zeros. replace (Z.to_nat (1 + (55 - Z.of_nat (length msg)) mod 64))
      with (S (Z.to_nat ((55 - Z.of_nat (length msg)) mod 64))) by lia. cbn [take].
    f_equal. rewrite take_replicate. f_equal. lia. }
  set (p := 128 :: _).
  assert (Hpl : Z.of_nat (length p) <= 64) by (unfold p, pad_zeros; simpl; rewrite length_replicate; lia).
  destruct (md_update_fed init ctx msg p HF) as (c1 & -> & HF1); [lia|]. cbn [mbind option_bind].
  rewrite (fed_total0 _ _ _ HF), (fed_total1 _ _ _ HF), msglen_be64 by lia.
  destruct (md_update_fed init c1 (msg ++ p) (be64 (8 * Z.of_nat (length msg))) HF1) as (c2 & -> & HF2); [simpl; lia|].
  cbn [mbind option_bind]. rewrite (fed_state _ _ _ HF2). unfold pad. by rewrite <- app_assoc.
Qed.

Lemma md_chunks_fed fuel init ctx msg input chunk_sz :
  Fed init ctx msg -> Z.of_nat (length input) < 2 ^ 32 -> 0 < chunk_sz -> (length input < fuel)%nat ->
  exists ctx', md_chunks fuel ctx input chunk_sz = Some ctx' /\ Fed init ctx' (msg ++ input).
Proof.
  revert ctx msg input. induction fuel as [|fuel IH]; intros ctx msg input HF Hl Hc Hf; [lia|]. cbn [md_chunks].
  zcase; [|exists ctx; destruct input; [by rewrite app_nil_r | simpl in *; lia]].
  set (chunk := Z.to_nat _).
  assert (Hch : (0 < chunk <= length input)%nat) by (unfold chunk; zcase; lia).
  destruct (md_update_fed init ctx msg (take chunk input) HF) as (c1 & -> & HF1); [rewrite length_take; lia|].
  cbn [mbind option_bind].
  destruct (IH c1 (msg ++ take chunk input) (drop chunk input) HF1) as (c2 & -> & HF2);
    [rewrite length_drop; lia | lia | rewrite length_drop; lia |].
  exists c2. split; [done|]. by rewrite <- app_assoc, take_drop in HF2.
Qed.

Lemma fed_init init buf : length buf = 64%nat -> Fed init (mk_ctx 0 0 init buf) [].
Proof. intros Hb. split; done. Qed.
End md.

(** Two block functions that agree on the states of an invariant. *)
Lemma absorb_ext {St} (f g : St -> list Z -> St) (Q : St -> Prop) :
  (forall st b, Q st -> f st b = g st b /\ Q (f st b)) ->
  forall st msg, Q st -> absorb f st msg = absorb g st msg /\ Q (fst (absorb f st msg)).
Proof.
  intros Hfg. apply (absorb_ind f (fun st msg => Q st -> absorb f st msg = absorb g st msg /\ Q (fst (absorb f st msg)))).
  - intros st msg Hm HQ. by rewrite !absorb_short.
  - intros st b msg Hb IH HQ. destruct (Hfg st b HQ) as [E HQ']. rewrite !absorb_block, <- E by done. by apply IH.
Qed.
