(* ===== verification/Sha256.v ===== *)
(** * Sha256: [lib/sha256.c]

    The code against FIPS 180-2: the unrolled block function, whose macro
    calls rotate the names of the registers instead of their values, equals
    the standard's round function with its precomputed message schedule; and
    the digest of a message fed in any pieces is the standard's hash of the
    padded message. *)
From S2P Require Import Prelude Digest.

Abbreviation word := Z.

(** ** The code *)

Definition sha256_context : Type := context (list word).

Definition sha256_state0 : list word :=
  [0x6A09E667; 0xBB67AE85; 0x3C6EF372; 0xA54FF53A; 0x510E527F; 0x9B05688C; 0x1F83D9AB; 0x5BE0CD19].

(** The buffer of a context on the stack has arbitrary contents. *)
Definition sha256_starts (buf : list Z) : sha256_context := mk_ctx 0 0 sha256_state0 buf.

Definition SHR (x n : Z) : Z := Z.shiftr (Z.land x 4294967295) n.
Definition ROTR (x n : Z) : Z := Z.lor (SHR x n) (u32 (Z.shiftl x (32 - n))).
Definition S0 (x : Z) : Z := Z.lxor (Z.lxor (ROTR x 7) (ROTR x 18)) (SHR x 3).
Definition S1 (x : Z) : Z := Z.lxor (Z.lxor (ROTR x 17) (ROTR x 19)) (SHR x 10).
Definition S2 (x : Z) : Z := Z.lxor (Z.lxor (ROTR x 2) (ROTR x 13)) (ROTR x 22).
Definition S3 (x : Z) : Z := Z.lxor (Z.lxor (ROTR x 6) (ROTR x 11)) (ROTR x 25).
Definition F0 (x y z : Z) : Z := Z.lor (Z.land x y) (Z.land z (Z.lor x y)).
Definition F1 (x y z : Z) : Z := Z.lxor z (Z.land x (Z.lxor y z)).

(** [R(t)]: the value stored in [W[t]]. *)
Definition R (W : list word) (t : nat) : word :=
  u32 (S1 (nth (t - 2) W 0) + nth (t - 7) W 0 + S0 (nth (t - 15) W 0) + nth (t - 16) W 0).

(** The register passed as argument [i] of the [t]-th call of [P]: the calls
    are [P(A, B, ..., H)], [P(H, A, ..., G)], [P(G, H, ..., F)], ... *)
Definition arg (t i : nat) : nat := (i + 7 * t) mod 8.

(** [P(a,b,c,d,e,f,g,h,x,K)] *)
Definition P (regs : list word) (t : nat) (x K : word) : list word :=
  let r i := nth (arg t i) regs 0 in
  let temp1 := u32 (r 7%nat + S3 (r 4%nat) + F1 (r 4%nat) (r 5%nat) (r 6%nat) + K + x) in
  let temp2 := u32 (S2 (r 0%nat) + F0 (r 0%nat) (r 1%nat) (r 2%nat)) in
  <[arg t 7 := u32 (temp1 + temp2)]> (<[arg t 3 := u32 (r 3%nat + temp1)]> regs).

(** The last argument of the calls of [P]. *)
Definition K256 : list word :=
  [0x428A2F98; 0x71374491; 0xB5C0FBCF; 0xE9B5DBA5; 0x3956C25B; 0x59F111F1; 0x923F82A4; 0xAB1C5ED5;
   0xD807AA98; 0x12835B01; 0x243185BE; 0x550C7DC3; 0x72BE5D74; 0x80DEB1FE; 0x9BDC06A7; 0xC19BF174;
   0xE49B69C1; 0xEFBE4786; 0x0FC19DC6; 0x240CA1CC; 0x2DE92C6F; 0x4A7484AA; 0x5CB0A9DC; 0x76F988DA;
   0x983E5152; 0xA831C66D; 0xB00327C8; 0xBF597FC7; 0xC6E00BF3; 0xD5A79147; 0x06CA6351; 0x14292967;
   0x27B70A85; 0x2E1B2138; 0x4D2C6DFC; 0x53380D13; 0x650A7354; 0x766A0ABB; 0x81C2C92E; 0x92722C85;
   0xA2BFE8A1; 0xA81A664B; 0xC24B8B70; 0xC76C51A3; 0xD192E819; 0xD6990624; 0xF40E3585; 0x106AA070;
   0x19A4C116; 0x1E376C08; 0x2748774C; 0x34B0BCB5; 0x391C0CB3; 0x4ED8AA4A; 0x5B9CCA4F; 0x682E6FF3;
   0x748F82EE; 0x78A5636F; 0x84C87814; 0x8CC70208; 0x90BEFFFA; 0xA4506CEB; 0xBEF9A3F7; 0xC67178F2].

(** Rounds 16 to 63 also extend [W], of which the assigned entries are kept. *)
Definition sha256_round (s : list word * list word) (t : nat) : list word * list word :=
  let '(regs, W) := s in
  let K := nth t K256 0 in
  if (t <? 16)%nat then (P regs t (nth t W 0) K, W)
  else let w := R W t in (P regs t w K, W ++ [w]).

Definition sha256_process (st : list word) (data : list Z) : list word :=
  let W := map (fun i => GET_UINT32_BE data (4 * i)) (seq 0 16) in
  let regs := fst (fold_left sha256_round (seq 0 64) (st, W)) in
  zip_with (fun s r => u32 (s + r)) st regs.

Definition sha256_update : sha256_context -> list Z -> option sha256_context := md_update sha256_process.

Definition sha256_finish (ctx : sha256_context) : option (list Z) :=
  st ← md_finish sha256_process ctx;
  Some (concat (map PUT_UINT32_BE st)).

(** [watchdog] says whether [CONFIG_HW_WATCHDOG] or [CONFIG_WATCHDOG] is set. *)
Definition sha256_csum_wd (watchdog : bool) (buf input : list Z) (chunk_sz : Z) : option (list Z) :=
  let ctx := sha256_starts buf in
  ctx ← (if watchdog then md_chunks sha256_process (S (length input)) ctx input chunk_sz
         else sha256_update ctx input);
  sha256_finish ctx.

(** ** The standard *)

Definition rotr (n x : Z) : Z := u32 x / 2 ^ n + (u32 x * 2 ^ (32 - n)) mod 2 ^ 32.
Definition shr (n x : Z) : Z := u32 x / 2 ^ n.
Definition Ch (x y z : Z) : Z := Z.lxor (Z.land x y) (Z.land (Z.lnot x) z).
Definition Maj (x y z : Z) : Z := Z.lxor (Z.lxor (Z.land x y) (Z.land x z)) (Z.land y z).
Definition Sigma0 (x : Z) : Z := Z.lxor (Z.lxor (rotr 2 x) (rotr 13 x)) (rotr 22 x).
Definition Sigma1 (x : Z) : Z := Z.lxor (Z.lxor (rotr 6 x) (rotr 11 x)) (rotr 25 x).
Definition sigma0 (x : Z) : Z := Z.lxor (Z.lxor (rotr 7 x) (rotr 18 x)) (shr 3 x).
Definition sigma1 (x : Z) : Z := Z.lxor (Z.lxor (rotr 17 x) (rotr 19 x)) (shr 10 x).

(** The message schedule: the 16 words of the block, then [n] more. *)
Fixpoint schedule (n : nat) (W : list word) : list word :=
  match n with
  | O => W
  | S n =>
      let W := schedule n W in
      let t := length W in
      W ++ [u32 (sigma1 (nth (t - 2) W 0) + nth (t - 7) W 0 + sigma0 (nth (t - 15) W 0) + nth (t - 16) W 0)]
  end.

(** One round on the working variables [a, b, ..., h]. *)
Definition fips_round (v : list word) (w K : word) : list word :=
  match v with
  | [a; b; c; d; e; f; g; h] =>
      let T1 := u32 (h + Sigma1 e + Ch e f g + K + w) in
      let T2 := u32 (Sigma0 a + Maj a b c) in
      [u32 (T1 + T2); a; b; c; u32 (d + T1); e; f; g]
  | _ => v
  end.

Definition fips_rounds (H W : list word) (n : nat) : list word :=
  fold_left (fun v t => fips_round v (nth t W 0) (nth t K256 0)) (seq 0 n) H.

Definition fips_block (H : list word) (M : list Z) : list word :=
  let W := schedule 48 (map (fun i => GET_UINT32_BE M (4 * i)) (seq 0 16)) in
  zip_with (fun s r => u32 (s + r)) H (fips_rounds H W 64).

Definition sha256_reference (msg : list Z) : list Z :=
  concat (map PUT_UINT32_BE (fst (absorb fips_block sha256_state0 (pad msg)))).

(** ** The macros compute the functions of the standard *)

Lemma SHR_shr x n : 0 <= n -> SHR x n = shr n x.
Proof.
  intros Hn. unfold SHR, shr. rewrite Z.shiftr_div_pow2 by lia. f_equal.
  change 4294967295 with (Z.ones 32). rewrite Z.land_ones by lia. done.
Qed.

Lemma ROTR_rotr x n : 0 < n < 32 -> ROTR x n = rotr n x.
Proof.
  intros Hn. unfold ROTR. rewrite SHR_shr by lia. unfold rotr, shr, u32 at 2.
  rewrite Z.shiftl_mul_pow2 by lia. rewrite <- Zmult_mod_idemp_l. fold (u32 x).
  pose proof (u32_range x) as Hr.
  replace (2 ^ 32) with (2 ^ n * 2 ^ (32 - n)) at 1 2 by (rewrite <- Z.pow_add_r by lia; f_equal; lia).
  rewrite Z.mul_mod_distr_r by lia. rewrite Z.lor_comm, lor_low; [lia | lia |].
  split; [apply Z.div_pos; lia|]. apply Z.div_lt_upper_bound; [lia|].
  rewrite <- Z.pow_add_r by lia. replace (n + (32 - n)) with 32 by lia. lia.
Qed.

Lemma F1_Ch x y z : F1 x y z = Ch x y z.
Proof.
  apply Z.bits_inj'. intros i Hi. unfold F1, Ch.
  rewrite !Z.lxor_spec, !Z.land_spec, !Z.lxor_spec, Z.lnot_spec by done.
  by destruct (Z.testbit x i), (Z.testbit y i), (Z.testbit z i).
Qed.

Lemma F0_Maj x y z : F0 x y z = Maj x y z.
Proof.
  apply Z.bits_inj'. intros i Hi. unfold F0, Maj.
  rewrite !Z.lxor_spec, !Z.lor_spec, !Z.land_spec, !Z.lor_spec.
  by destruct (Z.testbit x i), (Z.testbit y i), (Z.testbit z i).
Qed.

Lemma S_sigma x : S0 x = sigma0 x /\ S1 x = sigma1 x /\ S2 x = Sigma0 x /\ S3 x = Sigma1 x.
Proof.
  unfold S0, S1, S2, S3, sigma0, sigma1, Sigma0, Sigma1. rewrite !ROTR_rotr, !SHR_shr by lia. done.
Qed.

(** ** Rotating names and rotating values *)

Definition rotated (t : nat) (v : list word) : list word := drop (t mod 8) v ++ take (t mod 8) v.

Lemma P_round t v x K : length v = 8%nat ->
  P (rotated t v) t x K = rotated (S t) (fips_round v x K) /\ length (fips_round v x K) = 8%nat.
Proof.
  intros Hv. do 8 (destruct v as [|? v]; [done|]). destruct v; [|done]. split; [|done].
  unfold P, rotated, arg.
  assert (Hidx : forall i, ((i + 7 * t) mod 8 = (i + 7 * (t mod 8)) mod 8)%nat).
  { intros i. rewrite (Nat.Div0.add_mod i (7 * t)), (Nat.Div0.add_mod i (7 * (t mod 8))).
    by rewrite Nat.Div0.mul_mod_idemp_r. }
  rewrite !Hidx. replace (S t mod 8)%nat with (S (t mod 8) mod 8)%nat
    by (rewrite <- (Nat.add_1_l t), <- (Nat.add_1_l (t mod 8)); apply Nat.Div0.add_mod_idemp_r).
  assert (Hj : (t mod 8 < 8)%nat) by (apply Nat.mod_upper_bound; lia).
  destruct (t mod 8)%nat as [|[|[|[|[|[|[|[|]]]]]]]]; [..|lia].
  all: cbn [Nat.modulo Nat.divmod Nat.add Nat.mul Nat.sub fst snd drop take app nth fips_round insert list_insert].
  all: by rewrite F1_Ch, F0_Maj, (proj1 (proj2 (proj2 (S_sigma _)))), (proj2 (proj2 (proj2 (S_sigma _)))).
Qed.

(** ** The block function *)

Lemma schedule_length n W : length (schedule n W) = (length W + n)%nat.
Proof. induction n as [|n IH]; simpl; [lia|]. rewrite length_app, IH. simpl. lia. Qed.

Lemma schedule_prefix n k W i : (i < length W + n)%nat -> nth i (schedule (n + k) W) 0 = nth i (schedule n W) 0.
Proof.
  intros Hi. induction k as [|k IH]; [by rewrite Nat.add_0_r|]. rewrite Nat.add_succ_r. cbn [schedule].
  rewrite app_nth1 by (rewrite schedule_length; lia). done.
Qed.

(** The interleaved extension of [W] computes the schedule. *)
Lemma R_schedule n W t : t = length (schedule n W) ->
  schedule n W ++ [R (schedule n W) t] = schedule (S n) W /\ nth t (schedule (S n) W) 0 = R (schedule n W) t.
Proof.
  intros ->. assert (E : schedule n W ++ [R (schedule n W) (length (schedule n W))] = schedule (S n) W).
  { cbn [schedule]. unfold R. by rewrite (proj1 (S_sigma _)), (proj1 (proj2 (S_sigma _))). }
  split; [done|]. rewrite <- E, app_nth2 by lia. by rewrite Nat.sub_diag.
Qed.

Lemma fips_rounds_S H W n :
  fips_rounds H W (S n) = fips_round (fips_rounds H W n) (nth n W 0) (nth n K256 0).
Proof. unfold fips_rounds. by rewrite seq_S, fold_left_app. Qed.

Lemma rounds_fips H W n :
  length H = 8%nat -> length W = 16%nat -> (n <= 64)%nat ->
  fold_left sha256_round (seq 0 n) (H, W) =
    (rotated n (fips_rounds H (schedule 48 W) n), schedule (n - 16) W) /\
  length (fips_rounds H (schedule 48 W) n) = 8%nat.
Proof.
  intros HH HW. induction n as [|n IH]; intros Hn.
  { split; [|exact HH]. unfold rotated, fips_rounds. cbn [seq fold_left].
    change (0 mod 8)%nat with O. cbn [drop take]. rewrite app_nil_r. reflexivity. }
  destruct IH as [IH Hl]; [lia|]. rewrite seq_S, fold_left_app, IH. cbn [fold_left Nat.add sha256_round].
  rewrite fips_rounds_S.
  destruct (P_round n (fips_rounds H (schedule 48 W) n) (nth n (schedule 48 W) 0) (nth n K256 0) Hl) as [HP Hl'].
  split; [|done]. destruct (Nat.ltb_spec n 16).
  - replace (n - 16)%nat with O by lia. replace (S n - 16)%nat with O by lia.
    change (schedule 0 W) with W. rewrite <- HP. do 2 f_equal.
    symmetry. apply (schedule_prefix 0 48). lia.
  - destruct (R_schedule (n - 16) W n) as [E1 E2]; [rewrite schedule_length; lia|].
    replace (S n - 16)%nat with (S (n - 16)) by lia. rewrite E1, <- HP, <- E2. f_equal. f_equal.
    replace 48%nat with (S (n - 16) + (63 - n))%nat by lia. by rewrite schedule_prefix by lia.
Qed.

(** The unrolled block function is the standard's. *)
Lemma sha256_process_fips st data : length st = 8%nat ->
  sha256_process st data = fips_block st data /\ length (sha256_process st data) = 8%nat.
Proof.
  intros Hst. pose proof (rounds_fips st _ 64 Hst (length_map (fun i => GET_UINT32_BE data (4 * i)) (seq 0 16)) ltac:(lia))
    as [HR Hl].
  assert (E : sha256_process st data = fips_block st data).
  { unfold sha256_process, fips_block. rewrite HR. cbn [fst]. unfold rotated. change (64 mod 8)%nat with O.
    cbn [drop take]. rewrite app_nil_r. reflexivity. }
  split; [exact E|]. rewrite E. unfold fips_block. rewrite length_zip_with, Hst, Hl. reflexivity.
Qed.

Lemma sha256_finish_fed ctx msg : Fed sha256_process sha256_state0 ctx msg ->
  sha256_finish ctx = Some (sha256_reference msg).
Proof.
  intros HF. unfold sha256_finish, sha256_reference. rewrite (md_finish_fed _ _ _ _ HF). cbn [mbind option_bind].
  by rewrite (proj1 (absorb_ext sha256_process fips_block (fun st => length st = 8%nat) sha256_process_fips sha256_state0 (pad msg) eq_refl)).
Qed.

(** C30: [sha256_csum_wd] computes the SHA-256 of FIPS 180-2, with and without
    a watchdog and for every chunk size: for a message of less than 4 GiB it
    returns the big-endian digest of the standard's padded message, whatever
    the uninitialised buffer of the context holds. *)
Theorem sha256_csum_fips watchdog buf input chunk_sz :
  length buf = 64%nat -> Z.of_nat (length input) < 2 ^ 32 -> 0 < chunk_sz ->
  sha256_csum_wd watchdog buf input chunk_sz = Some (sha256_reference input).
Proof.
  intros Hb Hl Hc. unfold sha256_csum_wd. pose proof (fed_init sha256_process sha256_state0 buf Hb) as H0.
  destruct watchdog.
  - destruct (md_chunks_fed sha256_process (S (length input)) _ _ [] input chunk_sz H0 Hl Hc) as (ctx & Hrun & HF); [lia|].
    unfold sha256_starts. rewrite Hrun. by apply sha256_finish_fed.
  - destruct (md_update_fed sha256_process _ _ [] input H0 Hl) as (ctx & Hrun & HF).
    unfold sha256_starts, sha256_update. rewrite Hrun. by apply sha256_finish_fed.
Qed.

Lemma sha256_csum_fips_witness :
  sha256_csum_wd true (replicate 64 0) [97; 98; 99] 2 = Some (sha256_reference [97; 98; 99]).
Proof. apply (sha256_csum_fips true (replicate 64 0) [97; 98; 99] 2); [reflexivity | simpl; lia | lia]. Defined.

(** The test vector "abc" of the standard. *)
Example sha256_abc :
  sha256_reference [97; 98; 99] =
  [0xba; 0x78; 0x16; 0xbf; 0x8f; 0x01; 0xcf; 0xea; 0x41; 0x41; 0x40; 0xde; 0x5d; 0xae; 0x22; 0x23;
   0xb0; 0x03; 0x61; 0xa3; 0x96; 0x17; 0x7a; 0x9c; 0xb4; 0x10; 0xff; 0x61; 0xf2; 0x00; 0x15; 0xad].
Proof. vm_compute. reflexivity. Qed.
