(* ===== verification/Sha1.v ===== *)
(** * Sha1: [lib/sha1.c]

    The code against FIPS 180-1: the block function keeps only the last 16
    words of the message schedule, in a circular buffer, and rotates the
    names of its registers; the standard has a schedule of 80 words and
    shifts the values.  [sha1_csum], [sha1_csum_wd] and [sha1_hmac] follow. *)
From S2P Require Import Prelude Digest.

Abbreviation word := Z.

(** ** The code *)

(** [unsigned long] has 32 bits. *)
Definition sha1_context : Type := context (list word).

Definition sha1_state0 : list word := [0x67452301; 0xEFCDAB89; 0x98BADCFE; 0x10325476; 0xC3D2E1F0].

Definition sha1_starts (buf : list Z) : sha1_context := mk_ctx 0 0 sha1_state0 buf.

(** The macro [S(x,n)]. *)
Definition S_ (x n : Z) : Z := Z.lor (u32 (Z.shiftl x n)) (Z.shiftr (Z.land x 4294967295) (32 - n)).

(** [R(t)]: the value stored in [W[t & 0x0F]]. *)
Definition R_sha1 (W : list word) (t : nat) : word :=
  let temp := Z.lxor (Z.lxor (Z.lxor (nth (Nat.land (t - 3) 15) W 0) (nth (Nat.land (t - 8) 15) W 0))
    (nth (Nat.land (t - 14) 15) W 0)) (nth (Nat.land t 15) W 0) in
  S_ temp 1.

(** The three definitions of [F] and the four of [K]. *)
Definition F_choose (x y z : Z) : Z := Z.lxor z (Z.land x (Z.lxor y z)).
Definition F_parity (x y z : Z) : Z := Z.lxor (Z.lxor x y) z.
Definition F_major (x y z : Z) : Z := Z.lor (Z.land x y) (Z.land z (Z.lor x y)).

Definition F_sha1 (t : nat) : Z -> Z -> Z -> Z :=
  if (t <? 20)%nat then F_choose else if (t <? 40)%nat then F_parity
  else if (t <? 60)%nat then F_major else F_parity.

Definition K_sha1 (t : nat) : Z :=
  if (t <? 20)%nat then 0x5A827999 else if (t <? 40)%nat then 0x6ED9EBA1
  else if (t <? 60)%nat then 0x8F1BBCDC else 0xCA62C1D6.

(** The register passed as argument [i] of the [t]-th call of [P]: the calls
    are [P(A, B, C, D, E)], [P(E, A, B, C, D)], [P(D, E, A, B, C)], ... *)
Definition arg_sha1 (t i : nat) : nat := (i + 4 * t) mod 5.

(** [P(a,b,c,d,e,x)] *)
Definition P_sha1 (regs : list word) (t : nat) (x : word) : list word :=
  let r i := nth (arg_sha1 t i) regs 0 in
  let e := u32 (r 4%nat + (S_ (r 0%nat) 5 + F_sha1 t (r 1%nat) (r 2%nat) (r 3%nat) + K_sha1 t + x)) in
  <[arg_sha1 t 1 := S_ (r 1%nat) 30]> (<[arg_sha1 t 4 := e]> regs).

Definition sha1_round (s : list word * list word) (t : nat) : list word * list word :=
  let '(regs, W) := s in
  if (t <? 16)%nat then (P_sha1 regs t (nth t W 0), W)
  else let w := R_sha1 W t in (P_sha1 regs t w, <[Nat.land t 15 := w]> W).

Definition sha1_process (st : list word) (data : list Z) : list word :=
  let W := map (fun i => GET_UINT32_BE data (4 * i)) (seq 0 16) in
  let regs := fst (fold_left sha1_round (seq 0 80) (st, W)) in
  zip_with (fun s r => u32 (s + r)) st regs.

Definition sha1_update : sha1_context -> list Z -> option sha1_context := md_update sha1_process.

Definition sha1_finish (ctx : sha1_context) : option (list Z) :=
  st ← md_finish sha1_process ctx;
  Some (concat (map PUT_UINT32_BE st)).

(** [buf] is the uninitialised buffer of the context. *)
Definition sha1_csum (buf input : list Z) : option (list Z) :=
  ctx ← sha1_update (sha1_starts buf) input; sha1_finish ctx.

(** [watchdog] says whether [CONFIG_HW_WATCHDOG] or [CONFIG_WATCHDOG] is set. *)
Definition sha1_csum_wd (watchdog : bool) (buf input : list Z) (chunk_sz : Z) : option (list Z) :=
  let ctx := sha1_starts buf in
  ctx ← (if watchdog then md_chunks sha1_process (S (length input)) ctx input chunk_sz
         else sha1_update ctx input);
  sha1_finish ctx.

(** [for (i = 0; i < keylen; i++) { if (i >= 64) break; k[i] ^= key[i]; }] *)
Fixpoint xor_key (k key : list Z) : list Z :=
  match k, key with
  | x :: k, y :: key => Z.lxor x y :: xor_key k key
  | _, _ => k
  end.

(** [sha1_starts] does not clear the buffer: the second context starts with
    the bytes that the first left in it. *)
Definition sha1_hmac (buf key input : list Z) : option (list Z) :=
  let k_ipad := xor_key (replicate 64 0x36) key in
  let k_opad := xor_key (replicate 64 0x5C) key in
  ctx ← sha1_update (sha1_starts buf) k_ipad;
  ctx ← sha1_update ctx input;
  tmpbuf ← sha1_finish ctx;
  ctx ← sha1_update (sha1_starts (buffer ctx)) k_opad;
  ctx ← sha1_update ctx tmpbuf;
  sha1_finish ctx.

(** ** The standard *)

Definition rotl (n x : Z) : Z := (u32 x * 2 ^ n) mod 2 ^ 32 + u32 x / 2 ^ (32 - n).

Definition f_t (t : nat) (x y z : Z) : Z :=
  if (t <? 20)%nat then Z.lor (Z.land x y) (Z.land (Z.lnot x) z)
  else if (t <? 40)%nat then Z.lxor (Z.lxor x y) z
  else if (t <? 60)%nat then Z.lor (Z.lor (Z.land x y) (Z.land x z)) (Z.land y z)
  else Z.lxor (Z.lxor x y) z.

(** The schedule: the 16 words of the block, then [n] more. *)
Fixpoint schedule1 (n : nat) (W : list word) : list word :=
  match n with
  | O => W
  | S n =>
      let W := schedule1 n W in
      let t := length W in
      W ++ [rotl 1 (Z.lxor (Z.lxor (Z.lxor (nth (t - 3) W 0) (nth (t - 8) W 0)) (nth (t - 14) W 0)) (nth (t - 16) W 0))]
  end.

Definition fips1_round (t : nat) (v : list word) (w : word) : list word :=
  match v with
  | [a; b; c; d; e] => [u32 (rotl 5 a + f_t t b c d + e + w + K_sha1 t); a; rotl 30 b; c; d]
  | _ => v
  end.

Definition fips1_rounds (H W : list word) (n : nat) : list word :=
  fold_left (fun v t => fips1_round t v (nth t W 0)) (seq 0 n) H.

Definition fips1_block (H : list word) (M : list Z) : list word :=
  let W := schedule1 64 (map (fun i => GET_UINT32_BE M (4 * i)) (seq 0 16)) in
  zip_with (fun s r => u32 (s + r)) H (fips1_rounds H W 80).

Definition sha1_reference (msg : list Z) : list Z :=
  concat (map PUT_UINT32_BE (fst (absorb fips1_block sha1_state0 (pad msg)))).

(** ** The macros *)

Lemma S_rotl x n : 0 < n < 32 -> S_ x n = rotl n x.
Proof.
  intros Hn. unfold S_, rotl. change 4294967295 with (Z.ones 32).
  rewrite Z.land_ones, Z.shiftl_mul_pow2, Z.shiftr_div_pow2 by lia. fold (u32 x).
  unfold u32 at 1. rewrite <- Zmult_mod_idemp_l. fold (u32 x). pose proof (u32_range x) as Hr.
  replace (2 ^ 32) with (2 ^ (32 - n) * 2 ^ n) at 1 2 by (rewrite <- Z.pow_add_r by lia; f_equal; lia).
  rewrite Z.mul_mod_distr_r by lia. apply lor_low; [lia|].
  split; [apply Z.div_pos; lia|]. apply Z.div_lt_upper_bound; [lia|].
  rewrite <- Z.pow_add_r by lia. replace (32 - n + n) with 32 by lia. lia.
Qed.

Lemma F_f_t t x y z : F_sha1 t x y z = f_t t x y z.
Proof.
  unfold F_sha1, f_t. destruct (t <? 20)%nat; [|destruct (t <? 40)%nat; [done|destruct (t <? 60)%nat; [|done]]].
  all: apply Z.bits_inj'; intros i Hi; unfold F_choose, F_major;
    repeat rewrite ?Z.lxor_spec, ?Z.lor_spec, ?Z.land_spec, ?Z.lnot_spec by done;
    by destruct (Z.testbit x i), (Z.testbit y i), (Z.testbit z i).
Qed.

(** ** Rotating names and rotating values *)

Definition rotated5 (t : nat) (v : list word) : list word := drop (t mod 5) v ++ take (t mod 5) v.

Lemma sum_order e p q k x : u32 (e + (p + q + k + x)) = u32 (p + q + e + x + k).
Proof. f_equal. lia. Qed.

Lemma P_sha1_round t v x : length v = 5%nat ->
  P_sha1 (rotated5 t v) t x = rotated5 (S t) (fips1_round t v x) /\ length (fips1_round t v x) = 5%nat.
Proof.
  intros Hv. do 5 (destruct v as [|? v]; [done|]). destruct v; [|done]. split; [|done].
  unfold P_sha1, rotated5, arg_sha1.
  assert (Hidx : forall i, ((i + 4 * t) mod 5 = (i + 4 * (t mod 5)) mod 5)%nat).
  { intros i. rewrite (Nat.Div0.add_mod i (4 * t)), (Nat.Div0.add_mod i (4 * (t mod 5))).
    by rewrite Nat.Div0.mul_mod_idemp_r. }
  rewrite !Hidx. replace (S t mod 5)%nat with (S (t mod 5) mod 5)%nat
    by (rewrite <- (Nat.add_1_l t), <- (Nat.add_1_l (t mod 5)); apply Nat.Div0.add_mod_idemp_r).
  assert (Hj : (t mod 5 < 5)%nat) by (apply Nat.mod_upper_bound; lia).
  destruct (t mod 5)%nat as [|[|[|[|[|]]]]]; [..|lia].
  all: cbn [Nat.modulo Nat.divmod Nat.add Nat.mul Nat.sub fst snd drop take app nth fips1_round insert list_insert].
  all: by rewrite F_f_t, !S_rotl, sum_order by lia.
Qed.

(** ** The circular buffer *)

Lemma schedule1_length n W : length (schedule1 n W) = (length W + n)%nat.
Proof. induction n as [|n IH]; simpl; [lia|]. rewrite length_app, IH. simpl. lia. Qed.

Lemma schedule1_prefix n k W i : (i < length W + n)%nat -> nth i (schedule1 (n + k) W) 0 = nth i (schedule1 n W) 0.
Proof.
  intros Hi. induction k as [|k IH]; [by rewrite Nat.add_0_r|]. rewrite Nat.add_succ_r. cbn [schedule1].
  rewrite app_nth1 by (rewrite schedule1_length; lia). done.
Qed.

(** The value at position [t] of the schedule. *)
Lemma schedule1_nth m W t : length W = 16%nat -> (16 <= t < 16 + m)%nat ->
  nth t (schedule1 m W) 0 =
    rotl 1 (Z.lxor (Z.lxor (Z.lxor (nth (t - 3) (schedule1 m W) 0) (nth (t - 8) (schedule1 m W) 0))
      (nth (t - 14) (schedule1 m W) 0)) (nth (t - 16) (schedule1 m W) 0)).
Proof.
  intros HW Ht. assert (Hpre : forall i, (i < t)%nat -> nth i (schedule1 m W) 0 = nth i (schedule1 (t - 16) W) 0).
  { intros i Hi. replace m with (t - 16 + (16 + m - t))%nat by lia. apply schedule1_prefix. lia. }
  rewrite (Hpre (t - 3)%nat), (Hpre (t - 8)%nat), (Hpre (t - 14)%nat), (Hpre (t - 16)%nat) by lia.
  clear Hpre. replace m with (S (t - 16) + (15 + m - t))%nat by lia.
  rewrite schedule1_prefix by lia. cbn [schedule1].
  rewrite app_nth2 by (rewrite schedule1_length; lia). rewrite schedule1_length, HW.
  replace (16 + (t - 16))%nat with t by lia. by rewrite Nat.sub_diag.
Qed.

(** After [t] rounds the buffer holds the last 16 words of the schedule. *)
Definition circular (t : nat) (W16 W : list word) : Prop :=
  length W16 = 16%nat /\ forall i, (Nat.max t 16 - 16 <= i < Nat.max t 16)%nat -> nth (i mod 16) W16 0 = nth i W 0.

Lemma land_15 t : Nat.land t 15 = (t mod 16)%nat.
Proof. apply (Nat.land_ones t 4). Qed.

Lemma R_circular t W16 W :
  (16 <= t)%nat -> circular t W16 W ->
  R_sha1 W16 t = rotl 1 (Z.lxor (Z.lxor (Z.lxor (nth (t - 3) W 0) (nth (t - 8) W 0)) (nth (t - 14) W 0)) (nth (t - 16) W 0)).
Proof.
  intros Ht [Hl Hc]. unfold R_sha1. rewrite S_rotl, !land_15, !Hc by lia.
  replace (t mod 16)%nat with ((t - 16) mod 16)%nat; [by rewrite Hc by lia|].
  replace t with (t - 16 + 1 * 16)%nat at 2 by lia. by rewrite Nat.Div0.mod_add.
Qed.

Lemma circular_step t W16 W :
  (16 <= t)%nat -> circular t W16 W -> circular (S t) (<[Nat.land t 15 := nth t W 0]> W16) W.
Proof.
  intros Ht [Hl Hc]. split; [by rewrite length_insert|]. intros i Hi. rewrite land_15.
  assert (Hm : forall n, (n mod 16 < 16)%nat) by (intros; apply Nat.mod_upper_bound; lia).
  destruct (Nat.eq_dec i t) as [->|Hne].
  - rewrite (nth_lookup_Some _ _ _ (nth t W 0)); [done|]. apply list_lookup_insert_eq. by rewrite Hl.
  - rewrite nth_lookup, list_lookup_insert_ne, <- nth_lookup; [apply Hc; lia|].
    intros E. pose proof (Nat.div_mod_eq t 16). pose proof (Nat.div_mod_eq i 16).
    specialize (Hm t). assert (t / 16 = i / 16)%nat; [|lia]. nia.
Qed.

(** ** The block function *)

Lemma fips1_rounds_S H W n : fips1_rounds H W (S n) = fips1_round n (fips1_rounds H W n) (nth n W 0).
Proof. unfold fips1_rounds. by rewrite seq_S, fold_left_app. Qed.

Lemma rounds_fips1 H W0 n :
  length H = 5%nat -> length W0 = 16%nat -> (n <= 80)%nat ->
  let s := fold_left sha1_round (seq 0 n) (H, W0) in
  fst s = rotated5 n (fips1_rounds H (schedule1 64 W0) n) /\ circular n (snd s) (schedule1 64 W0) /\
  length (fips1_rounds H (schedule1 64 W0) n) = 5%nat.
Proof.
  intros HH HW. induction n as [|n IH]; intros Hn.
  { split; [|split; [split; [exact HW|]|exact HH]].
    - unfold rotated5, fips1_rounds. cbn [seq fold_left fst]. change (0 mod 5)%nat with O. cbn [drop take].
      rewrite app_nil_r. reflexivity.
    - cbn [seq fold_left snd]. intros i Hi. rewrite Nat.mod_small by lia. symmetry.
      apply (schedule1_prefix 0 64). lia. }
  destruct IH as (IH1 & IH2 & Hl); [lia|]. cbn zeta in *. rewrite seq_S, fold_left_app.
  destruct (fold_left sha1_round (seq 0 n) (H, W0)) as [regs W] eqn:Es. cbn [fold_left Nat.add sha1_round fst snd] in *.
  rewrite fips1_rounds_S. subst regs.
  destruct (P_sha1_round n (fips1_rounds H (schedule1 64 W0) n) (nth n (schedule1 64 W0) 0) Hl) as [HP Hl'].
  destruct (Nat.ltb_spec n 16); cbn [fst snd].
  - destruct IH2 as [HW' Hc]. split; [|split; [split; [done|]|done]].
    + rewrite <- HP, <- (Hc n) by lia. rewrite Nat.mod_small by lia. reflexivity.
    + intros i Hi. apply Hc. lia.
  - rewrite (R_circular n W (schedule1 64 W0)), <- schedule1_nth by (done || lia).
    split; [by rewrite <- HP|]. split; [by apply circular_step | done].
Qed.

(** The block function with the circular buffer is the standard's. *)
Lemma sha1_process_fips st data : length st = 5%nat ->
  sha1_process st data = fips1_block st data /\ length (sha1_process st data) = 5%nat.
Proof.
  intros Hst.
  pose proof (rounds_fips1 st _ 80 Hst (length_map (fun i => GET_UINT32_BE data (4 * i)) (seq 0 16)) ltac:(lia))
    as (HR & _ & Hl).
  assert (E : sha1_process st data = fips1_block st data).
  { unfold sha1_process, fips1_block. cbn zeta in *. rewrite HR. unfold rotated5. change (80 mod 5)%nat with O.
    cbn [drop take]. rewrite app_nil_r. reflexivity. }
  split; [exact E|]. rewrite E. unfold fips1_block. cbn zeta. rewrite length_zip_with, Hst, Hl. reflexivity.
Qed.

Lemma sha1_finish_fed ctx msg : Fed sha1_process sha1_state0 ctx msg -> sha1_finish ctx = Some (sha1_reference msg).
Proof.
  intros HF. unfold sha1_finish, sha1_reference. rewrite (md_finish_fed _ _ _ _ HF). cbn [mbind option_bind].
  by rewrite (proj1 (absorb_ext sha1_process fips1_block (fun st => length st = 5%nat) sha1_process_fips sha1_state0 (pad msg) eq_refl)).
Qed.

Lemma sha1_update_fed buf input : length buf = 64%nat -> Z.of_nat (length input) < 2 ^ 32 ->
  exists ctx, sha1_update (sha1_starts buf) input = Some ctx /\ Fed sha1_process sha1_state0 ctx input.
Proof.
  intros Hb Hl. by apply (md_update_fed sha1_process _ _ [] input (fed_init sha1_process sha1_state0 buf Hb)).
Qed.

(** [sha1_csum] and [sha1_csum_wd] compute the SHA-1 of FIPS 180-1, with
    and without a watchdog and for every chunk size, for messages of less
    than 4 GiB and whatever the context's buffer held before. *)
Theorem sha1_csum_fips watchdog buf input chunk_sz :
  length buf = 64%nat -> Z.of_nat (length input) < 2 ^ 32 -> 0 < chunk_sz ->
  sha1_csum buf input = Some (sha1_reference input) /\
  sha1_csum_wd watchdog buf input chunk_sz = Some (sha1_reference input).
Proof.
  intros Hb Hl Hc. unfold sha1_csum, sha1_csum_wd.
  destruct (sha1_update_fed buf input Hb Hl) as (ctx & Hrun & HF). rewrite Hrun. cbn [mbind option_bind].
  split; [by apply sha1_finish_fed|]. destruct watchdog; [|by apply sha1_finish_fed].
  destruct (md_chunks_fed sha1_process (S (length input)) _ _ [] input chunk_sz
    (fed_init sha1_process sha1_state0 buf Hb) Hl Hc) as (c' & Hrun' & HF'); [lia|].
  unfold sha1_starts. rewrite Hrun'. by apply sha1_finish_fed.
Qed.

Lemma sha1_csum_fips_witness :
  sha1_csum (replicate 64 0) [97; 98; 99] = Some (sha1_reference [97; 98; 99]) /\
  sha1_csum_wd true (replicate 64 0) [97; 98; 99] 2 = Some (sha1_reference [97; 98; 99]).
Proof. apply (sha1_csum_fips true (replicate 64 0) [97; 98; 99] 2); [reflexivity | simpl; lia | lia]. Defined.

(** The test vector "abc" of the standard. *)
Example sha1_abc :
  sha1_reference [97; 98; 99] =
  [0xA9; 0x99; 0x3E; 0x36; 0x47; 0x06; 0x81; 0x6A; 0xBA; 0x3E;
   0x25; 0x71; 0x78; 0x50; 0xC2; 0x6C; 0x9C; 0xD0; 0xD8; 0x9D].
Proof. vm_compute. reflexivity. Qed.

(** ** HMAC *)

(** The key block: the key padded with zero bytes to the block size, xored with a constant. *)
Definition key_block (c : Z) (key : list Z) : list Z :=
  map (fun k => Z.lxor c k) (key ++ replicate (64 - length key) 0).

Definition hmac_sha1 (key msg : list Z) : list Z :=
  sha1_reference (key_block 0x5C key ++ sha1_reference (key_block 0x36 key ++ msg)).

Lemma xor_key_block n c key :
  xor_key (replicate n c) key = map (fun k => Z.lxor c k) (take n key ++ replicate (n - length (take n key)) 0).
Proof.
  revert key. induction n as [|n IH]; intros [|k key]; cbn [replicate xor_key take app length Nat.sub]; try done.
  - cbn [replicate map]. rewrite Z.lxor_0_r. f_equal. specialize (IH []). destruct n; [done|]. cbn in IH.
    exact IH.
  - cbn [map]. f_equal. apply IH.
Qed.

Lemma sha1_reference_length msg : length (sha1_reference msg) = 20%nat.
Proof.
  unfold sha1_reference.
  destruct (absorb_ext sha1_process fips1_block (fun st => length st = 5%nat) sha1_process_fips sha1_state0 (pad msg) eq_refl)
    as [<- Hl]. destruct (fst _) as [|a [|b [|c [|d [|e [|]]]]]]; done.
Qed.

Lemma update_more ctx msg input : Fed sha1_process sha1_state0 ctx msg -> Z.of_nat (length input) < 2 ^ 32 ->
  exists ctx', sha1_update ctx input = Some ctx' /\ Fed sha1_process sha1_state0 ctx' (msg ++ input).
Proof. apply md_update_fed. Qed.

(** [sha1_hmac] computes the HMAC-SHA-1 of RFC 2104 for keys of up to 64
    bytes; of a longer key it uses the first 64 bytes (where the RFC hashes
    the key first). *)
Theorem sha1_hmac_correct buf key input :
  length buf = 64%nat -> Z.of_nat (length input) < 2 ^ 32 ->
  sha1_hmac buf key input = Some (hmac_sha1 (take 64 key) input).
Proof.
  intros Hb Hl. unfold sha1_hmac, hmac_sha1, key_block. rewrite !xor_key_block.
  set (ip := map (fun k => Z.lxor 54 k) _). set (op := map (fun k => Z.lxor 92 k) _).
  assert (Hip : length ip = 64%nat) by (unfold ip; rewrite length_map, length_app, length_replicate, length_take; lia).
  assert (Hop : length op = 64%nat) by (unfold op; rewrite length_map, length_app, length_replicate, length_take; lia).
  destruct (sha1_update_fed buf ip Hb) as (c1 & -> & HF1); [lia|]. cbn [mbind option_bind].
  destruct (update_more c1 ip input HF1 Hl) as (c2 & -> & HF2). cbn [mbind option_bind].
  rewrite (sha1_finish_fed _ _ HF2). cbn [mbind option_bind].
  destruct (sha1_update_fed (buffer c2) op) as (c3 & -> & HF3); [apply HF2 | lia |]. cbn [mbind option_bind].
  destruct (update_more c3 op (sha1_reference (ip ++ input)) HF3) as (c4 & -> & HF4);
    [rewrite sha1_reference_length; lia|]. cbn [mbind option_bind]. by apply sha1_finish_fed.
Qed.

Lemma sha1_hmac_correct_witness :
  sha1_hmac (replicate 64 0) [1; 2; 3] [97; 98; 99] = Some (hmac_sha1 (take 64 [1; 2; 3]) [97; 98; 99]).
Proof. apply (sha1_hmac_correct (replicate 64 0) [1; 2; 3] [97; 98; 99]); [reflexivity | simpl; lia]. Defined.
