(* ===== verification/Md5.v ===== *)
(** * Md5: [lib/md5.c]

    The code against RFC 1321.  [MD5Update] counts bits and transforms its
    own buffer in place; the machine is little-endian.  The reference is
    the RFC's block function applied to the padded message. *)
From S2P Require Import Prelude Digest.

Abbreviation word := Z.

(** ** The code *)

Record MD5Context := mk_md5 { md5_buf : list word; bits0 : Z; bits1 : Z; md5_in : list Z }.

(** Storing a 32-bit word in memory, and the word at a byte address. *)
Definition store32 (t : Z) : list Z := [u8 t; u8 (Z.shiftr t 8); u8 (Z.shiftr t 16); u8 (Z.shiftr t 24)].

Definition load32 (b : list Z) (i : nat) : Z :=
  nth i b 0 + nth (i + 1) b 0 * 2 ^ 8 + nth (i + 2) b 0 * 2 ^ 16 + nth (i + 3) b 0 * 2 ^ 24.

(** The array [in32], which shares its memory with [in]. *)
Definition in32 (b : list Z) : list word := map (fun i => load32 b (4 * i)) (seq 0 16).

Fixpoint byteReverse (longs : nat) (buf : list Z) : list Z :=
  match longs, buf with
  | S longs, b0 :: b1 :: b2 :: b3 :: buf =>
      let t := Z.lor (u32 (Z.shiftl (Z.lor (Z.shiftl b3 8) b2) 16)) (Z.lor (Z.shiftl b1 8) b0) in
      store32 t ++ byteReverse longs buf
  | _, _ => buf
  end.

Definition F1 (x y z : Z) : Z := Z.lxor z (Z.land x (Z.lxor y z)).
Definition F2 (x y z : Z) : Z := F1 z x y.
Definition F3 (x y z : Z) : Z := Z.lxor (Z.lxor x y) z.
Definition F4 (x y z : Z) : Z := Z.lxor y (Z.lor x (u32 (Z.lnot z))).

Definition step_fun (t : nat) : Z -> Z -> Z -> Z :=
  match (t / 16)%nat with O => F1 | 1%nat => F2 | 2%nat => F3 | _ => F4 end.

(** The index into [in], the constant and the shift of the 64 steps. *)
Definition md5_steps : list (nat * word * Z) :=
  [(0%nat, 0xd76aa478, 7); (1%nat, 0xe8c7b756, 12); (2%nat, 0x242070db, 17); (3%nat, 0xc1bdceee, 22);
   (4%nat, 0xf57c0faf, 7); (5%nat, 0x4787c62a, 12); (6%nat, 0xa8304613, 17); (7%nat, 0xfd469501, 22);
   (8%nat, 0x698098d8, 7); (9%nat, 0x8b44f7af, 12); (10%nat, 0xffff5bb1, 17); (11%nat, 0x895cd7be, 22);
   (12%nat, 0x6b901122, 7); (13%nat, 0xfd987193, 12); (14%nat, 0xa679438e, 17); (15%nat, 0x49b40821, 22);
   (1%nat, 0xf61e2562, 5); (6%nat, 0xc040b340, 9); (11%nat, 0x265e5a51, 14); (0%nat, 0xe9b6c7aa, 20);
   (5%nat, 0xd62f105d, 5); (10%nat, 0x02441453, 9); (15%nat, 0xd8a1e681, 14); (4%nat, 0xe7d3fbc8, 20);
   (9%nat, 0x21e1cde6, 5); (14%nat, 0xc33707d6, 9); (3%nat, 0xf4d50d87, 14); (8%nat, 0x455a14ed, 20);
   (13%nat, 0xa9e3e905, 5); (2%nat, 0xfcefa3f8, 9); (7%nat, 0x676f02d9, 14); (12%nat, 0x8d2a4c8a, 20);
   (5%nat, 0xfffa3942, 4); (8%nat, 0x8771f681, 11); (11%nat, 0x6d9d6122, 16); (14%nat, 0xfde5380c, 23);
   (1%nat, 0xa4beea44, 4); (4%nat, 0x4bdecfa9, 11); (7%nat, 0xf6bb4b60, 16); (10%nat, 0xbebfbc70, 23);
   (13%nat, 0x289b7ec6, 4); (0%nat, 0xeaa127fa, 11); (3%nat, 0xd4ef3085, 16); (6%nat, 0x04881d05, 23);
   (9%nat, 0xd9d4d039, 4); (12%nat, 0xe6db99e5, 11); (15%nat, 0x1fa27cf8, 16); (2%nat, 0xc4ac5665, 23);
   (0%nat, 0xf4292244, 6); (7%nat, 0x432aff97, 10); (14%nat, 0xab9423a7, 15); (5%nat, 0xfc93a039, 21);
   (12%nat, 0x655b59c3, 6); (3%nat, 0x8f0ccc92, 10); (10%nat, 0xffeff47d, 15); (1%nat, 0x85845dd1, 21);
   (8%nat, 0x6fa87e4f, 6); (15%nat, 0xfe2ce6e0, 10); (6%nat, 0xa3014314, 15); (13%nat, 0x4e0811a1, 21);
   (4%nat, 0xf7537e82, 6); (11%nat, 0xbd3af235, 10); (2%nat, 0x2ad7d2bb, 15); (9%nat, 0xeb86d391, 21)].

(** The register passed as argument [i] of step [t]: the steps are made with
    [a, b, c, d], then [d, a, b, c], [c, d, a, b], [b, c, d, a], ... *)
Definition arg_md5 (t i : nat) : nat := (i + 3 * t) mod 4.

(** [MD5STEP(f, w, x, y, z, data, s)] *)
Definition MD5STEP (regs : list word) (t : nat) (data s : Z) : list word :=
  let r i := nth (arg_md5 t i) regs 0 in
  let w := u32 (r 0%nat + (step_fun t (r 1%nat) (r 2%nat) (r 3%nat) + data)) in
  let w := Z.lor (u32 (Z.shiftl w s)) (Z.shiftr w (32 - s)) in
  let w := u32 (w + r 1%nat) in
  <[arg_md5 t 0 := w]> regs.

Definition MD5Transform (buf : list word) (in_ : list word) : list word :=
  let regs := fold_left (fun regs t =>
    let '(k, c, s) := nth t md5_steps (O, 0, 0) in
    MD5STEP regs t (u32 (nth k in_ 0 + c)) s) (seq 0 64) buf in
  zip_with (fun s r => u32 (s + r)) buf regs.

(** The state on the stack is not initialised: [in_] is arbitrary. *)
Definition MD5Init (in_ : list Z) : MD5Context :=
  mk_md5 [0x67452301; 0xefcdab89; 0x98badcfe; 0x10325476] 0 0 in_.

(** The transform of a full buffer. *)
Definition transform_in (buf : list word) (in_ : list Z) : list word * list Z :=
  let in_ := byteReverse 16 in_ in (MD5Transform buf (in32 in_), in_).

(** [while (len >= 64)] *)
Fixpoint md5_blocks (fuel : nat) (buf : list word) (in_ data : list Z) : option (list word * list Z * list Z) :=
  match fuel with
  | O => None
  | S fuel =>
      if 64 <=? Z.of_nat (length data) then
        in_ ← copy_at in_ 0 (take 64 data);
        let '(buf, in_) := transform_in buf in_ in
        md5_blocks fuel buf in_ (drop 64 data)
      else Some (buf, in_, data)
  end.

Definition MD5Update (ctx : MD5Context) (data : list Z) : option MD5Context :=
  let len := Z.of_nat (length data) in
  let t := bits0 ctx in
  let b0 := u32 (t + u32 (Z.shiftl len 3)) in
  let b1 := if b0 <? t then u32 (bits1 ctx + 1) else bits1 ctx in
  let b1 := u32 (b1 + Z.shiftr len 29) in
  let t := Z.land (Z.shiftr t 3) 63 in
  let rest (buf : list word) (in_ data : list Z) :=
    '(buf, in_, data) ← md5_blocks (S (length data)) buf in_ data;
    in_ ← copy_at in_ 0 data;
    Some (mk_md5 buf b0 b1 in_) in
  if negb (t =? 0) then
    let n := 64 - t in
    if len <? n then
      in_ ← copy_at (md5_in ctx) t data;
      Some (mk_md5 (md5_buf ctx) b0 b1 in_)
    else
      in_ ← copy_at (md5_in ctx) t (take (Z.to_nat n) data);
      let '(buf, in_) := transform_in (md5_buf ctx) in_ in
      rest buf in_ (drop (Z.to_nat n) data)
  else rest (md5_buf ctx) (md5_in ctx) data.

(** The digest; the context is cleared afterwards. *)
Definition MD5Final (ctx : MD5Context) : option (list Z) :=
  let count := Z.land (Z.shiftr (bits0 ctx) 3) 63 in
  in_ ← copy_at (md5_in ctx) count [128];
  let p := count + 1 in
  let count := 64 - 1 - count in
  '(buf, in_) ← (if count <? 8 then
      in_ ← copy_at in_ p (replicate (Z.to_nat count) 0);
      let '(buf, in_) := transform_in (md5_buf ctx) in_ in
      in_ ← copy_at in_ 0 (replicate 56 0);
      Some (buf, in_)
    else
      in_ ← copy_at in_ p (replicate (Z.to_nat (count - 8)) 0);
      Some (md5_buf ctx, in_));
  let in_ := byteReverse 14 in_ in
  in_ ← copy_at in_ 56 (store32 (bits0 ctx) ++ store32 (bits1 ctx));
  let buf := MD5Transform buf (in32 in_) in
  Some (byteReverse 4 (concat (map store32 buf))).

Definition md5 (in_ input : list Z) : option (list Z) :=
  ctx ← MD5Update (MD5Init in_) input; MD5Final ctx.

(** [while (curr < end)] of [md5_wd], with a watchdog configured. *)
Fixpoint md5_chunks (fuel : nat) (ctx : MD5Context) (input : list Z) (chunk_sz : Z) : option MD5Context :=
  match fuel with
  | O => None
  | S fuel =>
      if 0 <? Z.of_nat (length input) then
        let chunk := Z.of_nat (length input) in
        let chunk := if chunk >? chunk_sz then chunk_sz else chunk in
        ctx ← MD5Update ctx (take (Z.to_nat chunk) input);
        md5_chunks fuel ctx (drop (Z.to_nat chunk) input) chunk_sz
      else Some ctx
  end.

Definition md5_wd (watchdog : bool) (in_ input : list Z) (chunk_sz : Z) : option (list Z) :=
  ctx ← (if watchdog then md5_chunks (S (length input)) (MD5Init in_) input chunk_sz
         else MD5Update (MD5Init in_) input);
  MD5Final ctx.

(** ** The RFC *)

Definition rotl5 (n x : Z) : Z := (x * 2 ^ n) mod 2 ^ 32 + x / 2 ^ (32 - n).

Definition rfc_fun (t : nat) (x y z : Z) : Z :=
  match (t / 16)%nat with
  | O => Z.lor (Z.land x y) (Z.land (Z.lnot x) z)
  | 1%nat => Z.lor (Z.land x z) (Z.land y (Z.lnot z))
  | 2%nat => Z.lxor (Z.lxor x y) z
  | _ => Z.lxor y (Z.lor x (u32 (Z.lnot z)))
  end.

(** The word used in step [t], and the amount of the rotation. *)
Definition rfc_index (t : nat) : nat :=
  match (t / 16)%nat with
  | O => t mod 16
  | 1%nat => (1 + 5 * t) mod 16
  | 2%nat => (5 + 3 * t) mod 16
  | _ => (7 * t) mod 16
  end.

Definition rfc_shift (t : nat) : Z :=
  nth (t mod 4) (match (t / 16)%nat with
    | O => [7; 12; 17; 22] | 1%nat => [5; 9; 14; 20] | 2%nat => [4; 11; 16; 23] | _ => [6; 10; 15; 21] end) 0.

(** The table of the integer parts of [2 ^ 32 * abs(sin(t + 1))]. *)
Definition rfc_T (t : nat) : word := snd (fst (nth t md5_steps (O, 0, 0))).

Definition rfc_round (t : nat) (v : list word) (X : list word) : list word :=
  match v with
  | [a; b; c; d] =>
      [d; u32 (b + rotl5 (rfc_shift t) (u32 (a + rfc_fun t b c d + nth (rfc_index t) X 0 + rfc_T t))); b; c]
  | _ => v
  end.

Definition rfc_rounds (v X : list word) (n : nat) : list word :=
  fold_left (fun v t => rfc_round t v X) (seq 0 n) v.

Definition rfc_block (st : list word) (M : list Z) : list word :=
  zip_with (fun s r => u32 (s + r)) st (rfc_rounds st (in32 M) 64).

Definition pad_le (msg : list Z) : list Z :=
  msg ++ 128 :: replicate (pad_zeros (Z.of_nat (length msg))) 0 ++ rev (be64 (8 * Z.of_nat (length msg))).

Definition md5_state0 : list word := [0x67452301; 0xefcdab89; 0x98badcfe; 0x10325476].

Definition md5_reference (msg : list Z) : list Z :=
  concat (map store32 (fst (absorb rfc_block md5_state0 (pad_le msg)))).

(** ** The transform *)

Lemma step_fun_rfc t x y z : step_fun t x y z = rfc_fun t x y z.
Proof.
  unfold step_fun, rfc_fun. destruct (t / 16)%nat as [|[|[|]]]; [| |done|done].
  all: apply Z.bits_inj'; intros i Hi; unfold F2, F1;
    repeat rewrite ?Z.lxor_spec, ?Z.lor_spec, ?Z.land_spec, ?Z.lnot_spec by done;
    by destruct (Z.testbit x i), (Z.testbit y i), (Z.testbit z i).
Qed.

(** The table of the steps is the one of the RFC. *)
Lemma md5_steps_rfc t : (t < 64)%nat -> nth t md5_steps (O, 0, 0) = (rfc_index t, rfc_T t, rfc_shift t).
Proof.
  intros Ht. assert (Hall : forallb (fun t => let '(k, _, s) := nth t md5_steps (O, 0, 0) in
    (k =? rfc_index t)%nat && (s =? rfc_shift t)) (seq 0 64) = true) by by vm_compute.
  rewrite forallb_forall in Hall. specialize (Hall t ltac:(apply in_seq; lia)). unfold rfc_T.
  destruct (nth t md5_steps (O, 0, 0)) as [[k c] s]. cbn [fst snd].
  apply andb_prop in Hall as [->%Nat.eqb_eq ->%Z.eqb_eq]. done.
Qed.

Lemma rfc_shift_range t : (t < 64)%nat -> 0 < rfc_shift t < 32.
Proof.
  intros Ht. assert (Hall : forallb (fun t => (0 <? rfc_shift t) && (rfc_shift t <? 32)) (seq 0 64) = true) by by vm_compute.
  rewrite forallb_forall in Hall. specialize (Hall t ltac:(apply in_seq; lia)). zbool. lia.
Qed.

Lemma rot_rotl5 w s : 0 < s < 32 -> 0 <= w < 2 ^ 32 ->
  Z.lor (u32 (Z.shiftl w s)) (Z.shiftr w (32 - s)) = rotl5 s w.
Proof.
  intros Hs Hw. unfold rotl5. rewrite Z.shiftl_mul_pow2, Z.shiftr_div_pow2 by lia. unfold u32.
  replace (2 ^ 32) with (2 ^ (32 - s) * 2 ^ s) at 1 2 by (rewrite <- Z.pow_add_r by lia; f_equal; lia).
  rewrite Z.mul_mod_distr_r by lia. apply lor_low; [lia|].
  split; [apply Z.div_pos; lia|]. apply Z.div_lt_upper_bound; [lia|].
  rewrite <- Z.pow_add_r by lia. replace (32 - s + s) with 32 by lia. lia.
Qed.

Definition rotated4 (t : nat) (v : list word) : list word := drop (t mod 4) v ++ take (t mod 4) v.

Lemma MD5STEP_round t v X : length v = 4%nat -> (t < 64)%nat ->
  MD5STEP (rotated4 t v) t (u32 (nth (rfc_index t) X 0 + rfc_T t)) (rfc_shift t) = rotated4 (S t) (rfc_round t v X) /\
  length (rfc_round t v X) = 4%nat.
Proof.
  intros Hv Ht. do 4 (destruct v as [|? v]; [done|]). destruct v; [|done]. split; [|done].
  pose proof (rfc_shift_range t Ht) as Hs. unfold MD5STEP, rotated4, arg_md5.
  assert (Hidx : forall i, ((i + 3 * t) mod 4 = (i + 3 * (t mod 4)) mod 4)%nat).
  { intros i. rewrite (Nat.Div0.add_mod i (3 * t)), (Nat.Div0.add_mod i (3 * (t mod 4))).
    by rewrite Nat.Div0.mul_mod_idemp_r. }
  rewrite !Hidx. replace (S t mod 4)%nat with (S (t mod 4) mod 4)%nat
    by (rewrite <- (Nat.add_1_l t), <- (Nat.add_1_l (t mod 4)); apply Nat.Div0.add_mod_idemp_r).
  assert (Hsum : forall a f, u32 (a + (f + u32 (nth (rfc_index t) X 0 + rfc_T t))) =
    u32 (a + f + nth (rfc_index t) X 0 + rfc_T t)).
  { intros a f. unfold u32. rewrite !Z.add_assoc, Zplus_mod_idemp_r. f_equal. lia. }
  assert (Hj : (t mod 4 < 4)%nat) by (apply Nat.mod_upper_bound; lia). unfold rfc_round.
  destruct (t mod 4)%nat as [|[|[|[|]]]]; [..|lia].
  all: cbn [Nat.modulo Nat.divmod Nat.add Nat.mul Nat.sub fst snd drop take app nth insert list_insert].
  all: rewrite Hsum, rot_rotl5, step_fun_rfc, Z.add_comm by (lia || apply u32_range); done.
Qed.

Lemma rfc_rounds_S v X n : rfc_rounds v X (S n) = rfc_round n (rfc_rounds v X n) X.
Proof. unfold rfc_rounds. by rewrite seq_S, fold_left_app. Qed.

Lemma transform_rfc st X : length st = 4%nat ->
  MD5Transform st X = zip_with (fun s r => u32 (s + r)) st (rfc_rounds st X 64) /\
  length (rfc_rounds st X 64) = 4%nat.
Proof.
  intros Hst. unfold MD5Transform.
  assert (Hn : forall n, (n <= 64)%nat ->
    fold_left (fun regs t => let '(k, c, s) := nth t md5_steps (O, 0, 0) in MD5STEP regs t (u32 (nth k X 0 + c)) s)
      (seq 0 n) st = rotated4 n (rfc_rounds st X n) /\ length (rfc_rounds st X n) = 4%nat).
  { induction n as [|n IH]; intros Hn.
    - split; [|exact Hst]. unfold rotated4, rfc_rounds. cbn [seq fold_left]. change (0 mod 4)%nat with O.
      cbn [drop take]. rewrite app_nil_r. reflexivity.
    - destruct IH as [IH Hl]; [lia|]. rewrite seq_S, fold_left_app, IH. cbn [fold_left Nat.add].
      rewrite md5_steps_rfc, rfc_rounds_S by lia. by apply MD5STEP_round. }
  destruct (Hn 64%nat) as [-> Hl]; [lia|]. split; [|exact Hl]. unfold rotated4. change (64 mod 4)%nat with O.
  cbn [drop take]. rewrite app_nil_r. reflexivity.
Qed.

(** ** Bytes *)

Definition is_byte (b : Z) : Prop := 0 <= b < 256.

Lemma u8_byte b q : is_byte b -> u8 (b + q * 256) = b.
Proof. intros Hb. unfold u8, is_byte in *. change (2 ^ 8) with 256. rewrite Z.mod_add by lia. by apply Z.mod_small. Qed.

(** On a little-endian machine [byteReverse] leaves the buffer as it is. *)
Lemma byteReverse_id n buf : Forall is_byte buf -> byteReverse n buf = buf.
Proof.
  revert buf. induction n as [|n IH]; intros buf Hb; [done|].
  destruct Hb as [|b0 buf H0 [|b1 buf' H1 [|b2 buf2 H2 [|b3 buf3 H3 Hb]]]]; try done. cbn [byteReverse].
  rewrite IH by done. cut (forall l : list Z, l = [b0; b1; b2; b3] -> l ++ buf3 = b0 :: b1 :: b2 :: b3 :: buf3);
    [intros Hc; apply Hc | by intros l ->].
  unfold is_byte in *. rewrite !Z.shiftl_mul_pow2 by lia. rewrite !lor_low by lia.
  rewrite u32_small by nia.
  rewrite lor_low by lia. unfold store32. rewrite !Z.shiftr_div_pow2 by lia.
  set (t := (b3 * 2 ^ 8 + b2) * 2 ^ 16 + (b1 * 2 ^ 8 + b0)).
  assert (E0 : t = b0 + (b1 + b2 * 2 ^ 8 + b3 * 2 ^ 16) * 256) by (unfold t; lia).
  assert (E1 : t / 2 ^ 8 = b1 + (b2 + b3 * 2 ^ 8) * 256) by (symmetry; apply Z.div_unique with b0; unfold t; lia).
  assert (E2 : t / 2 ^ 16 = b2 + b3 * 256) by (symmetry; apply Z.div_unique with (b0 + b1 * 2 ^ 8); unfold t; lia).
  assert (E3 : t / 2 ^ 24 = b3 + 0 * 256)
    by (symmetry; apply Z.div_unique with (b0 + b1 * 2 ^ 8 + b2 * 2 ^ 16); unfold t; lia).
  rewrite E1, E2, E3, E0, !u8_byte by done. done.
Qed.

Lemma store32_bytes t : Forall is_byte (store32 t).
Proof. repeat constructor; apply (u8_range _). Qed.

Lemma transform_in_rfc st in_ : length st = 4%nat -> Forall is_byte in_ ->
  transform_in st in_ = (rfc_block st in_, in_) /\ length (rfc_block st in_) = 4%nat.
Proof.
  intros Hst Hb. unfold transform_in. rewrite byteReverse_id by done.
  destruct (transform_rfc st (in32 in_) Hst) as [-> Hl]. split; [reflexivity|].
  unfold rfc_block. rewrite length_zip_with, Hst, Hl. reflexivity.
Qed.

Lemma copy_at_bytes buf i s buf' :
  Forall is_byte buf -> Forall is_byte s -> copy_at buf i s = Some buf' -> Forall is_byte buf'.
Proof.
  intros Hb Hs. unfold copy_at. destruct (_ && _); [|done]. intros [= <-].
  repeat apply Forall_app_2; [by apply Forall_take | done | by apply Forall_drop].
Qed.

Lemma md5_blocks_absorb : forall st data fuel in_,
  length st = 4%nat -> Forall is_byte data -> Forall is_byte in_ -> length in_ = 64%nat -> (length data < fuel)%nat ->
  exists in', md5_blocks fuel st in_ data = Some (fst (absorb rfc_block st data), in', snd (absorb rfc_block st data)) /\
    Forall is_byte in' /\ length in' = 64%nat.
Proof.
  apply (absorb_ind rfc_block (fun st data => forall fuel in_,
    length st = 4%nat -> Forall is_byte data -> Forall is_byte in_ -> length in_ = 64%nat -> (length data < fuel)%nat ->
    exists in', md5_blocks fuel st in_ data = Some (fst (absorb rfc_block st data), in', snd (absorb rfc_block st data)) /\
      Forall is_byte in' /\ length in' = 64%nat)).
  - intros st msg Hm [|fuel] in_ Hst Hd Hi Hl Hf; [lia|]. cbn [md5_blocks]. zcase; [lia|].
    rewrite absorb_short by done. by exists in_.
  - intros st b msg Hb IH [|fuel] in_ Hst Hd Hi Hl Hf; [lia|]. cbn [md5_blocks].
    rewrite length_app in *. zcase; [|lia]. apply Forall_app in Hd as [Hdb Hdm].
    rewrite take_app_length', drop_app_length' by done.
    rewrite (copy_at_spec _ _ b []) by (done || (simpl; lia)). cbn [mbind option_bind app length Nat.add].
    rewrite drop_ge, app_nil_r by lia. destruct (transform_in_rfc st b Hst Hdb) as [-> Hst'].
    rewrite absorb_block by done. apply IH; (done || lia).
Qed.

(** ** Feeding a context *)

Record Fed5 (ctx : MD5Context) (msg : list Z) : Prop := {
  f5_bits0 : bits0 ctx = u32 (8 * Z.of_nat (length msg));
  f5_bits1 : bits1 ctx = u32 (8 * Z.of_nat (length msg) / 2 ^ 32);
  f5_state : md5_buf ctx = fst (absorb rfc_block md5_state0 msg);
  f5_in : take (length (snd (absorb rfc_block md5_state0 msg))) (md5_in ctx) = snd (absorb rfc_block md5_state0 msg);
  f5_length : length (md5_in ctx) = 64%nat;
  f5_bytes : Forall is_byte (md5_in ctx) }.

Lemma rfc_state_length msg : length (fst (absorb rfc_block md5_state0 msg)) = 4%nat.
Proof.
  apply (absorb_ext rfc_block rfc_block (fun st => length st = 4%nat)); [|done].
  intros st b Hst. split; [done|]. unfold rfc_block. destruct (transform_rfc st (in32 b) Hst) as [_ Hl].
  by rewrite length_zip_with, Hst, Hl.
Qed.

Lemma count_left ctx msg : Fed5 ctx msg ->
  Z.land (Z.shiftr (bits0 ctx) 3) 63 = Z.of_nat (length (snd (absorb rfc_block md5_state0 msg))).
Proof.
  intros HF. rewrite land_63, (f5_bits0 _ _ HF), Z.shiftr_div_pow2 by lia. unfold u32.
  rewrite (proj2 (absorb_rest rfc_block md5_state0 msg)), Nat2Z.inj_mod.
  set (n := Z.of_nat (length msg)). replace (2 ^ 32) with (8 * 2 ^ 29) by lia.
  rewrite Zmult_mod_distr_l by lia. change (2 ^ 3) with 8. rewrite Z.mul_comm, Z.div_mul by lia.
  replace (2 ^ 29) with (64 * 2 ^ 23) by lia. rewrite Z.rem_mul_r by lia.
  rewrite Z.mul_comm, Z.mod_add by lia. apply Z.mod_mod. lia.
Qed.

(** The carry between the two words of the bit count. *)
Lemma bits_carry A B : 0 <= A -> 0 <= B ->
  u32 ((if u32 (u32 A + u32 B) <? u32 A then u32 (u32 (A / 2 ^ 32) + 1) else u32 (A / 2 ^ 32)) + B / 2 ^ 32) =
  u32 ((A + B) / 2 ^ 32).
Proof.
  intros HA HB. unfold u32. pose proof (Z.mod_pos_bound A (2 ^ 32)). pose proof (Z.mod_pos_bound B (2 ^ 32)).
  pose proof (Z.div_mod A (2 ^ 32)). pose proof (Z.div_mod B (2 ^ 32)).
  set (a := A mod 2 ^ 32) in *. set (b := B mod 2 ^ 32) in *.
  destruct (Z.lt_ge_cases (a + b) (2 ^ 32)) as [Hc|Hc].
  - rewrite (Z.mod_small (a + b)) by lia. zcase; [lia|]. rewrite Zplus_mod_idemp_l. f_equal.
    apply Z.div_unique with (a + b); lia.
  - rewrite <- (Z.mod_add (a + b) (-1)), (Z.mod_small (a + b + _)) by lia. zcase; [|lia].
    rewrite Zplus_mod_idemp_l, <- Z.add_assoc, Zplus_mod_idemp_l. f_equal.
    apply Z.div_unique with (a + b - 2 ^ 32); lia.
Qed.

Section update.
Variables (ctx : MD5Context) (msg data : list Z).
Hypothesis HF : Fed5 ctx msg.
Hypothesis Hlen : Z.of_nat (length data) < 2 ^ 32.
Hypothesis Hdata : Forall is_byte data.

#[local] Abbreviation st := (fst (absorb rfc_block md5_state0 msg)).
#[local] Abbreviation r := (snd (absorb rfc_block md5_state0 msg)).
#[local] Abbreviation out := (absorb rfc_block st (r ++ data)).

Lemma fed5_next st' in' b0 b1 :
  b0 = u32 (u32 (8 * Z.of_nat (length msg)) + u32 (8 * Z.of_nat (length data))) ->
  b1 = u32 ((8 * Z.of_nat (length msg) + 8 * Z.of_nat (length data)) / 2 ^ 32) ->
  st' = fst out -> take (length (snd out)) in' = snd out -> length in' = 64%nat -> Forall is_byte in' ->
  Fed5 (mk_md5 st' b0 b1 in') (msg ++ data).
Proof using Type.
  intros -> -> -> Ht Hl Hb.
  assert (Hab : absorb rfc_block md5_state0 (msg ++ data) = out).
  { rewrite absorb_app. by destruct (absorb rfc_block md5_state0 msg). }
  split; cbn [bits0 bits1 md5_buf md5_in]; rewrite ?Hab; try done.
  - rewrite length_app, Nat2Z.inj_add, Z.mul_add_distr_l. unfold u32. by rewrite <- Zplus_mod.
  - by rewrite length_app, Nat2Z.inj_add, Z.mul_add_distr_l.
Qed.

(** The part of [MD5Update] after the leading odd-sized chunk. *)
Lemma update_rest st1 in1 data1 b0 b1 :
  length st1 = 4%nat -> Forall is_byte data1 -> Forall is_byte in1 -> length in1 = 64%nat ->
  b0 = u32 (u32 (8 * Z.of_nat (length msg)) + u32 (8 * Z.of_nat (length data))) ->
  b1 = u32 ((8 * Z.of_nat (length msg) + 8 * Z.of_nat (length data)) / 2 ^ 32) ->
  absorb rfc_block st1 data1 = out ->
  exists ctx', ('(buf, in_, data) ← md5_blocks (S (length data1)) st1 in1 data1;
    in_ ← copy_at in_ 0 data; Some (mk_md5 buf b0 b1 in_)) = Some ctx' /\ Fed5 ctx' (msg ++ data).
Proof using HF.
  intros Hst Hd Hi Hl Hb0 Hb1 Hab.
  destruct (md5_blocks_absorb st1 data1 (S (length data1)) in1) as (in' & -> & Hb' & Hl'); [done..|lia|].
  cbn [mbind option_bind]. pose proof (proj1 (absorb_rest rfc_block st1 data1)) as Hr. rewrite Hab in *.
  assert (Hbr : Forall is_byte (snd out)).
  { rewrite <- Hab. clear -Hd. revert Hd. revert st1 data1.
    apply (absorb_ind rfc_block (fun st d => Forall is_byte d -> Forall is_byte (snd (absorb rfc_block st d)))).
    - intros st msg Hm Hd. by rewrite absorb_short.
    - intros st b msg Hb IH [_ Hd]%Forall_app. rewrite absorb_block by done. by apply IH. }
  rewrite (copy_at_spec in' 0 (snd out) []) by (done || (simpl; lia)). cbn [mbind option_bind app].
  eexists. split; [done|]. apply fed5_next; try done.
  - by rewrite take_app_length'.
  - rewrite length_app, length_drop. simpl. lia.
  - apply Forall_app_2; [done | by apply Forall_drop].
Qed.

Lemma md5_update_fed : exists ctx', MD5Update ctx data = Some ctx' /\ Fed5 ctx' (msg ++ data).
Proof using HF Hlen Hdata.
  unfold MD5Update. pose proof (rfc_state_length msg) as Hst.
  rewrite (count_left _ _ HF), (f5_bits0 _ _ HF), (f5_bits1 _ _ HF).
  rewrite Z.shiftl_mul_pow2, Z.shiftr_div_pow2 by lia. change (2 ^ 3) with 8. rewrite (Z.mul_comm (Z.of_nat _) 8).
  assert (Hq : Z.of_nat (length data) / 2 ^ 29 = 8 * Z.of_nat (length data) / 2 ^ 32).
  { replace (2 ^ 32) with (8 * 2 ^ 29) by lia. by rewrite Z.div_mul_cancel_l by lia. }
  rewrite Hq, bits_carry by lia. clear Hq.
  pose proof (proj1 (absorb_rest rfc_block md5_state0 msg)) as Hr. pose proof (f5_in _ _ HF) as Hin.
  pose proof (f5_length _ _ HF) as Hl. pose proof (f5_bytes _ _ HF) as Hb. rewrite (f5_state _ _ HF).
  destruct (Z.eqb_spec (Z.of_nat (length r)) 0) as [E|E]; cbn [negb].
  { apply update_rest; try done. by destruct r; [|simpl in E; lia]. }
  destruct (Z.ltb_spec (Z.of_nat (length data)) (64 - Z.of_nat (length r))) as [Hs|Hs].
  - rewrite (copy_at_spec _ _ data r) by (done || lia). cbn [mbind option_bind]. eexists. split; [done|].
    assert (Hout : out = (st, r ++ data)) by (apply absorb_short; rewrite length_app; lia).
    apply fed5_next; try done; rewrite ?Hout; cbn [fst snd]; try done.
    + rewrite app_assoc. by rewrite take_app_length'.
    + rewrite !length_app, length_drop. lia.
    + rewrite <- Hin. repeat apply Forall_app_2; [by apply Forall_take | done | by apply Forall_drop].
  - set (n := Z.to_nat (64 - Z.of_nat (length r))).
    rewrite (copy_at_spec _ _ (take n data) r) by (done || rewrite length_take; lia). cbn [mbind option_bind].
    rewrite length_take, drop_ge, app_nil_r by lia.
    assert (Hbk : Forall is_byte (r ++ take n data)).
    { apply Forall_app_2; [rewrite <- Hin; by apply Forall_take | by apply Forall_take]. }
    assert (Hkl : length (r ++ take n data) = 64%nat) by (rewrite length_app, length_take; lia).
    destruct (transform_in_rfc st (r ++ take n data) Hst Hbk) as [-> Hst'].
    apply update_rest; try done; [by apply Forall_drop|].
    rewrite <- (take_drop n data) at 3. rewrite app_assoc, absorb_block by done. done.
Qed.
End update.

(** ** Finishing *)

Lemma length_le64 n : store32 (u32 n) ++ store32 (u32 (n / 2 ^ 32)) = rev (be64 n).
Proof.
  unfold store32, be64. cbn [map rev app]. rewrite !u8_u32, !u8_u32_0, !Z.div_div by lia.
  change (256 ^ 0) with 1. rewrite Z.div_1_r. reflexivity.
Qed.

Lemma final_block st in_ : length st = 4%nat -> MD5Transform st (in32 in_) = rfc_block st in_.
Proof. intros Hst. by destruct (transform_rfc st (in32 in_) Hst). Qed.

Lemma digest_bytes st : byteReverse 4 (concat (map store32 st)) = concat (map store32 st).
Proof.
  apply byteReverse_id. induction st as [|x st IH]; [constructor|]. cbn [map concat].
  apply Forall_app_2; [apply store32_bytes | done].
Qed.

(** The number of padding bytes for the bytes left over. *)
Lemma pad_zeros_left msg :
  pad_zeros (Z.of_nat (length msg)) =
  (let c := length (snd (absorb rfc_block md5_state0 msg)) in if (c <? 56)%nat then 55 - c else 119 - c)%nat.
Proof.
  unfold pad_zeros. pose proof (pad_count (Z.of_nat (length msg)) ltac:(lia)) as Hp.
  rewrite (proj2 (absorb_rest rfc_block md5_state0 msg)). cbn zeta.
  pose proof (Nat2Z.inj_mod (length msg) 64) as Hm. change (Z.of_nat 64) with 64 in Hm. rewrite <- Hm in Hp.
  pose proof (Nat.mod_upper_bound (length msg) 64 ltac:(lia)).
  destruct (Nat.ltb_spec (length msg mod 64) 56); zcase_in Hp; lia.
Qed.

Lemma copy_zeros buf i n pre :
  take (length pre) buf = pre -> i = Z.of_nat (length pre) -> (length pre + n <= length buf)%nat ->
  copy_at buf i (replicate n 0) = Some (pre ++ replicate n 0 ++ drop (length pre + n) buf).
Proof.
  intros Ht Hi Hl. rewrite (copy_at_spec buf i _ pre) by (done || (rewrite length_replicate; lia)).
  by rewrite length_replicate.
Qed.

Ltac lens := repeat (rewrite ?length_app, ?length_replicate, ?length_drop, ?length_take; cbn [length]); lia.

Lemma bytes_128 r : Forall is_byte r -> Forall is_byte (r ++ [128]).
Proof. intros Hr. apply Forall_app_2; [done|]. repeat constructor; unfold is_byte; lia. Qed.

Lemma bytes_0 n : Forall is_byte (replicate n 0).
Proof. apply Forall_replicate. unfold is_byte. lia. Qed.

(** The two ways of [MD5Final] to complete the message, for the bytes [r] left
    over, followed in the buffer by [128] and stale bytes. *)
Section final.
Variables (st : list word) (r tl lens_ : list Z).
Hypothesis Hst : length st = 4%nat.
Hypothesis Hr : (length r + length tl = 63)%nat.
Hypothesis Hll : length lens_ = 8%nat.
Hypothesis Hbr : Forall is_byte r.
Hypothesis Htb : Forall is_byte tl.

Lemma final_two_blocks n : n = (63 - length r)%nat -> (55 < length r)%nat ->
  exists buf in_,
    (in_ ← copy_at ((r ++ [128]) ++ tl) (Z.of_nat (length r) + 1) (replicate n 0);
     let '(buf, in_) := transform_in st in_ in
     in_ ← copy_at in_ 0 (replicate 56 0); Some (buf, in_)) = Some (buf, in_) /\
    Forall is_byte in_ /\
    (in_ ← copy_at in_ 56 lens_; Some (MD5Transform buf (in32 in_))) =
      Some (fst (absorb rfc_block st (r ++ 128 :: replicate (119 - length r) 0 ++ lens_))).
Proof using Hst Hr Hll Hbr Htb.
  intros -> Hc. rewrite (copy_zeros _ _ _ (r ++ [128])) by (rewrite ?take_app_length; (done || lens)).
  cbn [mbind option_bind]. rewrite drop_ge, app_nil_r by lens. pose proof (bytes_128 r Hbr) as H1. pose proof bytes_0 as H0.
  set (b1 := (r ++ [128]) ++ replicate (63 - length r) 0).
  assert (Hb1 : length b1 = 64%nat) by (unfold b1; lens).
  assert (Hb1b : Forall is_byte b1) by by apply Forall_app_2.
  destruct (transform_in_rfc st b1 Hst Hb1b) as [-> Hst'].
  rewrite (copy_zeros b1 0 56 []) by (done || (simpl; lia)). cbn [mbind option_bind app length Nat.add].
  eexists _, _. split; [done|]. split; [apply Forall_app_2; [done | by apply Forall_drop]|].
  rewrite (copy_at_spec _ _ lens_ (replicate 56 0)) by (done || lens || by rewrite take_app_length').
  cbn [mbind option_bind]. rewrite drop_ge, app_nil_r, final_block by (done || lens). f_equal.
  replace (r ++ 128 :: replicate (119 - length r) 0 ++ lens_) with (b1 ++ (replicate 56 0 ++ lens_) ++ []).
  - by rewrite !absorb_block, absorb_short by (done || lens).
  - unfold b1. rewrite app_nil_r, <- !app_assoc. cbn [app]. do 2 f_equal.
    rewrite app_assoc, <- replicate_add. f_equal. f_equal. lia.
Qed.

Lemma final_one_block n : n = (55 - length r)%nat -> (length r <= 55)%nat ->
  exists in_,
    copy_at ((r ++ [128]) ++ tl) (Z.of_nat (length r) + 1) (replicate n 0) = Some in_ /\
    Forall is_byte in_ /\
    (in_ ← copy_at in_ 56 lens_; Some (MD5Transform st (in32 in_))) =
      Some (fst (absorb rfc_block st (r ++ 128 :: replicate (55 - length r) 0 ++ lens_))).
Proof using Hst Hr Hll Hbr Htb.
  intros -> Hc. pose proof (bytes_128 r Hbr) as H1. pose proof bytes_0 as H0.
  rewrite (copy_zeros _ _ _ (r ++ [128])) by (rewrite ?take_app_length; (done || lens)).
  eexists. split; [done|]. split; [apply Forall_app_2; [done|]; apply Forall_app_2; [done|]; apply Forall_drop; by apply Forall_app_2|].
  rewrite app_assoc, (copy_at_spec _ _ lens_ ((r ++ [128]) ++ replicate (55 - length r) 0)) by
    (rewrite ?take_app_length; (done || lens)).
  cbn [mbind option_bind]. rewrite drop_ge, app_nil_r, final_block by (done || lens). f_equal.
  replace (r ++ 128 :: replicate (55 - length r) 0 ++ lens_)
    with ((((r ++ [128]) ++ replicate (55 - length r) 0) ++ lens_) ++ []).
  - rewrite absorb_block, absorb_short; [done | simpl; lia | lens].
  - by rewrite app_nil_r, <- !app_assoc.
Qed.
End final.

Lemma md5_final_fed ctx msg : Fed5 ctx msg -> MD5Final ctx = Some (md5_reference msg).
Proof.
  intros HF. unfold MD5Final, md5_reference. rewrite (count_left _ _ HF), (f5_state _ _ HF).
  pose proof (pad_zeros_left msg) as Hz. cbn zeta in Hz. pose proof (rfc_state_length msg) as Hst.
  unfold pad_le. rewrite (absorb_app rfc_block md5_state0 msg), Hz. clear Hz.
  pose proof (proj1 (absorb_rest rfc_block md5_state0 msg)) as Hr. pose proof (f5_in _ _ HF) as Hin.
  pose proof (f5_length _ _ HF) as Hl. pose proof (f5_bytes _ _ HF) as Hb.
  rewrite (f5_bits0 _ _ HF), (f5_bits1 _ _ HF), length_le64.
  destruct (absorb rfc_block md5_state0 msg) as [st r]. cbn [fst snd] in *.
  assert (Hbr : Forall is_byte r) by (rewrite <- Hin; by apply Forall_take).
  rewrite (copy_at_spec _ _ [128] r) by (done || (simpl; lia)). cbn [mbind option_bind length].
  set (tl := drop (length r + 1) (md5_in ctx)).
  assert (Htl : (length r + length tl = 63)%nat) by (unfold tl; lens).
  assert (Htb : Forall is_byte tl) by (by apply Forall_drop). rewrite app_assoc.
  set (le := rev (be64 (8 * Z.of_nat (length msg)))).
  destruct (Z.ltb_spec (64 - 1 - Z.of_nat (length r)) 8) as [Hc|Hc];
    destruct (Nat.ltb_spec (length r) 56); try lia.
  - destruct (final_two_blocks st r tl le Hst Htl eq_refl Hbr Htb (Z.to_nat (64 - 1 - Z.of_nat (length r))))
      as (buf & in_ & -> & Hbi & Hfin); [lia | lia |]. cbn [mbind option_bind]. rewrite byteReverse_id by done.
    destruct (copy_at in_ 56 le) as [in2|]; [|done]. cbn [mbind option_bind] in *. injection Hfin as ->.
    by rewrite digest_bytes.
  - destruct (final_one_block st r tl le Hst Htl eq_refl Hbr Htb (Z.to_nat (64 - 1 - Z.of_nat (length r) - 8)))
      as (in_ & -> & Hbi & Hfin); [lia | lia |]. cbn [mbind option_bind]. rewrite byteReverse_id by done.
    destruct (copy_at in_ 56 le) as [in2|]; [|done]. cbn [mbind option_bind] in *. injection Hfin as ->.
    by rewrite digest_bytes.
Qed.

Lemma md5_chunks_fed fuel ctx msg input chunk_sz :
  Fed5 ctx msg -> Z.of_nat (length input) < 2 ^ 32 -> Forall is_byte input -> 0 < chunk_sz -> (length input < fuel)%nat ->
  exists ctx', md5_chunks fuel ctx input chunk_sz = Some ctx' /\ Fed5 ctx' (msg ++ input).
Proof.
  revert ctx msg input. induction fuel as [|fuel IH]; intros ctx msg input HF Hl Hb Hc Hf; [lia|]. cbn [md5_chunks].
  zcase; [|exists ctx; destruct input; [by rewrite app_nil_r | simpl in *; lia]].
  set (chunk := Z.to_nat _).
  assert (Hch : (0 < chunk <= length input)%nat) by (unfold chunk; zcase; lia).
  destruct (md5_update_fed ctx msg (take chunk input) HF) as (c1 & -> & HF1); [lens | by apply Forall_take |].
  cbn [mbind option_bind].
  destruct (IH c1 (msg ++ take chunk input) (drop chunk input) HF1) as (c2 & -> & HF2);
    [lens | by apply Forall_drop | lia | lens |].
  exists c2. split; [done|]. by rewrite <- app_assoc, take_drop in HF2.
Qed.

Lemma fed5_init in_ : length in_ = 64%nat -> Forall is_byte in_ -> Fed5 (MD5Init in_) [].
Proof. intros Hl Hb. by split. Qed.

(** [md5] and [md5_wd] compute the MD5 of RFC 1321 on a little-endian
    machine, with and without a watchdog and for every chunk size, for
    messages of less than 4 GiB and whatever the uninitialised buffer of the
    context holds. *)
Theorem md5_rfc watchdog in_ input chunk_sz :
  length in_ = 64%nat -> Forall is_byte in_ -> Forall is_byte input -> Z.of_nat (length input) < 2 ^ 32 -> 0 < chunk_sz ->
  md5 in_ input = Some (md5_reference input) /\
  md5_wd watchdog in_ input chunk_sz = Some (md5_reference input).
Proof.
  intros Hl Hb Hbi Hlen Hc. pose proof (fed5_init in_ Hl Hb) as H0. unfold md5, md5_wd.
  destruct (md5_update_fed (MD5Init in_) [] input H0 Hlen Hbi) as (ctx & Hrun & HF).
  rewrite Hrun. cbn [mbind option_bind]. split; [by apply md5_final_fed|].
  destruct watchdog; [|by apply md5_final_fed].
  destruct (md5_chunks_fed (S (length input)) (MD5Init in_) [] input chunk_sz H0 Hlen Hbi Hc)
    as (c' & -> & HF'); [lia|]. by apply md5_final_fed.
Qed.

Lemma md5_rfc_witness :
  md5 (replicate 64 0) [97; 98; 99] = Some (md5_reference [97; 98; 99]) /\
  md5_wd true (replicate 64 0) [97; 98; 99] 2 = Some (md5_reference [97; 98; 99]).
Proof.
  apply (md5_rfc true (replicate 64 0) [97; 98; 99] 2);
    [reflexivity | apply bytes_0 | repeat constructor; unfold is_byte; lia | simpl; lia | lia].
Defined.

(** The test vector "abc" of the RFC. *)
Example md5_abc :
  md5_reference [97; 98; 99] =
  [0x90; 0x01; 0x50; 0x98; 0x3c; 0xd2; 0x4f; 0xb0; 0xd6; 0x96; 0x3f; 0x7d; 0x28; 0xe1; 0x7f; 0x72].
Proof. vm_compute. reflexivity. Qed.
