(* ===== verification/Crc.v ===== *)
(** * Crc: the cyclic redundancy checks of [lib/]

    [crc32] (table-driven, a word at a time with alignment of the pointer),
    [cyg_crc16], [crc7] (table-driven) and [crc8] (bit by bit in a 16-bit
    register) against the shift registers of their polynomials. *)
From S2P Require Import Prelude.

(** ** The code *)

(** The table of the little-endian build: [tole(x)] is [x]. *)
Definition crc_table : list Z :=
  [0x00000000; 0x77073096; 0xee0e612c; 0x990951ba; 0x076dc419; 0x706af48f;
   0xe963a535; 0x9e6495a3; 0x0edb8832; 0x79dcb8a4; 0xe0d5e91e; 0x97d2d988;
   0x09b64c2b; 0x7eb17cbd; 0xe7b82d07; 0x90bf1d91; 0x1db71064; 0x6ab020f2;
   0xf3b97148; 0x84be41de; 0x1adad47d; 0x6ddde4eb; 0xf4d4b551; 0x83d385c7;
   0x136c9856; 0x646ba8c0; 0xfd62f97a; 0x8a65c9ec; 0x14015c4f; 0x63066cd9;
   0xfa0f3d63; 0x8d080df5; 0x3b6e20c8; 0x4c69105e; 0xd56041e4; 0xa2677172;
   0x3c03e4d1; 0x4b04d447; 0xd20d85fd; 0xa50ab56b; 0x35b5a8fa; 0x42b2986c;
   0xdbbbc9d6; 0xacbcf940; 0x32d86ce3; 0x45df5c75; 0xdcd60dcf; 0xabd13d59;
   0x26d930ac; 0x51de003a; 0xc8d75180; 0xbfd06116; 0x21b4f4b5; 0x56b3c423;
   0xcfba9599; 0xb8bda50f; 0x2802b89e; 0x5f058808; 0xc60cd9b2; 0xb10be924;
   0x2f6f7c87; 0x58684c11; 0xc1611dab; 0xb6662d3d; 0x76dc4190; 0x01db7106;
   0x98d220bc; 0xefd5102a; 0x71b18589; 0x06b6b51f; 0x9fbfe4a5; 0xe8b8d433;
   0x7807c9a2; 0x0f00f934; 0x9609a88e; 0xe10e9818; 0x7f6a0dbb; 0x086d3d2d;
   0x91646c97; 0xe6635c01; 0x6b6b51f4; 0x1c6c6162; 0x856530d8; 0xf262004e;
   0x6c0695ed; 0x1b01a57b; 0x8208f4c1; 0xf50fc457; 0x65b0d9c6; 0x12b7e950;
   0x8bbeb8ea; 0xfcb9887c; 0x62dd1ddf; 0x15da2d49; 0x8cd37cf3; 0xfbd44c65;
   0x4db26158; 0x3ab551ce; 0xa3bc0074; 0xd4bb30e2; 0x4adfa541; 0x3dd895d7;
   0xa4d1c46d; 0xd3d6f4fb; 0x4369e96a; 0x346ed9fc; 0xad678846; 0xda60b8d0;
   0x44042d73; 0x33031de5; 0xaa0a4c5f; 0xdd0d7cc9; 0x5005713c; 0x270241aa;
   0xbe0b1010; 0xc90c2086; 0x5768b525; 0x206f85b3; 0xb966d409; 0xce61e49f;
   0x5edef90e; 0x29d9c998; 0xb0d09822; 0xc7d7a8b4; 0x59b33d17; 0x2eb40d81;
   0xb7bd5c3b; 0xc0ba6cad; 0xedb88320; 0x9abfb3b6; 0x03b6e20c; 0x74b1d29a;
   0xead54739; 0x9dd277af; 0x04db2615; 0x73dc1683; 0xe3630b12; 0x94643b84;
   0x0d6d6a3e; 0x7a6a5aa8; 0xe40ecf0b; 0x9309ff9d; 0x0a00ae27; 0x7d079eb1;
   0xf00f9344; 0x8708a3d2; 0x1e01f268; 0x6906c2fe; 0xf762575d; 0x806567cb;
   0x196c3671; 0x6e6b06e7; 0xfed41b76; 0x89d32be0; 0x10da7a5a; 0x67dd4acc;
   0xf9b9df6f; 0x8ebeeff9; 0x17b7be43; 0x60b08ed5; 0xd6d6a3e8; 0xa1d1937e;
   0x38d8c2c4; 0x4fdff252; 0xd1bb67f1; 0xa6bc5767; 0x3fb506dd; 0x48b2364b;
   0xd80d2bda; 0xaf0a1b4c; 0x36034af6; 0x41047a60; 0xdf60efc3; 0xa867df55;
   0x316e8eef; 0x4669be79; 0xcb61b38c; 0xbc66831a; 0x256fd2a0; 0x5268e236;
   0xcc0c7795; 0xbb0b4703; 0x220216b9; 0x5505262f; 0xc5ba3bbe; 0xb2bd0b28;
   0x2bb45a92; 0x5cb36a04; 0xc2d7ffa7; 0xb5d0cf31; 0x2cd99e8b; 0x5bdeae1d;
   0x9b64c2b0; 0xec63f226; 0x756aa39c; 0x026d930a; 0x9c0906a9; 0xeb0e363f;
   0x72076785; 0x05005713; 0x95bf4a82; 0xe2b87a14; 0x7bb12bae; 0x0cb61b38;
   0x92d28e9b; 0xe5d5be0d; 0x7cdcefb7; 0x0bdbdf21; 0x86d3d2d4; 0xf1d4e242;
   0x68ddb3f8; 0x1fda836e; 0x81be16cd; 0xf6b9265b; 0x6fb077e1; 0x18b74777;
   0x88085ae6; 0xff0f6a70; 0x66063bca; 0x11010b5c; 0x8f659eff; 0xf862ae69;
   0x616bffd3; 0x166ccf45; 0xa00ae278; 0xd70dd2ee; 0x4e048354; 0x3903b3c2;
   0xa7672661; 0xd06016f7; 0x4969474d; 0x3e6e77db; 0xaed16a4a; 0xd9d65adc;
   0x40df0b66; 0x37d83bf0; 0xa9bcae53; 0xdebb9ec5; 0x47b2cf7f; 0x30b5ffe9;
   0xbdbdf21c; 0xcabac28a; 0x53b39330; 0x24b4a3a6; 0xbad03605; 0xcdd70693;
   0x54de5729; 0x23d967bf; 0xb3667a2e; 0xc4614ab8; 0x5d681b02; 0x2a6f2b94;
   0xb40bbe37; 0xc30c8ea1; 0x5a05df1b; 0x2d02ef8d].

(** The table as the [DYNAMIC_CRC_TABLE] build computes it. *)
Definition make_crc_table : list Z :=
  let poly := fold_left (fun poly n => Z.lor poly (Z.shiftl 1 (31 - n)))
    [0; 1; 2; 4; 5; 7; 8; 10; 11; 12; 16; 22; 23; 26] 0 in
  map (fun n => Nat.iter 8 (fun c => if negb (Z.land c 1 =? 0) then Z.lxor poly (Z.shiftr c 1) else Z.shiftr c 1)
    (Z.of_nat n)) (seq 0 256).

(** [DO_CRC(x)]: [crc = tab[(crc ^ (x)) & 255] ^ (crc >> 8)] *)
Definition DO_CRC (crc x : Z) : Z :=
  Z.lxor (nth (Z.to_nat (Z.land (Z.lxor crc x) 255)) crc_table 0) (Z.shiftr crc 8).

(** The bytes up to the next word boundary: [b] is the address. *)
Fixpoint crc32_align (b crc : Z) (buf : list Z) : Z * list Z :=
  match buf with
  | [] => (crc, buf)
  | x :: buf' =>
      let crc := DO_CRC crc x in
      if Z.land (b + 1) 3 =? 0 then (crc, buf') else crc32_align (b + 1) crc buf'
  end.

(** Whole words, loaded 32 bits wide on a little-endian machine, and then the
    last few bytes. *)
Fixpoint crc32_words (crc : Z) (buf : list Z) : Z :=
  match buf with
  | b0 :: b1 :: b2 :: b3 :: buf =>
      let crc := Z.lxor crc (b0 + b1 * 2 ^ 8 + b2 * 2 ^ 16 + b3 * 2 ^ 24) in
      crc32_words (DO_CRC (DO_CRC (DO_CRC (DO_CRC crc 0) 0) 0) 0) buf
  | _ => fold_left DO_CRC buf crc
  end.

(** [addr] is the address of the first byte of [buf]. *)
Definition crc32_no_comp (addr crc : Z) (buf : list Z) : Z :=
  let '(crc, buf) :=
    if negb (Z.land addr 3 =? 0) && negb (Z.of_nat (length buf) =? 0)
    then crc32_align addr crc buf else (crc, buf) in
  crc32_words crc buf.

Definition crc32 (addr crc : Z) (buf : list Z) : Z :=
  Z.lxor (crc32_no_comp addr (Z.lxor crc 0xffffffff) buf) 0xffffffff.

(** [watchdog] says whether [CONFIG_HW_WATCHDOG] or [CONFIG_WATCHDOG] is set. *)
Fixpoint crc32_chunks (fuel : nat) (addr crc : Z) (buf : list Z) (chunk_sz : Z) : option Z :=
  match fuel with
  | O => None
  | S fuel =>
      if 0 <? Z.of_nat (length buf) then
        let chunk := Z.of_nat (length buf) in
        let chunk := if chunk >? chunk_sz then chunk_sz else chunk in
        crc32_chunks fuel (addr + chunk) (crc32 addr crc (take (Z.to_nat chunk) buf)) (drop (Z.to_nat chunk) buf) chunk_sz
      else Some crc
  end.

Definition crc32_wd (watchdog : bool) (addr crc : Z) (buf : list Z) (chunk_sz : Z) : option Z :=
  if watchdog then crc32_chunks (S (length buf)) addr crc buf chunk_sz else Some (crc32 addr crc buf).

(** [crc32_wd_buf] stores the checksum in network byte order. *)
Definition crc32_wd_buf (watchdog : bool) (addr : Z) (input : list Z) (chunk_sz : Z) : option (list Z) :=
  crc ← crc32_wd watchdog addr 0 input chunk_sz;
  Some [u8 (Z.shiftr crc 24); u8 (Z.shiftr crc 16); u8 (Z.shiftr crc 8); u8 crc].

Definition crc16_tab : list Z :=
  [0x0000; 0x1021; 0x2042; 0x3063; 0x4084; 0x50a5; 0x60c6; 0x70e7;
   0x8108; 0x9129; 0xa14a; 0xb16b; 0xc18c; 0xd1ad; 0xe1ce; 0xf1ef;
   0x1231; 0x0210; 0x3273; 0x2252; 0x52b5; 0x4294; 0x72f7; 0x62d6;
   0x9339; 0x8318; 0xb37b; 0xa35a; 0xd3bd; 0xc39c; 0xf3ff; 0xe3de;
   0x2462; 0x3443; 0x0420; 0x1401; 0x64e6; 0x74c7; 0x44a4; 0x5485;
   0xa56a; 0xb54b; 0x8528; 0x9509; 0xe5ee; 0xf5cf; 0xc5ac; 0xd58d;
   0x3653; 0x2672; 0x1611; 0x0630; 0x76d7; 0x66f6; 0x5695; 0x46b4;
   0xb75b; 0xa77a; 0x9719; 0x8738; 0xf7df; 0xe7fe; 0xd79d; 0xc7bc;
   0x48c4; 0x58e5; 0x6886; 0x78a7; 0x0840; 0x1861; 0x2802; 0x3823;
   0xc9cc; 0xd9ed; 0xe98e; 0xf9af; 0x8948; 0x9969; 0xa90a; 0xb92b;
   0x5af5; 0x4ad4; 0x7ab7; 0x6a96; 0x1a71; 0x0a50; 0x3a33; 0x2a12;
   0xdbfd; 0xcbdc; 0xfbbf; 0xeb9e; 0x9b79; 0x8b58; 0xbb3b; 0xab1a;
   0x6ca6; 0x7c87; 0x4ce4; 0x5cc5; 0x2c22; 0x3c03; 0x0c60; 0x1c41;
   0xedae; 0xfd8f; 0xcdec; 0xddcd; 0xad2a; 0xbd0b; 0x8d68; 0x9d49;
   0x7e97; 0x6eb6; 0x5ed5; 0x4ef4; 0x3e13; 0x2e32; 0x1e51; 0x0e70;
   0xff9f; 0xefbe; 0xdfdd; 0xcffc; 0xbf1b; 0xaf3a; 0x9f59; 0x8f78;
   0x9188; 0x81a9; 0xb1ca; 0xa1eb; 0xd10c; 0xc12d; 0xf14e; 0xe16f;
   0x1080; 0x00a1; 0x30c2; 0x20e3; 0x5004; 0x4025; 0x7046; 0x6067;
   0x83b9; 0x9398; 0xa3fb; 0xb3da; 0xc33d; 0xd31c; 0xe37f; 0xf35e;
   0x02b1; 0x1290; 0x22f3; 0x32d2; 0x4235; 0x5214; 0x6277; 0x7256;
   0xb5ea; 0xa5cb; 0x95a8; 0x8589; 0xf56e; 0xe54f; 0xd52c; 0xc50d;
   0x34e2; 0x24c3; 0x14a0; 0x0481; 0x7466; 0x6447; 0x5424; 0x4405;
   0xa7db; 0xb7fa; 0x8799; 0x97b8; 0xe75f; 0xf77e; 0xc71d; 0xd73c;
   0x26d3; 0x36f2; 0x0691; 0x16b0; 0x6657; 0x7676; 0x4615; 0x5634;
   0xd94c; 0xc96d; 0xf90e; 0xe92f; 0x99c8; 0x89e9; 0xb98a; 0xa9ab;
   0x5844; 0x4865; 0x7806; 0x6827; 0x18c0; 0x08e1; 0x3882; 0x28a3;
   0xcb7d; 0xdb5c; 0xeb3f; 0xfb1e; 0x8bf9; 0x9bd8; 0xabbb; 0xbb9a;
   0x4a75; 0x5a54; 0x6a37; 0x7a16; 0x0af1; 0x1ad0; 0x2ab3; 0x3a92;
   0xfd2e; 0xed0f; 0xdd6c; 0xcd4d; 0xbdaa; 0xad8b; 0x9de8; 0x8dc9;
   0x7c26; 0x6c07; 0x5c64; 0x4c45; 0x3ca2; 0x2c83; 0x1ce0; 0x0cc1;
   0xef1f; 0xff3e; 0xcf5d; 0xdf7c; 0xaf9b; 0xbfba; 0x8fd9; 0x9ff8;
   0x6e17; 0x7e36; 0x4e55; 0x5e74; 0x2e93; 0x3eb2; 0x0ed1; 0x1ef0].

Definition cyg_crc16_byte (cksum x : Z) : Z :=
  u16 (Z.lxor (nth (Z.to_nat (Z.land (Z.lxor (Z.shiftr cksum 8) x) 255)) crc16_tab 0) (Z.shiftl cksum 8)).

Definition cyg_crc16 (buf : list Z) : Z := fold_left cyg_crc16_byte buf 0.

(** One turn of the inner loop, and the loop. *)
Definition crc8_bit (crc : Z) : Z :=
  let crc := if negb (Z.land crc 0x8000 =? 0) then Z.lxor crc (Z.shiftl 0x1070 3) else crc in
  u32 (Z.shiftl crc 1).

Definition crc8_byte (crc x : Z) : Z := Nat.iter 8 crc8_bit (Z.lxor crc (Z.shiftl x 8)).

Definition crc8 (data : list Z) : Z :=
  let crc := fold_left crc8_byte data 0 in
  Z.land (Z.shiftr crc 8) 255.

Definition crc7_syndrome_table : list Z :=
  [0x00; 0x09; 0x12; 0x1b; 0x24; 0x2d; 0x36; 0x3f; 0x48; 0x41; 0x5a; 0x53; 0x6c; 0x65; 0x7e; 0x77;
   0x19; 0x10; 0x0b; 0x02; 0x3d; 0x34; 0x2f; 0x26; 0x51; 0x58; 0x43; 0x4a; 0x75; 0x7c; 0x67; 0x6e;
   0x32; 0x3b; 0x20; 0x29; 0x16; 0x1f; 0x04; 0x0d; 0x7a; 0x73; 0x68; 0x61; 0x5e; 0x57; 0x4c; 0x45;
   0x2b; 0x22; 0x39; 0x30; 0x0f; 0x06; 0x1d; 0x14; 0x63; 0x6a; 0x71; 0x78; 0x47; 0x4e; 0x55; 0x5c;
   0x64; 0x6d; 0x76; 0x7f; 0x40; 0x49; 0x52; 0x5b; 0x2c; 0x25; 0x3e; 0x37; 0x08; 0x01; 0x1a; 0x13;
   0x7d; 0x74; 0x6f; 0x66; 0x59; 0x50; 0x4b; 0x42; 0x35; 0x3c; 0x27; 0x2e; 0x11; 0x18; 0x03; 0x0a;
   0x56; 0x5f; 0x44; 0x4d; 0x72; 0x7b; 0x60; 0x69; 0x1e; 0x17; 0x0c; 0x05; 0x3a; 0x33; 0x28; 0x21;
   0x4f; 0x46; 0x5d; 0x54; 0x6b; 0x62; 0x79; 0x70; 0x07; 0x0e; 0x15; 0x1c; 0x23; 0x2a; 0x31; 0x38;
   0x41; 0x48; 0x53; 0x5a; 0x65; 0x6c; 0x77; 0x7e; 0x09; 0x00; 0x1b; 0x12; 0x2d; 0x24; 0x3f; 0x36;
   0x58; 0x51; 0x4a; 0x43; 0x7c; 0x75; 0x6e; 0x67; 0x10; 0x19; 0x02; 0x0b; 0x34; 0x3d; 0x26; 0x2f;
   0x73; 0x7a; 0x61; 0x68; 0x57; 0x5e; 0x45; 0x4c; 0x3b; 0x32; 0x29; 0x20; 0x1f; 0x16; 0x0d; 0x04;
   0x6a; 0x63; 0x78; 0x71; 0x4e; 0x47; 0x5c; 0x55; 0x22; 0x2b; 0x30; 0x39; 0x06; 0x0f; 0x14; 0x1d;
   0x25; 0x2c; 0x37; 0x3e; 0x01; 0x08; 0x13; 0x1a; 0x6d; 0x64; 0x7f; 0x76; 0x49; 0x40; 0x5b; 0x52;
   0x3c; 0x35; 0x2e; 0x27; 0x18; 0x11; 0x0a; 0x03; 0x74; 0x7d; 0x66; 0x6f; 0x50; 0x59; 0x42; 0x4b;
   0x17; 0x1e; 0x05; 0x0c; 0x33; 0x3a; 0x21; 0x28; 0x5f; 0x56; 0x4d; 0x44; 0x7b; 0x72; 0x69; 0x60;
   0x0e; 0x07; 0x1c; 0x15; 0x2a; 0x23; 0x38; 0x31; 0x46; 0x4f; 0x54; 0x5d; 0x62; 0x6b; 0x70; 0x79].

(** The index is not reduced: for [crc] above 127 it leaves the table. *)
Definition crc7_byte (crc data : Z) : option Z :=
  aget crc7_syndrome_table (Z.lxor (Z.shiftl crc 1) data).

Definition crc7 (crc : Z) (buffer : list Z) : option Z :=
  fold_left (fun crc x => c ← crc; crc7_byte c x) buffer (Some crc).

(** ** The shift registers *)

(** CRC-32, least significant bit first, with the reflected polynomial. *)
Definition lfsr32 (c : Z) : Z := Z.lxor (Z.shiftr c 1) (if Z.testbit c 0 then 0xEDB88320 else 0).

Definition lfsr32_feed (c b : Z) : Z := Nat.iter 8 lfsr32 (Z.lxor c b).

Definition crc32_reference (crc : Z) (buf : list Z) : Z := fold_left lfsr32_feed buf crc.

(** CRC-16, most significant bit first, polynomial x^16 + x^12 + x^5 + 1. *)
Definition lfsr16 (c : Z) : Z := Z.lxor (u16 (Z.shiftl c 1)) (if Z.testbit c 15 then 0x1021 else 0).

Definition lfsr16_feed (c b : Z) : Z := Nat.iter 8 lfsr16 (Z.lxor c (Z.shiftl b 8)).

Definition crc16_reference (buf : list Z) : Z := fold_left lfsr16_feed buf 0.

(** CRC-8, polynomial x^8 + x^2 + x + 1. *)
Definition lfsr8 (c : Z) : Z := Z.lxor (u8 (Z.shiftl c 1)) (if Z.testbit c 7 then 0x07 else 0).

Definition lfsr8_feed (c b : Z) : Z := Nat.iter 8 lfsr8 (Z.lxor c b).

Definition crc8_reference (buf : list Z) : Z := fold_left lfsr8_feed buf 0.

(** CRC-7, polynomial x^7 + x^3 + 1: one bit of data, most significant first. *)
Definition lfsr7 (d : Z) (c : Z) (i : Z) : Z :=
  let fb := xorb (Z.testbit c 6) (Z.testbit d i) in
  Z.lxor (Z.land (Z.shiftl c 1) 127) (if fb then 0x09 else 0).

Definition crc7_feed (c d : Z) : Z := fold_left (lfsr7 d) [7; 6; 5; 4; 3; 2; 1; 0] c.

Definition crc7_reference (crc : Z) (buf : list Z) : Z := fold_left crc7_feed buf crc.

(** ** CRC-32 *)

Lemma make_crc_table_correct : make_crc_table = crc_table.
Proof. vm_compute. reflexivity. Qed.

(** The register is linear. *)
Lemma lfsr32_lxor a b : lfsr32 (Z.lxor a b) = Z.lxor (lfsr32 a) (lfsr32 b).
Proof.
  unfold lfsr32. rewrite Z.shiftr_lxor, Z.lxor_spec.
  apply Z.bits_inj'. intros i Hi. rewrite !Z.lxor_spec.
  destruct (Z.testbit a 0), (Z.testbit b 0); cbn [xorb]; rewrite ?Z.bits_0;
    destruct (Z.testbit (Z.shiftr a 1) i), (Z.testbit (Z.shiftr b 1) i), (Z.testbit 0xEDB88320 i); done.
Qed.

Lemma lfsr32_iter_lxor n a b : Nat.iter n lfsr32 (Z.lxor a b) = Z.lxor (Nat.iter n lfsr32 a) (Nat.iter n lfsr32 b).
Proof. induction n as [|n IH]; [done|]. by rewrite !Nat.iter_succ, IH, lfsr32_lxor. Qed.

Lemma lfsr32_even y : lfsr32 (2 * y) = y.
Proof.
  unfold lfsr32. rewrite Z.testbit_even_0, Z.lxor_0_r, Z.shiftr_div_pow2 by lia.
  change (2 ^ 1) with 2. rewrite Z.mul_comm. by apply Z.div_mul.
Qed.

(** Shifting a byte of zeros through the register. *)
Lemma lfsr32_byte y : Nat.iter 8 lfsr32 (Z.shiftl y 8) = y.
Proof.
  rewrite Z.shiftl_mul_pow2 by lia. unfold Nat.iter. cbn [nat_rect].
  replace (y * 2 ^ 8) with (2 * (2 * (2 * (2 * (2 * (2 * (2 * (2 * y)))))))) by lia. by rewrite !lfsr32_even.
Qed.

Lemma split_byte x : x = Z.lxor (Z.land x 255) (Z.shiftl (Z.shiftr x 8) 8).
Proof.
  apply Z.bits_inj'. intros i Hi. rewrite Z.lxor_spec, Z.land_spec. change 255 with (Z.ones 8).
  destruct (Z.lt_ge_cases i 8).
  - rewrite Z.ones_spec_low, Z.shiftl_spec_low, andb_true_r, xorb_false_r by lia. done.
  - rewrite Z.ones_spec_high, Z.shiftl_spec_high, Z.shiftr_spec, andb_false_r, xorb_false_l by lia. f_equal. lia.
Qed.

Lemma crc_table_lfsr i : 0 <= i < 256 -> nth (Z.to_nat i) crc_table 0 = Nat.iter 8 lfsr32 i.
Proof.
  intros Hi. assert (Hall : forallb (fun n => nth n crc_table 0 =? Nat.iter 8 lfsr32 (Z.of_nat n)) (seq 0 256) = true)
    by by vm_compute.
  rewrite forallb_forall in Hall. specialize (Hall (Z.to_nat i) ltac:(apply in_seq; lia)).
  apply Z.eqb_eq in Hall. by rewrite Z2Nat.id in Hall by lia.
Qed.

Lemma land_255_range x : 0 <= Z.land x 255 < 256.
Proof. change 255 with (Z.ones 8). rewrite Z.land_ones by lia. apply Z.mod_pos_bound. lia. Qed.

(** One table step is eight steps of the register. *)
Lemma DO_CRC_lfsr crc x : 0 <= x < 256 -> DO_CRC crc x = lfsr32_feed crc x.
Proof.
  intros Hx. unfold DO_CRC, lfsr32_feed. rewrite crc_table_lfsr by apply land_255_range.
  rewrite (split_byte (Z.lxor crc x)) at 2. rewrite lfsr32_iter_lxor, lfsr32_byte. f_equal.
  rewrite Z.shiftr_lxor. assert (Z.shiftr x 8 = 0) as ->; [|by rewrite Z.lxor_0_r].
  rewrite Z.shiftr_div_pow2 by lia. apply Z.div_small. lia.
Qed.

Definition byte_ok (b : Z) : Prop := 0 <= b < 256.

Lemma fold_DO_CRC buf crc : Forall byte_ok buf -> fold_left DO_CRC buf crc = crc32_reference crc buf.
Proof.
  intros Hb. by apply (fold_left_agree DO_CRC lfsr32_feed (fun _ => True) byte_ok);
    [intros a b _ Hx; split; [by apply DO_CRC_lfsr | done] | |].
Qed.

(** Xoring a whole word first and shifting four times is the same as taking the bytes one by one. *)
Lemma crc32_word crc b0 b1 b2 b3 : byte_ok b0 -> byte_ok b1 -> byte_ok b2 -> byte_ok b3 ->
  DO_CRC (DO_CRC (DO_CRC (DO_CRC (Z.lxor crc (b0 + b1 * 2 ^ 8 + b2 * 2 ^ 16 + b3 * 2 ^ 24)) 0) 0) 0) 0 =
  crc32_reference crc [b0; b1; b2; b3].
Proof.
  unfold byte_ok. intros H0 H1 H2 H3. unfold crc32_reference. cbn [fold_left].
  rewrite !DO_CRC_lfsr by lia. unfold lfsr32_feed. rewrite !Z.lxor_0_r.
  assert (E : forall b w, 0 <= b < 256 -> b + w * 2 ^ 8 = Z.lxor b (Z.shiftl w 8)).
  { intros b w Hb. rewrite (split_byte (b + w * 2 ^ 8)). f_equal; [|f_equal].
    - change 255 with (Z.ones 8). rewrite Z.land_ones, Z.mod_add by lia. by apply Z.mod_small.
    - rewrite Z.shiftr_div_pow2, Z.div_add by lia. rewrite Z.div_small by lia. lia. }
  replace (b0 + b1 * 2 ^ 8 + b2 * 2 ^ 16 + b3 * 2 ^ 24) with (b0 + (b1 + (b2 + b3 * 2 ^ 8) * 2 ^ 8) * 2 ^ 8) by lia.
  rewrite (E b0), (E b1), (E b2) by lia.
  rewrite <- Z.lxor_assoc, (lfsr32_iter_lxor 8 (Z.lxor crc b0)), lfsr32_byte.
  rewrite <- Z.lxor_assoc, (lfsr32_iter_lxor 8 (Z.lxor _ b1)), lfsr32_byte.
  by rewrite <- Z.lxor_assoc, (lfsr32_iter_lxor 8 (Z.lxor _ b2)), lfsr32_byte.
Qed.

(** Conversion checks treat the register functions as constants. *)
#[local] Strategy opaque [lfsr32_feed DO_CRC].

Lemma crc32_reference_app crc a b : crc32_reference crc (a ++ b) = crc32_reference (crc32_reference crc a) b.
Proof. apply fold_left_app. Qed.

Lemma crc32_reference_cons crc x l : crc32_reference crc (x :: l) = crc32_reference (lfsr32_feed crc x) l.
Proof. exact eq_refl. Qed.

Lemma crc32_words_reference buf crc : Forall byte_ok buf -> crc32_words crc buf = crc32_reference crc buf.
Proof.
  remember (length buf) as n eqn:Hn. revert buf crc Hn. induction n as [n IH] using lt_wf_ind. intros buf crc -> Hb.
  destruct Hb as [|b0 l0 H0 [|b1 l1 H1 [|b2 l2 H2 [|b3 l3 H3 Hb]]]]; try (apply fold_DO_CRC; by auto).
  cbn [crc32_words]. rewrite crc32_word by done.
  rewrite (IH (length l3)) by (done || (simpl; lia)). by rewrite <- crc32_reference_app.
Qed.

Lemma crc32_align_reference b crc buf : Forall byte_ok buf ->
  exists pre post, buf = pre ++ post /\ crc32_align b crc buf = (crc32_reference crc pre, post).
Proof.
  intros Hb. revert b crc. induction Hb as [|x buf Hx Hb IH]; intros b crc; [by exists [], []|]. cbn [crc32_align].
  rewrite DO_CRC_lfsr by done. zcase.
  { exists [x], buf. split; [reflexivity|]. rewrite crc32_reference_cons. reflexivity. }
  destruct (IH (b + 1) (lfsr32_feed crc x)) as (pre & post & -> & ->).
  exists (x :: pre), post. split; [reflexivity|]. rewrite crc32_reference_cons. reflexivity.
Qed.

Lemma crc32_no_comp_reference addr crc buf : Forall byte_ok buf -> crc32_no_comp addr crc buf = crc32_reference crc buf.
Proof.
  intros Hb. unfold crc32_no_comp. destruct (_ && _); [|by apply crc32_words_reference].
  destruct (crc32_align_reference addr crc buf Hb) as (pre & post & -> & ->). apply Forall_app in Hb as [_ Hb].
  by rewrite crc32_words_reference, <- crc32_reference_app.
Qed.

(** The alignment of the buffer does not matter. *)
Lemma crc32_addr addr addr' crc buf : Forall byte_ok buf -> crc32 addr crc buf = crc32 addr' crc buf.
Proof. intros Hb. unfold crc32. by rewrite !crc32_no_comp_reference. Qed.

Lemma crc32_compose addr addr' crc a b : Forall byte_ok a -> Forall byte_ok b ->
  crc32 addr' (crc32 addr crc a) b = crc32 addr crc (a ++ b).
Proof.
  intros Ha Hb. unfold crc32. rewrite !crc32_no_comp_reference by (done || by apply Forall_app_2).
  by rewrite crc32_reference_app, Z.lxor_assoc, Z.lxor_nilpotent, Z.lxor_0_r.
Qed.

Lemma crc32_chunks_spec fuel addr crc buf chunk_sz :
  Forall byte_ok buf -> 0 < chunk_sz -> (length buf < fuel)%nat ->
  crc32_chunks fuel addr crc buf chunk_sz = Some (if (0 <? Z.of_nat (length buf)) then crc32 addr crc buf else crc).
Proof.
  intros Hb Hc. revert addr crc buf Hb. induction fuel as [|fuel IH]; intros addr crc buf Hb Hf; [lia|].
  cbn [crc32_chunks]. zcase; [|done]. set (chunk := if _ >? _ then _ else _).
  assert (Hch : 0 < chunk <= Z.of_nat (length buf)) by (unfold chunk; zcase; lia).
  rewrite IH by (try apply Forall_drop; try rewrite length_drop; (done || lia)). rewrite length_drop. f_equal.
  zcase; [rewrite crc32_compose by (by apply Forall_take || by apply Forall_drop); by rewrite take_drop|].
  f_equal. apply take_ge. lia.
Qed.

(** C31: [crc32] and [crc32_wd] compute the CRC-32 of the data, whatever the
    alignment of the buffer: the table-driven, word-wise code equals the
    bit-serial shift register of the polynomial, with the register inverted
    before and after.  A checksum can be continued: feeding the data in
    chunks (with a watchdog) gives the checksum of the whole. *)
Theorem crc32_correct watchdog addr crc buf chunk_sz :
  Forall byte_ok buf -> 0 < chunk_sz -> buf <> [] ->
  crc32 addr crc buf = Z.lxor (crc32_reference (Z.lxor crc 0xffffffff) buf) 0xffffffff /\
  crc32_wd watchdog addr crc buf chunk_sz = Some (crc32 addr crc buf).
Proof.
  intros Hb Hc Hne. split; [unfold crc32; by rewrite crc32_no_comp_reference|].
  unfold crc32_wd. destruct watchdog; [|done]. rewrite crc32_chunks_spec by (done || lia).
  destruct buf; [done|]. by zcase; [|simpl in *; lia].
Qed.

(** The check value of CRC-32, for "123456789" at an odd address. *)
Lemma crc32_correct_witness :
  crc32 1 0 [49; 50; 51; 52; 53; 54; 55; 56; 57] =
    Z.lxor (crc32_reference (Z.lxor 0 0xffffffff) [49; 50; 51; 52; 53; 54; 55; 56; 57]) 0xffffffff /\
  crc32_wd true 1 0 [49; 50; 51; 52; 53; 54; 55; 56; 57] 4 = Some (crc32 1 0 [49; 50; 51; 52; 53; 54; 55; 56; 57]).
Proof.
  apply (crc32_correct true 1 0 [49; 50; 51; 52; 53; 54; 55; 56; 57] 4);
    [repeat constructor; unfold byte_ok; lia | lia | discriminate].
Defined.

Example crc32_check : crc32 1 0 [49; 50; 51; 52; 53; 54; 55; 56; 57] = 0xCBF43926.
Proof. vm_compute. reflexivity. Qed.

(** ** CRC-16 *)

Lemma lfsr16_lxor a b : lfsr16 (Z.lxor a b) = Z.lxor (lfsr16 a) (lfsr16 b).
Proof.
  unfold lfsr16, u16. rewrite Z.shiftl_lxor, Z.lxor_spec, <- !(Z.land_ones _ 16) by lia.
  apply Z.bits_inj'. intros i Hi. rewrite !Z.lxor_spec, !Z.land_spec, !Z.lxor_spec.
  destruct (Z.testbit a 15), (Z.testbit b 15); cbn [xorb]; rewrite ?Z.bits_0;
    destruct (Z.testbit (Z.shiftl a 1) i), (Z.testbit (Z.shiftl b 1) i), (Z.testbit (Z.ones 16) i), (Z.testbit 0x1021 i); done.
Qed.

Lemma lfsr16_iter_lxor n a b : Nat.iter n lfsr16 (Z.lxor a b) = Z.lxor (Nat.iter n lfsr16 a) (Nat.iter n lfsr16 b).
Proof. induction n as [|n IH]; [done|]. by rewrite !Nat.iter_succ, IH, lfsr16_lxor. Qed.

(** A check of all byte values by computation. *)
Lemma all_bytes (P : Z -> bool) : forallb (fun n => P (Z.of_nat n)) (seq 0 256) = true -> forall i, 0 <= i < 256 -> P i = true.
Proof.
  intros Hall i Hi. rewrite forallb_forall in Hall. specialize (Hall (Z.to_nat i) ltac:(apply in_seq; lia)).
  by rewrite Z2Nat.id in Hall by lia.
Qed.

Lemma crc16_tab_lfsr i : 0 <= i < 256 -> nth (Z.to_nat i) crc16_tab 0 = Nat.iter 8 lfsr16 (Z.shiftl i 8).
Proof.
  intros Hi. apply Z.eqb_eq.
  apply (all_bytes (fun i => nth (Z.to_nat i) crc16_tab 0 =? Nat.iter 8 lfsr16 (Z.shiftl i 8))); [by vm_compute | done].
Qed.

Lemma lfsr16_low y : 0 <= y < 256 -> Nat.iter 8 lfsr16 y = Z.shiftl y 8.
Proof.
  intros Hy. apply Z.eqb_eq. apply (all_bytes (fun y => Nat.iter 8 lfsr16 y =? Z.shiftl y 8)); [by vm_compute | done].
Qed.

Lemma lxor_bound k a b : 0 <= k -> 0 <= a < 2 ^ k -> 0 <= b < 2 ^ k -> 0 <= Z.lxor a b < 2 ^ k.
Proof.
  intros Hk Ha Hb. assert (H0 : 0 <= Z.lxor a b) by (apply Z.lxor_nonneg; lia).
  split; [done|]. apply Z.bounded_iff_bits_nonneg; [lia..|]. intros i Hi.
  rewrite Z.lxor_spec, !(bits_above k) by lia. done.
Qed.

#[local] Strategy transparent [lfsr32_feed].

Lemma crc32_range addr crc buf : Forall byte_ok buf -> 0 <= crc < 2 ^ 32 -> 0 <= crc32 addr crc buf < 2 ^ 32.
Proof.
  intros Hb Hc. unfold crc32. rewrite crc32_no_comp_reference by done. apply lxor_bound; [lia| |lia].
  assert (Hl : forall c, 0 <= c < 2 ^ 32 -> 0 <= lfsr32 c < 2 ^ 32).
  { intros c H. apply lxor_bound; [lia | | destruct (Z.testbit c 0); lia].
    rewrite Z.shiftr_div_pow2 by lia. split; [apply Z.div_pos; lia | apply Z.div_lt_upper_bound; lia]. }
  assert (Hf : forall c b, 0 <= c < 2 ^ 32 -> byte_ok b -> 0 <= lfsr32_feed c b < 2 ^ 32).
  { intros c b H Hb'. unfold byte_ok in Hb'. assert (Hx : 0 <= Z.lxor c b < 2 ^ 32) by (apply lxor_bound; lia).
    unfold lfsr32_feed. generalize 8%nat. intros n. induction n as [|n IH]; [done|]. by apply Hl. }
  assert (H0 : 0 <= Z.lxor crc 0xffffffff < 2 ^ 32) by (apply lxor_bound; lia).
  revert H0. generalize (Z.lxor crc 0xffffffff). clear Hc. induction Hb as [|b buf Hx Hb IH]; intros c H0; [done|].
  rewrite crc32_reference_cons. by apply IH, Hf.
Qed.

Lemma crc16_byte_lfsr c b : 0 <= c < 2 ^ 16 -> byte_ok b ->
  cyg_crc16_byte c b = lfsr16_feed c b /\ 0 <= cyg_crc16_byte c b < 2 ^ 16.
Proof.
  intros Hc Hb. unfold byte_ok in Hb. split; [|apply Z.mod_pos_bound; lia]. unfold cyg_crc16_byte, lfsr16_feed.
  assert (Hh : 0 <= Z.shiftr c 8 < 2 ^ 8).
  { rewrite Z.shiftr_div_pow2 by lia. split; [apply Z.div_pos; lia | apply Z.div_lt_upper_bound; lia]. }
  assert (Hi : 0 <= Z.lxor (Z.shiftr c 8) b < 256) by (apply (lxor_bound 8); lia).
  assert (E255 : forall x, 0 <= x < 256 -> Z.land x 255 = x).
  { intros x Hx. change 255 with (Z.ones 8). rewrite Z.land_ones by lia. apply Z.mod_small. lia. }
  rewrite (E255 _ Hi), crc16_tab_lfsr by done.
  rewrite (split_byte c) at 3. rewrite Z.lxor_assoc, <- Z.shiftl_lxor.
  rewrite lfsr16_iter_lxor, (lfsr16_low (Z.land c 255)) by apply land_255_range.
  rewrite Z.lxor_comm. unfold u16. rewrite <- !(Z.land_ones _ 16) by lia.
  set (T := Nat.iter 8 lfsr16 _).
  assert (HT : 0 <= T < 2 ^ 16).
  { unfold T. rewrite <- crc16_tab_lfsr by done.
    pose proof (all_bytes (fun i => (0 <=? nth (Z.to_nat i) crc16_tab 0) && (nth (Z.to_nat i) crc16_tab 0 <? 2 ^ 16))
      ltac:(by vm_compute) _ Hi) as Hn. cbn beta in Hn. zbool. lia. }
  apply Z.bits_inj'. intros i Hi0. rewrite Z.land_spec, !Z.lxor_spec. destruct (Z.lt_ge_cases i 16).
  - rewrite Z.ones_spec_low, andb_true_r by lia. f_equal. destruct (Z.lt_ge_cases i 8).
    + by rewrite !Z.shiftl_spec_low by lia.
    + rewrite !Z.shiftl_spec_high, Z.land_spec by lia. change 255 with (Z.ones 8).
      rewrite Z.ones_spec_low, andb_true_r by lia. done.
  - rewrite Z.ones_spec_high, andb_false_r, (bits_above 16 T) by lia. rewrite xorb_false_r.
    rewrite Z.shiftl_spec_high by lia. symmetry. apply (bits_above 8); [lia | apply land_255_range | lia].
Qed.

#[local] Strategy opaque [lfsr16_feed cyg_crc16_byte].

(** [cyg_crc16] is the CRC-16 of the polynomial x^16 + x^12 + x^5 + 1: the
    table-driven code equals the bit-serial shift register. *)
Theorem cyg_crc16_correct buf : Forall byte_ok buf -> cyg_crc16 buf = crc16_reference buf.
Proof.
  intros Hb. apply (fold_left_agree cyg_crc16_byte lfsr16_feed (fun c => 0 <= c < 2 ^ 16) byte_ok);
    [intros; by apply crc16_byte_lfsr | lia | done].
Qed.

Lemma cyg_crc16_correct_witness : cyg_crc16 [49; 50; 51] = crc16_reference [49; 50; 51].
Proof. apply (cyg_crc16_correct [49; 50; 51]). repeat constructor; unfold byte_ok; lia. Defined.

(** ** CRC-8 and CRC-7 *)

Lemma crc8_bit_lfsr c : 0 <= c < 256 -> crc8_bit (Z.shiftl c 8) = Z.shiftl (lfsr8 c) 8 /\ 0 <= lfsr8 c < 256.
Proof.
  intros Hc. pose proof (all_bytes (fun c => (crc8_bit (Z.shiftl c 8) =? Z.shiftl (lfsr8 c) 8) &&
    (0 <=? lfsr8 c) && (lfsr8 c <? 256)) ltac:(by vm_compute) c Hc) as Hn. cbn beta in Hn. zbool. lia.
Qed.

Lemma crc8_bits_lfsr n c : 0 <= c < 256 ->
  Nat.iter n crc8_bit (Z.shiftl c 8) = Z.shiftl (Nat.iter n lfsr8 c) 8 /\ 0 <= Nat.iter n lfsr8 c < 256.
Proof.
  intros Hc. induction n as [|n [IH Hr]]; [done|]. rewrite !Nat.iter_succ, IH.
  by destruct (crc8_bit_lfsr _ Hr).
Qed.

Lemma crc8_byte_lfsr c x : 0 <= c < 256 -> byte_ok x ->
  crc8_byte (Z.shiftl c 8) x = Z.shiftl (lfsr8_feed c x) 8 /\ 0 <= lfsr8_feed c x < 256.
Proof.
  intros Hc Hx. unfold crc8_byte, lfsr8_feed. rewrite <- Z.shiftl_lxor.
  apply crc8_bits_lfsr. by apply (lxor_bound 8).
Qed.

(** [crc7_byte] on a 7-bit value stays in the table. *)
Lemma crc7_byte_lfsr c d : 0 <= c < 128 -> 0 <= d < 256 ->
  crc7_byte c d = Some (crc7_feed c d) /\ 0 <= crc7_feed c d < 128.
Proof.
  intros Hc Hd. set (r := crc7_feed c d).
  assert (Hall : forallb (fun c => forallb (fun d =>
    let r := crc7_feed (Z.of_nat c) (Z.of_nat d) in
    bool_decide (crc7_byte (Z.of_nat c) (Z.of_nat d) = Some r) && (0 <=? r) && (r <? 128))
    (seq 0 256)) (seq 0 128) = true) by by vm_compute.
  rewrite forallb_forall in Hall. specialize (Hall (Z.to_nat c) ltac:(apply in_seq; lia)).
  rewrite forallb_forall in Hall. specialize (Hall (Z.to_nat d) ltac:(apply in_seq; lia)).
  rewrite !Z2Nat.id in Hall by lia. cbn zeta in Hall. fold r in Hall. zbool.
  split; [by eapply bool_decide_eq_true_1|lia].
Qed.

#[local] Strategy opaque [lfsr8_feed crc7_feed crc7_byte crc8_byte].

Lemma crc8_fold buf c : Forall byte_ok buf -> 0 <= c < 256 ->
  fold_left crc8_byte buf (Z.shiftl c 8) = Z.shiftl (fold_left lfsr8_feed buf c) 8 /\
  0 <= fold_left lfsr8_feed buf c < 256.
Proof.
  intros Hb. revert c. induction Hb as [|x buf Hx Hb IH]; intros c Hc; [done|]. rewrite !fold_left_cons.
  destruct (crc8_byte_lfsr c x Hc Hx) as [-> Hr]. by apply IH.
Qed.

Lemma crc8_lfsr buf : Forall byte_ok buf -> crc8 buf = crc8_reference buf.
Proof.
  intros Hb. unfold crc8, crc8_reference. destruct (crc8_fold buf 0 Hb) as [E Hr]; [lia|].
  rewrite Z.shiftl_0_l in E. rewrite E, Z.shiftr_shiftl_l, Z.shiftl_0_r by lia.
  rewrite (Z.land_ones _ 8) by lia. by apply Z.mod_small.
Qed.

Lemma crc7_lfsr buf crc : Forall byte_ok buf -> 0 <= crc < 128 -> crc7 crc buf = Some (crc7_reference crc buf).
Proof.
  intros Hb. unfold crc7, crc7_reference. revert crc. induction Hb as [|x buf Hx Hb IH]; intros crc Hcrc; [done|].
  rewrite !fold_left_cons. destruct (crc7_byte_lfsr crc x Hcrc Hx) as [E Hr].
  replace (c ← Some crc; crc7_byte c x) with (Some (crc7_feed crc x)) by by rewrite <- E. by apply IH.
Qed.

(** [crc8] is the CRC-8 of x^8 + x^2 + x + 1 and [crc7], for a 7-bit start
    value, the CRC-7 of x^7 + x^3 + 1 (its table index stays in range): both
    equal the bit-serial shift registers. *)
Theorem crc8_crc7_correct crc buf : Forall byte_ok buf -> 0 <= crc < 128 ->
  crc8 buf = crc8_reference buf /\ crc7 crc buf = Some (crc7_reference crc buf).
Proof. intros Hb Hc. split; [by apply crc8_lfsr | by apply crc7_lfsr]. Qed.

Lemma crc8_crc7_correct_witness :
  crc8 [49; 50] = crc8_reference [49; 50] /\ crc7 0 [0x40; 0] = Some (crc7_reference 0 [0x40; 0]).
Proof.
  split.
  - apply (crc8_crc7_correct 0 [49; 50]); [repeat constructor; unfold byte_ok; lia | lia].
  - apply (crc8_crc7_correct 0 [0x40; 0]); [repeat constructor; unfold byte_ok; lia | lia].
Defined.
