(* ===== verification/EnvFlags.v ===== *)
(** * EnvFlags: attributes of environment variables

    [common/env_attr.c] (attribute lists), [common/env_flags.c] (types and
    access permissions), [common/env_callback.c] and the two functions of
    [lib/linux_string.c] they use.  Strings are their contents; the character
    at the end of the contents is NUL.  The two [_init] functions discharge
    the interface [EnvHooks] that the hash table is verified against. *)
From stdpp Require Import gmap.
From Stdlib Require Import String Ascii.
From S2P Require Import Prelude CString Hashtable HashIO.

(** The contents of a string literal. *)
Definition str (s : string) : cstr := map (fun c => Z.of_N (N_of_ascii c)) (list_ascii_of_string s).

(** [*s] for a pointer into a string: NUL at the end. *)
Definition deref (s : cstr) : Z := default 0 (list.head s).

(** ** lib/linux_string.c *)

Fixpoint skip_spaces (s : cstr) : cstr :=
  match s with
  | c :: s' => if isspace c then skip_spaces s' else s
  | [] => []
  end.

(** The trailing white space is removed from the reversed contents. *)
Definition strim (s : cstr) : cstr := rev (skip_spaces (rev (skip_spaces s))).

(** ** common/env_attr.c *)

Definition ENV_ATTR_LIST_DELIM : Z := 44.
Definition ENV_ATTR_SEP : Z := 58.

(** [strchr] on the contents: the index of the first occurrence. *)
Fixpoint find_chr (c : Z) (s : cstr) : option nat :=
  match s with
  | [] => None
  | x :: s => if x =? c then Some O else S <$> find_chr c s
  end.

(** What the body of the loop does with one non-empty entry: the call of the
    callback, which returns a value and changes the state [St]. *)
Definition walk_entry {St} (callback : St -> cstr -> option cstr -> Z * St) (entry_cpy : cstr) (st : St) : Z * St :=
  let '(name, attributes) :=
    match find_chr ENV_ATTR_SEP entry_cpy with
    | Some i => (take i entry_cpy, Some (strim (drop (i + 1) entry_cpy)))
    | None => (entry_cpy, None)
    end in
  let name := strim name in
  if negb (Z.of_nat (length name) =? 0) then callback st name attributes else (0, st).

Fixpoint env_attr_walk_loop {St} (fuel : nat) (mem_ok : Z -> bool)
    (callback : St -> cstr -> option cstr -> Z * St) (entry : cstr) (st : St) : option (Z * St) :=
  match fuel with
  | O => None
  | S fuel =>
      let entry_end := find_chr ENV_ATTR_LIST_DELIM entry in
      let this := match entry_end with None => entry | Some i => take i entry end in
      let entry_len := Z.of_nat (length this) in
      if negb (entry_len =? 0) && negb (mem_ok (entry_len + 1)) then Some (- ENOMEM, st)
      else
        let '(retval, st) := if negb (entry_len =? 0) then walk_entry callback this st else (0, st) in
        if negb (retval =? 0) then Some (retval, st)
        else
          match entry_end with
          | None => Some (0, st)
          | Some i => env_attr_walk_loop fuel mem_ok callback (drop (i + 1) entry) st
          end
  end.

Definition env_attr_walk {St} (mem_ok : Z -> bool) (attr_list : option cstr)
    (callback : St -> cstr -> option cstr -> Z * St) (st : St) : option (Z * St) :=
  match attr_list with
  | None => Some (1, st)
  | Some l => env_attr_walk_loop (S (length l)) mem_ok callback l st
  end.

(** The loop of [reverse_strstr], on indices into the string [l]. *)
Fixpoint reverse_strstr_loop (fuel : nat) (l search_for : cstr) (searched : nat)
    (searched_start result : option nat) : option (option nat) :=
  match fuel with
  | O => None
  | S fuel =>
      match find_sub search_for (drop searched l) with
      | None => Some result
      | Some j =>
          let match_ := (searched + j)%nat in
          let past := match searched_start with
            | Some start => (start <? match_ + length search_for)%nat | None => false end in
          if past then Some result
          else reverse_strstr_loop fuel l search_for (S match_) searched_start (Some match_)
      end
  end.

Definition reverse_strstr (l search_for : cstr) (searched_start : option nat) : option (option nat) :=
  match search_for with
  | [] => Some (Some O)
  | _ => reverse_strstr_loop (S (length l)) l search_for 0 searched_start None
  end.

(** [while ( *p == ' ') ++p;] *)
Fixpoint skip_blanks (s : cstr) : cstr :=
  match s with
  | c :: s' => if c =? 32 then skip_blanks s' else s
  | [] => []
  end.

(** [prevch]: the nearest character before index [e] that is not a space.  The
    code reads in front of the list as well; [below] are the bytes there,
    nearest first. *)
Definition prev_char (below l : cstr) (e : nat) : option Z :=
  list.head (skip_blanks (rev (take e l) ++ below)).

Definition next_char (l : cstr) (e : nat) : Z := deref (skip_blanks (drop e l)).

(** The check for an exact match at index [e]. *)
Definition exact_at (below l name : cstr) (e : nat) : option bool :=
  prevch ← prev_char below l e;
  let nextch := next_char l (e + length name) in
  Some (((e =? 0)%nat || (prevch =? ENV_ATTR_LIST_DELIM)) &&
    ((nextch =? ENV_ATTR_SEP) || (nextch =? ENV_ATTR_LIST_DELIM) || (nextch =? 0))).

(** [while (entry != NULL)]: the candidates from the last one backwards. *)
Fixpoint lookup_loop (fuel : nat) (below l name : cstr) (entry : option nat) : option (option nat) :=
  match fuel with
  | O => None
  | S fuel =>
      match entry with
      | None => Some None
      | Some e =>
          ok ← exact_at below l name e;
          if (ok : bool) then Some (Some e)
          else entry ← reverse_strstr l name (Some e); lookup_loop fuel below l name entry
      end
  end.

(** [strpbrk(entry, ", ")]: the attribute ends at a comma or a space. *)
Fixpoint attr_token (s : cstr) : cstr :=
  match s with
  | [] => []
  | c :: s => if (c =? ENV_ATTR_LIST_DELIM) || (c =? 32) then [] else c :: attr_token s
  end.

(** The attributes of the entry whose name ends at index [e]. *)
Definition attributes_at (l : cstr) (e : nat) : cstr :=
  match skip_blanks (drop e l) with
  | c :: rest => if c =? ENV_ATTR_SEP then attr_token (skip_blanks rest) else []
  | [] => []
  end.

(** The return value and the string stored in [attributes], a buffer of
    [bufsz] bytes whose size the code does not check.  The search visits the
    candidates from the last one backwards, at most one for each character. *)
Definition env_attr_lookup (below : cstr) (attr_list : option cstr) (name : cstr) (bufsz : nat)
    : option (Z * option cstr) :=
  match attr_list with
  | None => Some (1, None)
  | Some l =>
      entry ← reverse_strstr l name None;
      entry ← lookup_loop (S (S (length l))) below l name entry;
      match entry with
      | None => Some (2, None)
      | Some e =>
          let attributes := attributes_at l (e + length name) in
          if (length attributes <? bufsz)%nat then Some (0, Some attributes) else None
      end
  end.

(** ** common/env_flags.c *)

Inductive env_flags_vartype :=
  | vartype_string | vartype_decimal | vartype_hex | vartype_bool
  | vartype_ipaddr | vartype_macaddr | vartype_end.

Definition vartype_num (t : env_flags_vartype) : Z :=
  match t with
  | vartype_string => 0 | vartype_decimal => 1 | vartype_hex => 2 | vartype_bool => 3
  | vartype_ipaddr => 4 | vartype_macaddr => 5 | vartype_end => 6
  end.

(** The value 7 of the three bits is not one of the enumeration. *)
Definition vartype_of (n : Z) : option env_flags_vartype :=
  nth_error [vartype_string; vartype_decimal; vartype_hex; vartype_bool;
    vartype_ipaddr; vartype_macaddr; vartype_end] (Z.to_nat n).

Inductive env_flags_varaccess := varaccess_any | varaccess_readonly | varaccess_writeonce | varaccess_changedefault.

Definition ENV_FLAGS_VARTYPE_BIN_MASK : Z := 7.
Definition PREVENT_DELETE : Z := 8.
Definition PREVENT_CREATE : Z := 16.
Definition PREVENT_OVERWR : Z := 32.
Definition PREVENT_NONDEF_OVERWR : Z := 64.
Definition ENV_FLAGS_VARACCESS_BIN_MASK : Z := 120.
Definition H_FORCE : Z := Z.shiftl 1 1.

Definition env_flags_vartype_rep : cstr := str "sdxbim".
Definition env_flags_varaccess_rep : cstr := str "aroc".

Definition varaccesses : list env_flags_varaccess :=
  [varaccess_any; varaccess_readonly; varaccess_writeonce; varaccess_changedefault].

Definition env_flags_varaccess_mask (a : env_flags_varaccess) : Z :=
  match a with
  | varaccess_any => 0
  | varaccess_readonly => Z.lor PREVENT_DELETE (Z.lor PREVENT_CREATE PREVENT_OVERWR)
  | varaccess_writeonce => Z.lor PREVENT_DELETE PREVENT_OVERWR
  | varaccess_changedefault => Z.lor PREVENT_DELETE PREVENT_NONDEF_OVERWR
  end.

(** A flags string shorter than the position of the flag has the default. *)
Definition env_flags_parse_vartype (flags : cstr) : env_flags_vartype :=
  match nth_error flags 0 with
  | None => vartype_string
  | Some c =>
      match find_chr c env_flags_vartype_rep with
      | Some i => default vartype_string (vartype_of (Z.of_nat i))
      | None => vartype_string
      end
  end.

Definition env_flags_parse_varaccess (flags : cstr) : env_flags_varaccess :=
  match nth_error flags 1 with
  | None => varaccess_any
  | Some c =>
      match find_chr c env_flags_varaccess_rep with
      | Some i => default varaccess_any (nth_error varaccesses i)
      | None => varaccess_any
      end
  end.

Definition env_flags_parse_varaccess_from_binflags (binflags : Z) : env_flags_varaccess :=
  default varaccess_any (List.find (fun a =>
    env_flags_varaccess_mask a =? Z.land binflags ENV_FLAGS_VARACCESS_BIN_MASK) varaccesses).

Definition is_hex_prefix (value : cstr) : bool :=
  match value with
  | c0 :: c1 :: _ => (c0 =? 48) && ((c1 =? 120) || (c1 =? 88))
  | _ => false
  end.

(** The test for the end of the digits, for each base. *)
Definition class_of (hex : bool) : Z -> bool := if hex then isxdigit else isdigit.

(** [for (i = max_digits; i != 0; i--)]; [max_digits] is -1 for no limit
    ([None]): a string in memory is shorter than the counter's range. *)
Fixpoint skip_digits (hex : bool) (max_digits : option nat) (value : cstr) : cstr :=
  match max_digits, value with
  | Some O, _ => value
  | _, c :: value' =>
      if class_of hex c then skip_digits hex (pred <$> max_digits) value' else value
  | _, [] => []
  end.

(** The rest of the string: [*end]. *)
Definition skip_num (hex : bool) (value : cstr) (max_digits : option nat) : cstr :=
  skip_digits hex max_digits (if hex && is_hex_prefix value then drop 2 value else value).

(** [cur == end]: nothing was skipped. *)
Definition same_pos (cur end_ : cstr) : bool := (length cur =? length end_)%nat.

(** The loop over the parts of an address: [n] parts remain. *)
Fixpoint check_ip (n : nat) (cur : cstr) : bool :=
  match n with
  | O => true
  | S n =>
      let end_ := skip_num false cur (Some 3%nat) in
      if same_pos cur end_ then false
      else if negb (n =? 0)%nat && negb (deref end_ =? 46) then false
      else if (n =? 0)%nat && negb (deref end_ =? 0) then false
      else check_ip n (drop 1 end_)
  end.

Fixpoint check_mac (n : nat) (cur : cstr) : bool :=
  match n with
  | O => true
  | S n =>
      let end_ := skip_num true cur (Some 2%nat) in
      if same_pos cur end_ then false
      else if (length cur =? 2 + length end_)%nat && is_hex_prefix cur then false
      else if negb (n =? 0)%nat && negb (deref end_ =? 58) then false
      else if (n =? 0)%nat && negb (deref end_ =? 0) then false
      else check_mac n (drop 1 end_)
  end.

(** [_env_flags_validate_type]: 0 or -1. *)
Definition _env_flags_validate_type (value : cstr) (type : env_flags_vartype) : Z :=
  match type with
  | vartype_string => 0
  | vartype_decimal => if deref (skip_num false value None) =? 0 then 0 else -1
  | vartype_hex =>
      let end_ := skip_num true value None in
      if negb (deref end_ =? 0) then -1
      else if (length value =? 2 + length end_)%nat && is_hex_prefix value then -1 else 0
  | vartype_bool =>
      if bool_decide (deref value ∈ str "1ytYT0nfNF") && (deref (drop 1 value) =? 0) then 0 else -1
  | vartype_ipaddr => if check_ip 4 value then 0 else -1
  | vartype_macaddr => if check_mac 6 value then 0 else -1
  | vartype_end => -1
  end.

(** [env_flags_validate]: 0 if the change is allowed.  [getenv_default] is the
    compiled-in environment; a value 7 of the type bits passes the switch.  An
    entry that is overwritten has data. *)
Definition env_flags_validate (getenv_default : cstr -> option cstr) (item : ENTRY) (newval : option cstr)
    (op : env_op) (flag : Z) : Z :=
  let newval := default [] newval in
  let type_ok :=
    match op with
    | env_op_delete => true
    | _ =>
        match vartype_of (Z.land ENV_FLAGS_VARTYPE_BIN_MASK (e_flags item)) with
        | Some type => negb (_env_flags_validate_type newval type <? 0)
        | None => true
        end
    end in
  if negb type_ok then -1
  else if has_flag flag H_FORCE then 0
  else
    match op with
    | env_op_delete => if has_flag (e_flags item) PREVENT_DELETE then 1 else 0
    | env_op_overwrite =>
        if has_flag (e_flags item) PREVENT_OVERWR then 1
        else if has_flag (e_flags item) PREVENT_NONDEF_OVERWR then
          let defval := default [] (k ← e_key item; getenv_default k) in
          if negb (strcmp_l (default [] (e_data item)) defval =? 0) then 1 else 0
        else 0
    | env_op_create => if has_flag (e_flags item) PREVENT_CREATE then 1 else 0
    end.

(** The static lists of this configuration: [CONFIG_CMD_NET] and [CONFIG_ENV_OVERWRITE] are set. *)
Definition ENV_FLAGS_LIST_STATIC : cstr := str "ethaddr:ma,".

Definition ENV_CALLBACK_LIST_STATIC : cstr :=
  str ".callbacks:callbacks,.flags:flags,baudrate:baudrate,bootfile:bootfile,loadaddr:loadaddr,stdin:console,stdout:console,stderr:console,".

(** The return value and the flags found. *)
Definition env_flags_lookup (below : cstr) (flags_list : option cstr) (name : cstr) : option (Z * option cstr) :=
  '(ret, flags) ← match flags_list with
    | Some _ => env_attr_lookup below flags_list name 3
    | None => Some (1, None)
    end;
  if negb (ret =? 0) then env_attr_lookup below (Some ENV_FLAGS_LIST_STATIC) name 3 else Some (ret, flags).

Definition env_parse_flags_to_bin (flags : cstr) : Z :=
  Z.lor (Z.land (vartype_num (env_flags_parse_vartype flags)) ENV_FLAGS_VARTYPE_BIN_MASK)
    (env_flags_varaccess_mask (env_flags_parse_varaccess flags)).

(** [flags_list] is the string cached by the first call. *)
Definition env_flags_init_r (below : cstr) (flags_list : option cstr) (var_entry : ENTRY) : option ENTRY :=
  name ← e_key var_entry;
  '(ret, flags) ← env_flags_lookup below flags_list name;
  let flags := default [] flags in
  if (ret =? 0) && negb (Z.of_nat (length flags) =? 0)
  then Some (mk_entry (e_key var_entry) (e_data var_entry) (e_callback var_entry) (env_parse_flags_to_bin flags))
  else Some var_entry.

Definition clear_flags (e : ENTRY) : Z * ENTRY := (0, mk_entry (e_key e) (e_data e) (e_callback e) 0).

(** The entry that [hsearch_r] found is changed in place. *)
Definition change_entry (h : hsearch_data) (name : cstr) (f : ENTRY -> ENTRY) : hsearch_data :=
  match @hsearch_r plain_hooks name None FIND h 0 with
  | Some (r, h) =>
      match rv r, table h with
      | Some i, Some tab =>
          match aget tab i with
          | Some s => set_table h (asets tab i (mk_slot (used s) (f (entry s))))
          | None => h
          end
      | _, _ => h
      end
  | None => h
  end.

Definition set_flags (h : hsearch_data) (name : cstr) (value : option cstr) : Z * hsearch_data :=
  let flags := match value with
    | Some (c :: v) => env_parse_flags_to_bin (c :: v) | _ => 0 end in
  (0, change_entry h name (fun e => mk_entry (e_key e) (e_data e) (e_callback e) flags)).

(** The callback of the variable [.flags]. *)
Definition on_flags (mem_ok : Z -> bool) (h : hsearch_data) (value : option cstr) : option hsearch_data :=
  '(_, h) ← hwalk_r h clear_flags;
  '(_, h) ← env_attr_walk mem_ok (Some ENV_FLAGS_LIST_STATIC) set_flags h;
  '(_, h) ← env_attr_walk mem_ok value set_flags h;
  Some h.

(** ** common/env_callback.c *)

(** The linker list of the callbacks is an argument. *)
Definition find_env_callback (env_clbk : list (cstr * callback_t)) (name : cstr) : option callback_t :=
  snd <$> List.find (fun c => strcmp_l name (fst c) =? 0) env_clbk.

Definition set_callback_ptr (e : ENTRY) (c : option callback_t) : ENTRY :=
  mk_entry (e_key e) (e_data e) c (e_flags e).

(** [callback_list] is the string cached by the first call. *)
Definition env_callback_init_r (below : cstr) (env_clbk : list (cstr * callback_t)) (callback_list : option cstr)
    (var_entry : ENTRY) : option ENTRY :=
  name ← e_key var_entry;
  '(ret, cb) ← match callback_list with
    | Some _ => env_attr_lookup below callback_list name 256
    | None => Some (1, None)
    end;
  '(ret, cb) ← (if negb (ret =? 0) then env_attr_lookup below (Some ENV_CALLBACK_LIST_STATIC) name 256
    else Some (ret, cb));
  let callback_name := default [] cb in
  if (ret =? 0) && negb (Z.of_nat (length callback_name) =? 0) then
    match find_env_callback env_clbk callback_name with
    | Some c => Some (set_callback_ptr var_entry (Some c))
    | None => Some var_entry
    end
  else Some var_entry.

Definition clear_callback (e : ENTRY) : Z * ENTRY := (0, set_callback_ptr e None).

Definition set_callback (env_clbk : list (cstr * callback_t)) (h : hsearch_data) (name : cstr) (value : option cstr)
    : Z * hsearch_data :=
  (0, change_entry h name (fun e =>
    match value with
    | Some (c :: v) =>
        match find_env_callback env_clbk (c :: v) with
        | Some cb => set_callback_ptr e (Some cb) | None => e end
    | _ => set_callback_ptr e None
    end)).

(** The callback of the variable [.callbacks]. *)
Definition on_callbacks (mem_ok : Z -> bool) (env_clbk : list (cstr * callback_t)) (h : hsearch_data)
    (value : option cstr) : option hsearch_data :=
  '(_, h) ← hwalk_r h clear_callback;
  '(_, h) ← env_attr_walk mem_ok (Some ENV_CALLBACK_LIST_STATIC) (set_callback env_clbk) h;
  '(_, h) ← env_attr_walk mem_ok value (set_callback env_clbk) h;
  Some h.

(** ** Types of values *)

Definition all_class (P : Z -> bool) (s : cstr) : Prop := Forall (fun c => P c = true) s.

(** Between one and [n] characters of a class. *)
Definition group (P : Z -> bool) (n : nat) (s : cstr) : Prop := s <> [] /\ (length s <= n)%nat /\ all_class P s.

Definition hex_prefix (p : cstr) : Prop := p = str "0x" \/ p = str "0X".

(** A part of a MAC address: one or two hexadecimal digits, which may have a prefix. *)
Definition mac_part (s : cstr) : Prop :=
  exists p g, s = p ++ g /\ (p = [] \/ hex_prefix p) /\ group isxdigit 2 g.

(** The parts [gs] with [sep] between them. *)
Fixpoint join (sep : Z) (gs : list cstr) : cstr :=
  match gs with
  | [] => []
  | [g] => g
  | g :: gs => g ++ sep :: join sep gs
  end.

(** The format of each type. *)
Definition conforms (t : env_flags_vartype) (v : cstr) : Prop :=
  match t with
  | vartype_string => True
  | vartype_decimal => all_class isdigit v
  | vartype_hex => all_class isxdigit v \/ exists p g, v = p ++ g /\ hex_prefix p /\ g <> [] /\ all_class isxdigit g
  | vartype_bool => exists c, v = [c] /\ c ∈ str "1ytYT0nfNF"
  | vartype_ipaddr => exists gs, length gs = 4%nat /\ Forall (group isdigit 3) gs /\ v = join 46 gs
  | vartype_macaddr => exists gs, length gs = 6%nat /\ Forall mac_part gs /\ v = join 58 gs
  | vartype_end => False
  end.

(** [skip_digits] splits off a maximal group. *)
Lemma skip_digits_split hex m v : exists g,
  v = g ++ skip_digits hex m v /\ all_class (class_of hex) g /\
  match m with Some n => (length g <= n)%nat | None => True end.
Proof.
  revert m. induction v as [|c v IH]; intros m.
  { exists []. destruct m as [[|n]|]; simpl; repeat split; try constructor; lia. }
  assert (Hz : exists g, c :: v = g ++ c :: v /\ all_class (class_of hex) g /\
    match m with Some n => (length g <= n)%nat | None => True end).
  { exists []. destruct m; repeat split; try constructor. simpl. lia. }
  destruct m as [[|n]|]; cbn [skip_digits]; [done| |]; destruct (class_of hex c) eqn:E; try done;
    [destruct (IH (Some n)) as (g & Hg & Hc & Hl) | destruct (IH None) as (g & Hg & Hc & Hl)];
    exists (c :: g); cbn [fmap option_fmap option_map Nat.pred];
    (split; [simpl; by f_equal | split; [by constructor | simpl; lia || done]]).
Qed.

(** The character after a group ends it. *)
Definition stops (hex : bool) (rest : cstr) : Prop := class_of hex (deref rest) = false.

Lemma deref_cons c s : deref (c :: s) = c.
Proof. done. Qed.

Lemma stops_nil hex : stops hex [].
Proof. by destruct hex. Qed.

Lemma skip_digits_app hex m g rest :
  all_class (class_of hex) g -> match m with Some n => (length g <= n)%nat | None => True end ->
  stops hex rest -> skip_digits hex m (g ++ rest) = rest.
Proof.
  intros Hg. revert m. induction Hg as [|c g Hc Hg IH]; intros m Hm Hr.
  - destruct m as [[|n]|], rest as [|c r]; try done; cbn [skip_digits app]; unfold stops in Hr; rewrite deref_cons in Hr;
      by rewrite Hr.
  - destruct m as [[|n]|]; simpl in Hm; [lia| |]; cbn [skip_digits app]; rewrite Hc; apply IH; simpl; auto; lia.
Qed.

(** ** Addresses: parts with a separator *)

Section parts.
Context (sk : cstr -> cstr) (bad : cstr -> bool) (sep : Z) (P : cstr -> Prop).

(** The loop that [check_ip] and [check_mac] share. *)
Fixpoint check_parts (n : nat) (cur : cstr) : bool :=
  match n with
  | O => true
  | S n =>
      if bad cur then false
      else if negb (n =? 0)%nat && negb (deref (sk cur) =? sep) then false
      else if (n =? 0)%nat && negb (deref (sk cur) =? 0) then false
      else check_parts n (drop 1 (sk cur))
  end.

Context (Hsplit : forall cur, bad cur = false -> exists g, cur = g ++ sk cur /\ P g)
  (Hgroup : forall g rest, P g -> rest = [] \/ deref rest = sep -> bad (g ++ rest) = false /\ sk (g ++ rest) = rest)
  (Hsep : sep <> 0).

Lemma deref_nul s : Forall char_ok s -> deref s = 0 -> s = [].
Proof. intros Hs. destruct Hs as [|c s Hc]; [done|]. unfold char_ok in Hc. rewrite deref_cons. lia. Qed.

Lemma deref_sep s : deref s = sep -> s = sep :: drop 1 s.
Proof using Hsep. destruct s as [|c s]; [done|]. rewrite deref_cons. by intros ->. Qed.

Lemma check_parts_iff n cur : Forall char_ok cur ->
  check_parts (S n) cur = true <-> exists gs, length gs = S n /\ Forall P gs /\ cur = join sep gs.
Proof using Hsplit Hgroup Hsep.
  revert cur. induction n as [|n IH]; intros cur Hc; cbn [check_parts].
  - split.
    + destruct (bad cur) eqn:E; [done|]. destruct (Hsplit cur E) as (g & Hg & HP). simpl.
      destruct (Z.eqb_spec (deref (sk cur)) 0) as [Hd|]; [|done]. intros _. exists [g]. repeat split; [by constructor|].
      rewrite Hg in Hc. apply Forall_app in Hc as [_ Hc]. by rewrite Hg, (deref_nul _ Hc Hd), app_nil_r at 1.
    + intros ([|g [|? ?]] & Hl & HP & ->); try done. apply Forall_cons_iff in HP as [HP _].
      destruct (Hgroup g [] HP) as [Hb Hs]; [by left|]. rewrite app_nil_r in Hb, Hs. simpl. by rewrite Hb, Hs.
  - split.
    + destruct (bad cur) eqn:E; [done|]. destruct (Hsplit cur E) as (g & Hg & HP). cbn [Nat.eqb andb negb].
      destruct (Z.eqb_spec (deref (sk cur)) sep) as [Hd%deref_sep|]; [|done]. cbn [negb].
      rewrite Hg, Hd in Hc. apply Forall_app in Hc as [_ Hc]. apply Forall_cons_iff in Hc as [_ Hc].
      intros Ht. apply (IH _ Hc) in Ht as (gs & Hl & HPs & Hj). exists (g :: gs).
      repeat split; [simpl; lia | by constructor|]. destruct gs; [done|]. cbn [join] in Hj |- *.
      by rewrite Hg, Hd, Hj at 1.
    + intros ([|g [|g' gs]] & Hl & HP & ->); try done. apply Forall_cons_iff in HP as [HP HPs].
      change (join sep (g :: g' :: gs)) with (g ++ sep :: join sep (g' :: gs)) in Hc |- *.
      destruct (Hgroup g (sep :: join sep (g' :: gs)) HP) as [Hb Hs]; [by right|].
      rewrite Hb, Hs. rewrite deref_cons, Z.eqb_refl. cbn [Nat.eqb andb negb drop].
      refine (proj2 (IH (join sep (g' :: gs)) _) _); [by apply Forall_app in Hc as [_ [_ Hc]%Forall_cons_iff]|].
      exists (g' :: gs). auto.
Qed.
End parts.

(** ** The value formats *)

Lemma same_pos_app g rest : same_pos (g ++ rest) rest = bool_decide (g = []).
Proof.
  unfold same_pos. rewrite length_app. apply eq_bool_prop_intro. rewrite bool_decide_spec.
  split; [intros H%Is_true_eq_true%Nat.eqb_eq; apply length_zero_iff_nil; lia | intros ->].
  apply Is_true_eq_left, Nat.eqb_refl.
Qed.

Lemma check_ip_parts n cur :
  check_ip n cur = check_parts (fun c => skip_num false c (Some 3%nat))
    (fun c => same_pos c (skip_num false c (Some 3%nat))) 46 n cur.
Proof. revert cur. induction n as [|n IH]; intros cur; [done|]. cbn [check_ip check_parts]. by rewrite IH. Qed.

Definition mac_bad (cur : cstr) : bool :=
  let end_ := skip_num true cur (Some 2%nat) in
  same_pos cur end_ || ((length cur =? 2 + length end_)%nat && is_hex_prefix cur).

Lemma check_mac_parts n cur :
  check_mac n cur = check_parts (fun c => skip_num true c (Some 2%nat)) mac_bad 58 n cur.
Proof.
  revert cur. induction n as [|n IH]; intros cur; [done|]. cbn [check_mac check_parts]. unfold mac_bad.
  destruct (same_pos _ _); [done|]. by rewrite IH.
Qed.

Lemma is_hex_prefix_iff v : is_hex_prefix v = true <-> exists p g, v = p ++ g /\ hex_prefix p.
Proof.
  split.
  - destruct v as [|c0 [|c1 v]]; try done. simpl. rewrite andb_true_iff, orb_true_iff, !Z.eqb_eq.
    intros [-> [-> | ->]]; [exists (str "0x"), v | exists (str "0X"), v]; (split; [done|]); [by left | by right].
  - by intros (p & g & -> & [-> | ->]).
Qed.

Lemma hex_group_no_prefix g rest : all_class isxdigit g -> g <> [] ->
  deref rest <> 120 -> deref rest <> 88 -> is_hex_prefix (g ++ rest) = false.
Proof.
  intros Hg Hne H1 H2. destruct g as [|c0 [|c1 g]]; [done| |].
  - destruct rest as [|c r]; [done|]. rewrite deref_cons in H1, H2. simpl.
    rewrite (proj2 (Z.eqb_neq c _) H1), (proj2 (Z.eqb_neq c _) H2). apply andb_false_r.
  - apply Forall_cons_iff in Hg as [_ [Hc _]%Forall_cons_iff]. simpl.
    rewrite (proj2 (Z.eqb_neq c1 120)), (proj2 (Z.eqb_neq c1 88)) by (by intros ->). apply andb_false_r.
Qed.

Lemma hex_prefix_length p : hex_prefix p -> length p = 2%nat.
Proof. by intros [-> | ->]. Qed.

Lemma skip_num_prefix p g m : hex_prefix p -> skip_num true (p ++ g) m = skip_digits true m g.
Proof. by intros [-> | ->]. Qed.

Lemma skip_num_plain hex v m : hex && is_hex_prefix v = false -> skip_num hex v m = skip_digits hex m v.
Proof. unfold skip_num. by intros ->. Qed.

Lemma ip_split cur : same_pos cur (skip_num false cur (Some 3%nat)) = false ->
  exists g, cur = g ++ skip_num false cur (Some 3%nat) /\ group isdigit 3 g.
Proof.
  rewrite skip_num_plain by done. intros Hs.
  destruct (skip_digits_split false (Some 3%nat) cur) as (g & Hg & Hc & Hl).
  exists g. split; [done|]. rewrite Hg, same_pos_app in Hs at 1. apply bool_decide_eq_false in Hs. by split.
Qed.

Lemma ip_group g rest : group isdigit 3 g -> rest = [] \/ deref rest = 46 ->
  same_pos (g ++ rest) (skip_num false (g ++ rest) (Some 3%nat)) = false /\
  skip_num false (g ++ rest) (Some 3%nat) = rest.
Proof.
  intros (Hne & Hl & Hc) Hr. rewrite skip_num_plain, (skip_digits_app false) by
    (done || (unfold stops; by destruct Hr as [-> | ->])).
  rewrite same_pos_app. split; [by apply bool_decide_eq_false | done].
Qed.

Lemma mac_split cur : mac_bad cur = false ->
  exists g, cur = g ++ skip_num true cur (Some 2%nat) /\ mac_part g.
Proof.
  unfold mac_bad. rewrite orb_false_iff. intros [Hs Hb].
  destruct (is_hex_prefix cur) eqn:E.
  - apply is_hex_prefix_iff in E as (p & v & -> & Hp). rewrite skip_num_prefix in * by done.
    destruct (skip_digits_split true (Some 2%nat) v) as (g & Hg & Hc & Hl).
    exists (p ++ g). rewrite <- (assoc_L (++)), <- Hg. split; [done|]. exists p, g.
    repeat split; [by right | | done | done]. intros ->. rewrite andb_true_r, length_app in Hb.
    apply Nat.eqb_neq in Hb. simpl in Hg. rewrite (hex_prefix_length p), <- Hg in Hb by done. done.
  - rewrite skip_num_plain in * by (by rewrite E).
    destruct (skip_digits_split true (Some 2%nat) cur) as (g & Hg & Hc & Hl).
    exists g. split; [done|]. exists [], g. rewrite Hg, same_pos_app in Hs at 1.
    apply bool_decide_eq_false in Hs. repeat split; auto.
Qed.

Lemma mac_group g rest : mac_part g -> rest = [] \/ deref rest = 58 ->
  mac_bad (g ++ rest) = false /\ skip_num true (g ++ rest) (Some 2%nat) = rest.
Proof.
  intros (p & d & -> & Hp & Hne & Hl & Hc) Hr. unfold mac_bad.
  assert (Hst : stops true rest) by (unfold stops; by destruct Hr as [-> | ->]).
  assert (Hsk : skip_num true ((p ++ d) ++ rest) (Some 2%nat) = rest).
  { rewrite <- (assoc_L (++)). destruct Hp as [-> | Hp].
    - cbn [app]. rewrite skip_num_plain, (skip_digits_app true) by (done ||
        (apply hex_group_no_prefix; try done; by destruct Hr as [-> | ->])). done.
    - by rewrite skip_num_prefix, (skip_digits_app true). }
  rewrite Hsk. split; [|done]. rewrite same_pos_app, orb_false_iff. split.
  { apply bool_decide_eq_false. destruct p, d; done. }
  destruct Hp as [-> | Hp].
  - cbn [app]. apply andb_false_iff. right. apply hex_group_no_prefix; try done; by destruct Hr as [-> | ->].
  - apply andb_false_iff. left. apply Nat.eqb_neq. rewrite !length_app, (hex_prefix_length p) by done.
    destruct d; [done | simpl; lia].
Qed.

Lemma hex_format v : Forall char_ok v ->
  _env_flags_validate_type v vartype_hex = 0 <-> conforms vartype_hex v.
Proof.
  intros Hv. cbn [_env_flags_validate_type conforms]. destruct (is_hex_prefix v) eqn:E.
  - apply is_hex_prefix_iff in E as (p & d & -> & Hp). apply Forall_app in Hv as [_ Hv].
    rewrite skip_num_prefix by done. destruct (skip_digits_split true None d) as (g & Hg & Hc & _). split.
    + destruct (Z.eqb_spec (deref (skip_digits true None d)) 0) as [Hd|]; [|done]. cbn [negb].
      rewrite Hg in Hv. apply Forall_app in Hv as [_ Hv]. rewrite (deref_nul _ Hv Hd) in Hg |- *.
      rewrite app_nil_r in Hg. subst g. rewrite length_app, (hex_prefix_length p) by done.
      destruct (Nat.eqb_spec (2 + length d) (2 + length (@nil Z))) as [|Hn]; [done|]. intros _. right.
      exists p, d. repeat split; [done | by intros -> | done].
    + intros Hf. assert (Hd : all_class isxdigit d /\ d <> []).
      { destruct Hf as [Hf | (p' & g' & Heq & Hp' & Hne & Hc')].
        - apply Forall_app in Hf as [Hf _]. destruct Hp as [-> | ->]; by apply Forall_cons_iff in Hf as [_ [Hf _]%Forall_cons_iff].
        - apply app_inj_1 in Heq as [_ ->]; [done | by rewrite !hex_prefix_length]. }
      rewrite <- (app_nil_r d), (skip_digits_app true), app_nil_r by (apply Hd || done || apply stops_nil).
      rewrite length_app, (hex_prefix_length p) by done. cbn [deref list.head default negb Z.eqb length].
      destruct Hd as [_ Hd]. by destruct d.
  - rewrite skip_num_plain by (by rewrite E). destruct (skip_digits_split true None v) as (g & Hg & Hc & _).
    rewrite andb_false_r. split.
    + destruct (Z.eqb_spec (deref (skip_digits true None v)) 0) as [Hd|]; [intros _|done]. left.
      rewrite Hg in Hv. apply Forall_app in Hv as [_ Hv]. by rewrite Hg, (deref_nul _ Hv Hd), app_nil_r.
    + intros [Ha | (p & d & -> & Hp & _)].
      * rewrite <- (app_nil_r v), (skip_digits_app true) by (done || apply stops_nil). done.
      * by rewrite (proj2 (is_hex_prefix_iff _)) in E by eauto.
Qed.

(** The checks of a value decide its format. *)
Lemma validate_type_iff v t : Forall char_ok v -> _env_flags_validate_type v t = 0 <-> conforms t v.
Proof.
  intros Hv. destruct t; cbn [_env_flags_validate_type conforms]; try done.
  - rewrite skip_num_plain by done. destruct (skip_digits_split false None v) as (g & Hg & Hc & _). split.
    + destruct (Z.eqb_spec (deref (skip_digits false None v)) 0) as [Hd|]; [intros _|done].
      rewrite Hg in Hv. apply Forall_app in Hv as [_ Hv]. by rewrite Hg, (deref_nul _ Hv Hd), app_nil_r.
    + intros Ha. rewrite <- (app_nil_r v), (skip_digits_app false) by (done || apply stops_nil). done.
  - apply hex_format; done.
  - split.
    + case_bool_decide as Hd; [|done]. destruct v as [|c v]; [by apply (bool_decide_eq_true_2 _) in Hd|].
      destruct (Z.eqb_spec (deref (drop 1 (c :: v))) 0) as [Hz|]; [intros _|done].
      apply Forall_cons_iff in Hv as [_ Hv]. exists c. by rewrite (deref_nul v).
    + intros (c & -> & Hc). by rewrite bool_decide_true.
  - rewrite check_ip_parts. rewrite <- (check_parts_iff _ _ 46 (group isdigit 3) ip_split ip_group) by done.
    by destruct (check_parts _ _ _ _ _).
  - rewrite check_mac_parts. rewrite <- (check_parts_iff _ _ 58 mac_part mac_split mac_group) by done.
    by destruct (check_parts _ _ _ _ _).
Qed.

(** ** Permissions *)

(** What an access method permits; [is_default] says that the variable has its default value. *)
Definition permitted (a : env_flags_varaccess) (op : env_op) (is_default : Prop) : Prop :=
  match a, op with
  | varaccess_any, _ => True
  | varaccess_readonly, _ => False
  | _, env_op_create => True
  | varaccess_changedefault, env_op_overwrite => is_default
  | _, _ => False
  end.

(** Evaluates the tests of constant flags. *)
Ltac flag_bits :=
  repeat match goal with |- context [has_flag ?a ?b] =>
    let v := eval vm_compute in (has_flag a b) in change (has_flag a b) with v end; cbn.

(** The binary form keeps the type and the access method. *)
Lemma to_bin_roundtrip fl :
  vartype_of (Z.land ENV_FLAGS_VARTYPE_BIN_MASK (env_parse_flags_to_bin fl)) = Some (env_flags_parse_vartype fl) /\
  env_flags_parse_varaccess_from_binflags (env_parse_flags_to_bin fl) = env_flags_parse_varaccess fl.
Proof.
  unfold env_parse_flags_to_bin.
  by destruct (env_flags_parse_vartype fl), (env_flags_parse_varaccess fl).
Qed.

(** The four permission bits of the binary form. *)
Lemma to_bin_access fl b : b ∈ [PREVENT_DELETE; PREVENT_CREATE; PREVENT_OVERWR; PREVENT_NONDEF_OVERWR] ->
  has_flag (env_parse_flags_to_bin fl) b = has_flag (env_flags_varaccess_mask (env_flags_parse_varaccess fl)) b.
Proof.
  unfold env_parse_flags_to_bin. rewrite !list.elem_of_cons, elem_of_nil.
  destruct (env_flags_parse_vartype fl), (env_flags_parse_varaccess fl); by intros [->|[->|[->|[->|[]]]]].
Qed.

Lemma validate_type_cases v t : _env_flags_validate_type v t = 0 \/ _env_flags_validate_type v t = -1.
Proof. destruct t; cbn [_env_flags_validate_type]; repeat case_match; auto. Qed.

(** C17: [env_flags_validate] enforces the attributes of a variable.  For an
    entry with the binary form of the flags [fl], a change is accepted if and
    only if the new value has the format of the variable's type (decimal, hex,
    bool, IP or MAC address; not checked for a deletion) and the change is
    forced or the access method permits the operation: anything for [any],
    nothing for [readonly], creation for [writeonce], creation and the
    overwriting of the default value for [changedefault].  The result is -1
    exactly for a format error, and 1 for a permission error. *)
Theorem env_flags_validate_correct getenv_default item newval op flag fl :
  e_flags item = env_parse_flags_to_bin fl ->
  let new := default [] newval in
  let old := default [] (e_data item) in
  let def := default [] (k ← e_key item; getenv_default k) in
  Forall char_ok new -> Forall char_ok old -> Forall char_ok def ->
  let r := env_flags_validate getenv_default item newval op flag in
  let type_ok := op <> env_op_delete -> conforms (env_flags_parse_vartype fl) new in
  (r = -1 <-> ~ type_ok) /\
  (r = 1 <-> type_ok /\ has_flag flag H_FORCE = false /\ ~ permitted (env_flags_parse_varaccess fl) op (old = def)) /\
  (r = 0 <-> type_ok /\ (has_flag flag H_FORCE = true \/ permitted (env_flags_parse_varaccess fl) op (old = def))).
Proof.
  intros Hfl new old def Hn Ho Hd r type_ok. subst r. unfold env_flags_validate.
  fold new old def. rewrite Hfl, (proj1 (to_bin_roundtrip fl)), !to_bin_access by (rewrite !list.elem_of_cons; tauto).
  pose proof (validate_type_iff new (env_flags_parse_vartype fl) Hn) as Ht.
  pose proof (strcmp_l_eq old def Ho Hd) as Hs.
  set (acc := env_flags_parse_varaccess fl). set (vt := _env_flags_validate_type new (env_flags_parse_vartype fl)) in *.
  assert (Htype : (negb (match op with env_op_delete => true | _ => negb (vt <? 0) end) = true /\ ~ type_ok) \/
    (negb (match op with env_op_delete => true | _ => negb (vt <? 0) end) = false /\ type_ok)).
  { unfold type_ok. destruct (validate_type_cases new (env_flags_parse_vartype fl)) as [Hv|Hv];
      fold vt in Hv; rewrite Hv in Ht |- *; destruct op; simpl; intuition congruence. }
  clearbody type_ok vt. clear Ht.
  destruct Htype as [[-> Htn]|[-> Hty]]; [intuition congruence|].
  destruct (has_flag flag H_FORCE); [intuition congruence|].
  destruct (Z.eqb_spec (strcmp_l old def) 0) as [Hz|Hz]; rewrite Hs in Hz;
    destruct op, acc; flag_bits; intuition congruence.
Qed.

Lemma env_flags_validate_correct_witness :
  env_flags_validate (fun _ => None) (mk_entry (Some (str "ip")) (Some (str "10.0.0.1")) None
    (env_parse_flags_to_bin (str "io"))) (Some (str "10.0.0.256")) env_op_create 0 = 0 /\
  env_flags_validate (fun _ => None) (mk_entry (Some (str "ip")) (Some (str "10.0.0.1")) None
    (env_parse_flags_to_bin (str "io"))) (Some (str "10.0.0.2")) env_op_overwrite 0 = 1.
Proof.
  split.
  - eapply (env_flags_validate_correct (fun _ => None) (mk_entry (Some (str "ip")) (Some (str "10.0.0.1")) None
      (env_parse_flags_to_bin (str "io"))) (Some (str "10.0.0.256")) env_op_create 0 (str "io")); try reflexivity;
      try chars.
    split; [|right; exact I]. intros _.
    exists [str "10"; str "0"; str "0"; str "256"]. split; [reflexivity|]. split; [|reflexivity].
    repeat constructor; done.
  - eapply (env_flags_validate_correct (fun _ => None) (mk_entry (Some (str "ip")) (Some (str "10.0.0.1")) None
      (env_parse_flags_to_bin (str "io"))) (Some (str "10.0.0.2")) env_op_overwrite 0 (str "io")); try reflexivity;
      try chars.
    split; [|split; [reflexivity | intros []]]. intros _.
    exists [str "10"; str "0"; str "0"; str "2"]. split; [reflexivity|]. split; [|reflexivity].
    repeat constructor; done.
Defined.

(** ** Searching an attribute list *)

(** [name] occurs in [l] at index [e]. *)
Definition occurs (l name : cstr) (e : nat) : Prop := take (length name) (drop e l) = name.

(** The occurrence ends before [searched_start]. *)
Definition within (start : option nat) (name : cstr) (e : nat) : Prop :=
  match start with Some s => (e + length name <= s)%nat | None => True end.

Lemma occurs_bound l name e : name <> [] -> occurs l name e -> (e + length name <= length l)%nat.
Proof.
  unfold occurs. intros Hne H. apply (f_equal length) in H. rewrite length_take, length_drop in H.
  apply length_zero_iff_nil in H || (assert (length name <> 0)%nat by (by rewrite length_zero_iff_nil); lia).
Qed.

(** [r] is the last occurrence from index [lo] on, [res] if there is none. *)
Definition last_occurrence (l name : cstr) (start : option nat) (lo : nat) (res r : option nat) : Prop :=
  (exists e, r = Some e /\ (lo <= e)%nat /\ occurs l name e /\ within start name e /\
     forall e', (e < e')%nat -> occurs l name e' -> ~ within start name e') \/
  (r = res /\ forall e', (lo <= e')%nat -> occurs l name e' -> ~ within start name e').

Lemma reverse_strstr_loop_spec l name start : name <> [] -> forall fuel lo res,
  (length l < fuel + lo)%nat -> (lo <= length l)%nat ->
  exists r, reverse_strstr_loop fuel l name lo start res = Some r /\ last_occurrence l name start lo res r.
Proof.
  intros Hne fuel. induction fuel as [|fuel IH]; intros lo res Hf Hlo.
  { lia. }
  cbn [reverse_strstr_loop]. pose proof (find_sub_first name (drop lo l)) as Hfs.
  destruct (find_sub name (drop lo l)) as [j|].
  - destruct Hfs as [Hocc Hfirst]. rewrite drop_drop in Hocc. fold (occurs l name (lo + j)) in Hocc.
    pose proof (occurs_bound _ _ _ Hne Hocc) as Hb.
    assert (Hmin : forall e', (lo <= e')%nat -> occurs l name e' -> (lo + j <= e')%nat).
    { intros e' Hle Ho. destruct (le_lt_dec (lo + j) e') as [|Hlt]; [done|].
      destruct (Hfirst (e' - lo)%nat); [lia|]. rewrite drop_drop. by replace (lo + (e' - lo))%nat with e' by lia. }
    destruct (match start with Some s => _ | None => false end) eqn:Ep.
    + exists res. split; [done|]. right. split; [done|]. intros e' Hle Ho. specialize (Hmin e' Hle Ho).
      destruct start as [s|]; [|done]. apply Nat.ltb_lt in Ep. simpl. lia.
    + destruct (IH (S (lo + j)) (Some (lo + j)%nat)) as (r & Hr & Hlast);
        [lia | destruct name; simpl in *; [done | lia] |].
      exists r. split; [done|]. left. destruct Hlast as [(e & -> & He & Hrest)|[-> Hno]].
      * exists e. split; [done|]. split; [lia | done].
      * exists (lo + j)%nat. split; [done|]. split; [lia|]. split; [done|]. split; [|intros e' He'; apply Hno; lia].
        destruct start as [s|]; [|done]. apply Nat.ltb_ge in Ep. done.
  - exists res. split; [done|]. right. split; [done|]. intros e' Hle Ho. destruct (Hfs (e' - lo)%nat).
    rewrite drop_drop. by replace (lo + (e' - lo))%nat with e' by lia.
Qed.

Lemma reverse_strstr_spec l name start : name <> [] ->
  exists r, reverse_strstr l name start = Some r /\ last_occurrence l name start 0 None r.
Proof.
  intros Hne. unfold reverse_strstr. destruct name; [done|]. apply reverse_strstr_loop_spec; [done | lia | lia].
Qed.

(** ** Blanks *)

Definition blanks (n : nat) : cstr := replicate n 32.

Lemma skip_blanks_split s : exists n, s = blanks n ++ skip_blanks s /\ deref (skip_blanks s) <> 32.
Proof.
  induction s as [|c s (n & Hs & Hd)]; [by exists O|]. cbn [skip_blanks].
  destruct (Z.eqb_spec c 32) as [->|]; [|by exists O]. exists (S n). split; [|done].
  change (blanks (S n)) with (32 :: blanks n). simpl. by f_equal.
Qed.

Lemma skip_blanks_app n s : deref s <> 32 -> skip_blanks (blanks n ++ s) = s.
Proof.
  intros Hs. induction n as [|n IH]; [|done]. simpl. destruct s as [|c s]; [done|]. simpl.
  rewrite deref_cons in Hs. by rewrite (proj2 (Z.eqb_neq c 32)).
Qed.

(** What comes before the name of an entry: the beginning of the list, or a comma and blanks. *)
Definition starts_entry (pre : cstr) : Prop := pre = [] \/ exists p n, pre = p ++ ENV_ATTR_LIST_DELIM :: blanks n.

(** What comes after it: blanks and then a separator or the end of the list. *)
Definition ends_name (post : cstr) : Prop := exists n r,
  post = blanks n ++ r /\ (r = [] \/ deref r = ENV_ATTR_SEP \/ deref r = ENV_ATTR_LIST_DELIM).

(** The list has an entry for [name] that begins at index [e]. *)
Definition entry_at (l name : cstr) (e : nat) : Prop :=
  occurs l name e /\ starts_entry (take e l) /\ ends_name (drop (e + length name) l).

(** What the bytes in front of the list must be: the nearest that is not a
    space exists and is not a comma. *)
Definition no_comma_before (below : cstr) : Prop :=
  exists c, list.head (skip_blanks below) = Some c /\ c <> ENV_ATTR_LIST_DELIM.

Lemma blanks_rev n : rev (blanks n) = blanks n.
Proof. rewrite rev_alt. apply reverse_replicate. Qed.

Lemma prev_char_spec below pre : no_comma_before below ->
  exists c, list.head (skip_blanks (rev pre ++ below)) = Some c /\
    (c = ENV_ATTR_LIST_DELIM <-> exists p n, pre = p ++ ENV_ATTR_LIST_DELIM :: blanks n).
Proof.
  intros (c0 & Hc0 & Hne). destruct (skip_blanks_split (rev pre)) as (n & Hs & Hd).
  apply (f_equal (@rev Z)) in Hs as Hpre. rewrite rev_involutive, rev_app_distr, blanks_rev in Hpre.
  destruct (skip_blanks (rev pre)) as [|c r] eqn:E.
  - simpl in Hpre. exists c0. split.
    + rewrite Hpre, blanks_rev. clear -Hc0. by induction n.
    + split; [done|]. intros (p & m & Hp). rewrite Hpre in Hp.
      assert (Hin : ENV_ATTR_LIST_DELIM ∈ blanks n) by (rewrite Hp; set_solver).
      by apply elem_of_replicate in Hin as [? _].
  - exists c. rewrite deref_cons in Hd. split.
    + rewrite Hs, <- (assoc_L (++)). simpl app. by rewrite skip_blanks_app.
    + split.
      * intros ->. exists (rev r), n. rewrite Hpre. simpl. by rewrite <- (assoc_L (++)).
      * intros (p & m & Hp). rewrite Hp, rev_app_distr in E. simpl in E. rewrite blanks_rev in E.
        rewrite <- (assoc_L (++)), skip_blanks_app in E by done. by injection E.
Qed.

(** The check of a candidate decides whether it is an entry. *)
Lemma exact_at_spec below l name e : no_comma_before below -> (e <= length l)%nat -> Forall char_ok l ->
  exists b, exact_at below l name e = Some b /\
    (b = true <-> starts_entry (take e l) /\ ends_name (drop (e + length name) l)).
Proof.
  intros Hb He Hl. unfold exact_at, prev_char, next_char.
  destruct (prev_char_spec below (take e l) Hb) as (c & -> & Hc). cbn [mbind option_bind].
  eexists. split; [done|]. rewrite andb_true_iff, !orb_true_iff, !Z.eqb_eq, Nat.eqb_eq, Hc.
  assert (Hz : e = 0%nat <-> take e l = []).
  { split; [by intros -> | intros H%(f_equal length); rewrite length_take in H; simpl in H; lia]. }
  rewrite Hz. apply and_iff_compat_l.
  destruct (skip_blanks_split (drop (e + length name) l)) as (n & Hs & Hd). split.
  - intros Hcase. exists n, (skip_blanks (drop (e + length name) l)). split; [done|].
    destruct Hcase as [[?|?]|Hn]; auto. left. apply deref_nul; [|done].
    apply (Forall_drop _ (e + length name)) in Hl. rewrite Hs in Hl. by apply Forall_app in Hl as [_ Hl].
  - intros (m & r & Hr & Hcase). rewrite Hr, skip_blanks_app by (by destruct Hcase as [-> | [-> | ->]]).
    destruct Hcase as [-> | [?|?]]; auto.
Qed.

(** ** The lookup *)

(** The characters of a name: none that the list syntax uses. *)
Definition name_char (c : Z) : Prop := char_ok c /\ c <> 32 /\ c <> ENV_ATTR_SEP /\ c <> ENV_ATTR_LIST_DELIM.

(** An entry does not overlap a later occurrence of its name. *)
Lemma entry_no_overlap l name e e' : name <> [] -> Forall name_char name ->
  entry_at l name e' -> occurs l name e -> (e' < e)%nat -> (e' + length name <= e)%nat.
Proof.
  intros Hne Hn (Ho' & _ & n & r & Hp & Hr) Ho Hlt. destruct (le_lt_dec (e' + length name) e) as [|Hov]; [done|].
  exfalso. set (k := (e' + length name - e)%nat).
  pose proof (occurs_bound _ _ _ Hne Ho) as Hb.
  assert (Hk : (k < length name)%nat) by (unfold k; lia).
  destruct (lookup_lt_is_Some_2 name k Hk) as [c Hc].
  assert (Hl : drop (e' + length name) l !! 0%nat = Some c).
  { rewrite lookup_drop. rewrite <- Ho in Hc. rewrite lookup_take_lt, lookup_drop in Hc by lia.
    rewrite <- Hc. f_equal. unfold k. lia. }
  pose proof (Forall_lookup_1 _ _ _ _ Hn Hc) as (Hcok & H32 & Hs & Hd).
  rewrite Hp in Hl. destruct n as [|n]; simpl in Hl; [|congruence].
  destruct r as [|x r]; [done|]. injection Hl as ->. rewrite deref_cons in Hr. destruct Hr as [?|[?|?]]; done.
Qed.

(** The result is the last entry for the name. *)
Definition last_entry (l name : cstr) (r : option nat) : Prop :=
  match r with
  | Some e => entry_at l name e /\ forall e', (e < e')%nat -> ~ entry_at l name e'
  | None => forall e, ~ entry_at l name e
  end.

Section lookup.
Context (below l name : cstr) (Hb : no_comma_before below) (Hl : Forall char_ok l)
  (Hne : name <> []) (Hn : Forall name_char name).

Lemma name_length : (0 < length name)%nat.
Proof using Hne. clear -Hne. destruct name; [done | simpl; lia]. Qed.

Lemma lookup_loop_spec fuel : forall entry,
  match entry with
  | Some e => occurs l name e /\ (e + 1 < fuel)%nat /\ forall e', (e < e')%nat -> ~ entry_at l name e'
  | None => (0 < fuel)%nat /\ forall e, ~ entry_at l name e
  end -> exists r, lookup_loop fuel below l name entry = Some r /\ last_entry l name r.
Proof using Hb Hl Hne Hn.
  induction fuel as [|fuel IH]; intros [e|] Hinv; try lia; cbn [lookup_loop].
  2:{ exists None. split; [done | exact (proj2 Hinv)]. }
  destruct Hinv as (Ho & Hf & Hlater). pose proof (occurs_bound _ _ _ Hne Ho) as Hle.
  destruct (exact_at_spec below l name e) as (b & -> & Hx); [done | lia | done|]. cbn [mbind option_bind].
  destruct b.
  - exists (Some e). split; [done|]. split; [|done]. split; [done|]. by apply Hx.
  - assert (Hno : ~ entry_at l name e) by (intros (_ & H); by apply Hx in H).
    destruct (reverse_strstr_spec l name (Some e) Hne) as (r & -> & Hr). cbn [mbind option_bind]. apply IH.
    assert (Hback : forall e', entry_at l name e' -> within (Some e) name e').
    { intros e' Hen. simpl. destruct (lt_eq_lt_dec e' e) as [[?| ->]|?]; [by eapply entry_no_overlap | done|].
      by destruct (Hlater e'). }
    destruct Hr as [(e1 & -> & _ & Ho1 & Hw & Hlast)|[-> Hnone]].
    + split; [done|]. split; [pose proof name_length; simpl in *; lia|].
      intros e' Hlt Hen. apply (Hlast e'); auto. by destruct Hen.
    + split; [lia|]. intros e' Hen. apply (Hnone e'); [lia | by destruct Hen | auto].
Qed.

Lemma lookup_entry : exists r,
  (entry ← reverse_strstr l name None; lookup_loop (S (S (length l))) below l name entry) = Some r /\
  last_entry l name r.
Proof using Hb Hl Hne Hn.
  destruct (reverse_strstr_spec l name None Hne) as (r & -> & Hr). cbn [mbind option_bind].
  apply lookup_loop_spec. destruct Hr as [(e & -> & _ & Ho & _ & Hlast)|[-> Hnone]].
  - pose proof (occurs_bound _ _ _ Hne Ho). split; [done|]. split; [pose proof name_length; simpl in *; lia|].
    intros e' Hlt [Ho' _]. by apply (Hlast e').
  - split; [lia|]. intros e [Ho _]. apply (Hnone e); [lia | done | done].
Qed.
End lookup.

(** The attributes of an entry, from the text after its name. *)
Definition attributes_of (post a : cstr) : Prop := exists n r, post = blanks n ++ r /\ deref r <> 32 /\
  ((deref r <> ENV_ATTR_SEP /\ a = []) \/
   exists m rest, r = ENV_ATTR_SEP :: blanks m ++ a ++ rest /\
     (a = [] -> deref rest <> 32) /\ (32 ∉ a) /\ (ENV_ATTR_LIST_DELIM ∉ a) /\
     (rest = [] \/ deref rest = 32 \/ deref rest = ENV_ATTR_LIST_DELIM)).

Lemma attr_token_spec s : exists rest, s = attr_token s ++ rest /\ (32 ∉ attr_token s) /\
  (ENV_ATTR_LIST_DELIM ∉ attr_token s) /\ (rest = [] \/ deref rest = 32 \/ deref rest = ENV_ATTR_LIST_DELIM).
Proof.
  induction s as [|c s (rest & Hs & H1 & H2 & Hr)]; cbn [attr_token].
  { exists []. repeat split; auto using not_elem_of_nil. }
  destruct (Z.eqb_spec c ENV_ATTR_LIST_DELIM) as [->|Hc]; cbn [orb].
  { exists (ENV_ATTR_LIST_DELIM :: s). repeat split; auto using not_elem_of_nil. }
  destruct (Z.eqb_spec c 32) as [->|Hc'].
  { exists (32 :: s). repeat split; auto using not_elem_of_nil. }
  exists rest. simpl. split; [by f_equal|]. rewrite !list.elem_of_cons. repeat split; [| |done]; intros [?|?]; auto.
Qed.

Lemma attributes_at_spec l e : attributes_of (drop e l) (attributes_at l e).
Proof.
  destruct (skip_blanks_split (drop e l)) as (n & Hs & Hd).
  exists n, (skip_blanks (drop e l)). split; [done|]. split; [done|]. unfold attributes_at.
  destruct (skip_blanks (drop e l)) as [|c r]; [left; by split|]. rewrite deref_cons.
  destruct (Z.eqb_spec c ENV_ATTR_SEP) as [->|]; [right | by left].
  destruct (skip_blanks_split r) as (m & Hm & Hdm). destruct (attr_token_spec (skip_blanks r)) as (rest & Ht & Hrest).
  exists m, rest. rewrite <- Ht, <- Hm. split; [done|]. split; [|done].
  intros Hnil. rewrite Hnil in Ht. simpl in Ht. by rewrite <- Ht.
Qed.

(** [env_attr_lookup] terminates and finds the last entry for a name in an
    attribute list "name[:attributes],...": the name stands at the beginning
    of the list or after a comma and blanks, and blanks and a colon, a comma
    or the end of the list follow it.  The result is 0 and the text between
    the colon and the next blank or comma (empty without a colon), or 2 when
    the list has no such entry.  A text that is longer than the buffer is
    written past its end, undefined behaviour ([None]). *)
Theorem env_attr_lookup_correct below l name bufsz :
  no_comma_before below -> Forall char_ok l -> name <> [] -> Forall name_char name ->
  (exists e a, entry_at l name e /\ (forall e', (e < e')%nat -> ~ entry_at l name e') /\
     attributes_of (drop (e + length name) l) a /\
     env_attr_lookup below (Some l) name bufsz = if (length a <? bufsz)%nat then Some (0, Some a) else None) \/
  ((forall e, ~ entry_at l name e) /\ env_attr_lookup below (Some l) name bufsz = Some (2, None)).
Proof.
  intros Hb Hl Hne Hn. unfold env_attr_lookup.
  destruct (lookup_entry below l name Hb Hl Hne Hn) as (r & Hr & Hlast).
  destruct (reverse_strstr l name None) as [entry|]; [|done]. cbn [mbind option_bind] in Hr |- *.
  rewrite Hr. cbn [mbind option_bind]. destruct r as [e|]; [left | by right].
  exists e, (attributes_at l (e + length name)). destruct Hlast as [? ?].
  repeat split; auto using attributes_at_spec; apply H.
Qed.

Lemma env_attr_lookup_correct_witness :
  exists e a, entry_at (str "a:x, ab : yy ,b") (str "ab") e /\
    attributes_of (drop (e + 2) (str "a:x, ab : yy ,b")) a /\
    env_attr_lookup [0] (Some (str "a:x, ab : yy ,b")) (str "ab") 3 = Some (0, Some (str "yy")).
Proof.
  destruct (env_attr_lookup_correct [0] (str "a:x, ab : yy ,b") (str "ab") 3) as [(e & a & He & _ & Ha & _)|[_ Hn]].
  - exists 0. done.
  - chars.
  - done.
  - change (Forall name_char [97; 98]). unfold name_char, char_ok, ENV_ATTR_SEP, ENV_ATTR_LIST_DELIM.
    apply Forall_cons_iff; split; [lia|]. apply Forall_cons_iff; split; [lia | constructor].
  - exists e, a. split; [done|]. split; [done|]. reflexivity.
  - exfalso. vm_compute in Hn. discriminate.
Defined.

(** ** Walking an attribute list *)

(** The pieces of [l] between the separators. *)
Fixpoint split_on (sep : Z) (l : cstr) : list cstr :=
  match l with
  | [] => [[]]
  | c :: l =>
      if c =? sep then [] :: split_on sep l
      else match split_on sep l with g :: gs => (c :: g) :: gs | [] => [[c]] end
  end.

(** The name and the attributes of one piece. *)
Definition parse_entry (s : cstr) : cstr * option cstr :=
  match find_chr ENV_ATTR_SEP s with
  | Some i => (strim (take i s), Some (strim (drop (i + 1) s)))
  | None => (strim s, None)
  end.

(** The entries of a list that have a name. *)
Definition attr_entries (l : cstr) : list (cstr * option cstr) :=
  filter (fun e => fst e <> []) (map parse_entry (split_on ENV_ATTR_LIST_DELIM l)).

Lemma split_on_first sep l : split_on sep l =
  match find_chr sep l with
  | Some i => take i l :: split_on sep (drop (i + 1) l)
  | None => [l]
  end.
Proof.
  induction l as [|c l IH]; [done|]. cbn [split_on find_chr]. destruct (Z.eqb_spec c sep) as [->|]; [done|].
  rewrite IH. by destruct (find_chr sep l).
Qed.

Section walk.
Context {St : Type} (callback : St -> cstr -> option cstr -> Z * St) (mem_ok : Z -> bool).

(** The callback on each entry until it returns an error. *)
Fixpoint run_entries (es : list (cstr * option cstr)) (st : St) : Z * St :=
  match es with
  | [] => (0, st)
  | (name, a) :: es =>
      let '(r, st) := callback st name a in
      if negb (r =? 0) then (r, st) else run_entries es st
  end.

Lemma walk_entry_parse s st : walk_entry callback s st =
  if decide (fst (parse_entry s) <> []) then callback st (fst (parse_entry s)) (snd (parse_entry s)) else (0, st).
Proof.
  unfold walk_entry, parse_entry. destruct (find_chr ENV_ATTR_SEP s) as [i|]; cbn [fst snd].
  - destruct (strim (take i s)); done.
  - destruct (strim s); done.
Qed.

Lemma parse_entry_nil : fst (parse_entry []) = [].
Proof. done. Qed.

Lemma run_entries_cons s ss st :
  run_entries (filter (fun e => fst e <> []) (map parse_entry (s :: ss))) st =
  let '(r, st') := if negb (Z.of_nat (length s) =? 0) then walk_entry callback s st else (0, st) in
  if negb (r =? 0) then (r, st') else run_entries (filter (fun e => fst e <> []) (map parse_entry ss)) st'.
Proof.
  cbn [map]. rewrite filter_cons, walk_entry_parse. destruct s as [|c s].
  { cbn [length negb Z.of_nat Z.eqb]. rewrite decide_False; [done|]. rewrite parse_entry_nil. tauto. }
  replace (negb (Z.of_nat (length (c :: s)) =? 0)) with true by done.
  destruct (decide (fst (parse_entry (c :: s)) <> [])) as [Hd|Hd]; [|done].
  by destruct (parse_entry (c :: s)).
Qed.

Lemma walk_loop_spec fuel l st : (forall n, mem_ok n = true) -> (length l < fuel)%nat ->
  env_attr_walk_loop fuel mem_ok callback l st = Some (run_entries (attr_entries l) st).
Proof.
  intros Hm. revert l st. induction fuel as [|fuel IH]; intros l st Hf; [lia|]. cbn [env_attr_walk_loop].
  rewrite Hm. cbn [negb]. rewrite andb_false_r. unfold attr_entries. rewrite split_on_first.
  destruct (find_chr ENV_ATTR_LIST_DELIM l) as [i|] eqn:E; rewrite run_entries_cons; destruct (if negb _ then _ else _) as [r st'].
  - destruct (negb (r =? 0)); [done|]. apply IH. rewrite length_drop.
    destruct l as [|c l]; [done | simpl in *; lia].
  - by destruct (Z.eqb_spec r 0) as [->|]; cbn [negb map].
Qed.

Lemma walk_spec attr_list st : (forall n, mem_ok n = true) ->
  env_attr_walk mem_ok attr_list callback st = Some
    match attr_list with Some l => run_entries (attr_entries l) st | None => (1, st) end.
Proof. intros Hm. destruct attr_list as [l|]; [|done]. apply walk_loop_spec; [done | lia]. Qed.
End walk.

(** The names are made of characters of the list. *)
Lemma skip_spaces_Forall P s : Forall P s -> Forall P (skip_spaces s).
Proof. induction 1 as [|c s Hc Hs IH]; simpl; [constructor|]. destruct (isspace c); [done | by constructor]. Qed.

Lemma strim_Forall P s : Forall P s -> Forall P (strim s).
Proof. intros Hs. by apply Forall_rev, skip_spaces_Forall, Forall_rev, skip_spaces_Forall. Qed.

Lemma split_on_Forall P sep l : Forall P l -> Forall (Forall P) (split_on sep l).
Proof.
  induction 1 as [|c l Hc Hl IH]; simpl; [by repeat constructor|]. destruct (c =? sep); [by constructor|].
  destruct IH as [|g gs Hg Hgs]; repeat constructor; done.
Qed.

Lemma attr_entries_chars l : Forall char_ok l -> Forall (fun e => Forall char_ok (fst e)) (attr_entries l).
Proof.
  intros Hl. apply (split_on_Forall _ ENV_ATTR_LIST_DELIM) in Hl. unfold attr_entries.
  apply list.Forall_forall. intros e [_ (s & -> & Hs)%list_elem_of_fmap]%list_elem_of_filter.
  pose proof (proj1 (list.Forall_forall _ _) Hl s Hs) as Hc. unfold parse_entry.
  destruct (find_chr ENV_ATTR_SEP s); simpl; apply strim_Forall; [by apply Forall_take | done].
Qed.

(** [env_attr_walk] terminates and calls the callback once for each entry of
    the list that has a name, in the order of the list, with the name and the
    attributes trimmed of white space (null without a colon), threading its
    effects, and stops with its value at the first call that fails; without a
    list it returns 1 and calls nothing. *)
Theorem env_attr_walk_correct {St} mem_ok (callback : St -> cstr -> option cstr -> Z * St) attr_list st :
  (forall n, mem_ok n = true) ->
  env_attr_walk mem_ok attr_list callback st = Some
    match attr_list with
    | Some l => run_entries callback (attr_entries l) st
    | None => (1, st)
    end.
Proof. apply walk_spec. Qed.

Lemma env_attr_walk_correct_witness :
  env_attr_walk (fun _ => true) (Some (str " a : r,,b, :x,c:")) (fun st n a => (0, st ++ [(n, a)])) [] =
  Some (0, [(str "a", Some (str "r")); (str "b", None); (str "c", Some [])]).
Proof. rewrite env_attr_walk_correct by reflexivity. vm_compute. reflexivity. Defined.

(** ** Changing an attribute of the entries of a table *)

Section attribute.
(** An attribute [get] of the entries, the update [upd] of it, and the rest of the entry [keep]. *)
Context {A B : Type} (get : ENTRY -> A) (keep : ENTRY -> B) (upd : option cstr -> ENTRY -> ENTRY)
  (upd_val : option cstr -> A -> A)
  (get_upd : forall v e, get (upd v e) = upd_val v (get e))
  (keep_upd : forall v e, keep (upd v e) = keep e)
  (keep_key : forall e e', keep e = keep e' -> e_key e = e_key e')
  (keep_data : forall e e', keep e = keep e' -> e_data e = e_data e').

(** The slot is used as before, holds the same variable, and did not change if it is not live. *)
Record slot_same (s s' : _ENTRY) : Prop := {
  same_used : used s' = used s;
  same_keep : keep (entry s') = keep (entry s);
  same_dead : used s <= 0 -> s' = s }.

#[local] Instance slot_same_refl : Reflexive slot_same.
Proof. by split. Qed.

#[local] Instance slot_same_trans : Transitive slot_same.
Proof.
  intros s1 s2 s3 [H1 H2 H3] [H4 H5 H6]. split; [congruence | congruence|].
  intros Hu. rewrite H6, H3 by lia. done.
Qed.

Lemma same_aget tab tab' i s' : Forall2 slot_same tab tab' -> aget tab' i = Some s' ->
  exists s, aget tab i = Some s /\ slot_same s s'.
Proof.
  unfold aget. zcase; [|done]. intros HF Hs. destruct (Forall2_lookup_r _ _ _ _ _ HF Hs) as (s & Hs0 & Hss). eauto.
Qed.

Lemma same_aget_l tab tab' i s : Forall2 slot_same tab tab' -> aget tab i = Some s ->
  exists s', aget tab' i = Some s' /\ slot_same s s'.
Proof.
  unfold aget. zcase; [|done]. intros HF Hs. destruct (Forall2_lookup_l _ _ _ _ _ HF Hs) as (s' & Hs0 & Hss). eauto.
Qed.

Lemma same_used_at tab tab' i : Forall2 slot_same tab tab' -> used_at tab' i = used_at tab i.
Proof.
  intros HF. unfold used_at. destruct (aget tab' i) as [s'|] eqn:E.
  - destruct (same_aget _ _ _ _ HF E) as (s & -> & Hs). apply Hs.
  - destruct (aget tab i) as [s|] eqn:E'; [|done]. destruct (same_aget_l _ _ _ _ HF E') as (? & ? & _). congruence.
Qed.

Lemma same_holds tab tab' i k d : Forall2 slot_same tab tab' -> holds tab' i k d <-> holds tab i k d.
Proof using keep_key keep_data.
  intros HF. split.
  - intros (s' & Hs' & Hu & Hk & Hd). destruct (same_aget _ _ _ _ HF Hs') as (s & Hs & [H1 H2 _]).
    exists s. rewrite <- H1, <- (keep_key _ _ H2), <- (keep_data _ _ H2). auto.
  - intros (s & Hs & Hu & Hk & Hd). destruct (same_aget_l _ _ _ _ HF Hs) as (s' & Hs' & [H1 H2 _]).
    exists s'. rewrite H1, (keep_key _ _ H2), (keep_data _ _ H2). auto.
Qed.

Lemma same_live_count tab tab' : Forall2 slot_same tab tab' -> live_count tab' = live_count tab.
Proof.
  intros HF. unfold live_count. f_equal. destruct HF as [|x x' t t' _ HF]; [done|]. simpl.
  induction HF as [|s s' t t' Hs HF IH]; [done|]. rewrite !filter_cons.
  pose proof (same_used _ _ Hs) as Hu. unfold live in *.
  destruct (decide (0 < used s)), (decide (0 < used s')); simpl; lia.
Qed.

(** The table still represents the same map. *)
Lemma rep_same h tab tab' M : Rep h tab M -> Forall2 slot_same tab tab' -> Rep (set_table h tab') tab' M.
Proof using keep_key keep_data.
  intros [Ht Hp Hsz Hl Hs Hm Hi Hc Hf] HF.
  split; simpl; try done.
  - by rewrite <- (Forall2_length HF).
  - intros i Hr. unfold slot_ok. rewrite (same_used_at _ _ _ HF). destruct (Hs i Hr) as [?|[?|(k & d & n & H1 & H2)]]; auto.
    right. right. exists k, d, n. rewrite same_holds by done. split; [done|].
    destruct H2 as (H2 & H3 & H4 & H5 & H6). repeat split; auto; try lia. intros m. rewrite (same_used_at _ _ _ HF). auto.
  - intros k d. rewrite Hm. by setoid_rewrite same_holds.
  - intros i j k d d' Hri Hrj. rewrite (same_holds _ _ i _ _ HF), (same_holds _ _ j _ _ HF). eauto.
  - intros i s' Hr Hs' Hu. destruct (same_aget _ _ _ _ HF Hs') as (s & Hs0 & [H1 _ H3]).
    rewrite H3 by lia. apply (Hc i); [done | done | lia].
  - by rewrite (same_live_count _ _ HF).
Qed.

(** Every live entry [k] of the table has the attribute [V k]. *)
Definition assigned (h : hsearch_data) (tab : list _ENTRY) (V : cstr -> A) : Prop :=
  forall i s k, 1 <= i <= hsize h -> aget tab i = Some s -> 0 < used s -> e_key (entry s) = Some k -> get (entry s) = V k.

Lemma same_refl tab : Forall2 slot_same tab tab.
Proof. induction tab; by constructor. Qed.

Lemma same_insert tab i s s' : aget tab i = Some s -> slot_same s s' -> Forall2 slot_same tab (asets tab i s').
Proof.
  unfold aget, asets. zcase; [|done]. intros Hs Hss. rewrite <- (list_insert_id tab (Z.to_nat i) s Hs) at 1.
  apply Forall2_insert; [apply same_refl | done].
Qed.

Definition set_attr (V : cstr -> A) (name : cstr) (v : option cstr) : cstr -> A :=
  fun k => if decide (k = name) then upd_val v (V k) else V k.

Lemma change_entry_spec h tab M V name v : Rep h tab M -> Forall char_ok name -> assigned h tab V ->
  exists tab', change_entry h name (upd v) = set_table h tab' /\ Forall2 slot_same tab tab' /\
    assigned h tab' (set_attr V name v).
Proof using get_upd keep_upd keep_key keep_data.
  intros HR Hn HV. unfold change_entry.
  pose proof (hsearch_find (HH := plain_hooks) h tab M HR name Hn None 0) as Hf.
  assert (Hset : h = set_table h tab) by (destruct h; unfold set_table; simpl; by rewrite <- (rep_table _ _ _ HR)).
  destruct (M !! name) as [d|] eqn:EM.
  - destruct Hf as (i & Hi & (s & Hs & Hu & Hk & Hd) & ->). cbn [rv].
    rewrite (rep_table _ _ _ HR), Hs.
    assert (Hss : slot_same s (mk_slot (used s) (upd v (entry s)))).
    { split; [done | apply keep_upd | lia]. }
    eexists. split; [done|]. split; [by eapply same_insert|].
    intros j s' k Hj Hs' Hu' Hk'. unfold set_attr.
    pose proof (rep_length _ _ _ HR) as Hlen.
    unfold asets in Hs'. rewrite aget_slot with (h := h) (M := M) in Hs' by (done || lia).
    destruct (Z.eqb_spec j i) as [->|Hne].
    + injection Hs' as <-. cbn [entry used] in Hk', Hu' |- *.
      rewrite (keep_key _ _ (keep_upd v (entry s))), Hk in Hk'. injection Hk' as <-.
      rewrite decide_True by done. rewrite get_upd. f_equal. by apply (HV i).
    + rewrite decide_False; [by apply (HV j)|]. intros ->. apply Hne.
      destruct (e_data (entry s')) as [d'|] eqn:Ed'.
      * eapply (rep_inj _ _ _ HR j i name); [done | done | by exists s' | by exists s].
      * destruct (rep_slots _ _ _ HR j Hj) as [H0|[H0|(k & d2 & n & (s2 & Hs2 & _ & _ & Hd2) & _)]];
          unfold used_at in *; rewrite ?Hs' in *; [lia | lia | congruence].
  - rewrite Hf. cbn [rv]. exists tab. split; [done|]. split; [apply same_refl|].
    intros i s k Hi Hs Hu Hk. unfold set_attr. rewrite decide_False; [by apply (HV i)|]. intros ->.
    destruct (rep_slots _ _ _ HR i Hi) as [H0|[H0|(k & d2 & n & Hh & _)]];
      unfold used_at in *; rewrite ?Hs in *; [lia | lia |].
    pose proof Hh as (s2 & Hs2 & _ & Hk2 & _). assert (k = name) as -> by congruence.
    assert (M !! name = Some d2) by (apply (rep_map _ _ _ HR); eauto). congruence.
Qed.

(** The attribute that the entries of a list assign. *)
Definition assign_all (es : list (cstr * option cstr)) (V : cstr -> A) : cstr -> A :=
  fold_left (fun V e => set_attr V (fst e) (snd e)) es V.

Lemma run_entries_spec h M es : forall tab V,
  Rep (set_table h tab) tab M -> Forall (fun e => Forall char_ok (fst e)) es -> assigned h tab V ->
  exists tab', run_entries (fun h name v => (0, change_entry h name (upd v))) es (set_table h tab) =
      (0, set_table h tab') /\
    Rep (set_table h tab') tab' M /\ Forall2 slot_same tab tab' /\ assigned h tab' (assign_all es V).
Proof using get_upd keep_upd keep_key keep_data.
  induction es as [|[name v] es IH]; intros tab V HR Hes HV.
  { exists tab. split; [done|]. split; [done|]. split; [apply same_refl | done]. }
  apply Forall_cons_iff in Hes as [Hn Hes]. cbn [run_entries fst snd] in Hn |- *.
  destruct (change_entry_spec _ _ _ V name v HR Hn HV) as (tab1 & -> & HF & HV1). cbn [Z.eqb negb].
  pose proof (rep_same _ _ _ _ HR HF) as HR1.
  destruct (IH tab1 _ HR1 Hes HV1) as (tab2 & Hrun & HR2 & HF2 & HV2).
  exists tab2. split; [exact Hrun|]. split; [done|]. split; [by etransitivity | done].
Qed.

Context (a0 : A) (upd_none : forall a, upd_val None a = a0).

Lemma hwalk_loop_spec n : forall tab i, 0 <= i -> i + Z.of_nat n <= Z.of_nat (length tab) ->
  exists tab', hwalk_loop n tab (fun e => (0, upd None e)) i = Some (0, tab') /\ Forall2 slot_same tab tab' /\
    (forall j, 0 <= j < i -> aget tab' j = aget tab j) /\
    (forall j s', i <= j < i + Z.of_nat n -> aget tab' j = Some s' -> 0 < used s' -> get (entry s') = a0).
Proof using get_upd keep_upd upd_none.
  induction n as [|n IH]; intros tab i Hi Hn; cbn [hwalk_loop].
  { exists tab. split; [done|]. split; [apply same_refl|]. split; [done | lia]. }
  destruct (aget_is_Some tab i) as [s Hs]; [lia|]. rewrite Hs. cbn [mbind option_bind].
  destruct (Z.ltb_spec 0 (used s)) as [Hu|Hu].
  - set (s1 := mk_slot (used s) (upd None (entry s))).
    assert (Hss : slot_same s s1) by (split; [done | apply keep_upd | lia]).
    assert (Has : aset tab i s1 = Some (asets tab i s1)) by (apply aset_Some; lia).
    rewrite Has. cbn [mbind option_bind Z.eqb negb].
    pose proof (same_insert _ _ _ _ Hs Hss) as HF.
    destruct (IH (asets tab i s1) (i + 1)) as (tab' & -> & HF' & Hlow & Hhigh);
      [lia | unfold asets; rewrite length_insert; lia|].
    exists tab'. split; [done|]. split; [by etransitivity|].
    assert (Hget : forall j, 0 <= j -> aget (asets tab i s1) j = if j =? i then Some s1 else aget tab j).
    { intros j Hj. unfold asets. rewrite !aget_lookup by lia. zcase.
      - subst. apply list_lookup_insert_eq. lia.
      - apply list_lookup_insert_ne. lia. }
    split.
    + intros j Hj. rewrite Hlow, Hget by lia. zcase; [lia | done].
    + intros j s' Hj Hs' Hu'. destruct (Z.eq_dec j i) as [->|]; [|apply (Hhigh j); auto; lia].
      rewrite Hlow, Hget, Z.eqb_refl in Hs' by lia. injection Hs' as <-. simpl. by rewrite get_upd, upd_none.
  - destruct (IH tab (i + 1)) as (tab' & -> & HF' & Hlow & Hhigh); [lia | lia|].
    exists tab'. split; [done|]. split; [done|]. split; [intros j Hj; apply Hlow; lia|].
    intros j s' Hj Hs' Hu'. destruct (Z.eq_dec j i) as [->|]; [|apply (Hhigh j); auto; lia].
    rewrite Hlow, Hs in Hs' by lia. injection Hs' as <-. lia.
Qed.

(** Clearing the attribute and walking two lists. *)
Lemma reassign_spec h tab M mem_ok l1 value :
  Rep h tab M -> (forall n, mem_ok n = true) -> Forall char_ok l1 -> Forall char_ok (default [] value) ->
  exists tab',
    ('(_, h) ← hwalk_r h (fun e => (0, upd None e));
     '(_, h) ← env_attr_walk mem_ok (Some l1) (fun h name v => (0, change_entry h name (upd v))) h;
     '(_, h) ← env_attr_walk mem_ok value (fun h name v => (0, change_entry h name (upd v))) h;
     Some h) = Some (set_table h tab') /\
    Rep (set_table h tab') tab' M /\ Forall2 slot_same tab tab' /\
    assigned h tab' (assign_all (attr_entries l1 ++ match value with Some l => attr_entries l | None => [] end)
      (fun _ => a0)).
Proof using get_upd keep_upd keep_key keep_data upd_none.
  intros HR Hm H1 Hv. unfold hwalk_r. rewrite (rep_table _ _ _ HR). cbn [mbind option_bind].
  destruct (hwalk_loop_spec (Z.to_nat (hsize h)) tab 1) as (tab1 & -> & HF1 & _ & H01);
    [lia | pose proof (rep_length _ _ _ HR); pose proof (rep_size _ _ _ HR); lia|].
  cbn [mbind option_bind]. pose proof (rep_same _ _ _ _ HR HF1) as HR1.
  rewrite !walk_spec by done. cbn [mbind option_bind].
  assert (HV1 : assigned h tab1 (fun _ => a0)).
  { intros i s k Hi Hs Hu _. apply (H01 i s); auto. lia. }
  destruct (run_entries_spec h M (attr_entries l1) tab1 _ HR1 (attr_entries_chars _ H1) HV1)
    as (tab2 & -> & HR2 & HF2 & HV2).
  cbn [mbind option_bind]. rewrite walk_spec by done. cbn [mbind option_bind].
  destruct value as [l|].
  - destruct (run_entries_spec h M (attr_entries l) tab2 _ HR2 (attr_entries_chars _ Hv) HV2)
      as (tab3 & -> & HR3 & HF3 & HV3).
    exists tab3. split; [done|]. split; [done|]. split; [by etransitivity; [|etransitivity]|].
    unfold assign_all in *. by rewrite fold_left_app.
  - exists tab2. rewrite app_nil_r. split; [done|]. split; [done|]. split; [by etransitivity | done].
Qed.
End attribute.

(** ** The variables .flags and .callbacks *)

Definition flags_value (v : option cstr) : Z :=
  match v with Some (c :: v) => env_parse_flags_to_bin (c :: v) | _ => 0 end.

(** The value of the last entry for [k]. *)
Definition last_assignment (es : list (cstr * option cstr)) (k : cstr) : option (option cstr) :=
  fold_left (fun acc e => if decide (k = fst e) then Some (snd e) else acc) es None.

Lemma assign_all_from {A} (f : option cstr -> A) es k a : forall acc V,
  V k = match acc with Some v => f v | None => a end ->
  assign_all (fun v _ => f v) es V k =
  match fold_left (fun acc e => if decide (k = fst e) then Some (snd e) else acc) es acc with
  | Some v => f v
  | None => a
  end.
Proof.
  unfold assign_all. induction es as [|[n v] es IH]; intros acc V HV; [done|]. rewrite !fold_left_cons.
  apply IH. cbn [fst snd]. unfold set_attr. by destruct (decide (k = n)).
Qed.

Lemma assign_all_last {A} (f : option cstr -> A) es V k :
  assign_all (fun v _ => f v) es V k =
  match last_assignment es k with Some v => f v | None => V k end.
Proof. by apply assign_all_from. Qed.

(** The entries of the two lists in the order in which they are applied. *)
Definition list_entries (static : cstr) (value : option cstr) : list (cstr * option cstr) :=
  attr_entries static ++ match value with Some l => attr_entries l | None => [] end.

(** The rest of an entry without its flags, and without its callback. *)
Definition but_flags (e : ENTRY) := (e_key e, e_data e, e_callback e).
Definition but_callback (e : ENTRY) := (e_key e, e_data e, e_flags e).

Lemma static_lists_chars : Forall char_ok ENV_FLAGS_LIST_STATIC /\ Forall char_ok ENV_CALLBACK_LIST_STATIC.
Proof. unfold char_ok. split; apply List.Forall_forall; intros c Hc; repeat destruct Hc as [<-|Hc]; lia || done. Qed.

(** setting the variable [.flags] assigns the flags of every variable.  For
    a table that represents [M], the callback [on_flags] ends with a table
    that represents [M] too, with keys, values and callbacks as they were;
    every variable has the flags that the last entry for it in the value of
    [.flags] gives it, failing that the last entry of the static list, and
    failing that none. *)
Theorem on_flags_correct h tab M mem_ok value :
  Rep h tab M -> (forall n, mem_ok n = true) -> Forall char_ok (default [] value) ->
  exists h' tab', on_flags mem_ok h value = Some h' /\ Rep h' tab' M /\ Forall2 (slot_same but_flags) tab tab' /\
    forall i s k, 1 <= i <= hsize h -> aget tab' i = Some s -> 0 < used s -> e_key (entry s) = Some k ->
      e_flags (entry s) =
      match last_assignment (list_entries ENV_FLAGS_LIST_STATIC value) k with Some v => flags_value v | None => 0 end.
Proof.
  intros HR Hm Hv.
  destruct (reassign_spec e_flags but_flags
    (fun v e => mk_entry (e_key e) (e_data e) (e_callback e) (flags_value v)) (fun v _ => flags_value v))
    with (a0 := 0) (h := h) (tab := tab) (M := M) (mem_ok := mem_ok) (l1 := ENV_FLAGS_LIST_STATIC) (value := value)
    as (tab' & Hrun & HR' & HF & HV); try done; try (unfold but_flags; congruence).
  { apply static_lists_chars. }
  exists (set_table h tab'), tab'. split; [exact Hrun|]. split; [done|]. split; [done|].
  intros i s k Hi Hs Hu Hk. rewrite (HV i s k Hi Hs Hu Hk). apply assign_all_last.
Qed.

(** The same for [.callbacks]: a name that is not in the linker list keeps the callback before it. *)
Lemma on_callbacks_assigns h tab M mem_ok env_clbk value :
  Rep h tab M -> (forall n, mem_ok n = true) -> Forall char_ok (default [] value) ->
  exists h' tab', on_callbacks mem_ok env_clbk h value = Some h' /\ Rep h' tab' M /\
    Forall2 (slot_same but_callback) tab tab' /\
    assigned e_callback h tab'
      (assign_all (fun v old => match v with
         | Some (c :: v) => match find_env_callback env_clbk (c :: v) with Some cb => Some cb | None => old end
         | _ => None end) (list_entries ENV_CALLBACK_LIST_STATIC value) (fun _ => None)).
Proof.
  intros HR Hm Hv.
  destruct (reassign_spec e_callback but_callback
    (fun v e => match v with
       | Some (c :: v) => match find_env_callback env_clbk (c :: v) with Some cb => set_callback_ptr e (Some cb) | None => e end
       | _ => set_callback_ptr e None end)
    (fun v old => match v with
       | Some (c :: v) => match find_env_callback env_clbk (c :: v) with Some cb => Some cb | None => old end
       | _ => None end))
    with (a0 := @None callback_t) (h := h) (tab := tab) (M := M) (mem_ok := mem_ok) (l1 := ENV_CALLBACK_LIST_STATIC) (value := value)
    as (tab' & Hrun & HR' & HF & HV); try done; try (unfold but_callback; congruence).
  - intros [[|c v]|] e; try done. by destruct (find_env_callback env_clbk (c :: v)).
  - intros [[|c v]|] e; try done. by destruct (find_env_callback env_clbk (c :: v)).
  - apply static_lists_chars.
  - exists (set_table h tab'), tab'. by split; [exact Hrun|].
Qed.

Lemma on_flags_correct_witness : exists h' tab',
  on_flags (fun _ => true) table_a (Some (str "a:dr")) = Some h' /\ Rep h' tab' {[ [97] := [49] ]} /\
  forall i s, 1 <= i <= 5 -> aget tab' i = Some s -> 0 < used s -> e_key (entry s) = Some [97] ->
    e_flags (entry s) = 57.
Proof.
  destruct table_a_rep as [tab HR].
  destruct (on_flags_correct table_a tab {[ [97] := [49] ]} (fun _ => true) (Some (str "a:dr")) HR)
    as (h' & tab' & Hrun & HR' & _ & Hf); [reflexivity | chars|].
  exists h', tab'. split; [exact Hrun|]. split; [exact HR'|]. intros i s Hi Hs Hu Hk.
  rewrite (Hf i s [97] Hi Hs Hu Hk). reflexivity.
Defined.

(** ** The interface to the hash table *)

(** The two lookups for a new variable, with the lists [callback_list] and
    [flags_list] that the first calls cached, in front of which the memory
    holds [below].  Where a lookup overflows its buffer the behaviour is
    undefined; the instance keeps the entry. *)
Definition env_hooks (dup : cstr -> option cstr) (mem_ok : Z -> bool) (below : cstr)
    (env_clbk : list (cstr * callback_t)) (callback_list flags_list : option cstr) : EnvHooks :=
  {| dup_string := dup;
     malloc_ok := mem_ok;
     env_callback_init _ e := default e (env_callback_init_r below env_clbk callback_list e);
     env_flags_init _ e := default e (env_flags_init_r below flags_list e) |}.

Lemma callback_init_r_keeps below env_clbk l e e' : env_callback_init_r below env_clbk l e = Some e' ->
  e_key e' = e_key e /\ e_data e' = e_data e.
Proof.
  unfold env_callback_init_r. destruct (e_key e) eqn:E; [|done]. cbn [mbind option_bind].
  destruct (match l with Some _ => _ | None => _ end) as [[r cb]|]; [|done]. cbn [mbind option_bind].
  destruct (if negb (r =? 0) then _ else _) as [[r' cb']|]; [|done]. cbn [mbind option_bind].
  destruct (_ && _); [|by intros [= <-]]. destruct (find_env_callback _ _); by intros [= <-].
Qed.

Lemma flags_init_r_keeps below l e e' : env_flags_init_r below l e = Some e' ->
  e_key e' = e_key e /\ e_data e' = e_data e.
Proof.
  unfold env_flags_init_r. destruct (e_key e) eqn:E; [|done]. cbn [mbind option_bind].
  destruct (env_flags_lookup _ _ _) as [[r fl]|]; [|done]. cbn [mbind option_bind].
  destruct (_ && _); by intros [= <-].
Qed.

(** The lookups keep what the table relies on. *)
#[export] Instance env_hooks_ok dup mem_ok below env_clbk callback_list flags_list :
  (forall s s', dup s = Some s' -> s' = s) ->
  EnvHooksOk (env_hooks dup mem_ok below env_clbk callback_list flags_list).
Proof.
  intros Hdup. split; [done| | | |]; intros h e; cbn [env_callback_init env_flags_init env_hooks].
  1-2: destruct (env_callback_init_r _ _ _ e) eqn:E; [|done]; by apply callback_init_r_keeps in E as [? ?].
  all: destruct (env_flags_init_r _ _ e) eqn:E; [|done]; by apply flags_init_r_keeps in E as [? ?].
Qed.

(** Validation rejects the overwriting and the deletion of a protected variable. *)
Lemma validate_protected getenv_default item v op flag fl :
  e_flags item = env_parse_flags_to_bin fl ->
  env_flags_parse_varaccess fl = varaccess_readonly \/ env_flags_parse_varaccess fl = varaccess_writeonce ->
  has_flag flag H_FORCE = false -> op <> env_op_create -> env_flags_validate getenv_default item v op flag <> 0.
Proof.
  intros Hfl Ha Hf Hop. unfold env_flags_validate. rewrite Hfl, !to_bin_access, Hf by (rewrite !list.elem_of_cons; tauto).
  destruct (negb _); [done|]. destruct op; [done| |]; by destruct Ha as [-> | ->].
Qed.

(** a read-only or write-once variable stays as it is.  In a table whose
    changes are checked by [env_flags_validate], a variable with the binary
    form of such flags can neither be overwritten nor deleted unless the
    change is forced: both calls return 0 with [EPERM] and the table is the
    one before the call. *)
Theorem protected_variable_kept `{EnvHooks} getenv_default h tab M key d i s fl new flag :
  Rep h tab M -> Forall char_ok key -> change_ok h = Some (env_flags_validate getenv_default) ->
  1 <= i <= hsize h -> holds tab i key d -> aget tab i = Some s -> e_flags (entry s) = env_parse_flags_to_bin fl ->
  env_flags_parse_varaccess fl = varaccess_readonly \/ env_flags_parse_varaccess fl = varaccess_writeonce ->
  has_flag flag H_FORCE = false ->
  hsearch_r key (Some new) ENTER h flag = Some (mk_res 0 None (Some EPERM), h) /\
  hdelete_r key h flag = Some (mk_res 0 None (Some EPERM), h).
Proof.
  intros HR Hk Hc Hi Hh Hs Hfl Ha Hf. pose proof (rep_table _ _ _ HR) as Ht. split.
  - rewrite (hsearch_hit _ _ _ HR key _ _ _ Hk i d Hi Hh). unfold overwrite_entry.
    rewrite Ht. cbn [mbind option_bind]. rewrite Hs, Hc. cbn [mbind option_bind option_map rejects].
    rewrite (proj2 (Z.eqb_neq _ _)); [done|]. by apply (validate_protected _ _ _ _ _ fl).
  - unfold hdelete_r. rewrite (hsearch_hit _ _ _ HR key _ _ _ Hk i d Hi Hh). unfold overwrite_entry.
    rewrite Ht. cbn [mbind option_bind]. rewrite Hs. cbn [mbind option_bind ret].
    rewrite (proj2 (Z.eqb_neq i 0)) by lia. rewrite Ht. cbn [mbind option_bind]. rewrite Hs, Hc.
    cbn [mbind option_bind option_map rejects].
    rewrite (proj2 (Z.eqb_neq _ _)); [done|]. by apply (validate_protected _ _ _ _ _ fl).
Qed.

(** A table with the write-once variable ["a"]. *)
Definition table_wo : hsearch_data :=
  mk_htab (Some [empty_slot; empty_slot; empty_slot;
    mk_slot 3 (mk_entry (Some [97]) (Some [49]) None (env_parse_flags_to_bin (str "so"))); empty_slot; empty_slot])
    5 1 (Some (env_flags_validate (fun _ => None))).

Lemma table_wo_rep : exists tab, Rep table_wo tab {[ [97] := [49] ]} /\ table table_wo = Some tab.
Proof.
  destruct table_a_rep as [tab HR]. pose proof (rep_table _ _ _ HR) as [= <-].
  eexists. split; [|reflexivity].
  assert (HF : exists tab', Rep (set_table table_a tab') tab' {[ [97] := [49] ]} /\ table table_wo = Some tab').
  { eexists. split; [|reflexivity]. eapply (rep_same but_flags); [| |exact HR|]; try (unfold but_flags; congruence).
    repeat constructor; cbn; try done; lia. }
  destruct HF as (tab' & HR' & [= <-]). destruct HR'. by split.
Qed.

Lemma protected_variable_kept_witness :
  @hsearch_r plain_hooks [97] (Some [50]) ENTER table_wo 0 = Some (mk_res 0 None (Some EPERM), table_wo) /\
  @hdelete_r plain_hooks [97] table_wo 0 = Some (mk_res 0 None (Some EPERM), table_wo).
Proof.
  destruct table_wo_rep as (tab & HR & [= <-]).
  apply (@protected_variable_kept plain_hooks (fun _ => None) table_wo _ {[ [97] := [49] ]} [97] [49] 3
    (mk_slot 3 (mk_entry (Some [97]) (Some [49]) None (env_parse_flags_to_bin (str "so")))) (str "so") [50] 0 HR);
    try reflexivity; [chars | cbn; lia | | right; reflexivity].
  eexists. split; [reflexivity|]. cbn. split; [lia | by split].
Defined.

(** ** What the code does outside these conditions *)

(** A blank before the first entry hides it from the lookup, but not from the walk. *)
Lemma env_attr_lookup_leading_blank :
  env_attr_lookup [0] (Some (str " a:r")) (str "a") 3 = Some (2, None) /\
  attr_entries (str " a:r") = [(str "a", Some (str "r"))].
Proof. split; reflexivity. Qed.

(** More attributes than the buffer of [env_flags_init] holds are written past its end. *)
Lemma env_flags_init_overflow e :
  e_key e = Some (str "a") -> env_flags_init_r [0] (Some (str "a:dro")) e = None.
Proof. intros Hk. unfold env_flags_init_r. by rewrite Hk. Qed.

(** The empty value is a decimal and a hexadecimal number. *)
Lemma empty_number : _env_flags_validate_type [] vartype_decimal = 0 /\ _env_flags_validate_type [] vartype_hex = 0.
Proof. split; reflexivity. Qed.
