(* ===== verification/Div64.v ===== *)
(** * Div64: 64-bit division ([lib/div64.c], [include/div64.h])

    [do_div] divides a 64-bit number by a 32-bit one with 32-bit hardware
    division only: a number that fits in 32 bits is divided directly, any
    other by the shift-and-subtract loop of [__div64_32]. *)
From S2P Require Import Prelude.

(** [while ((int64_t)b > 0 && b < rem) { b = b+b; d = d+d; }] *)
Fixpoint scale_up (fuel : nat) (b d rem : Z) : option (Z * Z) :=
  match fuel with
  | O => None
  | S fuel =>
      if (0 <? s64 b) && (b <? rem) then scale_up fuel (u64 (b + b)) (u64 (d + d)) rem else Some (b, d)
  end.

(** [do { if (rem >= b) { rem -= b; res += d; } b >>= 1; d >>= 1; } while (d);] *)
Fixpoint subtract_down (fuel : nat) (b d rem res : Z) : option (Z * Z) :=
  match fuel with
  | O => None
  | S fuel =>
      let '(rem, res) := if b <=? rem then (u64 (rem - b), u64 (res + d)) else (rem, res) in
      let b := Z.shiftr b 1 in
      let d := Z.shiftr d 1 in
      if negb (d =? 0) then subtract_down fuel b d rem res else Some (rem, res)
  end.

(** The quotient that is stored in [*n] and the remainder that is returned; a
    doubling or halving loop on 64 bits makes at most 64 steps. *)
Definition __div64_32 (n base : Z) : option (Z * Z) :=
  let rem := n in
  let b := base in
  let high := u32 (Z.shiftr rem 32) in
  let '(high, res, rem) :=
    if base <=? high then
      let high := high / base in
      (high, u64 (Z.shiftl high 32), u64 (rem - u64 (Z.shiftl (u32 (high * base)) 32)))
    else (high, 0, rem) in
  '(b, d) ← scale_up 65 b 1 rem;
  '(rem, res) ← subtract_down 65 b d rem res;
  Some (res, u32 rem).

Definition do_div (n base : Z) : option (Z * Z) :=
  if Z.shiftr n 32 =? 0 then Some (u32 n / base, u32 n mod base) else __div64_32 n base.

(** The quotient. *)
Definition lldiv (dividend divisor : Z) : option Z := '(q, _) ← do_div dividend divisor; Some q.

(** ** Correctness *)

Lemma s64_pos b : 0 <= b < 2 ^ 64 -> (0 <? s64 b) = (0 <? b) && (b <? 2 ^ 63).
Proof.
  intros Hb. unfold s64. destruct (Z.ltb_spec b (2 ^ 63)).
  - rewrite Z.mod_small, andb_true_r by lia. by replace (b + 2 ^ 63 - 2 ^ 63) with b by lia.
  - replace (b + 2 ^ 63) with (b - 2 ^ 63 + 1 * 2 ^ 64) by lia. rewrite Z.mod_add, Z.mod_small by lia.
    rewrite (proj2 (Z.ltb_ge _ _)) by lia. by rewrite andb_false_r.
Qed.

(** The doubling stops at a multiple [base * 2^k] of the divisor that is more than half of what is left. *)
Lemma scale_up_spec base rem fuel : forall k, 0 < base -> 0 <= rem < 2 ^ 64 -> 0 <= k -> base * 2 ^ k < 2 ^ 64 ->
  64 < k + Z.of_nat fuel ->
  exists k', scale_up fuel (base * 2 ^ k) (2 ^ k) rem = Some (base * 2 ^ k', 2 ^ k') /\
    0 <= k' /\ base * 2 ^ k' < 2 ^ 64 /\ rem < 2 * (base * 2 ^ k').
Proof.
  induction fuel as [|fuel IH]; intros k Hb Hr Hk Hlt Hf.
  { assert (2 ^ 64 < 2 ^ k) by (apply Z.pow_lt_mono_r; lia). nia. }
  cbn [scale_up]. rewrite s64_pos by nia. assert (0 < 2 ^ k) by (apply Z.pow_pos_nonneg; lia).
  assert (Hp : 0 < base * 2 ^ k) by nia. rewrite (proj2 (Z.ltb_lt _ _) Hp). cbn [andb].
  destruct (Z.ltb_spec (base * 2 ^ k) (2 ^ 63)); cbn [andb]; [|exists k; repeat split; [lia | lia | lia]].
  destruct (Z.ltb_spec (base * 2 ^ k) rem); [|exists k; repeat split; lia].
  replace (base * 2 ^ k + base * 2 ^ k) with (base * 2 ^ (k + 1)) by (rewrite Z.pow_add_r by lia; lia).
  replace (2 ^ k + 2 ^ k) with (2 ^ (k + 1)) by (rewrite Z.pow_add_r by lia; lia).
  assert (base * 2 ^ (k + 1) < 2 ^ 64) by (rewrite Z.pow_add_r by lia; lia).
  rewrite !u64_small by (rewrite Z.pow_add_r in * by lia; nia). apply IH; lia.
Qed.

(** The subtractions keep [res * base + rem] and leave less than the divisor. *)
Lemma subtract_down_spec base : forall fuel k rem res,
  0 < base -> 0 <= k < Z.of_nat fuel -> base * 2 ^ k < 2 ^ 64 -> 0 <= rem < 2 ^ 64 -> rem < 2 * (base * 2 ^ k) ->
  0 <= res -> res * base + rem < 2 ^ 64 ->
  exists rem' res', subtract_down fuel (base * 2 ^ k) (2 ^ k) rem res = Some (rem', res') /\
    res' * base + rem' = res * base + rem /\ 0 <= rem' < base /\ 0 <= res'.
Proof.
  induction fuel as [|fuel IH]; intros k rem res Hb Hk Hlt Hr Hr2 Hs Ht; [lia|]. cbn [subtract_down].
  assert (Hp : 0 < 2 ^ k) by (apply Z.pow_pos_nonneg; lia).
  assert (Hstep : exists rem1 res1,
    (if base * 2 ^ k <=? rem then (u64 (rem - base * 2 ^ k), u64 (res + 2 ^ k)) else (rem, res)) = (rem1, res1) /\
    res1 * base + rem1 = res * base + rem /\ 0 <= rem1 < base * 2 ^ k /\ 0 <= res1).
  { destruct (Z.leb_spec (base * 2 ^ k) rem).
    - exists (rem - base * 2 ^ k), (res + 2 ^ k). rewrite !u64_small by nia. repeat split; try nia.
    - exists rem, res. repeat split; lia. }
  destruct Hstep as (rem1 & res1 & -> & Hsum & Hrem & Hres).
  rewrite !Z.shiftr_div_pow2 by lia. change (2 ^ 1) with 2.
  destruct (Z.eq_dec k 0) as [->|Hk0].
  - exists rem1, res1. change (2 ^ 0) with 1 in *. change (1 / 2 =? 0) with true. cbn [negb]. repeat split; lia.
  - assert (E : 2 ^ k = 2 * 2 ^ (k - 1)) by (rewrite <- Z.pow_succ_r by lia; f_equal; lia).
    assert (0 < 2 ^ (k - 1)) by (apply Z.pow_pos_nonneg; lia).
    replace (base * 2 ^ k / 2) with (base * 2 ^ (k - 1)) by (rewrite E; replace (base * (2 * 2 ^ (k - 1))) with (base * 2 ^ (k - 1) * 2) by lia; by rewrite Z.div_mul).
    replace (2 ^ k / 2) with (2 ^ (k - 1)) by (rewrite E, Z.mul_comm; by rewrite Z.div_mul).
    rewrite (proj2 (Z.eqb_neq _ _)) by lia. cbn [negb].
    assert (Hb2 : base * 2 ^ k = 2 * (base * 2 ^ (k - 1))) by (rewrite E; ring).
    destruct (IH (k - 1) rem1 res1) as (rem' & res' & -> & Hsum' & Hrange & Hpos); try lia.
    exists rem', res'. repeat split; lia.
Qed.

Lemma div_unique_pair n base q r : n = q * base + r -> 0 <= r < base -> q = n / base /\ r = n mod base.
Proof. intros H Hr. split; [apply (Z.div_unique n base q r) | apply (Z.mod_unique n base q r)]; lia. Qed.

Lemma div64_32_spec n base : 0 <= n < 2 ^ 64 -> 0 < base < 2 ^ 32 ->
  __div64_32 n base = Some (n / base, n mod base).
Proof.
  intros Hn Hb. unfold __div64_32. rewrite Z.shiftr_div_pow2 by lia.
  assert (Hhigh : 0 <= n / 2 ^ 32 < 2 ^ 32).
  { split; [apply Z.div_pos; lia | apply Z.div_lt_upper_bound; lia]. }
  rewrite u32_small by lia. set (high := n / 2 ^ 32) in *.
  pose proof (Z.div_mod n (2 ^ 32) ltac:(lia)) as Hdm. fold high in Hdm.
  pose proof (Z.mod_pos_bound n (2 ^ 32) ltac:(lia)) as Hlow.
  assert (Hred : exists high' res rem,
    (if base <=? high then (high / base, u64 (Z.shiftl (high / base) 32),
       u64 (n - u64 (Z.shiftl (u32 (high / base * base)) 32))) else (high, 0, n)) = (high', res, rem) /\
    res * base + rem = n /\ 0 <= rem /\ 0 <= res).
  { destruct (Z.leb_spec base high); [|exists high, 0, n; repeat split; lia].
    pose proof (Z.div_mod high base ltac:(lia)) as Hd. pose proof (Z.mod_pos_bound high base ltac:(lia)).
    set (q := high / base) in *. assert (0 <= q) by (apply Z.div_pos; lia).
    rewrite !Z.shiftl_mul_pow2 by lia. rewrite (u32_small (q * base)) by nia.
    rewrite !u64_small by (rewrite ?u64_small by nia; nia).
    exists q, (q * 2 ^ 32), (n - q * base * 2 ^ 32). repeat split; nia. }
  destruct Hred as (high' & res & rem & -> & Hsum & Hrem & Hres).
  destruct (scale_up_spec base rem 65 0) as (k & Hk & Hk0 & Hkb & Hk2); try lia.
  rewrite Z.mul_1_r in Hk. change (2 ^ 0) with 1 in Hk. rewrite Hk. cbn [mbind option_bind].
  assert (k < 65).
  { destruct (Z.lt_ge_cases k 65); [done|]. assert (2 ^ 64 < 2 ^ k) by (apply Z.pow_lt_mono_r; lia). nia. }
  destruct (subtract_down_spec base 65 k rem res) as (rem' & res' & -> & Hsum' & Hr' & Hres'); try lia.
  cbn [mbind option_bind]. rewrite u32_small by lia.
  destruct (div_unique_pair n base res' rem') as [-> ->]; [lia | lia | done].
Qed.

Lemma do_div_spec n base : 0 <= n < 2 ^ 64 -> 0 < base < 2 ^ 32 -> do_div n base = Some (n / base, n mod base).
Proof.
  intros Hn Hb. unfold do_div. rewrite Z.shiftr_div_pow2 by lia.
  destruct (Z.eqb_spec (n / 2 ^ 32) 0) as [Hz|]; [|by apply div64_32_spec].
  pose proof (Z.div_mod n (2 ^ 32) ltac:(lia)). pose proof (Z.mod_pos_bound n (2 ^ 32) ltac:(lia)).
  rewrite u32_small by lia. done.
Qed.

(** C32: [do_div], and [lldiv] on top of it, divide every 64-bit number by every
    non-zero 32-bit one: the two loops of [__div64_32] terminate, no
    intermediate value wraps, and the results are the quotient and the
    remainder. *)
Theorem do_div_correct n base : 0 <= n < 2 ^ 64 -> 0 < base < 2 ^ 32 ->
  __div64_32 n base = Some (n / base, n mod base) /\
  do_div n base = Some (n / base, n mod base) /\ lldiv n base = Some (n / base).
Proof.
  intros Hn Hb. unfold lldiv. rewrite do_div_spec, div64_32_spec by done. done.
Qed.

Lemma do_div_correct_witness :
  __div64_32 (2 ^ 64 - 1) 100000 = Some ((2 ^ 64 - 1) / 100000, (2 ^ 64 - 1) mod 100000) /\
  do_div (2 ^ 64 - 1) 100000 = Some ((2 ^ 64 - 1) / 100000, (2 ^ 64 - 1) mod 100000) /\
  lldiv (2 ^ 64 - 1) 100000 = Some ((2 ^ 64 - 1) / 100000).
Proof. apply do_div_correct; lia. Defined.
