(* ===== verification/Numbers.v ===== *)
(** * Numbers: numerals in C strings ([lib/vsprintf.c], first part)

    Reading: [simple_strtoul] and its relatives.  Writing: the decimal
    conversion [put_dec] with its multiplications instead of divisions, and
    [simple_itoa].  A string is its contents, the character at its end is
    NUL; what a function stores in [*endp] is the rest of the string. *)
From Stdlib Require Import String.
From S2P Require Import Prelude CString Hashtable EnvFlags Div64.

(** ** Reading *)

Definition digit_value (c : Z) : Z :=
  if isdigit c then c - 48 else (if islower c then toupper c else c) - 65 + 10.

(** The [while] loop; [wrap] reduces to the width of the result. *)
Fixpoint strto_loop (wrap : Z -> Z) (base : Z) (cp : cstr) (result : Z) : Z * cstr :=
  match cp with
  | c :: cp' =>
      if isxdigit c && (digit_value c <? base)
      then strto_loop wrap base cp' (wrap (result * base + digit_value c)) else (result, cp)
  | [] => (result, [])
  end.

(** The prefix: the rest of the string and the base. *)
Definition strto_prefix (cp : cstr) (base : Z) : cstr * Z :=
  let '(cp, base) :=
    if deref cp =? 48 then
      let cp := drop 1 cp in
      let '(cp, base) := if (deref cp =? 120) && isxdigit (deref (drop 1 cp)) then (drop 1 cp, 16) else (cp, base) in
      (cp, if base =? 0 then 8 else base)
    else (cp, base) in
  (cp, if base =? 0 then 10 else base).

Definition simple_strtoul (cp : cstr) (base : Z) : Z * cstr :=
  let '(cp, base) := strto_prefix cp base in strto_loop u32 base cp 0.

Definition simple_strtoull (cp : cstr) (base : Z) : Z * cstr :=
  let '(cp, base) := strto_prefix cp base in strto_loop u64 base cp 0.

(** The return value and [*res]. *)
Definition strict_strtoul (cp : cstr) (base : Z) : Z * Z :=
  if Z.of_nat (length cp) =? 0 then (- EINVAL, 0)
  else
    let '(val, tail) := simple_strtoul cp base in
    if same_pos cp tail then (- EINVAL, 0)
    else if (deref tail =? 0) || ((length cp =? (length cp - length tail) + 1)%nat && (deref tail =? 10))
    then (0, val) else (- EINVAL, 0).

Definition simple_strtol (cp : cstr) (base : Z) : Z * cstr :=
  if deref cp =? 45 then let '(v, e) := simple_strtoul (drop 1 cp) base in (s32 (u32 (- v)), e)
  else let '(v, e) := simple_strtoul cp base in (s32 v, e).

(** The multipliers: the cases of the [switch] fall through from G to K. *)
Definition apply_suffix (wrap : Z -> Z) (result : Z) (endp : cstr) : Z * cstr :=
  let c := deref endp in
  let result := if c =? 71 then wrap (result * 1024) else result in
  let result := if (c =? 71) || (c =? 77) then wrap (result * 1024) else result in
  if (c =? 71) || (c =? 77) || (c =? 75) || (c =? 107) then
    (wrap (result * 1024),
     if deref (drop 1 endp) =? 105 then
       if deref (drop 2 endp) =? 66 then drop 3 endp else drop 2 endp
     else endp)
  else (result, endp).

Definition ustrtoul (cp : cstr) (base : Z) : Z * cstr :=
  let '(result, endp) := simple_strtoul cp base in apply_suffix u32 result endp.

Definition ustrtoull (cp : cstr) (base : Z) : Z * cstr :=
  let '(result, endp) := simple_strtoull cp base in apply_suffix u64 result endp.

(** ** Writing *)

Definition chr (d : Z) : Z := u8 (d + 48).

(** The characters stored, least significant digit first. *)
Definition put_dec_trunc (q : Z) : list Z :=
  let d1 := Z.land (Z.shiftr q 4) 0xf in
  let d2 := Z.land (Z.shiftr q 8) 0xf in
  let d3 := Z.shiftr q 12 in
  let d0 := 6 * (d3 + d2 + d1) + Z.land q 0xf in
  let q := Z.shiftr (d0 * 0xcd) 11 in
  let d0 := d0 - 10 * q in
  chr d0 ::
  let d1 := q + 9 * d3 + 5 * d2 + d1 in
  if negb (d1 =? 0) then
    let q := Z.shiftr (d1 * 0xcd) 11 in
    let d1 := d1 - 10 * q in
    chr d1 ::
    let d2 := q + 2 * d2 in
    if negb (d2 =? 0) || negb (d3 =? 0) then
      let q := Z.shiftr (d2 * 0xd) 7 in
      let d2 := d2 - 10 * q in
      chr d2 ::
      let d3 := q + 4 * d3 in
      if negb (d3 =? 0) then
        let q := Z.shiftr (d3 * 0xcd) 11 in
        let d3 := d3 - 10 * q in
        chr d3 :: (if negb (q =? 0) then [chr q] else [])
      else []
    else []
  else [].

Definition put_dec_full (q : Z) : list Z :=
  let d1 := Z.land (Z.shiftr q 4) 0xf in
  let d2 := Z.land (Z.shiftr q 8) 0xf in
  let d3 := Z.shiftr q 12 in
  let d0 := 6 * (d3 + d2 + d1) + Z.land q 0xf in
  let q := Z.shiftr (d0 * 0xcd) 11 in
  let d0 := d0 - 10 * q in
  let d1 := q + 9 * d3 + 5 * d2 + d1 in
  let q := Z.shiftr (d1 * 0xcd) 11 in
  let d1 := d1 - 10 * q in
  let d2 := q + 2 * d2 in
  let q := Z.shiftr (d2 * 0xd) 7 in
  let d2 := d2 - 10 * q in
  let d3 := q + 4 * d3 in
  let q := Z.shiftr (d3 * 0xcd) 11 in
  let d3 := d3 - 10 * q in
  [chr d0; chr d1; chr d2; chr d3; chr q].

(** [while (1)]: a 64-bit number is below 100000 after four divisions. *)
Fixpoint put_dec_loop (fuel : nat) (num : Z) : option (list Z) :=
  match fuel with
  | O => None
  | S fuel =>
      if num <? 100000 then Some (put_dec_trunc num)
      else
        '(num, rem) ← do_div num 100000;
        rest ← put_dec_loop fuel num;
        Some (put_dec_full rem ++ rest)
  end.

Definition put_dec (num : Z) : option (list Z) := put_dec_loop 5 num.

(** [do { *p-- = '0' + i % 10; i /= 10; } while (i > 0);] on the static buffer. *)
Fixpoint itoa_loop (fuel : nat) (i : Z) (local : list Z) (p : Z) : option (list Z * Z) :=
  match fuel with
  | O => None
  | S fuel =>
      local ← aset local p (48 + i mod 10);
      let i := i / 10 in
      if 0 <? i then itoa_loop fuel i local (p - 1) else Some (local, p - 1)
  end.

(** The buffer and the index at which the result begins. *)
Definition simple_itoa (i : Z) (local : list Z) : option (list Z * Z) :=
  local ← aset local 21 0;
  '(local, p) ← itoa_loop 22 i local 20;
  Some (local, p + 1).

(** ** Numerals *)

(** The value of digits, least significant first. *)
Fixpoint eval (base : Z) (ds : list Z) : Z :=
  match ds with
  | [] => 0
  | d :: ds => d + base * eval base ds
  end.

Definition digit_ok (base d : Z) : Prop := 0 <= d < base.

(** [ds] is the numeral of [n]: no zero stands in front, except for zero itself. *)
Record numeral (base n : Z) (ds : list Z) : Prop := {
  num_value : eval base ds = n;
  num_digits : Forall (digit_ok base) ds;
  num_lead : ds = [0] \/ exists ds' d, ds = ds' ++ [d] /\ d <> 0 }.

Fixpoint digits_from (fuel : nat) (base n : Z) : list Z :=
  match fuel with
  | O => []
  | S fuel => n mod base :: (if n / base =? 0 then [] else digits_from fuel base (n / base))
  end.

(** The numeral of a number of at most 64 bits. *)
Definition digits (base n : Z) : list Z := digits_from 64 base n.
#[global] Arguments digits : simpl never.

Lemma eval_app base a b : eval base (a ++ b) = eval base a + base ^ Z.of_nat (length a) * eval base b.
Proof.
  induction a as [|d a IH]; [cbn [app eval length]; rewrite Z.pow_0_r; lia|].
  cbn [app eval length]. rewrite IH, Nat2Z.inj_succ, Z.pow_succ_r by lia. ring.
Qed.

Lemma eval_nonneg base ds : 2 <= base -> Forall (digit_ok base) ds -> 0 <= eval base ds.
Proof. intros Hb. induction 1 as [|d ds Hd Hds IH]; cbn [eval]; unfold digit_ok in *; nia. Qed.

(** A numeral with a leading digit is positive. *)
Lemma eval_pos base ds d : 2 <= base -> Forall (digit_ok base) (ds ++ [d]) -> d <> 0 -> 0 < eval base (ds ++ [d]).
Proof.
  intros Hb [Hds Hd]%Forall_app Hne. apply Forall_cons_iff in Hd as [Hd _]. unfold digit_ok in Hd.
  rewrite eval_app. cbn [eval]. pose proof (eval_nonneg base ds Hb Hds).
  assert (0 < base ^ Z.of_nat (length ds)) by (apply Z.pow_pos_nonneg; lia). nia.
Qed.

(** What is left of a numeral without its last digit. *)
Lemma numeral_tail base n d d' ds : 2 <= base -> numeral base n (d :: d' :: ds) ->
  numeral base (n / base) (d' :: ds) /\ d = n mod base /\ 0 < n / base.
Proof.
  intros Hb [Hv Hd Hl]. apply Forall_cons_iff in Hd as [Hd Hds]. unfold digit_ok in Hd.
  change (eval base (d :: d' :: ds)) with (d + base * eval base (d' :: ds)) in Hv.
  assert (Hq : eval base (d' :: ds) = n / base /\ d = n mod base) by (apply div_unique_pair; lia).
  destruct Hq as [Hq Hm]. destruct Hl as [|(l & x & Hl & Hx)]; [done|].
  destruct l as [|y l]; [done|]. injection Hl as -> Hl.
  split; [|split; [done|]].
  - split; [done | done |]. right. eauto.
  - rewrite <- Hq, Hl. apply eval_pos; [done | by rewrite <- Hl | done].
Qed.

Lemma numeral_unique base ds : forall n ds', 2 <= base -> numeral base n ds -> numeral base n ds' -> ds = ds'.
Proof.
  induction ds as [|d ds IH]; intros n ds' Hb H H'.
  { destruct (num_lead _ _ _ H) as [|(? & ? & ? & _)]; [done | by destruct x]. }
  destruct ds' as [|e ds']. { destruct (num_lead _ _ _ H') as [|(? & ? & ? & _)]; [done | by destruct x]. }
  assert (Hone : forall x, numeral base n [x] -> n / base = 0 /\ x = n mod base).
  { intros x [Hv Hx _]. apply Forall_cons_iff in Hx as [Hx _]. unfold digit_ok in Hx. cbn [eval] in Hv.
    destruct (div_unique_pair n base 0 x); lia. }
  destruct ds as [|d2 ds], ds' as [|e2 ds'].
  - by destruct (Hone _ H) as [_ ->], (Hone _ H') as [_ ->].
  - destruct (Hone _ H), (numeral_tail _ _ _ _ _ Hb H') as (_ & _ & ?). lia.
  - destruct (Hone _ H'), (numeral_tail _ _ _ _ _ Hb H) as (_ & _ & ?). lia.
  - destruct (numeral_tail _ _ _ _ _ Hb H) as (Ht & -> & _), (numeral_tail _ _ _ _ _ Hb H') as (Ht' & -> & _).
    f_equal. by apply (IH (n / base)).
Qed.

Lemma digits_from_numeral base fuel : forall n, 2 <= base -> 0 <= n < 2 ^ Z.of_nat fuel -> (0 < fuel)%nat ->
  numeral base n (digits_from fuel base n).
Proof.
  induction fuel as [|fuel IH]; intros n Hb Hn Hf; [lia|]. cbn [digits_from].
  pose proof (Z.div_mod n base ltac:(lia)) as Hdm. pose proof (Z.mod_pos_bound n base ltac:(lia)) as Hm.
  rewrite Nat2Z.inj_succ, Z.pow_succ_r in Hn by lia.
  destruct (Z.eqb_spec (n / base) 0) as [Hz|Hz].
  - split; [cbn [eval]; lia | by constructor|]. destruct (Z.eq_dec (n mod base) 0) as [->|Hne]; [by left|].
    right. by exists [], (n mod base).
  - assert (Hq : 0 < n / base < 2 ^ Z.of_nat fuel).
    { split; [assert (0 <= n / base) by (apply Z.div_pos; lia); lia | apply Z.div_lt_upper_bound; nia]. }
    destruct fuel as [|fuel]; [simpl in Hq; lia|].
    destruct (IH (n / base) Hb ltac:(lia) ltac:(lia)) as [Hv Hd Hl].
    split; [cbn [eval] in *; rewrite Hv; lia | by constructor |]. right.
    destruct Hl as [Hl|(l & x & -> & Hx)]; [|by exists (n mod base :: l), x].
    rewrite Hl in Hv. cbn [eval] in Hv. lia.
Qed.

Lemma digits_numeral base n : 2 <= base -> 0 <= n < 2 ^ 64 -> numeral base n (digits base n).
Proof. intros Hb Hn. apply digits_from_numeral; [done | done | lia]. Qed.

(** ** The decimal conversion *)

(** The two approximations of a division by ten. *)
Lemma div10_cd x : 0 <= x < 1029 -> Z.shiftr (x * 0xcd) 11 = x / 10.
Proof.
  intros Hx. rewrite Z.shiftr_div_pow2 by lia. change (2 ^ 11) with 2048.
  pose proof (Z.div_mod x 10 ltac:(lia)). pose proof (Z.mod_pos_bound x 10 ltac:(lia)).
  symmetry. apply (Z.div_unique _ _ _ (x * 205 - 2048 * (x / 10))); lia.
Qed.

Lemma div10_d x : 0 <= x < 69 -> Z.shiftr (x * 0xd) 7 = x / 10.
Proof.
  intros Hx. rewrite Z.shiftr_div_pow2 by lia. change (2 ^ 7) with 128.
  pose proof (Z.div_mod x 10 ltac:(lia)). pose proof (Z.mod_pos_bound x 10 ltac:(lia)).
  symmetry. apply (Z.div_unique _ _ _ (x * 13 - 128 * (x / 10))); lia.
Qed.

Lemma chr_digit d : 0 <= d < 10 -> chr d = d + 48.
Proof. intros Hd. unfold chr. apply u8_small. lia. Qed.

(** The hexadecimal digits of a number below 100000. *)
Lemma hex_parts q : 0 <= q < 100000 -> exists q0 d1 d2 d3,
  Z.land q 0xf = q0 /\ Z.land (Z.shiftr q 4) 0xf = d1 /\ Z.land (Z.shiftr q 8) 0xf = d2 /\ Z.shiftr q 12 = d3 /\
  q = 4096 * d3 + 256 * d2 + 16 * d1 + q0 /\ 0 <= q0 < 16 /\ 0 <= d1 < 16 /\ 0 <= d2 < 16 /\ 0 <= d3 <= 24.
Proof.
  intros Hq. change 0xf with (Z.ones 4). rewrite !Z.land_ones, !Z.shiftr_div_pow2 by lia.
  exists (q mod 16), ((q / 16) mod 16), ((q / 256) mod 16), (q / 4096). repeat split; try done.
  all: Z.div_mod_to_equations; lia.
Qed.

(** One division step: the digit and the carry. *)
Lemma dec_step x : 0 <= x -> exists c e, x / 10 = c /\ x - 10 * c = e /\ x = 10 * c + e /\ 0 <= e < 10 /\ 0 <= c.
Proof.
  intros Hx. pose proof (Z.div_mod x 10 ltac:(lia)). pose proof (Z.mod_pos_bound x 10 ltac:(lia)).
  exists (x / 10), (x mod 10). repeat split; lia.
Qed.

(** The five digits that both conversions compute. *)
Lemma dec_digits q : 0 <= q < 100000 -> exists e0 e1 e2 e3 e4,
  put_dec_full q = [chr e0; chr e1; chr e2; chr e3; chr e4] /\
  put_dec_trunc q = chr e0 :: (if (e1 =? 0) && (e2 =? 0) && (e3 =? 0) && (e4 =? 0) then []
    else chr e1 :: (if (e2 =? 0) && (e3 =? 0) && (e4 =? 0) then []
    else chr e2 :: (if (e3 =? 0) && (e4 =? 0) then []
    else chr e3 :: (if e4 =? 0 then [] else [chr e4])))) /\
  q = e0 + 10 * (e1 + 10 * (e2 + 10 * (e3 + 10 * e4))) /\
  0 <= e0 < 10 /\ 0 <= e1 < 10 /\ 0 <= e2 < 10 /\ 0 <= e3 < 10 /\ 0 <= e4 < 10.
Proof.
  intros Hq. destruct (hex_parts q Hq) as (q0 & d1 & d2 & d3 & E0 & E1 & E2 & E3 & Hv & H0 & H1 & H2 & H3).
  unfold put_dec_full, put_dec_trunc. rewrite E0, E1, E2, E3. clear E0 E1 E2 E3.
  rewrite !(div10_cd (6 * (d3 + d2 + d1) + q0)) by lia.
  destruct (dec_step (6 * (d3 + d2 + d1) + q0)) as (c0 & e0 & -> & -> & X0 & Y0 & Z0); [lia|].
  rewrite !(div10_cd (c0 + 9 * d3 + 5 * d2 + d1)) by lia.
  destruct (dec_step (c0 + 9 * d3 + 5 * d2 + d1)) as (c1 & e1 & -> & -> & X1 & Y1 & Z1); [lia|].
  rewrite !(div10_d (c1 + 2 * d2)) by lia.
  destruct (dec_step (c1 + 2 * d2)) as (c2 & e2 & -> & -> & X2 & Y2 & Z2); [lia|].
  rewrite !(div10_cd (c2 + 4 * d3)) by lia.
  destruct (dec_step (c2 + 4 * d3)) as (c3 & e3 & -> & -> & X3 & Y3 & Z3); [lia|].
  exists e0, e1, e2, e3, c3. split; [done|]. split; [|lia]. clear Hv Hq.
  assert (T1 : (c0 + 9 * d3 + 5 * d2 + d1 =? 0) = (e1 =? 0) && (e2 =? 0) && (e3 =? 0) && (c3 =? 0)) by lia.
  assert (T2 : (c1 + 2 * d2 =? 0) && (d3 =? 0) = (e2 =? 0) && (e3 =? 0) && (c3 =? 0)) by lia.
  assert (T3 : (c2 + 4 * d3 =? 0) = (e3 =? 0) && (c3 =? 0)) by lia.
  rewrite <- negb_andb, T1, T2, T3. by repeat (destruct (_ && _)); try destruct (c3 =? 0).
Qed.

Lemma full_spec q : 0 <= q < 100000 -> exists ds,
  put_dec_full q = map chr ds /\ length ds = 5%nat /\ Forall (digit_ok 10) ds /\ eval 10 ds = q.
Proof.
  intros Hq. destruct (dec_digits q Hq) as (e0 & e1 & e2 & e3 & e4 & Hf & _ & Hv & Hr).
  exists [e0; e1; e2; e3; e4]. split; [done|]. split; [done|]. split; [repeat constructor; lia | cbn [eval]; lia].
Qed.

(** A list of digits without its leading zeros. *)
Lemma numeral_snoc base n ds d : eval base (ds ++ [d]) = n -> Forall (digit_ok base) (ds ++ [d]) -> d <> 0 ->
  numeral base n (ds ++ [d]).
Proof. intros Hv Hd Hne. split; eauto. Qed.

Lemma trunc_spec q : 0 <= q < 100000 -> exists ds, put_dec_trunc q = map chr ds /\ numeral 10 q ds.
Proof.
  intros Hq. destruct (dec_digits q Hq) as (e0 & e1 & e2 & e3 & e4 & _ & Ht & Hv & Hr). rewrite Ht. clear Ht.
  destruct (Z.eqb_spec e4 0) as [H4|H4]; cbn [andb]; rewrite ?andb_true_r, ?andb_false_r;
    [|exists ([e0; e1; e2; e3] ++ [e4]); split; [done|]; apply numeral_snoc; [cbn [app eval]; lia | repeat constructor; lia | done]].
  destruct (Z.eqb_spec e3 0) as [H3|H3]; cbn [andb]; rewrite ?andb_true_r, ?andb_false_r;
    [|exists ([e0; e1; e2] ++ [e3]); split; [done|]; apply numeral_snoc; [cbn [app eval]; lia | repeat constructor; lia | done]].
  destruct (Z.eqb_spec e2 0) as [H2|H2]; cbn [andb]; rewrite ?andb_true_r, ?andb_false_r;
    [|exists ([e0; e1] ++ [e2]); split; [done|]; apply numeral_snoc; [cbn [app eval]; lia | repeat constructor; lia | done]].
  destruct (Z.eqb_spec e1 0) as [H1|H1]; cbn [andb]; rewrite ?andb_true_r, ?andb_false_r;
    [|exists ([e0] ++ [e1]); split; [done|]; apply numeral_snoc; [cbn [app eval]; lia | repeat constructor; lia | done]].
  exists [e0]. split; [done|]. split; [cbn [eval]; lia | repeat constructor; lia|].
  destruct (Z.eq_dec e0 0) as [->|]; [by left | right; by exists [], e0].
Qed.

(** More significant digits in front of a full group. *)
Lemma numeral_app base n a b : 2 <= base -> Forall (digit_ok base) a -> 0 < n -> numeral base n b ->
  numeral base (eval base a + base ^ Z.of_nat (length a) * n) (a ++ b).
Proof.
  intros Hb Ha Hn [Hv Hd Hl]. split; [by rewrite eval_app, Hv | by apply Forall_app | right].
  destruct Hl as [->|(l & x & -> & Hx)]; [cbn [eval] in Hv; lia|].
  exists (a ++ l), x. by rewrite <- (assoc_L (++)).
Qed.

Lemma put_dec_loop_spec fuel : forall n, 0 <= n < 100000 ^ Z.of_nat fuel -> n < 2 ^ 64 -> (0 < fuel)%nat ->
  exists ds, put_dec_loop fuel n = Some (map chr ds) /\ numeral 10 n ds.
Proof.
  induction fuel as [|fuel IH]; intros n Hn H64 Hf; [lia|]. cbn [put_dec_loop].
  destruct (Z.ltb_spec n 100000) as [Hlt|Hge].
  { destruct (trunc_spec n) as (ds & -> & Hds); [lia | eauto]. }
  rewrite do_div_spec by lia. cbn [mbind option_bind].
  pose proof (Z.div_mod n 100000 ltac:(lia)) as Hdm. pose proof (Z.mod_pos_bound n 100000 ltac:(lia)) as Hm.
  rewrite Nat2Z.inj_succ, Z.pow_succ_r in Hn by lia.
  assert (Hq : 0 < n / 100000 < 100000 ^ Z.of_nat fuel).
  { split; [apply Z.div_str_pos; lia | apply Z.div_lt_upper_bound; lia]. }
  destruct fuel as [|fuel]; [simpl in Hq; lia|].
  destruct (IH (n / 100000)) as (ds & -> & Hds); [lia | lia | lia|]. cbn [mbind option_bind].
  destruct (full_spec (n mod 100000)) as (fs & -> & Hl & Hfs & Hv); [lia|].
  exists (fs ++ ds). split; [by rewrite map_app|].
  replace n with (eval 10 fs + 10 ^ Z.of_nat (length fs) * (n / 100000)) by (rewrite Hl, Hv; change (10 ^ Z.of_nat 5) with 100000; lia).
  apply numeral_app; [lia | done | lia | done].
Qed.

(** [put_dec] writes the decimal numeral of every 64-bit number. *)
Lemma put_dec_spec n : 0 <= n < 2 ^ 64 -> put_dec n = Some (map chr (digits 10 n)).
Proof.
  intros Hn. destruct (put_dec_loop_spec 5 n) as (ds & Hp & Hds); [|lia|lia|].
  - change (100000 ^ Z.of_nat 5) with 10000000000000000000000000. lia.
  - unfold put_dec. rewrite Hp. do 2 f_equal. apply (numeral_unique 10 ds n); [lia | done | apply digits_numeral; lia].
Qed.

(** ** The loop that reads digits *)

(** The character is a digit in [base]. *)
Definition in_base (base c : Z) : bool := isxdigit c && (digit_value c <? base).

(** The characters [cs] are the digits [ds], most significant first. *)
Definition spells (base : Z) (cs ds : list Z) : Prop :=
  Forall2 (fun c d => isxdigit c = true /\ digit_value c = d /\ digit_ok base d) cs (rev ds).

Lemma strto_loop_run w base cs vs rest : 0 < w ->
  Forall2 (fun c d => isxdigit c = true /\ digit_value c = d /\ digit_ok base d) cs vs ->
  in_base base (deref rest) = false -> forall r, 0 <= r < w ->
  strto_loop (fun z => z mod w) base (cs ++ rest) r = (fold_left (fun a v => a * base + v) vs r mod w, rest).
Proof.
  intros Hw HF Hr. induction HF as [|c v cs vs (Hx & Hv & Hd) HF IH]; intros r Hrange.
  - cbn [app fold_left]. rewrite Z.mod_small by lia. destruct rest as [|c rest]; [done|].
    rewrite deref_cons in Hr. unfold in_base in Hr. cbn [strto_loop]. by rewrite Hr.
  - cbn [app strto_loop]. unfold digit_ok in Hd. rewrite Hx, Hv, (proj2 (Z.ltb_lt _ _)) by lia. cbn [andb].
    rewrite IH by (apply Z.mod_pos_bound; lia). rewrite fold_left_cons. f_equal.
    assert (Hcong : forall vs a b, a mod w = b mod w ->
      fold_left (fun a v => a * base + v) vs a mod w = fold_left (fun a v => a * base + v) vs b mod w).
    { clear - Hw. induction vs as [|v vs IH]; intros a b Hab; [done|]. rewrite !fold_left_cons. apply IH.
      rewrite <- (Z.add_mod_idemp_l (a * base)), <- (Z.mul_mod_idemp_l a), Hab by lia.
      by rewrite Z.mul_mod_idemp_l, Z.add_mod_idemp_l by lia. }
    apply Hcong. apply Z.mod_mod. lia.
Qed.

Lemma fold_rev_eval base ds r :
  fold_left (fun a v => a * base + v) (rev ds) r = r * base ^ Z.of_nat (length ds) + eval base ds.
Proof.
  revert r. induction ds as [|d ds IH]; intros r; [cbn [rev fold_left length eval]; rewrite Z.pow_0_r; lia|].
  cbn [rev length eval]. rewrite fold_left_app. cbn [fold_left]. rewrite IH, Nat2Z.inj_succ, Z.pow_succ_r by lia. ring.
Qed.

Lemma strto_loop_spec w base cs ds rest : 0 < w -> spells base cs ds -> in_base base (deref rest) = false ->
  strto_loop (fun z => z mod w) base (cs ++ rest) 0 = (eval base ds mod w, rest).
Proof.
  intros Hw Hs Hr. rewrite (strto_loop_run w base cs (rev ds) rest Hw Hs Hr) by lia.
  by rewrite fold_rev_eval.
Qed.

(** A hexadecimal digit has a value below 16. *)
Lemma digit_value_range c : char_ok c -> isxdigit c = true -> 0 <= digit_value c < 16.
Proof.
  intros Hc Hx.
  assert (Hall : forallb (fun c => negb (isxdigit c) || (0 <=? digit_value c) && (digit_value c <? 16)) (seqZ 0 256) = true)
    by reflexivity.
  rewrite forallb_forall in Hall. specialize (Hall c). rewrite Hx in Hall. unfold char_ok in Hc.
  assert (Hin : List.In c (seqZ 0 256)) by (apply list_elem_of_In, elem_of_seqZ; lia).
  specialize (Hall Hin). cbn [negb orb] in Hall. zbool. lia.
Qed.

(** The longest run of digits. *)
Lemma digit_run base cp : Forall char_ok cp -> exists cs ds rest, cp = cs ++ rest /\ spells base cs ds /\ in_base base (deref rest) = false.
Proof.
  induction 1 as [|c cp Hc Hcp (cs & ds & rest & -> & Hs & Hr)].
  { exists [], [], []. split; [done|]. split; [constructor | done]. }
  destruct (in_base base c) eqn:E; [|exists [], [], (c :: cs ++ rest); split; [done|]; split; [constructor | done]].
  exists (c :: cs), (ds ++ [digit_value c]), rest. split; [done|]. split; [|done].
  unfold spells in *. rewrite rev_app_distr. cbn [rev app]. constructor; [|done].
  unfold in_base in E. apply andb_true_iff in E as [Hx Hlt%Z.ltb_lt]. split; [done|]. split; [done|].
  split; [by apply digit_value_range | done].
Qed.

Lemma drop_suffix n (s : cstr) : exists pre, s = pre ++ drop n s.
Proof. exists (take n s). by rewrite take_drop. Qed.

Lemma prefix_suffix cp base cp1 base1 : strto_prefix cp base = (cp1, base1) -> exists pre, cp = pre ++ cp1.
Proof.
  unfold strto_prefix. destruct (deref cp =? 48); [|intros [= <- _]; by exists []].
  destruct (_ && _); intros [= <- _]; rewrite ?drop_drop; apply drop_suffix.
Qed.

(** The result of [simple_strtoul] after the prefix. *)
Lemma strtoul_spec cp cp1 base base1 cs ds rest : strto_prefix cp base = (cp1, base1) ->
  cp1 = cs ++ rest -> spells base1 cs ds -> in_base base1 (deref rest) = false ->
  simple_strtoul cp base = (u32 (eval base1 ds), rest) /\ simple_strtoull cp base = (u64 (eval base1 ds), rest).
Proof.
  intros Hp -> Hs Hr. unfold simple_strtoul, simple_strtoull. rewrite Hp.
  split; [apply (strto_loop_spec (2 ^ 32)) | apply (strto_loop_spec (2 ^ 64))]; done.
Qed.

(** [simple_strtoul] and [simple_strtoull] read the longest run of digits.
    After the prefix ("0x" followed by a hexadecimal digit selects base 16,
    else a leading "0" is skipped and selects base 8 if no base is given), the
    string splits into digits [cs] of the base and a rest that does not begin
    with one; the result is the value of [cs] reduced to 32, respectively 64
    bits, and [*endp] is the rest.  [strict_strtoul] succeeds with this value
    exactly if something was read and only a newline may be left. *)
Theorem simple_strtoul_correct cp base : Forall char_ok cp ->
  let '(cp1, base1) := strto_prefix cp base in
  exists cs ds rest, cp1 = cs ++ rest /\ spells base1 cs ds /\ in_base base1 (deref rest) = false /\
    simple_strtoul cp base = (u32 (eval base1 ds), rest) /\ simple_strtoull cp base = (u64 (eval base1 ds), rest) /\
    strict_strtoul cp base =
      (if bool_decide (cp <> [] /\ length rest <> length cp /\ (rest = [] \/ rest = [10]))
       then (0, u32 (eval base1 ds)) else (- EINVAL, 0)).
Proof.
  intros Hc. destruct (strto_prefix cp base) as [cp1 base1] eqn:Hp.
  assert (Hsuf : exists pre, cp = pre ++ cp1) by (by eapply prefix_suffix).
  destruct Hsuf as [pre Hsuf]. assert (Hc1 : Forall char_ok cp1) by (rewrite Hsuf in Hc; by apply Forall_app in Hc as [_ Hc]).
  destruct (digit_run base1 cp1 Hc1) as (cs & ds & rest & -> & Hs & Hr).
  destruct (strtoul_spec cp _ base base1 cs ds rest Hp eq_refl Hs Hr) as [H1 H2].
  exists cs, ds, rest. do 5 (split; [done|]). unfold strict_strtoul. rewrite H1. unfold same_pos.
  assert (Hrc : Forall char_ok rest) by (by apply Forall_app in Hc1 as [_ ?]).
  assert (Hlen : (length rest <= length cp)%nat) by (rewrite Hsuf, !length_app; lia).
  destruct cp as [|c cp]; [by rewrite bool_decide_false by tauto|].
  change (Z.of_nat (length (c :: cp)) =? 0) with false. cbn iota.
  destruct (Nat.eqb_spec (length (c :: cp)) (length rest)) as [E|E]; [by rewrite bool_decide_false by (intros (_ & ? & _); congruence)|].
  destruct rest as [|x rest]; [by rewrite bool_decide_true by auto|]. rewrite deref_cons.
  apply Forall_cons_iff in Hrc as [Hx _]. unfold char_ok in Hx. rewrite (proj2 (Z.eqb_neq x 0)) by lia. cbn [orb].
  destruct (Nat.eqb_spec (length (c :: cp)) (length (c :: cp) - length (x :: rest) + 1)) as [El|El]; cbn [andb].
  - destruct rest; [|simpl in *; lia]. destruct (Z.eqb_spec x 10) as [->|Hx10]; [by rewrite bool_decide_true by auto|].
    rewrite bool_decide_false; [done|]. intros (_ & _ & [?|[= ?]]); done.
  - rewrite bool_decide_false; [done|]. intros (_ & _ & [?|[= -> ->]]); [done|]. simpl in *. lia.
Qed.

Lemma simple_strtoul_correct_witness :
  exists cs ds rest, str "1f G" = cs ++ rest /\ spells 16 cs ds /\ in_base 16 (deref rest) = false /\
    simple_strtoul (str "0x1f G") 10 = (u32 (eval 16 ds), rest).
Proof.
  assert (Hc : Forall char_ok (str "0x1f G")) by chars.
  destruct (simple_strtoul_correct (str "0x1f G") 10 Hc) as (cs & ds & rest & H1 & H2 & H3 & H4 & _).
  exists cs, ds, rest. split; [exact H1|]. split; [exact H2|]. split; [exact H3 | exact H4].
Defined.

(** ** [simple_itoa] *)

Lemma one_digit base d : digit_ok base d -> Forall (digit_ok base) [d].
Proof. by constructor. Qed.

Lemma itoa_loop_spec fuel : forall i pre post, 0 <= i < 10 ^ Z.of_nat fuel -> (0 < fuel <= length pre)%nat ->
  exists pre' ds, itoa_loop fuel i (pre ++ post) (Z.of_nat (length pre) - 1) =
      Some (pre' ++ map chr (rev ds) ++ post, Z.of_nat (length pre') - 1) /\
    numeral 10 i ds /\ (length pre' + length ds = length pre)%nat.
Proof.
  induction fuel as [|fuel IH]; intros i pre post Hi Hf; [lia|]. cbn [itoa_loop].
  destruct (exists_last (l := pre)) as (pre0 & x & ->); [destruct pre; [simpl in *; lia | done]|].
  rewrite length_app in *. simpl length in *. rewrite <- (assoc_L (++)). cbn [app].
  pose proof (Z.div_mod i 10 ltac:(lia)) as Hdm. pose proof (Z.mod_pos_bound i 10 ltac:(lia)) as Hm.
  rewrite (aset_mid pre0 post _ x) by lia. cbn [mbind option_bind].
  rewrite Nat2Z.inj_succ, Z.pow_succ_r in Hi by lia.
  replace (48 + i mod 10) with (chr (i mod 10)) by (rewrite chr_digit by lia; lia).
  destruct (Z.ltb_spec 0 (i / 10)) as [Hp|Hz].
  - assert (Hq : i / 10 < 10 ^ Z.of_nat fuel) by (apply Z.div_lt_upper_bound; lia).
    destruct fuel as [|fuel]; [simpl in Hq; lia|].
    destruct (IH (i / 10) pre0 (chr (i mod 10) :: post)) as (pre' & ds & Hrun & Hds & Hl); [lia | lia|].
    exists pre', (i mod 10 :: ds).
    replace (Z.of_nat (length pre0 + 1) - 1 - 1) with (Z.of_nat (length pre0) - 1) by lia.
    rewrite Hrun. cbn [rev]. rewrite map_app, <- (app_assoc (map chr (rev ds))). split; [done|]. split; [|simpl; lia].
    pose proof (numeral_app 10 (i / 10) [i mod 10] ds) as Ha. cbn [eval length app] in Ha.
    change (10 ^ Z.of_nat 1) with 10 in Ha. rewrite Z.mul_0_r, Z.add_0_r, Z.add_comm, <- Hdm in Ha.
    apply Ha; [lia | by apply one_digit | lia | done].
  - assert (i / 10 = 0) by (pose proof (Z.div_pos i 10); lia).
    exists pre0, [i mod 10]. split; [|split; [|simpl; lia]].
    + cbn [rev map app]. do 2 f_equal. lia.
    + split; [cbn [eval]; lia | by apply one_digit|].
      destruct (Z.eq_dec (i mod 10) 0) as [->|]; [by left | right; by exists [], (i mod 10)].
Qed.

(** The result is the decimal numeral with its terminator, inside the buffer. *)
Lemma simple_itoa_spec i local : 0 <= i < 2 ^ 32 -> length local = 22%nat ->
  exists local' p, simple_itoa i local = Some (local', p) /\ 0 <= p /\
    drop (Z.to_nat p) local' = map chr (rev (digits 10 i)) ++ [0] /\ length local' = 22%nat.
Proof.
  intros Hi Hl. unfold simple_itoa. destruct (exists_last (l := local)) as (pre & x & ->); [by destruct local|].
  rewrite length_app in Hl. simpl in Hl. rewrite (aset_mid pre [] _ x) by lia. cbn [mbind option_bind].
  destruct (itoa_loop_spec 21 i pre [0]) as (pre' & ds & Hrun & Hds & Hlen); [split; [lia|] | lia |].
  { change (10 ^ Z.of_nat 21) with 1000000000000000000000. lia. }
  replace 20 with (Z.of_nat (length pre) - 1) by lia.
  assert (Hmono : forall f i l p r, itoa_loop f i l p = Some r -> itoa_loop (S f) i l p = Some r).
  { clear. induction f as [|f IH]; intros i l p r Hr; [done|]. cbn [itoa_loop] in Hr. 
    change (itoa_loop (S (S f)) i l p) with
      (local ← aset l p (48 + i mod 10); if 0 <? i / 10 then itoa_loop (S f) (i / 10) local (p - 1) else Some (local, p - 1)).
    destruct (aset l p _); [|done]. cbn [mbind option_bind] in *. destruct (0 <? i / 10); auto. }
  rewrite (Hmono _ _ _ _ _ Hrun). cbn [mbind option_bind].
  assert (ds = digits 10 i) as -> by (apply (numeral_unique 10 ds i); [lia | exact Hds | apply digits_numeral; lia]).
  exists (pre' ++ map chr (rev (digits 10 i)) ++ [0]), (Z.of_nat (length pre') - 1 + 1). split; [reflexivity|].
  split; [lia|]. rewrite Z.sub_add, Nat2Z.id, drop_app_length. split; [done|].
  rewrite !length_app, length_map, length_rev. cbn [length]. lia.
Qed.
