(* ===== verification/Vsprintf.v ===== *)
(** * Vsprintf: formatted output ([lib/vsprintf.c], second part)

    The functions that format write characters through the macro [ADDCH]
    only, so they are written here over an interface, the class [Sink]: where
    the next character goes, and the memory from which arguments are read.
    One instance is the C code's: a buffer in memory, an output pointer, and
    the end of the buffer past which nothing is stored
    ([CONFIG_SYS_VSNPRINTF]).  The other is a specification that collects the
    text in a list.  [vsnprintf_internal] is the first instance with its
    prologue and epilogue.

    The format string is its contents; arguments are 32-bit words or 64-bit
    quads, as [va_arg] takes them.  Widths and precisions are [int]s that the
    code decrements; they are not reduced to 32 bits. *)
From stdpp Require Import gmap.
From Stdlib Require Import String.
From S2P Require Import Prelude CString Hashtable HashIO EnvFlags Div64 Numbers.

Class Sink (St : Type) := {
  addch : St -> Z -> option St;
  view : St -> mem;
  position : St -> Z;
  store_int : St -> Z -> Z -> option St
}.

Definition ZEROPAD : Z := 1.
Definition SIGN : Z := 2.
Definition PLUS : Z := 4.
Definition SPACE : Z := 8.
Definition LEFT : Z := 16.
Definition SMALL : Z := 32.
Definition SPECIAL : Z := 64.

Inductive varg := word (z : Z) | quad (z : Z).

Definition va_word (args : list varg) : option (Z * list varg) :=
  match args with word z :: args => Some (z, args) | _ => None end.

Definition va_quad (args : list varg) : option (Z * list varg) :=
  match args with quad z :: args => Some (z, args) | _ => None end.

(** ** Numbers *)

Definition hex_upper : list Z := str "0123456789ABCDEF".
Definition hex_asc : list Z := str "0123456789abcdef".

(** [do { tmp[i++] = digits[...] | locase; num >>= shift; } while (num);] *)
Fixpoint put_pow2 (fuel : nat) (num mask shift locase : Z) : option (list Z) :=
  match fuel with
  | O => None
  | S fuel =>
      c ← aget hex_upper (Z.land (u8 num) mask);
      let num := Z.shiftr num shift in
      rest ← (if num =? 0 then Some [] else put_pow2 fuel num mask shift locase);
      Some (Z.lor c locase :: rest)
  end.

(** The digits in [tmp], in reverse order; [tmp] has 66 elements. *)
Definition number_tmp (num base locase : Z) : option (list Z) :=
  tmp ← (if num =? 0 then Some [48]
         else if negb (base =? 10) then put_pow2 22 num (base - 1) (if base =? 16 then 4 else 3) locase
         else put_dec num);
  if (length tmp <=? 66)%nat then Some tmp else None.

Section formatting.
Context {St : Type} `{Sink St}.

Fixpoint addchs (st : St) (s : list Z) : option St :=
  match s with
  | [] => Some st
  | c :: s => st ← addch st c; addchs st s
  end.

(** [while (--size >= 0) ADDCH(buf, c);] and the value of [size] after it. *)
Definition pad_field (st : St) (c size : Z) : option (St * Z) :=
  st ← addchs st (replicate (Z.to_nat size) c);
  Some (st, Z.min size 0 - 1).

Definition number (st : St) (num base size precision type : Z) : option St :=
  let need_pfx := has_flag type SPECIAL && negb (base =? 10) in
  let locase := Z.land type SMALL in
  let type := if has_flag type LEFT then Z.land type (Z.lnot ZEROPAD) else type in
  let '(sign, num, size) :=
    if has_flag type SIGN then
      if s64 num <? 0 then (45, u64 (- s64 num), size - 1)
      else if has_flag type PLUS then (43, num, size - 1)
      else if has_flag type SPACE then (32, num, size - 1)
      else (0, num, size)
    else (0, num, size) in
  let size := if need_pfx then if base =? 16 then size - 1 - 1 else size - 1 else size in
  tmp ← number_tmp num base locase;
  let i := Z.of_nat (length tmp) in
  let precision := if precision <? i then i else precision in
  let size := size - precision in
  '(st, size) ← (if negb (has_flag type (ZEROPAD + LEFT)) then pad_field st 32 size else Some (st, size));
  st ← (if negb (sign =? 0) then addch st sign else Some st);
  st ← (if need_pfx then
          st ← addch st 48; if base =? 16 then addch st (Z.lor 88 locase) else Some st
        else Some st);
  '(st, size) ← (if negb (has_flag type LEFT)
                 then pad_field st (if has_flag type ZEROPAD then 48 else 32) size else Some (st, size));
  st ← addchs st (replicate (Z.to_nat (precision - i)) 48);
  st ← addchs st (rev tmp);
  '(st, _) ← pad_field st 32 size;
  Some st.

(** ** Strings *)

(** [while (len < field_width--) ADDCH(buf, ' ');] *)
Definition pad_width (st : St) (len field_width : Z) : option (St * Z) :=
  st ← addchs st (replicate (Z.to_nat (field_width - len)) 32);
  Some (st, Z.min field_width len - 1).

(** [string] on an array that is not in the memory: a literal or a local buffer. *)
Definition string_lit (st : St) (s : cstr) (field_width precision flags : Z) : option St :=
  let s := if precision <? 0 then s else take (Z.to_nat precision) s in
  let len := Z.of_nat (length s) in
  '(st, field_width) ← (if negb (has_flag flags LEFT) then pad_width st len field_width else Some (st, field_width));
  st ← addchs st s;
  '(st, _) ← pad_width st len field_width;
  Some st.

(** [for (i = 0; i < len; ++i) ADDCH(buf, *s++);] *)
Fixpoint add_from (n : nat) (st : St) (s : Z) : option St :=
  match n with
  | O => Some st
  | S n => c ← load (view st) s; st ← addch st c; add_from n st (s + 1)
  end.

(** A negative precision is no limit: as a [size_t] it is longer than any string. *)
Definition string (st : St) (s field_width precision flags : Z) : option St :=
  if s =? NULL then string_lit st (str "<NULL>") field_width precision flags
  else
    len ← (if precision <? 0 then strlen (view st) s else strnlen (view st) s precision);
    '(st, field_width) ← (if negb (has_flag flags LEFT) then pad_width st len field_width else Some (st, field_width));
    st ← add_from (Z.to_nat len) st s;
    '(st, _) ← pad_width st len field_width;
    Some st.

(** ** Pointers and addresses *)

Definition pack_hex_byte (b : Z) : option (list Z) :=
  hi ← aget hex_asc (Z.shiftr (Z.land b 0xf0) 4);
  lo ← aget hex_asc (Z.land b 0x0f);
  Some [hi; lo].

Fixpoint hex_bytes (n : nat) (m : mem) (addr : Z) : option (list Z) :=
  match n with
  | O => Some []
  | S n => b ← load m addr; h ← pack_hex_byte b; t ← hex_bytes n m (addr + 1); Some (h ++ t)
  end.

(** The text of [n] groups of [w] bytes from address [addr] on, a colon after each but the last. *)
Fixpoint hex_groups (n : nat) (w : nat) (m : mem) (addr : Z) (colon : bool) : option (list Z) :=
  match n with
  | O => Some []
  | S n =>
      g ← hex_bytes w m addr;
      rest ← hex_groups n w m (addr + Z.of_nat w) colon;
      Some (g ++ (if colon && negb (n =? 0)%nat then [58] else []) ++ rest)
  end.

Fixpoint ip4_groups (n : nat) (m : mem) (addr : Z) : option (list Z) :=
  match n with
  | O => Some []
  | S n =>
      b ← load m addr;
      rest ← ip4_groups n m (addr + 1);
      Some (rev (put_dec_trunc b) ++ (if negb (n =? 0)%nat then [46] else []) ++ rest)
  end.

Definition mac_address_string (st : St) (addr field_width precision flags : Z) : option St :=
  s ← hex_groups 6 1 (view st) addr (negb (has_flag flags SPECIAL));
  string_lit st s field_width precision (Z.land flags (Z.lnot SPECIAL)).

Definition ip6_addr_string (st : St) (addr field_width precision flags : Z) : option St :=
  s ← hex_groups 8 2 (view st) addr (negb (has_flag flags SPECIAL));
  string_lit st s field_width precision (Z.land flags (Z.lnot SPECIAL)).

Definition ip4_addr_string (st : St) (addr field_width precision flags : Z) : option St :=
  s ← ip4_groups 4 (view st) addr;
  string_lit st s field_width precision (Z.land flags (Z.lnot SPECIAL)).

(** A little-endian word. *)
Definition va_load_word (m : mem) (a : Z) : option Z :=
  b0 ← load m a; b1 ← load m (a + 1); b2 ← load m (a + 2); b3 ← load m (a + 3);
  Some (b0 + 256 * (b1 + 256 * (b2 + 256 * b3))).

(** [fmt] is what follows the 'p'; [phys_addr_t] and pointers are 4 bytes wide. *)
Definition pointer (fmt : cstr) (st : St) (ptr field_width precision flags : Z) : option St :=
  let plain num field_width flags :=
    let flags := Z.lor flags SMALL in
    let '(field_width, flags) := if field_width =? -1 then (8, Z.lor flags ZEROPAD) else (field_width, flags) in
    number st num 16 field_width precision flags in
  let c := deref fmt in
  let c1 := deref (drop 1 fmt) in
  if c =? 97 then
    num ← va_load_word (view st) ptr;
    plain num 10 (Z.lor flags (Z.lor SPECIAL ZEROPAD))
  else if (c =? 109) || (c =? 77) then
    mac_address_string st ptr field_width precision (if c =? 109 then Z.lor flags SPECIAL else flags)
  else if (c =? 105) || (c =? 73) then
    let flags := if c =? 105 then Z.lor flags SPECIAL else flags in
    if c1 =? 54 then ip6_addr_string st ptr field_width precision flags
    else if c1 =? 52 then ip4_addr_string st ptr field_width precision flags
    else plain ptr field_width (Z.land flags (Z.lnot SPECIAL))
  else plain ptr field_width flags.

(** ** The format string *)

Definition is_digit (c : Z) : bool := (48 <=? c) && (c <=? 57).
Definition INT_MAX : Z := 2 ^ 31 - 1.

(** [i * 10 + c - '0'] is undefined when it overflows an [int]. *)
Fixpoint skip_atoi (s : cstr) (i : Z) : option (Z * cstr) :=
  match s with
  | c :: s' => if is_digit c then if INT_MAX <? i * 10 + c then None else skip_atoi s' (i * 10 + c - 48) else Some (i, s)
  | [] => Some (i, [])
  end.

(** The label [repeat]. *)
Fixpoint parse_flags (fmt : cstr) (flags : Z) : Z * cstr :=
  match fmt with
  | c :: fmt' =>
      if c =? 45 then parse_flags fmt' (Z.lor flags LEFT)
      else if c =? 43 then parse_flags fmt' (Z.lor flags PLUS)
      else if c =? 32 then parse_flags fmt' (Z.lor flags SPACE)
      else if c =? 35 then parse_flags fmt' (Z.lor flags SPECIAL)
      else if c =? 48 then parse_flags fmt' (Z.lor flags ZEROPAD)
      else (flags, fmt)
  | [] => (flags, [])
  end.

(** The field width, the flags, and what is left; [-INT_MIN] is undefined. *)
Definition parse_width (fmt : cstr) (flags : Z) (args : list varg) : option (Z * Z * cstr * list varg) :=
  if is_digit (deref fmt) then '(w, fmt) ← skip_atoi fmt 0; Some (w, flags, fmt, args)
  else if deref fmt =? 42 then
    '(w, args) ← va_word args;
    let w := s32 w in
    if w =? - 2 ^ 31 then None
    else if w <? 0 then Some (- w, Z.lor flags LEFT, drop 1 fmt, args)
    else Some (w, flags, drop 1 fmt, args)
  else Some (-1, flags, fmt, args).

Definition parse_precision (fmt : cstr) (args : list varg) : option (Z * cstr * list varg) :=
  if deref fmt =? 46 then
    let fmt := drop 1 fmt in
    '(p, fmt, args) ←
      (if is_digit (deref fmt) then '(p, fmt) ← skip_atoi fmt 0; Some (p, fmt, args)
       else if deref fmt =? 42 then '(p, args) ← va_word args; Some (s32 p, drop 1 fmt, args)
       else Some (-1, fmt, args));
    Some (if p <? 0 then 0 else p, fmt, args)
  else Some (-1, fmt, args).

(** 'h', 'l', 'L', 'Z', 'z' or 't', -1 if there is none; "ll" is 'L'. *)
Definition parse_qualifier (fmt : cstr) : Z * cstr :=
  let q := deref fmt in
  if (q =? 104) || (q =? 108) || (q =? 76) || (q =? 90) || (q =? 122) || (q =? 116) then
    let fmt := drop 1 fmt in
    if (q =? 108) && (deref fmt =? 108) then (76, drop 1 fmt) else (q, fmt)
  else (-1, fmt).

Definition s16 (z : Z) : Z := (z + 2 ^ 15) mod 2 ^ 16 - 2 ^ 15.

(** The argument of an integer conversion as the 64-bit [num]. *)
Definition integer_arg (qualifier flags : Z) (args : list varg) : option (Z * list varg) :=
  let signed := has_flag flags SIGN in
  if qualifier =? 76 then '(z, args) ← va_quad args; Some (u64 z, args)
  else
    '(z, args) ← va_word args;
    Some
      (if qualifier =? 108 then if signed then u64 (s32 z) else u32 z
       else if (qualifier =? 90) || (qualifier =? 122) then u32 z
       else if qualifier =? 116 then u64 (s32 z)
       else if qualifier =? 104 then if signed then u64 (s16 (u16 z)) else u16 z
       else if signed then u64 (s32 z) else u32 z, args).

(** [while (--field_width > 0) ADDCH(str, ' ');] *)
Definition pad_char (st : St) (field_width : Z) : option (St * Z) :=
  st ← addchs st (replicate (Z.to_nat (field_width - 1)) 32);
  Some (st, Z.min field_width 1 - 1).

(** [while (isalnum(fmt[1])) fmt++;] after the 'p'. *)
Fixpoint skip_alnum (fmt : cstr) : cstr :=
  match fmt with
  | c :: fmt' => if isalnum c then skip_alnum fmt' else fmt
  | [] => []
  end.

(** The conversion character and what it does: the new state, what is left of the format and the arguments. *)
Definition convert (st : St) (fmt : cstr) (args : list varg) (flags field_width precision qualifier : Z)
    : option (St * cstr * list varg) :=
  let c := deref fmt in
  let rest := drop 1 fmt in
  let integer base flags :=
    '(num, args) ← integer_arg qualifier flags args;
    st ← number st num base field_width precision flags;
    Some (st, rest, args) in
  if c =? 99 then
    '(st, field_width) ← (if negb (has_flag flags LEFT) then pad_char st field_width else Some (st, field_width));
    '(z, args) ← va_word args;
    st ← addch st (u8 z);
    '(st, _) ← pad_char st field_width;
    Some (st, rest, args)
  else if c =? 115 then
    '(s, args) ← va_word args;
    st ← string st s field_width precision flags;
    Some (st, rest, args)
  else if c =? 112 then
    '(p, args) ← va_word args;
    st ← pointer rest st p field_width precision flags;
    Some (st, skip_alnum rest, args)
  else if c =? 110 then
    '(ip, args) ← va_word args;
    st ← store_int st ip (position st);
    Some (st, rest, args)
  else if c =? 37 then st ← addch st 37; Some (st, rest, args)
  else if c =? 111 then integer 8 flags
  else if c =? 120 then integer 16 (Z.lor flags SMALL)
  else if c =? 88 then integer 16 flags
  else if (c =? 100) || (c =? 105) then integer 10 (Z.lor flags SIGN)
  else if c =? 117 then integer 10 flags
  else
    st ← addch st 37;
    match fmt with
    | c :: rest => st ← addch st c; Some (st, rest, args)
    | [] => Some (st, [], args)
    end.

(** What follows a '%'. *)
Definition directive (st : St) (fmt : cstr) (args : list varg) : option (St * cstr * list varg) :=
  let '(flags, fmt) := parse_flags fmt 0 in
  '(field_width, flags, fmt, args) ← parse_width fmt flags args;
  '(precision, fmt, args) ← parse_precision fmt args;
  let '(qualifier, fmt) := parse_qualifier fmt in
  convert st fmt args flags field_width precision qualifier.

(** [for (; *fmt; ++fmt)]: each round consumes a character of the format. *)
Fixpoint vformat (fuel : nat) (st : St) (fmt : cstr) (args : list varg) : option St :=
  match fuel with
  | O => None
  | S fuel =>
      match fmt with
      | [] => Some st
      | c :: fmt' =>
          if negb (c =? 37) then st ← addch st c; vformat fuel st fmt' args
          else '(st, fmt, args) ← directive st fmt' args; vformat fuel st fmt args
      end
  end.
End formatting.

(** ** The buffer *)

(** The memory, [str], [buf] and [end]. *)
Record buffer := mk_buffer { b_mem : mem; b_str : Z; b_buf : Z; b_end : Z }.

(** The macro [ADDCH]. *)
Definition ADDCH (b : buffer) (ch : Z) : option buffer :=
  m ← (if b_str b <? b_end b then store (b_mem b) (b_str b) (u8 ch) else Some (b_mem b));
  Some (mk_buffer m (b_str b + 1) (b_buf b) (b_end b)).

(** [*ip = v] for an [int]. *)
Definition va_store_word (m : mem) (a v : Z) : option mem :=
  m ← store m a (u8 v); m ← store m (a + 1) (u8 (v / 256));
  m ← store m (a + 2) (u8 (v / 65536)); store m (a + 3) (u8 (v / 16777216)).

#[export] Instance buffer_sink : Sink buffer := {|
  addch := ADDCH;
  view := b_mem;
  position b := b_str b - b_buf b;
  store_int b ip v := m ← va_store_word (b_mem b) ip v; Some (mk_buffer m (b_str b) (b_buf b) (b_end b)) |}.

(** The memory after the call and the return value.  [end] is kept above [buf] when [buf + size] wraps. *)
Definition vsnprintf_internal (m : mem) (buf size : Z) (fmt : cstr) (args : list varg) : option (mem * Z) :=
  let end_ := u32 (buf + size) in
  let '(end_, size) := if end_ <? buf then (u32 (-1), u32 (-1) - buf) else (end_, size) in
  b ← vformat (S (length fmt)) (mk_buffer m buf buf end_) fmt args;
  if 0 <? size then
    b ← ADDCH b 0;
    m ← (if end_ <? b_str b then store (b_mem b) (end_ - 1) 0 else Some (b_mem b));
    Some (m, b_str b - 1 - buf)
  else Some (b_mem b, b_str b - buf).

Definition vsnprintf := vsnprintf_internal.
Definition snprintf := vsnprintf.

Definition vscnprintf (m : mem) (buf size : Z) (fmt : cstr) (args : list varg) : option (mem * Z) :=
  '(m, i) ← vsnprintf m buf size fmt args;
  Some (m, if i <? size then i else if negb (size =? 0) then size - 1 else 0).

Definition scnprintf := vscnprintf.

Definition vsprintf (m : mem) (buf : Z) (fmt : cstr) (args : list varg) : option (mem * Z) :=
  vsnprintf_internal m buf INT_MAX fmt args.

Definition sprintf := vsprintf.

(** ** The specification: the text as a list *)

(** The text so far and the memory that arguments are read from. *)
Record text := mk_text { t_out : list Z; t_mem : mem }.

(** Nothing is written to memory, so %n has no meaning here. *)
#[export] Instance text_sink : Sink text := {|
  addch t ch := Some (mk_text (t_out t ++ [u8 ch]) (t_mem t));
  view := t_mem;
  position t := Z.of_nat (length (t_out t));
  store_int _ _ _ := None |}.

(** The text of a format. *)
Definition render (m : mem) (fmt : cstr) (args : list varg) : option (list Z) :=
  t_out <$> vformat (S (length fmt)) (mk_text [] m) fmt args.

Example render_1 : render ∅ (str "%5d|%-4x|%#010X|%c%%|%+i|%lu") [word 42; word 255; word 0xbeef; word 65; word 7; word 3]
  = Some (str "   42|ff  |0X0000BEEF|A%|+7|3").
Proof. vm_compute. reflexivity. Qed.

(** ** The buffer implements the specification *)

(** If the specification has a result, so has the code, and they are related. *)
Definition simo {A B} (R : A -> B -> Prop) (x : option A) (y : option B) : Prop :=
  forall b, y = Some b -> exists a, x = Some a /\ R a b.

Lemma simo_bind {A B A' B'} (R : A -> B -> Prop) (R' : A' -> B' -> Prop) x y f g :
  simo R x y -> (forall a b, R a b -> simo R' (f a) (g b)) -> simo R' (x ≫= f) (y ≫= g).
Proof.
  intros Hxy Hfg. destruct y as [b|]; [|done]. destruct (Hxy b eq_refl) as (a & -> & Hab). cbn [mbind option_bind]. auto.
Qed.

Lemma simo_same {A A' B'} (R' : A' -> B' -> Prop) (x : option A) f g :
  (forall a, x = Some a -> simo R' (f a) (g a)) -> simo R' (x ≫= f) (x ≫= g).
Proof. intros Hfg. destruct x as [a|]; [|done]. cbn [mbind option_bind]. auto. Qed.

Lemma simo_some {A B} (R : A -> B -> Prop) a b : R a b -> simo R (Some a) (Some b).
Proof. intros Hab ? [= <-]. eauto. Qed.

Lemma simo_none {A B} (R : A -> B -> Prop) x : simo R x None.
Proof. done. Qed.

(** Reads give the same in a larger memory. *)
Lemma scan_nul_mono m m' f f' s r : m ⊆ m' -> (f <= f')%nat -> scan_nul f m s = Some r -> scan_nul f' m' s = Some r.
Proof.
  intros Hm. revert f' s. induction f as [|f IH]; intros [|f'] s Hf Hr; try done; try lia. cbn [scan_nul] in *.
  unfold load in *. destruct (m !! s) as [c|] eqn:E; [|done]. rewrite (lookup_weaken _ _ _ _ E Hm).
  cbn [mbind option_bind] in *. destruct (c =? 0); [done|]. apply IH; [lia | done].
Qed.

Lemma strlen_mono m m' s r : m ⊆ m' -> strlen m s = Some r -> strlen m' s = Some r.
Proof.
  unfold strlen, str_fuel. intros Hm. destruct (scan_nul _ m s) as [e|] eqn:E; [|done].
  rewrite (scan_nul_mono m m' (S (size m)) (S (size m')) s e Hm); [done | | done].
  rewrite <- !(size_dom (D := gset Z)). pose proof (subseteq_size _ _ (subseteq_dom _ _ Hm)). lia.
Qed.

Lemma strnlen_loop_mono m m' n : forall s r, m ⊆ m' -> strnlen_loop n m s = Some r -> strnlen_loop n m' s = Some r.
Proof.
  induction n as [|n IH]; intros s r Hm; cbn [strnlen_loop]; [done|].
  unfold load. destruct (m !! s) as [c|] eqn:E; [|done]. rewrite (lookup_weaken _ _ _ _ E Hm).
  cbn [mbind option_bind]. destruct (c =? 0); [done | by apply IH].
Qed.

Lemma strnlen_mono m m' s n r : m ⊆ m' -> strnlen m s n = Some r -> strnlen m' s n = Some r.
Proof.
  unfold strnlen. intros Hm. destruct (strnlen_loop _ m s) as [e|] eqn:E; [|done].
  by rewrite (strnlen_loop_mono _ _ _ _ _ Hm E).
Qed.

Section simulation.
Context (m0 ro : mem) (buf end_ : Z) (Hend : buf <= end_).
(** The readable memory is part of the memory and outside the buffer. *)
Context (Hro : forall a v, ro !! a = Some v -> m0 !! a = Some v /\ ~ (buf <= a < end_)).

Record Sim (b : buffer) (t : text) : Prop := {
  sim_buf : b_buf b = buf;
  sim_end : b_end b = end_;
  sim_str : b_str b = buf + Z.of_nat (length (t_out t));
  sim_ro : t_mem t = ro;
  sim_out : forall a, ~ (buf <= a < end_) -> b_mem b !! a = m0 !! a;
  sim_alloc : forall a, buf <= a < end_ -> is_Some (b_mem b !! a);
  sim_text : forall i c, t_out t !! i = Some c -> buf + Z.of_nat i < end_ -> b_mem b !! (buf + Z.of_nat i) = Some c }.

(** Related states, with equal values next to them. *)
Definition Sim2 {V} (x : buffer * V) (y : text * V) : Prop := Sim (fst x) (fst y) /\ snd x = snd y.

Lemma sim_addch b t c : Sim b t -> simo Sim (addch b c) (addch t c).
Proof using Hend.
  intros [H1 H2 H3 H4 H5 H6 H7] ? [= <-]. cbn [addch buffer_sink]. unfold ADDCH. rewrite H2.
  destruct (Z.ltb_spec (b_str b) end_) as [Hlt|Hge].
  - rewrite store_Some by (apply H6; lia). cbn [mbind option_bind]. eexists. split; [done|].
    split; simpl; try done.
    + rewrite length_app. simpl. lia.
    + intros a Ha. rewrite lookup_insert_ne by lia. auto.
    + intros a Ha. apply insert_alloc. auto.
    + intros i x Hi Hb. apply lookup_app_Some in Hi as [Hi|[Hlen Hi]].
      * pose proof (lookup_lt_Some _ _ _ Hi). rewrite lookup_insert_ne by lia. auto.
      * apply list_lookup_singleton_Some in Hi as [Hi <-].
        replace (buf + Z.of_nat i) with (b_str b) by lia. apply lookup_insert_eq.
  - eexists. split; [done|]. split; simpl; try done; [rewrite length_app; simpl; lia|].
    intros i x Hi Hb. apply lookup_app_Some in Hi as [Hi|[Hlen Hi]]; [auto | lia].
Qed.

Lemma sim_view b t : Sim b t -> forall a v, view t !! a = Some v -> view b !! a = Some v.
Proof using Hro.
  intros [H1 H2 H3 H4 H5 H6 H7] a v Hv. cbn [view buffer_sink text_sink] in *. rewrite H4 in Hv.
  destruct (Hro a v Hv) as [Hm Hn]. by rewrite H5.
Qed.

Lemma sim_load b t a : Sim b t -> simo eq (load (view b) a) (load (view t) a).
Proof using Hro. intros HS v Hv. exists v. split; [by apply (sim_view b t) | done]. Qed.

Lemma sim_addchs s : forall b t, Sim b t -> simo Sim (addchs b s) (addchs t s).
Proof using Hend.
  induction s as [|c s IH]; intros b t HS; cbn [addchs]; [by apply simo_some|].
  eapply simo_bind; [by apply sim_addch | auto].
Qed.
(** Walks through two runs of the same code. *)
Ltac sim_step :=
  lazymatch goal with
  | |- simo _ (Some _) (Some _) => apply simo_some
  | |- simo _ _ None => apply simo_none
  | |- simo _ (if ?c then _ else _) (if ?c then _ else _) => destruct c
  | |- simo _ (let '(_, _) := ?x in _) (let '(_, _) := ?x in _) => destruct x
  | |- simo _ (addchs _ _) (addchs _ _) => apply sim_addchs; assumption
  | |- simo _ (addch _ _) (addch _ _) => apply sim_addch; assumption
  | |- Sim2 _ _ => split; [assumption | reflexivity]
  end.

Lemma sim_pad b t c size : Sim b t -> simo Sim2 (pad_field b c size) (pad_field t c size).
Proof using Hend.
  intros HS. unfold pad_field. eapply simo_bind; [by apply sim_addchs|]. intros b' t' HS'. by repeat sim_step.
Qed.

(** A bind of an operation on the state that returns a value too. *)
Lemma simo_bind2 {V A B} (R : A -> B -> Prop) (x : option (buffer * V)) (y : option (text * V)) f g :
  simo Sim2 x y -> (forall b t v, Sim b t -> simo R (f (b, v)) (g (t, v))) -> simo R (x ≫= f) (y ≫= g).
Proof.
  intros Hxy Hfg. eapply simo_bind; [done|]. intros [b v] [t v'] [HS E]. cbn [fst snd] in *. subst. auto.
Qed.

Lemma sim_optional_pad b t c size (d : bool) : Sim b t ->
  simo Sim2 (if d then pad_field b c size else Some (b, size)) (if d then pad_field t c size else Some (t, size)).
Proof using Hend. intros HS. destruct d; [by apply sim_pad | by repeat sim_step]. Qed.

Lemma sim_number b t num base size precision type : Sim b t ->
  simo Sim (number b num base size precision type) (number t num base size precision type).
Proof using Hend.
  intros HS. unfold number. destruct (if has_flag _ SIGN then _ else _) as [[sign n] sz].
  apply simo_same. intros tmp _. apply simo_bind2; [by apply sim_optional_pad|]. clear dependent b t. intros b t v HS.
  eapply simo_bind; [by repeat sim_step|]. clear dependent b t. intros b t HS.
  eapply simo_bind. { destruct (_ && _); [|by repeat sim_step].
    eapply simo_bind; [by apply sim_addch|]. intros b' t' HS'. by repeat sim_step. }
  clear dependent b t. intros b t HS. apply simo_bind2; [by apply sim_optional_pad|]. clear dependent b t. intros b t w HS.
  eapply simo_bind; [by apply sim_addchs|]. clear dependent b t. intros b t HS.
  eapply simo_bind; [by apply sim_addchs|]. clear dependent b t. intros b t HS.
  apply simo_bind2; [by apply sim_pad|]. clear dependent b t. intros b t u HS. by repeat sim_step.
Qed.

Lemma sim_pad_width b t len fw : Sim b t -> simo Sim2 (pad_width b len fw) (pad_width t len fw).
Proof using Hend.
  intros HS. unfold pad_width. eapply simo_bind; [by apply sim_addchs|]. intros b' t' HS'. by repeat sim_step.
Qed.

Lemma sim_optional_width b t len fw (d : bool) : Sim b t ->
  simo Sim2 (if d then pad_width b len fw else Some (b, fw)) (if d then pad_width t len fw else Some (t, fw)).
Proof using Hend. intros HS. destruct d; [by apply sim_pad_width | by repeat sim_step]. Qed.

Lemma sim_string_lit b t s fw precision flags : Sim b t ->
  simo Sim (string_lit b s fw precision flags) (string_lit t s fw precision flags).
Proof using Hend.
  intros HS. unfold string_lit. apply simo_bind2; [by apply sim_optional_width|]. clear dependent b t. intros b t w HS.
  eapply simo_bind; [by apply sim_addchs|]. clear dependent b t. intros b t HS.
  apply simo_bind2; [by apply sim_pad_width|]. clear dependent b t. intros b t w' HS. by repeat sim_step.
Qed.

Lemma sim_add_from n : forall b t s, Sim b t -> simo Sim (add_from n b s) (add_from n t s).
Proof using Hend Hro.
  induction n as [|n IH]; intros b t s HS; cbn [add_from]; [by repeat sim_step|].
  eapply simo_bind; [by apply sim_load|]. intros c ? <-.
  eapply simo_bind; [by apply sim_addch|]. auto.
Qed.

Lemma sim_sub b t : Sim b t -> view t ⊆ view b.
Proof using Hro. intros HS. apply map_subseteq_spec. by apply sim_view. Qed.

Lemma sim_string b t s fw precision flags : Sim b t ->
  simo Sim (string b s fw precision flags) (string t s fw precision flags).
Proof using Hend Hro.
  intros HS. unfold string. destruct (s =? NULL); [by apply sim_string_lit|].
  eapply simo_bind with (R := eq).
  { pose proof (sim_sub b t HS) as Hsub.
    destruct (precision <? 0); intros r Hr; exists r; (split; [|done]);
      [by apply (strlen_mono (view t)) | by apply (strnlen_mono (view t))]. }
  intros len ? <-. apply simo_bind2; [by apply sim_optional_width|]. clear dependent b t. intros b t w HS.
  eapply simo_bind; [by apply sim_add_from|]. clear dependent b t. intros b t HS.
  apply simo_bind2; [by apply sim_pad_width|]. clear dependent b t. intros b t w' HS. by repeat sim_step.
Qed.

Lemma sim_hex_bytes b t : Sim b t -> forall n addr, simo eq (hex_bytes n (view b) addr) (hex_bytes n (view t) addr).
Proof using Hro.
  intros HS n. induction n as [|n IH]; intros addr; cbn [hex_bytes]; [by apply simo_some|].
  eapply simo_bind; [by apply sim_load|]. intros c ? <-. apply simo_same. intros h _.
  eapply simo_bind with (R := eq); [apply IH|]. intros x ? <-. by apply simo_some.
Qed.

Lemma sim_hex_groups b t w colon : Sim b t -> forall n addr,
  simo eq (hex_groups n w (view b) addr colon) (hex_groups n w (view t) addr colon).
Proof using Hro.
  intros HS n. induction n as [|n IH]; intros addr; cbn [hex_groups]; [by apply simo_some|].
  eapply simo_bind; [by apply sim_hex_bytes|]. intros g ? <-.
  eapply simo_bind with (R := eq); [apply IH|]. intros r ? <-. by apply simo_some.
Qed.

Lemma sim_ip4_groups b t : Sim b t -> forall n addr, simo eq (ip4_groups n (view b) addr) (ip4_groups n (view t) addr).
Proof using Hro.
  intros HS n. induction n as [|n IH]; intros addr; cbn [ip4_groups]; [by apply simo_some|].
  eapply simo_bind; [by apply sim_load|]. intros c ? <-.
  eapply simo_bind with (R := eq); [apply IH|]. intros r ? <-. by apply simo_some.
Qed.

Lemma sim_load_word b t a : Sim b t -> simo eq (va_load_word (view b) a) (va_load_word (view t) a).
Proof using Hro.
  intros HS. unfold va_load_word. do 4 (eapply simo_bind; [by apply sim_load|]; intros ? ? <-). by apply simo_some.
Qed.

Lemma sim_pointer fmt b t p fw precision flags : Sim b t ->
  simo Sim (pointer fmt b p fw precision flags) (pointer fmt t p fw precision flags).
Proof using Hend Hro.
  intros HS. unfold pointer.
  assert (Hplain : forall num w fl, simo Sim
    (let '(w, fl) := if w =? -1 then (8, Z.lor (Z.lor fl SMALL) ZEROPAD) else (w, Z.lor fl SMALL) in number b num 16 w precision fl)
    (let '(w, fl) := if w =? -1 then (8, Z.lor (Z.lor fl SMALL) ZEROPAD) else (w, Z.lor fl SMALL) in number t num 16 w precision fl)).
  { intros num w fl. destruct (if w =? -1 then _ else _). by apply sim_number. }
  destruct (_ =? 97). { eapply simo_bind; [by apply sim_load_word|]. intros n ? <-. apply Hplain. }
  destruct (_ || _).
  { unfold mac_address_string. eapply simo_bind; [by apply sim_hex_groups|]. intros s ? <-. by apply sim_string_lit. }
  destruct (_ || _); [|apply Hplain]. destruct (_ =? 54).
  { unfold ip6_addr_string. eapply simo_bind; [by apply sim_hex_groups|]. intros s ? <-. by apply sim_string_lit. }
  destruct (_ =? 52); [|apply Hplain].
  unfold ip4_addr_string. eapply simo_bind; [by apply sim_ip4_groups|]. intros s ? <-. by apply sim_string_lit.
Qed.

(** Related states, with the same rest of the format and of the arguments. *)
Definition Sim3 (x : buffer * cstr * list varg) (y : text * cstr * list varg) : Prop :=
  Sim (fst (fst x)) (fst (fst y)) /\ snd (fst x) = snd (fst y) /\ snd x = snd y.

Lemma sim_pad_char b t fw : Sim b t -> simo Sim2 (pad_char b fw) (pad_char t fw).
Proof using Hend.
  intros HS. unfold pad_char. eapply simo_bind; [by apply sim_addchs|]. intros b' t' HS'. by repeat sim_step.
Qed.

Lemma sim_done b t (rest : cstr) (args : list varg) : Sim b t -> simo Sim3 (Some (b, rest, args)) (Some (t, rest, args)).
Proof. intros HS. by apply simo_some. Qed.

Lemma sim_convert b t fmt args flags fw precision q : Sim b t ->
  simo Sim3 (convert b fmt args flags fw precision q) (convert t fmt args flags fw precision q).
Proof using Hend Hro.
  intros HS. unfold convert. 
  assert (Hint : forall base fl, simo Sim3
    ('(num, args) ← integer_arg q fl args; st ← number b num base fw precision fl; Some (st, drop 1 fmt, args))
    ('(num, args) ← integer_arg q fl args; st ← number t num base fw precision fl; Some (st, drop 1 fmt, args))).
  { intros base fl. apply simo_same. intros [num args'] _.
    eapply simo_bind; [by apply sim_number|]. intros b' t' HS'. by apply sim_done. }
  destruct (_ =? 99).
  { apply simo_bind2.
    { destruct (negb _); [by apply sim_pad_char | by repeat sim_step]. }
    clear dependent b t. intros b t w HS. apply simo_same. intros [z args'] _.
    eapply simo_bind; [by apply sim_addch|]. clear dependent b t. intros b t HS.
    apply simo_bind2; [by apply sim_pad_char|]. clear dependent b t. intros b t w' HS. by apply sim_done. }
  destruct (_ =? 115).
  { apply simo_same. intros [z args'] _. eapply simo_bind; [by apply sim_string|]. intros b' t' HS'. by apply sim_done. }
  destruct (_ =? 112).
  { apply simo_same. intros [z args'] _. eapply simo_bind; [by apply sim_pointer|]. intros b' t' HS'. by apply sim_done. }
  destruct (_ =? 110).
  { apply simo_same. intros [z args'] _. apply simo_none. }
  destruct (_ =? 37).
  { eapply simo_bind; [by apply sim_addch|]. intros b' t' HS'. by apply sim_done. }
  do 5 (match goal with |- simo _ (if ?c then _ else _) _ => destruct c; [apply Hint|] end).
  eapply simo_bind; [by apply sim_addch|]. clear dependent b t. intros b t HS.
  destruct fmt as [|c rest]; [by apply sim_done|].
  eapply simo_bind; [by apply sim_addch|]. intros b' t' HS'. by apply sim_done.
Qed.

Lemma sim_directive b t fmt args : Sim b t -> simo Sim3 (directive b fmt args) (directive t fmt args).
Proof using Hend Hro.
  intros HS. unfold directive. destruct (parse_flags fmt 0) as [flags fmt1].
  apply simo_same. intros [[[fw flags'] fmt2] args2] _. apply simo_same. intros [[precision fmt3] args3] _.
  destruct (parse_qualifier fmt3). by apply sim_convert.
Qed.

Lemma sim_vformat fuel : forall b t fmt args, Sim b t -> simo Sim (vformat fuel b fmt args) (vformat fuel t fmt args).
Proof using Hend Hro.
  induction fuel as [|fuel IH]; intros b t fmt args HS; [apply simo_none|]. cbn [vformat].
  destruct fmt as [|c fmt]; [by repeat sim_step|]. destruct (negb _).
  - eapply simo_bind; [by apply sim_addch | auto].
  - eapply simo_bind; [by apply sim_directive|].
    intros [[b' f1] a1] [[t' f2] a2] (HS' & E1 & E2). cbn [fst snd] in *. subst. auto.
Qed.
End simulation.

Lemma bytes_at_get (m : mem) p l :
  (forall i c, l !! i = Some c -> m !! (p + Z.of_nat i) = Some c) -> bytes_at m p l.
Proof.
  revert p. induction l as [|x l IH]; intros p H; cbn [bytes_at]; [done|]. split.
  - rewrite <- (H 0%nat x eq_refl). f_equal. lia.
  - apply IH. intros i c Hi. rewrite <- (H (S i) c Hi). f_equal. lia.
Qed.

(** The size of the buffer after the check for a wrapped [end]. *)
Definition buffer_size (buf size : Z) : Z := Z.min size (2 ^ 32 - 1 - buf).

Lemma vsnprintf_end buf size : 0 <= buf < 2 ^ 32 -> 0 <= size < 2 ^ 32 ->
  (if u32 (buf + size) <? buf then (u32 (-1), u32 (-1) - buf) else (u32 (buf + size), size)) =
  (buf + buffer_size buf size, buffer_size buf size).
Proof.
  intros Hb Hs. unfold buffer_size. change (u32 (-1)) with (2 ^ 32 - 1).
  destruct (Z.lt_ge_cases (buf + size) (2 ^ 32)).
  - rewrite u32_small by lia. rewrite (proj2 (Z.ltb_ge _ _)), Z.min_l by lia. done.
  - assert (E : u32 (buf + size) = buf + size - 2 ^ 32).
    { unfold u32. replace (buf + size) with (buf + size - 2 ^ 32 + 1 * 2 ^ 32) by lia. rewrite Z.mod_add, Z.mod_small; lia. }
    rewrite E, (proj2 (Z.ltb_lt _ _)), Z.min_r by lia. f_equal. lia.
Qed.

(** The terminator: what the end of the function does to a text that is in the buffer. *)
Lemma terminate m0 ro buf n b t : 0 < n -> (forall a v, ro !! a = Some v -> m0 !! a = Some v /\ ~ (buf <= a < buf + n)) ->
  Sim m0 ro buf (buf + n) b t ->
  exists b1 m', ADDCH b 0 = Some b1 /\
    (if buf + n <? b_str b1 then store (b_mem b1) (buf + n - 1) 0 else Some (b_mem b1)) = Some m' /\
    b_str b1 - 1 - buf = Z.of_nat (length (t_out t)) /\
    (forall a, ~ (buf <= a < buf + n) -> m' !! a = m0 !! a) /\
    bytes_at m' buf (take (Z.to_nat (n - 1)) (t_out t) ++ [0]).
Proof.
  intros Hn Hro HS.
  destruct (sim_addch m0 ro buf (buf + n) ltac:(lia) b t 0 HS _ eq_refl) as (b1 & Hb1 & [S1 S2 S3 S4 S5 S6 S7]).
  cbn [t_out] in *. rewrite length_app in S3. cbn [length] in S3. change (u8 0) with 0 in S7.
  exists b1. destruct (Z.ltb_spec (buf + n) (b_str b1)) as [Hlt|Hge].
  - rewrite store_Some by (apply S6; lia). eexists. split; [done|]. split; [done|]. split; [lia|]. split.
    + intros a Ha. rewrite lookup_insert_ne by lia. auto.
    + apply bytes_at_get. intros i c Hi. apply lookup_app_Some in Hi as [Hi|[Hl Hi]].
      * pose proof (lookup_lt_Some _ _ _ Hi) as Hlen. rewrite length_take in Hlen.
        rewrite lookup_insert_ne by lia. apply S7; [|lia]. rewrite lookup_take_lt in Hi by lia.
        by apply lookup_app_l_Some.
      * rewrite length_take in *. apply list_lookup_singleton_Some in Hi as [Hi <-].
        replace (buf + Z.of_nat i) with (buf + n - 1) by lia. apply lookup_insert_eq.
  - eexists. split; [done|]. split; [done|]. split; [lia|]. split; [done|].
    rewrite take_ge by lia. apply bytes_at_get. intros i c Hi. apply S7; [done|].
    apply lookup_lt_Some in Hi. rewrite length_app in Hi. simpl in Hi. lia.
Qed.

Lemma vsnprintf_spec m ro buf size fmt args out :
  0 <= buf < 2 ^ 32 -> 0 <= size < 2 ^ 32 ->
  allocated m buf (buffer_size buf size) -> ro ⊆ m ->
  (forall a, buf <= a < buf + buffer_size buf size -> ro !! a = None) ->
  render ro fmt args = Some out ->
  exists m', vsnprintf_internal m buf size fmt args = Some (m', Z.of_nat (length out)) /\
    (forall a, ~ (buf <= a < buf + buffer_size buf size) -> m' !! a = m !! a) /\
    (0 < buffer_size buf size -> bytes_at m' buf (take (Z.to_nat (buffer_size buf size - 1)) out ++ [0])).
Proof.
  intros Hbuf Hsize Ha Hsub Hdis Hr. unfold vsnprintf_internal. rewrite vsnprintf_end by done.
  assert (Hn : 0 <= buffer_size buf size) by (unfold buffer_size; lia). set (n := buffer_size buf size) in *.
  unfold render in Hr. destruct (vformat _ _ fmt args) as [t|] eqn:Et; [|done]. injection Hr as <-.
  assert (Hro : forall a v, ro !! a = Some v -> m !! a = Some v /\ ~ (buf <= a < buf + n)).
  { intros a v Hv. split; [by eapply lookup_weaken|]. intros Hin. by rewrite Hdis in Hv. }
  assert (HS0 : Sim m ro buf (buf + n) (mk_buffer m buf buf (buf + n)) (mk_text [] ro)).
  { split; simpl; try done. lia. }
  destruct (sim_vformat m ro buf (buf + n) ltac:(lia) Hro _ _ _ fmt args HS0 t Et) as (b & -> & HS).
  cbn [mbind option_bind]. destruct (Z.ltb_spec 0 n) as [Hpos|Hz].
  - destruct (terminate m ro buf n b t Hpos Hro HS) as (b1 & m' & -> & Hst & Hlen & Hout & Hbytes).
    cbn [mbind option_bind]. rewrite Hst. cbn [mbind option_bind]. exists m'. rewrite Hlen. auto.
  - exists (b_mem b). destruct HS as [S1 S2 S3 S4 S5 S6 S7].
    split; [replace (b_str b - buf) with (Z.of_nat (length (t_out t))) by lia; done|]. split; [done | lia].
Qed.


(** Memory with the given bytes at an address. *)
Definition text_mem (p : Z) (l : list Z) : mem := list_to_map (zip (seqZ p (Z.of_nat (length l))) l).


(** ** The text of a number *)

Definition digit_char (small : bool) (d : Z) : Z :=
  if d <? 10 then d + 48 else if small then d + 87 else d + 55.

Definition sign_text (type num : Z) : list Z :=
  if has_flag type SIGN then
    if s64 num <? 0 then [45] else if has_flag type PLUS then [43] else if has_flag type SPACE then [32] else []
  else [].

(** The absolute value of a signed number. *)
Definition magnitude (type num : Z) : Z := if has_flag type SIGN && (s64 num <? 0) then u64 (- s64 num) else num.

Definition prefix_text (type base : Z) : list Z :=
  if has_flag type SPECIAL && negb (base =? 10)
  then 48 :: (if base =? 16 then [if has_flag type SMALL then 120 else 88] else []) else [].

(** The digits, most significant first. *)
Definition digit_text (type base n : Z) : list Z := rev (map (digit_char (has_flag type SMALL)) (digits base n)).

(** Sign, prefix and digits in a field: filled with zeros up to the precision,
    and up to the width with blanks on the right, zeros after the prefix, or
    blanks on the left. *)
Definition number_text (num base width precision type : Z) : list Z :=
  let sg := sign_text type num in
  let pf := prefix_text type base in
  let ds := digit_text type base (magnitude type num) in
  let zs := replicate (Z.to_nat (precision - Z.of_nat (length ds))) 48 in
  let fill := Z.to_nat (width - Z.of_nat (length (sg ++ pf ++ zs ++ ds))) in
  if has_flag type LEFT then sg ++ pf ++ zs ++ ds ++ replicate fill 32
  else if has_flag type ZEROPAD then sg ++ pf ++ replicate fill 48 ++ zs ++ ds
  else replicate fill 32 ++ sg ++ pf ++ zs ++ ds.

Lemma text_addchs t s : addchs t s = Some (mk_text (t_out t ++ map u8 s) (t_mem t)).
Proof.
  revert t. induction s as [|c s IH]; intros [out m]; cbn [addchs addch text_sink map].
  - by rewrite app_nil_r.
  - cbn [mbind option_bind t_out t_mem]. rewrite IH. cbn [t_out t_mem]. by rewrite <- app_assoc.
Qed.

Lemma locase_cases type : (has_flag type SMALL = true /\ Z.land type SMALL = 32) \/
  (has_flag type SMALL = false /\ Z.land type SMALL = 0).
Proof.
  unfold has_flag, SMALL. change 32 with (2 ^ 5). assert (E : Z.land type (2 ^ 5) = Z.b2z (Z.testbit type 5) * 2 ^ 5).
  { apply Z.bits_inj'. intros i Hi. rewrite Z.land_spec, Z.pow2_bits_eqb by lia.
    destruct (Z.eqb_spec 5 i) as [<-|Hne].
    - rewrite andb_true_r, Z.mul_pow2_bits, Z.sub_diag by lia. symmetry. apply Z.b2z_bit0.
    - rewrite andb_false_r. destruct (Z.testbit type 5); cbn [Z.b2z]; [|by rewrite Z.mul_0_l, Z.bits_0].
      rewrite Z.mul_1_l, Z.pow2_bits_false; [done | lia]. }
  rewrite E. by destruct (Z.testbit type 5); [left | right].
Qed.

(** A digit looked up in the table. *)
Lemma hex_upper_get d (small : bool) : 0 <= d < 16 ->
  exists c, aget hex_upper d = Some c /\ Z.lor c (if small then 32 else 0) = digit_char small d.
Proof.
  intros Hd. assert (Hall : forallb (fun d => match aget hex_upper d with
    | Some c => forallb (fun s : bool => Z.lor c (if s then 32 else 0) =? digit_char s d) [true; false]
    | None => false end) (seqZ 0 16) = true) by reflexivity.
  rewrite forallb_forall in Hall. specialize (Hall d).
  assert (Hin : List.In d (seqZ 0 16)) by (apply list_elem_of_In, elem_of_seqZ; lia). specialize (Hall Hin).
  destruct (aget hex_upper d) as [c|]; [|done]. exists c. split; [done|].
  cbn [forallb] in Hall. rewrite andb_true_r in Hall. apply andb_true_iff in Hall as [H1%Z.eqb_eq H2%Z.eqb_eq].
  by destruct small.
Qed.

Lemma put_pow2_spec k (small : bool) fuel : 0 < k <= 4 -> forall n, 0 <= n < 2 ^ (k * Z.of_nat fuel) -> (0 < fuel)%nat ->
  exists ds, put_pow2 fuel n (2 ^ k - 1) k (if small then 32 else 0) = Some (map (digit_char small) ds) /\
    numeral (2 ^ k) n ds.
Proof.
  intros Hk. assert (Hbase : 2 <= 2 ^ k <= 16).
  { change 2 with (2 ^ 1) at 1. change 16 with (2 ^ 4). split; apply Z.pow_le_mono_r; lia. }
  induction fuel as [|fuel IH]; intros n Hn Hf; [lia|]. cbn [put_pow2].
  assert (Hland : Z.land (u8 n) (2 ^ k - 1) = n mod 2 ^ k).
  { replace (2 ^ k - 1) with (Z.ones k) by (rewrite Z.ones_equiv; lia). rewrite Z.land_ones by lia.
    unfold u8. apply Z.mod_mod_divide. exists (2 ^ (8 - k)). rewrite <- Z.pow_add_r by lia. f_equal. lia. }
  rewrite Hland, Z.shiftr_div_pow2 by lia.
  pose proof (Z.div_mod n (2 ^ k) ltac:(lia)) as Hdm. pose proof (Z.mod_pos_bound n (2 ^ k) ltac:(lia)) as Hm.
  destruct (hex_upper_get (n mod 2 ^ k) small) as (c & -> & Hc); [lia|]. cbn [mbind option_bind]. rewrite Hc.
  destruct (Z.eqb_spec (n / 2 ^ k) 0) as [Hz|Hz]; cbn [mbind option_bind].
  - exists [n mod 2 ^ k]. split; [done|]. split; [cbn [eval]; lia | by apply one_digit|].
    destruct (Z.eq_dec (n mod 2 ^ k) 0) as [->|]; [by left | right; by exists [], (n mod 2 ^ k)].
  - assert (Hq : 0 < n / 2 ^ k < 2 ^ (k * Z.of_nat fuel)).
    { split; [pose proof (Z.div_pos n (2 ^ k)); lia|]. apply Z.div_lt_upper_bound; [lia|].
      rewrite <- Z.pow_add_r by lia. replace (k + k * Z.of_nat fuel) with (k * Z.of_nat (S fuel)) by lia. lia. }
    destruct fuel as [|fuel]; [rewrite Z.mul_0_r in Hq; simpl in Hq; lia|].
    destruct (IH (n / 2 ^ k)) as (ds & -> & Hds); [lia | lia|]. cbn [mbind option_bind].
    exists (n mod 2 ^ k :: ds). split; [done|].
    pose proof (numeral_app (2 ^ k) (n / 2 ^ k) [n mod 2 ^ k] ds) as Ha. cbn [eval length app] in Ha.
    rewrite Z.mul_0_r, Z.add_0_r, Z.pow_1_r, Z.add_comm, <- Hdm in Ha.
    apply Ha; [lia | by apply one_digit | lia | done].
Qed.

Lemma numeral_length k base n ds : (0 < k)%nat -> 2 <= base -> numeral base n ds -> n < base ^ Z.of_nat k -> (length ds <= k)%nat.
Proof.
  intros Hk Hb [Hv Hd Hl] Hn. destruct Hl as [->|(l & x & -> & Hx)]; [simpl; lia|].
  pose proof Hd as [Hl' Hx']%Forall_app. apply Forall_cons_iff in Hx' as [Hx' _]. unfold digit_ok in Hx'.
  rewrite eval_app in Hv. cbn [eval] in Hv. pose proof (eval_nonneg base l Hb Hl').
  rewrite length_app. simpl. destruct (le_lt_dec (length l + 1) k) as [|Hgt]; [done|].
  assert (base ^ Z.of_nat k <= base ^ Z.of_nat (length l)) by (apply Z.pow_le_mono_r; lia). nia.
Qed.

(** The digits in [tmp]. *)
Lemma number_tmp_spec n base type : 0 <= n < 2 ^ 64 -> base = 8 \/ base = 10 \/ base = 16 ->
  number_tmp n base (Z.land type SMALL) = Some (map (digit_char (has_flag type SMALL)) (digits base n)).
Proof.
  intros Hn Hb. assert (Hb2 : 2 <= base) by lia. unfold number_tmp.
  pose proof (digits_numeral base n Hb2 Hn) as Hnum.
  assert (Htmp : (if n =? 0 then Some [48]
     else if negb (base =? 10) then put_pow2 22 n (base - 1) (if base =? 16 then 4 else 3) (Z.land type SMALL)
     else put_dec n) = Some (map (digit_char (has_flag type SMALL)) (digits base n))).
  { destruct (Z.eqb_spec n 0) as [->|Hne].
    { rewrite (numeral_unique base (digits base 0) 0 [0] Hb2 Hnum); [done|].
      split; [cbn [eval]; lia | apply one_digit; unfold digit_ok; lia | by left]. }
    replace (Z.land type SMALL) with (if has_flag type SMALL then 32 else 0)
      by (by destruct (locase_cases type) as [[-> ->]|[-> ->]]).
    destruct Hb as [->|[->| ->]]; cbn [Z.eqb negb Pos.eqb].
    - destruct (put_pow2_spec 3 (has_flag type SMALL) 22 ltac:(lia) n) as (ds & Hp & Hds); [change (2 ^ (3 * Z.of_nat 22)) with (2 ^ 66); lia | lia|].
      change (8 - 1) with (2 ^ 3 - 1). rewrite Hp. do 2 f_equal. by apply (numeral_unique 8 ds n).
    - rewrite put_dec_spec by done. f_equal. apply map_ext_Forall.
      eapply Forall_impl; [|exact (num_digits _ _ _ Hnum)]. intros d Hd. unfold digit_ok in Hd.
      rewrite chr_digit by lia. unfold digit_char. by rewrite (proj2 (Z.ltb_lt d 10)) by lia.
    - destruct (put_pow2_spec 4 (has_flag type SMALL) 22 ltac:(lia) n) as (ds & Hp & Hds); [change (2 ^ (4 * Z.of_nat 22)) with (2 ^ 88); lia | lia|].
      change (16 - 1) with (2 ^ 4 - 1). rewrite Hp. do 2 f_equal. by apply (numeral_unique 16 ds n). }
  rewrite Htmp. cbn [mbind option_bind]. rewrite length_map.
  assert (Hlen : (length (digits base n) <= 66)%nat).
  { apply (numeral_length 66 base n); [lia | done | done |].
    assert (2 ^ Z.of_nat 66 <= base ^ Z.of_nat 66) by (apply Z.pow_le_mono_l; lia).
    change (2 ^ Z.of_nat 66) with 73786976294838206464 in *. lia. }
  by rewrite (proj2 (Nat.leb_le _ _) Hlen).
Qed.

Lemma digit_char_byte small d : 0 <= d < 16 -> 48 <= digit_char small d < 128.
Proof. intros Hd. unfold digit_char. destruct (Z.ltb_spec d 10); [|destruct small]; lia. Qed.

Lemma map_u8_small s : Forall (fun c => 0 <= c < 256) s -> map u8 s = s.
Proof. induction 1 as [|c s Hc Hs IH]; cbn [map]; [done|]. rewrite u8_small by lia. by f_equal. Qed.

Lemma replicate_bytes n c : 0 <= c < 256 -> Forall (fun c => 0 <= c < 256) (replicate n c).
Proof. intros Hc. by apply Forall_replicate. Qed.

Lemma digit_text_bytes type base n : base = 8 \/ base = 10 \/ base = 16 -> 0 <= n < 2 ^ 64 ->
  Forall (fun c => 0 <= c < 256) (digit_text type base n).
Proof.
  intros Hb Hn. unfold digit_text. apply Forall_rev, Forall_map.
  eapply Forall_impl; [|apply (num_digits base n), digits_numeral; lia].
  intros d Hd. unfold digit_ok in Hd. pose proof (digit_char_byte (has_flag type SMALL) d). lia.
Qed.

(** [pad_field] on the text. *)
Lemma text_pad t c size : 0 <= c < 256 ->
  pad_field t c size = Some (mk_text (t_out t ++ replicate (Z.to_nat size) c) (t_mem t), Z.min size 0 - 1).
Proof.
  intros Hc. unfold pad_field. rewrite text_addchs, map_u8_small by (by apply replicate_bytes). done.
Qed.

Lemma magnitude_range type num : 0 <= num < 2 ^ 64 -> 0 <= magnitude type num < 2 ^ 64.
Proof. intros Hn. unfold magnitude. destruct (_ && _); [apply u64_range | done]. Qed.

(** Clearing the bit for zero padding keeps the other flags. *)
Lemma clear_zeropad type f : f = SIGN \/ f = PLUS \/ f = SPACE \/ f = LEFT ->
  has_flag (Z.land type (Z.lnot ZEROPAD)) f = has_flag type f.
Proof. intros Hf. unfold has_flag. rewrite <- Z.land_assoc. by destruct Hf as [->|[->|[->| ->]]]. Qed.

Lemma clear_zeropad_zero type : has_flag (Z.land type (Z.lnot ZEROPAD)) ZEROPAD = false.
Proof. unfold has_flag. rewrite <- Z.land_assoc. change (Z.land (Z.lnot ZEROPAD) ZEROPAD) with 0. by rewrite Z.land_0_r. Qed.

Lemma has_zeropad_left type : has_flag type (ZEROPAD + LEFT) = has_flag type ZEROPAD || has_flag type LEFT.
Proof.
  unfold has_flag. change (ZEROPAD + LEFT) with (Z.lor ZEROPAD LEFT). rewrite Z.land_lor_distr_r.
  destruct (Z.eqb_spec (Z.land type ZEROPAD) 0) as [->|H1]; [done|].
  rewrite (proj2 (Z.eqb_neq _ _)); [done|]. intros H%Z.lor_eq_0_iff. tauto.
Qed.

(** The flags after the first statements of [number]. *)
Lemma effective_flags type :
  let type' := if has_flag type LEFT then Z.land type (Z.lnot ZEROPAD) else type in
  (forall f, f = SIGN \/ f = PLUS \/ f = SPACE \/ f = LEFT -> has_flag type' f = has_flag type f) /\
  has_flag type' ZEROPAD = negb (has_flag type LEFT) && has_flag type ZEROPAD.
Proof.
  cbn zeta. destruct (has_flag type LEFT); cbn [negb andb]; [|done].
  split; [apply clear_zeropad | apply clear_zeropad_zero].
Qed.

Lemma text_sign t type num :
  (if negb (default 0 (list.head (sign_text type num)) =? 0) then addch t (default 0 (list.head (sign_text type num))) else Some t) =
  Some (mk_text (t_out t ++ sign_text type num) (t_mem t)).
Proof. destruct t. unfold sign_text. repeat case_match; cbn; rewrite ?app_nil_r; done. Qed.

Lemma text_prefix t type base :
  (if has_flag type SPECIAL && negb (base =? 10) then
     st ← addch t 48; if base =? 16 then addch st (Z.lor 88 (Z.land type SMALL)) else Some st
   else Some t) = Some (mk_text (t_out t ++ prefix_text type base) (t_mem t)).
Proof.
  unfold prefix_text. destruct (_ && _); [|destruct t; cbn; by rewrite app_nil_r].
  cbn [addch text_sink mbind option_bind t_out t_mem]. destruct (base =? 16); cbn [t_out t_mem]; [|done].
  rewrite <- app_assoc. by destruct (locase_cases type) as [[-> ->]|[-> ->]].
Qed.

Lemma number_spec t num base width precision type : base = 8 \/ base = 10 \/ base = 16 -> 0 <= num < 2 ^ 64 ->
  number t num base width precision type =
    Some (mk_text (t_out t ++ number_text num base width precision type) (t_mem t)).
Proof.
  intros Hb Hn. pose proof (magnitude_range type num Hn) as Hm.
  unfold number, number_text. destruct (effective_flags type) as [Hf Hz]. cbn zeta in Hf, Hz.
  set (type' := if has_flag type LEFT then Z.land type (Z.lnot ZEROPAD) else type) in *.
  rewrite has_zeropad_left, !Hf, Hz by tauto.
  assert (Hsign : (if has_flag type SIGN then
      if s64 num <? 0 then (45, u64 (- s64 num), width - 1)
      else if has_flag type PLUS then (43, num, width - 1)
      else if has_flag type SPACE then (32, num, width - 1) else (0, num, width)
    else (0, num, width)) =
    (default 0 (list.head (sign_text type num)), magnitude type num, width - Z.of_nat (length (sign_text type num)))).
  { unfold sign_text, magnitude. repeat case_match; cbn; do 2 f_equal; lia. }
  rewrite Hsign. clear Hsign Hf Hz. clearbody type'.
  rewrite number_tmp_spec by done. cbn [mbind option_bind].
  set (sg := sign_text type num). set (pf := prefix_text type base).
  set (ds := digit_text type base (magnitude type num)).
  replace (map (digit_char (has_flag type SMALL)) (digits base (magnitude type num))) with (rev ds)
    by (unfold ds, digit_text; apply rev_involutive).
  rewrite length_rev, rev_involutive.
  assert (Hds : map u8 ds = ds) by (by apply map_u8_small, digit_text_bytes).
  assert (Hpf : (if has_flag type SPECIAL && negb (base =? 10) then
      if base =? 16 then width - Z.of_nat (length sg) - 1 - 1 else width - Z.of_nat (length sg) - 1
      else width - Z.of_nat (length sg)) = width - Z.of_nat (length sg) - Z.of_nat (length pf)).
  { unfold pf, prefix_text. repeat case_match; cbn [length]; lia. }
  rewrite Hpf. clear Hpf. set (size := width - Z.of_nat (length sg) - Z.of_nat (length pf)).
  set (prec := if precision <? Z.of_nat (length ds) then Z.of_nat (length ds) else precision).
  set (zs := replicate (Z.to_nat (precision - Z.of_nat (length ds))) 48).
  assert (Hprec : Z.to_nat (prec - Z.of_nat (length ds)) = length zs /\ prec = Z.of_nat (length zs) + Z.of_nat (length ds)).
  { unfold prec, zs. rewrite length_replicate. destruct (Z.ltb_spec precision (Z.of_nat (length ds))); lia. }
  destruct Hprec as [Hp1 Hp2]. rewrite Hp1.
  assert (Hzs : replicate (length zs) 48 = zs) by (unfold zs; by rewrite length_replicate). rewrite Hzs.
  assert (Hzu : map u8 zs = zs) by (by apply map_u8_small, replicate_bytes).
  assert (Hfill : Z.to_nat (size - prec) = Z.to_nat (width - Z.of_nat (length (sg ++ pf ++ zs ++ ds)))).
  { unfold size. rewrite Hp2, !length_app. lia. }
  clearbody size prec zs ds. rewrite <- Hfill.
  destruct (has_flag type LEFT); cbn [negb andb orb]; [|destruct (has_flag type ZEROPAD); cbn [negb orb]];
    rewrite ?orb_true_r; cbn [negb]; rewrite ?text_pad by lia; cbn [mbind option_bind];
    unfold sg; rewrite text_sign; cbn [mbind option_bind]; rewrite text_prefix; cbn [mbind option_bind];
    rewrite ?text_pad by lia; cbn [mbind option_bind]; rewrite !text_addchs; cbn [mbind option_bind];
    rewrite !text_addchs, Hds, Hzu; cbn [mbind option_bind]; rewrite text_pad by lia; cbn [mbind option_bind t_out t_mem];
    fold sg; fold pf; rewrite <- ?app_assoc; do 2 f_equal;
    try (replace (Z.to_nat (Z.min (size - prec) 0 - 1)) with 0%nat by lia);
    try (replace (Z.to_nat (Z.min (Z.min (size - prec) 0 - 1) 0 - 1)) with 0%nat by lia); cbn [replicate];
    rewrite ?app_nil_r; done.
Qed.

(** C19: [number] formats every 64-bit number in base 8, 10 or 16 the way the
    flags, the width and the precision ask: a minus sign exactly for a
    negative signed number and the plus sign or blank on request, the prefix
    0, 0x or 0X, the numeral of the absolute value without superfluous zeros,
    zeros up to the precision, and padding up to the width on the side that
    the flags select. *)
Theorem number_correct t num base width precision type : base = 8 \/ base = 10 \/ base = 16 -> 0 <= num < 2 ^ 64 ->
  number t num base width precision type =
    Some (mk_text (t_out t ++ number_text num base width precision type) (t_mem t)) /\
  numeral base (magnitude type num) (digits base (magnitude type num)).
Proof.
  intros Hb Hn. split; [by apply number_spec|]. apply digits_numeral; [lia | by apply magnitude_range].
Qed.

Lemma number_correct_witness :
  number (mk_text [] ∅) (2 ^ 64 - 255) 10 8 (-1) (SIGN + ZEROPAD) = Some (mk_text (str "-0000255") ∅) /\
  numeral 10 255 (digits 10 255).
Proof.
  destruct (number_correct (mk_text [] ∅) (2 ^ 64 - 255) 10 8 (-1) (SIGN + ZEROPAD)) as [H1 H2]; [lia | lia|].
  split; [exact H1 | exact H2].
Defined.

(** ** Reading back what was printed *)

Lemma digit_char_reads small d : 0 <= d < 16 -> isxdigit (digit_char small d) = true /\ digit_value (digit_char small d) = d.
Proof.
  intros Hd. assert (Hall : forallb (fun d => forallb (fun s => isxdigit (digit_char s d) && (digit_value (digit_char s d) =? d))
    [true; false]) (seqZ 0 16) = true) by reflexivity.
  rewrite forallb_forall in Hall. specialize (Hall d).
  assert (Hin : List.In d (seqZ 0 16)) by (apply list_elem_of_In, elem_of_seqZ; lia). specialize (Hall Hin).
  cbn [forallb] in Hall. rewrite andb_true_r in Hall. apply andb_true_iff in Hall as [H1 H2].
  apply andb_true_iff in H1 as [? ?%Z.eqb_eq], H2 as [? ?%Z.eqb_eq]. by destruct small.
Qed.

Lemma digit_text_spells type base n : 2 <= base <= 16 -> 0 <= n < 2 ^ 64 ->
  spells base (digit_text type base n) (digits base n).
Proof.
  intros Hb Hn. unfold spells, digit_text. rewrite <- map_rev.
  pose proof (num_digits base n _ (digits_numeral base n ltac:(lia) Hn)) as Hd. apply Forall_rev in Hd.
  induction Hd as [|d ds Hd Hds IH]; cbn [map]; constructor; [|done].
  unfold digit_ok in *. destruct (digit_char_reads (has_flag type SMALL) d); [lia | done].
Qed.

(** The first character of a numeral is a zero for zero only. *)
Lemma digit_text_head type base n : 2 <= base <= 16 -> 0 < n < 2 ^ 64 ->
  exists c s, digit_text type base n = c :: s /\ c <> 48 /\ c <> 45.
Proof.
  intros Hb Hn. unfold digit_text. destruct (digits_numeral base n ltac:(lia) ltac:(lia)) as [Hv Hd Hl].
  destruct Hl as [E|(l & d & E & Hx)]; rewrite E in *; [cbn [eval] in Hv; lia|].
  rewrite map_app, rev_app_distr. cbn [map rev app]. eexists _, _. split; [done|].
  apply Forall_app in Hd as [_ [Hd _]%Forall_cons_iff]. unfold digit_ok in Hd. unfold digit_char.
  destruct (Z.ltb_spec d 10); [|destruct (has_flag type SMALL)]; lia.
Qed.

Lemma digit_text_0 type base : 2 <= base -> digit_text type base 0 = [48].
Proof.
  intros Hb. unfold digit_text. rewrite (numeral_unique base (digits base 0) 0 [0] Hb); [done | apply digits_numeral; lia|].
  split; [cbn [eval]; lia | apply one_digit; unfold digit_ok; lia | by left].
Qed.

(** A numeral in the base that is asked for is read completely. *)
Lemma read_digits type base n : base = 10 \/ base = 16 -> 0 <= n < 2 ^ 32 ->
  simple_strtoul (digit_text type base n) base = (n, []).
Proof.
  intros Hb Hn. destruct (Z.eq_dec n 0) as [->|Hne].
  { rewrite digit_text_0 by lia. by destruct Hb as [-> | ->]. }
  destruct (digit_text_head type base n) as (c & s & E & Hc & _); [lia | lia|].
  destruct (strtoul_spec (digit_text type base n) (digit_text type base n) base base (digit_text type base n)
    (digits base n) []) as [H1 _].
  - rewrite E. unfold strto_prefix. rewrite deref_cons, (proj2 (Z.eqb_neq c 48) Hc). by destruct Hb as [-> | ->].
  - by rewrite app_nil_r.
  - apply digit_text_spells; lia.
  - done.
  - rewrite H1, (num_value base n) by (apply digits_numeral; lia). by rewrite u32_small by lia.
Qed.

Lemma read_strict s base n : s <> [] -> simple_strtoul s base = (n, []) -> strict_strtoul s base = (0, n).
Proof. intros Hs Hr. unfold strict_strtoul. rewrite Hr. by destruct s. Qed.

Lemma digit_text_nonempty type base n : 2 <= base <= 16 -> 0 <= n < 2 ^ 64 -> digit_text type base n <> [].
Proof.
  intros Hb Hn. destruct (Z.eq_dec n 0) as [->|]; [by rewrite digit_text_0 by lia|].
  destruct (digit_text_head type base n) as (c & s & -> & _); [lia | lia | done].
Qed.

(** A number in a field without width and precision. *)
Lemma number_text_plain num base type : has_flag type SIGN = false ->
  number_text num base (-1) (-1) type = prefix_text type base ++ digit_text type base num.
Proof.
  intros Hs. unfold number_text, sign_text, magnitude. rewrite Hs. cbn [andb app].
  set (ds := digit_text type base num). set (pf := prefix_text type base).
  replace (Z.to_nat (-1 - Z.of_nat (length ds))) with 0%nat by lia. cbn [replicate app].
  replace (Z.to_nat (-1 - Z.of_nat (length (pf ++ ds)))) with 0%nat by lia. cbn [replicate app].
  rewrite app_nil_r. by repeat case_match.
Qed.

Lemma number_text_signed num : 0 <= num < 2 ^ 64 ->
  number_text num 10 (-1) (-1) SIGN =
  (if s64 num <? 0 then [45] else []) ++ digit_text SIGN 10 (if s64 num <? 0 then u64 (- s64 num) else num).
Proof.
  intros Hn. unfold number_text, sign_text, magnitude, prefix_text.
  change (has_flag SIGN SIGN) with true. change (has_flag SIGN PLUS) with false. change (has_flag SIGN SPACE) with false.
  change (has_flag SIGN SPECIAL) with false. change (has_flag SIGN LEFT) with false. change (has_flag SIGN ZEROPAD) with false.
  cbn [andb]. set (n := if s64 num <? 0 then u64 (- s64 num) else num). set (ds := digit_text SIGN 10 n).
  replace (Z.to_nat (-1 - Z.of_nat (length ds))) with 0%nat by lia. cbn [replicate app].
  set (sg := if s64 num <? 0 then [45] else []).
  replace (Z.to_nat (-1 - Z.of_nat (length (sg ++ ds)))) with 0%nat by lia. done.
Qed.

(** A format of one conversion. *)
Lemma render_one m fmt args x : directive (mk_text [] m) fmt args = (st ← x; Some (st, [], [])) ->
  render m (37 :: fmt) args = t_out <$> x.
Proof. intros Hd. unfold render. cbn [length vformat Z.eqb Pos.eqb negb]. rewrite Hd. by destruct x. Qed.

Lemma render_unsigned m n : render m (str "%u") [word n] =
  t_out <$> number (mk_text [] m) (u32 n) 10 (-1) (-1) 0.
Proof. by apply render_one. Qed.

Lemma render_hex m n : render m (str "%x") [word n] =
  t_out <$> number (mk_text [] m) (u32 n) 16 (-1) (-1) SMALL.
Proof. by apply render_one. Qed.

Lemma render_hex_prefix m n : render m (str "%#x") [word n] =
  t_out <$> number (mk_text [] m) (u32 n) 16 (-1) (-1) (SPECIAL + SMALL).
Proof. by apply render_one. Qed.

Lemma render_signed m n : render m (str "%d") [word n] =
  t_out <$> number (mk_text [] m) (u64 (s32 n)) 10 (-1) (-1) SIGN.
Proof. by apply render_one. Qed.

Lemma read_signed n : 0 <= n < 2 ^ 32 ->
  simple_strtol (number_text (u64 (s32 n)) 10 (-1) (-1) SIGN) 10 = (s32 n, []).
Proof.
  intros Hn. pose proof (s32_range n) as Hr. rewrite number_text_signed by apply u64_range.
  assert (E : s64 (u64 (s32 n)) = s32 n).
  { unfold s64, u64. rewrite Z.add_mod_idemp_l by lia. rewrite Z.mod_small by lia. lia. }
  rewrite E. unfold simple_strtol. destruct (Z.ltb_spec (s32 n) 0) as [Hneg|Hpos].
  - cbn [app]. rewrite deref_cons. cbn [Z.eqb Pos.eqb drop].
    rewrite u64_small by lia. change (drop 0 ?x) with x. rewrite read_digits by lia.
    f_equal. unfold u32, s32 at 1. rewrite Z.add_mod_idemp_l by lia. rewrite Z.mod_small by lia. lia.
  - rewrite (u64_small (s32 n)) by lia. cbn [app].
    assert (Hd : (deref (digit_text SIGN 10 (s32 n)) =? 45) = false).
    { destruct (Z.eq_dec (s32 n) 0) as [->|]; [by rewrite digit_text_0|].
      destruct (digit_text_head SIGN 10 (s32 n)) as (c & s & -> & _ & Hc); [lia | lia|]. by apply Z.eqb_neq. }
    rewrite Hd, read_digits by lia. by rewrite s32_small by lia.
Qed.

Lemma spells_head base c s ds : spells base (c :: s) ds -> isxdigit c = true.
Proof. unfold spells. intros (d & ds' & [Hx _] & _ & _)%Forall2_cons_inv_l. done. Qed.

(** With the prefix the base need not be given. *)
Lemma read_prefixed type n : 0 <= n < 2 ^ 32 -> has_flag type SMALL = true -> has_flag type SPECIAL = true ->
  simple_strtoul (prefix_text type 16 ++ digit_text type 16 n) 0 = (n, []).
Proof.
  intros Hn Hs Hp. unfold prefix_text. rewrite Hp, Hs. cbn [andb negb Z.eqb Pos.eqb app].
  pose proof (digit_text_spells type 16 n ltac:(lia) ltac:(lia)) as Hsp.
  destruct (digit_text type 16 n) as [|c s] eqn:E; [by apply digit_text_nonempty in E; lia|].
  destruct (strtoul_spec (48 :: 120 :: c :: s) (c :: s) 0 16 (c :: s) (digits 16 n) []) as [H1 _].
  - unfold strto_prefix, deref. cbn -[isxdigit].
    by rewrite (spells_head _ _ _ _ Hsp).
  - by rewrite app_nil_r.
  - done.
  - done.
  - rewrite H1, (num_value 16 n) by (apply digits_numeral; lia). by rewrite u32_small by lia.
Qed.

(** C33: what is printed is read back: for every 32-bit word, [strict_strtoul]
    inverts %u in base 10, %x in base 16 and %#x with the base left open, and
    [simple_strtol] inverts %d on the word as a signed number; [strict_strtoul]
    also inverts [simple_itoa]. *)
Theorem print_read_roundtrip m n local : 0 <= n < 2 ^ 32 -> length local = 22%nat ->
  (exists s, render m (str "%u") [word n] = Some s /\ strict_strtoul s 10 = (0, n)) /\
  (exists s, render m (str "%x") [word n] = Some s /\ strict_strtoul s 16 = (0, n)) /\
  (exists s, render m (str "%#x") [word n] = Some s /\ strict_strtoul s 0 = (0, n)) /\
  (exists s, render m (str "%d") [word n] = Some s /\ simple_strtol s 10 = (s32 n, [])) /\
  (exists local' p s, simple_itoa n local = Some (local', p) /\ drop (Z.to_nat p) local' = s ++ [0] /\
     strict_strtoul s 10 = (0, n)).
Proof.
  intros Hn Hl. rewrite render_unsigned, render_hex, render_hex_prefix, render_signed, !number_spec
    by (lia || apply u64_range || (rewrite u32_small by lia; lia)).
  rewrite u32_small by lia. cbn [t_out app fmap option_fmap option_map].
  rewrite !number_text_plain by done. repeat split.
  - eexists. split; [done|]. apply read_strict; [by apply digit_text_nonempty; lia | by apply read_digits; lia].
  - eexists. split; [done|]. apply read_strict; [by apply digit_text_nonempty; lia | by apply read_digits; lia].
  - eexists. split; [done|]. apply read_strict; [done|]. by apply (read_prefixed (SPECIAL + SMALL) n Hn).
  - eexists. split; [done|]. by apply read_signed.
  - destruct (simple_itoa_spec n local Hn Hl) as (local' & p & Hrun & Hp & Hd & _).
    exists local', p, (digit_text 0 10 n). split; [done|]. split; [|apply read_strict; [by apply digit_text_nonempty; lia | by apply read_digits; lia]].
    rewrite Hd. f_equal. unfold digit_text. rewrite <- map_rev. apply map_ext_Forall, Forall_rev.
    eapply Forall_impl; [|apply (num_digits 10 n), digits_numeral; lia]. intros d Hdd. unfold digit_ok in Hdd.
    rewrite chr_digit by lia. unfold digit_char. by rewrite (proj2 (Z.ltb_lt d 10)) by lia.
Qed.

Lemma print_read_roundtrip_witness :
  exists s, render ∅ (str "%#x") [word 48879] = Some s /\ strict_strtoul s 0 = (0, 48879).
Proof.
  destruct (print_read_roundtrip ∅ 48879 (replicate 22 0)) as (_ & _ & Hr & _); [lia | reflexivity | exact Hr].
Defined.
