(* ===== verification/CircBuf.v ===== *)
(** * CircBuf: the circular buffer of the serial gadget ([lib/circbuf.c])

    The pointers [top], [tail] and [end] of the C structure point into the
    array [data]; they are modelled by the indices.  A failed [assert] and an
    access outside the array give [None].  The buffer implements a bounded
    queue of bytes that drops its oldest bytes when it is full. *)
From S2P Require Import Prelude.

Record circbuf := mk_circbuf {
  c_size : Z; totalsize : Z; top : Z; tail_ : Z; end_ : Z; data : option (list Z) }.

(** [contents] are the bytes of the fresh allocation, [None] if there is no memory. *)
Definition buf_init (size : Z) (contents : option (list Z)) : option (Z * circbuf) :=
  d ← contents;
  Some (1, mk_circbuf 0 size 0 0 size (Some d)).

Definition buf_free (buf : circbuf) : option (Z * circbuf) :=
  _ ← data buf;
  Some (1, mk_circbuf 0 0 0 0 0 None).

(** [p++; if (p == buf->end) p = buf->data;] *)
Definition advance (buf : circbuf) (p : Z) : Z := if p + 1 =? end_ buf then 0 else p + 1.

(** The loop of [buf_pop]: the bytes stored in [dest] and the pointer after it. *)
Fixpoint pop_loop (n : nat) (buf : circbuf) (d : list Z) (p : Z) : option (list Z * Z) :=
  match n with
  | O => Some ([], p)
  | S n =>
      c ← aget d p;
      '(rest, p) ← pop_loop n buf d (advance buf p);
      Some (c :: rest, p)
  end.

(** The return value, the bytes stored in [dest] and the buffer. *)
Definition buf_pop (buf : circbuf) (len : Z) : option (Z * list Z * circbuf) :=
  d ← data buf;
  let len := if c_size buf <? len then c_size buf else len in
  '(dest, p) ← pop_loop (Z.to_nat len) buf d (top buf);
  Some (len, dest, mk_circbuf (u32 (c_size buf - len)) (totalsize buf) p (tail_ buf) (end_ buf) (Some d)).

(** The loop of [buf_push] over the bytes of [src]; [p] is the local copy of the tail. *)
Fixpoint push_loop (src : list Z) (buf : circbuf) (p : Z) : option (circbuf * Z) :=
  match src with
  | [] => Some (buf, p)
  | c :: src =>
      d ← data buf;
      d ← aset d p c;
      let p := advance buf p in
      let '(size, top) :=
        if c_size buf <? totalsize buf then (u32 (c_size buf + 1), top buf)
        else (c_size buf, advance buf (top buf)) in
      push_loop src (mk_circbuf size (totalsize buf) top (tail_ buf) (end_ buf) (Some d)) p
  end.

Definition buf_push (buf : circbuf) (src : list Z) : option (Z * circbuf) :=
  '(buf, p) ← push_loop src buf (tail_ buf);
  Some (Z.of_nat (length src), mk_circbuf (c_size buf) (totalsize buf) (top buf) p (end_ buf) (data buf)).

(** ** The queue *)

(** The last [n] elements. *)
Definition last_n (n : nat) (l : list Z) : list Z := drop (length l - n) l.

(** The buffer holds the queue [q]: its bytes stand from [top] on, around the
    end of the array, and the next one goes to [p]. *)
Record QueueAt (buf : circbuf) (p : Z) (d q : list Z) : Prop := {
  q_data : data buf = Some d;
  q_total : 0 < totalsize buf < 2 ^ 32;
  q_length : Z.of_nat (length d) = totalsize buf;
  q_end : end_ buf = totalsize buf;
  q_size : c_size buf = Z.of_nat (length q);
  q_bound : Z.of_nat (length q) <= totalsize buf;
  q_top : 0 <= top buf < totalsize buf;
  q_tail : p = (top buf + c_size buf) mod totalsize buf;
  q_bytes : forall i c, q !! i = Some c -> aget d ((top buf + Z.of_nat i) mod totalsize buf) = Some c }.

Definition Queue (buf : circbuf) (d q : list Z) : Prop := QueueAt buf (tail_ buf) d q.

Lemma advance_mod buf p : 0 < end_ buf -> 0 <= p < end_ buf -> advance buf p = (p + 1) mod end_ buf.
Proof.
  intros Hp Hr. unfold advance. destruct (Z.eqb_spec (p + 1) (end_ buf)) as [->|]; [by rewrite Z.mod_same by lia|].
  by rewrite Z.mod_small by lia.
Qed.

Lemma mod_step a n : 0 < n -> (a mod n + 1) mod n = (a + 1) mod n.
Proof. intros Hn. by rewrite Z.add_mod_idemp_l by lia. Qed.

(** Two offsets less than a turn apart give different slots. *)
Lemma mod_distinct t i j n : 0 < n -> 0 <= i < n -> 0 <= j < n -> i <> j -> (t + i) mod n <> (t + j) mod n.
Proof.
  intros Hn Hi Hj Hne E. assert (Hz : (i - j) mod n = 0).
  { replace (i - j) with (t + i - (t + j)) by lia. by rewrite Zminus_mod, E, Z.sub_diag, Z.mod_0_l by lia. }
  rewrite <- Z.div_exact in Hz by lia. set (k := (i - j) / n) in Hz. clearbody k. clear E.
  assert (k = 0 \/ 1 <= k \/ k <= -1) as [->|[?|?]] by lia; [lia | nia | nia].
Qed.

Lemma aset_get (d : list Z) p x d' j : aset d p x = Some d' -> 0 <= j -> aget d' j = if j =? p then Some x else aget d j.
Proof.
  intros Hs Hj. apply aset_inv in Hs as [Hp ->]. rewrite !aget_lookup by lia. zcase.
  - subst. apply list_lookup_insert_eq. lia.
  - apply list_lookup_insert_ne. lia.
Qed.

(** One byte: it is appended, and the oldest byte goes when the buffer is full. *)
Lemma push_one buf p d q c : QueueAt buf p d q ->
  exists d', aset d p c = Some d' /\
    let '(size, top') := if c_size buf <? totalsize buf then (u32 (c_size buf + 1), top buf)
                         else (c_size buf, advance buf (top buf)) in
    QueueAt (mk_circbuf size (totalsize buf) top' (tail_ buf) (end_ buf) (Some d')) (advance buf p) d'
      (last_n (Z.to_nat (totalsize buf)) (q ++ [c])).
Proof.
  intros [H1 H2 H3 H4 H5 H6 H7 H8 H9]. set (n := totalsize buf) in *.
  assert (Hp : 0 <= p < n) by (rewrite H8; apply Z.mod_pos_bound; lia).
  destruct (aset d p c) as [d'|] eqn:Hs; [|rewrite aset_Some in Hs by lia; done].
  exists d'. split; [done|].
  assert (Hadv : advance buf p = (top buf + (c_size buf + 1)) mod n).
  { rewrite advance_mod by lia. rewrite H4, H8, mod_step by lia. f_equal. lia. }
  destruct (Z.ltb_spec (c_size buf) n) as [Hlt|Hge].
  - split; cbn [data totalsize end_ c_size top]; try done.
    + apply aset_length in Hs. by rewrite Hs.
    + unfold last_n. rewrite length_drop, length_app, u32_small by lia. cbn [length]. lia.
    + unfold last_n. rewrite length_drop, length_app. cbn [length]. lia.
    + rewrite Hadv, u32_small by lia. done.
    + unfold last_n. rewrite length_app. cbn [length].
      replace (length q + 1 - Z.to_nat n)%nat with 0%nat by lia. cbn [drop]. intros i x Hi.
      rewrite (aset_get _ _ _ _ _ Hs) by (apply Z.mod_pos_bound; lia).
      apply lookup_app_Some in Hi as [Hi|[Hl Hi]].
      * pose proof (lookup_lt_Some _ _ _ Hi). rewrite (proj2 (Z.eqb_neq _ _)); [by apply H9|].
        rewrite H8. apply mod_distinct; lia.
      * apply list_lookup_singleton_Some in Hi as [Hi <-].
        rewrite (proj2 (Z.eqb_eq _ _)); [done|]. rewrite H8. f_equal. lia.
  - assert (Hsz : c_size buf = n) by lia. rewrite Hsz in *.
    assert (Hpt : p = top buf) by (rewrite H8, <- (Z.mul_1_l n) at 1; rewrite Z.mod_add, Z.mod_small by lia; done).
    assert (Htop : advance buf (top buf) = (top buf + 1) mod n) by (rewrite advance_mod by lia; by rewrite H4).
    assert (Hq : last_n (Z.to_nat n) (q ++ [c]) = drop 1 (q ++ [c])).
    { unfold last_n. f_equal. rewrite length_app. cbn [length]. lia. }
    rewrite Hq, Htop. split; cbn [data totalsize end_ c_size top]; try done.
    + apply aset_length in Hs. by rewrite Hs.
    + rewrite length_drop, length_app. cbn [length]. lia.
    + rewrite length_drop, length_app. cbn [length]. lia.
    + apply Z.mod_pos_bound. lia.
    + rewrite Hadv. rewrite Z.add_mod_idemp_l by lia. f_equal. lia.
    + intros i x Hi. rewrite lookup_drop in Hi. rewrite Z.add_mod_idemp_l by lia.
      rewrite (aset_get _ _ _ _ _ Hs) by (apply Z.mod_pos_bound; lia).
      apply lookup_app_Some in Hi as [Hi|[Hl Hi]].
      * pose proof (lookup_lt_Some _ _ _ Hi). rewrite (proj2 (Z.eqb_neq _ _)).
        -- rewrite <- (H9 _ _ Hi). f_equal. f_equal. lia.
        -- replace p with ((top buf + 0) mod n) by (rewrite Z.add_0_r, Z.mod_small by lia; done).
           replace (top buf + 1 + Z.of_nat i) with (top buf + (1 + Z.of_nat i)) by lia. apply mod_distinct; lia.
      * apply list_lookup_singleton_Some in Hi as [Hi <-].
        rewrite (proj2 (Z.eqb_eq _ _)); [done|]. rewrite Hpt.
        replace (top buf + 1 + Z.of_nat i) with (top buf + 1 * n) by lia. rewrite Z.mod_add, Z.mod_small by lia. done.
Qed.

Lemma last_n_app n (q src : list Z) c : last_n n (last_n n (q ++ [c]) ++ src) = last_n n (q ++ c :: src).
Proof.
  unfold last_n. rewrite <- (drop_app_le (q ++ [c]) src) by lia. rewrite drop_drop, <- app_assoc. cbn [app].
  f_equal. rewrite !length_app, length_drop, !length_app. cbn [length]. lia.
Qed.

Lemma push_loop_spec src : forall buf p d q, QueueAt buf p d q ->
  exists buf' p' d', push_loop src buf p = Some (buf', p') /\
    QueueAt buf' p' d' (last_n (Z.to_nat (totalsize buf)) (q ++ src)) /\ totalsize buf' = totalsize buf.
Proof.
  induction src as [|c src IH]; intros buf p d q HQ; cbn [push_loop].
  - exists buf, p, d. split; [done|]. split; [|done]. rewrite app_nil_r. unfold last_n.
    pose proof (q_bound _ _ _ _ HQ). replace (length q - _)%nat with 0%nat by lia. done.
  - rewrite (q_data _ _ _ _ HQ). cbn [mbind option_bind]. destruct (push_one buf p d q c HQ) as (d' & -> & HQ').
    cbn [mbind option_bind]. destruct (if c_size buf <? totalsize buf then _ else _) as [size top'].
    destruct (IH _ _ _ _ HQ') as (buf' & p' & d2 & Hrun & HQ2 & Ht). exists buf', p', d2.
    cbn [totalsize] in HQ2, Ht. rewrite last_n_app in HQ2. done.
Qed.

Lemma pop_loop_spec buf p d : forall n q t, 0 < totalsize buf -> end_ buf = totalsize buf -> 0 <= t ->
  (forall i c, q !! i = Some c -> aget d ((t + Z.of_nat i) mod totalsize buf) = Some c) -> (n <= length q)%nat ->
  p = t mod totalsize buf ->
  pop_loop n buf d p = Some (take n q, (t + Z.of_nat n) mod totalsize buf).
Proof.
  intros n. revert p. induction n as [|n IH]; intros p q t Hn He Ht Hq Hl ->; cbn [pop_loop].
  { by rewrite Z.add_0_r. }
  destruct q as [|c q]; [simpl in Hl; lia|].
  rewrite <- (Z.add_0_r t), (Hq 0%nat c eq_refl) at 1. cbn [mbind option_bind].
  rewrite (IH _ q (t + 1)); try done; try lia.
  - cbn [mbind option_bind take]. do 3 f_equal. lia.
  - intros i x Hi. rewrite <- (Hq (S i) x Hi). f_equal. f_equal. lia.
  - simpl in Hl. lia.
  - rewrite advance_mod by (rewrite He; [lia || (apply Z.mod_pos_bound; lia)]). rewrite He. by apply mod_step.
Qed.

Lemma buf_push_spec buf d q src : Queue buf d q ->
  exists buf' d', buf_push buf src = Some (Z.of_nat (length src), buf') /\
    Queue buf' d' (last_n (Z.to_nat (totalsize buf)) (q ++ src)) /\ totalsize buf' = totalsize buf.
Proof.
  intros HQ. unfold buf_push. destruct (push_loop_spec src buf (tail_ buf) d q HQ) as (b1 & p & d' & -> & HQ' & Ht).
  cbn [mbind option_bind]. eexists _, d'. split; [done|]. cbn [totalsize]. split; [|done].
  destruct HQ' as [H1 H2 H3 H4 H5 H6 H7 H8 H9]. by split.
Qed.

Lemma buf_pop_spec buf d q len : Queue buf d q -> 0 <= len ->
  let n := Z.to_nat (Z.min len (Z.of_nat (length q))) in
  exists buf', buf_pop buf len = Some (Z.of_nat n, take n q, buf') /\ Queue buf' d (drop n q) /\
    totalsize buf' = totalsize buf.
Proof.
  intros [H1 H2 H3 H4 H5 H6 H7 H8 H9] Hlen n. unfold buf_pop. rewrite H1. cbn [mbind option_bind].
  assert (Hn : (if c_size buf <? len then c_size buf else len) = Z.of_nat n).
  { unfold n. destruct (Z.ltb_spec (c_size buf) len); lia. }
  rewrite Hn, Nat2Z.id. assert (Hle : (n <= length q)%nat) by (unfold n; lia). clearbody n.
  rewrite (pop_loop_spec buf (top buf) d n q (top buf)); try done; try lia; [|by rewrite Z.mod_small by lia].
  cbn [mbind option_bind]. eexists. split; [done|]. split; [|done].
  split; cbn [data totalsize end_ c_size top tail_]; try done.
  - rewrite length_drop, u32_small by lia. lia.
  - rewrite length_drop. lia.
  - apply Z.mod_pos_bound. lia.
  - rewrite u32_small, Z.add_mod_idemp_l, H8 by lia. f_equal. lia.
  - intros i c Hi. rewrite lookup_drop in Hi. rewrite Z.add_mod_idemp_l by lia.
    rewrite <- (H9 _ _ Hi). f_equal. f_equal. lia.
Qed.

(** ** Histories *)

Inductive operation := Push (src : list Z) | Pop (len : Z).

(** What a sequence of calls returns from [buf_pop], and the buffer at its end. *)
Fixpoint run (buf : circbuf) (ops : list operation) : option (list (list Z) * circbuf) :=
  match ops with
  | [] => Some ([], buf)
  | Push src :: ops => '(_, buf) ← buf_push buf src; run buf ops
  | Pop len :: ops => '(_, out, buf) ← buf_pop buf len; '(outs, buf) ← run buf ops; Some (out :: outs, buf)
  end.

(** The same on a queue of at most [cap] bytes. *)
Fixpoint run_queue (cap : nat) (q : list Z) (ops : list operation) : list (list Z) * list Z :=
  match ops with
  | [] => ([], q)
  | Push src :: ops => run_queue cap (last_n cap (q ++ src)) ops
  | Pop len :: ops =>
      let n := Z.to_nat (Z.min len (Z.of_nat (length q))) in
      let '(outs, q1) := run_queue cap (drop n q) ops in (take n q :: outs, q1)
  end.

Definition op_ok (o : operation) : Prop := match o with Push _ => True | Pop len => 0 <= len end.

Lemma run_spec ops : forall buf d q, Queue buf d q -> Forall op_ok ops ->
  exists outs buf' d' q', run buf ops = Some (outs, buf') /\
    run_queue (Z.to_nat (totalsize buf)) q ops = (outs, q') /\ Queue buf' d' q'.
Proof.
  induction ops as [|o ops IH]; intros buf d q HQ Hok; cbn [run run_queue].
  { exists [], buf, d, q. auto. }
  apply Forall_cons_iff in Hok as [Ho Hok]. destruct o as [src|len].
  - destruct (buf_push_spec buf d q src HQ) as (b1 & d1 & -> & HQ1 & Ht). cbn [mbind option_bind].
    rewrite <- Ht in HQ1 |- *. by apply (IH b1 d1).
  - destruct (buf_pop_spec buf d q len HQ Ho) as (b1 & -> & HQ1 & Ht). cbn [mbind option_bind]. rewrite <- Ht.
    destruct (IH b1 d _ HQ1 Hok) as (outs & b2 & d2 & q2 & -> & -> & HQ2). cbn [mbind option_bind]. eauto 10.
Qed.

(** C34: the circular buffer implements a bounded queue.  From [buf_init] on,
    every sequence of [buf_push] and [buf_pop] calls stays inside the array,
    keeps the invariant of the pointers and the size, and returns exactly what
    a queue returns that holds at most [size] bytes and loses the oldest ones
    when more are pushed. *)
Theorem circbuf_refines_queue size contents ops : 0 < size < 2 ^ 32 -> Z.of_nat (length contents) = size ->
  Forall op_ok ops ->
  exists buf, buf_init size (Some contents) = Some (1, buf) /\
    exists outs buf' d' q', run buf ops = Some (outs, buf') /\ run_queue (Z.to_nat size) [] ops = (outs, q') /\
      Queue buf' d' q'.
Proof.
  intros Hs Hl Hok. eexists. split; [done|].
  assert (HQ : Queue (mk_circbuf 0 size 0 0 size (Some contents)) contents []).
  { split; cbn; try done; lia. }
  by apply (run_spec ops _ contents [] HQ).
Qed.

Lemma circbuf_refines_queue_witness :
  exists buf, buf_init 3 (Some [0; 0; 0]) = Some (1, buf) /\
    exists outs buf' d' q', run buf [Push [1; 2]; Pop 1; Push [3; 4; 5]; Pop 2] = Some (outs, buf') /\
      run_queue 3 [] [Push [1; 2]; Pop 1; Push [3; 4; 5]; Pop 2] = (outs, q') /\ Queue buf' d' q'.
Proof.
  apply (circbuf_refines_queue 3 [0; 0; 0] [Push [1; 2]; Pop 1; Push [3; 4; 5]; Pop 2]); [lia | reflexivity|].
  repeat constructor; cbn; lia.
Defined.

(** A buffer of size 0 is written outside its array. *)
Lemma buf_push_empty c : exists buf, buf_init 0 (Some []) = Some (1, buf) /\ buf_push buf [c] = None.
Proof. eexists. split; reflexivity. Qed.
