(* ===== verification/CliSimple.v ===== *)
(** * CliSimple: the simple command line ([common/cli_simple.c]) and command
      dispatch ([common/command.c])

    A command line is split at semicolons, the macros of each part are
    expanded from the environment, the result is split into arguments, and
    the command is looked up and called.  Commands act on a world, the state
    of the rest of the program, which also holds the environment; the world,
    the command table and the control-C flag are arguments.  Buffers of
    [CONFIG_SYS_CBSIZE] bytes hold strings modelled by their contents;
    writing past their end gives [None]. *)
From Stdlib Require Import String.
From S2P Require Import Prelude CString Hashtable HashIO EnvFlags.

Definition CONFIG_SYS_CBSIZE : Z := 1024.
Definition CONFIG_SYS_MAXARGS : Z := 256.

(** ** Arguments *)

Fixpoint skip_blank (line : cstr) : cstr :=
  match line with
  | c :: line' => if isblank c then skip_blank line' else line
  | [] => []
  end.

(** [while ( *line && !isblank( *line)) ++line;]: the argument and the rest. *)
Fixpoint take_word (line : cstr) : cstr * cstr :=
  match line with
  | c :: line' => if isblank c then ([], line) else let '(w, r) := take_word line' in (c :: w, r)
  | [] => ([], [])
  end.

(** [while (nargs < CONFIG_SYS_MAXARGS)]: the arguments, and whether the null pointer was stored after them. *)
Fixpoint parse_line_loop (n : nat) (line : cstr) : list cstr * bool :=
  match n with
  | O => ([], false)
  | S n =>
      match skip_blank line with
      | [] => ([], true)
      | line =>
          let '(w, r) := take_word line in
          match r with
          | [] => ([w], true)
          | _ :: r => let '(args, t) := parse_line_loop n r in (w :: args, t)
          end
      end
  end.

(** [nargs], [argv] and whether [argv] is terminated. *)
Definition cli_simple_parse_line (line : cstr) : Z * list cstr * bool :=
  let '(args, t) := parse_line_loop (Z.to_nat CONFIG_SYS_MAXARGS) line in (Z.of_nat (length args), args, t).

(** ** Macros *)

(** The local variables of [cli_simple_process_macros]; [m_varname] is the input from [varname_start] on. *)
Record macro_state := mk_macro {
  m_input : cstr; m_output : list Z; m_state : Z; m_varname : cstr; m_prev : Z }.

Definition outputcnt (st : macro_state) : Z := CONFIG_SYS_CBSIZE - Z.of_nat (length (m_output st)).

(** [*(output++) = c; outputcnt--;] *)
Definition put_out (st : macro_state) (c : Z) : macro_state :=
  mk_macro (m_input st) (m_output st ++ [c]) (m_state st) (m_varname st) (m_prev st).

Definition set_state (st : macro_state) (s : Z) : macro_state :=
  mk_macro (m_input st) (m_output st) s (m_varname st) (m_prev st).

Section macros.
Context (getenv : cstr -> option cstr).

(** The end of a name, case 2: [envname] has [CONFIG_SYS_CBSIZE] bytes. *)
Definition expand_var (st : macro_state) : option macro_state :=
  let envcnt := (length (m_varname st) - length (m_input st) - 1)%nat in
  if CONFIG_SYS_CBSIZE <=? Z.of_nat envcnt then None
  else
    let envname := take envcnt (m_varname st) in
    let copied := match getenv envname with
      | Some envval => take (Z.to_nat (outputcnt st)) envval | None => [] end in
    Some (mk_macro (m_input st) (m_output st ++ copied) 0 (m_varname st) (m_prev st)).

(** The [switch] on the character [c]; [m_prev] is the character before it. *)
Definition macro_switch (st : macro_state) (c : Z) : option macro_state :=
  let quote := (c =? 39) && negb (m_prev st =? 92) in
  if m_state st =? 0 then
    if quote then Some (set_state st 3)
    else if (c =? 36) && negb (m_prev st =? 92) then Some (set_state st 1)
    else Some (put_out st c)
  else if m_state st =? 1 then
    if (c =? 40) || (c =? 123) then
      Some (mk_macro (m_input st) (m_output st) 2 (m_input st) (m_prev st))
    else
      let st := put_out (set_state st 0) 36 in
      Some (if negb (outputcnt st =? 0) then put_out st c else st)
  else if m_state st =? 2 then
    if (c =? 41) || (c =? 125) then expand_var st else Some st
  else if m_state st =? 3 then
    if quote then Some (set_state st 0) else Some (put_out st c)
  else Some st.

(** The body of the loop; [None] of the inner option is the [break]. *)
Definition macro_step (st : macro_state) : option (option macro_state) :=
  match m_input st with
  | [] => Some None
  | c :: input =>
      if negb (m_state st =? 3) && ((c =? 92) && negb (m_prev st =? 92)) then
        match input with
        | [] => Some None
        | c' :: input =>
            st ← macro_switch (mk_macro input (m_output st) (m_state st) (m_varname st) c) c';
            Some (Some (mk_macro (m_input st) (m_output st) (m_state st) (m_varname st) c'))
        end
      else
        st ← macro_switch (mk_macro input (m_output st) (m_state st) (m_varname st) (m_prev st)) c;
        Some (Some (mk_macro (m_input st) (m_output st) (m_state st) (m_varname st) c))
  end.

(** [while (inputcnt && outputcnt)]: [inputcnt] is the length of the input left. *)
Fixpoint macro_loop (fuel : nat) (st : macro_state) : option (list Z) :=
  match fuel with
  | O => None
  | S fuel =>
      if negb (Z.of_nat (length (m_input st)) =? 0) && negb (outputcnt st =? 0) then
        r ← macro_step st;
        match r with
        | Some st => macro_loop fuel st
        | None => Some (m_output st)
        end
      else Some (m_output st)
  end.

(** The string in [output]: when the buffer is full its last character is replaced by the terminator. *)
Definition cli_simple_process_macros (input : cstr) : option cstr :=
  output ← macro_loop (S (length input)) (mk_macro input [] 0 [] 0);
  Some (if negb (CONFIG_SYS_CBSIZE - Z.of_nat (length output) =? 0) then output else removelast output).
End macros.

(** ** Commands *)

Section commands.
Context {world : Type}.

(** [is_bootd] says that [cmd] is [do_bootd]. *)
Record cmd_tbl_s := mk_cmd {
  cmd_name : cstr; maxargs : Z; repeatable : Z; is_bootd : bool;
  cmd : world -> Z -> list cstr -> Z * world }.

Definition CMD_FLAG_BOOTD : Z := 2.
Definition CMD_RET_SUCCESS : Z := 0.
Definition CMD_RET_FAILURE : Z := 1.
Definition CMD_RET_USAGE : Z := -1.

(** The name up to the first dot. *)
Definition base_name (c : cstr) : cstr := match find_chr 46 c with Some i => take i c | None => c end.

(** The loop over the table; [strncmp(cmd, name, len) == 0] says that the first
    [len] characters of the name are those of the command: an exact match, or the last abbreviated one and their number. *)
Fixpoint find_cmd_loop (base : cstr) (table : list cmd_tbl_s) (temp : option cmd_tbl_s) (n_found : Z)
    : cmd_tbl_s + option cmd_tbl_s * Z :=
  match table with
  | [] => inr (temp, n_found)
  | e :: table =>
      if bool_decide (take (length base) (cmd_name e) = base) then
        if (length base =? length (cmd_name e))%nat then inl e
        else find_cmd_loop base table (Some e) (n_found + 1)
      else find_cmd_loop base table temp n_found
  end.

Definition find_cmd_tbl (c : cstr) (table : list cmd_tbl_s) : option cmd_tbl_s :=
  match find_cmd_loop (base_name c) table (list.head table) 0 with
  | inl e => Some e
  | inr (temp, n_found) => if n_found =? 1 then temp else None
  end.

Context (table : list cmd_tbl_s).

(** [cmd_usage] prints and returns 1. *)
Definition cmd_usage (e : cmd_tbl_s) : Z := 1.

Definition cmd_call (e : cmd_tbl_s) (flag : Z) (argv : list cstr) (w : world) : Z * world := cmd e w flag argv.

(** The return code, [*repeatable] and the world. *)
Definition cmd_process (flag : Z) (argv : list cstr) (rep : Z) (w : world) : option (Z * Z * world) :=
  arg0 ← list.head argv;
  match find_cmd_tbl arg0 table with
  | None => Some (1, rep, w)
  | Some e =>
      let '(rc, flag) :=
        if maxargs e <? Z.of_nat (length argv) then (CMD_RET_USAGE, flag)
        else if is_bootd e then
          if has_flag flag CMD_FLAG_BOOTD then (CMD_RET_FAILURE, flag) else (CMD_RET_SUCCESS, Z.lor flag CMD_FLAG_BOOTD)
        else (CMD_RET_SUCCESS, flag) in
      let '(rc, rep, w) :=
        if rc =? 0 then let '(rc, w) := cmd_call e flag argv w in (rc, Z.land rep (repeatable e), w) else (rc, rep, w) in
      Some (if rc =? CMD_RET_USAGE then cmd_usage e else rc, rep, w)
  end.

(** ** Command lines *)

(** [stack_byte] is the byte in front of the buffer [cmdbuf]. *)
Context (getenv : world -> cstr -> option cstr) (had_ctrlc : world -> bool) (clear_ctrlc : world -> world)
  (stack_byte : world -> Z).

(** The [for] loop that finds the separator: the part before it, and the rest from
    it on.  [prev] is the character before [sep], [start] says [sep == str]. *)
Fixpoint find_sep (s : cstr) (prev : Z) (start inquotes : bool) : cstr * cstr :=
  match s with
  | [] => ([], [])
  | c :: s' =>
      let inquotes := if (c =? 39) && negb (prev =? 92) then negb inquotes else inquotes in
      if negb inquotes && (c =? 59) && negb start && negb (prev =? 92) then ([], s)
      else let '(t, r) := find_sep s' c false inquotes in (c :: t, r)
  end.

(** [while ( *str)]: [before] is the character in front of [str]. *)
Fixpoint run_loop (fuel : nat) (str : cstr) (before flag rc rep : Z) (w : world) : option (Z * Z * world) :=
  match fuel with
  | O => None
  | S fuel =>
      match str with
      | [] => Some (rc, rep, w)
      | _ =>
          let '(token, sep) := find_sep str before true false in
          let '(str, before) := match sep with _ :: s => (s, 0) | [] => ([], 0) end in
          finaltoken ← cli_simple_process_macros (getenv w) token;
          let '(argc, argv, _) := cli_simple_parse_line finaltoken in
          if argc =? 0 then run_loop fuel str before flag (-1) rep w
          else
            '(r, rep, w) ← cmd_process flag argv rep w;
            let rc := if negb (r =? 0) then -1 else rc in
            if had_ctrlc w then Some (-1, rep, w) else run_loop fuel str before flag rc rep w
      end
  end.

Definition cli_simple_run_command (c : option cstr) (flag : Z) (w : world) : option (Z * world) :=
  let w := clear_ctrlc w in
  match c with
  | None | Some [] => Some (-1, w)
  | Some c =>
      if CONFIG_SYS_CBSIZE <=? Z.of_nat (length c) then Some (-1, w)
      else
        '(rc, rep, w) ← run_loop (S (length c)) c (stack_byte w) flag 0 1 w;
        Some (if negb (rc =? 0) then rc else rep, w)
  end.

(** The lines of a list of commands: each is run unless it is empty, up to the first error. *)
Fixpoint run_list_loop (next line : cstr) (w : world) : option (Z * world) :=
  match next with
  | [] => match line with
          | [] => Some (0, w)
          | _ => '(r, w) ← cli_simple_run_command (Some line) 0 w; Some (if r <? 0 then 1 else 0, w)
          end
  | c :: next =>
      if c =? 10 then
        match line with
        | [] => run_list_loop next [] w
        | _ => '(r, w) ← cli_simple_run_command (Some line) 0 w;
               if r <? 0 then Some (1, w) else run_list_loop next [] w
        end
      else run_list_loop next (line ++ [c]) w
  end.

Definition cli_simple_run_command_list (c : cstr) (w : world) : option (Z * world) :=
  run_list_loop c [] w.
End commands.

(** ** The language of macros *)

(** The pieces of a command line and what may follow the last of them. *)
Inductive piece :=
  | Lit (c : Z)
  | Esc (c : Z)
  | Var (op : Z) (name : cstr) (cl : Z)
  | Dollar (c : Z)
  | Quoted (s : cstr).

Inductive ending :=
  | Done
  | LoneDollar
  | LoneEscape
  | OpenVar (op : Z) (name : cstr)
  | OpenQuote (s : cstr).

Definition name_ok (name : cstr) : Prop := Forall (fun c => c <> 41 /\ c <> 125 /\ c <> 92) name.

(** Text between quotes: an escaped quote may stand in it, and it does not end with a backslash. *)
Fixpoint quotable (prev : Z) (s : cstr) : Prop :=
  match s with
  | [] => True
  | c :: s => ~ (c = 39 /\ prev <> 92) /\ quotable c s
  end.

Definition piece_ok (p : piece) : Prop :=
  match p with
  | Lit c => c <> 36 /\ c <> 39 /\ c <> 92
  | Esc c => c <> 92
  | Var op name cl => (op = 40 \/ op = 123) /\ (cl = 41 \/ cl = 125) /\ name_ok name
  | Dollar c => c <> 40 /\ c <> 123 /\ c <> 92
  | Quoted s => quotable 39 s /\ List.last s 39 <> 92
  end.

Definition ending_ok (e : ending) : Prop :=
  match e with
  | OpenVar op name => (op = 40 \/ op = 123) /\ name_ok name
  | OpenQuote s => quotable 39 s
  | _ => True
  end.

Definition piece_text (p : piece) : cstr :=
  match p with
  | Lit c => [c]
  | Esc c => [92; c]
  | Var op name cl => 36 :: op :: name ++ [cl]
  | Dollar c => [36; c]
  | Quoted s => 39 :: s ++ [39]
  end.

Definition ending_text (e : ending) : cstr :=
  match e with
  | Done => []
  | LoneDollar => [36]
  | LoneEscape => [92]
  | OpenVar op name => 36 :: op :: name
  | OpenQuote s => 39 :: s
  end.

Lemma last_cons_list {A} (c : A) (t : list A) d : List.last (c :: t) d = List.last t c.
Proof.
  revert c d. induction t as [|b t IH]; intros c d; [done|].
  transitivity (List.last t b); [apply (IH b d) | symmetry; apply (IH b c)].
Qed.

Section expansion.
Context (getenv : cstr -> option cstr).

Definition piece_value (p : piece) : cstr :=
  match p with
  | Lit c | Esc c => [c]
  | Var _ name _ => default [] (getenv name)
  | Dollar c => [36; c]
  | Quoted s => s
  end.

Definition ending_value (e : ending) : cstr := match e with OpenQuote s => s | _ => [] end.

Definition line_text (ps : list piece) (e : ending) : cstr := concat (map piece_text ps) ++ ending_text e.
Definition line_value (ps : list piece) (e : ending) : cstr := concat (map piece_value ps) ++ ending_value e.

Lemma cbsize_pos : 0 < CONFIG_SYS_CBSIZE.
Proof. reflexivity. Qed.

(** The loop started in [st] ends with [out]. *)
Definition ends (st : macro_state) (out : list Z) : Prop :=
  forall fuel, (length (m_input st) < fuel)%nat -> macro_loop getenv fuel st = Some out.

Definition room (o : list Z) : Prop := Z.of_nat (length o) < CONFIG_SYS_CBSIZE.
Definition fit (o : list Z) : list Z := take (Z.to_nat CONFIG_SYS_CBSIZE) o.

Local Ltac size := pose proof cbsize_pos; unfold room in *; cbn [length] in *; rewrite ?length_app in *; cbn [length] in *; lia.

Lemma ends_stop i o s v p : (i = [] \/ ~ room o) -> (length o <= Z.to_nat CONFIG_SYS_CBSIZE)%nat ->
  ends (mk_macro i o s v p) o.
Proof.
  intros H Ho [|fuel] Hf; [cbn in Hf; lia|]. unfold room in H. cbn [macro_loop m_input].
  unfold outputcnt; cbn [m_output]. destruct H as [-> | H].
  - reflexivity.
  - replace (CONFIG_SYS_CBSIZE - Z.of_nat (length o)) with 0 by size. by rewrite andb_false_r.
Qed.

Lemma ends_full i o s v p e : (length o <= Z.to_nat CONFIG_SYS_CBSIZE)%nat -> ~ room o ->
  ends (mk_macro i o s v p) (fit (o ++ e)).
Proof.
  intros Ho Hr. replace (fit (o ++ e)) with o; [by apply ends_stop; [right|]|].
  unfold fit. rewrite take_app_length'; [done|]. size.
Qed.

Lemma ends_step st st' out :
  m_input st <> [] -> room (m_output st) -> macro_step getenv st = Some (Some st') ->
  (length (m_input st') < length (m_input st))%nat -> ends st' out -> ends st out.
Proof.
  intros Hi Ho Hs Hl He [|fuel] Hf; [lia|]. cbn [macro_loop]. unfold outputcnt, room in *.
  destruct (m_input st) eqn:E; [done|]. rewrite <- E in *.
  rewrite (proj2 (Z.eqb_neq _ 0)) by (rewrite E; cbn; lia). rewrite (proj2 (Z.eqb_neq _ 0)) by lia.
  cbn [negb andb]. rewrite Hs. cbn [mbind option_bind]. apply He. lia.
Qed.

(** A line whose text [i] has the value [e] gives that value after any output that is not full yet. *)
Definition expands (i e : list Z) : Prop :=
  forall o v p, (length o <= Z.to_nat CONFIG_SYS_CBSIZE)%nat -> p <> 92 ->
  ends (mk_macro i o 0 v p) (fit (o ++ e)).

(** Characters of a name are skipped, those of a quotation are copied. *)
Lemma ends_varname name i o v p out : name_ok name -> p <> 92 -> room o ->
  (forall p, p <> 92 -> ends (mk_macro i o 2 v p) out) -> ends (mk_macro (name ++ i) o 2 v p) out.
Proof.
  intros Hn Hp Ho H. revert p Hp. induction Hn as [|c name (H1 & H2 & H3) Hn IH]; intros p Hp; [by apply H|].
  eapply ends_step; [done | done | | | by apply (IH c)].
  - unfold macro_step. cbn [m_input m_state m_prev app].
    rewrite (proj2 (Z.eqb_neq c 92)) by done. cbn [andb negb]. unfold macro_switch. cbn [m_state].
    by rewrite (proj2 (Z.eqb_neq c 41)), (proj2 (Z.eqb_neq c 125)) by done.
  - cbn. lia.
Qed.

Lemma ends_quoted s i o v p e : quotable p s -> (length o <= Z.to_nat CONFIG_SYS_CBSIZE)%nat ->
  (forall o, (length o <= Z.to_nat CONFIG_SYS_CBSIZE)%nat ->
    ends (mk_macro i o 3 v (List.last s p)) (fit (o ++ e))) ->
  ends (mk_macro (s ++ i) o 3 v p) (fit (o ++ s ++ e)).
Proof.
  revert o p. induction s as [|c s IH]; intros o p Hq Ho H; [by apply H|].
  destruct (decide (room o)) as [Hr|Hr]; [|by apply ends_full].
  destruct Hq as [Hc Hq]. eapply ends_step; [done | done | | | ].
  - unfold macro_step. cbn [m_input m_state m_prev app]. cbn [Z.eqb Pos.eqb negb andb].
    unfold macro_switch. cbn [m_state m_prev]. replace ((c =? 39) && negb (p =? 92)) with false; [reflexivity|].
    symmetry. rewrite andb_false_iff, negb_false_iff, Z.eqb_neq, Z.eqb_eq. lia.
  - cbn. lia.
  - unfold put_out. cbn. replace (o ++ c :: s ++ e) with ((o ++ [c]) ++ s ++ e) by by rewrite <- app_assoc.
    apply IH; [done | size |]. intros o' Ho'.
    rewrite <- (last_cons_list c s p). by apply H.
Qed.

Lemma fit_fit a b : fit (fit a ++ b) = fit (a ++ b).
Proof.
  unfold fit. rewrite !take_app, take_take, Nat.min_id. f_equal.
  rewrite length_take. destruct (decide (Z.to_nat CONFIG_SYS_CBSIZE <= length a)%nat).
  - by rewrite !(proj2 (Nat.sub_0_le _ _)) by lia.
  - by rewrite Nat.min_r by lia.
Qed.

Lemma fit_length a : (length (fit a) <= Z.to_nat CONFIG_SYS_CBSIZE)%nat.
Proof. unfold fit. rewrite length_take. lia. Qed.

Lemma fit_id a : (length a <= Z.to_nat CONFIG_SYS_CBSIZE)%nat -> fit a = a.
Proof. apply take_ge. Qed.

Lemma macro_step_plain c i o s v p : c <> 92 ->
  macro_step getenv (mk_macro (c :: i) o s v p) =
    st ← macro_switch getenv (mk_macro i o s v p) c;
    Some (Some (mk_macro (m_input st) (m_output st) (m_state st) (m_varname st) c)).
Proof. intros H. unfold macro_step. cbn [m_input m_prev m_output m_state m_varname].
  by rewrite (proj2 (Z.eqb_neq c 92) H), andb_false_r. Qed.

(** The dollar sign and the bracket that open a name. *)
Lemma ends_dollar i o v p out : p <> 92 -> room o ->
  ends (mk_macro i o 1 v 36) out -> ends (mk_macro (36 :: i) o 0 v p) out.
Proof.
  intros Hp Ho H. eapply ends_step; [done | done | | | exact H]; [|cbn; lia].
  rewrite macro_step_plain by done. unfold macro_switch. cbn [m_state m_prev].
  by rewrite (proj2 (Z.eqb_neq p 92)).
Qed.

Lemma ends_bracket op i o v out : op = 40 \/ op = 123 -> room o ->
  ends (mk_macro i o 2 i op) out -> ends (mk_macro (op :: i) o 1 v 36) out.
Proof.
  intros Hop Ho H. eapply ends_step; [done | done | | | exact H]; [|cbn; lia].
  rewrite macro_step_plain by lia. unfold macro_switch. cbn [m_state].
  by destruct Hop as [-> | ->].
Qed.

Lemma ends_quote i o v p out : p <> 92 -> room o ->
  ends (mk_macro i o 3 v 39) out -> ends (mk_macro (39 :: i) o 0 v p) out.
Proof.
  intros Hp Ho H. eapply ends_step; [done | done | | | exact H]; [|cbn; lia].
  rewrite macro_step_plain by done. unfold macro_switch. cbn [m_state m_prev].
  by rewrite (proj2 (Z.eqb_neq p 92)).
Qed.

Lemma expands_var op name cl i e : piece_ok (Var op name cl) -> room name -> expands i e ->
  expands (piece_text (Var op name cl) ++ i) (piece_value (Var op name cl) ++ e).
Proof.
  intros (Hop & Hcl & Hn) Hl H o v p Ho Hp. cbn [piece_text piece_value]. rewrite <- !app_comm_cons, <- app_assoc.
  destruct (decide (room o)) as [Hr|Hr]; [|by apply ends_full].
  apply ends_dollar; [done..|]. apply ends_bracket; [done..|].
  apply ends_varname; [done | lia | done |]. intros p' Hp'. cbn [app].
  eapply (ends_step _ (mk_macro i (fit (o ++ default [] (getenv name))) 0 (name ++ cl :: i) cl));
    [done | done | | cbn; lia |].
  - rewrite macro_step_plain by lia. unfold macro_switch. cbn [m_state Z.eqb Pos.eqb].
    replace ((cl =? 41) || (cl =? 125)) with true by by destruct Hcl as [-> | ->].
    unfold expand_var. cbn [m_varname m_input m_output m_prev].
    replace (length (name ++ cl :: i) - length i - 1)%nat with (length name) by (rewrite length_app; cbn; lia).
    rewrite (proj2 (Z.leb_gt _ _)) by exact Hl. cbn [mbind option_bind m_input m_output m_state m_varname].
    rewrite take_app_length. do 3 f_equal. unfold fit. rewrite take_app, (take_ge o) by lia. f_equal.
    unfold outputcnt. cbn [m_output].
    replace (Z.to_nat (CONFIG_SYS_CBSIZE - Z.of_nat (length o)))
      with (Z.to_nat CONFIG_SYS_CBSIZE - length o)%nat by size.
    by destruct (getenv name); cbn [default]; rewrite ?take_nil.
  - rewrite app_assoc, <- (fit_fit (o ++ _) e). apply H; [apply fit_length | lia].
Qed.

Lemma expands_dollar c i e : piece_ok (Dollar c) -> expands i e ->
  expands (piece_text (Dollar c) ++ i) (piece_value (Dollar c) ++ e).
Proof.
  intros (H1 & H2 & H3) H o v p Ho Hp. cbn [piece_text piece_value app].
  destruct (decide (room o)) as [Hr|Hr]; [|by apply ends_full].
  apply ends_dollar; [done..|].
  eapply (ends_step _ (mk_macro i (fit (o ++ [36; c])) 0 v c)); [done | done | | cbn; lia |].
  - rewrite macro_step_plain by done. unfold macro_switch. cbn [m_state Z.eqb Pos.eqb].
    rewrite (proj2 (Z.eqb_neq c 40)), (proj2 (Z.eqb_neq c 123)) by done. cbn [orb].
    unfold outputcnt, put_out, set_state. cbn [m_state m_output m_input m_varname m_prev].
    destruct (Z.eqb_spec (CONFIG_SYS_CBSIZE - Z.of_nat (length (o ++ [36]))) 0) as [E|E];
      cbn [negb mbind option_bind m_input m_output m_state m_varname]; do 3 f_equal.
    + change [36; c] with ([36] ++ [c]). unfold fit. rewrite (app_assoc o), take_app_length'; [done|size].
    + rewrite <- app_assoc. cbn [app]. symmetry. apply fit_id. size.
  - change (o ++ 36 :: c :: e) with (o ++ [36; c] ++ e). rewrite app_assoc, <- (fit_fit (o ++ _) e).
    apply H; [apply fit_length | done].
Qed.

(** A character that is copied. *)
Lemma expands_char c i e o v (st : macro_state) : room o -> c <> 92 -> expands i e ->
  m_input st <> [] -> m_output st = o -> (length i < length (m_input st))%nat ->
  macro_step getenv st = Some (Some (mk_macro i (o ++ [c]) 0 v c)) -> ends st (fit (o ++ c :: e)).
Proof.
  intros Ho Hc H Hi Hst Hl Hs. eapply ends_step; [done | by rewrite Hst | exact Hs | done |].
  replace (o ++ c :: e) with ((o ++ [c]) ++ e) by by rewrite <- app_assoc.
  apply H; [size | done].
Qed.

Lemma expands_quoted s i e : piece_ok (Quoted s) -> expands i e ->
  expands (piece_text (Quoted s) ++ i) (piece_value (Quoted s) ++ e).
Proof.
  intros [Hq Hlast] H o v p Ho Hp. cbn [piece_text piece_value]. rewrite <- app_comm_cons, <- app_assoc.
  destruct (decide (room o)) as [Hr|Hr]; [|by apply ends_full].
  apply ends_quote; [done..|]. apply ends_quoted; [done..|]. intros o' Ho'. cbn [app].
  destruct (decide (room o')) as [Hr'|Hr']; [|by apply ends_full].
  eapply ends_step; [done | done | | | by apply (H o' v 39)]; [|cbn; lia].
  rewrite macro_step_plain by done. unfold macro_switch. cbn [m_state m_prev].
  by rewrite (proj2 (Z.eqb_neq _ 92) Hlast).
Qed.

Lemma expands_piece q i e : piece_ok q -> (Z.of_nat (length (piece_text q)) <= CONFIG_SYS_CBSIZE) ->
  expands i e -> expands (piece_text q ++ i) (piece_value q ++ e).
Proof.
  destruct q as [c|c|op name cl|c|s]; intros Hq Hl H.
  - intros o v p Ho Hp. cbn [piece_text piece_value app]. destruct Hq as (H1 & H2 & H3).
    destruct (decide (room o)) as [Hr|Hr]; [|by apply ends_full].
    apply (expands_char c i e o v); [done..| cbn; lia |]. rewrite macro_step_plain by done.
    unfold macro_switch. by rewrite (proj2 (Z.eqb_neq c 39)), (proj2 (Z.eqb_neq c 36)) by done.
  - intros o v p Ho Hp. cbn [piece_text piece_value app].
    destruct (decide (room o)) as [Hr|Hr]; [|by apply ends_full].
    apply (expands_char c i e o v); [done..| cbn; lia |].
    unfold macro_step. cbn [m_input m_state m_prev m_output m_varname].
    rewrite (proj2 (Z.eqb_neq p 92)) by done. cbn [Z.eqb Pos.eqb negb andb].
    unfold macro_switch. cbn [m_state m_prev]. by rewrite !andb_false_r.
  - apply expands_var; [done | | done]. cbn [piece_text] in Hl. size.
  - by apply expands_dollar.
  - by apply expands_quoted.
Qed.

Lemma expands_ending x : ending_ok x -> expands (ending_text x) (ending_value x).
Proof.
  assert (Hstop : forall o s v p, (length o <= Z.to_nat CONFIG_SYS_CBSIZE)%nat -> ends (mk_macro [] o s v p) (fit (o ++ []))).
  { intros o s v p Ho. rewrite app_nil_r, fit_id by done. by apply ends_stop; [left|]. }
  intros Hx o v p Ho Hp. destruct x as [| | |op name|s]; cbn [ending_text ending_value].
  1: by apply Hstop.
  all: destruct (decide (room o)) as [Hr|Hr]; [|by apply ends_full].
  - apply ends_dollar; [done..|]. by apply Hstop.
  - rewrite app_nil_r, fit_id by done. intros [|fuel] Hf; [cbn in Hf; lia|]. cbn [macro_loop m_input length].
    unfold outputcnt, macro_step; cbn [m_output m_state m_input m_prev]. rewrite (proj2 (Z.eqb_neq _ 0)) by size.
    rewrite (proj2 (Z.eqb_neq (CONFIG_SYS_CBSIZE - _) 0)) by size.
    by rewrite (proj2 (Z.eqb_neq p 92)).
  - destruct Hx as [Hop Hn]. apply ends_dollar; [done..|]. apply ends_bracket; [done..|].
    rewrite <- (app_nil_r name) at 1. apply ends_varname; [done | lia | done |]. intros p' _. by apply Hstop.
  - apply ends_quote; [done..|]. rewrite <- (app_nil_r s). apply ends_quoted; [done..|]. intros o' Ho'. by apply Hstop.
Qed.

Lemma expands_line ps x : Forall piece_ok ps -> ending_ok x ->
  Z.of_nat (length (line_text ps x)) < CONFIG_SYS_CBSIZE -> expands (line_text ps x) (line_value ps x).
Proof.
  intros Hps Hx. unfold line_text, line_value. induction Hps as [|q ps Hq Hps IH]; cbn [map concat]; intros Hl.
  - by apply expands_ending.
  - rewrite <- !app_assoc in *. rewrite length_app in Hl. apply expands_piece; [done | lia | apply IH; lia].
Qed.

(** The string left in the buffer is the output with its last character dropped when the buffer is full. *)
Lemma terminated_fit e :
  (if negb (CONFIG_SYS_CBSIZE - Z.of_nat (length (fit e)) =? 0) then fit e else removelast (fit e))
  = take (Z.to_nat CONFIG_SYS_CBSIZE - 1) e.
Proof.
  pose proof cbsize_pos. pose proof (fit_length e). unfold fit in *. rewrite length_take in *.
  destruct (Z.eqb_spec (CONFIG_SYS_CBSIZE - Z.of_nat (Z.to_nat CONFIG_SYS_CBSIZE `min` length e)) 0); cbn [negb].
  - rewrite removelast_firstn_len, length_take, take_take. f_equal. lia.
  - by rewrite !take_ge by lia.
Qed.

Lemma process_macros_line ps x : Forall piece_ok ps -> ending_ok x ->
  Z.of_nat (length (line_text ps x)) < CONFIG_SYS_CBSIZE ->
  cli_simple_process_macros getenv (line_text ps x) = Some (take (Z.to_nat CONFIG_SYS_CBSIZE - 1) (line_value ps x)).
Proof.
  intros Hps Hx Hl. unfold cli_simple_process_macros.
  pose proof (expands_line ps x Hps Hx Hl [] [] 0 ltac:(cbn; lia) ltac:(done)) as He.
  rewrite He by (cbn; lia). cbn [mbind option_bind app]. by rewrite terminated_fit.
Qed.

(** ** Every line *)

(** What keeps the writes to [output] and [envname] inside their buffers. *)
Definition in_buffers (st : macro_state) : Prop :=
  (length (m_output st) <= Z.to_nat CONFIG_SYS_CBSIZE)%nat /\ room (m_input st) /\ room (m_varname st).

Lemma within_put st s c : in_buffers st -> room (m_output st) -> in_buffers (put_out (set_state st s) c).
Proof. intros (Ho & Hi & Hv) Hr. unfold in_buffers. cbn [m_output m_input m_varname put_out set_state]. split; [size|done]. Qed.

Lemma macro_switch_within st c : in_buffers st -> room (m_output st) ->
  exists st', macro_switch getenv st c = Some st' /\ m_input st' = m_input st /\ in_buffers st'.
Proof.
  intros Hw Hr. pose proof (within_put st (m_state st) c Hw Hr) as Hput.
  replace (set_state st (m_state st)) with st in Hput by by destruct st.
  pose proof (within_put st 0 36 Hw Hr) as Hput'. destruct (id Hw) as (Ho & Hi & Hv).
  unfold macro_switch. destruct (m_state st =? 0); [repeat case_match; by eexists|].
  destruct (m_state st =? 1).
  { destruct (_ || _); [by eexists|]. eexists; split_and!; [done| by case_match |].
    destruct (Z.eqb_spec (outputcnt (put_out (set_state st 0) 36)) 0) as [E|E]; [done|]. cbn [negb].
    apply (within_put (put_out (set_state st 0) 36) 0 c); [done|]. unfold outputcnt in E. destruct Hput'. size. }
  destruct (m_state st =? 2); [|repeat case_match; by eexists].
  destruct (_ || _); [|by eexists].
  unfold expand_var. rewrite (proj2 (Z.leb_gt _ _)) by (unfold room in *; lia).
  eexists; split_and!; [done..|]. split; [|done]. cbn [m_output]. rewrite length_app.
  unfold outputcnt. destruct (getenv _); [rewrite length_take; size|]. cbn [length]. lia.
Qed.

Lemma macro_step_within st : in_buffers st -> room (m_output st) -> m_input st <> [] ->
  macro_step getenv st = Some None \/
  exists st', macro_step getenv st = Some (Some st') /\ (length (m_input st') < length (m_input st))%nat /\ in_buffers st'.
Proof.
  intros (Ho & Hi & Hv) Hr Hne. unfold macro_step. destruct (m_input st) as [|c [|c' i]] eqn:Ei; [done| |].
  - destruct (_ && _); [by left|]. right.
    edestruct (macro_switch_within (mk_macro [] (m_output st) (m_state st) (m_varname st) (m_prev st)) c)
      as (st' & -> & Hin & Hw); [split_and!; [done..]|done|].
    eexists; split_and!; [done | cbn in *; rewrite Hin; cbn; lia | exact Hw].
  - right. destruct (_ && _).
    + edestruct (macro_switch_within (mk_macro i (m_output st) (m_state st) (m_varname st) c) c')
        as (st' & -> & Hin & Hw); [split_and!; [done|cbn; size|done]|done|].
      eexists; split_and!; [done | cbn in *; rewrite Hin; cbn; lia | exact Hw].
    + edestruct (macro_switch_within (mk_macro (c' :: i) (m_output st) (m_state st) (m_varname st) (m_prev st)) c)
        as (st' & -> & Hin & Hw); [split_and!; [done|cbn; size|done]|done|].
      eexists; split_and!; [done | cbn in *; rewrite Hin; cbn; lia | exact Hw].
Qed.

Lemma macro_loop_within fuel st : (length (m_input st) < fuel)%nat -> in_buffers st ->
  exists out, macro_loop getenv fuel st = Some out /\ (length out <= Z.to_nat CONFIG_SYS_CBSIZE)%nat.
Proof.
  revert st. induction fuel as [|fuel IH]; intros st Hf Hw; [lia|]. cbn [macro_loop].
  pose proof (proj1 Hw). destruct (Z.eqb_spec (Z.of_nat (length (m_input st))) 0); [by eexists|].
  destruct (Z.eqb_spec (outputcnt st) 0) as [|E]; [by eexists|]. cbn [negb andb].
  destruct (macro_step_within st) as [-> | (st' & -> & Hl & Hw')]; [done|unfold outputcnt in E; size| |by eexists|].
  - intros E'. by rewrite E' in *.
  - apply IH; [lia|done].
Qed.

Lemma process_macros_total input : room input ->
  exists out, cli_simple_process_macros getenv input = Some out /\ room out.
Proof.
  intros Hi. unfold cli_simple_process_macros.
  destruct (macro_loop_within (S (length input)) (mk_macro input [] 0 [] 0)) as (out & -> & Ho); [cbn; lia|split_and!; [cbn; lia|done|done]|].
  cbn [mbind option_bind]. eexists; split; [done|].
  destruct (Z.eqb_spec (CONFIG_SYS_CBSIZE - Z.of_nat (length out)) 0); cbn [negb]; [|size].
  unfold room. rewrite removelast_firstn_len, length_take. size.
Qed.
End expansion.

(** ** Words *)

(** The maximal runs of characters that are not blank. *)
Fixpoint words (line : cstr) : list cstr :=
  match line with
  | [] => []
  | c :: line' =>
      if isblank c then words line'
      else
        let last := match line' with c' :: _ => isblank c' | [] => true end in
        match words line' with
        | w :: ws => if last then [c] :: w :: ws else (c :: w) :: ws
        | [] => [[c]]
        end
  end.

Lemma words_skip line : words (skip_blank line) = words line.
Proof. induction line as [|c line IH]; [done|]. cbn. by destruct (isblank c) eqn:E; [|cbn; rewrite E]. Qed.

Lemma skip_blank_head line c l : skip_blank line = c :: l -> isblank c = false.
Proof.
  induction line as [|d line IH]; cbn; [done|]. destruct (isblank d) eqn:E; [apply IH|]. by intros [= <- <-].
Qed.

Lemma words_take_word line c l : line = c :: l -> isblank c = false ->
  words line = (take_word line).1 :: words (take_word line).2.
Proof.
  intros ->. revert c. induction l as [|d l IH]; intros c Hc; cbn [take_word words]; rewrite Hc; [done|].
  destruct (isblank d) eqn:Hd; cbn [fst snd].
  - cbn [words]. rewrite Hd. by destruct (words l).
  - specialize (IH d Hd). cbn [take_word words] in *. rewrite Hd in *.
    destruct (take_word l) as [w r] eqn:Ew; cbn [fst snd] in *. by rewrite IH.
Qed.

Lemma take_word_rest line : (take_word line).2 = [] \/ exists b r, (take_word line).2 = b :: r /\ isblank b = true.
Proof.
  induction line as [|c line IH]; [by left|]. cbn [take_word]. destruct (isblank c) eqn:E; [right; eauto|].
  by destruct (take_word line).
Qed.

Lemma parse_line_words n line : (parse_line_loop n line).1 = take n (words line).
Proof.
  revert line. induction n as [|n IH]; intros line; [done|]. cbn [parse_line_loop].
  rewrite <- (words_skip line). destruct (skip_blank line) as [|c l] eqn:E; [done|].
  rewrite (words_take_word _ _ _ eq_refl (skip_blank_head _ _ _ E)).
  pose proof (take_word_rest (c :: l)) as Hr. destruct (take_word (c :: l)) as [w r]. cbn [fst snd] in *.
  destruct Hr as [-> | (b & r' & -> & Hb)]; [cbn; by rewrite take_nil|].
  specialize (IH r'). destruct (parse_line_loop n r'). cbn [fst] in *. cbn [take words]. by rewrite Hb, IH.
Qed.

Lemma parse_line_terminated n line : (length (words line) < n)%nat -> (parse_line_loop n line).2 = true.
Proof.
  revert line. induction n as [|n IH]; intros line Hl; [lia|]. cbn [parse_line_loop].
  rewrite <- (words_skip line) in Hl. destruct (skip_blank line) as [|c l] eqn:E; [done|].
  rewrite (words_take_word _ _ _ eq_refl (skip_blank_head _ _ _ E)) in Hl.
  pose proof (take_word_rest (c :: l)) as Hr. destruct (take_word (c :: l)) as [w r]. cbn [fst snd] in *.
  destruct Hr as [-> | (b & r' & -> & Hb)]; [done|].
  cbn [words length] in Hl. rewrite Hb in Hl. specialize (IH r' ltac:(lia)). by destruct (parse_line_loop n r').
Qed.

Lemma cli_simple_parse_line_words line :
  cli_simple_parse_line line =
    let argv := take (Z.to_nat CONFIG_SYS_MAXARGS) (words line) in
    (Z.of_nat (length argv), argv, (parse_line_loop (Z.to_nat CONFIG_SYS_MAXARGS) line).2).
Proof.
  unfold cli_simple_parse_line. pose proof (parse_line_words (Z.to_nat CONFIG_SYS_MAXARGS) line) as H.
  destruct (parse_line_loop _ line). cbn [fst snd] in *. by rewrite H.
Qed.

(** ** Commands and command lines *)

Section dispatch.
Context {world : Type}.
Implicit Types (e : @cmd_tbl_s world) (table : list (@cmd_tbl_s world)).

Definition exact_name (base : cstr) e : bool := bool_decide (cmd_name e = base).
Definition abbreviates (base : cstr) e : bool := bool_decide (take (length base) (cmd_name e) = base).

Lemma find_cmd_loop_spec base table temp n :
  find_cmd_loop base table temp n =
    match List.find (exact_name base) table with
    | Some e => inl e
    | None => let found := List.filter (abbreviates base) table in
              inr (default temp (Some <$> list.last found), n + Z.of_nat (length found))
    end.
Proof.
  revert temp n. induction table as [|e table IH]; intros temp n; cbn [find_cmd_loop List.find List.filter].
  { cbn. by rewrite Z.add_0_r. }
  change (bool_decide (take (length base) (cmd_name e) = base)) with (abbreviates base e).
  destruct (exact_name base e) eqn:E; unfold exact_name in E.
  - apply bool_decide_eq_true in E. unfold abbreviates.
    rewrite bool_decide_true by (rewrite <- E; apply firstn_all). by rewrite E, Nat.eqb_refl.
  - apply bool_decide_eq_false in E. destruct (abbreviates base e) eqn:Ht; [|apply IH].
    apply bool_decide_eq_true in Ht.
    destruct (Nat.eqb_spec (length base) (length (cmd_name e))) as [El|El].
    { destruct E. rewrite El in Ht. by rewrite firstn_all in Ht. }
    rewrite IH. destruct (List.find _ table); [done|]. cbn [length]. rewrite last_cons.
    f_equal. f_equal; [by destruct (list.last _) | lia].
Qed.

Lemma find_cmd_tbl_spec c table :
  find_cmd_tbl c table =
    match List.find (exact_name (base_name c)) table with
    | Some e => Some e
    | None => match List.filter (abbreviates (base_name c)) table with [e] => Some e | _ => None end
    end.
Proof.
  unfold find_cmd_tbl. rewrite find_cmd_loop_spec. destruct (List.find _ table); [done|].
  destruct (List.filter _ table) as [|e [|e' l]]; [done..|]. cbn [length].
  rewrite (proj2 (Z.eqb_neq _ 1)) by lia. done.
Qed.

Context (table : list (@cmd_tbl_s world)) (getenv : world -> cstr -> option cstr)
  (had_ctrlc : world -> bool) (clear_ctrlc : world -> world) (stack_byte : world -> Z).

Lemma cmd_process_total flag a l rep w : exists r, cmd_process table flag (a :: l) rep w = Some r.
Proof.
  unfold cmd_process. cbn [list.head mbind option_bind]. destruct (find_cmd_tbl _ _); [|by eexists].
  repeat case_match; by eexists.
Qed.

Lemma find_sep_lengths s prev start q :
  let '(t, r) := find_sep s prev start q in
  (length t + length r = length s)%nat /\ (start = true -> s <> [] -> (length r < length s)%nat).
Proof.
  revert prev start q. induction s as [|c s IH]; intros prev start q; [done|]. cbn [find_sep].
  destruct (_ && _) eqn:E.
  - split; [done|]. intros ->. by rewrite !andb_false_r in E.
  - specialize (IH c false (if (c =? 39) && negb (prev =? 92) then negb q else q)).
    destruct (find_sep s c false _). cbn [length]. destruct IH. split; [lia|]. intros. lia.
Qed.

Lemma run_loop_total fuel str before flag rc rep w : (length str < fuel)%nat -> room str ->
  exists r, run_loop table getenv had_ctrlc fuel str before flag rc rep w = Some r.
Proof.
  revert str before rc rep w. induction fuel as [|fuel IH]; intros str before rc rep w Hf Hr; [lia|].
  cbn [run_loop]. destruct str as [|c str]; [by eexists|]. set (s := c :: str) in *.
  pose proof (find_sep_lengths s before true false) as Hl. destruct (find_sep s before true false) as [token sep].
  destruct Hl as [Hl Hsep]. specialize (Hsep eq_refl ltac:(done)).
  destruct (process_macros_total (getenv w) token) as (out & -> & _); [unfold room in *; lia|]. cbn [mbind option_bind].
  assert (Hnext : exists str' before', match sep with _ :: s => (s, 0) | [] => ([], 0) end = (str', before')
    /\ (length str' < fuel)%nat /\ room str').
  { unfold room in *. destruct sep; cbn [length] in *; eexists _, _; (split; [reflexivity|]); cbn [length]; lia. }
  destruct Hnext as (str' & before' & -> & Hf' & Hr').
  rewrite cli_simple_parse_line_words. cbv zeta. destruct (take _ (words out)) as [|a l]; [by apply IH|].
  rewrite (proj2 (Z.eqb_neq _ 0)) by (cbn; lia).
  destruct (cmd_process_total flag a l rep w) as [[[r rep'] w'] ->]. cbn [mbind option_bind].
  destruct (had_ctrlc w'); [by eexists|by apply IH].
Qed.

Lemma run_command_total c flag w :
  exists r, cli_simple_run_command table getenv had_ctrlc clear_ctrlc stack_byte c flag w = Some r.
Proof.
  unfold cli_simple_run_command. destruct c as [[|a c]|]; [by eexists| |by eexists].
  destruct (Z.leb_spec CONFIG_SYS_CBSIZE (Z.of_nat (length (a :: c)))); [by eexists|].
  destruct (run_loop_total (S (length (a :: c))) (a :: c) (stack_byte (clear_ctrlc w)) flag 0 1 (clear_ctrlc w))
    as [[[rc rep] w'] ->]; [lia|done|]. by eexists.
Qed.

(** *** Lists of lines *)

Fixpoint lines (s : cstr) : list cstr :=
  match s with
  | [] => [[]]
  | c :: s => let ls := lines s in
      if c =? 10 then [] :: ls else match ls with l :: ls => (c :: l) :: ls | [] => [[c]] end
  end.

Fixpoint run_lines (ls : list cstr) (w : world) : option (Z * world) :=
  match ls with
  | [] => Some (0, w)
  | [] :: ls => run_lines ls w
  | l :: ls =>
      '(r, w) ← cli_simple_run_command table getenv had_ctrlc clear_ctrlc stack_byte (Some l) 0 w;
      if r <? 0 then Some (1, w) else run_lines ls w
  end.

Lemma lines_nonempty s : exists l ls, lines s = l :: ls.
Proof. destruct s as [|c s]; [by eexists _, _|]. cbn. repeat case_match; by eexists _, _. Qed.

Lemma run_list_lines next line w :
  run_list_loop table getenv had_ctrlc clear_ctrlc stack_byte next line w =
    match lines next with l :: ls => run_lines ((line ++ l) :: ls) w | [] => None end.
Proof.
  revert line w. induction next as [|c next IH]; intros line w; cbn [run_list_loop lines].
  - rewrite app_nil_r. destruct line; [done|]. cbn [run_lines].
    destruct (cli_simple_run_command _ _ _ _ _ _ _ _) as [[r w']|]; [|done]. cbn. by destruct (r <? 0).
  - destruct (c =? 10).
    + rewrite app_nil_r.
      assert (E : forall w, run_list_loop table getenv had_ctrlc clear_ctrlc stack_byte next [] w = run_lines (lines next) w).
      { intros w'. rewrite IH. by destruct (lines_nonempty next) as (l & ls & ->). }
      destruct line; [apply E|]. cbn [run_lines].
      destruct (cli_simple_run_command _ _ _ _ _ _ _ _) as [[r w']|]; [|done]. cbn. destruct (r <? 0); [done|apply E].
    + rewrite IH. destruct (lines_nonempty next) as (l & ls & ->). by rewrite <- app_assoc.
Qed.

(** *** Commands separated by semicolons *)

(** A piece without a separator that would be seen by the search for one. *)
Definition segment_piece (q : piece) : Prop :=
  piece_ok q /\
  match q with
  | Lit c => c <> 59
  | Esc _ | Quoted _ => True
  | Var _ name _ => Forall (fun c => c <> 39 /\ c <> 59) name
  | Dollar c => c <> 39 /\ c <> 59
  end.

Definition segment_text (ps : list piece) : cstr := line_text ps Done.

Fixpoint join_commands (segs : list (list piece)) : cstr :=
  match segs with
  | [] => []
  | [ps] => segment_text ps
  | ps :: segs => segment_text ps ++ 59 :: join_commands segs
  end.

(** The arguments a command is called with. *)
Definition arguments (w : world) (ps : list piece) : list cstr :=
  take (Z.to_nat CONFIG_SYS_MAXARGS) (words (take (Z.to_nat CONFIG_SYS_CBSIZE - 1) (line_value (getenv w) ps Done))).

(** The commands one after the other, each with the environment the ones before it left. *)
Fixpoint run_segments (flag : Z) (segs : list (list piece)) (rc rep : Z) (w : world) : option (Z * Z * world) :=
  match segs with
  | [] => Some (rc, rep, w)
  | ps :: segs =>
      match arguments w ps with
      | [] => run_segments flag segs (-1) rep w
      | argv =>
          '(r, rep, w) ← cmd_process table flag argv rep w;
          if had_ctrlc w then Some (-1, rep, w)
          else run_segments flag segs (if r =? 0 then rc else -1) rep w
      end
  end.

Lemma find_sep_char c s prev start q :
  c <> 39 \/ prev = 92 -> c <> 59 \/ prev = 92 \/ q = true ->
  find_sep (c :: s) prev start q = let '(u, r) := find_sep s c false q in (c :: u, r).
Proof.
  intros H1 H2. cbn [find_sep].
  replace ((c =? 39) && negb (prev =? 92)) with false
    by (symmetry; rewrite andb_false_iff, negb_false_iff, Z.eqb_neq, Z.eqb_eq; lia).
  replace (negb q && (c =? 59) && negb start && negb (prev =? 92)) with false; [done|].
  symmetry. rewrite !andb_false_iff, !negb_false_iff, Z.eqb_neq, Z.eqb_eq. tauto.
Qed.

Lemma find_sep_plain t prev rest : Forall (fun c => c <> 39 /\ c <> 59) t ->
  exists prev', find_sep (t ++ rest) prev false false = let '(u, r) := find_sep rest prev' false false in (t ++ u, r).
Proof.
  intros Ht. revert prev. induction Ht as [|c t [H1 H2] Ht IH]; intros prev.
  - exists prev. cbn [app]. by destruct (find_sep rest prev false false).
  - destruct (IH c) as [prev' E]. exists prev'. cbn [app]. rewrite find_sep_char by tauto. rewrite E.
    by destruct (find_sep rest prev' false false).
Qed.

Lemma find_sep_quoted t prev rest : quotable prev t ->
  find_sep (t ++ rest) prev false true = let '(u, r) := find_sep rest (List.last t prev) false true in (t ++ u, r).
Proof.
  revert prev. induction t as [|c t IH]; intros prev; cbn [app quotable].
  - intros _. cbn [List.last]. by destruct (find_sep rest prev false true).
  - intros [Hc Ht]. rewrite find_sep_char by tauto || lia. rewrite (IH c Ht), last_cons_list.
    by destruct (find_sep rest (List.last t c) false true).
Qed.

Lemma find_sep_quote s prev start q : prev <> 92 ->
  find_sep (39 :: s) prev start q = let '(u, r) := find_sep s 39 false (negb q) in (39 :: u, r).
Proof. intros H. cbn [find_sep Z.eqb Pos.eqb]. rewrite (proj2 (Z.eqb_neq prev 92)) by done. by rewrite andb_false_r. Qed.

Lemma find_sep_piece pc prev start rest : segment_piece pc -> prev <> 92 ->
  exists prev', prev' <> 92 /\
  find_sep (piece_text pc ++ rest) prev start false =
    let '(u, r) := find_sep rest prev' false false in (piece_text pc ++ u, r).
Proof.
  destruct pc as [c|c|op name cl|c|t]; intros [Hok Hs] Hp; cbn [piece_text piece_ok] in *.
  - destruct Hok as (? & ? & ?). exists c. split; [done|]. by apply find_sep_char; lia.
  - exists c. split; [done|]. cbn [app]. rewrite !find_sep_char by lia. by destruct (find_sep rest c false false).
  - destruct Hok as (Hop & Hcl & _). exists cl. split; [lia|]. rewrite <- !app_comm_cons, <- app_assoc.
    rewrite !find_sep_char by lia. destruct (find_sep_plain name op ([cl] ++ rest) Hs) as [prev' ->].
    cbn [app]. rewrite find_sep_char by lia. destruct (find_sep rest cl false false). by rewrite <- app_assoc.
  - destruct Hok as (? & ? & ?), Hs. exists c. split; [done|]. cbn [app]. rewrite !find_sep_char by lia.
    by destruct (find_sep rest c false false).
  - destruct Hok as [Hq Hl]. exists 39. split; [done|]. rewrite <- app_comm_cons, <- app_assoc.
    rewrite find_sep_quote by done. cbn [negb]. rewrite find_sep_quoted by done. cbn [app].
    rewrite find_sep_quote by done. cbn [negb]. destruct (find_sep rest 39 false false). by rewrite <- app_assoc.
Qed.

Lemma find_sep_segment ps prev rest : ps <> [] -> Forall segment_piece ps -> prev <> 92 ->
  (rest = [] \/ exists r, rest = 59 :: r) ->
  find_sep (segment_text ps ++ rest) prev true false = (segment_text ps, rest).
Proof.
  intros Hne Hps Hp Hr. unfold segment_text, line_text. cbn [ending_text]. rewrite app_nil_r.
  assert (Hend : forall prev, prev <> 92 -> find_sep rest prev false false = ([], rest)).
  { intros prev' H'. destruct Hr as [-> | [r ->]]; [done|]. cbn. by rewrite (proj2 (Z.eqb_neq prev' 92)). }
  assert (Hgen : forall start, (ps = [] -> start = false) ->
    find_sep (concat (map piece_text ps) ++ rest) prev start false = (concat (map piece_text ps), rest)).
  { revert prev Hp. clear Hne. induction Hps as [|pc ps Hpc Hps IH]; intros prev Hp start Hst.
    - rewrite Hst by done. by apply Hend.
    - cbn [map concat]. rewrite <- app_assoc. destruct (find_sep_piece pc prev start (concat (map piece_text ps) ++ rest)) as (p' & Hp' & ->); [done..|].
      by rewrite IH. }
  by apply Hgen.
Qed.

Lemma join_cons ps segs : exists rest,
  join_commands (ps :: segs) = segment_text ps ++ rest /\ (segs = [] /\ rest = [] \/ segs <> [] /\ rest = 59 :: join_commands segs).
Proof.
  destruct segs as [|ps' segs]; [exists []; rewrite app_nil_r; auto|]. eexists; split; [done|]. right. done.
Qed.

Lemma segment_text_nonempty ps : ps <> [] -> segment_text ps <> [].
Proof. destruct ps as [|[] ps]; done. Qed.

Lemma run_loop_segments segs fuel before flag rc rep w :
  Forall (fun ps => ps <> [] /\ Forall segment_piece ps) segs -> room (join_commands segs) -> before <> 92 ->
  (length (join_commands segs) < fuel)%nat ->
  run_loop table getenv had_ctrlc fuel (join_commands segs) before flag rc rep w = run_segments flag segs rc rep w.
Proof.
  intros Hs. revert fuel before rc rep w. induction Hs as [|ps segs [Hne Hps] Hs IH];
    intros [|fuel] before rc rep w Hr Hb Hf; try lia; [done|].
  destruct (join_cons ps segs) as (rest & Ej & Hrest). rewrite Ej in *.
  unfold room in Hr. rewrite length_app in Hr, Hf. pose proof (segment_text_nonempty ps Hne) as Ht.
  assert (Hl : (length (segment_text ps) > 0)%nat) by (destruct (segment_text ps); [done|cbn; lia]).
  cbn [run_loop]. destruct (segment_text ps ++ rest) as [|c0 s0] eqn:E0; [by destruct (segment_text ps)|].
  rewrite <- E0. rewrite find_sep_segment; [|done..|destruct Hrest as [[_ ->] | [_ ->]]; eauto].
  unfold segment_text in *. rewrite process_macros_line; [|by eapply Forall_impl; [|exact Hps]; intros ? []|done|lia].
  cbn [mbind option_bind].
  assert (Hnext : exists b', match rest with _ :: s => (s, 0) | [] => ([], 0) end = (join_commands segs, b')
    /\ b' <> 92 /\ (length (join_commands segs) <= length rest)%nat).
  { exists 0. destruct Hrest as [[-> ->] | [_ ->]]; cbn [length]; split_and!; done || lia. }
  destruct Hnext as (b' & -> & Hb' & Hlen).
  assert (IH' : forall rc rep w, run_loop table getenv had_ctrlc fuel (join_commands segs) b' flag rc rep w = run_segments flag segs rc rep w).
  { intros. apply IH; [unfold room; lia | done | lia]. }
  rewrite cli_simple_parse_line_words. cbv zeta. cbn [run_segments]. unfold arguments.
  destruct (take _ (words _)) as [|a l]; [apply IH'|].
  rewrite (proj2 (Z.eqb_neq _ 0)) by (cbn; lia).
  destruct (cmd_process table flag (a :: l) rep w) as [[[r rep'] w']|]; [|done]. cbn [mbind option_bind].
  destruct (had_ctrlc w'); [done|]. rewrite IH'. by destruct (r =? 0).
Qed.
End dispatch.

(** C35: [cli_simple_process_macros] expands a line made of plain characters,
    escaped characters, [$(name)] or [${name}], a dollar sign before any other
    character, and quotations, and which may end in a lone [$] or backslash or
    in an open name or quotation: the result is the concatenation of the
    values (a variable that is not set counts as empty, quotations are copied
    without expansion), cut to what fits [CONFIG_SYS_CBSIZE - 1] characters. *)
Theorem process_macros_correct getenv ps x :
  Forall piece_ok ps -> ending_ok x -> Z.of_nat (length (line_text ps x)) < CONFIG_SYS_CBSIZE ->
  cli_simple_process_macros getenv (line_text ps x) = Some (take (Z.to_nat CONFIG_SYS_CBSIZE - 1) (line_value getenv ps x)).
Proof. apply process_macros_line. Qed.

Lemma process_macros_correct_witness :
  cli_simple_process_macros (fun n => if bool_decide (n = str "a") then Some (str "xyz") else None)
    (line_text [Lit 104; Var 123 (str "a") 125; Esc 36; Var 40 (str "b") 41; Dollar 120; Quoted (str "$;\'")] (OpenVar 40 (str "a")))
  = Some (str "hxyz$$x$;\'").
Proof.
  rewrite process_macros_correct; [vm_compute; reflexivity | | | vm_compute; reflexivity].
  - unfold piece_ok, name_ok. repeat (first [apply Forall_nil | apply Forall_cons]; split_and?; cbn; try lia; try done).
  - unfold ending_ok, name_ok. split; [lia|]. repeat (first [apply Forall_nil | apply Forall_cons]; split_and?; cbn; try lia; try done).
Defined.


(** C12: A line of commands separated by semicolons runs them in order: each
    is expanded with the environment the ones before it left, split into at
    most [CONFIG_SYS_MAXARGS] blank-separated arguments and dispatched;
    separators in quotations or after a backslash do not count.  The result is
    -1 if a command failed, was empty or was interrupted, which ends the line,
    and the conjunction of the [repeatable] flags otherwise. *)
Theorem run_command_sequential {world} (table : list (@cmd_tbl_s world)) getenv had_ctrlc clear_ctrlc stack_byte segs flag w :
  segs <> [] -> Forall (fun ps => ps <> [] /\ Forall segment_piece ps) segs ->
  Z.of_nat (length (join_commands segs)) < CONFIG_SYS_CBSIZE -> stack_byte (clear_ctrlc w) <> 92 ->
  cli_simple_run_command table getenv had_ctrlc clear_ctrlc stack_byte (Some (join_commands segs)) flag w =
    '(rc, rep, w) ← run_segments table getenv had_ctrlc flag segs 0 1 (clear_ctrlc w);
    Some (if rc =? 0 then rep else rc, w).
Proof.
  intros Hne Hs Hl Hb. unfold cli_simple_run_command.
  destruct (join_commands segs) as [|c s] eqn:E.
  { destruct segs as [|ps segs]; [done|]. destruct (join_cons ps segs) as (rest & Ej & _).
    apply Forall_cons_iff in Hs as [[Hps _] _]. apply segment_text_nonempty in Hps. rewrite E in Ej.
    by destruct (segment_text ps). }
  rewrite <- E in *. rewrite (proj2 (Z.leb_gt _ _)) by done. rewrite run_loop_segments by done || lia.
  destruct (run_segments _ _ _ _ _ _ _ _) as [[[rc rep] w']|]; [|done]. cbn. by destruct (rc =? 0).
Qed.

(** Commands that log their arguments; the last one also fails. *)
Definition log_table : list (@cmd_tbl_s (list (list cstr))) :=
  [mk_cmd (str "echo") 3 1 false (fun w _ a => (0, w ++ [a])); mk_cmd (str "fail") 2 0 false (fun w _ a => (1, w ++ [a]))].

Lemma run_command_sequential_witness :
  cli_simple_run_command log_table (fun w _ => Some (str "2 3")) (fun _ => false) (fun w => w) (fun _ => 0)
    (Some (str "echo a';'b;ec $(x);f ;echo 1 2 3")) 0 []
  = Some (-1, [[str "echo"; str "a;b"]; [str "ec"; str "2"; str "3"]; [str "f"]]).
Proof.
  change (str "echo a';'b;ec $(x);f ;echo 1 2 3") with
    (join_commands [map Lit (str "echo a") ++ [Quoted [59]; Lit 98]; map Lit (str "ec ") ++ [Var 40 [120] 41];
           map Lit (str "f "); map Lit (str "echo 1 2 3")]).
  rewrite run_command_sequential; [vm_compute; reflexivity | done | | vm_compute; reflexivity | done].
  repeat constructor; cbn; try lia; done.
Defined.

(** [find_cmd_tbl] returns the first command whose name is the given one
    up to its first dot; without such a command, the only one whose name
    starts with it; and nothing if there is none or more than one. *)
Theorem find_cmd_tbl_correct {world} c (table : list (@cmd_tbl_s world)) :
  find_cmd_tbl c table =
    match List.find (exact_name (base_name c)) table with
    | Some e => Some e
    | None => match List.filter (abbreviates (base_name c)) table with [e] => Some e | _ => None end
    end.
Proof. apply find_cmd_tbl_spec. Qed.

(** After an escaped backslash the next dollar sign counts as escaped too: ["\\$(a)"] is not expanded. *)
Lemma escaped_backslash_hides_variable :
  cli_simple_process_macros (fun _ => Some (str "v")) [92; 92; 36; 40; 97; 41] = Some [92; 36; 40; 97; 41].
Proof. reflexivity. Qed.

(** With more than [CONFIG_SYS_MAXARGS] words the argument vector is not terminated. *)
Lemma too_many_args_unterminated :
  let '(argc, _, terminated) := cli_simple_parse_line (concat (replicate 257 [97; 32])) in
  argc = CONFIG_SYS_MAXARGS /\ terminated = false.
Proof. by vm_compute. Qed.
