(* ===== verification/Environment.v ===== *)
(** * Environment: the variables of the boot loader ([common/cmd_nvedit.c],
      [common/env_common.c], [common/env_mmc.c])

    The environment lives in the hash table [env_htab] once it has been
    imported; before, [getenv_f] searches its linear form in memory.  It is
    saved to and loaded from a block device with a checksum in front of it.
    The state is the part of [gd] these functions use and the table.  An
    access outside of an array gives [None]. *)
From stdpp Require Import gmap.
From Stdlib Require Import String.
From S2P Require Import Prelude CString Hashtable HashIO Crc EnvFlags Div64 Numbers Vsprintf CliSimple.

Definition CONFIG_ENV_SIZE : Z := 8 * 1024.
Definition ENV_HEADER_SIZE : Z := 4.
Definition ENV_SIZE : Z := CONFIG_ENV_SIZE - ENV_HEADER_SIZE.
Definition GD_FLG_RELOC : Z := 0x1.
Definition GD_FLG_ENV_READY : Z := 0x80.
Definition H_INTERACTIVE : Z := Z.shiftl 1 2.

(** [env_addr] is the memory that [gd->env_addr] points to; [env_buf] has 32 bytes. *)
Record gdata := mk_gd {
  gd_flags : Z; env_addr : list Z; env_valid : Z; env_buf : list Z; env_htab : hsearch_data; env_id : Z }.

Definition with_flags (gd : gdata) (f : Z) : gdata :=
  mk_gd f (env_addr gd) (env_valid gd) (env_buf gd) (env_htab gd) (env_id gd).
Definition with_valid (gd : gdata) (v : Z) : gdata :=
  mk_gd (gd_flags gd) (env_addr gd) v (env_buf gd) (env_htab gd) (env_id gd).
Definition with_buf (gd : gdata) (b : list Z) : gdata :=
  mk_gd (gd_flags gd) (env_addr gd) (env_valid gd) b (env_htab gd) (env_id gd).
Definition with_htab (gd : gdata) (h : hsearch_data) : gdata :=
  mk_gd (gd_flags gd) (env_addr gd) (env_valid gd) (env_buf gd) h (env_id gd).
Definition next_env_id (gd : gdata) : gdata :=
  mk_gd (gd_flags gd) (env_addr gd) (env_valid gd) (env_buf gd) (env_htab gd) (env_id gd + 1).

Section environment.
Context {HH : EnvHooks} (default_environment : list Z).

(** ** The linear form in memory *)

Definition env_get_char_spec (gd : gdata) (index : Z) : option Z := aget (env_addr gd) index.

Definition env_get_char_init (gd : gdata) (index : Z) : option Z :=
  if negb (env_valid gd =? 0) then env_get_char_spec gd index else aget default_environment index.

(** The array [env_get_addr] points into. *)
Definition env_get_addr (gd : gdata) : list Z :=
  if negb (env_valid gd =? 0) then env_addr gd else default_environment.

Definition env_get_char_memory (gd : gdata) (index : Z) : option Z := aget (env_get_addr gd) index.

Definition env_get_char (gd : gdata) (index : Z) : option Z :=
  if has_flag (gd_flags gd) GD_FLG_RELOC then env_get_char_memory gd index else env_get_char_init gd index.

(** [s1] is what is left of the name; going past its end is undefined. *)
Fixpoint envmatch (gd : gdata) (s1 : cstr) (i2 : Z) : option Z :=
  c ← env_get_char gd i2;
  if deref s1 =? c then
    if deref s1 =? 61 then Some (i2 + 1)
    else match s1 with _ :: s1 => envmatch gd s1 (i2 + 1) | [] => None end
  else if (deref s1 =? 0) && (c =? 61) then Some (i2 + 1) else Some (-1).

(** [for (nxt = i; env_get_char(nxt) != 0; ++nxt)]; [Some None] is the return. *)
Fixpoint entry_end (fuel : nat) (gd : gdata) (nxt : Z) : option (option Z) :=
  match fuel with
  | O => None
  | S fuel =>
      c ← env_get_char gd nxt;
      if c =? 0 then Some (Some nxt)
      else if CONFIG_ENV_SIZE <=? nxt then Some None
      else entry_end fuel gd (nxt + 1)
  end.

(** [for (n = 0; n < len; ++n, ++buf)]: the bytes stored, and whether the last one is the terminator. *)
Fixpoint copy_value (n : nat) (gd : gdata) (val : Z) : option (list Z * bool) :=
  match n with
  | O => Some ([], false)
  | S n =>
      c ← env_get_char gd val;
      if c =? 0 then Some ([0], true)
      else '(l, b) ← copy_value n gd (val + 1); Some (c :: l, b)
  end.

Fixpoint getenv_f_loop (fuel : nat) (gd : gdata) (name : cstr) (len i : Z) : option (Z * list Z) :=
  match fuel with
  | O => None
  | S fuel =>
      c ← env_get_char gd i;
      if c =? 0 then Some (-1, [])
      else
        r ← entry_end (S (length (env_get_addr gd))) gd i;
        match r with
        | None => Some (-1, [])
        | Some nxt =>
            val ← envmatch gd name i;
            if val <? 0 then getenv_f_loop fuel gd name len (nxt + 1)
            else
              '(l, terminated) ← copy_value (Z.to_nat len) gd val;
              if (terminated : bool) then Some (Z.of_nat (length l) - 1, l)
              else Some (len, if len =? 0 then [] else removelast l ++ [0])
        end
  end.

(** The return value and the bytes stored at the start of [buf]. *)
Definition getenv_f (gd : gdata) (name : cstr) (len : Z) : option (Z * list Z) :=
  getenv_f_loop (S (length (env_get_addr gd))) gd name len 0.

(** ** Reading variables *)

(** The value the returned pointer points to, and the state. *)
Definition getenv (gd : gdata) (name : cstr) : option (option cstr * gdata) :=
  if has_flag (gd_flags gd) GD_FLG_ENV_READY then
    '(r, h) ← hsearch_r name None FIND (env_htab gd) 0;
    match rv r with
    | None => Some (None, with_htab gd h)
    | Some ep => tab ← table h; s ← aget tab ep; Some (e_data (entry s), with_htab gd h)
    end
  else
    '(n, l) ← getenv_f gd name (Z.of_nat (length (env_buf gd)));
    let gd := with_buf gd (l ++ drop (length l) (env_buf gd)) in
    if 0 <? n then s ← string_at (env_buf gd) 0; Some (Some s, gd) else Some (None, gd).

Definition getenv_ulong (gd : gdata) (name : cstr) (base default_val : Z) : option (Z * gdata) :=
  '(s, gd) ← getenv gd name;
  Some (match s with Some s => fst (simple_strtoul s base) | None => default_val end, gd).

Definition getenv_hex (gd : gdata) (varname : cstr) (default_val : Z) : option (Z * gdata) :=
  '(s, gd) ← getenv gd varname;
  Some (match s with
        | Some s => let '(value, endp) := simple_strtoul s 16 in
                    if (length endp =? length s)%nat then default_val else value
        | None => default_val
        end, gd).

Definition getenv_yesno (gd : gdata) (var : cstr) : option (Z * gdata) :=
  '(s, gd) ← getenv gd var;
  Some (match s with
        | None => -1
        | Some s => let c := deref s in
            if (c =? 49) || (c =? 121) || (c =? 89) || (c =? 116) || (c =? 84) then 1 else 0
        end, gd).

(** The state is restored, but for the buffer of [getenv]. *)
Definition getenv_default (gd : gdata) (name : cstr) : option (option cstr * gdata) :=
  let gd1 := with_valid (with_flags gd (Z.land (gd_flags gd) (Z.lnot GD_FLG_ENV_READY))) 0 in
  '(ret_val, gd1) ← getenv gd1 name;
  Some (ret_val, with_flags (with_valid gd1 (env_valid gd)) (gd_flags gd)).

(** ** Setting variables *)

(** The options of [setenv] and [env delete]: the arguments after them and the
    flags, or [None] for one that is not known. *)
Fixpoint set_options (args : list cstr) (env_flag : Z) : option (list cstr * Z) :=
  match args with
  | (c :: arg) :: args' =>
      if c =? 45 then
        if forallb (fun c => c =? 102) arg
        then set_options args' (if (length arg =? 0)%nat then env_flag else Z.lor env_flag H_FORCE)
        else None
      else Some (args, env_flag)
  | _ => Some (args, env_flag)
  end.

(** The arguments from the third on, each followed by a blank but for the last. *)
Fixpoint join_args (args : list cstr) : cstr :=
  match args with
  | [] => []
  | [a] => a
  | a :: args => a ++ 32 :: join_args args
  end.

Definition args_len (args : list cstr) : Z := foldr (fun a n => Z.of_nat (length a) + 1 + n) 0 args.

(** [argv] without the command; the return value and the state.  Without a name the null pointer is read. *)
Definition _do_env_set (gd : gdata) (argv : list cstr) : option (Z * gdata) :=
  match set_options argv H_INTERACTIVE with
  | None => Some (CMD_RET_USAGE, gd)
  | Some (args, env_flag) =>
      match args with
      | [] => None
      | name :: values =>
          if bool_decide (is_Some (find_chr 61 name)) then Some (1, gd)
          else
            let gd := next_env_id gd in
            match values with
            | [] =>
                '(r, h) ← hdelete_r name (env_htab gd) env_flag;
                Some (if ret r =? 0 then 1 else 0, with_htab gd h)
            | _ =>
                if negb (malloc_ok (args_len values)) then Some (1, gd)
                else
                  '(r, h) ← hsearch_r name (Some (join_args values)) ENTER (env_htab gd) env_flag;
                  Some (match rv r with Some _ => 0 | None => 1 end, with_htab gd h)
            end
      end
  end.

Definition setenv (gd : gdata) (varname : cstr) (varvalue : option cstr) : option (Z * gdata) :=
  if negb (has_flag (gd_flags gd) GD_FLG_ENV_READY) then Some (1, gd)
  else match varvalue with
       | None | Some [] => _do_env_set gd [varname]
       | Some v => _do_env_set gd [varname; v]
       end.

(** [local] is the static buffer of [simple_itoa]. *)
Definition setenv_ulong (gd : gdata) (local : list Z) (varname : cstr) (value : Z) : option (Z * gdata) :=
  '(local, p) ← simple_itoa value local;
  str ← string_at local p;
  setenv gd varname (Some str).

(** [sprintf(str, "%lx", value)] with 17 bytes for the string. *)
Definition setenv_hex (gd : gdata) (varname : cstr) (value : Z) : option (Z * gdata) :=
  s ← render ∅ (str "%lx") [word value];
  if (length s <? 17)%nat then setenv gd varname (Some s) else None.

Definition do_env_set (gd : gdata) (argv : list cstr) : option (Z * gdata) :=
  if Z.of_nat (length argv) <? 2 then Some (CMD_RET_USAGE, gd) else _do_env_set gd (drop 1 argv).

Fixpoint delete_args (h : hsearch_data) (args : list cstr) (env_flag ret_ : Z) : option (Z * hsearch_data) :=
  match args with
  | [] => Some (ret_, h)
  | name :: args =>
      '(r, h) ← hdelete_r name h env_flag;
      delete_args h args env_flag (if ret r =? 0 then 1 else ret_)
  end.

Definition do_env_delete (gd : gdata) (argv : list cstr) : option (Z * gdata) :=
  match set_options (drop 1 argv) H_INTERACTIVE with
  | None => Some (CMD_RET_USAGE, gd)
  | Some (args, env_flag) =>
      let gd := next_env_id gd in
      '(r, h) ← delete_args (env_htab gd) args env_flag 0;
      Some (r, with_htab gd h)
  end.

Definition do_env_exists (gd : gdata) (argv : list cstr) : option (Z * gdata) :=
  match argv with
  | _ :: name :: _ =>
      '(r, h) ← hsearch_r name None FIND (env_htab gd) 0;
      Some (match rv r with Some _ => 0 | None => 1 end, with_htab gd h)
  | _ => Some (CMD_RET_USAGE, gd)
  end.

(** ** The default environment *)

Definition set_default_env (gd : gdata) (s : option cstr) : option gdata :=
  if ENV_SIZE <? Z.of_nat (length default_environment) then Some gd
  else
    let flags := match s with Some s => if deref s =? 33 then 0 else H_INTERACTIVE | None => 0 end in
    '(_, _, h) ← himport_r (Some (env_htab gd)) default_environment
      (Z.of_nat (length default_environment)) 0 flags false [];
    let gd := with_htab gd (default (env_htab gd) h) in
    Some (with_flags gd (Z.lor (gd_flags gd) GD_FLG_ENV_READY)).

Definition set_default_vars (gd : gdata) (vars : list cstr) : option (Z * gdata) :=
  '(r, _, h) ← himport_r (Some (env_htab gd)) default_environment
    (Z.of_nat (length default_environment)) 0 (Z.lor H_NOCLEAR H_INTERACTIVE) false vars;
  Some (r, with_htab gd (default (env_htab gd) h)).

(** [while (--argc > 0 && **++argv == '-')]: the arguments left, [all] and [flag]; [None] for an unknown option. *)
Fixpoint default_options (args : list cstr) (all : bool) (flag : Z) : option (list cstr * bool * Z) :=
  match args with
  | (c :: arg) :: args' =>
      if c =? 45 then
        if forallb (fun c => (c =? 97) || (c =? 102)) arg
        then default_options args' (all || existsb (fun c => c =? 97) arg)
               (if existsb (fun c => c =? 102) arg then Z.lor flag H_FORCE else flag)
        else None
      else Some (args, all, flag)
  | _ => Some (args, all, flag)
  end.

(** [cmd_usage] returns 1; [flag] is not used after the loop. *)
Definition do_env_default (gd : gdata) (argv : list cstr) : option (Z * gdata) :=
  match default_options (drop 1 argv) false 0 with
  | None => Some (1, gd)
  | Some (args, all, flag) =>
      if all && (length args =? 0)%nat then
        gd ← set_default_env gd (Some (str "## Resetting to default environment")); Some (0, gd)
      else if negb all && negb (length args =? 0)%nat then
        '(_, gd) ← set_default_vars gd args; Some (0, gd)
      else Some (1, gd)
  end.

(** ** The environment with its checksum *)

(** A little-endian 32-bit word. *)
Definition le_bytes (z : Z) : list Z := [u8 z; u8 (Z.shiftr z 8); u8 (Z.shiftr z 16); u8 (Z.shiftr z 24)].
Definition le_word (l : list Z) : Z :=
  match l with
  | [a; b; c; d] => Z.lor (Z.lor a (Z.shiftl b 8)) (Z.lor (Z.shiftl c 16) (Z.shiftl d 24))
  | _ => 0
  end.

(** The members of the [env_t] at [buf]. *)
Definition env_crc (buf : list Z) : list Z := take 4 buf.
Definition env_data (buf : list Z) : list Z := drop 4 buf.

(** [addr] is the address of the data, [buf] has [CONFIG_ENV_SIZE] bytes. *)
Definition env_import (gd : gdata) (addr : Z) (buf : list Z) (check : bool) : option (Z * gdata) :=
  if check && negb (crc32 addr 0 (take (Z.to_nat ENV_SIZE) (env_data buf)) =? le_word (env_crc buf)) then
    gd ← set_default_env gd (Some (str "!bad CRC")); Some (0, gd)
  else
    '(r, _, h) ← himport_r (Some (env_htab gd)) (env_data buf) ENV_SIZE 0 0 false [];
    let gd := with_htab gd (default (env_htab gd) h) in
    if negb (r =? 0) then Some (1, with_flags gd (Z.lor (gd_flags gd) GD_FLG_ENV_READY))
    else gd ← set_default_env gd (Some (str "!import failed")); Some (0, gd).

(** The return value and [*env_out]. *)
Definition env_export (gd : gdata) (addr : Z) (env_out : list Z) : option (Z * list Z) :=
  r ← hexport_r (env_htab gd) 0 0 (Some (env_data env_out)) ENV_SIZE [];
  match r with
  | inl _ => Some (1, env_out)
  | inr (_, data) => Some (0, le_bytes (crc32 addr 0 (take (Z.to_nat ENV_SIZE) data)) ++ data)
  end.
End environment.

(** ** The block device *)

Definition CONFIG_ENV_OFFSET : Z := 768 * 1024.
Definition CONFIG_SYS_MMC_ENV_PART : Z := 0.

(** What the driver of the card offers: [block_read] gives the number of
    blocks and their bytes, [block_write] the number of blocks written. *)
Class Mmc (D : Type) := {
  mmc_init : D -> Z * D;
  part_num : D -> Z;
  mmc_switch_part : D -> Z -> Z * D;
  read_bl_len : D -> Z;
  write_bl_len : D -> Z;
  block_read : D -> Z -> Z -> Z * list Z;
  block_write : D -> Z -> Z -> list Z -> Z * D }.

Definition ALIGN (x a : Z) : Z := Z.land (u32 (x + (a - 1))) (u32 (Z.lnot (a - 1))).

Section store.
Context {HH : EnvHooks} {D : Type} {MD : Mmc D} (default_environment : list Z).

(** The offset is not negative, and there is no redundant copy. *)
Definition mmc_get_env_addr (mmc : D) (copy : Z) : Z * Z := (0, u32 CONFIG_ENV_OFFSET).
Definition mmc_get_env_part (mmc : D) : Z := CONFIG_SYS_MMC_ENV_PART.

Definition env_init (gd : gdata) : Z * gdata :=
  (0, mk_gd (gd_flags gd) default_environment 1 (env_buf gd) (env_htab gd) (env_id gd)).

Definition mmc_set_env_part (mmc : D) : Z * D :=
  let part := mmc_get_env_part mmc in
  if negb (part =? part_num mmc) then mmc_switch_part mmc part else (0, mmc).

Definition init_mmc_for_env (mmc : option D) : Z * option D :=
  match mmc with
  | None => (-1, None)
  | Some d =>
      let '(r, d) := mmc_init d in
      if negb (r =? 0) then (-1, Some d) else let '(r, d) := mmc_set_env_part d in (r, Some d)
  end.

Definition fini_mmc_for_env (d : D) : D :=
  if negb (mmc_get_env_part d =? part_num d) then snd (mmc_switch_part d (part_num d)) else d.

Definition write_env (d : D) (size offset : Z) (buffer : list Z) : Z * D :=
  let blk_start := ALIGN offset (write_bl_len d) / write_bl_len d in
  let blk_cnt := ALIGN size (write_bl_len d) / write_bl_len d in
  let '(n, d) := block_write d blk_start blk_cnt buffer in
  (if n =? blk_cnt then 0 else -1, d).

(** The bytes are stored at the start of [buffer], which has to have room for them. *)
Definition read_env (d : D) (size offset : Z) (buffer : list Z) : option (Z * list Z) :=
  let blk_start := ALIGN offset (read_bl_len d) / read_bl_len d in
  let blk_cnt := ALIGN size (read_bl_len d) / read_bl_len d in
  let '(n, bytes) := block_read d blk_start blk_cnt in
  if (length bytes <=? length buffer)%nat
  then Some (if n =? blk_cnt then 0 else -1, bytes ++ drop (length bytes) buffer) else None.

(** [env_new] is the buffer on the stack with its address. *)
Definition saveenv (gd : gdata) (mmc : option D) (addr : Z) (env_new : list Z) : option (Z * option D) :=
  let '(r, mmc) := init_mmc_for_env mmc in
  if negb (r =? 0) then Some (1, mmc)
  else
    d ← mmc;
    '(ret, env_new) ← env_export gd (addr + 4) env_new;
    if negb (ret =? 0) then Some (ret, Some (fini_mmc_for_env d))
    else
      let '(r, offset) := mmc_get_env_addr d 0 in
      if negb (r =? 0) then Some (1, Some (fini_mmc_for_env d))
      else
        let '(r, d) := write_env d CONFIG_ENV_SIZE offset env_new in
        Some (if negb (r =? 0) then 1 else 0, Some (fini_mmc_for_env d)).

Definition env_relocate_spec (gd : gdata) (mmc : option D) (addr : Z) (buf : list Z) : option (gdata * option D) :=
  let '(r, mmc) := init_mmc_for_env mmc in
  if negb (r =? 0) then gd ← set_default_env default_environment gd None; Some (gd, mmc)
  else
    d ← mmc;
    let '(r, offset) := mmc_get_env_addr d 0 in
    if negb (r =? 0) then gd ← set_default_env default_environment gd None; Some (gd, Some (fini_mmc_for_env d))
    else
      '(r, buf) ← read_env d CONFIG_ENV_SIZE offset buf;
      if negb (r =? 0) then gd ← set_default_env default_environment gd None; Some (gd, Some (fini_mmc_for_env d))
      else '(_, gd) ← env_import default_environment gd (addr + 4) buf true; Some (gd, Some (fini_mmc_for_env d)).

Definition env_relocate (gd : gdata) (mmc : option D) (addr : Z) (buf : list Z) : option (gdata * option D) :=
  if env_valid gd =? 0 then
    gd ← set_default_env default_environment gd (Some (str "!bad CRC")); Some (gd, mmc)
  else env_relocate_spec gd mmc addr buf.
End store.

(** ** The table as a map *)

(** The environment has been imported and holds the variables [M]. *)
Definition EnvRep (gd : gdata) (M : gmap cstr cstr) : Prop :=
  has_flag (gd_flags gd) GD_FLG_ENV_READY = true /\ exists tab, Rep (env_htab gd) tab M.

Lemma set_htab_same gd : with_htab gd (env_htab gd) = gd.
Proof. by destruct gd. Qed.

Lemma getenv_ready `{HH : EnvHooks} de gd M name : EnvRep gd M -> Forall char_ok name ->
  getenv de gd name = Some (M !! name, gd).
Proof.
  intros [Hr [tab HR]] Hn. unfold getenv. rewrite Hr.
  pose proof (hsearch_find (env_htab gd) tab M HR name Hn None 0) as Hf. destruct (M !! name) as [d|].
  - destruct Hf as (i & Hi & (s & Hs & _ & _ & Hd) & ->). cbn [mbind option_bind rv].
    rewrite (rep_table _ _ _ HR). cbn [mbind option_bind]. rewrite Hs. cbn [mbind option_bind].
    by rewrite Hd, set_htab_same.
  - rewrite Hf. cbn [mbind option_bind rv]. by rewrite set_htab_same.
Qed.

Lemma env_rep_set gd h tab M : has_flag (gd_flags gd) GD_FLG_ENV_READY = true -> Rep h tab M ->
  EnvRep (with_htab (next_env_id gd) h) M.
Proof. intros Hr HR. split; [done|]. by exists tab. Qed.

(** A name that is not taken for an option and has no equals sign. *)
Definition plain_name (name : cstr) : Prop :=
  Forall char_ok name /\ deref name <> 45 /\ find_chr 61 name = None.

Lemma set_options_name name args fl : deref name <> 45 -> set_options (name :: args) fl = Some (name :: args, fl).
Proof. intros H. destruct name as [|c name]; [done|]. cbn. rewrite deref_cons in H. by rewrite (proj2 (Z.eqb_neq c 45)). Qed.

Section setting.
Context {HH : EnvHooks} {HOk : EnvHooksOk HH} (gd : gdata) (tab : list _ENTRY) (M : gmap cstr cstr).
Context (Hready : has_flag (gd_flags gd) GD_FLG_ENV_READY = true) (HR : Rep (env_htab gd) tab M).
Context (Hdup : forall s, dup_string s <> None) (Hmalloc : forall n, malloc_ok n = true).

Lemma setenv_delete name : plain_name name ->
  exists r gd', setenv gd name None = Some (r, gd') /\ setenv gd name (Some []) = Some (r, gd') /\
    ((r = 0 /\ is_Some (M !! name) /\ EnvRep gd' (delete name M)) \/ (r = 1 /\ EnvRep gd' M)).
Proof using HR Hready.
  intros (Hc & Hm & He). unfold setenv. rewrite Hready. cbn [negb]. unfold _do_env_set.
  rewrite set_options_name, He by done. cbn [bool_decide is_Some]. rewrite bool_decide_false by by intros [? ?].
  destruct (hdelete_spec (env_htab gd) tab M HR name H_INTERACTIVE Hc) as (r & h' & tab' & Hd & Hm').
  cbn [next_env_id env_htab]. rewrite Hd. cbn [mbind option_bind].
  eexists _, _. split; [done|]. split; [done|]. destruct (M !! name).
  - destruct Hm' as [(-> & _ & HR')|(_ & -> & ->)].
    + left. split; [done|]. split; [done|]. by eapply env_rep_set.
    + right. split; [done|]. by eapply env_rep_set.
  - destruct Hm' as (_ & -> & ->). right. split; [done|]. by eapply env_rep_set.
Qed.

(** At most one slot of the table changes. *)
Lemma setenv_enter name v : plain_name name -> v <> [] -> (M !! name = None -> has_unused (env_htab gd) tab) ->
  exists r h' tab', setenv gd name (Some v) = Some (r, with_htab (next_env_id gd) h') /\ one_slot (env_htab gd) tab tab' /\
    ((r = 0 /\ Rep h' tab' (<[name := v]> M)) \/
     (r = 1 /\ Rep h' tab' M /\ (M !! name = None -> ~ accepts_new name H_INTERACTIVE (change_ok (env_htab gd)) v))).
Proof using All.
  intros (Hc & Hm & He) Hv Hu. unfold setenv. rewrite Hready. cbn [negb].
  destruct v as [|c v]; [done|]. set (w := c :: v). unfold _do_env_set.
  rewrite set_options_name, He by done. rewrite bool_decide_false by by intros [? ?].
  rewrite Hmalloc. cbn [negb join_args next_env_id env_htab].
  destruct (rep_lookup _ _ _ HR name) as [(d0 & i & HM & Hi & Hh)|[HM Hno]].
  - destruct (enter_present (env_htab gd) tab M HR name H_INTERACTIVE Hc w d0 i Hi Hh (dup_total w Hdup))
      as (r & h' & -> & _ & _ & tab' & H1 & Hch); cbn [mbind option_bind]; eexists _, h', tab'; (split; [done|]); (split; [done|]).
    destruct Hch as [(_ & _ & HR' & j & -> & _)|(_ & _ & -> & HR')]; [by left|right].
    split; [done|]. split; [done|]. congruence.
  - destruct (enter_absent (env_htab gd) tab M HR name H_INTERACTIVE Hc w HM Hno (Hu HM) (dup_total name Hdup) (dup_total w Hdup))
      as (r & h' & -> & _ & _ & tab' & H1 & Hch); cbn [mbind option_bind]; eexists _, h', tab'; (split; [done|]); (split; [done|]).
    destruct Hch as [(_ & _ & HR' & j & -> & _)|(Hrej & _ & -> & HR')]; [by left|right].
    split; [done|]. split; [done|]. intros _. tauto.
Qed.

Lemma setenv_store name v : plain_name name -> v <> [] -> (M !! name = None -> has_unused (env_htab gd) tab) ->
  exists r gd', setenv gd name (Some v) = Some (r, gd') /\
    ((r = 0 /\ EnvRep gd' (<[name := v]> M)) \/
     (r = 1 /\ EnvRep gd' M /\ (M !! name = None -> ~ accepts_new name H_INTERACTIVE (change_ok (env_htab gd)) v))).
Proof using All.
  intros Hn Hv Hu. destruct (setenv_enter name v Hn Hv Hu) as (r & h' & tab' & -> & _ & Hd).
  eexists _, _. split; [done|]. destruct Hd as [(-> & HR')|(-> & HR' & Hrej)]; [left|right]; split; eauto using env_rep_set.
Qed.
End setting.

(** The environment holds [M] and has [k] slots that were never used. *)
Definition EnvRoom (gd : gdata) (M : gmap cstr cstr) (k : Z) : Prop :=
  has_flag (gd_flags gd) GD_FLG_ENV_READY = true /\ exists tab, Rep (env_htab gd) tab M /\ k <= unused_count tab.

Lemma room_rep gd M k : EnvRoom gd M k -> EnvRep gd M.
Proof. intros (? & tab & ? & _). split; [done|]. by exists tab. Qed.

(** Setting a variable takes at most one slot and changes no other variable. *)
Lemma setenv_room `{HH : EnvHooks} `{!EnvHooksOk HH} gd M k name v :
  (forall s, dup_string s <> None) -> (forall n, malloc_ok n = true) -> EnvRoom gd M k -> 0 < k -> plain_name name -> v <> [] ->
  exists r gd' M', setenv gd name (Some v) = Some (r, gd') /\ EnvRoom gd' M' (k - 1) /\ (M' = M \/ M' = <[name := v]> M).
Proof.
  intros Hdup Hm (Hr & tab & HR & Hk) H0 Hn Hv.
  destruct (setenv_enter gd tab M Hr HR Hdup Hm name v Hn Hv) as (r & h' & tab' & Hs & H1 & Hd).
  { intros _. eapply unused_has_unused; [done|lia]. }
  pose proof (unused_one_slot _ _ _ _ HR H1).
  destruct Hd as [(-> & HR')|(-> & HR' & _)]; [exists 0, (with_htab (next_env_id gd) h'), (<[name := v]> M) |
    exists 1, (with_htab (next_env_id gd) h'), M]; (split; [exact Hs|]); (split; [|by eauto]);
    (split; [done|]); exists tab'; (split; [done|lia]).
Qed.


(** A state with the variable ["a"] set to ["1"] and no checks. *)
Definition gd_a : gdata := mk_gd GD_FLG_ENV_READY [] 1 (replicate 32 0) table_a 1.


(** ** Numbers *)

Lemma render_hex_long m n : render m (str "%lx") [word n] =
  t_out <$> number (mk_text [] m) (u32 n) 16 (-1) (-1) SMALL.
Proof. by apply render_one. Qed.

Lemma digit_text_chars type base n : 2 <= base <= 16 -> 0 <= n < 2 ^ 64 -> Forall char_ok (digit_text type base n).
Proof.
  intros Hb Hn. unfold digit_text. apply Forall_rev, Forall_map.
  eapply Forall_impl; [|apply (num_digits base n), digits_numeral; lia]. intros d Hd. unfold digit_ok in Hd.
  unfold digit_char, char_ok. repeat case_match; lia.
Qed.

Lemma hex_length n : 0 <= n < 2 ^ 32 -> (length (digit_text SMALL 16 n) <= 8)%nat.
Proof.
  intros Hn. unfold digit_text. rewrite length_rev, length_map.
  apply (numeral_length 8 16 n); [lia | lia | apply digits_numeral; lia | change (16 ^ Z.of_nat 8) with (2 ^ 32); lia].
Qed.

Lemma setenv_hex_text `{HH : EnvHooks} gd name n : 0 <= n < 2 ^ 32 ->
  setenv_hex gd name n = setenv gd name (Some (digit_text SMALL 16 n)).
Proof.
  intros Hn. unfold setenv_hex. rewrite render_hex_long, number_spec by (lia || (rewrite u32_small by lia; lia)).
  rewrite u32_small by lia. cbn [t_out fmap option_fmap option_map app mbind option_bind].
  rewrite number_text_plain by done. cbn [prefix_text app]. change (prefix_text SMALL 16) with (@nil Z). cbn [app].
  pose proof (hex_length n Hn). by rewrite (proj2 (Nat.ltb_lt _ _)) by lia.
Qed.

Lemma setenv_ulong_text `{HH : EnvHooks} gd local name n : 0 <= n < 2 ^ 32 -> length local = 22%nat ->
  setenv_ulong gd local name n = setenv gd name (Some (digit_text 0 10 n)).
Proof.
  intros Hn Hl. unfold setenv_ulong.
  destruct (simple_itoa_spec n local Hn Hl) as (local' & p & -> & Hp & Hd & Hl'). cbn [mbind option_bind].
  assert (Ht : map chr (rev (digits 10 n)) = digit_text 0 10 n).
  { unfold digit_text. rewrite <- map_rev. apply map_ext_Forall, Forall_rev.
    eapply Forall_impl; [|apply (num_digits 10 n), digits_numeral; lia]. intros d Hdd. unfold digit_ok in Hdd.
    rewrite chr_digit by lia. unfold digit_char. by rewrite (proj2 (Z.ltb_lt d 10)) by lia. }
  rewrite Ht in Hd. rewrite <- (take_drop (Z.to_nat p) local'), Hd.
  rewrite (string_at_spec (take (Z.to_nat p) local') (digit_text 0 10 n) [] p); [done| |by apply digit_text_chars; lia].
  rewrite length_take. assert (length (drop (Z.to_nat p) local') <> 0)%nat by (rewrite Hd, length_app; cbn; lia).
  rewrite length_drop in *. lia.
Qed.

(** Numbers survive the environment: what [setenv_hex] stores
    [getenv_hex] (and [getenv_ulong] in base 16) returns, and what
    [setenv_ulong] stores [getenv_ulong] returns in base 10, for every 32-bit
    word and whatever the default, if the variable could be set; setting a
    new variable that is accepted succeeds. *)
Theorem env_number_roundtrip `{HH : EnvHooks} `{!EnvHooksOk HH} de gd tab M name n local dflt :
  has_flag (gd_flags gd) GD_FLG_ENV_READY = true -> Rep (env_htab gd) tab M ->
  (forall s, dup_string s <> None) -> (forall n, malloc_ok n = true) -> plain_name name ->
  (M !! name = None -> has_unused (env_htab gd) tab) -> 0 <= n < 2 ^ 32 -> length local = 22%nat ->
  let accepted := M !! name = None /\ forall v, accepts_new name H_INTERACTIVE (change_ok (env_htab gd)) v in
  (exists r gd', setenv_hex gd name n = Some (r, gd') /\ (accepted -> r = 0) /\
    (r = 0 -> getenv_hex de gd' name dflt = Some (n, gd') /\ getenv_ulong de gd' name 16 dflt = Some (n, gd'))) /\
  (exists r gd', setenv_ulong gd local name n = Some (r, gd') /\ (accepted -> r = 0) /\
    (r = 0 -> getenv_ulong de gd' name 10 dflt = Some (n, gd'))).
Proof.
  intros Hr HR Hdup Hm Hname Hu Hn Hl accepted. rewrite setenv_hex_text, setenv_ulong_text by done.
  assert (Hgo : forall type base, base = 10 \/ base = 16 -> exists r gd',
    setenv gd name (Some (digit_text type base n)) = Some (r, gd') /\ (accepted -> r = 0) /\
    (r = 0 -> getenv de gd' name = Some (Some (digit_text type base n), gd'))).
  { intros type base Hb. pose proof (digit_text_nonempty type base n ltac:(lia) ltac:(lia)) as Hne.
    destruct (setenv_store gd tab M Hr HR Hdup Hm name _ Hname Hne Hu) as (r & gd' & Hs & Hd).
    exists r, gd'. split; [done|]. destruct Hd as [(-> & HE)|(-> & _ & Hrej)].
    - split; [done|]. intros _. rewrite (getenv_ready de gd' _ name HE) by apply Hname. by rewrite lookup_insert_eq.
    - split; [|done]. intros [HM Ha]. by destruct (Hrej HM). }
  pose proof (digit_text_nonempty SMALL 16 n ltac:(lia) ltac:(lia)) as Hne. split.
  - destruct (Hgo SMALL 16) as (r & gd' & Hs & Ha & Hg); [lia|]. exists r, gd'. split; [done|]. split; [done|].
    intros ->. unfold getenv_hex, getenv_ulong. rewrite Hg by done. cbn [mbind option_bind].
    rewrite (read_digits SMALL 16 n) by lia. cbn [fst length].
    by destruct (digit_text SMALL 16 n).
  - destruct (Hgo 0 10) as (r & gd' & Hs & Ha & Hg); [lia|]. exists r, gd'. split; [done|]. split; [done|].
    intros ->. unfold getenv_ulong. rewrite Hg by done. cbn [mbind option_bind].
    by rewrite (read_digits 0 10 n) by lia.
Qed.

Lemma env_number_roundtrip_witness :
  exists gd', @setenv_hex plain_hooks gd_a (str "b") 48879 = Some (0, gd') /\
    @getenv_hex plain_hooks [] gd' (str "b") 0 = Some (48879, gd').
Proof.
  pose proof plain_hooks_ok. destruct table_a_rep as [tab HR].
  destruct (@env_number_roundtrip plain_hooks _ [] gd_a tab {[ [97] := [49] ]} (str "b") 48879 (replicate 22 0) 0 eq_refl HR)
    as [(r & gd' & Hs & Ha & Hg) _]; [discriminate | reflexivity | | | lia | reflexivity |].
  - split; [repeat constructor; vm_compute; reflexivity | by vm_compute].
  - intros _. assert (Htab : tab = default [] (table table_a)) by (pose proof (rep_table _ _ _ HR) as Ht; by injection Ht as <-).
    exists 1. rewrite Htab. vm_compute. split; [split; discriminate | reflexivity].
  - assert (r = 0) as ->.
    { apply Ha. split; [reflexivity|]. intros v h1 e0 H0 _. split; [reflexivity|]. cbn. by rewrite H0. }
    exists gd'. split; [exact Hs | by apply Hg].
Defined.

(** ** Saving and loading *)

Lemma le_word_bytes z : 0 <= z < 2 ^ 32 -> le_word (le_bytes z) = z.
Proof.
  intros Hz. unfold le_bytes, le_word, u8. apply Z.bits_inj'. intros i Hi.
  assert (H8 : forall n, 0 <= n -> Z.testbit (Z.shiftl (Z.shiftr z n mod 2 ^ 8) n) i = (n <=? i) && (i <? n + 8) && Z.testbit z i).
  { intros n Hn. rewrite Z.shiftl_spec by done.
    destruct (Z.leb_spec n i); [|by rewrite Z.testbit_neg_r by lia].
    destruct (Z.ltb_spec i (n + 8)).
    - rewrite Z.mod_pow2_bits_low, Z.shiftr_spec by lia. by replace (i - n + n) with i by lia.
    - by rewrite Z.mod_pow2_bits_high by lia. }
  rewrite !Z.lor_spec, !H8 by lia. pose proof (H8 0 ltac:(lia)) as H0. rewrite Z.shiftr_0_r, Z.shiftl_0_r in H0. rewrite H0.
  destruct (Z.ltb_spec i 32); [|by rewrite (bits_above 32 z i), !andb_false_r by lia].
  destruct (Z.leb_spec 0 i), (Z.ltb_spec i (0 + 8)), (Z.leb_spec 8 i), (Z.ltb_spec i (8 + 8)), (Z.leb_spec 16 i),
    (Z.ltb_spec i (16 + 8)), (Z.leb_spec 24 i), (Z.ltb_spec i (24 + 8)); try lia; by destruct (Z.testbit z i).
Qed.

Lemma has_flag_lor f b : b <> 0 -> has_flag (Z.lor f b) b = true.
Proof.
  intros Hb. unfold has_flag. replace (Z.land (Z.lor f b) b) with b; [by rewrite (proj2 (Z.eqb_neq b 0))|].
  apply Z.bits_inj. intros i. rewrite Z.land_spec, Z.lor_spec. by destruct (Z.testbit f i), (Z.testbit b i).
Qed.

Lemma encode_bytes sep L : 0 <= sep < 256 -> Forall (entry_ok sep) L -> Forall byte_ok (encode sep L).
Proof.
  intros Hs HL. induction HL as [|e L [Hk _ _ Hd _] HL IH]; [done|]. cbn [encode flat_map]. fold (encode sep L).
  apply Forall_app. split; [|done]. unfold encode_entry.
  assert (Hc : forall l, Forall char_ok l -> Forall byte_ok l) by (intros l; apply Forall_impl; unfold char_ok, byte_ok; lia).
  apply Forall_app. split; [by apply Hc|]. apply Forall_cons_iff. split; [unfold byte_ok; lia|]. apply Forall_app.
  split; [|apply Forall_cons_iff; split; [done|constructor]]. apply Hc in Hd. clear -Hd. unfold escape.
  induction Hd as [|c d Hc Hd IH]; [constructor|]. cbn [flat_map]. apply Forall_app. split; [|done].
  destruct (needs_escape sep c); repeat (constructor; [unfold byte_ok in *; lia || done|]); constructor.
Qed.

(** The block that holds the variables [L]. *)
Definition env_image (L : list (cstr * cstr)) : list Z :=
  encode 0 L ++ replicate (Z.to_nat ENV_SIZE - length (encode 0 L)) 0.

Lemma env_image_length L : (length (encode 0 L) <= Z.to_nat ENV_SIZE)%nat -> length (env_image L) = Z.to_nat ENV_SIZE.
Proof. intros H. unfold env_image. rewrite length_app, length_replicate. lia. Qed.

Lemma env_image_bytes L : Forall (entry_ok 0) L -> Forall byte_ok (env_image L).
Proof.
  intros H. apply Forall_app. split; [by apply encode_bytes|]. apply Forall_replicate. unfold byte_ok. lia.
Qed.

(** The variables can be stored: names and values as the format has them. *)
Definition storable (M : gmap cstr cstr) : Prop :=
  M <> ∅ /\ map_Forall (fun k d => entry_ok 0 (k, d) /\ Forall ascii7 k /\ (92 ∉ d)) M /\
  Z.of_nat (size M) <= CONFIG_ENV_MAX_ENTRIES.

(** The room [hexport_r] asks for. *)
Definition env_need (M : gmap cstr cstr) : Z := total_len 0 (map_to_list M) + 1.

Lemma env_export_spec `{HH : EnvHooks} gd tab M addr out :
  Rep (env_htab gd) tab M -> storable M -> length out = Z.to_nat CONFIG_ENV_SIZE ->
  exists L, list_to_map L = M /\ NoDup (L.*1) /\ Forall (entry_ok 0) L /\
    (env_need M <= ENV_SIZE -> (length (encode 0 L) < Z.to_nat ENV_SIZE)%nat) /\
    env_export gd addr out =
      Some (if env_need M <=? ENV_SIZE then (0, le_bytes (crc32 addr 0 (env_image L)) ++ env_image L) else (1, out)).
Proof.
  intros HR (Hne & HM & _) Hl. unfold env_export.
  assert (Hdl : length (env_data out) = Z.to_nat ENV_SIZE) by (unfold env_data; rewrite length_drop, Hl; reflexivity).
  destruct (hexport_into (env_htab gd) tab M 0 0 (env_data out) ENV_SIZE HR eq_refl) as (L & HL & Hnd & _ & Hex).
  { rewrite Hdl. vm_compute. split; [reflexivity|discriminate]. }
  { intros k d Hkd. destruct (HM k d Hkd) as ([_ _ _ ? _] & ? & ?). split_and!; [done..|by intros _]. }
  assert (HokL : Forall (entry_ok 0) L).
  { apply Forall_forall. intros [k d] Hkd%list_elem_of_In. apply HM. rewrite <- HL. by apply elem_of_list_to_map_1. }
  assert (Hperm : Permutation L (map_to_list M)) by (rewrite <- HL; symmetry; by apply map_to_list_to_map).
  assert (Hneed : env_need M = Z.of_nat (length (encode 0 L)) + 2 * Z.of_nat (length L) + 1).
  { unfold env_need. rewrite <- (total_len_perm 0 _ _ Hperm), total_len_spec; [lia|].
    apply Forall_forall. intros [k d] Hkd%list_elem_of_In.
    assert (HMk : M !! k = Some d) by (rewrite <- HL; by apply elem_of_list_to_map_1).
    destruct (HM k d HMk) as ([_ _ _ ? _] & _ & ?). split; [done|by intros _]. }
  exists L. split_and!; [done..| |]; [intros; lia|]. rewrite Hex, <- Hneed.
  destruct (Z.ltb_spec ENV_SIZE (env_need M)), (Z.leb_spec (env_need M) ENV_SIZE); try lia; [done|].
  cbn [mbind option_bind]. rewrite drop_ge by (rewrite Hdl; lia). rewrite app_nil_r. fold (env_image L).
  rewrite take_ge; [done|]. rewrite env_image_length by lia. lia.
Qed.

Section loading.
Context {HH : EnvHooks} {HOk : EnvHooksOk HH} (de : list Z).
Context (Hdup : forall s, dup_string s <> None) (Hmalloc : forall n, malloc_ok n = true).

(** The variables [L] can be entered into the table of [gd]. *)
Definition enterable (gd : gdata) (flag : Z) (L : list (cstr * cstr)) : Prop :=
  Forall (fun e => accepts_new (fst e) flag (change_ok (env_htab gd)) (snd e)) L.

Lemma env_import_image gd addr addr' L :
  L <> [] -> Forall (entry_ok 0) L -> NoDup (L.*1) -> Z.of_nat (length L) <= CONFIG_ENV_MAX_ENTRIES ->
  (length (encode 0 L) < Z.to_nat ENV_SIZE)%nat -> enterable gd 0 L ->
  exists gd', env_import de gd addr (le_bytes (crc32 addr' 0 (env_image L)) ++ env_image L) true = Some (1, gd') /\
    EnvRep gd' (list_to_map L).
Proof using HOk Hdup Hmalloc.
  intros Hne Hok Hnd Hn Hlen Hacc. unfold env_import.
  assert (Hb : Forall byte_ok (env_image L)) by by apply env_image_bytes.
  assert (Hil : length (env_image L) = Z.to_nat ENV_SIZE) by (apply env_image_length; lia).
  change (env_crc (le_bytes ?z ++ ?l)) with (le_bytes z). change (env_data (le_bytes ?z ++ ?l)) with l.
  rewrite take_ge by (rewrite Hil; lia). rewrite le_word_bytes by (apply crc32_range; [done|lia]).
  rewrite (crc32_addr addr addr'), Z.eqb_refl by done. cbn [negb andb].
  assert (Himg : env_image L = encode 0 L ++ 0 :: replicate (Z.to_nat ENV_SIZE - length (encode 0 L) - 1) 0).
  { unfold env_image. f_equal. remember (Z.to_nat ENV_SIZE - length (encode 0 L))%nat as n eqn:Hnn.
    destruct n as [|n]; [lia|]. cbn [replicate]. by rewrite Nat.sub_succ, Nat.sub_0_r. }
  destruct (himport_spec (env_htab gd) 0 0 L (replicate (Z.to_nat ENV_SIZE - length (encode 0 L) - 1) 0) ENV_SIZE)
    as (h' & tab' & Him & HR'); try done.
  - rewrite <- Himg, Hil. change (Z.of_nat (Z.to_nat ENV_SIZE)) with ENV_SIZE. lia.
  - rewrite <- Himg in Him. rewrite Him. cbn [mbind option_bind default]. change (negb (1 =? 0)) with true. cbn iota.
    eexists. split; [done|]. split; [by apply has_flag_lor|]. by exists tab'.
Qed.

(** The default environment is a list of variables. *)
Record default_ok (L : list (cstr * cstr)) : Prop := {
  do_form : exists n, de = encode 0 L ++ replicate (S n) 0;
  do_ne : L <> [];
  do_entries : Forall (entry_ok 0) L;
  do_nodup : NoDup (L.*1);
  do_size : Z.of_nat (length de) <= ENV_SIZE;
  do_count : Z.of_nat (length L) <= CONFIG_ENV_MIN_ENTRIES }.

Lemma set_default_env_spec gd s L : default_ok L ->
  enterable gd (match s with Some s => if deref s =? 33 then 0 else H_INTERACTIVE | None => 0 end) L ->
  exists gd', set_default_env de gd s = Some gd' /\ EnvRep gd' (list_to_map L).
Proof using HOk Hdup Hmalloc.
  intros [[n Hde] Hne Hok Hnd Hsz Hn] Hacc. unfold set_default_env.
  rewrite (proj2 (Z.ltb_ge _ _)) by done. set (fl := match s with Some _ => _ | None => 0 end) in *.
  assert (Hfl : has_flag fl H_NOCLEAR = false) by (unfold fl; repeat case_match; done).
  destruct (himport_spec (env_htab gd) 0 fl L (replicate n 0) (Z.of_nat (length de))) as (h' & tab' & Him & HR'); try done.
  - rewrite Hde. cbn [replicate]. rewrite length_app. cbn [length]. lia.
  - unfold import_entries. pose proof (Z.div_pos (Z.of_nat (length de)) 8 ltac:(lia) ltac:(lia)).
    unfold CONFIG_ENV_MIN_ENTRIES, CONFIG_ENV_MAX_ENTRIES in *. lia.
  - change (encode 0 L ++ 0 :: replicate n 0) with (encode 0 L ++ replicate (S n) 0) in Him. rewrite <- Hde in Him.
    rewrite Him. cbn [mbind option_bind default].
    eexists. split; [done|]. split; [by apply has_flag_lor|]. by exists tab'.
Qed.
End loading.

(** What the driver promises: a card keeps its parameters, initialising it
    changes nothing, and blocks that were written completely are read back. *)
Class MmcOk (D : Type) {MD : Mmc D} := {
  mmc_init_same d r d' : mmc_init d = (r, d') ->
    part_num d' = part_num d /\ read_bl_len d' = read_bl_len d /\ write_bl_len d' = write_bl_len d /\
    forall s c, block_read d' s c = block_read d s c;
  mmc_write_same d s c b n d' : block_write d s c b = (n, d') ->
    part_num d' = part_num d /\ read_bl_len d' = read_bl_len d /\ write_bl_len d' = write_bl_len d;
  mmc_write_read d s c b d' : Z.of_nat (length b) = c * write_bl_len d -> read_bl_len d = write_bl_len d ->
    block_write d s c b = (c, d') -> block_read d' s c = (c, b) }.

Section saving.
Context {HH : EnvHooks} {HOk : EnvHooksOk HH} {D : Type} {MD : Mmc D} {MOk : MmcOk D} (de : list Z).
Context (Hdup : forall s, dup_string s <> None) (Hmalloc : forall n, malloc_ok n = true).

(** A card with blocks of 512 bytes and the partition of the environment selected. *)
Definition card_ok (d : D) : Prop := part_num d = CONFIG_SYS_MMC_ENV_PART /\ read_bl_len d = 512 /\ write_bl_len d = 512.

Lemma init_card d : card_ok d -> fst (mmc_init d) = 0 ->
  exists d', init_mmc_for_env (Some d) = (0, Some d') /\ card_ok d' /\ forall s c, block_read d' s c = block_read d s c.
Proof using MOk.
  intros (Hp & Hr & Hw) Hi. unfold init_mmc_for_env. destruct (mmc_init d) as [r d'] eqn:E. cbn [fst] in Hi. subst r.
  destruct (mmc_init_same d 0 d' E) as (Hp' & Hr' & Hw' & Hb). change (negb (0 =? 0)) with false. cbn iota.
  unfold mmc_set_env_part, mmc_get_env_part. rewrite Hp', Hp, Z.eqb_refl. cbn [negb].
  exists d'. split; [done|]. split; [split_and!; congruence | done].
Qed.

Lemma fini_card d : card_ok d -> fini_mmc_for_env d = d.
Proof. intros (Hp & _). unfold fini_mmc_for_env, mmc_get_env_part. by rewrite Hp, Z.eqb_refl. Qed.

(** The blocks of the environment. *)
Definition ENV_BLK_START : Z := 1536.
Definition ENV_BLK_CNT : Z := 16.

Lemma saveenv_spec gd tab M d addr out :
  Rep (env_htab gd) tab M -> storable M -> card_ok d -> fst (mmc_init d) = 0 -> length out = Z.to_nat CONFIG_ENV_SIZE ->
  exists L r d', list_to_map L = M /\ NoDup (L.*1) /\ Forall (entry_ok 0) L /\ card_ok d' /\
    saveenv gd (Some d) addr out = Some (r, Some d') /\
    (r = 0 -> (length (encode 0 L) < Z.to_nat ENV_SIZE)%nat /\
      block_read d' ENV_BLK_START ENV_BLK_CNT =
        (ENV_BLK_CNT, le_bytes (crc32 (addr + 4) 0 (env_image L)) ++ env_image L)) /\
    (r <> 0 -> env_need M > ENV_SIZE \/
      exists d1 b n d2, block_write d1 ENV_BLK_START ENV_BLK_CNT b = (n, d2) /\ n <> ENV_BLK_CNT).
Proof using MOk.
  intros HR HS Hd Hi Hl. destruct (env_export_spec gd tab M (addr + 4) out HR HS Hl) as (L & HL & Hnd & Hok & Hlen & Hex).
  unfold saveenv. destruct (init_card d Hd Hi) as (d1 & -> & Hd1 & _). change (negb (0 =? 0)) with false. cbn iota.
  cbn [mbind option_bind]. rewrite Hex. cbn [mbind option_bind]. exists L.
  destruct (Z.leb_spec (env_need M) ENV_SIZE) as [Hneed|Hneed].
  2:{ exists 1, d1. change (negb (1 =? 0)) with true. cbn iota. rewrite fini_card by done.
      split_and!; [done..|left; lia]. }
  change (negb (0 =? 0)) with false. cbn iota. cbn [mmc_get_env_addr]. change (negb (0 =? 0)) with false. cbn iota.
  set (img := le_bytes _ ++ env_image L).
  assert (Himg : Z.of_nat (length img) = ENV_BLK_CNT * 512).
  { unfold img. rewrite length_app, env_image_length by (specialize (Hlen Hneed); lia). reflexivity. }
  unfold write_env. pose proof Hd1 as (Hp1 & Hr1 & Hw1). rewrite Hw1.
  change (ALIGN (u32 CONFIG_ENV_OFFSET) 512 / 512) with ENV_BLK_START.
  change (ALIGN CONFIG_ENV_SIZE 512 / 512) with ENV_BLK_CNT.
  destruct (block_write d1 ENV_BLK_START ENV_BLK_CNT img) as [n d2] eqn:Ew.
  destruct (mmc_write_same d1 _ _ _ _ _ Ew) as (Hp2 & Hr2 & Hw2).
  assert (Hd2 : card_ok d2) by (split_and!; congruence).
  destruct (Z.eqb_spec n ENV_BLK_CNT) as [->|Hn].
  - exists 0, d2. rewrite fini_card by done. split_and!; [done..| |done]. intros _. split; [by apply Hlen|]. apply (mmc_write_read d1); [by rewrite Hw1 | congruence | done].
  - exists 1, d2. rewrite fini_card by done. split_and!; [done..|]. intros _. right. by exists d1, img, n, d2.
Qed.

(** The reasons not to use what is on the card. *)
Inductive unusable (gd : gdata) (addr : Z) (buf : list Z) : option D -> Prop :=
  | env_not_valid mmc : env_valid gd = 0 -> unusable gd addr buf mmc
  | no_card : unusable gd addr buf None
  | card_failed d : fst (mmc_init d) <> 0 -> unusable gd addr buf (Some d)
  | read_failed d n bytes : card_ok d -> fst (mmc_init d) = 0 ->
      block_read d ENV_BLK_START ENV_BLK_CNT = (n, bytes) -> (length bytes <= length buf)%nat ->
      n <> ENV_BLK_CNT -> unusable gd addr buf (Some d)
  | bad_checksum d n bytes : card_ok d -> fst (mmc_init d) = 0 ->
      block_read d ENV_BLK_START ENV_BLK_CNT = (n, bytes) -> length bytes = length buf ->
      crc32 (addr + 4) 0 (take (Z.to_nat ENV_SIZE) (drop 4 bytes)) <> le_word (take 4 bytes) ->
      unusable gd addr buf (Some d).

(** Reading the blocks of the environment into [buf]. *)
Lemma read_env_card d n bytes buf : card_ok d -> block_read d ENV_BLK_START ENV_BLK_CNT = (n, bytes) ->
  (length bytes <= length buf)%nat ->
  read_env d CONFIG_ENV_SIZE (u32 CONFIG_ENV_OFFSET) buf =
    Some (if n =? ENV_BLK_CNT then 0 else -1, bytes ++ drop (length bytes) buf).
Proof.
  intros (Hp & Hr & Hw) Hb Hl. unfold read_env. rewrite Hr.
  change (ALIGN (u32 CONFIG_ENV_OFFSET) 512 / 512) with ENV_BLK_START.
  change (ALIGN CONFIG_ENV_SIZE 512 / 512) with ENV_BLK_CNT. rewrite Hb.
  by rewrite (proj2 (Nat.leb_le _ _)).
Qed.

(** The steps of [env_relocate_spec] up to the import. *)
Lemma relocate_read gd d n bytes addr buf : env_valid gd <> 0 -> card_ok d -> fst (mmc_init d) = 0 ->
  block_read d ENV_BLK_START ENV_BLK_CNT = (n, bytes) -> (length bytes <= length buf)%nat ->
  exists d', env_relocate de gd (Some d) addr buf =
    if n =? ENV_BLK_CNT
    then '(_, gd) ← env_import de gd (addr + 4) (bytes ++ drop (length bytes) buf) true; Some (gd, Some d')
    else gd ← set_default_env de gd None; Some (gd, Some d').
Proof using MOk.
  intros Hv Hd Hi Hb Hl. unfold env_relocate, env_relocate_spec. rewrite (proj2 (Z.eqb_neq _ 0)) by done.
  destruct (init_card d Hd Hi) as (d1 & -> & Hd1 & Hb1). exists d1. change (negb (0 =? 0)) with false. cbn iota.
  cbn [mbind option_bind mmc_get_env_addr]. change (negb (0 =? 0)) with false. cbn iota.
  rewrite (read_env_card d1 n bytes buf Hd1) by (done || by rewrite Hb1). cbn [mbind option_bind].
  rewrite fini_card by done. by destruct (n =? ENV_BLK_CNT).
Qed.

Lemma relocate_fallback gd mmc addr buf L : default_ok de L -> enterable gd 0 L -> unusable gd addr buf mmc ->
  exists gd' mmc', env_relocate de gd mmc addr buf = Some (gd', mmc') /\ EnvRep gd' (list_to_map L).
Proof using HOk MOk Hdup Hmalloc.
  intros HL Hacc Hbad. destruct (decide (env_valid gd = 0)) as [Hv|Hv].
  { unfold env_relocate. rewrite Hv, Z.eqb_refl.
    destruct (set_default_env_spec de Hdup Hmalloc gd (Some (str "!bad CRC")) L HL Hacc) as (gd' & -> & HE). by eexists _, _. }
  destruct (set_default_env_spec de Hdup Hmalloc gd None L HL Hacc) as (gd' & Hdef & HE).
  destruct Hbad as [mmc Hv' | | d Hi | d n bytes Hd Hi Hb Hl Hn | d n bytes Hd Hi Hb Hl Hcrc]; [done| | | |].
  - unfold env_relocate, env_relocate_spec. rewrite (proj2 (Z.eqb_neq _ 0)) by done. cbn. rewrite Hdef. by eexists _, _.
  - unfold env_relocate, env_relocate_spec, init_mmc_for_env. rewrite (proj2 (Z.eqb_neq _ 0)) by done.
    destruct (mmc_init d) as [r d']. cbn [fst] in Hi. rewrite (proj2 (Z.eqb_neq r 0)) by done. cbn. rewrite Hdef.
    by eexists _, _.
  - destruct (relocate_read gd d n bytes addr buf Hv Hd Hi Hb Hl) as (d' & ->).
    rewrite (proj2 (Z.eqb_neq n _)) by done. rewrite Hdef. by eexists _, _.
  - destruct (relocate_read gd d n bytes addr buf Hv Hd Hi Hb ltac:(lia)) as (d' & ->).
    destruct (n =? ENV_BLK_CNT); [|rewrite Hdef; by eexists _, _].
    rewrite drop_ge, app_nil_r by lia. unfold env_import, env_data, env_crc.
    rewrite (proj2 (Z.eqb_neq _ _) Hcrc). cbn [negb andb].
    destruct (set_default_env_spec de Hdup Hmalloc gd (Some (str "!bad CRC")) L HL Hacc) as (gd2 & -> & HE2). by eexists _, _.
Qed.
End saving.

(** C1: The environment survives a restart: when [saveenv] reports success,
    [env_relocate] of the next boot, with any table and memory, loads exactly
    the saved variables from the card: [getenv] then returns the values they
    had.  The names are 7-bit and the values without backslashes, and the
    permission check and callbacks accept the variables.  [saveenv] always
    returns, and reports a failure only if the variables do not fit the
    environment block or the card did not write all blocks. *)
Theorem saveenv_restart_roundtrip `{HH : EnvHooks} `{!EnvHooksOk HH} {D} `{MOk : MmcOk D} de gd tab M d addr out :
  (forall s, dup_string s <> None) -> (forall n, malloc_ok n = true) ->
  Rep (env_htab gd) tab M -> storable M -> card_ok d -> fst (mmc_init d) = 0 -> length out = Z.to_nat CONFIG_ENV_SIZE ->
  exists r d', saveenv gd (Some d) addr out = Some (r, Some d') /\
    (r <> 0 -> env_need M > ENV_SIZE \/
      exists d1 b n d2, block_write d1 ENV_BLK_START ENV_BLK_CNT b = (n, d2) /\ n <> ENV_BLK_CNT) /\
    (r = 0 -> forall gd0 addr0 buf, env_valid gd0 <> 0 -> fst (mmc_init d') = 0 ->
      length buf = Z.to_nat CONFIG_ENV_SIZE ->
      map_Forall (fun k v => accepts_new k 0 (change_ok (env_htab gd0)) v) M ->
      exists gd1 mmc, env_relocate de gd0 (Some d') addr0 buf = Some (gd1, mmc) /\
        forall name, Forall char_ok name -> getenv de gd1 name = Some (M !! name, gd1)).
Proof.
  intros Hdup Hm HR HS Hd Hi Hl.
  destruct (saveenv_spec gd tab M d addr out HR HS Hd Hi Hl) as (L & r & d' & HL & Hnd & Hok & Hd' & Hsave & Hgood & Hbad).
  exists r, d'. split; [done|]. split; [done|]. intros -> gd0 addr0 buf Hv Hi' Hbl Hacc.
  destruct (Hgood eq_refl) as [Hlen Hread]. set (img := le_bytes _ ++ env_image L) in Hread.
  assert (Himg : length img = length buf).
  { unfold img. rewrite length_app, env_image_length, Hbl by lia. reflexivity. }
  destruct (relocate_read de gd0 d' _ img addr0 buf Hv Hd' Hi' Hread ltac:(lia)) as (d'' & ->).
  rewrite Z.eqb_refl, drop_ge, app_nil_r by lia. destruct HS as (Hne & _ & Hcount).
  destruct (env_import_image de Hdup Hm gd0 (addr0 + 4) (addr + 4) L) as (gd1 & Him & HE); try done.
  - by intros ->.
  - rewrite <- HL, map_size_list_to_map in Hcount by done. done.
  - apply Forall_forall. intros [k v] Hkv%list_elem_of_In. apply Hacc. rewrite <- HL. by apply elem_of_list_to_map_1.
  - unfold img. rewrite Him. cbn [mbind option_bind]. eexists _, _. split; [done|]. intros name Hn. rewrite <- HL.
    by apply getenv_ready.
Qed.


(** A card that remembers the last extent written to it. *)
Definition card : Type := Z * Z * list Z.

#[global] Instance card_mmc : Mmc card := {
  mmc_init d := (0, d); part_num _ := 0; mmc_switch_part d _ := (0, d);
  read_bl_len _ := 512; write_bl_len _ := 512;
  block_read d s c := let '(s0, c0, b) := d in if (s =? s0) && (c =? c0) then (c, b) else (0, []);
  block_write d s c b := (c, (s, c, b)) }.

#[global] Instance card_mmc_ok : MmcOk card.
Proof.
  split.
  - by intros d r d' [= <- <-].
  - by intros d s c b n d' [= <- <-].
  - intros d s c b d' _ _ [= <-]. cbn. by rewrite !Z.eqb_refl.
Qed.

Definition blank_card : card := (0, 0, []).

Lemma plain_accepts k fl v : @accepts_new plain_hooks k fl None v.
Proof. intros h1 e0 H0 _. split; [reflexivity|]. cbn. by rewrite H0. Qed.

Lemma entry_a_nul : entry_ok 0 (str "a", str "1").
Proof.
  split; cbn [fst snd]; [chars | | | chars | discriminate].
  - repeat constructor; discriminate.
  - exists 97, []. by vm_compute.
Qed.

Lemma storable_a : storable {[ [97] := [49] ]}.
Proof.
  split; [|split; [|by vm_compute]].
  - intros E. apply (f_equal (lookup [97])) in E. by rewrite lookup_singleton_eq in E.
  - apply map_Forall_singleton. split; [exact entry_a_nul|]. split; [repeat constructor; unfold ascii7; lia|].
    rewrite list_elem_of_singleton. discriminate.
Qed.

Lemma saveenv_restart_roundtrip_witness :
  exists d', @saveenv plain_hooks card _ gd_a (Some blank_card) 0 (replicate (Z.to_nat CONFIG_ENV_SIZE) 255) = Some (0, Some d') /\
    exists gd1 mmc, @env_relocate plain_hooks card _ [] (mk_gd 0 [] 1 [] null_htab 1) (Some d') 2
        (replicate (Z.to_nat CONFIG_ENV_SIZE) 0) = Some (gd1, mmc) /\
      @getenv plain_hooks [] gd1 (str "a") = Some (Some (str "1"), gd1).
Proof.
  pose proof plain_hooks_ok. destruct table_a_rep as [tab HR].
  destruct (@saveenv_restart_roundtrip plain_hooks _ card _ _ [] gd_a tab {[ [97] := [49] ]} blank_card 0
    (replicate (Z.to_nat CONFIG_ENV_SIZE) 255)) as (r & d' & Hs & Hbad & Hgood);
    [discriminate | reflexivity | exact HR | exact storable_a | by vm_compute | reflexivity | apply length_replicate |].
  assert (r = 0) as ->.
  { destruct (Z.eq_dec r 0) as [|Hr]; [done|]. destruct (Hbad Hr) as [Hn | (d1 & b & n & d2 & Hw & Hn)].
    - by vm_compute in Hn.
    - destruct (Hn (eq_sym (f_equal fst Hw))). }
  exists d'. split; [exact Hs|].
  destruct (Hgood eq_refl (mk_gd 0 [] 1 [] null_htab 1) 2 (replicate (Z.to_nat CONFIG_ENV_SIZE) 0)) as (gd1 & mmc & Hrel & Hget);
    [discriminate | reflexivity | apply length_replicate | |].
  { apply map_Forall_singleton. apply plain_accepts. }
  exists gd1, mmc. split; [exact Hrel|]. rewrite Hget by (repeat constructor; vm_compute; reflexivity). reflexivity.
Defined.


(** ** Before the import *)

Section linear.
Context (de : list Z) (gd : gdata).

Lemma env_get_char_addr i : env_get_char de gd i = aget (env_get_addr de gd) i.
Proof.
  unfold env_get_char, env_get_char_memory, env_get_char_init, env_get_char_spec, env_get_addr.
  by destruct (has_flag _ _), (negb _).
Qed.

(** The character at [i] when the memory there is known. *)
Lemma env_get_char_at pre c rest i : env_get_addr de gd = pre ++ c :: rest -> i = Z.of_nat (length pre) ->
  env_get_char de gd i = Some c.
Proof. intros E ->. rewrite env_get_char_addr, E. by apply aget_mid. Qed.

Lemma entry_end_spec s : forall fuel pre rest i, env_get_addr de gd = pre ++ s ++ 0 :: rest ->
  i = Z.of_nat (length pre) -> Forall char_ok s -> i + Z.of_nat (length s) <= CONFIG_ENV_SIZE -> (length s < fuel)%nat ->
  entry_end de fuel gd i = Some (Some (i + Z.of_nat (length s))).
Proof.
  induction s as [|c s IH]; intros [|fuel] pre rest i E Hi Hs Hsz Hf; cbn [length] in *; try lia; cbn [entry_end].
  - rewrite (env_get_char_at pre 0 rest) by done. cbn [mbind option_bind Z.eqb]. do 2 f_equal. lia.
  - apply Forall_cons_iff in Hs as [Hc Hs]. unfold char_ok in Hc.
    rewrite (env_get_char_at pre c (s ++ 0 :: rest)) by done. cbn [mbind option_bind].
    rewrite (proj2 (Z.eqb_neq c 0)), (proj2 (Z.leb_gt _ i)) by lia.
    rewrite (IH fuel (pre ++ [c]) rest) by (done || lia || (by rewrite <- app_assoc) || (rewrite length_app; cbn; lia)).
    do 2 f_equal. lia.
Qed.

Definition no_eq (s : cstr) : Prop := Forall (fun c => char_ok c /\ c <> 61) s.

Lemma envmatch_spec name : forall k pre rest i, env_get_addr de gd = pre ++ k ++ 61 :: rest ->
  i = Z.of_nat (length pre) -> no_eq name -> no_eq k ->
  envmatch de gd name i = Some (if decide (name = k) then i + Z.of_nat (length k) + 1 else -1).
Proof.
  induction name as [|a name IH]; intros k pre rest i E Hi Hn Hk; cbn [envmatch].
  - destruct k as [|c k].
    + rewrite (env_get_char_at pre 61 rest) by done. rewrite decide_True by done. change (deref []) with 0.
      cbn [mbind option_bind Z.eqb Pos.eqb andb length]. f_equal. lia.
    + apply Forall_cons_iff in Hk as [[Hc H61] Hk]. unfold char_ok in Hc.
      rewrite (env_get_char_at pre c (k ++ 61 :: rest)) by done. cbn [mbind option_bind]. change (deref []) with 0.
      rewrite (proj2 (Z.eqb_neq 0 c)), (proj2 (Z.eqb_neq c 61)) by lia. by rewrite decide_False.
  - apply Forall_cons_iff in Hn as [[Ha Ha61] Hn]. unfold char_ok in Ha. rewrite deref_cons.
    rewrite (proj2 (Z.eqb_neq a 61)), (proj2 (Z.eqb_neq a 0)) by lia. cbn [andb].
    destruct k as [|c k].
    + rewrite (env_get_char_at pre 61 rest) by done. cbn [mbind option_bind].
      rewrite (proj2 (Z.eqb_neq a 61)) by done. by rewrite decide_False.
    + apply Forall_cons_iff in Hk as [[Hc H61] Hk].
      rewrite (env_get_char_at pre c (k ++ 61 :: rest)) by done. cbn [mbind option_bind].
      destruct (Z.eqb_spec a c) as [->|Hne]; [|by rewrite decide_False by congruence].
      rewrite (IH k (pre ++ [c]) rest) by (done || (by rewrite <- app_assoc) || (rewrite length_app; cbn; lia)).
      cbn [length]. destruct (decide (name = k)) as [->|Hnk]; [rewrite decide_True by done | by rewrite decide_False by congruence].
      f_equal. lia.
Qed.

Lemma copy_value_spec v : forall n pre rest i, env_get_addr de gd = pre ++ v ++ 0 :: rest ->
  i = Z.of_nat (length pre) -> Forall char_ok v ->
  copy_value de n gd i = Some (if decide (length v < n)%nat then (v ++ [0], true) else (take n v, false)).
Proof.
  induction v as [|c v IH]; intros [|n] pre rest i E Hi Hv; cbn [copy_value]; [done| |done|].
  - by rewrite (env_get_char_at pre 0 rest).
  - apply Forall_cons_iff in Hv as [Hc Hv]. unfold char_ok in Hc.
    rewrite (env_get_char_at pre c (v ++ 0 :: rest)) by done. cbn [mbind option_bind].
    rewrite (proj2 (Z.eqb_neq c 0)) by lia.
    rewrite (IH n (pre ++ [c]) rest) by (done || (by rewrite <- app_assoc) || (rewrite length_app; cbn; lia)).
    cbn [length]. destruct (decide (length v < n)%nat); [rewrite decide_True by lia | rewrite decide_False by lia]; done.
Qed.

(** What [getenv_f] returns and stores for a value. *)
Definition stored_value (len : Z) (v : option cstr) : Z * list Z :=
  match v with
  | None => (-1, [])
  | Some v => if decide (Z.of_nat (length v) < len) then (Z.of_nat (length v), v ++ [0])
              else (len, take (Z.to_nat len - 1) v ++ [0])
  end.

Definition plain_entry (e : cstr * cstr) : Prop := entry_ok 0 e /\ (92 ∉ snd e).

Lemma escape_plain v : Forall char_ok v -> (92 ∉ v) -> escape 0 v = v.
Proof.
  induction 1 as [|c v Hc Hv IH]; intros Hn; [done|]. unfold char_ok in Hc. apply not_elem_of_cons in Hn as [H92 Hn].
  change (escape 0 (c :: v)) with ((if needs_escape 0 c then [92; c] else [c]) ++ escape 0 v).
  unfold needs_escape. rewrite (proj2 (Z.eqb_neq c 0)), (proj2 (Z.eqb_neq c 92)) by lia. cbn. by rewrite IH.
Qed.

Lemma getenv_f_loop_spec name len L : 0 < len -> no_eq name -> Forall plain_entry L ->
  forall fuel pre post, env_get_addr de gd = pre ++ encode 0 L ++ 0 :: post ->
  Z.of_nat (length (pre ++ encode 0 L)) <= CONFIG_ENV_SIZE -> (length L < fuel)%nat ->
  getenv_f_loop de fuel gd name len (Z.of_nat (length pre)) =
    Some (stored_value len ((list_to_map L : gmap cstr cstr) !! name)).
Proof.
  intros Hlen Hname HL. induction HL as [|[k v] L [Hok H92] HL IH]; intros [|fuel] pre post E Hsz Hf; cbn [length] in *; try lia;
    cbn [getenv_f_loop].
  - rewrite (env_get_char_at pre 0 post) by done. done.
  - pose proof Hok as [Hk Hkc (c0 & k0 & Hk0 & _ & _) Hv _]. cbn [fst snd] in *.
    cbn [encode flat_map] in *. fold (encode 0 L) in *. unfold encode_entry in *. cbn [fst snd] in *.
    rewrite (escape_plain v Hv H92) in *. set (s := k ++ 61 :: v).
    assert (Hs : Forall char_ok s) by (apply Forall_app; split; [done|]; apply Forall_cons_iff; split; [unfold char_ok; lia|done]).
    assert (Hke : no_eq k).
    { apply Forall_forall. intros c Hc. split; [by apply (proj1 (Forall_forall _ _) Hk)|].
      by apply (proj1 (Forall_forall _ _) Hkc). }
    assert (E1 : env_get_addr de gd = pre ++ s ++ 0 :: encode 0 L ++ 0 :: post).
    { rewrite E. unfold s. rewrite <- !app_assoc. cbn [app]. by rewrite <- !app_assoc. }
    assert (E2 : env_get_addr de gd = pre ++ k ++ 61 :: v ++ 0 :: encode 0 L ++ 0 :: post)
      by (rewrite E1; unfold s; by rewrite <- app_assoc).
    assert (Hl : length (k ++ 61 :: v ++ [0]) = S (length s)) by (unfold s; rewrite !length_app; cbn; rewrite length_app; cbn; lia).
    assert (Hc0 : char_ok c0) by (rewrite Hk0 in Hk; by apply Forall_cons_iff in Hk as [? _]). unfold char_ok in Hc0.
    rewrite (env_get_char_at pre c0 (k0 ++ 61 :: v ++ 0 :: encode 0 L ++ 0 :: post)) by (done || by rewrite E2, Hk0).
    cbn [mbind option_bind]. rewrite (proj2 (Z.eqb_neq c0 0)) by lia.
    rewrite (length_app pre), length_app, Hl in Hsz.
    rewrite (entry_end_spec s _ pre _ _ E1) by (done || lia || (rewrite E1, !length_app; cbn; lia)).
    cbn [mbind option_bind]. rewrite (envmatch_spec name k pre _ _ E2) by done. cbn [mbind option_bind].
    rewrite list_to_map_cons. destruct (decide (name = k)) as [->|Hne].
    + rewrite lookup_insert_eq, (proj2 (Z.ltb_ge _ 0)) by lia.
      rewrite (copy_value_spec v (Z.to_nat len) (pre ++ k ++ [61]) (encode 0 L ++ 0 :: post));
        [|by rewrite E2, <- !app_assoc | rewrite !length_app; cbn; lia | done].
      cbn [mbind option_bind stored_value]. destruct (decide (length v < Z.to_nat len)%nat).
      * rewrite decide_True by lia. rewrite length_app. cbn [length]. do 2 f_equal. lia.
      * rewrite decide_False by lia. rewrite (proj2 (Z.eqb_neq len 0)) by lia.
        rewrite removelast_firstn_len, length_take, take_take. do 4 f_equal. lia.
    + rewrite lookup_insert_ne by done. change (-1 <? 0) with true. cbn iota.
      replace (Z.of_nat (length pre) + Z.of_nat (length s) + 1) with (Z.of_nat (length (pre ++ s ++ [0])))
        by (rewrite !length_app; cbn; lia).
      apply (IH fuel (pre ++ s ++ [0]) post); [by rewrite E1, <- !app_assoc | rewrite !length_app; cbn; lia | lia].
Qed.

Lemma encode_length_entries L : (length L <= length (encode 0 L))%nat.
Proof.
  induction L as [|e L IH]; [done|]. cbn [encode flat_map]. fold (encode 0 L). rewrite length_app.
  unfold encode_entry. rewrite length_app. cbn [length]. lia.
Qed.

Lemma getenv_linear `{HH : EnvHooks} name L post :
  has_flag (gd_flags gd) GD_FLG_ENV_READY = false -> length (env_buf gd) = 32%nat ->
  env_get_addr de gd = encode 0 L ++ 0 :: post -> Z.of_nat (length (encode 0 L)) <= CONFIG_ENV_SIZE ->
  Forall plain_entry L -> no_eq name ->
  exists buf, length buf = 32%nat /\
    getenv de gd name = Some (take 31 <$> ((list_to_map L : gmap cstr cstr) !! name), with_buf gd buf).
Proof.
  intros Hr Hb E Hsz HL Hn. unfold getenv. rewrite Hr, Hb. unfold getenv_f. pose proof (encode_length_entries L).
  pose proof (getenv_f_loop_spec name 32 L ltac:(lia) Hn HL (S (length (env_get_addr de gd))) [] post E Hsz
    ltac:(rewrite E, length_app; cbn; lia)) as Hloop. cbn [length] in Hloop. change (Z.of_nat 0) with 0 in Hloop.
  change (Z.of_nat 32) with 32. rewrite Hloop.
  cbn [mbind option_bind]. destruct (_ !! name) as [v|] eqn:Ev; cbn [stored_value fmap option_fmap option_map].
  2:{ exists (env_buf gd). split; [done|]. done. }
  assert (Hv : Forall char_ok v /\ v <> []).
  { apply elem_of_list_to_map_2 in Ev. pose proof (proj1 (list.Forall_forall _ _) HL _ Ev) as [[_ _ _ ? ?] _]. done. }
  destruct Hv as [Hv Hne]. assert (length v <> 0)%nat by by destruct v.
  assert (Hstr : forall w rest, Forall char_ok w -> string_at (w ++ 0 :: rest) 0 = Some w).
  { intros w rest Hw. by apply (string_at_spec [] w rest 0). }
  destruct (decide (Z.of_nat (length v) < 32)).
  - rewrite (proj2 (Z.ltb_lt _ _)) by lia. eexists. split; [|cbn [with_buf env_buf]; rewrite <- app_assoc; cbn [app]].
    2:{ rewrite Hstr by done. cbn [mbind option_bind]. by rewrite take_ge by lia. }
    repeat (rewrite ?length_app, ?length_drop; cbn [length]). lia.
  - change (0 <? 32) with true. cbn iota. change (Z.to_nat 32 - 1)%nat with 31%nat.
    eexists. split; [|cbn [with_buf env_buf]; rewrite <- app_assoc; cbn [app]].
    2:{ rewrite Hstr by by apply Forall_take. cbn [mbind option_bind]. done. }
    repeat (rewrite ?length_app, ?length_drop, ?length_take; cbn [length]). lia.
Qed.
End linear.

Lemma has_flag_cleared f b : has_flag (Z.land f (Z.lnot b)) b = false.
Proof.
  unfold has_flag. rewrite <- Z.land_assoc, (Z.land_comm (Z.lnot b)), Z.land_lnot_diag, Z.land_0_r. done.
Qed.

(** Before the environment is imported, [getenv] finds the variables of
    its linear form in memory: the value of the first entry for the name, cut
    to the 31 characters that fit the buffer, and nothing if there is no
    entry; only that buffer changes.  [getenv_default] returns the values of
    the default environment in the same way at any time and restores the
    state of the environment. *)
Theorem getenv_before_import `{HH : EnvHooks} de gd L n name :
  de = encode 0 L ++ replicate (S n) 0 -> Z.of_nat (length de) <= CONFIG_ENV_SIZE -> Forall plain_entry L ->
  length (env_buf gd) = 32%nat -> no_eq name ->
  let value := take 31 <$> ((list_to_map L : gmap cstr cstr) !! name) in
  (has_flag (gd_flags gd) GD_FLG_ENV_READY = false -> env_valid gd = 0 \/ env_addr gd = de ->
    exists buf, getenv de gd name = Some (value, with_buf gd buf)) /\
  (exists buf, getenv_default de gd name = Some (value, with_buf gd buf)).
Proof.
  intros Hde Hsz HL Hb Hn value.
  assert (Hl : Z.of_nat (length (encode 0 L)) <= CONFIG_ENV_SIZE) by (rewrite Hde, length_app in Hsz; lia).
  split.
  - intros Hr Ha. destruct (getenv_linear de gd name L (replicate n 0)) as (buf & _ & Hg); try done; [|by exists buf].
    change (encode 0 L ++ 0 :: replicate n 0) with (encode 0 L ++ replicate (S n) 0). rewrite <- Hde. unfold env_get_addr.
    destruct Ha as [-> | ->]; [done|]. by destruct (negb _).
  - unfold getenv_default. set (gd1 := with_valid _ 0).
    destruct (getenv_linear de gd1 name L (replicate n 0)) as (buf & _ & ->); try done.
    + apply has_flag_cleared.
    + exists buf. cbn [mbind option_bind]. by destruct gd.
Qed.

Lemma getenv_before_import_witness :
  exists buf, @getenv_default plain_hooks (str "a=1" ++ [0; 0]) gd_a (str "a") = Some (Some (str "1"), with_buf gd_a buf).
Proof.
  destruct (@getenv_before_import plain_hooks (str "a=1" ++ [0; 0]) gd_a [(str "a", str "1")] 0 (str "a")) as [_ Hd];
    [reflexivity | by vm_compute | | reflexivity | | exact Hd].
  - constructor; [|constructor]. split; [exact entry_a_nul|]. cbn [snd]. change (str "1") with [49].
    rewrite list_elem_of_singleton. discriminate.
  - constructor; [|constructor]. by vm_compute.
Defined.

(** [setenv -f] without a name reads the null pointer that ends the arguments. *)
Lemma setenv_force_no_name gd : @do_env_set plain_hooks gd [str "setenv"; str "-f"] = None.
Proof. reflexivity. Qed.

(** [env default -f] behaves as [env default] does. *)
Lemma env_default_force_ignored de gd name :
  @do_env_default plain_hooks de gd [str "default"; str "-f"; 97 :: name] =
  @do_env_default plain_hooks de gd [str "default"; 97 :: name].
Proof. reflexivity. Qed.
