(* ===== verification/Aes.v ===== *)
(** * Aes: the block cipher ([lib/aes.c])

    AES-128 with tables that combine the substitution with the
    multiplications of the column mixing.  A state is the list of its 16
    bytes, an expanded key the list of its 176 bytes.  The reference is the
    cipher of FIPS-197, over the field with 256 elements. *)
From Stdlib Require Import Btauto.
From S2P Require Import Prelude Crc Digest.

Definition AES_KEYCOLS : Z := 4.
Definition AES_STATECOLS : Z := 4.
Definition AES_ROUNDS : Z := 10.
Definition AES_KEY_LENGTH : Z := 16.

Definition sbox : list Z :=
  [0x63; 0x7c; 0x77; 0x7b; 0xf2; 0x6b; 0x6f; 0xc5; 0x30; 0x01; 0x67; 0x2b; 0xfe; 0xd7; 0xab; 0x76;
   0xca; 0x82; 0xc9; 0x7d; 0xfa; 0x59; 0x47; 0xf0; 0xad; 0xd4; 0xa2; 0xaf; 0x9c; 0xa4; 0x72; 0xc0;
   0xb7; 0xfd; 0x93; 0x26; 0x36; 0x3f; 0xf7; 0xcc; 0x34; 0xa5; 0xe5; 0xf1; 0x71; 0xd8; 0x31; 0x15;
   0x04; 0xc7; 0x23; 0xc3; 0x18; 0x96; 0x05; 0x9a; 0x07; 0x12; 0x80; 0xe2; 0xeb; 0x27; 0xb2; 0x75;
   0x09; 0x83; 0x2c; 0x1a; 0x1b; 0x6e; 0x5a; 0xa0; 0x52; 0x3b; 0xd6; 0xb3; 0x29; 0xe3; 0x2f; 0x84;
   0x53; 0xd1; 0x00; 0xed; 0x20; 0xfc; 0xb1; 0x5b; 0x6a; 0xcb; 0xbe; 0x39; 0x4a; 0x4c; 0x58; 0xcf;
   0xd0; 0xef; 0xaa; 0xfb; 0x43; 0x4d; 0x33; 0x85; 0x45; 0xf9; 0x02; 0x7f; 0x50; 0x3c; 0x9f; 0xa8;
   0x51; 0xa3; 0x40; 0x8f; 0x92; 0x9d; 0x38; 0xf5; 0xbc; 0xb6; 0xda; 0x21; 0x10; 0xff; 0xf3; 0xd2;
   0xcd; 0x0c; 0x13; 0xec; 0x5f; 0x97; 0x44; 0x17; 0xc4; 0xa7; 0x7e; 0x3d; 0x64; 0x5d; 0x19; 0x73;
   0x60; 0x81; 0x4f; 0xdc; 0x22; 0x2a; 0x90; 0x88; 0x46; 0xee; 0xb8; 0x14; 0xde; 0x5e; 0x0b; 0xdb;
   0xe0; 0x32; 0x3a; 0x0a; 0x49; 0x06; 0x24; 0x5c; 0xc2; 0xd3; 0xac; 0x62; 0x91; 0x95; 0xe4; 0x79;
   0xe7; 0xc8; 0x37; 0x6d; 0x8d; 0xd5; 0x4e; 0xa9; 0x6c; 0x56; 0xf4; 0xea; 0x65; 0x7a; 0xae; 0x08;
   0xba; 0x78; 0x25; 0x2e; 0x1c; 0xa6; 0xb4; 0xc6; 0xe8; 0xdd; 0x74; 0x1f; 0x4b; 0xbd; 0x8b; 0x8a;
   0x70; 0x3e; 0xb5; 0x66; 0x48; 0x03; 0xf6; 0x0e; 0x61; 0x35; 0x57; 0xb9; 0x86; 0xc1; 0x1d; 0x9e;
   0xe1; 0xf8; 0x98; 0x11; 0x69; 0xd9; 0x8e; 0x94; 0x9b; 0x1e; 0x87; 0xe9; 0xce; 0x55; 0x28; 0xdf;
   0x8c; 0xa1; 0x89; 0x0d; 0xbf; 0xe6; 0x42; 0x68; 0x41; 0x99; 0x2d; 0x0f; 0xb0; 0x54; 0xbb; 0x16].

Definition inv_sbox : list Z :=
  [0x52; 0x09; 0x6a; 0xd5; 0x30; 0x36; 0xa5; 0x38; 0xbf; 0x40; 0xa3; 0x9e; 0x81; 0xf3; 0xd7; 0xfb;
   0x7c; 0xe3; 0x39; 0x82; 0x9b; 0x2f; 0xff; 0x87; 0x34; 0x8e; 0x43; 0x44; 0xc4; 0xde; 0xe9; 0xcb;
   0x54; 0x7b; 0x94; 0x32; 0xa6; 0xc2; 0x23; 0x3d; 0xee; 0x4c; 0x95; 0x0b; 0x42; 0xfa; 0xc3; 0x4e;
   0x08; 0x2e; 0xa1; 0x66; 0x28; 0xd9; 0x24; 0xb2; 0x76; 0x5b; 0xa2; 0x49; 0x6d; 0x8b; 0xd1; 0x25;
   0x72; 0xf8; 0xf6; 0x64; 0x86; 0x68; 0x98; 0x16; 0xd4; 0xa4; 0x5c; 0xcc; 0x5d; 0x65; 0xb6; 0x92;
   0x6c; 0x70; 0x48; 0x50; 0xfd; 0xed; 0xb9; 0xda; 0x5e; 0x15; 0x46; 0x57; 0xa7; 0x8d; 0x9d; 0x84;
   0x90; 0xd8; 0xab; 0x00; 0x8c; 0xbc; 0xd3; 0x0a; 0xf7; 0xe4; 0x58; 0x05; 0xb8; 0xb3; 0x45; 0x06;
   0xd0; 0x2c; 0x1e; 0x8f; 0xca; 0x3f; 0x0f; 0x02; 0xc1; 0xaf; 0xbd; 0x03; 0x01; 0x13; 0x8a; 0x6b;
   0x3a; 0x91; 0x11; 0x41; 0x4f; 0x67; 0xdc; 0xea; 0x97; 0xf2; 0xcf; 0xce; 0xf0; 0xb4; 0xe6; 0x73;
   0x96; 0xac; 0x74; 0x22; 0xe7; 0xad; 0x35; 0x85; 0xe2; 0xf9; 0x37; 0xe8; 0x1c; 0x75; 0xdf; 0x6e;
   0x47; 0xf1; 0x1a; 0x71; 0x1d; 0x29; 0xc5; 0x89; 0x6f; 0xb7; 0x62; 0x0e; 0xaa; 0x18; 0xbe; 0x1b;
   0xfc; 0x56; 0x3e; 0x4b; 0xc6; 0xd2; 0x79; 0x20; 0x9a; 0xdb; 0xc0; 0xfe; 0x78; 0xcd; 0x5a; 0xf4;
   0x1f; 0xdd; 0xa8; 0x33; 0x88; 0x07; 0xc7; 0x31; 0xb1; 0x12; 0x10; 0x59; 0x27; 0x80; 0xec; 0x5f;
   0x60; 0x51; 0x7f; 0xa9; 0x19; 0xb5; 0x4a; 0x0d; 0x2d; 0xe5; 0x7a; 0x9f; 0x93; 0xc9; 0x9c; 0xef;
   0xa0; 0xe0; 0x3b; 0x4d; 0xae; 0x2a; 0xf5; 0xb0; 0xc8; 0xeb; 0xbb; 0x3c; 0x83; 0x53; 0x99; 0x61;
   0x17; 0x2b; 0x04; 0x7e; 0xba; 0x77; 0xd6; 0x26; 0xe1; 0x69; 0x14; 0x63; 0x55; 0x21; 0x0c; 0x7d].

Definition x2_sbox : list Z :=
  [0xc6; 0xf8; 0xee; 0xf6; 0xff; 0xd6; 0xde; 0x91; 0x60; 0x02; 0xce; 0x56; 0xe7; 0xb5; 0x4d; 0xec;
   0x8f; 0x1f; 0x89; 0xfa; 0xef; 0xb2; 0x8e; 0xfb; 0x41; 0xb3; 0x5f; 0x45; 0x23; 0x53; 0xe4; 0x9b;
   0x75; 0xe1; 0x3d; 0x4c; 0x6c; 0x7e; 0xf5; 0x83; 0x68; 0x51; 0xd1; 0xf9; 0xe2; 0xab; 0x62; 0x2a;
   0x08; 0x95; 0x46; 0x9d; 0x30; 0x37; 0x0a; 0x2f; 0x0e; 0x24; 0x1b; 0xdf; 0xcd; 0x4e; 0x7f; 0xea;
   0x12; 0x1d; 0x58; 0x34; 0x36; 0xdc; 0xb4; 0x5b; 0xa4; 0x76; 0xb7; 0x7d; 0x52; 0xdd; 0x5e; 0x13;
   0xa6; 0xb9; 0x00; 0xc1; 0x40; 0xe3; 0x79; 0xb6; 0xd4; 0x8d; 0x67; 0x72; 0x94; 0x98; 0xb0; 0x85;
   0xbb; 0xc5; 0x4f; 0xed; 0x86; 0x9a; 0x66; 0x11; 0x8a; 0xe9; 0x04; 0xfe; 0xa0; 0x78; 0x25; 0x4b;
   0xa2; 0x5d; 0x80; 0x05; 0x3f; 0x21; 0x70; 0xf1; 0x63; 0x77; 0xaf; 0x42; 0x20; 0xe5; 0xfd; 0xbf;
   0x81; 0x18; 0x26; 0xc3; 0xbe; 0x35; 0x88; 0x2e; 0x93; 0x55; 0xfc; 0x7a; 0xc8; 0xba; 0x32; 0xe6;
   0xc0; 0x19; 0x9e; 0xa3; 0x44; 0x54; 0x3b; 0x0b; 0x8c; 0xc7; 0x6b; 0x28; 0xa7; 0xbc; 0x16; 0xad;
   0xdb; 0x64; 0x74; 0x14; 0x92; 0x0c; 0x48; 0xb8; 0x9f; 0xbd; 0x43; 0xc4; 0x39; 0x31; 0xd3; 0xf2;
   0xd5; 0x8b; 0x6e; 0xda; 0x01; 0xb1; 0x9c; 0x49; 0xd8; 0xac; 0xf3; 0xcf; 0xca; 0xf4; 0x47; 0x10;
   0x6f; 0xf0; 0x4a; 0x5c; 0x38; 0x57; 0x73; 0x97; 0xcb; 0xa1; 0xe8; 0x3e; 0x96; 0x61; 0x0d; 0x0f;
   0xe0; 0x7c; 0x71; 0xcc; 0x90; 0x06; 0xf7; 0x1c; 0xc2; 0x6a; 0xae; 0x69; 0x17; 0x99; 0x3a; 0x27;
   0xd9; 0xeb; 0x2b; 0x22; 0xd2; 0xa9; 0x07; 0x33; 0x2d; 0x3c; 0x15; 0xc9; 0x87; 0xaa; 0x50; 0xa5;
   0x03; 0x59; 0x09; 0x1a; 0x65; 0xd7; 0x84; 0xd0; 0x82; 0x29; 0x5a; 0x1e; 0x7b; 0xa8; 0x6d; 0x2c].

Definition x3_sbox : list Z :=
  [0xa5; 0x84; 0x99; 0x8d; 0x0d; 0xbd; 0xb1; 0x54; 0x50; 0x03; 0xa9; 0x7d; 0x19; 0x62; 0xe6; 0x9a;
   0x45; 0x9d; 0x40; 0x87; 0x15; 0xeb; 0xc9; 0x0b; 0xec; 0x67; 0xfd; 0xea; 0xbf; 0xf7; 0x96; 0x5b;
   0xc2; 0x1c; 0xae; 0x6a; 0x5a; 0x41; 0x02; 0x4f; 0x5c; 0xf4; 0x34; 0x08; 0x93; 0x73; 0x53; 0x3f;
   0x0c; 0x52; 0x65; 0x5e; 0x28; 0xa1; 0x0f; 0xb5; 0x09; 0x36; 0x9b; 0x3d; 0x26; 0x69; 0xcd; 0x9f;
   0x1b; 0x9e; 0x74; 0x2e; 0x2d; 0xb2; 0xee; 0xfb; 0xf6; 0x4d; 0x61; 0xce; 0x7b; 0x3e; 0x71; 0x97;
   0xf5; 0x68; 0x00; 0x2c; 0x60; 0x1f; 0xc8; 0xed; 0xbe; 0x46; 0xd9; 0x4b; 0xde; 0xd4; 0xe8; 0x4a;
   0x6b; 0x2a; 0xe5; 0x16; 0xc5; 0xd7; 0x55; 0x94; 0xcf; 0x10; 0x06; 0x81; 0xf0; 0x44; 0xba; 0xe3;
   0xf3; 0xfe; 0xc0; 0x8a; 0xad; 0xbc; 0x48; 0x04; 0xdf; 0xc1; 0x75; 0x63; 0x30; 0x1a; 0x0e; 0x6d;
   0x4c; 0x14; 0x35; 0x2f; 0xe1; 0xa2; 0xcc; 0x39; 0x57; 0xf2; 0x82; 0x47; 0xac; 0xe7; 0x2b; 0x95;
   0xa0; 0x98; 0xd1; 0x7f; 0x66; 0x7e; 0xab; 0x83; 0xca; 0x29; 0xd3; 0x3c; 0x79; 0xe2; 0x1d; 0x76;
   0x3b; 0x56; 0x4e; 0x1e; 0xdb; 0x0a; 0x6c; 0xe4; 0x5d; 0x6e; 0xef; 0xa6; 0xa8; 0xa4; 0x37; 0x8b;
   0x32; 0x43; 0x59; 0xb7; 0x8c; 0x64; 0xd2; 0xe0; 0xb4; 0xfa; 0x07; 0x25; 0xaf; 0x8e; 0xe9; 0x18;
   0xd5; 0x88; 0x6f; 0x72; 0x24; 0xf1; 0xc7; 0x51; 0x23; 0x7c; 0x9c; 0x21; 0xdd; 0xdc; 0x86; 0x85;
   0x90; 0x42; 0xc4; 0xaa; 0xd8; 0x05; 0x01; 0x12; 0xa3; 0x5f; 0xf9; 0xd0; 0x91; 0x58; 0x27; 0xb9;
   0x38; 0x13; 0xb3; 0x33; 0xbb; 0x70; 0x89; 0xa7; 0xb6; 0x22; 0x92; 0x20; 0x49; 0xff; 0x78; 0x7a;
   0x8f; 0xf8; 0x80; 0x17; 0xda; 0x31; 0xc6; 0xb8; 0xc3; 0xb0; 0x77; 0x11; 0xcb; 0xfc; 0xd6; 0x3a].

Definition x_time_9 : list Z :=
  [0x00; 0x09; 0x12; 0x1b; 0x24; 0x2d; 0x36; 0x3f; 0x48; 0x41; 0x5a; 0x53; 0x6c; 0x65; 0x7e; 0x77;
   0x90; 0x99; 0x82; 0x8b; 0xb4; 0xbd; 0xa6; 0xaf; 0xd8; 0xd1; 0xca; 0xc3; 0xfc; 0xf5; 0xee; 0xe7;
   0x3b; 0x32; 0x29; 0x20; 0x1f; 0x16; 0x0d; 0x04; 0x73; 0x7a; 0x61; 0x68; 0x57; 0x5e; 0x45; 0x4c;
   0xab; 0xa2; 0xb9; 0xb0; 0x8f; 0x86; 0x9d; 0x94; 0xe3; 0xea; 0xf1; 0xf8; 0xc7; 0xce; 0xd5; 0xdc;
   0x76; 0x7f; 0x64; 0x6d; 0x52; 0x5b; 0x40; 0x49; 0x3e; 0x37; 0x2c; 0x25; 0x1a; 0x13; 0x08; 0x01;
   0xe6; 0xef; 0xf4; 0xfd; 0xc2; 0xcb; 0xd0; 0xd9; 0xae; 0xa7; 0xbc; 0xb5; 0x8a; 0x83; 0x98; 0x91;
   0x4d; 0x44; 0x5f; 0x56; 0x69; 0x60; 0x7b; 0x72; 0x05; 0x0c; 0x17; 0x1e; 0x21; 0x28; 0x33; 0x3a;
   0xdd; 0xd4; 0xcf; 0xc6; 0xf9; 0xf0; 0xeb; 0xe2; 0x95; 0x9c; 0x87; 0x8e; 0xb1; 0xb8; 0xa3; 0xaa;
   0xec; 0xe5; 0xfe; 0xf7; 0xc8; 0xc1; 0xda; 0xd3; 0xa4; 0xad; 0xb6; 0xbf; 0x80; 0x89; 0x92; 0x9b;
   0x7c; 0x75; 0x6e; 0x67; 0x58; 0x51; 0x4a; 0x43; 0x34; 0x3d; 0x26; 0x2f; 0x10; 0x19; 0x02; 0x0b;
   0xd7; 0xde; 0xc5; 0xcc; 0xf3; 0xfa; 0xe1; 0xe8; 0x9f; 0x96; 0x8d; 0x84; 0xbb; 0xb2; 0xa9; 0xa0;
   0x47; 0x4e; 0x55; 0x5c; 0x63; 0x6a; 0x71; 0x78; 0x0f; 0x06; 0x1d; 0x14; 0x2b; 0x22; 0x39; 0x30;
   0x9a; 0x93; 0x88; 0x81; 0xbe; 0xb7; 0xac; 0xa5; 0xd2; 0xdb; 0xc0; 0xc9; 0xf6; 0xff; 0xe4; 0xed;
   0x0a; 0x03; 0x18; 0x11; 0x2e; 0x27; 0x3c; 0x35; 0x42; 0x4b; 0x50; 0x59; 0x66; 0x6f; 0x74; 0x7d;
   0xa1; 0xa8; 0xb3; 0xba; 0x85; 0x8c; 0x97; 0x9e; 0xe9; 0xe0; 0xfb; 0xf2; 0xcd; 0xc4; 0xdf; 0xd6;
   0x31; 0x38; 0x23; 0x2a; 0x15; 0x1c; 0x07; 0x0e; 0x79; 0x70; 0x6b; 0x62; 0x5d; 0x54; 0x4f; 0x46].

Definition x_time_b : list Z :=
  [0x00; 0x0b; 0x16; 0x1d; 0x2c; 0x27; 0x3a; 0x31; 0x58; 0x53; 0x4e; 0x45; 0x74; 0x7f; 0x62; 0x69;
   0xb0; 0xbb; 0xa6; 0xad; 0x9c; 0x97; 0x8a; 0x81; 0xe8; 0xe3; 0xfe; 0xf5; 0xc4; 0xcf; 0xd2; 0xd9;
   0x7b; 0x70; 0x6d; 0x66; 0x57; 0x5c; 0x41; 0x4a; 0x23; 0x28; 0x35; 0x3e; 0x0f; 0x04; 0x19; 0x12;
   0xcb; 0xc0; 0xdd; 0xd6; 0xe7; 0xec; 0xf1; 0xfa; 0x93; 0x98; 0x85; 0x8e; 0xbf; 0xb4; 0xa9; 0xa2;
   0xf6; 0xfd; 0xe0; 0xeb; 0xda; 0xd1; 0xcc; 0xc7; 0xae; 0xa5; 0xb8; 0xb3; 0x82; 0x89; 0x94; 0x9f;
   0x46; 0x4d; 0x50; 0x5b; 0x6a; 0x61; 0x7c; 0x77; 0x1e; 0x15; 0x08; 0x03; 0x32; 0x39; 0x24; 0x2f;
   0x8d; 0x86; 0x9b; 0x90; 0xa1; 0xaa; 0xb7; 0xbc; 0xd5; 0xde; 0xc3; 0xc8; 0xf9; 0xf2; 0xef; 0xe4;
   0x3d; 0x36; 0x2b; 0x20; 0x11; 0x1a; 0x07; 0x0c; 0x65; 0x6e; 0x73; 0x78; 0x49; 0x42; 0x5f; 0x54;
   0xf7; 0xfc; 0xe1; 0xea; 0xdb; 0xd0; 0xcd; 0xc6; 0xaf; 0xa4; 0xb9; 0xb2; 0x83; 0x88; 0x95; 0x9e;
   0x47; 0x4c; 0x51; 0x5a; 0x6b; 0x60; 0x7d; 0x76; 0x1f; 0x14; 0x09; 0x02; 0x33; 0x38; 0x25; 0x2e;
   0x8c; 0x87; 0x9a; 0x91; 0xa0; 0xab; 0xb6; 0xbd; 0xd4; 0xdf; 0xc2; 0xc9; 0xf8; 0xf3; 0xee; 0xe5;
   0x3c; 0x37; 0x2a; 0x21; 0x10; 0x1b; 0x06; 0x0d; 0x64; 0x6f; 0x72; 0x79; 0x48; 0x43; 0x5e; 0x55;
   0x01; 0x0a; 0x17; 0x1c; 0x2d; 0x26; 0x3b; 0x30; 0x59; 0x52; 0x4f; 0x44; 0x75; 0x7e; 0x63; 0x68;
   0xb1; 0xba; 0xa7; 0xac; 0x9d; 0x96; 0x8b; 0x80; 0xe9; 0xe2; 0xff; 0xf4; 0xc5; 0xce; 0xd3; 0xd8;
   0x7a; 0x71; 0x6c; 0x67; 0x56; 0x5d; 0x40; 0x4b; 0x22; 0x29; 0x34; 0x3f; 0x0e; 0x05; 0x18; 0x13;
   0xca; 0xc1; 0xdc; 0xd7; 0xe6; 0xed; 0xf0; 0xfb; 0x92; 0x99; 0x84; 0x8f; 0xbe; 0xb5; 0xa8; 0xa3].

Definition x_time_d : list Z :=
  [0x00; 0x0d; 0x1a; 0x17; 0x34; 0x39; 0x2e; 0x23; 0x68; 0x65; 0x72; 0x7f; 0x5c; 0x51; 0x46; 0x4b;
   0xd0; 0xdd; 0xca; 0xc7; 0xe4; 0xe9; 0xfe; 0xf3; 0xb8; 0xb5; 0xa2; 0xaf; 0x8c; 0x81; 0x96; 0x9b;
   0xbb; 0xb6; 0xa1; 0xac; 0x8f; 0x82; 0x95; 0x98; 0xd3; 0xde; 0xc9; 0xc4; 0xe7; 0xea; 0xfd; 0xf0;
   0x6b; 0x66; 0x71; 0x7c; 0x5f; 0x52; 0x45; 0x48; 0x03; 0x0e; 0x19; 0x14; 0x37; 0x3a; 0x2d; 0x20;
   0x6d; 0x60; 0x77; 0x7a; 0x59; 0x54; 0x43; 0x4e; 0x05; 0x08; 0x1f; 0x12; 0x31; 0x3c; 0x2b; 0x26;
   0xbd; 0xb0; 0xa7; 0xaa; 0x89; 0x84; 0x93; 0x9e; 0xd5; 0xd8; 0xcf; 0xc2; 0xe1; 0xec; 0xfb; 0xf6;
   0xd6; 0xdb; 0xcc; 0xc1; 0xe2; 0xef; 0xf8; 0xf5; 0xbe; 0xb3; 0xa4; 0xa9; 0x8a; 0x87; 0x90; 0x9d;
   0x06; 0x0b; 0x1c; 0x11; 0x32; 0x3f; 0x28; 0x25; 0x6e; 0x63; 0x74; 0x79; 0x5a; 0x57; 0x40; 0x4d;
   0xda; 0xd7; 0xc0; 0xcd; 0xee; 0xe3; 0xf4; 0xf9; 0xb2; 0xbf; 0xa8; 0xa5; 0x86; 0x8b; 0x9c; 0x91;
   0x0a; 0x07; 0x10; 0x1d; 0x3e; 0x33; 0x24; 0x29; 0x62; 0x6f; 0x78; 0x75; 0x56; 0x5b; 0x4c; 0x41;
   0x61; 0x6c; 0x7b; 0x76; 0x55; 0x58; 0x4f; 0x42; 0x09; 0x04; 0x13; 0x1e; 0x3d; 0x30; 0x27; 0x2a;
   0xb1; 0xbc; 0xab; 0xa6; 0x85; 0x88; 0x9f; 0x92; 0xd9; 0xd4; 0xc3; 0xce; 0xed; 0xe0; 0xf7; 0xfa;
   0xb7; 0xba; 0xad; 0xa0; 0x83; 0x8e; 0x99; 0x94; 0xdf; 0xd2; 0xc5; 0xc8; 0xeb; 0xe6; 0xf1; 0xfc;
   0x67; 0x6a; 0x7d; 0x70; 0x53; 0x5e; 0x49; 0x44; 0x0f; 0x02; 0x15; 0x18; 0x3b; 0x36; 0x21; 0x2c;
   0x0c; 0x01; 0x16; 0x1b; 0x38; 0x35; 0x22; 0x2f; 0x64; 0x69; 0x7e; 0x73; 0x50; 0x5d; 0x4a; 0x47;
   0xdc; 0xd1; 0xc6; 0xcb; 0xe8; 0xe5; 0xf2; 0xff; 0xb4; 0xb9; 0xae; 0xa3; 0x80; 0x8d; 0x9a; 0x97].

Definition x_time_e : list Z :=
  [0x00; 0x0e; 0x1c; 0x12; 0x38; 0x36; 0x24; 0x2a; 0x70; 0x7e; 0x6c; 0x62; 0x48; 0x46; 0x54; 0x5a;
   0xe0; 0xee; 0xfc; 0xf2; 0xd8; 0xd6; 0xc4; 0xca; 0x90; 0x9e; 0x8c; 0x82; 0xa8; 0xa6; 0xb4; 0xba;
   0xdb; 0xd5; 0xc7; 0xc9; 0xe3; 0xed; 0xff; 0xf1; 0xab; 0xa5; 0xb7; 0xb9; 0x93; 0x9d; 0x8f; 0x81;
   0x3b; 0x35; 0x27; 0x29; 0x03; 0x0d; 0x1f; 0x11; 0x4b; 0x45; 0x57; 0x59; 0x73; 0x7d; 0x6f; 0x61;
   0xad; 0xa3; 0xb1; 0xbf; 0x95; 0x9b; 0x89; 0x87; 0xdd; 0xd3; 0xc1; 0xcf; 0xe5; 0xeb; 0xf9; 0xf7;
   0x4d; 0x43; 0x51; 0x5f; 0x75; 0x7b; 0x69; 0x67; 0x3d; 0x33; 0x21; 0x2f; 0x05; 0x0b; 0x19; 0x17;
   0x76; 0x78; 0x6a; 0x64; 0x4e; 0x40; 0x52; 0x5c; 0x06; 0x08; 0x1a; 0x14; 0x3e; 0x30; 0x22; 0x2c;
   0x96; 0x98; 0x8a; 0x84; 0xae; 0xa0; 0xb2; 0xbc; 0xe6; 0xe8; 0xfa; 0xf4; 0xde; 0xd0; 0xc2; 0xcc;
   0x41; 0x4f; 0x5d; 0x53; 0x79; 0x77; 0x65; 0x6b; 0x31; 0x3f; 0x2d; 0x23; 0x09; 0x07; 0x15; 0x1b;
   0xa1; 0xaf; 0xbd; 0xb3; 0x99; 0x97; 0x85; 0x8b; 0xd1; 0xdf; 0xcd; 0xc3; 0xe9; 0xe7; 0xf5; 0xfb;
   0x9a; 0x94; 0x86; 0x88; 0xa2; 0xac; 0xbe; 0xb0; 0xea; 0xe4; 0xf6; 0xf8; 0xd2; 0xdc; 0xce; 0xc0;
   0x7a; 0x74; 0x66; 0x68; 0x42; 0x4c; 0x5e; 0x50; 0x0a; 0x04; 0x16; 0x18; 0x32; 0x3c; 0x2e; 0x20;
   0xec; 0xe2; 0xf0; 0xfe; 0xd4; 0xda; 0xc8; 0xc6; 0x9c; 0x92; 0x80; 0x8e; 0xa4; 0xaa; 0xb8; 0xb6;
   0x0c; 0x02; 0x10; 0x1e; 0x34; 0x3a; 0x28; 0x26; 0x7c; 0x72; 0x60; 0x6e; 0x44; 0x4a; 0x58; 0x56;
   0x37; 0x39; 0x2b; 0x25; 0x0f; 0x01; 0x13; 0x1d; 0x47; 0x49; 0x5b; 0x55; 0x7f; 0x71; 0x63; 0x6d;
   0xd7; 0xd9; 0xcb; 0xc5; 0xef; 0xe1; 0xf3; 0xfd; 0xa7; 0xa9; 0xbb; 0xb5; 0x9f; 0x91; 0x83; 0x8d].

Definition rcon : list Z :=
  [0x00; 0x01; 0x02; 0x04; 0x08; 0x10; 0x20; 0x40; 0x80; 0x1b; 0x36].

(** [tab[x]] *)
Definition tb (tab : list Z) (x : Z) : Z := nth (Z.to_nat x) tab 0.
Definition at_ (s : list Z) (i : nat) : Z := nth i s 0.
Definition upd (s : list Z) (i : nat) (v : Z) : list Z := <[i := v]> s.

Definition shift_rows (s : list Z) : list Z :=
  let s := upd s 0 (tb sbox (at_ s 0)) in
  let s := upd s 4 (tb sbox (at_ s 4)) in
  let s := upd s 8 (tb sbox (at_ s 8)) in
  let s := upd s 12 (tb sbox (at_ s 12)) in
  let tmp := tb sbox (at_ s 1) in
  let s := upd s 1 (tb sbox (at_ s 5)) in
  let s := upd s 5 (tb sbox (at_ s 9)) in
  let s := upd s 9 (tb sbox (at_ s 13)) in
  let s := upd s 13 tmp in
  let tmp := tb sbox (at_ s 2) in
  let s := upd s 2 (tb sbox (at_ s 10)) in
  let s := upd s 10 tmp in
  let tmp := tb sbox (at_ s 6) in
  let s := upd s 6 (tb sbox (at_ s 14)) in
  let s := upd s 14 tmp in
  let tmp := tb sbox (at_ s 15) in
  let s := upd s 15 (tb sbox (at_ s 11)) in
  let s := upd s 11 (tb sbox (at_ s 7)) in
  let s := upd s 7 (tb sbox (at_ s 3)) in
  let s := upd s 3 tmp in
  s.

Definition inv_shift_rows (s : list Z) : list Z :=
  let s := upd s 0 (tb inv_sbox (at_ s 0)) in
  let s := upd s 4 (tb inv_sbox (at_ s 4)) in
  let s := upd s 8 (tb inv_sbox (at_ s 8)) in
  let s := upd s 12 (tb inv_sbox (at_ s 12)) in
  let tmp := tb inv_sbox (at_ s 13) in
  let s := upd s 13 (tb inv_sbox (at_ s 9)) in
  let s := upd s 9 (tb inv_sbox (at_ s 5)) in
  let s := upd s 5 (tb inv_sbox (at_ s 1)) in
  let s := upd s 1 tmp in
  let tmp := tb inv_sbox (at_ s 2) in
  let s := upd s 2 (tb inv_sbox (at_ s 10)) in
  let s := upd s 10 tmp in
  let tmp := tb inv_sbox (at_ s 6) in
  let s := upd s 6 (tb inv_sbox (at_ s 14)) in
  let s := upd s 14 tmp in
  let tmp := tb inv_sbox (at_ s 3) in
  let s := upd s 3 (tb inv_sbox (at_ s 7)) in
  let s := upd s 7 (tb inv_sbox (at_ s 11)) in
  let s := upd s 11 (tb inv_sbox (at_ s 15)) in
  let s := upd s 15 tmp in
  s.

Definition mix_sub_columns (s : list Z) : list Z :=
  [Z.lxor (Z.lxor (Z.lxor (tb x2_sbox (at_ s 0)) (tb x3_sbox (at_ s 5))) (tb sbox (at_ s 10))) (tb sbox (at_ s 15));
   Z.lxor (Z.lxor (Z.lxor (tb sbox (at_ s 0)) (tb x2_sbox (at_ s 5))) (tb x3_sbox (at_ s 10))) (tb sbox (at_ s 15));
   Z.lxor (Z.lxor (Z.lxor (tb sbox (at_ s 0)) (tb sbox (at_ s 5))) (tb x2_sbox (at_ s 10))) (tb x3_sbox (at_ s 15));
   Z.lxor (Z.lxor (Z.lxor (tb x3_sbox (at_ s 0)) (tb sbox (at_ s 5))) (tb sbox (at_ s 10))) (tb x2_sbox (at_ s 15));
   Z.lxor (Z.lxor (Z.lxor (tb x2_sbox (at_ s 4)) (tb x3_sbox (at_ s 9))) (tb sbox (at_ s 14))) (tb sbox (at_ s 3));
   Z.lxor (Z.lxor (Z.lxor (tb sbox (at_ s 4)) (tb x2_sbox (at_ s 9))) (tb x3_sbox (at_ s 14))) (tb sbox (at_ s 3));
   Z.lxor (Z.lxor (Z.lxor (tb sbox (at_ s 4)) (tb sbox (at_ s 9))) (tb x2_sbox (at_ s 14))) (tb x3_sbox (at_ s 3));
   Z.lxor (Z.lxor (Z.lxor (tb x3_sbox (at_ s 4)) (tb sbox (at_ s 9))) (tb sbox (at_ s 14))) (tb x2_sbox (at_ s 3));
   Z.lxor (Z.lxor (Z.lxor (tb x2_sbox (at_ s 8)) (tb x3_sbox (at_ s 13))) (tb sbox (at_ s 2))) (tb sbox (at_ s 7));
   Z.lxor (Z.lxor (Z.lxor (tb sbox (at_ s 8)) (tb x2_sbox (at_ s 13))) (tb x3_sbox (at_ s 2))) (tb sbox (at_ s 7));
   Z.lxor (Z.lxor (Z.lxor (tb sbox (at_ s 8)) (tb sbox (at_ s 13))) (tb x2_sbox (at_ s 2))) (tb x3_sbox (at_ s 7));
   Z.lxor (Z.lxor (Z.lxor (tb x3_sbox (at_ s 8)) (tb sbox (at_ s 13))) (tb sbox (at_ s 2))) (tb x2_sbox (at_ s 7));
   Z.lxor (Z.lxor (Z.lxor (tb x2_sbox (at_ s 12)) (tb x3_sbox (at_ s 1))) (tb sbox (at_ s 6))) (tb sbox (at_ s 11));
   Z.lxor (Z.lxor (Z.lxor (tb sbox (at_ s 12)) (tb x2_sbox (at_ s 1))) (tb x3_sbox (at_ s 6))) (tb sbox (at_ s 11));
   Z.lxor (Z.lxor (Z.lxor (tb sbox (at_ s 12)) (tb sbox (at_ s 1))) (tb x2_sbox (at_ s 6))) (tb x3_sbox (at_ s 11));
   Z.lxor (Z.lxor (Z.lxor (tb x3_sbox (at_ s 12)) (tb sbox (at_ s 1))) (tb sbox (at_ s 6))) (tb x2_sbox (at_ s 11))].

Definition inv_mix_sub_columns (s : list Z) : list Z :=
  map (tb inv_sbox)
  [Z.lxor (Z.lxor (Z.lxor (tb x_time_e (at_ s 0)) (tb x_time_b (at_ s 1))) (tb x_time_d (at_ s 2))) (tb x_time_9 (at_ s 3));
   Z.lxor (Z.lxor (Z.lxor (tb x_time_9 (at_ s 12)) (tb x_time_e (at_ s 13))) (tb x_time_b (at_ s 14))) (tb x_time_d (at_ s 15));
   Z.lxor (Z.lxor (Z.lxor (tb x_time_d (at_ s 8)) (tb x_time_9 (at_ s 9))) (tb x_time_e (at_ s 10))) (tb x_time_b (at_ s 11));
   Z.lxor (Z.lxor (Z.lxor (tb x_time_b (at_ s 4)) (tb x_time_d (at_ s 5))) (tb x_time_9 (at_ s 6))) (tb x_time_e (at_ s 7));
   Z.lxor (Z.lxor (Z.lxor (tb x_time_e (at_ s 4)) (tb x_time_b (at_ s 5))) (tb x_time_d (at_ s 6))) (tb x_time_9 (at_ s 7));
   Z.lxor (Z.lxor (Z.lxor (tb x_time_9 (at_ s 0)) (tb x_time_e (at_ s 1))) (tb x_time_b (at_ s 2))) (tb x_time_d (at_ s 3));
   Z.lxor (Z.lxor (Z.lxor (tb x_time_d (at_ s 12)) (tb x_time_9 (at_ s 13))) (tb x_time_e (at_ s 14))) (tb x_time_b (at_ s 15));
   Z.lxor (Z.lxor (Z.lxor (tb x_time_b (at_ s 8)) (tb x_time_d (at_ s 9))) (tb x_time_9 (at_ s 10))) (tb x_time_e (at_ s 11));
   Z.lxor (Z.lxor (Z.lxor (tb x_time_e (at_ s 8)) (tb x_time_b (at_ s 9))) (tb x_time_d (at_ s 10))) (tb x_time_9 (at_ s 11));
   Z.lxor (Z.lxor (Z.lxor (tb x_time_9 (at_ s 4)) (tb x_time_e (at_ s 5))) (tb x_time_b (at_ s 6))) (tb x_time_d (at_ s 7));
   Z.lxor (Z.lxor (Z.lxor (tb x_time_d (at_ s 0)) (tb x_time_9 (at_ s 1))) (tb x_time_e (at_ s 2))) (tb x_time_b (at_ s 3));
   Z.lxor (Z.lxor (Z.lxor (tb x_time_b (at_ s 12)) (tb x_time_d (at_ s 13))) (tb x_time_9 (at_ s 14))) (tb x_time_e (at_ s 15));
   Z.lxor (Z.lxor (Z.lxor (tb x_time_e (at_ s 12)) (tb x_time_b (at_ s 13))) (tb x_time_d (at_ s 14))) (tb x_time_9 (at_ s 15));
   Z.lxor (Z.lxor (Z.lxor (tb x_time_9 (at_ s 8)) (tb x_time_e (at_ s 9))) (tb x_time_b (at_ s 10))) (tb x_time_d (at_ s 11));
   Z.lxor (Z.lxor (Z.lxor (tb x_time_d (at_ s 4)) (tb x_time_9 (at_ s 5))) (tb x_time_e (at_ s 6))) (tb x_time_b (at_ s 7));
   Z.lxor (Z.lxor (Z.lxor (tb x_time_b (at_ s 0)) (tb x_time_d (at_ s 1))) (tb x_time_9 (at_ s 2))) (tb x_time_e (at_ s 3))].

(** The words of [(u32 * )state]: little-endian. *)
Definition to_word (a b c d : Z) : Z := Z.lor (Z.lor a (Z.shiftl b 8)) (Z.lor (Z.shiftl c 16) (Z.shiftl d 24)).
Definition of_word (w : Z) : list Z := [u8 w; u8 (Z.shiftr w 8); u8 (Z.shiftr w 16); u8 (Z.shiftr w 24)].
Definition word_at (s : list Z) (idx : nat) : Z :=
  to_word (at_ s (4 * idx)) (at_ s (4 * idx + 1)) (at_ s (4 * idx + 2)) (at_ s (4 * idx + 3)).

(** [for (idx = 0; idx < 4; idx++) state[idx] ^= key[idx];] *)
Definition add_round_key (s key : list Z) : list Z :=
  flat_map (fun idx => of_word (Z.lxor (word_at s idx) (word_at key idx))) [0; 1; 2; 3]%nat.

(** The body of the loop of [aes_expand_key]; [expkey] holds the bytes below [4 * idx]. *)
Definition expand_step (expkey : list Z) (idx : nat) : list Z :=
  let tmp0 := at_ expkey (4 * idx - 4) in
  let tmp1 := at_ expkey (4 * idx - 3) in
  let tmp2 := at_ expkey (4 * idx - 2) in
  let tmp3 := at_ expkey (4 * idx - 1) in
  let '(tmp0, tmp1, tmp2, tmp3) :=
    if (idx mod 4 =? 0)%nat then
      (Z.lxor (tb sbox tmp1) (at_ rcon (idx / 4)), tb sbox tmp2, tb sbox tmp3, tb sbox tmp0)
    else if (6 <? AES_KEYCOLS) && (idx mod 4 =? 4)%nat then (tb sbox tmp0, tb sbox tmp1, tb sbox tmp2, tb sbox tmp3)
    else (tmp0, tmp1, tmp2, tmp3) in
  expkey ++ [Z.lxor (at_ expkey (4 * idx - 16)) tmp0; Z.lxor (at_ expkey (4 * idx - 16 + 1)) tmp1;
             Z.lxor (at_ expkey (4 * idx - 16 + 2)) tmp2; Z.lxor (at_ expkey (4 * idx - 16 + 3)) tmp3].

Definition aes_expand_key (key : list Z) : list Z := fold_left expand_step (seq 4 40) (take 16 key).

(** [(u32 * )expkey + round * AES_STATECOLS] *)
Definition round_key (expkey : list Z) (round : nat) : list Z := drop (16 * round) expkey.

Definition encrypt_round (expkey s : list Z) (round : nat) : list Z :=
  add_round_key (if (round <? Z.to_nat AES_ROUNDS)%nat then mix_sub_columns s else shift_rows s) (round_key expkey round).

Definition aes_encrypt (inp expkey : list Z) : list Z :=
  fold_left (encrypt_round expkey) (seq 1 (Z.to_nat AES_ROUNDS)) (add_round_key (take 16 inp) (round_key expkey 0)).

Definition decrypt_round (expkey s : list Z) (round : nat) : list Z :=
  let s := add_round_key s (round_key expkey round) in
  if negb (round =? 0)%nat then inv_mix_sub_columns s else s.

(** [for (round = AES_ROUNDS; round--; )] *)
Definition aes_decrypt (inp expkey : list Z) : list Z :=
  let s := add_round_key (take 16 inp) (round_key expkey (Z.to_nat AES_ROUNDS)) in
  fold_left (decrypt_round expkey) (rev (seq 0 (Z.to_nat AES_ROUNDS))) (inv_shift_rows s).

Definition aes_apply_cbc_chain_data (cbc_chain_data src : list Z) : list Z :=
  zip_with Z.lxor (take 16 src) (take 16 cbc_chain_data).

(** The blocks written to [dst]; each block of [src] is read before the one of [dst] is written. *)
Fixpoint cbc_encrypt_loop (n : nat) (key_exp cbc_chain_data src : list Z) : list Z :=
  match n with
  | O => []
  | S n =>
      let tmp_data := aes_apply_cbc_chain_data cbc_chain_data src in
      let dst := aes_encrypt tmp_data key_exp in
      dst ++ cbc_encrypt_loop n key_exp dst (drop 16 src)
  end.

Definition aes_cbc_encrypt_blocks (key_exp src : list Z) (num_aes_blocks : Z) : list Z :=
  cbc_encrypt_loop (Z.to_nat num_aes_blocks) key_exp (replicate 16 0) src.

Fixpoint cbc_decrypt_loop (n : nat) (key_exp cbc_chain_data src : list Z) : list Z :=
  match n with
  | O => []
  | S n =>
      let tmp_block := take 16 src in
      let tmp_data := aes_decrypt src key_exp in
      aes_apply_cbc_chain_data cbc_chain_data tmp_data ++ cbc_decrypt_loop n key_exp tmp_block (drop 16 src)
  end.

Definition aes_cbc_decrypt_blocks (key_exp src : list Z) (num_aes_blocks : Z) : list Z :=
  cbc_decrypt_loop (Z.to_nat num_aes_blocks) key_exp (replicate 16 0) src.

(** ** The cipher of FIPS-197 *)

(** Multiplication by [x], and by a polynomial [k] of degree below 8, in the field. *)
Definition xtime (a : Z) : Z := Z.lxor (u8 (Z.shiftl a 1)) (if Z.testbit a 7 then 0x1b else 0).

Fixpoint gmul_bits (n : nat) (k a : Z) : Z :=
  match n with
  | O => 0
  | S n => Z.lxor (if Z.testbit k 0 then a else 0) (gmul_bits n (Z.shiftr k 1) (xtime a))
  end.

Definition gmul (k a : Z) : Z := gmul_bits 8 k a.

(** The inverse is the power 254, and 0 for 0. *)
Definition ginv (a : Z) : Z := Nat.iter 254 (gmul a) 1.

(** The affine map of the S-box: bit [i] is the sum of bits [i], [i+4], ..., [i+7] and of 0x63. *)
Definition affine (b : Z) : Z :=
  let rot n := Z.lor (u8 (Z.shiftl b n)) (Z.shiftr b (8 - n)) in
  Z.lxor (Z.lxor (Z.lxor (Z.lxor (Z.lxor b (rot 1)) (rot 2)) (rot 3)) (rot 4)) 0x63.

Definition SBox (a : Z) : Z := affine (ginv a).

(** Columns are four consecutive bytes. *)
Definition SubBytes (s : list Z) : list Z := map SBox s.
Definition ShiftRows (s : list Z) : list Z :=
  map (fun i => at_ s ((i + 4 * (i mod 4)) mod 16)) (seq 0 16).
Definition mix_byte (s : list Z) (i : nat) : Z :=
  let c := (4 * (i / 4))%nat in
  let b j := at_ s (c + (i + j) mod 4) in
  Z.lxor (Z.lxor (gmul 2 (b 0%nat)) (gmul 3 (b 1%nat))) (Z.lxor (b 2%nat) (b 3%nat)).
Definition MixColumns (s : list Z) : list Z := map (mix_byte s) (seq 0 16).
Definition AddRoundKey (s k : list Z) : list Z := zip_with Z.lxor s k.

Definition Cipher (inp : list Z) (w : list Z) : list Z :=
  let k round := take 16 (drop (16 * round) w) in
  let s := AddRoundKey inp (k 0%nat) in
  let s := fold_left (fun s round => AddRoundKey (MixColumns (ShiftRows (SubBytes s))) (k round)) (seq 1 9) s in
  AddRoundKey (ShiftRows (SubBytes s)) (k 10%nat).

(** The key schedule, on words of four bytes. *)
Definition RotWord (w : list Z) : list Z := drop 1 w ++ take 1 w.
Definition Rcon (i : nat) : list Z := [Nat.iter (i - 1) xtime 1; 0; 0; 0].
Definition schedule_step (ws : list (list Z)) (i : nat) : list (list Z) :=
  let temp := nth (i - 1) ws [] in
  let temp := if (i mod 4 =? 0)%nat then zip_with Z.lxor (map SBox (RotWord temp)) (Rcon (i / 4)) else temp in
  ws ++ [zip_with Z.lxor (nth (i - 4) ws []) temp].
Definition KeyExpansion (key : list Z) : list (list Z) :=
  fold_left schedule_step (seq 4 40) (map (fun i => take 4 (drop (4 * i) key)) (seq 0 4)).

(** The example of FIPS-197, appendix B. *)
Definition fips_key : list Z := [0x2b; 0x7e; 0x15; 0x16; 0x28; 0xae; 0xd2; 0xa6; 0xab; 0xf7; 0x15; 0x88; 0x09; 0xcf; 0x4f; 0x3c].
Definition fips_in : list Z := [0x32; 0x43; 0xf6; 0xa8; 0x88; 0x5a; 0x30; 0x8d; 0x31; 0x31; 0x98; 0xa2; 0xe0; 0x37; 0x07; 0x34].
Definition fips_out : list Z := [0x39; 0x25; 0x84; 0x1d; 0x02; 0xdc; 0x09; 0xfb; 0xdc; 0x11; 0x85; 0x97; 0x19; 0x6a; 0x0b; 0x32].

Example fips_example : Cipher fips_in (concat (KeyExpansion fips_key)) = fips_out.
Proof. vm_compute. reflexivity. Qed.

Example fips_example_code : aes_encrypt fips_in (aes_expand_key fips_key) = fips_out.
Proof. vm_compute. reflexivity. Qed.

(** ** The field *)

Ltac xor_solve := apply Z.bits_inj'; intros ? ?; rewrite ?Z.lxor_spec, ?Z.bits_0; btauto.

Lemma u8_lxor a b : u8 (Z.lxor a b) = Z.lxor (u8 a) (u8 b).
Proof. unfold u8. rewrite <- !Z.land_ones by lia. apply Z.bits_inj'. intros i Hi.
  rewrite !Z.land_spec, !Z.lxor_spec, !Z.land_spec. btauto. Qed.

Lemma xtime_lxor a b : xtime (Z.lxor a b) = Z.lxor (xtime a) (xtime b).
Proof.
  unfold xtime. rewrite Z.shiftl_lxor, u8_lxor, Z.lxor_spec.
  destruct (Z.testbit a 7), (Z.testbit b 7); cbn [xorb]; xor_solve.
Qed.

Lemma xtime_0 : xtime 0 = 0.
Proof. reflexivity. Qed.

Lemma gmul_2 a : gmul 2 a = xtime a.
Proof. cbv -[xtime Z.lxor]. xor_solve. Qed.
Lemma gmul_3 a : gmul 3 a = Z.lxor a (xtime a).
Proof. cbv -[xtime Z.lxor]. xor_solve. Qed.
Lemma gmul_9 a : gmul 9 a = Z.lxor a (xtime (xtime (xtime a))).
Proof. cbv -[xtime Z.lxor]. xor_solve. Qed.
Lemma gmul_b a : gmul 11 a = Z.lxor (Z.lxor a (xtime a)) (xtime (xtime (xtime a))).
Proof. cbv -[xtime Z.lxor]. xor_solve. Qed.
Lemma gmul_d a : gmul 13 a = Z.lxor (Z.lxor a (xtime (xtime a))) (xtime (xtime (xtime a))).
Proof. cbv -[xtime Z.lxor]. xor_solve. Qed.
Lemma gmul_e a : gmul 14 a = Z.lxor (Z.lxor (xtime a) (xtime (xtime a))) (xtime (xtime (xtime a))).
Proof. cbv -[xtime Z.lxor]. xor_solve. Qed.

(** The columns are mixed by a matrix over the field, and unmixed by its inverse. *)
Lemma unmix_column a b c d :
  let m0 := Z.lxor (Z.lxor (gmul 2 a) (gmul 3 b)) (Z.lxor c d) in
  let m1 := Z.lxor (Z.lxor (gmul 2 b) (gmul 3 c)) (Z.lxor d a) in
  let m2 := Z.lxor (Z.lxor (gmul 2 c) (gmul 3 d)) (Z.lxor a b) in
  let m3 := Z.lxor (Z.lxor (gmul 2 d) (gmul 3 a)) (Z.lxor b c) in
  Z.lxor (Z.lxor (Z.lxor (gmul 14 m0) (gmul 11 m1)) (gmul 13 m2)) (gmul 9 m3) = a.
Proof.
  intros m0 m1 m2 m3. subst m0 m1 m2 m3. rewrite !gmul_2, !gmul_3, gmul_9, gmul_b, gmul_d, gmul_e, !xtime_lxor.
  xor_solve.
Qed.

(** ** The tables *)

Lemma for_bytes (P : Z -> bool) : forallb (fun n => P (Z.of_nat n)) (seq 0 256) = true -> forall x, byte_ok x -> P x = true.
Proof. intros H x Hx. apply (all_bytes P H). exact Hx. Qed.

Lemma sbox_fips x : byte_ok x -> tb sbox x = SBox x.
Proof. intros Hx. apply Z.eqb_eq. revert x Hx. apply for_bytes. vm_compute. reflexivity. Qed.

Lemma sbox_inverse x : byte_ok x -> tb inv_sbox (tb sbox x) = x /\ byte_ok (tb sbox x).
Proof.
  intros Hx. assert (H : (tb inv_sbox (tb sbox x) =? x) && ((0 <=? tb sbox x) && (tb sbox x <? 256)) = true).
  { revert x Hx. apply (for_bytes (fun x => (tb inv_sbox (tb sbox x) =? x) && ((0 <=? tb sbox x) && (tb sbox x <? 256)))).
    vm_compute. reflexivity. }
  unfold byte_ok. lia.
Qed.

Lemma mix_tables x : byte_ok x -> tb x2_sbox x = gmul 2 (tb sbox x) /\ tb x3_sbox x = gmul 3 (tb sbox x).
Proof.
  intros Hx. assert (H : (tb x2_sbox x =? gmul 2 (tb sbox x)) && (tb x3_sbox x =? gmul 3 (tb sbox x)) = true).
  { revert x Hx. apply (for_bytes (fun x => (tb x2_sbox x =? gmul 2 (tb sbox x)) && (tb x3_sbox x =? gmul 3 (tb sbox x)))).
    vm_compute. reflexivity. }
  lia.
Qed.

Lemma unmix_tables x : byte_ok x ->
  tb x_time_9 x = gmul 9 x /\ tb x_time_b x = gmul 11 x /\ tb x_time_d x = gmul 13 x /\ tb x_time_e x = gmul 14 x.
Proof.
  intros Hx.
  assert (H : (tb x_time_9 x =? gmul 9 x) && (tb x_time_b x =? gmul 11 x) && (tb x_time_d x =? gmul 13 x) && (tb x_time_e x =? gmul 14 x) = true).
  { revert x Hx.
    apply (for_bytes (fun x => (tb x_time_9 x =? gmul 9 x) && (tb x_time_b x =? gmul 11 x) && (tb x_time_d x =? gmul 13 x) && (tb x_time_e x =? gmul 14 x))).
    vm_compute. reflexivity. }
  lia.
Qed.

(** ** The steps on a state *)

Definition block (s : list Z) : Prop := length s = 16%nat /\ Forall byte_ok s.

(** The bytes of a block. *)
Ltac bytes s :=
  do 16 (destruct s as [|? s]; [discriminate|]); destruct s; [|discriminate];
  repeat match goal with H : Forall byte_ok (_ :: _) |- _ => apply Forall_cons_iff in H as [? H] end.

Lemma lxor_byte a b : byte_ok a -> byte_ok b -> byte_ok (Z.lxor a b).
Proof. unfold byte_ok. intros. apply (lxor_bound 8); lia. Qed.

Lemma mix_sub_columns_fips s : block s -> mix_sub_columns s = MixColumns (ShiftRows (SubBytes s)).
Proof.
  intros [Hl Hb]. bytes s. unfold mix_sub_columns, MixColumns, ShiftRows, SubBytes, mix_byte.
  cbn -[gmul SBox tb Z.lxor sbox x2_sbox x3_sbox].
  repeat match goal with H : byte_ok ?x |- _ => rewrite ?(proj1 (mix_tables x H)), ?(proj2 (mix_tables x H)), ?(sbox_fips x H); clear H end.
  repeat (apply (f_equal2 cons); [xor_solve|]). reflexivity.
Qed.

(** The rows after the rotations. *)
Lemma shift_rows_eq a0 a1 a2 a3 a4 a5 a6 a7 a8 a9 a10 a11 a12 a13 a14 a15 :
  shift_rows [a0; a1; a2; a3; a4; a5; a6; a7; a8; a9; a10; a11; a12; a13; a14; a15] =
    [tb sbox a0; tb sbox a5; tb sbox a10; tb sbox a15; tb sbox a4; tb sbox a9; tb sbox a14; tb sbox a3; tb sbox a8; tb sbox a13; tb sbox a2; tb sbox a7; tb sbox a12; tb sbox a1; tb sbox a6; tb sbox a11].
Proof. reflexivity. Qed.

Lemma inv_shift_rows_eq a0 a1 a2 a3 a4 a5 a6 a7 a8 a9 a10 a11 a12 a13 a14 a15 :
  inv_shift_rows [a0; a1; a2; a3; a4; a5; a6; a7; a8; a9; a10; a11; a12; a13; a14; a15] =
    [tb inv_sbox a0; tb inv_sbox a13; tb inv_sbox a10; tb inv_sbox a7; tb inv_sbox a4; tb inv_sbox a1; tb inv_sbox a14; tb inv_sbox a11; tb inv_sbox a8; tb inv_sbox a5; tb inv_sbox a2; tb inv_sbox a15; tb inv_sbox a12; tb inv_sbox a9; tb inv_sbox a6; tb inv_sbox a3].
Proof. reflexivity. Qed.

Lemma shift_rows_fips s : block s -> shift_rows s = ShiftRows (SubBytes s).
Proof.
  intros [Hl Hb]. bytes s. rewrite shift_rows_eq. unfold ShiftRows, SubBytes. cbn -[SBox tb sbox].
  by repeat match goal with H : byte_ok ?x |- _ => rewrite ?(sbox_fips x H); clear H end.
Qed.

Lemma inv_shift_rows_shift s : block s -> inv_shift_rows (shift_rows s) = s.
Proof.
  intros [Hl Hb]. bytes s. rewrite shift_rows_eq, inv_shift_rows_eq.
  by repeat match goal with H : byte_ok ?x |- _ => rewrite ?(proj1 (sbox_inverse x H)); clear H end.
Qed.

Lemma shift_rows_block s : block s -> block (shift_rows s).
Proof.
  intros [Hl Hb]. bytes s. rewrite shift_rows_eq. split; [reflexivity|].
  repeat (apply Forall_cons_iff; split; [by apply sbox_inverse|]). constructor.
Qed.

Lemma xtime_byte a : byte_ok a -> byte_ok (xtime a).
Proof.
  intros Ha. unfold xtime. apply lxor_byte; [apply u8_range|]. destruct (Z.testbit a 7); unfold byte_ok; lia.
Qed.

Lemma mix_tables_byte x : byte_ok x -> byte_ok (tb sbox x) /\ byte_ok (tb x2_sbox x) /\ byte_ok (tb x3_sbox x).
Proof.
  intros Hx. destruct (sbox_inverse x Hx) as [_ Hs]. destruct (mix_tables x Hx) as [-> ->].
  rewrite gmul_2, gmul_3. auto using xtime_byte, lxor_byte.
Qed.

Lemma mix_sub_columns_block s : block s -> block (mix_sub_columns s).
Proof.
  intros [Hl Hb]. bytes s. split; [reflexivity|]. unfold mix_sub_columns.
  cbn [at_ nth]. repeat (apply Forall_cons_iff; split; [repeat apply lxor_byte; by apply mix_tables_byte|]). constructor.
Qed.

(** One byte of an unmixed column; [a], [b], [c], [d] are the substituted bytes of the column from it on. *)
Lemma unmix_byte a b c d : byte_ok a -> byte_ok b -> byte_ok c -> byte_ok d ->
  let m0 := Z.lxor (Z.lxor (gmul 2 a) (gmul 3 b)) (Z.lxor c d) in
  let m1 := Z.lxor (Z.lxor (gmul 2 b) (gmul 3 c)) (Z.lxor d a) in
  let m2 := Z.lxor (Z.lxor (gmul 2 c) (gmul 3 d)) (Z.lxor a b) in
  let m3 := Z.lxor (Z.lxor (gmul 2 d) (gmul 3 a)) (Z.lxor b c) in
  Z.lxor (Z.lxor (Z.lxor (tb x_time_e m0) (tb x_time_b m1)) (tb x_time_d m2)) (tb x_time_9 m3) = a /\
  Z.lxor (Z.lxor (Z.lxor (tb x_time_9 m3) (tb x_time_e m0)) (tb x_time_b m1)) (tb x_time_d m2) = a /\
  Z.lxor (Z.lxor (Z.lxor (tb x_time_d m2) (tb x_time_9 m3)) (tb x_time_e m0)) (tb x_time_b m1) = a /\
  Z.lxor (Z.lxor (Z.lxor (tb x_time_b m1) (tb x_time_d m2)) (tb x_time_9 m3)) (tb x_time_e m0) = a.
Proof.
  intros Ha Hb Hc Hd m0 m1 m2 m3.
  assert (Hm : byte_ok m0 /\ byte_ok m1 /\ byte_ok m2 /\ byte_ok m3).
  { subst m0 m1 m2 m3. rewrite !gmul_2, !gmul_3. auto 10 using lxor_byte, xtime_byte. }
  destruct Hm as (H0 & H1 & H2 & H3).
  assert (E : Z.lxor (Z.lxor (Z.lxor (tb x_time_e m0) (tb x_time_b m1)) (tb x_time_d m2)) (tb x_time_9 m3) = a).
  { destruct (unmix_tables m0 H0) as (_ & _ & _ & ->). destruct (unmix_tables m1 H1) as (_ & -> & _).
    destruct (unmix_tables m2 H2) as (_ & _ & -> & _). destruct (unmix_tables m3 H3) as (-> & _). apply unmix_column. }
  split_and!; [exact E|..]; (etransitivity; [|exact E]); xor_solve.
Qed.

Definition mixed (a b c d : Z) : Z := Z.lxor (Z.lxor (gmul 2 a) (gmul 3 b)) (Z.lxor c d).

Lemma mix_sub_columns_eq a0 a1 a2 a3 a4 a5 a6 a7 a8 a9 a10 a11 a12 a13 a14 a15 : block [a0; a1; a2; a3; a4; a5; a6; a7; a8; a9; a10; a11; a12; a13; a14; a15] ->
  mix_sub_columns [a0; a1; a2; a3; a4; a5; a6; a7; a8; a9; a10; a11; a12; a13; a14; a15] =
    [mixed (tb sbox a0) (tb sbox a5) (tb sbox a10) (tb sbox a15);
     mixed (tb sbox a5) (tb sbox a10) (tb sbox a15) (tb sbox a0);
     mixed (tb sbox a10) (tb sbox a15) (tb sbox a0) (tb sbox a5);
     mixed (tb sbox a15) (tb sbox a0) (tb sbox a5) (tb sbox a10);
     mixed (tb sbox a4) (tb sbox a9) (tb sbox a14) (tb sbox a3);
     mixed (tb sbox a9) (tb sbox a14) (tb sbox a3) (tb sbox a4);
     mixed (tb sbox a14) (tb sbox a3) (tb sbox a4) (tb sbox a9);
     mixed (tb sbox a3) (tb sbox a4) (tb sbox a9) (tb sbox a14);
     mixed (tb sbox a8) (tb sbox a13) (tb sbox a2) (tb sbox a7);
     mixed (tb sbox a13) (tb sbox a2) (tb sbox a7) (tb sbox a8);
     mixed (tb sbox a2) (tb sbox a7) (tb sbox a8) (tb sbox a13);
     mixed (tb sbox a7) (tb sbox a8) (tb sbox a13) (tb sbox a2);
     mixed (tb sbox a12) (tb sbox a1) (tb sbox a6) (tb sbox a11);
     mixed (tb sbox a1) (tb sbox a6) (tb sbox a11) (tb sbox a12);
     mixed (tb sbox a6) (tb sbox a11) (tb sbox a12) (tb sbox a1);
     mixed (tb sbox a11) (tb sbox a12) (tb sbox a1) (tb sbox a6)].
Proof.
  intros [_ Hb]. repeat match goal with H : Forall byte_ok (_ :: _) |- _ => apply Forall_cons_iff in H as [? H] end.
  unfold mix_sub_columns, mixed. cbn [at_ nth].
  repeat match goal with H : byte_ok ?x |- _ => rewrite ?(proj1 (mix_tables x H)), ?(proj2 (mix_tables x H)); clear H end.
  repeat (apply (f_equal2 cons); [xor_solve|]). reflexivity.
Qed.

Lemma inv_mix_sub_columns_mix s : block s -> inv_mix_sub_columns (mix_sub_columns s) = s.
Proof.
  intros Hs. destruct (id Hs) as [Hl Hb]. bytes s. rewrite mix_sub_columns_eq by done.
  unfold inv_mix_sub_columns. cbn [at_ nth map]. unfold mixed.
  repeat match goal with |- _ :: _ = _ :: _ => apply (f_equal2 cons) end; [..|reflexivity];
  match goal with |- tb inv_sbox ?e = ?x =>
    let H := fresh in assert (H : e = tb sbox x);
      [eapply unmix_byte; by apply sbox_inverse | rewrite H; by apply sbox_inverse] end.
Qed.

(** *** Round keys *)

Lemma of_word_lxor x y : of_word (Z.lxor x y) = zip_with Z.lxor (of_word x) (of_word y).
Proof. unfold of_word. cbn [zip_with]. by rewrite !Z.shiftr_lxor, !u8_lxor. Qed.

Lemma to_word_value a b c d : byte_ok a -> byte_ok b -> byte_ok c ->
  to_word a b c d = a + 2 ^ 8 * (b + 2 ^ 8 * (c + 2 ^ 8 * d)).
Proof.
  unfold byte_ok, to_word. intros Ha Hb Hc. rewrite !Z.shiftl_mul_pow2 by lia.
  rewrite (Z.lor_comm a), lor_low by lia.
  replace (d * 2 ^ 24) with (d * 2 ^ 8 * 2 ^ 16) by lia. rewrite <- !Z.shiftl_mul_pow2, <- Z.shiftl_lor, !Z.shiftl_mul_pow2 by lia.
  rewrite (Z.lor_comm c), lor_low by lia. rewrite Z.lor_comm, lor_low by lia. lia.
Qed.

Lemma byte_split x y : byte_ok x -> u8 (x + 2 ^ 8 * y) = x /\ Z.shiftr (x + 2 ^ 8 * y) 8 = y.
Proof.
  unfold byte_ok, u8. intros Hx. rewrite Z.shiftr_div_pow2, (Z.mul_comm _ y) by lia.
  split; [rewrite Z.mod_add by lia; apply Z.mod_small; lia | rewrite Z.div_add by lia; rewrite Z.div_small by lia; lia].
Qed.

Lemma of_to_word a b c d : byte_ok a -> byte_ok b -> byte_ok c -> byte_ok d -> of_word (to_word a b c d) = [a; b; c; d].
Proof.
  intros Ha Hb Hc Hd. rewrite to_word_value by done. unfold of_word.
  set (w := a + _).
  replace (Z.shiftr w 16) with (Z.shiftr (Z.shiftr w 8) 8) by (by rewrite Z.shiftr_shiftr).
  replace (Z.shiftr w 24) with (Z.shiftr (Z.shiftr (Z.shiftr w 8) 8) 8) by (by rewrite !Z.shiftr_shiftr). subst w.
  rewrite !(proj2 (byte_split a _ Ha)), !(proj2 (byte_split b _ Hb)), !(proj2 (byte_split c _ Hc)).
  rewrite (proj1 (byte_split a _ Ha)), (proj1 (byte_split b _ Hb)), (proj1 (byte_split c _ Hc)).
  by rewrite u8_small.
Qed.

Lemma add_round_key_xor s k : block s -> block (take 16 k) -> add_round_key s k = zip_with Z.lxor s (take 16 k).
Proof.
  intros [Hl Hb] [Hkl Hkb].
  assert (Hk : forall i, (i < 16)%nat -> at_ k i = at_ (take 16 k) i).
  { intros i Hi. unfold at_. rewrite <- (take_drop 16 k) at 1. rewrite app_nth1; [done|]. lia. }
  unfold add_round_key, word_at. cbn [flat_map]. rewrite !(Hk _) by lia. generalize dependent (take 16 k). intros t Hkl Hkb _.
  bytes s. bytes t. cbn [at_ nth Nat.mul Nat.add]. by rewrite !of_word_lxor, !of_to_word.
Qed.

Lemma add_round_key_block s k : block (add_round_key s k).
Proof.
  split; [reflexivity|]. unfold add_round_key. cbn [flat_map of_word app].
  repeat (apply Forall_cons_iff; split; [apply u8_range|]). constructor.
Qed.

(** Adding a key twice. *)
Lemma add_round_key_twice s k : block s -> block (take 16 k) -> add_round_key (add_round_key s k) k = s.
Proof.
  intros Hs Hk. rewrite (add_round_key_xor (add_round_key s k)) by (done || apply add_round_key_block).
  rewrite add_round_key_xor by done. destruct Hs as [Hl _], Hk as [Hkl _].
  revert s Hl. generalize (take 16 k) Hkl. clear. intros t Ht s Hs. assert (length s = length t) as Hst by lia. clear Ht Hs.
  revert t Hst. induction s as [|a s IH]; intros [|b t] H; cbn in *; try done. f_equal; [xor_solve | apply IH; lia].
Qed.

(** An expanded key. *)
Definition expanded (w : list Z) : Prop := length w = 176%nat /\ Forall byte_ok w.

Lemma round_key_block w r : expanded w -> (r <= 10)%nat -> block (take 16 (round_key w r)).
Proof.
  intros [Hl Hb] Hr. unfold round_key. split; [rewrite length_take, length_drop; lia|]. by apply Forall_take, Forall_drop.
Qed.

(** *** Encryption *)

Lemma fold_left_block {A} (f g : list Z -> A -> list Z) (P : A -> Prop) l s :
  (forall s x, block s -> P x -> f s x = g s x /\ block (f s x)) -> Forall P l -> block s ->
  fold_left f l s = fold_left g l s /\ block (fold_left f l s).
Proof.
  intros Hfg Hl. revert s. induction Hl as [|x l Hx Hl IH]; intros s Hs; [done|]. cbn [fold_left].
  destruct (Hfg s x Hs Hx) as [E Hb]. rewrite <- E. by apply IH.
Qed.

Lemma encrypt_round_block w s r : block (encrypt_round w s r).
Proof. apply add_round_key_block. Qed.

Lemma middle_round w s r : expanded w -> (1 <= r < 10)%nat -> block s ->
  encrypt_round w s r = AddRoundKey (MixColumns (ShiftRows (SubBytes s))) (take 16 (drop (16 * r) w)).
Proof.
  intros Hw Hr Hs. unfold encrypt_round. change (Z.to_nat AES_ROUNDS) with 10%nat. rewrite (proj2 (Nat.ltb_lt r 10)) by lia.
  rewrite add_round_key_xor by (by apply mix_sub_columns_block || (apply round_key_block; [done|lia])).
  by rewrite mix_sub_columns_fips.
Qed.

Lemma aes_encrypt_cipher inp w : block inp -> expanded w -> aes_encrypt inp w = Cipher inp w.
Proof.
  intros Hi Hw. unfold aes_encrypt, Cipher. change (Z.to_nat AES_ROUNDS) with 10%nat.
  rewrite (take_ge inp) by (destruct Hi; lia). change (seq 1 10) with (seq 1 9 ++ [10%nat]).
  rewrite fold_left_app. cbn [fold_left].
  assert (H0 : add_round_key inp (round_key w 0) = AddRoundKey inp (take 16 (drop (16 * 0) w))).
  { apply add_round_key_xor; [done | apply round_key_block; [done|lia]]. }
  assert (Hb0 : block (add_round_key inp (round_key w 0))) by apply add_round_key_block.
  destruct (fold_left_block (encrypt_round w)
    (fun s round => AddRoundKey (MixColumns (ShiftRows (SubBytes s))) (take 16 (drop (16 * round) w)))
    (fun r => 1 <= r < 10)%nat (seq 1 9) _ ltac:(intros; split; [by apply middle_round | apply encrypt_round_block])
    ltac:(apply Forall_forall; intros r Hr%in_seq; lia) Hb0) as [E Hb9].
  rewrite <- H0, <- E. unfold encrypt_round at 1. change (Z.to_nat AES_ROUNDS) with 10%nat. rewrite Nat.ltb_irrefl.
  rewrite add_round_key_xor by (by apply shift_rows_block || (apply round_key_block; [done|lia])).
  by rewrite shift_rows_fips.
Qed.

(** *** Decryption *)

Lemma undo_middle_round w s r : expanded w -> (1 <= r < 10)%nat -> block s ->
  decrypt_round w (encrypt_round w s r) r = s.
Proof.
  intros Hw Hr Hs. unfold decrypt_round, encrypt_round. change (Z.to_nat AES_ROUNDS) with 10%nat.
  rewrite (proj2 (Nat.ltb_lt r 10)), (proj2 (Nat.eqb_neq r 0)) by lia. cbn [negb].
  rewrite add_round_key_twice by (by apply mix_sub_columns_block || (apply round_key_block; [done|lia])).
  by apply inv_mix_sub_columns_mix.
Qed.

Lemma undo_rounds w s n : expanded w -> (n < 10)%nat -> block s ->
  fold_left (decrypt_round w) (rev (seq 0 (S n))) (fold_left (encrypt_round w) (seq 1 n) (add_round_key s (round_key w 0))) = s.
Proof.
  intros Hw Hn Hs. induction n as [|n IH].
  - cbn [seq rev app fold_left]. unfold decrypt_round. cbn [Nat.eqb negb].
    apply add_round_key_twice; [done | apply round_key_block; [done|lia]].
  - rewrite (seq_S (S n) 0), rev_app_distr. cbn [rev app fold_left]. rewrite (seq_S n 1), fold_left_app. cbn [fold_left].
    change (0 + S n)%nat with (S n). change (1 + n)%nat with (S n).
    rewrite undo_middle_round; [apply IH; lia | done | lia |].
    destruct n as [|n]; [apply add_round_key_block|]. rewrite (seq_S n 1), fold_left_app. apply encrypt_round_block.
Qed.

Lemma aes_decrypt_encrypt s w : block s -> expanded w -> aes_decrypt (aes_encrypt s w) w = s.
Proof.
  intros Hs Hw. unfold aes_decrypt, aes_encrypt. change (Z.to_nat AES_ROUNDS) with 10%nat.
  rewrite (take_ge s) by (destruct Hs; lia). change (seq 1 10) with (seq 1 9 ++ [10%nat]).
  rewrite fold_left_app. cbn [fold_left]. set (t := fold_left (encrypt_round w) (seq 1 9) _).
  assert (Ht : block t) by (unfold t; rewrite (seq_S 8 1), fold_left_app; apply encrypt_round_block).
  rewrite take_ge by (rewrite (proj1 (encrypt_round_block w t 10)); lia).
  unfold encrypt_round. change (Z.to_nat AES_ROUNDS) with 10%nat. rewrite Nat.ltb_irrefl.
  rewrite add_round_key_twice by (by apply shift_rows_block || (apply round_key_block; [done|lia])).
  rewrite inv_shift_rows_shift by done. subst t. apply (undo_rounds w s 9); [done | lia | done].
Qed.

(** *** The key schedule *)

Definition word4 (w : list Z) : Prop := length w = 4%nat /\ Forall byte_ok w.

Lemma concat_words ws : Forall word4 ws -> length (concat ws) = (4 * length ws)%nat /\ Forall byte_ok (concat ws).
Proof.
  induction 1 as [|w ws [Hl Hb] Hws [IHl IHb]]; [done|]. cbn [concat length]. rewrite length_app. split; [lia|].
  by apply Forall_app.
Qed.

Lemma at_concat ws j r i : Forall word4 ws -> i = (4 * j + r)%nat -> (r < 4)%nat -> at_ (concat ws) i = at_ (nth j ws []) r.
Proof.
  intros Hws -> Hr. revert j. induction Hws as [|w ws [Hl Hb] Hws IH]; intros j.
  - unfold at_. rewrite !(nth_overflow (concat [])) by (cbn; lia). by destruct j; rewrite nth_overflow by (cbn; lia).
  - cbn [concat]. destruct j as [|j]; unfold at_ in *.
    + rewrite app_nth1 by lia. done.
    + rewrite app_nth2 by lia. rewrite Hl. replace (4 * S j + r - 4)%nat with (4 * j + r)%nat by lia. apply IH.
Qed.

Lemma nth_word4 ws j : Forall word4 ws -> (j < length ws)%nat ->
  exists a b c d, nth j ws [] = [a; b; c; d] /\ byte_ok a /\ byte_ok b /\ byte_ok c /\ byte_ok d.
Proof.
  intros Hws Hj. assert (Hq : word4 (nth j ws [])) by by apply Forall_nth.
  destruct Hq as [Hl Hb]. destruct (nth j ws []) as [|a [|b [|c [|d [|]]]]]; try done.
  repeat match goal with H : Forall byte_ok (_ :: _) |- _ => apply Forall_cons_iff in H as [? H] end. by exists a, b, c, d.
Qed.

Lemma rcon_xtime i : (1 <= i <= 10)%nat -> at_ rcon i = Nat.iter (i - 1) xtime 1 /\ byte_ok (at_ rcon i).
Proof. intros Hi. do 11 (destruct i as [|i]; [lia || (split; [reflexivity | by vm_compute])|]). lia. Qed.

Lemma expand_schedule_step ws i : Forall word4 ws -> length ws = i -> (4 <= i < 44)%nat ->
  expand_step (concat ws) i = concat (schedule_step ws i) /\ Forall word4 (schedule_step ws i).
Proof.
  intros Hws Hl Hi. unfold schedule_step. rewrite concat_app. cbn [concat]. rewrite app_nil_r. unfold expand_step.
  destruct (nth_word4 ws (i - 1) Hws) as (a & b & c & d & E1 & Ha & Hb & Hc & Hd); [lia|].
  destruct (nth_word4 ws (i - 4) Hws) as (a' & b' & c' & d' & E4 & Ha' & Hb' & Hc' & Hd'); [lia|].
  rewrite !(at_concat ws (i - 1) 0 (4 * i - 4)), !(at_concat ws (i - 1) 1 (4 * i - 3)),
    !(at_concat ws (i - 1) 2 (4 * i - 2)), !(at_concat ws (i - 1) 3 (4 * i - 1)) by (done || lia).
  rewrite (at_concat ws (i - 4) 0 (4 * i - 16)), (at_concat ws (i - 4) 1 (4 * i - 16 + 1)),
    (at_concat ws (i - 4) 2 (4 * i - 16 + 2)), (at_concat ws (i - 4) 3 (4 * i - 16 + 3)) by (done || lia).
  rewrite E1, E4. cbn [at_ nth]. change (6 <? AES_KEYCOLS) with false. cbn [andb].
  destruct (Nat.eqb_spec (i mod 4) 0) as [Em|Em].
  - assert (Hq : (1 <= i / 4 <= 10)%nat).
    { split; [apply Nat.div_le_lower_bound; lia|]. assert (i / 4 < 11)%nat; [apply Nat.Div0.div_lt_upper_bound; lia|lia]. }
    destruct (rcon_xtime (i / 4) Hq) as [Er Hrb]. unfold Rcon. rewrite <- Er.
    cbn [RotWord drop take app map zip_with]. rewrite !sbox_fips, !Z.lxor_0_r by done. split; [done|].
    apply Forall_app. split; [done|]. apply Forall_cons_iff. split; [|constructor]. split; [done|].
    rewrite <- !sbox_fips by done.
    repeat (apply Forall_cons_iff; split; [repeat apply lxor_byte; try done; by apply sbox_inverse|]). constructor.
  - cbn [zip_with]. split; [done|]. apply Forall_app. split; [done|]. apply Forall_cons_iff. split; [|constructor].
    split; [done|]. repeat (apply Forall_cons_iff; split; [by apply lxor_byte|]). constructor.
Qed.

Lemma schedule_step_length ws i : length (schedule_step ws i) = S (length ws).
Proof. unfold schedule_step. rewrite length_app. cbn. lia. Qed.

Lemma expand_schedule n : (n <= 40)%nat -> forall key, block key ->
  let ws0 := map (fun i => take 4 (drop (4 * i) key)) (seq 0 4) in
  let ws := fold_left schedule_step (seq 4 n) ws0 in
  fold_left expand_step (seq 4 n) key = concat ws /\ Forall word4 ws /\ length ws = (4 + n)%nat.
Proof.
  intros Hn key Hk ws0 ws. subst ws. induction n as [|n IH].
  - destruct Hk as [Hl Hb]. subst ws0. bytes key. cbn. split; [done|]. split; [|done].
    repeat first [apply Forall_cons_iff; split; [split; [done|]|] | apply Forall_cons_iff; split; [done|] | apply List.Forall_nil].
  - destruct IH as (E & Hq & Hlen); [lia|]. rewrite seq_S, !fold_left_app, E. cbn [fold_left].
    destruct (expand_schedule_step (fold_left schedule_step (seq 4 n) ws0) (4 + n)) as [E' Hq']; [done | lia | lia |].
    rewrite E'. split; [done|]. split; [done|]. rewrite schedule_step_length, Hlen. lia.
Qed.

Lemma aes_expand_key_fips key : block key ->
  aes_expand_key key = concat (KeyExpansion key) /\ expanded (aes_expand_key key).
Proof.
  intros Hk. unfold aes_expand_key, KeyExpansion. rewrite take_ge by (destruct Hk; lia).
  destruct (expand_schedule 40 ltac:(lia) key Hk) as (-> & Hq & Hl). split; [done|].
  destruct (concat_words _ Hq) as [Hcl Hcb]. rewrite Hl in Hcl. done.
Qed.

(** ** Chaining *)

Lemma aes_encrypt_block s w : block (aes_encrypt s w).
Proof.
  unfold aes_encrypt. change (seq 1 (Z.to_nat AES_ROUNDS)) with (seq 1 9 ++ [10%nat]). rewrite fold_left_app.
  apply encrypt_round_block.
Qed.

Lemma aes_decrypt_first y z w : block y -> aes_decrypt (y ++ z) w = aes_decrypt y w.
Proof. intros [Hl _]. unfold aes_decrypt. by rewrite (take_app_length' y), (take_ge y) by lia. Qed.

#[local] Strategy opaque [aes_encrypt aes_decrypt].

Lemma cbc_decrypt_encrypt n w chain src : expanded w -> block chain -> Forall byte_ok src -> (16 * n <= length src)%nat ->
  cbc_decrypt_loop n w chain (cbc_encrypt_loop n w chain src) = take (16 * n) src.
Proof.
  intros Hw. revert chain src. induction n as [|n IH]; intros chain src Hc Hs Hl; [done|].
  assert (Hsb : block (take 16 src)) by (split; [rewrite length_take; lia | by apply Forall_take]).
  cbn [cbc_decrypt_loop cbc_encrypt_loop]. unfold aes_apply_cbc_chain_data. rewrite !(take_ge chain) by (destruct Hc; lia).
  set (x := zip_with Z.lxor (take 16 src) chain).
  assert (Hx : block x).
  { unfold x. destruct Hc as [Hcl Hcb], Hsb as [Hsl Hsb']. split; [rewrite length_zip_with; lia|].
    revert Hcb Hsb'. clear. generalize (take 16 src). intros l Hcb Hl. revert chain Hcb.
    induction Hl as [|a l Ha Hl IH]; intros [|b chain] Hcb; cbn; [constructor..|].
    apply Forall_cons_iff in Hcb as [Hb Hcb]. constructor; [by apply lxor_byte | by apply IH]. }
  assert (He : block (aes_encrypt x w)).
  { apply aes_encrypt_block. }
  set (y := aes_encrypt x w) in *. destruct (id He) as [Hel _].
  rewrite take_app_length' by lia. rewrite drop_app_length' by lia.
  rewrite IH; [|done | by apply Forall_drop | rewrite length_drop; lia].
  rewrite aes_decrypt_first by done. unfold y. rewrite aes_decrypt_encrypt by done.
  rewrite (take_ge x) by (destruct Hx; lia).
  assert (Hxx : zip_with Z.lxor x chain = take 16 src).
  { unfold x. destruct Hc as [Hcl _], Hsb as [Hsl _]. revert Hcl Hsl. generalize (take 16 src). clear. intros l Hcl Hsl.
    assert (H : length l = length chain) by lia. clear Hcl Hsl. revert chain H.
    induction l as [|a l IH]; intros [|b chain] H; cbn in *; try done. f_equal; [xor_solve | apply IH; lia]. }
  rewrite Hxx. replace (16 * S n)%nat with (16 + 16 * n)%nat by lia. apply take_take_drop.
Qed.

(** C38: The code is AES-128: with the key expanded by [aes_expand_key],
    [aes_encrypt] is the cipher of FIPS-197, with its S-box the affine image of
    the inverse in the field, its key schedule and its ten rounds, although it
    looks up substitution, shift and multiplication in combined tables; and
    [aes_decrypt] inverts it. *)
Theorem aes_fips inp key : block inp -> block key ->
  aes_encrypt inp (aes_expand_key key) = Cipher inp (concat (KeyExpansion key)) /\
  aes_decrypt (aes_encrypt inp (aes_expand_key key)) (aes_expand_key key) = inp.
Proof.
  intros Hi Hk. destruct (aes_expand_key_fips key Hk) as [E Hw]. split.
  - rewrite <- E. by apply aes_encrypt_cipher.
  - by apply aes_decrypt_encrypt.
Qed.

Lemma block_check s : (length s =? 16)%nat && forallb (fun b => (0 <=? b) && (b <? 256)) s = true -> block s.
Proof.
  intros [Hl Hb]%andb_true_iff. split; [by apply Nat.eqb_eq|]. apply Forall_forall. intros b Hin.
  rewrite forallb_forall in Hb. specialize (Hb b Hin). unfold byte_ok. lia.
Qed.

Lemma aes_fips_witness :
  aes_encrypt fips_in (aes_expand_key fips_key) = Cipher fips_in (concat (KeyExpansion fips_key)) /\
  aes_decrypt (aes_encrypt fips_in (aes_expand_key fips_key)) (aes_expand_key fips_key) = fips_in.
Proof. apply (aes_fips fips_in fips_key); apply block_check; reflexivity. Defined.

(** Decrypting what was encrypted with cipher block chaining gives the
    data back: for every key and every number of blocks that the data holds. *)
Theorem aes_cbc_roundtrip key src n : block key -> Forall byte_ok src -> 0 <= n -> 16 * n <= Z.of_nat (length src) ->
  let key_exp := aes_expand_key key in
  aes_cbc_decrypt_blocks key_exp (aes_cbc_encrypt_blocks key_exp src n) n = take (Z.to_nat (16 * n)) src.
Proof.
  intros Hk Hs Hn Hl key_exp. unfold aes_cbc_decrypt_blocks, aes_cbc_encrypt_blocks.
  rewrite cbc_decrypt_encrypt; [f_equal; lia | by apply aes_expand_key_fips | by apply block_check | done | lia].
Qed.

Lemma aes_cbc_roundtrip_witness :
  let key_exp := aes_expand_key fips_key in
  aes_cbc_decrypt_blocks key_exp (aes_cbc_encrypt_blocks key_exp (fips_in ++ fips_in) 2) 2 = fips_in ++ fips_in.
Proof.
  apply (aes_cbc_roundtrip fips_key (fips_in ++ fips_in) 2); [by apply block_check | | lia | by vm_compute].
  apply Forall_app. split; apply block_check; reflexivity.
Defined.
