(* ===== verification/Lists.v ===== *)
(** * Lists: the doubly linked lists of [include/linux/list.h]

    A heap maps addresses to the [struct list_head]s stored there; address 0 is
    the null pointer.  Every function is its sequence of loads and stores, in
    the order of the code, so that an operation on a list that is empty or on
    neighbouring nodes has the aliasing of the code.  The abstract state is the
    list of the nodes that follow a head: [dll h head l] says that [head] and
    the nodes of [l] form the circular list that the code expects, and the
    lemmas below give each operation as one on [l].  The [hlist_*] functions of
    the second half of the file are not modelled. *)
From S2P Require Import Prelude.
From stdpp Require Import gmap sets.
#[local] Open Scope Z_scope.

(** ** Data and operations *)

Record list_head := mk_node { next : Z; prev : Z }.

Abbreviation heap := (gmap Z list_head).

Definition NULL : Z := 0.
Definition LIST_POISON1 : Z := 0.
Definition LIST_POISON2 : Z := 0.

Definition get_next (h : heap) (p : Z) : option Z := next <$> h !! p.
Definition get_prev (h : heap) (p : Z) : option Z := prev <$> h !! p.

Definition set_next (h : heap) (p v : Z) : option heap :=
  n ← h !! p; Some (<[p := mk_node v (prev n)]> h).
Definition set_prev (h : heap) (p v : Z) : option heap :=
  n ← h !! p; Some (<[p := mk_node (next n) v]> h).

Definition INIT_LIST_HEAD (h : heap) (list : Z) : option heap :=
  h ← set_next h list list;
  set_prev h list list.

Definition __list_add (h : heap) (new prev next : Z) : option heap :=
  h ← set_prev h next new;
  h ← set_next h new next;
  h ← set_prev h new prev;
  set_next h prev new.

Definition list_add (h : heap) (new head : Z) : option heap :=
  n ← get_next h head;
  __list_add h new head n.

Definition list_add_tail (h : heap) (new head : Z) : option heap :=
  p ← get_prev h head;
  __list_add h new p head.

Definition __list_del (h : heap) (prev next : Z) : option heap :=
  h ← set_prev h next prev;
  set_next h prev next.

Definition list_del (h : heap) (entry : Z) : option heap :=
  p ← get_prev h entry;
  n ← get_next h entry;
  h ← __list_del h p n;
  h ← set_next h entry LIST_POISON1;
  set_prev h entry LIST_POISON2.

Definition list_replace (h : heap) (old new : Z) : option heap :=
  n ← get_next h old;
  h ← set_next h new n;
  n ← get_next h new;
  h ← set_prev h n new;
  p ← get_prev h old;
  h ← set_prev h new p;
  p ← get_prev h new;
  set_next h p new.

Definition list_replace_init (h : heap) (old new : Z) : option heap :=
  h ← list_replace h old new;
  INIT_LIST_HEAD h old.

Definition list_del_init (h : heap) (entry : Z) : option heap :=
  p ← get_prev h entry;
  n ← get_next h entry;
  h ← __list_del h p n;
  INIT_LIST_HEAD h entry.

Definition list_move (h : heap) (list head : Z) : option heap :=
  p ← get_prev h list;
  n ← get_next h list;
  h ← __list_del h p n;
  list_add h list head.

Definition list_move_tail (h : heap) (list head : Z) : option heap :=
  p ← get_prev h list;
  n ← get_next h list;
  h ← __list_del h p n;
  list_add_tail h list head.

Definition list_is_last (h : heap) (list head : Z) : option bool :=
  n ← get_next h list; Some (n =? head).

Definition list_empty (h : heap) (head : Z) : option bool :=
  n ← get_next h head; Some (n =? head).

Definition list_empty_careful (h : heap) (head : Z) : option bool :=
  n ← get_next h head;
  if n =? head then p ← get_prev h head; Some (n =? p) else Some false.

Definition list_is_singular (h : heap) (head : Z) : option bool :=
  e ← list_empty h head;
  if (e : bool) then Some false
  else n ← get_next h head; p ← get_prev h head; Some (n =? p).

Definition __list_cut_position (h : heap) (list head entry : Z) : option heap :=
  new_first ← get_next h entry;
  n ← get_next h head;
  h ← set_next h list n;
  n ← get_next h list;
  h ← set_prev h n list;
  h ← set_prev h list entry;
  h ← set_next h entry list;
  h ← set_next h head new_first;
  set_prev h new_first head.

Definition list_cut_position (h : heap) (list head entry : Z) : option heap :=
  e ← list_empty h head;
  if (e : bool) then Some h else
  s ← list_is_singular h head;
  n ← get_next h head;
  if s && (negb (n =? entry) && negb (head =? entry)) then Some h else
  if entry =? head then INIT_LIST_HEAD h list
  else __list_cut_position h list head entry.

Definition __list_splice (h : heap) (list prev next : Z) : option heap :=
  first ← get_next h list;
  last ← get_prev h list;
  h ← set_prev h first prev;
  h ← set_next h prev first;
  h ← set_next h last next;
  set_prev h next last.

Definition list_splice (h : heap) (list head : Z) : option heap :=
  e ← list_empty h list;
  if (e : bool) then Some h
  else n ← get_next h head; __list_splice h list head n.

Definition list_splice_tail (h : heap) (list head : Z) : option heap :=
  e ← list_empty h list;
  if (e : bool) then Some h
  else p ← get_prev h head; __list_splice h list p head.

Definition list_splice_init (h : heap) (list head : Z) : option heap :=
  e ← list_empty h list;
  if (e : bool) then Some h
  else
    n ← get_next h head;
    h ← __list_splice h list head n;
    INIT_LIST_HEAD h list.

Definition list_splice_tail_init (h : heap) (list head : Z) : option heap :=
  e ← list_empty h list;
  if (e : bool) then Some h
  else
    p ← get_prev h head;
    h ← __list_splice h list p head;
    INIT_LIST_HEAD h list.

(** The iterations; the body of a loop acts on the heap and on the variables of
    the caller.  A circular list of distinct nodes has at most as many as the
    heap, which gives the fuel. *)
Section iteration.
Context {A : Type} (body : heap -> A -> Z -> option (heap * A)).

Fixpoint for_each (fuel : nat) (h : heap) (v : A) (head pos : Z) : option (heap * A) :=
  match fuel with
  | O => None
  | S fuel =>
      if pos =? head then Some (h, v)
      else
        '(h, v) ← body h v pos;
        pos ← get_next h pos;
        for_each fuel h v head pos
  end.

Fixpoint for_each_prev (fuel : nat) (h : heap) (v : A) (head pos : Z) : option (heap * A) :=
  match fuel with
  | O => None
  | S fuel =>
      if pos =? head then Some (h, v)
      else
        '(h, v) ← body h v pos;
        pos ← get_prev h pos;
        for_each_prev fuel h v head pos
  end.

Fixpoint for_each_safe (fuel : nat) (h : heap) (v : A) (head pos n : Z) : option (heap * A) :=
  match fuel with
  | O => None
  | S fuel =>
      if pos =? head then Some (h, v)
      else
        '(h, v) ← body h v pos;
        let pos := n in
        n ← get_next h pos;
        for_each_safe fuel h v head pos n
  end.

Definition list_for_each (h : heap) (v : A) (head : Z) : option (heap * A) :=
  pos ← get_next h head; for_each (S (size h)) h v head pos.
Definition list_for_each_prev (h : heap) (v : A) (head : Z) : option (heap * A) :=
  pos ← get_prev h head; for_each_prev (S (size h)) h v head pos.
Definition list_for_each_safe (h : heap) (v : A) (head : Z) : option (heap * A) :=
  pos ← get_next h head;
  n ← get_next h pos;
  for_each_safe (S (size h)) h v head pos n.
End iteration.

(** ** Links

    [link h a b]: the nodes [a] and [b] are neighbours, in this order. *)

Definition link (h : heap) (a b : Z) : Prop := get_next h a = Some b /\ get_prev h b = Some a.

(** The nodes of [l] lie between [a] and [b]. *)
Fixpoint seg (h : heap) (a : Z) (l : list Z) (b : Z) : Prop :=
  match l with
  | [] => link h a b
  | x :: l => link h a x /\ seg h x l b
  end.

(** The circular list with head [head] and entries [l]. *)
Definition dll (h : heap) (head : Z) (l : list Z) : Prop :=
  NoDup (head :: l) /\ (NULL ∉ head :: l) /\ seg h head l head.

(** Making two nodes neighbours. *)
Definition upd_next (h : heap) (p v : Z) : heap := alter (fun n => mk_node v (prev n)) p h.
Definition upd_prev (h : heap) (p v : Z) : heap := alter (fun n => mk_node (next n) v) p h.
Definition hook (h : heap) (a b : Z) : heap := upd_next (upd_prev h b a) a b.

Definition alloc (h : heap) (p : Z) : Prop := is_Some (h !! p).

Lemma set_next_upd h p v : alloc h p -> set_next h p v = Some (upd_next h p v).
Proof.
  intros [n Hn]. unfold set_next, upd_next. rewrite Hn. unfold mbind, option_bind. f_equal.
  apply map_eq. intros q. destruct (decide (p = q)) as [->|].
  - by rewrite lookup_insert_eq, lookup_alter_eq, Hn.
  - by rewrite lookup_insert_ne, lookup_alter_ne.
Qed.
Lemma set_prev_upd h p v : alloc h p -> set_prev h p v = Some (upd_prev h p v).
Proof.
  intros [n Hn]. unfold set_prev, upd_prev. rewrite Hn. unfold mbind, option_bind. f_equal.
  apply map_eq. intros q. destruct (decide (p = q)) as [->|].
  - by rewrite lookup_insert_eq, lookup_alter_eq, Hn.
  - by rewrite lookup_insert_ne, lookup_alter_ne.
Qed.

Lemma alloc_upd_next h p v q : alloc (upd_next h p v) q <-> alloc h q.
Proof. unfold alloc, upd_next. apply lookup_alter_is_Some. Qed.
Lemma alloc_upd_prev h p v q : alloc (upd_prev h p v) q <-> alloc h q.
Proof. unfold alloc, upd_prev. apply lookup_alter_is_Some. Qed.
Lemma alloc_join h a b q : alloc (hook h a b) q <-> alloc h q.
Proof. unfold hook. by rewrite alloc_upd_next, alloc_upd_prev. Qed.

Lemma get_next_upd_next h p v q :
  get_next (upd_next h p v) q = if decide (p = q) then const v <$> h !! p else get_next h q.
Proof.
  unfold get_next, upd_next. case_decide as E; [subst; rewrite lookup_alter_eq|by rewrite lookup_alter_ne].
  by destruct (h !! q).
Qed.
Lemma get_prev_upd_prev h p v q :
  get_prev (upd_prev h p v) q = if decide (p = q) then const v <$> h !! p else get_prev h q.
Proof.
  unfold get_prev, upd_prev. case_decide as E; [subst; rewrite lookup_alter_eq|by rewrite lookup_alter_ne].
  by destruct (h !! q).
Qed.
Lemma get_next_upd_prev h p v q : get_next (upd_prev h p v) q = get_next h q.
Proof.
  unfold get_next, upd_prev. destruct (decide (p = q)); [subst; rewrite lookup_alter_eq|by rewrite lookup_alter_ne].
  by destruct (h !! q).
Qed.
Lemma get_prev_upd_next h p v q : get_prev (upd_next h p v) q = get_prev h q.
Proof.
  unfold get_prev, upd_next. destruct (decide (p = q)); [subst; rewrite lookup_alter_eq|by rewrite lookup_alter_ne].
  by destruct (h !! q).
Qed.

(** ** Reasoning about links *)

Lemma link_alloc h a b : link h a b -> alloc h a /\ alloc h b.
Proof. intros [(? & H1 & _)%fmap_Some_1 (? & H2 & _)%fmap_Some_1]. by split; eexists. Qed.

Lemma link_join h a b : alloc h a -> alloc h b -> link (hook h a b) a b.
Proof.
  intros [n Hn] [m Hm]. unfold link, hook.
  rewrite get_next_upd_next, get_prev_upd_next, get_prev_upd_prev, !decide_True, Hm by done.
  unfold upd_prev. split; [|done].
  destruct (decide (b = a)) as [->|]; [by rewrite lookup_alter_eq, Hn|by rewrite lookup_alter_ne, Hn].
Qed.

Lemma link_join_ne h a b x y : x <> a -> y <> b -> link h x y -> link (hook h a b) x y.
Proof.
  intros Hx Hy [H1 H2]. unfold link, hook.
  by rewrite get_next_upd_next, get_prev_upd_next, get_prev_upd_prev, get_next_upd_prev,
    !decide_False by done.
Qed.

Lemma lookup_join h a b x : x <> a -> x <> b -> hook h a b !! x = h !! x.
Proof. intros. unfold hook, upd_next, upd_prev. by rewrite !lookup_alter_ne. Qed.

Lemma seg_app h a l1 x l2 b : seg h a (l1 ++ x :: l2) b <-> seg h a l1 x /\ seg h x l2 b.
Proof. revert a. induction l1 as [|y l1 IH]; intros a; cbn; [done|]. rewrite IH. tauto. Qed.

Lemma seg_join_ne h a l b p q :
  (p ∉ a :: l) -> (q ∉ l ++ [b]) -> seg h a l b -> seg (hook h p q) a l b.
Proof.
  revert a. induction l as [|x l IH]; intros a Hp Hq; cbn.
  - intros. apply link_join_ne; set_solver.
  - intros [H1 H2]. split; [apply link_join_ne; set_solver|apply IH; set_solver].
Qed.

Lemma seg_alloc h a l b : seg h a l b -> forall x, x ∈ a :: l ++ [b] -> alloc h x.
Proof.
  revert a. induction l as [|y l IH]; intros a; cbn.
  - intros [Ha Hb]%link_alloc. set_solver.
  - intros [[Ha _]%link_alloc H2] x Hx. apply elem_of_cons in Hx as [->|Hx]; [done|]. by apply (IH y).
Qed.

Lemma seg_eq h h' a l b : (forall x, x ∈ a :: l ++ [b] -> h' !! x = h !! x) -> seg h a l b -> seg h' a l b.
Proof.
  revert a. induction l as [|x l IH]; intros a E; cbn; unfold link, get_next, get_prev.
  - rewrite !E by set_solver. done.
  - rewrite !E by set_solver. intros [? ?]. split; [done|]. apply IH; set_solver.
Qed.

(** The first and the last node of a segment. *)
Definition first_of (l : list Z) (b : Z) : Z := default b (head l).
Definition last_of (a : Z) (l : list Z) : Z := default a (last l).

Lemma seg_first h a l b : seg h a l b -> get_next h a = Some (first_of l b).
Proof. destruct l; cbn; unfold link; tauto. Qed.
Lemma seg_last h a l b : seg h a l b -> get_prev h b = Some (last_of a l).
Proof.
  destruct l as [|x l] using rev_ind; [cbn; unfold link; tauto|].
  rewrite seg_app. unfold last_of. rewrite last_snoc. cbn. unfold link. tauto.
Qed.
Lemma first_of_in l b : first_of l b ∈ l ++ [b].
Proof. destruct l; cbn; set_solver. Qed.
Lemma last_of_in a l : last_of a l ∈ a :: l.
Proof.
  destruct l as [|x l] using rev_ind; cbn; [set_solver|].
  unfold last_of. rewrite last_snoc. set_solver.
Qed.

(** Two segments joined become one; the nodes at the joint may have had any
    other neighbours. *)
Lemma seg_join h a l1 x l2 b x' :
  seg h a l1 x -> seg h x' l2 b -> NoDup (a :: l1) -> NoDup (l2 ++ [b]) ->
  (forall y, y ∈ a :: l1 -> y ∉ l2) -> (first_of l2 b ∉ l1) ->
  seg (hook h (last_of a l1) (first_of l2 b)) a (l1 ++ l2) b.
Proof.
  intros H1 H2 N1 N2 D F. pose proof (seg_alloc _ _ _ _ H1) as A1. pose proof (seg_alloc _ _ _ _ H2) as A2.
  assert (L : link (hook h (last_of a l1) (first_of l2 b)) (last_of a l1) (first_of l2 b)).
  { apply link_join; [apply A1|apply A2].
    - pose proof (last_of_in a l1). set_solver.
    - pose proof (first_of_in l2 b). set_solver. }
  destruct l1 as [|y l1 _] using rev_ind; destruct l2 as [|z l2];
    unfold last_of, first_of in *; rewrite ?last_snoc in *; cbn in *; [done|..].
  - split; [done|]. apply NoDup_cons in N2. apply seg_join_ne; [set_solver|set_solver|tauto].
  - rewrite app_nil_r, seg_app in *. cbn in *. split; [|done].
    apply NoDup_cons in N1 as [N1 N3]. apply NoDup_app in N3. apply seg_join_ne; [set_solver|set_solver|tauto].
  - rewrite <-app_assoc. cbn. rewrite !seg_app in *. cbn in *.
    apply NoDup_cons in N1 as [N1 N3]. apply NoDup_app in N3. apply NoDup_cons in N2.
    split; [|split]; [|done|].
    + apply seg_join_ne; [set_solver|set_solver|tauto].
    + apply seg_join_ne; [set_solver|set_solver|tauto].
Qed.

(** The end of a segment is moved to another node. *)
Lemma seg_cons_join h a l b x :
  seg h a l b -> alloc h x -> (x ∉ l) -> NoDup (l ++ [b]) -> seg (hook h x (first_of l b)) x l b.
Proof.
  intros H Hx Hl N. pose proof (seg_alloc _ _ _ _ H) as A.
  destruct l as [|y l]; cbn in *; [apply link_join; [done|apply A; set_solver]|].
  apply NoDup_cons in N. split; [apply link_join; [done|apply A; set_solver]|].
  apply seg_join_ne; [set_solver|set_solver|tauto].
Qed.
Lemma seg_snoc_join h a l b x :
  seg h a l b -> alloc h x -> (x ∉ l) -> NoDup (a :: l) -> seg (hook h (last_of a l) x) a l x.
Proof.
  intros H Hx Hl N. pose proof (seg_alloc _ _ _ _ H) as A.
  destruct l as [|y l _] using rev_ind; cbn in *; [apply link_join; [apply A; set_solver|done]|].
  unfold last_of. rewrite last_snoc. rewrite seg_app in *. cbn in *.
  apply NoDup_cons in N as [N1 N2]. apply NoDup_app in N2.
  split; [|apply link_join; [apply A; set_solver|done]].
  apply seg_join_ne; [set_solver|set_solver|tauto].
Qed.

(** ** The operations as joins *)

Lemma upd_comm h a v b w : upd_prev (upd_next h a v) b w = upd_next (upd_prev h b w) a v.
Proof.
  apply map_eq. intros q. unfold upd_prev, upd_next.
  destruct (decide (a = q)) as [->|Ha], (decide (b = q)) as [->|Hb];
    repeat first [rewrite lookup_alter_eq|rewrite lookup_alter_ne by done]; by destruct (h !! q).
Qed.

Ltac allocs := repeat first [rewrite alloc_upd_next|rewrite alloc_upd_prev|rewrite alloc_join]; done.

(** Runs the stores of an operation whose addresses are allocated. *)
Ltac stores :=
  repeat first
    [ rewrite set_prev_upd by allocs
    | rewrite set_next_upd by allocs
    | progress cbn [mbind option_bind] ].

Lemma list_add_join h x p n : alloc h x -> alloc h p -> alloc h n ->
  __list_add h x p n = Some (hook (hook h x n) p x).
Proof. intros. unfold __list_add. by stores. Qed.

Lemma list_del_join h p n : alloc h p -> alloc h n -> __list_del h p n = Some (hook h p n).
Proof. intros. unfold __list_del. by stores. Qed.

Lemma init_join h x : alloc h x -> INIT_LIST_HEAD h x = Some (hook h x x).
Proof. intros. unfold INIT_LIST_HEAD. stores. by rewrite upd_comm. Qed.

Lemma list_splice_join h l p n first last :
  get_next h l = Some first -> get_prev h l = Some last ->
  alloc h first -> alloc h last -> alloc h p -> alloc h n ->
  __list_splice h l p n = Some (hook (hook h p first) last n).
Proof.
  intros E1 E2 **. unfold __list_splice. rewrite E1, E2. cbn [mbind option_bind]. stores.
  by rewrite upd_comm.
Qed.

Lemma list_cut_join h l hd e nf first :
  get_next h e = Some nf -> get_next h hd = Some first ->
  alloc h l -> alloc h hd -> alloc h e -> alloc h nf -> alloc h first ->
  __list_cut_position h l hd e = Some (hook (hook (hook h l first) e l) hd nf).
Proof.
  intros E1 E2 Hl **. unfold __list_cut_position. rewrite E1, E2. cbn [mbind option_bind]. stores.
  rewrite get_next_upd_next, decide_True by done. destruct Hl as [ln Hl]. rewrite Hl. cbn [fmap option_fmap option_map const].
  assert (alloc h l) by by eexists. stores. unfold hook. by rewrite !upd_comm.
Qed.

(** [list_replace] reads [old->prev] after the first neighbour was linked to
    [new]: the two differ when [old] is the head of an empty list. *)
Lemma list_replace_join h old new n p :
  get_next h old = Some n -> alloc h new -> alloc h n ->
  get_prev (hook h new n) old = Some p -> alloc h p ->
  list_replace h old new = Some (hook (hook h new n) p new).
Proof.
  intros E1 Hn **. unfold list_replace. rewrite E1. cbn [mbind option_bind]. stores.
  rewrite get_next_upd_next, decide_True by done. destruct Hn as [nn Hn]. rewrite Hn. cbn [fmap option_fmap option_map const mbind option_bind].
  assert (Ha : alloc h new) by by eexists. stores. rewrite upd_comm. fold (hook h new n).
  rewrite H0. cbn [mbind option_bind]. stores.
  rewrite get_prev_upd_prev, decide_True by done.
  apply (alloc_join h new n) in Ha. destruct Ha as [m Hm]. rewrite Hm. cbn [fmap option_fmap option_map const mbind option_bind].
  stores. done.
Qed.

(** ** The operations on circular lists *)

Definition same_outside (h h' : heap) (L : list Z) : Prop := forall x, x ∉ L -> h' !! x = h !! x.

(** The membership facts of a list without duplicates. *)
Ltac nodup_hyps :=
  repeat match goal with
  | H : NoDup (_ :: _) |- _ => apply NoDup_cons in H; destruct H
  | H : NoDup (_ ++ _) |- _ => apply NoDup_app in H; destruct H as (? & ? & ?)
  end.
Ltac nodups :=
  nodup_hyps;
  repeat match goal with
  | |- NoDup (_ :: _) => apply NoDup_cons; split
  | |- NoDup (_ ++ _) => apply NoDup_app; split_and!
  | |- NoDup [] => apply NoDup_nil_2
  end; try done; try set_solver.

Lemma dll_alloc h hd l x : dll h hd l -> x ∈ hd :: l -> alloc h x.
Proof. intros (_ & _ & H) Hx. apply (seg_alloc _ _ _ _ H). set_solver. Qed.
Lemma dll_not_null h hd l x : dll h hd l -> x ∈ hd :: l -> x <> NULL.
Proof. intros (_ & H & _) Hx ->. done. Qed.
Lemma dll_first h hd l : dll h hd l -> get_next h hd = Some (first_of l hd).
Proof. intros (_ & _ & H). by apply (seg_first _ _ _ hd). Qed.
Lemma dll_last h hd l : dll h hd l -> get_prev h hd = Some (last_of hd l).
Proof. intros (_ & _ & H). by apply (seg_last _ _ l). Qed.
Lemma first_of_dll l hd : first_of l hd ∈ hd :: l.
Proof. pose proof (first_of_in l hd). set_solver. Qed.

(** A list is not affected by changes elsewhere. *)
Lemma dll_same h h' hd l : dll h hd l -> (forall x, x ∈ hd :: l -> h' !! x = h !! x) -> dll h' hd l.
Proof. intros (N & Z & H) E. split_and!; [done..|]. eapply seg_eq; [|done]. set_solver. Qed.

Lemma dll_frame h h' hd l L : dll h hd l -> same_outside h h' L -> (forall x, x ∈ L -> x ∉ hd :: l) -> dll h' hd l.
Proof. intros H E D. apply (dll_same h); [done|]. intros x Hx. apply E. intros ?. by apply (D x). Qed.

Lemma same_outside_join h a b L : a ∈ L -> b ∈ L -> same_outside h (hook h a b) L.
Proof. intros Ha Hb x Hx. apply lookup_join; set_solver. Qed.
Lemma same_outside_trans h1 h2 h3 L : same_outside h1 h2 L -> same_outside h2 h3 L -> same_outside h1 h3 L.
Proof. intros H1 H2 x Hx. rewrite H2, H1; done. Qed.
Lemma same_outside_mono h1 h2 L L' : same_outside h1 h2 L -> (forall x, x ∈ L -> x ∈ L') -> same_outside h1 h2 L'.
Proof. intros H1 H2 x Hx. apply H1. intros ?. by apply Hx, H2. Qed.

Lemma alter_ne_comm f g a c (h : heap) : a <> c -> alter g c (alter f a h) = alter f a (alter g c h).
Proof.
  intros Hac. apply map_eq. intros q.
  destruct (decide (a = q)) as [->|], (decide (c = q)) as [->|]; [done|..];
    repeat first [rewrite lookup_alter_eq|rewrite lookup_alter_ne by done]; done.
Qed.
Lemma upd_next_comm h a v c w : a <> c -> upd_next (upd_next h a v) c w = upd_next (upd_next h c w) a v.
Proof. intros. by apply alter_ne_comm. Qed.
Lemma upd_prev_comm h a v c w : a <> c -> upd_prev (upd_prev h a v) c w = upd_prev (upd_prev h c w) a v.
Proof. intros. by apply alter_ne_comm. Qed.

Lemma join_comm h a b c d : a <> c -> b <> d -> hook (hook h a b) c d = hook (hook h c d) a b.
Proof. intros. unfold hook. by rewrite !upd_comm, upd_next_comm, upd_prev_comm. Qed.

Lemma INIT_LIST_HEAD_dll h x : alloc h x -> x <> NULL ->
  exists h', INIT_LIST_HEAD h x = Some h' /\ dll h' x [] /\ same_outside h h' [x].
Proof.
  intros Ha Hx. rewrite init_join by done. eexists. split; [done|]. split_and!.
  - split_and!; [nodups|set_solver|]. by apply link_join.
  - apply same_outside_join; set_solver.
Qed.

Lemma list_add_dll h x hd l : dll h hd l -> alloc h x -> x <> NULL -> (x ∉ hd :: l) ->
  exists h', list_add h x hd = Some h' /\ dll h' hd (x :: l) /\ same_outside h h' (x :: hd :: l).
Proof.
  intros D Ha Hx0 Hx. unfold list_add. rewrite (dll_first _ _ _ D). cbn [mbind option_bind].
  pose proof (first_of_dll l hd) as F. pose proof (fun y => dll_alloc _ _ _ y D) as A.
  rewrite list_add_join; [|done|apply A; set_solver|apply A; done].
  eexists. split; [done|]. destruct D as (N & Z & H). split_and!.
  - split_and!; [nodups|set_solver|]. cbn. split; [apply link_join; rewrite alloc_join; [apply A; set_solver|done]|].
    nodup_hyps. apply seg_join_ne; [set_solver|set_solver|].
    apply (seg_cons_join _ hd); [done..|set_solver|nodups].
  - eapply same_outside_trans; apply same_outside_join; set_solver.
Qed.

Lemma list_add_tail_dll h x hd l : dll h hd l -> alloc h x -> x <> NULL -> (x ∉ hd :: l) ->
  exists h', list_add_tail h x hd = Some h' /\ dll h' hd (l ++ [x]) /\ same_outside h h' (x :: hd :: l).
Proof.
  intros D Ha Hx0 Hx. unfold list_add_tail. rewrite (dll_last _ _ _ D). cbn [mbind option_bind].
  pose proof (last_of_in hd l) as F. pose proof (fun y => dll_alloc _ _ _ y D) as A.
  rewrite list_add_join; [|done|apply A; done|apply A; set_solver].
  eexists. split; [done|]. destruct D as (N & Z & H). split_and!.
  - split_and!; [nodups|set_solver|]. apply seg_app. cbn. split.
    + rewrite join_comm by set_solver. nodup_hyps. apply seg_join_ne; [set_solver..|].
      apply (seg_snoc_join _ _ _ hd); [done..|set_solver|nodups].
    + apply link_join_ne; [set_solver..|]. apply link_join; [done|]. apply A. set_solver.
  - eapply same_outside_trans; apply same_outside_join; set_solver.
Qed.

(** Unlinking a node, which keeps its own fields. *)
Lemma unlink_dll h x hd l1 l2 : dll h hd (l1 ++ x :: l2) ->
  exists p n, get_prev h x = Some p /\ get_next h x = Some n /\
    __list_del h p n = Some (hook h p n) /\ dll (hook h p n) hd (l1 ++ l2) /\
    same_outside h (hook h p n) (hd :: l1 ++ l2).
Proof.
  intros D. pose proof (fun y => dll_alloc _ _ _ y D) as A. destruct D as (N & Z & H).
  apply seg_app in H as [H1 H2]. exists (last_of hd l1), (first_of l2 hd).
  pose proof (last_of_in hd l1) as F1. pose proof (first_of_in l2 hd) as F2. split_and!.
  - by eapply seg_last.
  - by eapply seg_first.
  - apply list_del_join; apply A; set_solver.
  - split_and!; [nodups|set_solver|]. apply NoDup_cons in N as [Hh (N1 & Dj & N2)%NoDup_app].
    eapply seg_join; [done..| | | |].
    + nodups.
    + nodups.
    + set_solver.
    + intros F. specialize (Dj _ F). clear -F2 Dj Hh F. generalize dependent (first_of l2 hd). set_solver.
  - apply same_outside_join; set_solver.
Qed.

Lemma list_del_dll h x hd l1 l2 : dll h hd (l1 ++ x :: l2) ->
  exists h', list_del h x = Some h' /\ dll h' hd (l1 ++ l2) /\
    h' !! x = Some (mk_node LIST_POISON1 LIST_POISON2) /\ same_outside h h' (hd :: l1 ++ x :: l2).
Proof.
  intros D. destruct (unlink_dll _ _ _ _ _ D) as (p & n & E1 & E2 & E3 & D' & S).
  assert (Hx : alloc h x) by (apply (dll_alloc _ _ _ _ D); set_solver).
  unfold list_del. rewrite E1, E2. cbn [mbind option_bind]. rewrite E3. cbn [mbind option_bind]. stores.
  eexists. split; [done|]. destruct D as (N & _ & _). split_and!.
  - eapply dll_same; [done|]. intros y Hy. unfold upd_prev, upd_next.
    rewrite !lookup_alter_ne; [done|..]; intros ->; nodups.
  - apply (alloc_join h p n) in Hx as [m Hm]. unfold upd_prev, upd_next. by rewrite !lookup_alter_eq, Hm.
  - intros y Hy. unfold upd_prev, upd_next. rewrite !lookup_alter_ne by set_solver. apply S. set_solver.
Qed.

Lemma list_del_init_dll h x hd l1 l2 : dll h hd (l1 ++ x :: l2) ->
  exists h', list_del_init h x = Some h' /\ dll h' hd (l1 ++ l2) /\ dll h' x [] /\
    same_outside h h' (hd :: l1 ++ x :: l2).
Proof.
  intros D. destruct (unlink_dll _ _ _ _ _ D) as (p & n & E1 & E2 & E3 & D' & S).
  assert (Hx : alloc h x) by (apply (dll_alloc _ _ _ _ D); set_solver).
  assert (Hx0 : x <> NULL) by (apply (dll_not_null _ _ _ _ D); set_solver).
  unfold list_del_init. rewrite E1, E2. cbn [mbind option_bind]. rewrite E3. cbn [mbind option_bind].
  destruct (INIT_LIST_HEAD_dll (hook h p n) x) as (h' & E & D2 & S2); [by apply alloc_join|done|].
  exists h'. split_and!; [done| |done|].
  - eapply dll_frame; [done..|]. destruct D as (N & _ & _). nodups.
  - eapply same_outside_trans; eapply same_outside_mono; [done| |done|]; set_solver.
Qed.

(** [list_move] and [list_move_tail], from one list to another. *)
Lemma list_move_dll h x hd l1 l2 hd' l : dll h hd (l1 ++ x :: l2) -> dll h hd' l ->
  (forall y, y ∈ hd :: l1 ++ x :: l2 -> y ∉ hd' :: l) ->
  (exists h', list_move h x hd' = Some h' /\ dll h' hd (l1 ++ l2) /\ dll h' hd' (x :: l)) /\
  (exists h', list_move_tail h x hd' = Some h' /\ dll h' hd (l1 ++ l2) /\ dll h' hd' (l ++ [x])).
Proof.
  intros D Dl Dj. destruct (unlink_dll _ _ _ _ _ D) as (p & n & E1 & E2 & E3 & D' & S).
  assert (Hx : alloc (hook h p n) x) by (apply alloc_join, (dll_alloc _ _ _ _ D); set_solver).
  assert (Hx0 : x <> NULL) by (apply (dll_not_null _ _ _ _ D); set_solver).
  assert (Dl' : dll (hook h p n) hd' l) by (eapply dll_frame; [done..|]; set_solver).
  unfold list_move, list_move_tail. rewrite E1, E2. cbn [mbind option_bind]. rewrite E3. cbn [mbind option_bind].
  destruct D as (N & _ & _). split.
  - destruct (list_add_dll (hook h p n) x hd' l) as (h' & E & D2 & S2); [done..|set_solver|].
    exists h'. split_and!; [done| |done]. eapply dll_frame; [done..|]. nodups.
  - destruct (list_add_tail_dll (hook h p n) x hd' l) as (h' & E & D2 & S2); [done..|set_solver|].
    exists h'. split_and!; [done| |done]. eapply dll_frame; [done..|]. nodups.
Qed.

(** The same inside one list. *)
Lemma list_move_self_dll h x hd l1 l2 : dll h hd (l1 ++ x :: l2) ->
  (exists h', list_move h x hd = Some h' /\ dll h' hd (x :: l1 ++ l2)) /\
  (exists h', list_move_tail h x hd = Some h' /\ dll h' hd ((l1 ++ l2) ++ [x])).
Proof.
  intros D. destruct (unlink_dll _ _ _ _ _ D) as (p & n & E1 & E2 & E3 & D' & S).
  assert (Hx : alloc (hook h p n) x) by (apply alloc_join, (dll_alloc _ _ _ _ D); set_solver).
  assert (Hx0 : x <> NULL) by (apply (dll_not_null _ _ _ _ D); set_solver).
  unfold list_move, list_move_tail. rewrite E1, E2. cbn [mbind option_bind]. rewrite E3. cbn [mbind option_bind].
  destruct D as (N & _ & _). split.
  - destruct (list_add_dll (hook h p n) x hd (l1 ++ l2)) as (h' & E & D2 & S2); [done..|nodups|by exists h'].
  - destruct (list_add_tail_dll (hook h p n) x hd (l1 ++ l2)) as (h' & E & D2 & S2); [done..|nodups|by exists h'].
Qed.

(** ** Tests *)

Lemma first_of_eq l hd : (hd ∉ l) -> (first_of l hd =? hd) = bool_decide (l = []).
Proof.
  intros H. destruct l as [|x l]; cbn; [apply Z.eqb_refl|].
  apply Z.eqb_neq. set_solver.
Qed.
Lemma last_of_eq l hd : (hd ∉ l) -> (last_of hd l =? hd) = bool_decide (l = []).
Proof.
  intros H. destruct l as [|x l _] using rev_ind; [apply Z.eqb_refl|].
  unfold last_of. rewrite last_snoc. cbn. rewrite bool_decide_eq_false_2 by (by destruct l).
  apply Z.eqb_neq. set_solver.
Qed.

Lemma list_empty_dll h hd l : dll h hd l ->
  list_empty h hd = Some (bool_decide (l = [])) /\ list_empty_careful h hd = Some (bool_decide (l = [])).
Proof.
  intros D. unfold list_empty, list_empty_careful. rewrite (dll_first _ _ _ D), (dll_last _ _ _ D).
  destruct D as (N & _ & _). nodups. cbn [mbind option_bind]. rewrite !first_of_eq by done. split; [done|].
  case_bool_decide; [subst; cbn; by rewrite Z.eqb_refl|done].
Qed.

Lemma list_is_singular_dll h hd l : dll h hd l -> list_is_singular h hd = Some (Nat.eqb (length l) 1).
Proof.
  intros D. unfold list_is_singular. destruct (list_empty_dll _ _ _ D) as [-> _].
  rewrite (dll_first _ _ _ D), (dll_last _ _ _ D). cbn [mbind option_bind].
  case_bool_decide; [by subst|]. destruct D as (N & _ & _).
  destruct l as [|x l _] using rev_ind; [done|]. unfold last_of. rewrite last_snoc.
  destruct l as [|y l]; cbn; [by rewrite Z.eqb_refl|].
  rewrite (proj2 (Z.eqb_neq _ _)); [|nodups]. rewrite length_app. cbn. by destruct (length l).
Qed.

Lemma list_is_last_dll h x hd l1 l2 : dll h hd (l1 ++ x :: l2) -> list_is_last h x hd = Some (bool_decide (l2 = [])).
Proof.
  intros (N & _ & [_ H]%seg_app). unfold list_is_last. rewrite (seg_first _ _ _ _ H). cbn [mbind option_bind].
  rewrite first_of_eq; [done|nodups].
Qed.

(** ** Replacing, cutting and splicing *)

Lemma get_prev_join_ne h a b q : b <> q -> get_prev (hook h a b) q = get_prev h q.
Proof. intros. unfold hook. by rewrite get_prev_upd_next, get_prev_upd_prev, decide_False. Qed.

(** The neighbours of an entry, with what distinguishes them from the rest. *)
Lemma neighbours hd l1 x l2 : NoDup (hd :: l1 ++ x :: l2) ->
  (first_of l2 hd ∉ l1 ++ [x]) /\ (last_of hd l1 ∉ x :: l2).
Proof.
  intros N. pose proof (first_of_in l2 hd) as F1. pose proof (last_of_in hd l1) as F2.
  apply NoDup_cons in N as [Hh (N1 & Dj & N2)%NoDup_app]. apply NoDup_cons in N2 as [N2 _].
  generalize dependent (first_of l2 hd). generalize dependent (last_of hd l1). set_solver.
Qed.

Lemma list_replace_dll h x new hd l1 l2 : dll h hd (l1 ++ x :: l2) ->
  alloc h new -> new <> NULL -> (new ∉ hd :: l1 ++ x :: l2) ->
  exists h', list_replace h x new = Some h' /\ dll h' hd (l1 ++ new :: l2) /\
    same_outside h h' (new :: hd :: l1 ++ l2).
Proof.
  intros D Ha Hn0 Hn. pose proof (fun y => dll_alloc _ _ _ y D) as A. destruct D as (N & Z & H).
  apply seg_app in H as [H1 H2]. destruct (neighbours _ _ _ _ N) as [F1 F2].
  pose proof (first_of_in l2 hd) as G1. pose proof (last_of_in hd l1) as G2.
  rewrite (list_replace_join h x new (first_of l2 hd) (last_of hd l1)).
  2: by eapply seg_first.
  2: done.
  2: apply A; set_solver.
  2: rewrite get_prev_join_ne by set_solver; by eapply seg_last.
  2: apply A; set_solver.
  eexists. split; [done|]. split_and!.
  - split_and!; [nodups|set_solver|]. apply seg_app. nodup_hyps. split.
    + eapply seg_snoc_join; [|by apply alloc_join|set_solver|nodups].
      apply seg_join_ne; [set_solver|done|done].
    + apply seg_join_ne; [set_solver|set_solver|]. eapply seg_cons_join; [done..|set_solver|nodups].
  - eapply same_outside_trans; apply same_outside_join; set_solver.
Qed.

(** Replacing the head of a list; an empty list stays empty. *)
Lemma list_replace_head_dll h old new l : dll h old l ->
  alloc h new -> new <> NULL -> (new ∉ old :: l) ->
  exists h', list_replace h old new = Some h' /\ dll h' new l /\ same_outside h h' (new :: old :: l).
Proof.
  intros D Ha Hn0 Hn. pose proof (fun y => dll_alloc _ _ _ y D) as A.
  pose proof (dll_first _ _ _ D) as E1. pose proof (dll_last _ _ _ D) as E2. destruct D as (N & Z & H).
  pose proof (first_of_in l old) as G1. destruct (decide (l = [])) as [->|Hl].
  - cbn in *. rewrite (list_replace_join h old new old new); [|done|done|apply A; set_solver| |done].
    + eexists. split; [done|]. split_and!; [|eapply same_outside_trans; apply same_outside_join; set_solver].
      split_and!; [nodups|set_solver|]. by apply link_join; apply alloc_join.
    + apply link_join; [done|apply A; set_solver].
  - assert (L : last_of new l = last_of old l /\ last_of old l ∈ l /\ first_of l old ∈ l).
    { destruct l as [|x l _] using rev_ind; [done|]. unfold last_of. rewrite last_snoc.
      split_and!; [done|set_solver|]. destruct l; cbn; set_solver. }
    destruct L as (L1 & L2 & L3). nodup_hyps.
    rewrite (list_replace_join h old new (first_of l old) (last_of old l)); [|done|done|apply A; set_solver|rewrite get_prev_join_ne; [done|congruence]|apply A; set_solver].
    eexists. split; [done|]. split_and!; [|eapply same_outside_trans; apply same_outside_join; set_solver].
    split_and!; [nodups|set_solver|]. rewrite <-L1. eapply seg_snoc_join; [|by apply alloc_join|set_solver|nodups].
    eapply seg_cons_join; [done..|set_solver|nodups].
Qed.

Lemma list_replace_init_dll h x new hd l1 l2 : dll h hd (l1 ++ x :: l2) ->
  alloc h new -> new <> NULL -> (new ∉ hd :: l1 ++ x :: l2) ->
  exists h', list_replace_init h x new = Some h' /\ dll h' hd (l1 ++ new :: l2) /\ dll h' x [].
Proof.
  intros D Ha Hn0 Hn. destruct (list_replace_dll _ _ _ _ _ _ D Ha Hn0 Hn) as (h1 & E1 & D1 & S1).
  assert (Hx0 : x <> NULL) by (apply (dll_not_null _ _ _ _ D); set_solver).
  assert (Hx : alloc h x) by (apply (dll_alloc _ _ _ _ D); set_solver).
  destruct D as (N & _ & _). unfold list_replace_init. rewrite E1. cbn [mbind option_bind].
  destruct (INIT_LIST_HEAD_dll h1 x) as (h' & E2 & D2 & S2); [|done|].
  { unfold alloc. rewrite S1; [done|]. nodups. }
  exists h'. split_and!; [done| |done]. eapply dll_frame; [done..|]. nodups.
Qed.

Lemma list_cut_position_dll h lst hd l1 e l2 : dll h hd (l1 ++ e :: l2) ->
  alloc h lst -> lst <> NULL -> (lst ∉ hd :: l1 ++ e :: l2) ->
  exists h', list_cut_position h lst hd e = Some h' /\ dll h' lst (l1 ++ [e]) /\ dll h' hd l2 /\
    same_outside h h' (lst :: hd :: l1 ++ e :: l2).
Proof.
  intros D Ha Hn0 Hn. pose proof (fun y => dll_alloc _ _ _ y D) as A.
  unfold list_cut_position. destruct (list_empty_dll _ _ _ D) as [-> _].
  rewrite (list_is_singular_dll _ _ _ D), (dll_first _ _ _ D). cbn [mbind option_bind].
  rewrite bool_decide_eq_false_2 by (by destruct l1).
  destruct D as (N & Z & H). apply seg_app in H as [H1 H2]. destruct (neighbours _ _ _ _ N) as [F1 F2].
  pose proof (first_of_in l2 hd) as G1. pose proof (first_of_in l1 e) as G2.
  assert (Ehd : first_of (l1 ++ e :: l2) hd = first_of l1 e) by by destruct l1. rewrite Ehd.
  match goal with |- context [if ?b then _ else _] => assert (E : b = false) end.
  { destruct l1; cbn; [rewrite Z.eqb_refl; apply andb_false_r|]. by rewrite length_app, Nat.add_comm. }
  rewrite E, (proj2 (Z.eqb_neq _ _)) by nodups.
  rewrite (list_cut_join h lst hd e (first_of l2 hd) (first_of l1 e));
    [|by eapply seg_first|by eapply seg_first|done|apply A; set_solver|apply A; set_solver|apply A; set_solver|apply A; set_solver].
  clear E Ehd. nodup_hyps. eexists. split; [done|]. split_and!.
  - split_and!; [nodups|set_solver|]. apply seg_app. split.
    + apply seg_join_ne; [set_solver|done|]. apply seg_join_ne; [set_solver|set_solver|].
      eapply seg_cons_join; [done..|set_solver|nodups].
    + apply link_join_ne; [set_solver|set_solver|]. apply link_join; apply alloc_join; [apply A; set_solver|done].
  - split_and!; [nodups|set_solver|]. rewrite join_comm by set_solver.
    apply seg_join_ne; [set_solver|set_solver|].
    apply (seg_cons_join _ e); [|apply alloc_join, A; set_solver|set_solver|nodups].
    apply seg_join_ne; [set_solver| |done]. clear -G2 H H3 H4. generalize dependent (first_of l1 e). set_solver.
  - eapply same_outside_trans; [eapply same_outside_trans|]; apply same_outside_join; set_solver.
Qed.

(** Cutting at the head leaves the list alone and gives an empty one. *)
Lemma list_cut_position_head_dll h lst hd l : dll h hd l -> l <> [] ->
  alloc h lst -> lst <> NULL -> (lst ∉ hd :: l) ->
  exists h', list_cut_position h lst hd hd = Some h' /\ dll h' lst [] /\ dll h' hd l.
Proof.
  intros D Hl Ha Hn0 Hn. unfold list_cut_position. destruct (list_empty_dll _ _ _ D) as [-> _].
  rewrite (list_is_singular_dll _ _ _ D), (dll_first _ _ _ D). cbn [mbind option_bind].
  rewrite bool_decide_eq_false_2, !Z.eqb_refl by done. cbn [negb]. rewrite !andb_false_r.
  destruct (INIT_LIST_HEAD_dll h lst) as (h' & E & D' & S); [done..|].
  exists h'. split_and!; [done..|]. eapply dll_frame; [done..|]. set_solver.
Qed.

Lemma first_of_app l1 l2 b : l1 <> [] -> first_of (l1 ++ l2) b = first_of l1 b /\ first_of l1 b ∈ l1.
Proof. destruct l1; [done|]. cbn. split; [done|set_solver]. Qed.
Lemma last_of_app a l1 l2 : l2 <> [] -> last_of a (l1 ++ l2) = last_of a l2 /\ last_of a l2 ∈ l2.
Proof.
  destruct l2 as [|x l2 _] using rev_ind; [done|]. unfold last_of. rewrite app_assoc, !last_snoc.
  split; [done|set_solver].
Qed.
Lemma last_of_ne a b l : l <> [] -> last_of a l = last_of b l.
Proof. destruct l as [|x l _] using rev_ind; [done|]. unfold last_of. by rewrite last_snoc. Qed.

(** The core of the splices: the entries of [lst] put after the head or before it. *)
Lemma splice_dll h lst hd l1 l2 : dll h lst l1 -> dll h hd l2 -> l1 <> [] ->
  (forall y, y ∈ lst :: l1 -> y ∉ hd :: l2) ->
  (exists n h', get_next h hd = Some n /\ __list_splice h lst hd n = Some h' /\
     dll h' hd (l1 ++ l2) /\ same_outside h h' (hd :: l1 ++ l2)) /\
  (exists p h', get_prev h hd = Some p /\ __list_splice h lst p hd = Some h' /\
     dll h' hd (l2 ++ l1) /\ same_outside h h' (hd :: l1 ++ l2)).
Proof.
  intros D1 D2 Hl Dj. pose proof (fun y => dll_alloc _ _ _ y D1) as A1. pose proof (fun y => dll_alloc _ _ _ y D2) as A2.
  pose proof (dll_first _ _ _ D1) as E1. pose proof (dll_last _ _ _ D1) as E2.
  destruct (first_of_app l1 l2 hd Hl) as [F1 G1]. destruct (last_of_app hd l2 l1 Hl) as [F2 G2].
  assert (X1 : first_of l1 lst = first_of l1 hd) by (destruct l1; done). rewrite X1 in E1.
  rewrite (last_of_ne lst hd l1 Hl) in E2.
  assert (Dl : forall y, y ∈ l1 -> y ∉ hd :: l2) by (intros y Hy; apply Dj; set_solver).
  split; [exists (first_of l2 hd)|exists (last_of hd l2)]; eexists;
    (split; [solve [by apply dll_first|by apply dll_last]|]);
    (rewrite (list_splice_join h lst _ _ (first_of l1 hd) (last_of hd l1));
       [|done|done|apply A1; set_solver|apply A1; set_solver|apply A2|apply A2]);
    try (pose proof (first_of_dll l2 hd); pose proof (last_of_in hd l2); set_solver);
    (split; [done|]); destruct D1 as (N1 & Z1 & H1), D2 as (N2 & Z2 & H2); split_and!.
  - split_and!; [nodups|set_solver|]. pose proof (first_of_in l2 hd) as G3.
    rewrite join_comm.
    2: { intros E. apply (Dl _ G2). rewrite <-E. set_solver. }
    2: { intros E. apply (Dl _ G1). rewrite E. apply first_of_dll. }
    rewrite <-F1, <-(last_of_ne lst hd l1) by done. nodup_hyps. apply (seg_cons_join _ lst).
    + eapply seg_join; [done..|nodups|nodups|intros y Hy; specialize (Dj y Hy); set_solver|].
      intros G4. apply (Dl _ G4), first_of_dll.
    + apply alloc_join, A2. set_solver.
    + set_solver.
    + nodups.
  - pose proof (first_of_dll l2 hd). eapply same_outside_trans; apply same_outside_join; set_solver.
  - split_and!; [nodups|set_solver|]. rewrite <-F2. nodup_hyps.
    apply (seg_snoc_join _ _ _ lst); [|apply alloc_join, A2; set_solver|set_solver|nodups].
    rewrite <-X1. eapply seg_join; [done..|nodups|nodups|set_solver|]. rewrite X1.
    intros G4. apply (Dl _ G1). set_solver.
  - pose proof (last_of_in hd l2). eapply same_outside_trans; apply same_outside_join; set_solver.
Qed.

Lemma list_splice_dll h lst hd l1 l2 : dll h lst l1 -> dll h hd l2 ->
  (forall y, y ∈ lst :: l1 -> y ∉ hd :: l2) ->
  (exists h', list_splice h lst hd = Some h' /\ dll h' hd (l1 ++ l2)) /\
  (exists h', list_splice_tail h lst hd = Some h' /\ dll h' hd (l2 ++ l1)) /\
  (exists h', list_splice_init h lst hd = Some h' /\ dll h' hd (l1 ++ l2) /\ dll h' lst []) /\
  (exists h', list_splice_tail_init h lst hd = Some h' /\ dll h' hd (l2 ++ l1) /\ dll h' lst []).
Proof.
  intros D1 D2 Dj. unfold list_splice, list_splice_tail, list_splice_init, list_splice_tail_init.
  destruct (list_empty_dll _ _ _ D1) as [-> _]. cbn [mbind option_bind].
  case_bool_decide as Hl.
  { subst. rewrite app_nil_r. split_and!; exists h; done. }
  assert (Hn : lst <> NULL) by (apply (dll_not_null _ _ _ _ D1); set_solver).
  assert (Ha : alloc h lst) by (apply (dll_alloc _ _ _ _ D1); set_solver).
  destruct (splice_dll _ _ _ _ _ D1 D2 Hl Dj) as [(n & h1 & -> & E1 & R1 & S1) (p & h2 & -> & E2 & R2 & S2)].
  cbn [mbind option_bind]. rewrite E1, E2. cbn [mbind option_bind].
  assert (Hlst : lst ∉ hd :: l1 ++ l2).
  { specialize (Dj lst). destruct D1 as (N & _ & _). nodup_hyps. set_solver. }
  split_and!; [by exists h1|by exists h2|..].
  - destruct (INIT_LIST_HEAD_dll h1 lst) as (h' & E & D & S); [unfold alloc; by rewrite S1|done|].
    exists h'. split_and!; [done| |done]. eapply dll_frame; [done..|set_solver].
  - destruct (INIT_LIST_HEAD_dll h2 lst) as (h' & E & D & S); [unfold alloc; by rewrite S2|done|].
    exists h'. split_and!; [done| |done]. eapply dll_frame; [done..|set_solver].
Qed.

(** ** Iteration *)

Lemma nodup_size (h : heap) l : NoDup l -> (forall x, x ∈ l -> alloc h x) -> (length l <= size h)%nat.
Proof.
  intros N A. rewrite <-(size_list_to_set (C := gset Z) l N), <-size_dom. apply subseteq_size.
  intros x Hx. apply elem_of_list_to_set, A in Hx. by apply elem_of_dom.
Qed.
Lemma dll_size h hd l : dll h hd l -> (length l < size h)%nat.
Proof.
  intros D. pose proof (nodup_size h (hd :: l)) as H. cbn in H. apply H.
  - by destruct D.
  - intros x. by apply dll_alloc.
Qed.

Section iterate.
Context {A : Type} (f : A -> Z -> A).

(** A loop that only computes visits the entries from first to last. *)
Lemma for_each_seg h hd l : (hd ∉ l) -> forall fuel a v, (length l < fuel)%nat -> seg h a l hd ->
  for_each (fun h v pos => Some (h, f v pos)) fuel h v hd (first_of l hd) = Some (h, foldl f v l).
Proof.
  induction l as [|x l IH]; intros Hh fuel a v Hf H; (destruct fuel; [cbn in Hf; lia|]).
  - cbn. by rewrite Z.eqb_refl.
  - cbn in H. destruct H as [_ H]. change (first_of (x :: l) hd) with x. cbn [for_each].
    rewrite (proj2 (Z.eqb_neq _ _)) by set_solver. cbn [mbind option_bind].
    rewrite (seg_first _ _ _ _ H). cbn [mbind option_bind]. cbn in Hf. eapply IH; [set_solver|lia|done].
Qed.
Lemma list_for_each_dll h v hd l : dll h hd l ->
  list_for_each (fun h v pos => Some (h, f v pos)) h v hd = Some (h, foldl f v l).
Proof.
  intros D. pose proof (dll_size _ _ _ D). unfold list_for_each. rewrite (dll_first _ _ _ D). cbn [mbind option_bind].
  destruct D as (N & _ & H'). nodup_hyps. eapply for_each_seg; [done|lia|done].
Qed.

Lemma for_each_prev_seg h hd l : (hd ∉ l) -> forall fuel b v, (length l < fuel)%nat -> seg h hd l b ->
  for_each_prev (fun h v pos => Some (h, f v pos)) fuel h v hd (last_of hd l) = Some (h, foldl f v (reverse l)).
Proof.
  induction l as [|x l IH] using rev_ind; intros Hh fuel b v Hf H; (destruct fuel; [cbn in Hf; lia|]).
  - cbn. by rewrite Z.eqb_refl.
  - apply seg_app in H as [H _]. rewrite length_app in Hf. cbn in Hf. unfold last_of. rewrite last_snoc. cbn [for_each_prev default].
    cbn [from_option id]. rewrite (proj2 (Z.eqb_neq _ _)) by set_solver. cbn [mbind option_bind].
    rewrite (seg_last _ _ _ _ H). cbn [mbind option_bind]. rewrite reverse_snoc. cbn [foldl].
    eapply IH; [set_solver|lia|done].
Qed.
Lemma list_for_each_prev_dll h v hd l : dll h hd l ->
  list_for_each_prev (fun h v pos => Some (h, f v pos)) h v hd = Some (h, foldl f v (reverse l)).
Proof.
  intros D. pose proof (dll_size _ _ _ D). unfold list_for_each_prev. rewrite (dll_last _ _ _ D). cbn [mbind option_bind].
  destruct D as (N & _ & H'). nodup_hyps. eapply for_each_prev_seg; [done|lia|done].
Qed.

(** A safe loop may delete the entry it visits. *)
Lemma for_each_safe_del hd l : forall fuel h v n, (length l < fuel)%nat -> dll h hd l ->
  get_next h (first_of l hd) = Some n ->
  exists h', for_each_safe (fun h v pos => h ← list_del h pos; Some (h, f v pos)) fuel h v hd (first_of l hd) n =
    Some (h', foldl f v l) /\ dll h' hd [] /\ same_outside h h' (hd :: l).
Proof.
  induction l as [|x l IH]; intros fuel h v n Hf D Hn; (destruct fuel; [cbn in Hf; lia|]).
  - exists h. cbn. by rewrite Z.eqb_refl.
  - destruct (list_del_dll h x hd [] l D) as (h1 & E1 & D1 & _ & S1).
    change (first_of (x :: l) hd) with x in *. cbn [for_each_safe].
    rewrite (proj2 (Z.eqb_neq _ _)) by (destruct D as (N & _ & _); nodups). rewrite E1. cbn [mbind option_bind].
    destruct D as (N & _ & _ & H). rewrite (seg_first _ _ _ _ H) in Hn. injection Hn as <-.
    assert (Hg : exists n', get_next h1 (first_of l hd) = Some n').
    { assert (alloc h1 (first_of l hd)) as [m Hm] by (apply (dll_alloc _ _ _ _ D1), first_of_dll).
      unfold get_next. rewrite Hm. by eexists. }
    destruct Hg as [n' Hn']. rewrite Hn'. cbn [mbind option_bind]. cbn in Hf.
    destruct (IH fuel h1 (f v x) n') as (h' & E & D' & S); [lia|done|done|].
    exists h'. split_and!; [done|done|]. eapply same_outside_trans; [exact S1|].
    eapply same_outside_mono; [done|set_solver].
Qed.
Lemma list_for_each_safe_del_dll h v hd l : dll h hd l ->
  exists h', list_for_each_safe (fun h v pos => h ← list_del h pos; Some (h, f v pos)) h v hd =
    Some (h', foldl f v l) /\ dll h' hd [].
Proof.
  intros D. pose proof (dll_size _ _ _ D). unfold list_for_each_safe. rewrite (dll_first _ _ _ D). cbn [mbind option_bind].
  assert (alloc h (first_of l hd)) as [m Hm] by (apply (dll_alloc _ _ _ _ D), first_of_dll).
  unfold get_next at 1. rewrite Hm. cbn [fmap option_fmap option_map mbind option_bind].
  destruct (for_each_safe_del hd l (S (size h)) h v (next m)) as (h' & E & D' & _); [lia|done| |by exists h'].
  unfold get_next. by rewrite Hm.
Qed.
End iterate.

(** ** The contract *)

(** C39: the operations of [list.h] implement those of lists of nodes: on a
    circular list with entries [l1 ++ x :: l2], an object [new] outside of it and
    a second list with entries [l], adding, deleting, replacing, moving, cutting
    and splicing succeed, give the lists that the comments describe, and keep
    every list circular and doubly linked; a deleted entry is poisoned.  The
    tests answer as on lists. *)
Theorem list_ops_refine h head l1 x l2 new head' l :
  dll h head (l1 ++ x :: l2) -> dll h head' l ->
  (forall y, y ∈ head :: l1 ++ x :: l2 -> y ∉ head' :: l) ->
  alloc h new -> new <> NULL -> (new ∉ head :: l1 ++ x :: l2) ->
  (exists h', list_add h new head = Some h' /\ dll h' head (new :: l1 ++ x :: l2)) /\
  (exists h', list_add_tail h new head = Some h' /\ dll h' head ((l1 ++ x :: l2) ++ [new])) /\
  (exists h', list_del h x = Some h' /\ dll h' head (l1 ++ l2) /\ h' !! x = Some (mk_node LIST_POISON1 LIST_POISON2)) /\
  (exists h', list_del_init h x = Some h' /\ dll h' head (l1 ++ l2) /\ dll h' x []) /\
  (exists h', list_replace h x new = Some h' /\ dll h' head (l1 ++ new :: l2)) /\
  (exists h', list_move h x head' = Some h' /\ dll h' head (l1 ++ l2) /\ dll h' head' (x :: l)) /\
  (exists h', list_move_tail h x head' = Some h' /\ dll h' head (l1 ++ l2) /\ dll h' head' (l ++ [x])) /\
  (exists h', list_cut_position h new head x = Some h' /\ dll h' new (l1 ++ [x]) /\ dll h' head l2) /\
  (exists h', list_splice_init h head' head = Some h' /\ dll h' head (l ++ l1 ++ x :: l2) /\ dll h' head' []) /\
  (exists h', list_splice_tail_init h head' head = Some h' /\ dll h' head ((l1 ++ x :: l2) ++ l) /\ dll h' head' []) /\
  list_is_last h x head = Some (bool_decide (l2 = [])) /\
  list_empty h head' = Some (bool_decide (l = [])) /\
  list_is_singular h head' = Some (Nat.eqb (length l) 1).
Proof.
  intros D D' Dj Ha Hn0 Hn.
  destruct (list_add_dll _ _ _ _ D Ha Hn0 Hn) as (ha & ? & ? & _).
  destruct (list_add_tail_dll _ _ _ _ D Ha Hn0 Hn) as (hb & ? & ? & _).
  destruct (list_del_dll _ _ _ _ _ D) as (hc & ? & ? & ? & _).
  destruct (list_del_init_dll _ _ _ _ _ D) as (hd & ? & ? & ? & _).
  destruct (list_replace_dll _ _ _ _ _ _ D Ha Hn0 Hn) as (he & ? & ? & _).
  destruct (list_move_dll _ _ _ _ _ _ _ D D' Dj) as [Hm Hmt].
  destruct (list_cut_position_dll _ _ _ _ _ _ D Ha Hn0 Hn) as (hf & ? & ? & ? & _).
  destruct (list_splice_dll _ _ _ _ _ D' D ltac:(set_solver)) as (_ & _ & Hs & Hst).
  split_and!; [by exists ha|by exists hb|by exists hc|by exists hd|by exists he|done|done|by exists hf|done|done|..].
  - by apply (list_is_last_dll h x head l1).
  - by apply list_empty_dll.
  - by apply list_is_singular_dll.
Qed.

(** Two lists, of three entries and of one, and an object outside of them. *)
Definition list_example : heap := list_to_map
  [(10, mk_node 11 13); (11, mk_node 12 10); (12, mk_node 13 11); (13, mk_node 10 12);
   (20, mk_node 21 21); (21, mk_node 20 20); (30, mk_node 0 0)].

Lemma list_ops_refine_witness :
  exists h', list_cut_position list_example 30 10 12 = Some h' /\ dll h' 30 [11; 12] /\ dll h' 10 [13].
Proof.
  destruct (list_ops_refine list_example 10 [11] 12 [13] 30 20 [21]) as (_ & _ & _ & _ & _ & _ & _ & H & _);
    [..|exact H].
  - split_and!; [apply (bool_decide_unpack _); vm_compute; done|apply (bool_decide_unpack _); vm_compute; done|].
    cbn. repeat split; vm_compute; reflexivity.
  - split_and!; [apply (bool_decide_unpack _); vm_compute; done|apply (bool_decide_unpack _); vm_compute; done|].
    cbn. repeat split; vm_compute; reflexivity.
  - apply Forall_forall, (bool_decide_unpack _). vm_compute. done.
  - eexists. vm_compute. reflexivity.
  - done.
  - apply (bool_decide_unpack _). vm_compute. done.
Defined.
