(* ===== verification/ListSort.v ===== *)
(** * ListSort: the merge sort of linked lists, [lib/list_sort.c]

    The nodes are those of [Lists]; while the sort runs they form lists that
    end with the null pointer and whose [prev] fields are stale.  [cmp] is the
    caller's comparison with its private data, a function of the two nodes
    that does not look at the links. *)
From S2P Require Import Prelude Lists.
From stdpp Require Import gmap sets sorting.
#[local] Open Scope Z_scope.

Section list_sort.
Context (cmp : Z -> Z -> Z).

Definition MAX_LIST_LENGTH_BITS : Z := 20.

(** ** The code

    [merge] builds its result after a node on the stack: [tail] is [None] while
    it points to that node, whose [next] field is [hn], [None] until it is
    written. *)

Definition tail_set_next (h : heap) (hn tail : option Z) (v : Z) : option (heap * option Z) :=
  match tail with
  | None => Some (h, Some v)
  | Some t => h ← set_next h t v; Some (h, hn)
  end.
Definition tail_next (h : heap) (hn tail : option Z) : option Z :=
  match tail with
  | None => hn
  | Some t => get_next h t
  end.

Fixpoint merge_loop (fuel : nat) (h : heap) (hn tail : option Z) (a b : Z) : option (heap * option Z) :=
  match fuel with
  | O => None
  | S fuel =>
      if negb (a =? NULL) && negb (b =? NULL) then
        if cmp a b <=? 0 then
          '(h, hn) ← tail_set_next h hn tail a;
          a ← get_next h a;
          t ← tail_next h hn tail;
          merge_loop fuel h hn (Some t) a b
        else
          '(h, hn) ← tail_set_next h hn tail b;
          b ← get_next h b;
          t ← tail_next h hn tail;
          merge_loop fuel h hn (Some t) a b
      else tail_set_next h hn tail (if negb (a =? NULL) then a else b)
  end.

Definition merge (h : heap) (a b : Z) : option (heap * Z) :=
  '(h, hn) ← merge_loop (S (size h)) h None None a b;
  v ← hn;
  Some (h, v).

(** The two loops of [merge_and_restore_back_links]. *)
Fixpoint restore_merge_loop (fuel : nat) (h : heap) (tail a b : Z) : option (heap * Z) :=
  match fuel with
  | O => None
  | S fuel =>
      if negb (a =? NULL) && negb (b =? NULL) then
        if cmp a b <=? 0 then
          h ← set_next h tail a;
          h ← set_prev h a tail;
          a ← get_next h a;
          tail ← get_next h tail;
          restore_merge_loop fuel h tail a b
        else
          h ← set_next h tail b;
          h ← set_prev h b tail;
          b ← get_next h b;
          tail ← get_next h tail;
          restore_merge_loop fuel h tail a b
      else
        h ← set_next h tail (if negb (a =? NULL) then a else b);
        Some (h, tail)
  end.

Fixpoint restore_tail_loop (fuel : nat) (h : heap) (tail : Z) : option (heap * Z) :=
  match fuel with
  | O => None
  | S fuel =>
      n ← get_next h tail;
      h ← set_prev h n tail;
      tail ← get_next h tail;
      n ← get_next h tail;
      if negb (n =? NULL) then restore_tail_loop fuel h tail else Some (h, tail)
  end.

Definition merge_and_restore_back_links (h : heap) (head a b : Z) : option heap :=
  '(h, tail) ← restore_merge_loop (S (size h)) h head a b;
  '(h, tail) ← restore_tail_loop (S (size h)) h tail;
  h ← set_next h tail head;
  set_prev h head tail.

(** [for (lev = 0; part[lev]; lev++) ...]; [part] has 21 elements. *)
Fixpoint carry_loop (fuel : nat) (h : heap) (part : list Z) (lev cur : Z) : option (heap * list Z * Z * Z) :=
  match fuel with
  | O => None
  | S fuel =>
      p ← aget part lev;
      if negb (p =? NULL) then
        '(h, cur) ← merge h p cur;
        part ← aset part lev NULL;
        carry_loop fuel h part (lev + 1) cur
      else Some (h, part, lev, cur)
  end.

Fixpoint insert_loop (fuel : nat) (h : heap) (part : list Z) (max_lev list : Z) : option (heap * Datatypes.list Z * Z) :=
  match fuel with
  | O => None
  | S fuel =>
      if negb (list =? NULL) then
        let cur := list in
        list ← get_next h list;
        h ← set_next h cur NULL;
        '(h, part, lev, cur) ← carry_loop (S (length part)) h part 0 cur;
        let lev' := if lev >? max_lev then
                      if lev >=? Z.of_nat (length part) - 1 then lev - 1 else lev
                    else lev in
        let max_lev := if lev >? max_lev then lev' else max_lev in
        part ← aset part lev' cur;
        insert_loop fuel h part max_lev list
      else Some (h, part, max_lev)
  end.

(** [for (lev = 0; lev < max_lev; lev++) ...] *)
Fixpoint final_loop (fuel : nat) (h : heap) (part : list Z) (lev max_lev list : Z) : option (heap * Z) :=
  match fuel with
  | O => None
  | S fuel =>
      if lev <? max_lev then
        p ← aget part lev;
        '(h, list) ← (if negb (p =? NULL) then merge h p list else Some (h, list));
        final_loop fuel h part (lev + 1) max_lev list
      else Some (h, list)
  end.

Definition list_sort (h : heap) (head : Z) : option heap :=
  e ← list_empty h head;
  if (e : bool) then Some h else
  let part := replicate (Z.to_nat (MAX_LIST_LENGTH_BITS + 1)) NULL in
  p ← get_prev h head;
  h ← set_next h p NULL;
  list ← get_next h head;
  '(h, part, max_lev) ← insert_loop (S (size h)) h part 0 list;
  '(h, list) ← final_loop (S (Z.to_nat max_lev)) h part 0 max_lev NULL;
  a ← aget part max_lev;
  merge_and_restore_back_links h head a list.

(** ** Null-terminated lists *)

Fixpoint sll (h : heap) (p : Z) (l : list Z) : Prop :=
  match l with
  | [] => p = NULL
  | x :: l => p = x /\ x <> NULL /\ exists q, get_next h x = Some q /\ sll h q l
  end.

Lemma sll_eq h h' p l : (forall x, x ∈ l -> h' !! x = h !! x) -> sll h p l -> sll h' p l.
Proof.
  revert p. induction l as [|x l IH]; intros p E; cbn; [done|].
  intros (-> & Hx & q & Hq & H). split_and!; [done..|]. exists q. split.
  - unfold get_next. by rewrite E by set_solver.
  - apply IH; [set_solver|done].
Qed.

Lemma sll_alloc h p l x : sll h p l -> x ∈ l -> alloc h x.
Proof.
  revert p. induction l as [|y l IH]; intros p; cbn; [set_solver|].
  intros (-> & Hx & q & (n & Hn & _)%fmap_Some_1 & H) [->|Hin]%elem_of_cons; [by eexists|eauto].
Qed.

Lemma sll_not_null h p l : sll h p l -> (NULL ∉ l).
Proof.
  revert p. induction l as [|y l IH]; intros p; cbn; [set_solver|].
  intros (-> & Hx & q & _ & H) [E|Hin]%elem_of_cons; [congruence|by eapply IH].
Qed.

(** The case analysis of the loops: a list is empty exactly when its pointer is null. *)
Lemma sll_inv h p l : sll h p l ->
  (p = NULL /\ l = []) \/ (exists l' q, p <> NULL /\ l = p :: l' /\ get_next h p = Some q /\ sll h q l').
Proof. destruct l as [|x l]; cbn; [by left|]. intros (-> & Hx & q & Hq & H). right. by exists l, q. Qed.

Lemma sll_nonnull h p l : sll h p l -> (p =? NULL) = bool_decide (l = []).
Proof. intros [[-> ->]|(l' & q & Hp & -> & _)]%sll_inv; [done|]. by apply Z.eqb_neq. Qed.

Lemma sll_upd_next h p l x v : (x ∉ l) -> sll h p l -> sll (upd_next h x v) p l.
Proof. intros Hx. apply sll_eq. intros y Hy. unfold upd_next. apply lookup_alter_ne. set_solver. Qed.
Lemma sll_upd_prev h p l x v : sll h p l -> sll (upd_prev h x v) p l.
Proof.
  revert p. induction l as [|y l IH]; intros p; cbn; [done|].
  intros (-> & Hx & q & Hq & H). split_and!; [done..|]. exists q. rewrite get_next_upd_prev. auto.
Qed.

(** Heaps with the same objects that agree outside [L]. *)
Definition changes (h h' : heap) (L : list Z) : Prop :=
  same_outside h h' L /\ forall x, alloc h' x <-> alloc h x.

Lemma changes_refl h L : changes h h L.
Proof. done. Qed.
Lemma changes_trans h1 h2 h3 L : changes h1 h2 L -> changes h2 h3 L -> changes h1 h3 L.
Proof. intros [H1 A1] [H2 A2]. split; [by eapply same_outside_trans|]. intros x. by rewrite A2. Qed.
Lemma changes_mono h1 h2 L L' : changes h1 h2 L -> (forall x, x ∈ L -> x ∈ L') -> changes h1 h2 L'.
Proof. intros [H1 A1] H. split; [by eapply same_outside_mono|done]. Qed.
Lemma changes_upd_next h x v L : x ∈ L -> changes h (upd_next h x v) L.
Proof.
  intros Hx. split; [|apply alloc_upd_next]. intros y Hy. unfold upd_next. apply lookup_alter_ne. set_solver.
Qed.
Lemma changes_upd_prev h x v L : x ∈ L -> changes h (upd_prev h x v) L.
Proof.
  intros Hx. split; [|apply alloc_upd_prev]. intros y Hy. unfold upd_prev. apply lookup_alter_ne. set_solver.
Qed.
Lemma changes_size h h' L : changes h h' L -> size h' = size h.
Proof.
  intros [_ A]. rewrite <-!size_dom. f_equal. apply set_eq. intros x. rewrite !elem_of_dom. apply A.
Qed.
Lemma sll_changes h h' L p l : sll h p l -> changes h h' L -> (forall x, x ∈ l -> x ∉ L) -> sll h' p l.
Proof. intros H [S _] D. eapply sll_eq; [|done]. intros x Hx. apply S. auto. Qed.

(** ** Merging *)

Definition R (a b : Z) : Prop := cmp a b <= 0.
#[local] Instance R_dec a b : Decision (R a b) := Z_le_dec (cmp a b) 0.

(** What writing to the end of the list under construction does. *)
Lemma tail_set_spec h hn tail v (L : list Z) : (forall t, tail = Some t -> alloc h t /\ (t ∉ L)) ->
  exists h1 hn1, tail_set_next h hn tail v = Some (h1, hn1) /\ tail_next h1 hn1 tail = Some v /\
    changes h h1 (option_list tail) /\ (tail <> None -> hn1 = hn) /\
    (forall x, x ∈ L -> h1 !! x = h !! x).
Proof.
  intros Ht. destruct tail as [t|]; cbn.
  - destruct (Ht t eq_refl) as [Ha Hn]. rewrite set_next_upd by done. cbn [mbind option_bind].
    eexists _, _. split; [done|]. split_and!; [|by apply changes_upd_next; set_solver|done|].
    + rewrite get_next_upd_next, decide_True by done. by destruct Ha as [? ->].
    + intros x Hx. unfold upd_next. apply lookup_alter_ne. set_solver.
  - eexists _, _. split; [done|]. by split_and!; [done|apply changes_refl|done|].
Qed.

(** One step: [c] is appended and [rest] is what remains to be merged. *)
Lemma merge_step h hn tail c q rest (L : list Z) :
  (forall t, tail = Some t -> alloc h t /\ (t ∉ L)) -> c ∈ L -> (forall x, x ∈ rest -> x ∈ L) ->
  (c ∉ rest) -> c <> NULL -> get_next h c = Some q ->
  exists h1 hn1, tail_set_next h hn tail c = Some (h1, hn1) /\ get_next h1 c = Some q /\
    tail_next h1 hn1 tail = Some c /\ (forall x, x ∈ L -> h1 !! x = h !! x) /\ alloc h1 c /\
    forall h' hn' v l, changes h1 h' (c :: rest) -> hn' = hn1 -> get_next h' c = Some v -> sll h' v l ->
      exists v', tail_next h' hn' tail = Some v' /\ sll h' v' (c :: l) /\
        changes h h' (option_list tail ++ L) /\ (tail <> None -> hn' = hn).
Proof.
  intros Ht Hc Hr Hcr Hc0 Hq. destruct (tail_set_spec h hn tail c L Ht) as (h1 & hn1 & E & T & C & Hn & S).
  exists h1, hn1. split_and!; [done| |done|done|..].
  - unfold get_next. by rewrite S.
  - unfold alloc. rewrite S by done. apply fmap_Some_1 in Hq as (n & Hq & _). by eexists.
  - intros h' hn' v l C' -> Hv Hl. exists c. split_and!.
    + destruct tail as [t|]; cbn in *; [|done]. unfold get_next. rewrite (proj1 C'); [done|].
      destruct (Ht t eq_refl). set_solver.
    + cbn. split_and!; [done..|]. by exists v.
    + eapply changes_trans; eapply changes_mono; [done| |done|]; set_solver.
    + done.
Qed.

Lemma merge_loop_spec fuel : forall h hn tail a b la lb,
  (length la + length lb < fuel)%nat -> sll h a la -> sll h b lb -> NoDup (la ++ lb) ->
  (forall t, tail = Some t -> alloc h t /\ (t ∉ la ++ lb)) ->
  exists h' hn' v, merge_loop fuel h hn tail a b = Some (h', hn') /\
    tail_next h' hn' tail = Some v /\ sll h' v (list_merge R la lb) /\
    changes h h' (option_list tail ++ la ++ lb) /\ (tail <> None -> hn' = hn).
Proof.
  induction fuel as [|fuel IH]; intros h hn tail a b la lb Hf Ha Hb N Ht; [lia|]. cbn [merge_loop].
  destruct (sll_inv _ _ _ Ha) as [[-> ->]|(la' & qa & Ha0 & -> & Hqa & Ha')].
  { destruct (tail_set_spec h hn tail b lb Ht) as (h1 & hn1 & E & T & C & Hn & S).
    exists h1, hn1, b. rewrite list_merge_nil_l. split_and!; [done..|by eapply sll_eq| |done].
    eapply changes_mono; [done|set_solver]. }
  rewrite (proj2 (Z.eqb_neq a NULL) Ha0).
  destruct (sll_inv _ _ _ Hb) as [[-> ->]|(lb' & qb & Hb0 & -> & Hqb & Hb')].
  { rewrite app_nil_r in *. destruct (tail_set_spec h hn tail a (a :: la') Ht) as (h1 & hn1 & E & T & C & Hn & S).
    exists h1, hn1, a. rewrite list_merge_nil_r. split_and!; [done..|by eapply sll_eq| |done].
    eapply changes_mono; [done|set_solver]. }
  rewrite (proj2 (Z.eqb_neq b NULL) Hb0). cbn [negb andb]. rewrite list_merge_cons.
  assert (Hd : (cmp a b <=? 0) = bool_decide (R a b)).
  { unfold R. destruct (Z.leb_spec (cmp a b) 0); [by rewrite bool_decide_eq_true_2|by rewrite bool_decide_eq_false_2 by lia]. }
  rewrite Hd. destruct (decide (R a b)) as [HR|HR];
    [rewrite bool_decide_eq_true_2 by done|rewrite bool_decide_eq_false_2 by done].
  - destruct (merge_step h hn tail a qa (la' ++ b :: lb') ((a :: la') ++ b :: lb'))
      as (h1 & hn1 & E1 & E2 & E3 & S & A & K); [done|set_solver|set_solver|nodups|done|done|].
    rewrite E1. cbn [mbind option_bind]. rewrite E2. cbn [mbind option_bind]. rewrite E3. cbn [mbind option_bind].
    destruct (IH h1 hn1 (Some a) qa b la' (b :: lb')) as (h' & hn' & v & -> & V & Hv & C & Hn).
    + cbn in *. lia.
    + eapply sll_eq; [|done]. intros x Hx. apply S. set_solver.
    + eapply sll_eq; [|done]. intros x Hx. apply S. set_solver.
    + nodups.
    + intros ? [= <-]. split; [done|]. nodups.
    + destruct (K h' hn' v (list_merge R la' (b :: lb'))) as (v' & ? & ? & ? & ?); [done|by apply Hn|done|done|].
      by exists h', hn', v'.
  - destruct (merge_step h hn tail b qb ((a :: la') ++ lb') ((a :: la') ++ b :: lb'))
      as (h1 & hn1 & E1 & E2 & E3 & S & A & K); [done|set_solver|set_solver|nodups|done|done|].
    rewrite E1. cbn [mbind option_bind]. rewrite E2. cbn [mbind option_bind]. rewrite E3. cbn [mbind option_bind].
    destruct (IH h1 hn1 (Some b) a qb (a :: la') lb') as (h' & hn' & v & -> & V & Hv & C & Hn).
    + cbn in *. lia.
    + eapply sll_eq; [|done]. intros x Hx. apply S. set_solver.
    + eapply sll_eq; [|done]. intros x Hx. apply S. set_solver.
    + nodups.
    + intros ? [= <-]. split; [done|]. nodups.
    + destruct (K h' hn' v (list_merge R (a :: la') lb')) as (v' & ? & ? & ? & ?); [done|by apply Hn|done|done|].
      by exists h', hn', v'.
Qed.

Lemma merge_spec h a b la lb : sll h a la -> sll h b lb -> NoDup (la ++ lb) ->
  exists h' v, merge h a b = Some (h', v) /\ sll h' v (list_merge R la lb) /\ changes h h' (la ++ lb).
Proof.
  intros Ha Hb N. unfold merge.
  destruct (merge_loop_spec (S (size h)) h None None a b la lb) as (h' & hn' & v & -> & V & Hv & C & _); [|done..|].
  - rewrite <-length_app. apply le_n_S, nodup_size; [done|].
    intros x [Hx|Hx]%elem_of_app; [apply (sll_alloc h a la)|apply (sll_alloc h b lb)]; done.
  - cbn in V. subst hn'. by exists h', v.
Qed.

(** ** Restoring the back links *)

(** Both links are in place along [l], from [a]. *)
Fixpoint path (h : heap) (a : Z) (l : list Z) : Prop :=
  match l with
  | [] => True
  | x :: l => link h a x /\ path h x l
  end.

Lemma last_of_cons a x l : last_of a (x :: l) = last_of x l.
Proof. unfold last_of. rewrite last_cons. by destruct (last l). Qed.

Lemma path_seg h a l b : path h a l -> link h (last_of a l) b -> seg h a l b.
Proof.
  revert a. induction l as [|x l IH]; intros a; cbn; [done|]. intros [H1 H2] H. split; [done|].
  apply IH; [done|]. by rewrite <-(last_of_cons a).
Qed.
Lemma path_app h a l1 l2 : path h a (l1 ++ l2) <-> path h a l1 /\ path h (last_of a l1) l2.
Proof.
  revert a. induction l1 as [|x l1 IH]; intros a; cbn; [tauto|]. rewrite IH.
  rewrite (last_of_cons a). tauto.
Qed.
Lemma path_eq h h' a l : (forall x, x ∈ a :: l -> h' !! x = h !! x) -> path h a l -> path h' a l.
Proof.
  revert a. induction l as [|x l IH]; intros a E; cbn; [done|]. intros [H1 H2].
  split; [unfold link, get_next, get_prev in *; rewrite !E by set_solver; done|]. apply IH; set_solver.
Qed.

Lemma sll_join h p l a b : (a ∉ l) -> sll h p l -> sll (hook h a b) p l.
Proof. intros. unfold hook. apply sll_upd_next; [done|]. by apply sll_upd_prev. Qed.
Lemma changes_join h a b L : a ∈ L -> b ∈ L -> changes h (hook h a b) L.
Proof. intros. split; [by apply same_outside_join|apply alloc_join]. Qed.

(** One step: [c] is linked behind [t]. *)
Lemma restore_step h t c q : alloc h t -> get_next h c = Some q -> t <> c ->
  set_next h t c = Some (upd_next h t c) /\ set_prev (upd_next h t c) c t = Some (hook h t c) /\
  get_next (hook h t c) c = Some q /\ get_next (hook h t c) t = Some c /\
  get_prev (hook h t c) c = Some t /\ get_prev (hook h t c) t = get_prev h t.
Proof.
  intros At Hq Htc. assert (Ac : alloc h c) by (apply fmap_Some_1 in Hq as (? & ? & _); by eexists).
  destruct (link_join h t c At Ac) as [L1 L2]. split_and!.
  - by apply set_next_upd.
  - rewrite set_prev_upd by (by apply alloc_upd_next). by rewrite upd_comm.
  - unfold hook. by rewrite get_next_upd_next, decide_False, get_next_upd_prev.
  - done.
  - done.
  - by apply get_prev_join_ne.
Qed.

Lemma restore_merge_loop_spec fuel : forall h t a b la lb,
  (length la + length lb < fuel)%nat -> sll h a la -> sll h b lb -> NoDup (t :: la ++ lb) ->
  alloc h t -> la ++ lb <> [] ->
  exists h' l1 l2 v, restore_merge_loop fuel h t a b = Some (h', last_of t l1) /\
    list_merge R la lb = l1 ++ l2 /\ l2 <> [] /\ path h' t l1 /\
    get_next h' (last_of t l1) = Some v /\ sll h' v l2 /\
    changes h h' (t :: la ++ lb) /\ get_prev h' t = get_prev h t.
Proof.
  induction fuel as [|fuel IH]; intros h t a b la lb Hf Ha Hb N At Hne; [lia|]. cbn [restore_merge_loop].
  assert (Ht : t ∉ la ++ lb) by (by apply NoDup_cons in N as [? _]).
  assert (Hstop : forall v l, sll h v l -> (t ∉ l) -> l <> [] -> list_merge R la lb = l ->
    exists h' l1 l2 v', (h ← set_next h t v; Some (h, t)) = Some (h', last_of t l1) /\
    list_merge R la lb = l1 ++ l2 /\ l2 <> [] /\ path h' t l1 /\
    get_next h' (last_of t l1) = Some v' /\ sll h' v' l2 /\
    changes h h' (t :: la ++ lb) /\ get_prev h' t = get_prev h t).
  { intros v l Hv Htl Hl0 E. exists (upd_next h t v), [], l, v. rewrite set_next_upd by done.
    split_and!; [done..| |by apply sll_upd_next|apply changes_upd_next; set_solver|apply get_prev_upd_next].
    cbn. rewrite get_next_upd_next, decide_True by done. by destruct At as [? ->]. }
  destruct (sll_inv _ _ _ Ha) as [[-> ->]|(la' & qa & Ha0 & -> & Hqa & Ha')].
  { apply (Hstop b lb); [done|set_solver|done|apply list_merge_nil_l]. }
  rewrite (proj2 (Z.eqb_neq a NULL) Ha0).
  destruct (sll_inv _ _ _ Hb) as [[-> ->]|(lb' & qb & Hb0 & -> & Hqb & Hb')].
  { apply (Hstop a (a :: la')); [done|set_solver|done|apply list_merge_nil_r]. }
  rewrite (proj2 (Z.eqb_neq b NULL) Hb0). cbn [negb andb]. rewrite list_merge_cons. clear Hstop.
  assert (Hd : (cmp a b <=? 0) = bool_decide (R a b)).
  { unfold R. destruct (Z.leb_spec (cmp a b) 0); [by rewrite bool_decide_eq_true_2|by rewrite bool_decide_eq_false_2 by lia]. }
  rewrite Hd. destruct (decide (R a b)) as [HR|HR];
    [rewrite bool_decide_eq_true_2 by done|rewrite bool_decide_eq_false_2 by done].
  - destruct (restore_step h t a qa At) as (E1 & E2 & E3 & E4 & E5 & E6); [done|set_solver|].
    rewrite E1. cbn [mbind option_bind]. rewrite E2. cbn [mbind option_bind]. rewrite E3. cbn [mbind option_bind].
    rewrite E4. cbn [mbind option_bind].
    destruct (IH (hook h t a) a qa b la' (b :: lb')) as (h' & l1 & l2 & v & E & M & Hl2 & P & G & Sv & C & Pv).
    + cbn in *; lia.
    + apply sll_join; [set_solver|done].
    + apply sll_join; [set_solver|done].
    + nodups.
    + apply alloc_join. by eapply sll_alloc; [exact Ha|set_solver].
    + destruct la'; done.
    + exists h', (a :: l1), l2, v. rewrite (last_of_cons t), M. split_and!; try done.
      * cbn. split; [|done]. split; [|by rewrite Pv].
        unfold get_next. rewrite (proj1 C) by set_solver. exact E4.
      * eapply changes_trans; [apply (changes_join h t a); set_solver|]. eapply changes_mono; [done|set_solver].
      * unfold get_prev. rewrite (proj1 C) by set_solver. exact E6.
  - destruct (restore_step h t b qb At) as (E1 & E2 & E3 & E4 & E5 & E6); [done|set_solver|].
    rewrite E1. cbn [mbind option_bind]. rewrite E2. cbn [mbind option_bind]. rewrite E3. cbn [mbind option_bind].
    rewrite E4. cbn [mbind option_bind].
    destruct (IH (hook h t b) b a qb (a :: la') lb') as (h' & l1 & l2 & v & E & M & Hl2 & P & G & Sv & C & Pv).
    + cbn in *; lia.
    + apply sll_join; [set_solver|done].
    + apply sll_join; [set_solver|done].
    + nodups.
    + apply alloc_join. by eapply sll_alloc; [exact Hb|set_solver].
    + destruct la'; done.
    + exists h', (b :: l1), l2, v. rewrite (last_of_cons t), M. split_and!; try done.
      * cbn. split; [|done]. split; [|by rewrite Pv].
        unfold get_next. rewrite (proj1 C) by set_solver. exact E4.
      * eapply changes_trans; [apply (changes_join h t b); set_solver|]. eapply changes_mono; [done|set_solver].
      * unfold get_prev. rewrite (proj1 C) by set_solver. exact E6.
Qed.

Lemma restore_tail_loop_spec fuel : forall h t v l, (length l < fuel)%nat -> l <> [] ->
  get_next h t = Some v -> sll h v l -> NoDup (t :: l) ->
  exists h', restore_tail_loop fuel h t = Some (h', last_of t l) /\ path h' t l /\
    changes h h' l.
Proof.
  induction fuel as [|fuel IH]; intros h t v l Hf Hl Hv Sv N; [lia|]. cbn [restore_tail_loop].
  destruct l as [|x l]; [done|]. cbn in Sv. destruct Sv as (-> & Hx & q & Hq & Sq).
  rewrite Hv. cbn [mbind option_bind].
  assert (Ax : alloc h x) by (apply fmap_Some_1 in Hq as (? & ? & _); by eexists).
  rewrite set_prev_upd by done. cbn [mbind option_bind]. rewrite !get_next_upd_prev, Hv. cbn [mbind option_bind].
  rewrite get_next_upd_prev, Hq. cbn [mbind option_bind].
  assert (Lx : link (upd_prev h x t) t x).
  { split; [by rewrite get_next_upd_prev|]. rewrite get_prev_upd_prev, decide_True by done. by destruct Ax as [? ->]. }
  rewrite (sll_nonnull _ _ _ Sq). case_bool_decide as Hl'; cbn [negb].
  - subst l. exists (upd_prev h x t). split_and!; [done|done|]. apply changes_upd_prev. set_solver.
  - destruct (IH (upd_prev h x t) x q l) as (h' & E & P & C).
    + cbn in Hf. lia.
    + done.
    + by rewrite get_next_upd_prev.
    + by apply sll_upd_prev.
    + nodups.
    + exists h'. rewrite E, (last_of_cons t). split_and!; [done| |].
      * cbn. split; [|done]. nodup_hyps. unfold link, get_next, get_prev in *. by rewrite !(proj1 C) by set_solver.
      * eapply changes_trans; [apply (changes_upd_prev h x t); set_solver|]. eapply changes_mono; [done|set_solver].
Qed.

Lemma path_snoc h a l y : path h a (l ++ [y]) <-> seg h a l y.
Proof. revert a. induction l as [|x l IH]; intros a; cbn; [tauto|]. by rewrite IH. Qed.

(** Linking the last node of a path to its start does not disturb the path. *)
Lemma path_close h a l : NoDup (a :: l) -> path h a l -> path (hook h (last_of a l) a) a l.
Proof.
  destruct l as [|y l _] using rev_ind; [done|]. unfold last_of. rewrite last_snoc. cbn [default from_option id].
  intros N. rewrite !path_snoc. nodup_hyps. apply seg_join_ne; set_solver.
Qed.
Lemma last_of_app_gen a l1 l2 : last_of a (l1 ++ l2) = last_of (last_of a l1) l2.
Proof.
  destruct l2 as [|x l2 _] using rev_ind; [by rewrite app_nil_r|]. unfold last_of. by rewrite app_assoc, !last_snoc.
Qed.

Lemma merge_and_restore_spec h hd a b la lb : sll h a la -> sll h b lb -> NoDup (hd :: la ++ lb) ->
  alloc h hd -> hd <> NULL -> la ++ lb <> [] ->
  exists h', merge_and_restore_back_links h hd a b = Some h' /\ dll h' hd (list_merge R la lb) /\
    changes h h' (hd :: la ++ lb).
Proof.
  intros Ha Hb N Ah Hh Hne. unfold merge_and_restore_back_links.
  assert (Hal : forall x, x ∈ la ++ lb -> alloc h x).
  { intros x [Hx|Hx]%elem_of_app; [apply (sll_alloc h a la)|apply (sll_alloc h b lb)]; done. }
  assert (H0 : NULL ∉ la ++ lb).
  { intros [Hx|Hx]%elem_of_app; [apply (sll_not_null h a la)|apply (sll_not_null h b lb)]; done. }
  destruct (restore_merge_loop_spec (S (size h)) h hd a b la lb) as (h1 & l1 & l2 & v & -> & M & Hl2 & P & G & Sv & C1 & _);
    [|done..|].
  { rewrite <-length_app. apply le_n_S, nodup_size; [by apply NoDup_cons in N as [_ ?]|done]. }
  pose proof (merge_Permutation R la lb) as Pm. rewrite M in Pm.
  assert (N' : NoDup (hd :: l1 ++ l2)) by (by rewrite Pm). cbn [mbind option_bind].
  pose proof (last_of_in hd l1) as Hlast.
  destruct (restore_tail_loop_spec (S (size h1)) h1 (last_of hd l1) v l2) as (h2 & -> & P2 & C2); [|done|done|done|..].
  { apply le_n_S, nodup_size; [nodups|]. intros x Hx. apply C1, Hal. rewrite <-Pm. set_solver. }
  { apply NoDup_cons in N' as [Hn (_ & Dj & Nl)%NoDup_app]. apply NoDup_cons. split; [|done].
    intros Hx. apply elem_of_cons in Hlast as [E|E]; [rewrite E in Hx; set_solver|by eapply Dj]. }
  cbn [mbind option_bind]. rewrite <-last_of_app_gen.
  assert (C : changes h h2 (hd :: la ++ lb)).
  { eapply changes_trans; [exact C1|]. eapply changes_mono; [exact C2|].
    intros x Hx. right. rewrite <-Pm. set_solver. }
  pose proof (last_of_in hd (l1 ++ l2)) as Hlast2.
  assert (Hla : last_of hd (l1 ++ l2) ∈ hd :: la ++ lb) by (by rewrite <-Pm).
  assert (Al : alloc h2 (last_of hd (l1 ++ l2))) by (apply C; by apply elem_of_cons in Hla as [->|?]; [|apply Hal]).
  assert (Ah2 : alloc h2 hd) by (by apply C).
  rewrite set_next_upd by done. cbn [mbind option_bind]. rewrite set_prev_upd by (by apply alloc_upd_next).
  rewrite upd_comm. fold (hook h2 (last_of hd (l1 ++ l2)) hd). eexists. split; [done|]. split.
  - rewrite M. split_and!; [done|rewrite Pm; set_solver|].
    assert (Pth : path h2 hd (l1 ++ l2)).
    { apply path_app. split; [|done]. eapply path_eq; [|exact P]. intros x Hx. apply C2. nodups. }
    apply path_seg; [|by apply link_join].
    by apply path_close.
  - eapply changes_trans; [exact C|]. apply changes_join; set_solver.
Qed.

(** ** Stability *)

Context (cmp_total : forall a b, R a b \/ R b a) (cmp_trans : forall a b c, R a b -> R b c -> R a c).

#[local] Instance R_total : Total R := cmp_total.
#[local] Instance R_trans : Transitive R := cmp_trans.

(** [equiv x] holds of the nodes that [cmp] does not distinguish from [x]. *)
Definition equiv (x y : Z) : Prop := R x y /\ R y x.
#[local] Instance equiv_dec x y : Decision (equiv x y) := and_dec _ _.

(** The same nodes, equivalent ones in the same order. *)
Definition stable_eq (l l' : list Z) : Prop :=
  l ≡ₚ l' /\ forall x, filter (equiv x) l = filter (equiv x) l'.

#[local] Instance stable_eq_equivalence : Equivalence stable_eq.
Proof.
  split.
  - intros l. by split.
  - intros l l' [P F]. by split.
  - intros l1 l2 l3 [P1 F1] [P2 F2]. split; [by rewrite P1|]. intros x. by rewrite F1.
Qed.
#[local] Instance stable_eq_app : Proper (stable_eq ==> stable_eq ==> stable_eq) (@app Z).
Proof.
  intros l1 l1' [P1 F1] l2 l2' [P2 F2]. split; [by rewrite P1, P2|].
  intros x. by rewrite !filter_app, F1, F2.
Qed.

Lemma filter_none (P : Z -> Prop) `{!forall x, Decision (P x)} l : Forall (fun x => ~ P x) l -> filter P l = [].
Proof. induction 1 as [|x l Hx _ IH]; [done|]. by rewrite filter_cons_False. Qed.

Lemma merge_stable la lb : Sorted R la -> Sorted R lb -> stable_eq (list_merge R la lb) (la ++ lb).
Proof.
  intros Sa Sb. split; [apply merge_Permutation|]. intros x.
  revert lb Sb. induction la as [|a la IHa]; intros lb Sb; [by rewrite list_merge_nil_l|].
  induction lb as [|b lb IHb]; [by rewrite list_merge_nil_r, app_nil_r|].
  rewrite list_merge_cons. destruct (decide (R a b)) as [HR|HR].
  - cbn [app]. rewrite !filter_cons, IHa; [done|by inversion Sa|done].
  - rewrite filter_cons, IHb by (by inversion Sb). rewrite !filter_app, (filter_cons (equiv x) b lb).
    destruct (decide (equiv x b)) as [E|E]; [|done].
    assert (filter (equiv x) (a :: la) = []) as ->; [|done].
    apply Sorted_StronglySorted in Sa; [|exact cmp_trans]. apply StronglySorted_cons in Sa as [Fa _].
    apply filter_none. constructor.
    + intros [E1 E2]. destruct E. apply HR. by etrans.
    + eapply Forall_impl; [exact Fa|]. intros y Hy [E1 E2]. destruct E. apply HR.
      etrans; [exact Hy|]. by etrans.
Qed.

(** Lists merged into [c] one after the other. *)
Definition carried (c : list Z) (ps : list (list Z)) : list Z := foldl (fun c p => list_merge R p c) c ps.

Lemma carried_sorted ps : forall c, Forall (Sorted R) ps -> Sorted R c -> Sorted R (carried c ps).
Proof.
  induction ps as [|p ps IH]; intros c F Hc; [done|]. inversion F; subst. cbn. apply IH; [done|].
  apply Sorted_list_merge; [exact cmp_total|done..].
Qed.
Lemma carried_stable ps : forall c, Forall (Sorted R) ps -> Sorted R c ->
  stable_eq (carried c ps) (concat (reverse ps) ++ c).
Proof.
  induction ps as [|p ps IH]; intros c F Hc; [done|]. inversion F; subst.
  change (carried c (p :: ps)) with (carried (list_merge R p c) ps). rewrite IH; [|done|].
  - rewrite reverse_cons, concat_app. cbn [concat]. rewrite app_nil_r, <-app_assoc. by rewrite merge_stable.
  - apply Sorted_list_merge; [exact cmp_total|done..].
Qed.

(** ** The partial lists *)

Lemma concat_reverse_perm (ps : list (list Z)) : concat (reverse ps) ≡ₚ concat ps.
Proof.
  induction ps as [|p ps IH]; [done|]. rewrite reverse_cons, concat_app. cbn [concat]. rewrite app_nil_r, IH.
  apply Permutation_app_comm.
Qed.

Lemma aget_middle {A} (n : nat) (x y : A) (l : list A) : aget (replicate n x ++ y :: l) (Z.of_nat n) = Some y.
Proof.
  unfold aget. rewrite (proj2 (Z.leb_le _ _)) by lia. rewrite Nat2Z.id.
  rewrite lookup_app_r, length_replicate, Nat.sub_diag; [done|rewrite length_replicate; lia].
Qed.
Lemma aset_middle {A} (n : nat) (x y z : A) (l : list A) :
  aset (replicate n x ++ y :: l) (Z.of_nat n) z = Some (replicate n x ++ z :: l).
Proof.
  unfold aset. rewrite (proj2 (Z.leb_le _ _)), (proj2 (Z.ltb_lt _ _)); [|rewrite length_app, length_replicate; cbn; lia|lia].
  cbn [andb]. rewrite Nat2Z.id, insert_app_r_alt, length_replicate, Nat.sub_diag by (rewrite length_replicate; lia). done.
Qed.

(** The pointers and the lists they point to. *)
Definition parts_at (h : heap) (part : list Z) (parts : list (list Z)) : Prop := Forall2 (sll h) part parts.

Lemma parts_at_changes h h' L part parts : parts_at h part parts -> changes h h' L ->
  (forall x, x ∈ concat parts -> x ∉ L) -> parts_at h' part parts.
Proof.
  induction 1 as [|p l part parts Hp _ IH]; intros C D; [constructor|]. cbn in D. constructor.
  - eapply sll_changes; [done..|]. intros x Hx. apply D. set_solver.
  - apply IH; [done|]. intros x Hx. apply D. set_solver.
Qed.

Lemma carry_loop_spec parts : forall part fuel h lev cur lc,
  parts_at h part parts -> last parts = Some [] -> (length part < fuel)%nat ->
  sll h cur lc -> NoDup (concat parts ++ lc) ->
  exists h' k cur',
    carry_loop fuel h (replicate lev NULL ++ part) (Z.of_nat lev) cur =
      Some (h', replicate (lev + k) NULL ++ drop k part, Z.of_nat (lev + k), cur') /\
    parts !! k = Some [] /\ sll h' cur' (carried lc (take k parts)) /\
    parts_at h' (drop k part) (drop k parts) /\ changes h h' (concat (take k parts) ++ lc).
Proof.
  induction parts as [|p parts IH]; intros part fuel h lev cur lc Hp Hl Hf Hc N; [done|].
  inversion Hp as [|q ? part' ? Hq Hp']; subst. destruct fuel as [|fuel]; [lia|]. cbn [carry_loop].
  rewrite aget_middle. cbn [mbind option_bind]. rewrite (sll_nonnull _ _ _ Hq).
  case_bool_decide as E; cbn [negb].
  { subst p. exists h, O, cur. rewrite Nat.add_0_r. split_and!; [done..|apply changes_refl]. }
  destruct (merge_spec h q cur p lc) as (h1 & v & -> & Sv & C1); [done..|cbn in N; nodups|].
  cbn [mbind option_bind]. rewrite aset_middle. cbn [mbind option_bind].
  replace (replicate lev NULL ++ NULL :: part') with (replicate (S lev) NULL ++ part')
    by (by rewrite replicate_S_end, <-app_assoc).
  replace (Z.of_nat lev + 1) with (Z.of_nat (S lev)) by lia.
  pose proof (merge_Permutation R p lc) as Pm.
  destruct (IH part' fuel h1 (S lev) v (list_merge R p lc)) as (h' & k & cur' & Ek & Hk & Hc' & Hd & C2).
  - eapply parts_at_changes; [done..|]. cbn in N. nodup_hyps. set_solver.
  - destruct parts; [by injection Hl|done].
  - cbn in Hf. lia.
  - done.
  - rewrite Pm. cbn in N. rewrite <-(assoc_L (++)) in N. rewrite (assoc_L (++)), (Permutation_app_comm (concat parts)), <-(assoc_L (++)). done.
  - exists h', (S k), cur'. replace (lev + S k)%nat with (S lev + k)%nat by lia.
    split_and!; [exact Ek|done|done|done|]. cbn [take concat].
    eapply changes_trans; [eapply changes_mono; [exact C1|]|eapply changes_mono; [exact C2|]]; intros x.
    + set_solver.
    + rewrite Pm. set_solver.
Qed.

(** The state of the sort: the lists in [parts], the higher levels holding the
    earlier nodes, and the nodes not yet taken make up [L], stably. *)
Record sorting (L : list Z) (h : heap) (part : list Z) (parts : list (list Z)) (max : nat) (rest : list Z) : Prop := {
  s_at : parts_at h part parts;
  s_length : length parts = 21%nat;
  s_last : last parts = Some [];
  s_sorted : Forall (Sorted R) parts;
  s_max : (max < 20)%nat;
  s_above : Forall (eq []) (drop (S max) parts);
  s_stable : stable_eq (concat (reverse parts) ++ rest) L }.

Lemma concat_reverse_middle n (c : list Z) tl : concat (reverse (replicate n [] ++ c :: tl)) = concat (reverse tl) ++ c.
Proof.
  rewrite reverse_app, reverse_cons, !concat_app. cbn [concat]. rewrite app_nil_r.
  assert (concat (reverse (replicate n [])) = ([] : list Z)) as ->; [|by rewrite app_nil_r].
  rewrite reverse_replicate. induction n; [done|by cbn].
Qed.

(** Carrying up to level [k] and storing the result there, or at the level below
    when [k] is the sentinel. *)
Lemma carried_parts (parts : list (list Z)) k lc : parts !! k = Some [] ->
  Forall (Sorted R) parts -> Sorted R lc ->
  stable_eq (concat (reverse (drop (S k) parts)) ++ carried lc (take k parts)) (concat (reverse parts) ++ lc).
Proof.
  intros Hk F Hc. rewrite <-(take_drop k parts) at 3. rewrite (drop_S _ [] k) by done.
  rewrite reverse_app, reverse_cons, !concat_app. cbn [concat]. rewrite !app_nil_r, carried_stable, (assoc_L (++)); [done| |done].
  by apply Forall_take.
Qed.

Lemma sorting_place L h part parts max rest h' k cur' x lev' tl ptl max' :
  sorting L h part parts max (x :: rest) -> parts !! k = Some [] ->
  sll h' cur' (carried [x] (take k parts)) -> parts_at h' tl ptl ->
  concat (reverse ptl) = concat (reverse (drop (S k) parts)) ->
  (lev' + S (length ptl))%nat = 21%nat -> last ptl = Some [] -> Forall (Sorted R) ptl ->
  (max' < 20)%nat -> Forall (eq []) (drop (S max') (replicate lev' [] ++ carried [x] (take k parts) :: ptl)) ->
  sorting L h' (replicate lev' NULL ++ cur' :: tl) (replicate lev' [] ++ carried [x] (take k parts) :: ptl)
    max' rest.
Proof.
  intros [H1 H2 H3 H4 H5 H6 H7] Hk Hc Htl Ecat Hlen Hlast Hs Hmax Habove.
  assert (S1 : Sorted R [x]) by (repeat constructor).
  constructor; try done.
  - apply Forall2_app; [|by constructor]. apply Forall2_replicate. done.
  - rewrite length_app, length_replicate. cbn. lia.
  - rewrite last_app. destruct ptl; [done|]. cbn [last] in *. by rewrite Hlast.
  - apply Forall_app. split; [apply Forall_replicate; constructor|]. constructor; [|done].
    apply carried_sorted; [by apply Forall_take|done].
  - rewrite concat_reverse_middle, Ecat, carried_parts, <-(assoc_L (++)); done.
Qed.

Lemma sorting_nodup L h part parts max rest : NoDup L -> sorting L h part parts max rest ->
  NoDup (concat parts ++ rest) /\ forall x, x ∈ concat parts ++ rest <-> x ∈ L.
Proof.
  intros N [_ _ _ _ _ _ [P _]]. rewrite concat_reverse_perm in P. split; [by rewrite P|]. intros x. by rewrite P.
Qed.

(** The levels above [max'] stay empty. *)
Lemma above_drop (parts : list (list Z)) max max' k c : Forall (eq []) (drop (S max) parts) ->
  (max <= max')%nat -> (k <= max')%nat -> (k < length parts)%nat ->
  Forall (eq []) (drop (S max') (replicate k [] ++ c :: drop (S k) parts)).
Proof.
  intros F H1 H2 H3. rewrite drop_app_ge, length_replicate by (rewrite length_replicate; lia).
  replace (S max' - k)%nat with (S (max' - k)) by lia. cbn [drop]. rewrite drop_drop.
  replace (S k + (max' - k))%nat with (S max + (max' - max))%nat by lia. rewrite <-drop_drop. by apply Forall_drop.
Qed.

(** Storing the carried list: the choice of the level and of the new [max_lev]. *)
Lemma place_step L h part parts max rest h2 k cur x :
  sorting L h part parts max (x :: rest) -> parts !! k = Some [] ->
  sll h2 cur (carried [x] (take k parts)) -> parts_at h2 (drop (S k) part) (drop (S k) parts) ->
  let part2 := replicate k NULL ++ NULL :: drop (S k) part in
  let lev := Z.of_nat k in
  let lev' := if lev >? Z.of_nat max then
                if lev >=? Z.of_nat (length part2) - 1 then lev - 1 else lev
              else lev in
  exists part' parts' max', aset part2 lev' cur = Some part' /\
    (if lev >? Z.of_nat max then lev' else Z.of_nat max) = Z.of_nat max' /\
    sorting L h2 part' parts' max' rest.
Proof.
  intros Hs Hk Sc Htl part2 lev lev'. pose proof Hs as [H1 H2 H3 H4 H5 H6 H7].
  pose proof (lookup_lt_Some _ _ _ Hk) as Hk'. pose proof (Forall2_length _ _ _ H1) as Hlen.
  assert (Hl21 : length part2 = 21%nat).
  { unfold part2. rewrite length_app, length_replicate. cbn. rewrite length_drop. lia. }
  unfold lev', lev. rewrite Hl21. change (Z.of_nat 21 - 1) with 20. unfold part2. clear Hl21 part2 lev lev'.
  assert (Fd : Forall (Sorted R) (drop (S k) parts)) by (by apply Forall_drop).
  assert (Hlastd : (k < 20)%nat -> last (drop (S k) parts) = Some []).
  { intros. rewrite last_lookup in *. rewrite length_drop, lookup_drop, H2 in *.
    replace (S k + Nat.pred (21 - S k))%nat with 20%nat by lia. done. }
  destruct (Z.gtb_spec (Z.of_nat k) (Z.of_nat max)) as [Hkm|Hkm].
  - destruct (Z.geb_spec (Z.of_nat k) 20) as [Hk20|Hk20].
    + assert (k = 20)%nat as -> by lia. replace (Z.of_nat 20 - 1) with (Z.of_nat 19) by lia.
      rewrite (drop_ge part) by lia.
      exists (replicate 19 NULL ++ [cur; NULL]), (replicate 19 [] ++ [carried [x] (take 20 parts); []]), 19%nat.
      split_and!; [done..|]. eapply sorting_place; try done; [repeat constructor| |repeat constructor|lia|repeat constructor].
      by rewrite (drop_ge parts) by lia.
    + eexists _, (replicate k [] ++ carried [x] (take k parts) :: drop (S k) parts), k.
      split_and!; [apply aset_middle|done|].
      eapply sorting_place; try done; [rewrite length_drop; lia|apply Hlastd; lia|lia|].
      by apply (above_drop _ max); [|lia..].
  - eexists _, (replicate k [] ++ carried [x] (take k parts) :: drop (S k) parts), max.
    split_and!; [apply aset_middle|done|].
    eapply sorting_place; try done; [rewrite length_drop; lia|apply Hlastd; lia|].
    by apply (above_drop _ max); [|lia..].
Qed.

(** Taking one node out of the rest and carrying it. *)
Lemma take_step L h part parts max x rest q : NoDup L -> sorting L h part parts max (x :: rest) ->
  x <> NULL -> get_next h x = Some q -> sll h q rest ->
  exists h2 k cur, set_next h x NULL = Some (upd_next h x NULL) /\
    carry_loop (S (length part)) (upd_next h x NULL) part 0 x =
      Some (h2, replicate k NULL ++ NULL :: drop (S k) part, Z.of_nat k, cur) /\
    parts !! k = Some [] /\ sll h2 cur (carried [x] (take k parts)) /\
    parts_at h2 (drop (S k) part) (drop (S k) parts) /\ sll h2 q rest /\ changes h h2 L.
Proof.
  intros N Hs Hx Hq Sq. destruct (sorting_nodup _ _ _ _ _ _ N Hs) as [N' HL]. destruct Hs as [H1 H2 H3 H4 H5 H6 H7].
  assert (Ax : alloc h x) by (apply fmap_Some_1 in Hq as (? & ? & _); by eexists).
  assert (C1 : changes h (upd_next h x NULL) [x]) by (apply changes_upd_next; set_solver).
  assert (Dx : (x ∉ concat parts) /\ (x ∉ rest) /\ (forall y, y ∈ concat parts -> y ∉ x :: rest)) by (nodup_hyps; set_solver).
  destruct Dx as (D1 & D2 & D3).
  destruct (carry_loop_spec parts part (S (length part)) (upd_next h x NULL) O x [x]) as (h2 & k & cur & E & Hk & Sc & Hd & C2).
  { eapply parts_at_changes; [done..|]. set_solver. }
  { done. }
  { lia. }
  { cbn. split_and!; [done..|]. exists NULL. rewrite get_next_upd_next, decide_True by done. by destruct Ax as [? ->]. }
  { nodup_hyps. apply NoDup_app. split_and!; [done|set_solver|nodups]. }
  rewrite (drop_S _ [] k Hk) in Hd. inversion Hd as [|q0 ? tl ? Hq0 Htl Eq]; subst. cbn in Hq0. subst q0.
  assert (tl = drop (S k) part) as -> by (replace (S k) with (k + 1)%nat by lia; by rewrite <-drop_drop, <-Eq).
  rewrite <-Eq in E. rewrite <-(take_drop k parts), concat_app in D3, HL.
  exists h2, k, cur. split_and!; [by apply set_next_upd|exact E|done..| |].
  - eapply sll_changes; [|exact C2|set_solver]. eapply sll_changes; [exact Sq|exact C1|set_solver].
  - eapply changes_trans; [eapply changes_mono; [exact C1|]|eapply changes_mono; [exact C2|]]; intros y Hy; apply HL; set_solver.
Qed.

Lemma insert_loop_spec L (N : NoDup L) rest : forall fuel h part parts max list,
  (length rest < fuel)%nat -> sorting L h part parts max rest -> sll h list rest ->
  exists h' part' parts' max', insert_loop fuel h part (Z.of_nat max) list = Some (h', part', Z.of_nat max') /\
    sorting L h' part' parts' max' [] /\ changes h h' L.
Proof.
  induction rest as [|x rest IH]; intros fuel h part parts max list Hf Hs Hl; (destruct fuel as [|fuel]; [lia|]);
    cbn [insert_loop]; cbn in Hl.
  { subst list. exists h, part, parts, max. by split_and!. }
  destruct Hl as (-> & Hx & q & Hq & Sq). rewrite (proj2 (Z.eqb_neq x NULL) Hx), Hq. cbn [negb mbind option_bind].
  destruct (take_step _ _ _ _ _ _ _ _ N Hs Hx Hq Sq) as (h2 & k & cur & -> & E & Hk & Sc & Htl & Sr & C).
  cbn [mbind option_bind]. rewrite E. cbn [mbind option_bind].
  destruct (place_step _ _ _ _ _ _ _ _ _ _ Hs Hk Sc Htl) as (part' & parts' & max' & -> & -> & Hs').
  cbn [mbind option_bind].
  destruct (IH fuel h2 part' parts' max' q) as (h' & part'' & parts'' & max'' & -> & Hs'' & C'); [cbn in Hf; lia|done..|].
  exists h', part'', parts'', max''. split_and!; [done..|]. by eapply changes_trans.
Qed.

Lemma aget_nat {A} (l : list A) n : aget l (Z.of_nat n) = l !! n.
Proof. unfold aget. rewrite (proj2 (Z.leb_le _ _)) by lia. by rewrite Nat2Z.id. Qed.

Lemma final_loop_S fuel h part lev max list : final_loop (S fuel) h part lev max list =
  if lev <? max then
    p ← aget part lev;
    '(h, list) ← (if negb (p =? NULL) then merge h p list else Some (h, list));
    final_loop fuel h part (lev + 1) max list
  else Some (h, list).
Proof. done. Qed.

Lemma final_loop_spec max n : forall h part parts lev list lc,
  (lev + n)%nat = max -> (max <= length parts)%nat ->
  parts_at h (drop lev part) (drop lev parts) -> sll h list lc -> NoDup (concat (drop lev parts) ++ lc) ->
  exists h' list', final_loop (S n) h part (Z.of_nat lev) (Z.of_nat max) list = Some (h', list') /\
    sll h' list' (carried lc (take n (drop lev parts))) /\
    parts_at h' (drop max part) (drop max parts) /\
    changes h h' (concat (take n (drop lev parts)) ++ lc).
Proof.
  induction n as [|n IH]; intros h part parts lev list lc Hn Hm Hp Hl N; rewrite final_loop_S.
  { rewrite (proj2 (Z.ltb_ge _ _)) by lia. exists h, list. replace max with lev by lia. by split_and!. }
  rewrite (proj2 (Z.ltb_lt _ _)) by lia.
  destruct (lookup_lt_is_Some_2 parts lev) as [l Hlev]; [lia|].
  rewrite (drop_S parts l lev Hlev) in N, Hp |- *. inversion Hp as [|p ? tl ? Hpl Htl Eq]; subst.
  assert (Hp0 : part !! lev = Some p) by (rewrite <-(Nat.add_0_r lev), <-lookup_drop, <-Eq; done).
  rewrite (drop_S part p lev Hp0) in Eq. injection Eq as ->.
  rewrite aget_nat, Hp0. cbn [mbind option_bind].
  rewrite (sll_nonnull _ _ _ Hpl). cbn [take concat] in *.
  change (carried lc (l :: take n (drop (S lev) parts))) with (carried (list_merge R l lc) (take n (drop (S lev) parts))).
  replace (Z.of_nat lev + 1) with (Z.of_nat (S lev)) by lia.
  case_bool_decide as E; cbn [negb mbind option_bind].
  - subst l. rewrite list_merge_nil_l. apply IH; [lia|done..].
  - destruct (merge_spec h p list l lc) as (h1 & v & -> & Sv & C1); [done..|nodups|]. cbn [mbind option_bind].
    pose proof (merge_Permutation R l lc) as Pm.
    destruct (IH h1 part parts (S lev) v (list_merge R l lc)) as (h' & list' & Ef & Sl & Hp' & C2).
    + lia.
    + done.
    + eapply parts_at_changes; [done..|]. nodup_hyps. set_solver.
    + done.
    + rewrite Pm. rewrite <-(assoc_L (++)) in N.
      rewrite (assoc_L (++)), (Permutation_app_comm (concat _)), <-(assoc_L (++)). done.
    + exists h', list'. split_and!; [done..|].
      eapply changes_trans; [eapply changes_mono; [exact C1|]|eapply changes_mono; [exact C2|]]; intros x.
      * set_solver.
      * rewrite Pm. set_solver.
Qed.

(** Cutting the circle behind the last node. *)
Lemma seg_sll h a l y : seg h a l y -> (y ∉ l) -> y <> NULL -> (NULL ∉ l) -> alloc h y ->
  sll (upd_next h y NULL) (first_of l y) (l ++ [y]).
Proof.
  revert a. induction l as [|x l IH]; intros a Hs Hy Hy0 Hl Ay; cbn.
  - split_and!; [done..|]. exists NULL. rewrite get_next_upd_next, decide_True by done. by destruct Ay as [? ->].
  - cbn in Hs. destruct Hs as [_ Hs]. split_and!; [done|set_solver|]. exists (first_of l y). split.
    + rewrite get_next_upd_next, decide_False by set_solver. by apply (seg_first _ _ l).
    + by apply (IH x); [..|set_solver|done]; [|set_solver|].
Qed.

Lemma sorting_start L h : sorting L h (replicate 21 NULL) (replicate 21 []) 0 L.
Proof.
  constructor; try done; [|repeat constructor|lia|repeat constructor].
  by apply Forall2_replicate.
Qed.

(** What the partial lists hold at the end. *)
Lemma sorting_end L h part parts max : sorting L h part parts max [] ->
  exists la, parts !! max = Some la /\ Sorted R la /\
    stable_eq (list_merge R la (carried [] (take max parts))) L.
Proof.
  intros [H1 H2 H3 H4 H5 H6 H7]. destruct (lookup_lt_is_Some_2 parts max) as [la Hla]; [lia|].
  exists la. assert (Sla : Sorted R la) by (eapply (proj1 (Forall_lookup _ _)); done).
  assert (F : Forall (Sorted R) (take max parts)) by (by apply Forall_take).
  split_and!; [done..|]. rewrite merge_stable; [|done|by apply carried_sorted].
  rewrite carried_stable, <-H7, !app_nil_r by done.
  rewrite <-(take_drop max parts) at 2. rewrite (drop_S _ _ _ Hla), reverse_app, reverse_cons, !concat_app.
  assert (concat (reverse (drop (S max) parts)) = []) as ->.
  { apply Forall_reverse in H6. induction H6 as [|p ps <- _ IH]; [done|]. exact IH. }
  cbn. by rewrite app_nil_r.
Qed.

Lemma cut_circle h hd l : dll h hd l -> l <> [] ->
  exists y, last_of hd l = y /\ y ∈ l /\ sll (upd_next h y NULL) (first_of l hd) l.
Proof.
  intros D Hl. destruct l as [|y l _] using rev_ind; [done|]. exists y. unfold last_of. rewrite last_snoc.
  pose proof (dll_alloc _ _ _ y D ltac:(set_solver)) as Ay. destruct D as (N & Z & H). apply seg_app in H as [H _].
  split_and!; [done|set_solver|]. replace (first_of (l ++ [y]) hd) with (first_of l y) by (by destruct l).
  nodup_hyps. apply (seg_sll h hd); [done|set_solver..|done].
Qed.

Lemma list_sort_spec h hd l : dll h hd l ->
  exists h' l', list_sort h hd = Some h' /\ dll h' hd l' /\ Sorted R l' /\ stable_eq l' l /\
    changes h h' (hd :: l).
Proof.
  intros D. unfold list_sort. destruct (list_empty_dll _ _ _ D) as [-> _]. cbn [mbind option_bind].
  case_bool_decide as Hl.
  { subst l. exists h, []. by split_and!. }
  rewrite (dll_last _ _ _ D). cbn [mbind option_bind].
  pose proof (dll_alloc _ _ _ hd D ltac:(set_solver)) as Ah. pose proof (dll_not_null _ _ _ hd D ltac:(set_solver)) as Hh.
  pose proof (dll_first _ _ _ D) as Efirst.
  destruct (cut_circle _ _ _ D Hl) as (y & -> & Hy & Sl).
  assert (Ay : alloc h y) by (apply (dll_alloc _ _ _ _ D); set_solver). pose proof (dll_size _ _ _ D) as Hsz.
  rewrite set_next_upd by done. cbn [mbind option_bind]. set (h0 := upd_next h y NULL) in *.
  assert (C0 : changes h h0 l) by (by apply changes_upd_next).
  destruct D as (N & Z0 & _). apply NoDup_cons in N as [Nh N].
  replace (get_next h0 hd) with (Some (first_of l hd))
    by (unfold h0; rewrite get_next_upd_next, decide_False by set_solver; done).
  cbn [mbind option_bind]. change (replicate (Z.to_nat (MAX_LIST_LENGTH_BITS + 1)) NULL) with (replicate 21 NULL).
  destruct (insert_loop_spec l N l (S (size h0)) h0 (replicate 21 NULL) (replicate 21 []) 0 (first_of l hd))
    as (h1 & part & parts & max & E1 & Hs & C1); [rewrite (changes_size _ _ _ C0); lia|apply sorting_start|done|].
  change (Z.of_nat 0) with 0 in E1. rewrite E1. cbn [mbind option_bind]. rewrite Nat2Z.id.
  destruct (sorting_nodup _ _ _ _ _ _ N Hs) as [N1 HL]. destruct (sorting_end _ _ _ _ _ Hs) as (la & Hla & Sla & St).
  pose proof Hs as [H1 H2 H3 H4 H5 H6 H7].
  destruct (final_loop_spec max max h1 part parts 0 NULL []) as (h2 & list' & E2 & Sl2 & Hp2 & C2); [lia|lia|done|done|done|].
  change (Z.of_nat 0) with 0 in E2. rewrite E2. cbn [mbind option_bind]. clear E1 E2.
  rewrite drop_0 in *. rewrite (drop_S _ _ _ Hla) in Hp2. inversion Hp2 as [|p ? tl ? Hpa _ Eq]; subst.
  rewrite aget_nat, <-(Nat.add_0_r max), <-lookup_drop, <-Eq.
  cbn [lookup list_lookup mbind option_bind]. rewrite ?Nat.add_0_r.
  pose proof (carried_stable (take max parts) [] ltac:(by apply Forall_take) ltac:(constructor)) as [Pc _].
  pose proof (merge_Permutation R la (carried [] (take max parts))) as Pm. pose proof St as [Ps _]. rewrite Pm in Ps.
  destruct (merge_and_restore_spec h2 hd p list' la (carried [] (take max parts))) as (h3 & -> & D3 & C3).
  - done.
  - done.
  - rewrite Ps. by apply NoDup_cons.
  - apply C2, C1, C0. done.
  - done.
  - intros E. rewrite E in Ps. by apply Permutation_nil_l in Ps.
  - exists h3, (list_merge R la (carried [] (take max parts))). split_and!; [done..| |done|].
    + apply Sorted_list_merge; [exact cmp_total|done|]. apply carried_sorted; [by apply Forall_take|constructor].
    + eapply changes_trans; [eapply changes_mono; [exact C0|set_solver]|].
      eapply changes_trans; [eapply changes_mono; [exact C1|set_solver]|].
      eapply changes_trans; [eapply changes_mono; [exact C2|]|eapply changes_mono; [exact C3|]].
      * intros x Hx. rewrite app_nil_r in *. right. apply HL. rewrite <-(take_drop max parts), concat_app. set_solver.
      * intros x. by rewrite Ps.
Qed.
End list_sort.

(** C40: [list_sort] turns a circular list into one of the same nodes that is
    sorted by the comparison function and in which nodes that compare equal
    keep their order; all links, forward and backward, are restored, no other
    object changes, and no null pointer is followed, for lists of any length
    (the levels beyond the twentieth included).  The comparison must be a total
    preorder. *)
Theorem list_sort_stable cmp h head l :
  (forall a b, cmp a b <= 0 \/ cmp b a <= 0) ->
  (forall a b c, cmp a b <= 0 -> cmp b c <= 0 -> cmp a c <= 0) ->
  dll h head l ->
  exists h' l', list_sort cmp h head = Some h' /\ dll h' head l' /\
    l' ≡ₚ l /\ Sorted (fun a b => cmp a b <= 0) l' /\
    (forall x, filter (fun y => cmp x y <= 0 /\ cmp y x <= 0) l' = filter (fun y => cmp x y <= 0 /\ cmp y x <= 0) l) /\
    (forall x, x ∉ head :: l -> h' !! x = h !! x).
Proof.
  intros Htot Htr D. destruct (list_sort_spec cmp Htot Htr h head l D) as (h' & l' & E & D' & S & [P F] & [C _]).
  by exists h', l'.
Qed.

(** A list of five nodes; the nodes 12 and 22 compare equal, as do 11 and 21. *)
Definition sort_example : heap := list_to_map
  [(100, mk_node 22 21); (22, mk_node 13 100); (13, mk_node 12 22); (12, mk_node 11 13); (11, mk_node 21 12); (21, mk_node 100 11)].

Lemma list_sort_stable_witness :
  exists h' l', list_sort (fun a b => a mod 10 - b mod 10) sort_example 100 = Some h' /\ dll h' 100 l' /\
    l' ≡ₚ [22; 13; 12; 11; 21].
Proof.
  destruct (list_sort_stable (fun a b => a mod 10 - b mod 10) sort_example 100 [22; 13; 12; 11; 21])
    as (h' & l' & E & D & P & _).
  - intros a b. lia.
  - intros a b c. lia.
  - split_and!; [apply (bool_decide_unpack _); vm_compute; done|apply (bool_decide_unpack _); vm_compute; done|].
    cbn. repeat split; vm_compute; reflexivity.
  - exists h', l'. split; [exact E|split; [exact D|exact P]].
Defined.

(** The result on the example, node by node. *)
Lemma list_sort_example_order :
  (h ← list_sort (fun a b => a mod 10 - b mod 10) sort_example 100;
   list_for_each (fun h v p => Some (h, v ++ [p])) h [] 100) ≫= (fun r => Some (snd r)) = Some [11; 21; 22; 12; 13].
Proof. vm_compute. reflexivity. Qed.
