(* ===== verification/Image.v ===== *)
(** * Image: legacy images ([common/image.c], [include/image.h], and
      [image_get_kernel] of [common/bootm.c])

    An image is 64 bytes of header, its words in network byte order, and the
    payload.  Images are bytes in the memory of [CString]; the local copy of a
    header is the list of its bytes.  Reading a byte that is not there gives
    [None]. *)
From stdpp Require Import gmap.
From Stdlib Require Import String.
From S2P Require Import Prelude CString Hashtable Crc EnvFlags Numbers Lmb Environment.
#[local] Open Scope Z_scope.

(** ** Byte order *)

Definition ___swab32 (x : Z) : Z :=
  Z.lor (u32 (Z.shiftl (Z.land x 0x000000ff) 24))
    (Z.lor (u32 (Z.shiftl (Z.land x 0x0000ff00) 8))
      (Z.lor (Z.shiftr (Z.land x 0x00ff0000) 8) (Z.shiftr (Z.land x 0xff000000) 24))).

Definition uimage_to_cpu (x : Z) : Z := ___swab32 x.
Definition cpu_to_uimage (x : Z) : Z := ___swab32 x.

(** ** Header *)

Definition IH_MAGIC : Z := 0x27051956.
Definition IH_NMLEN : Z := 32.
Definition IH_OS_LINUX : Z := 5.
Definition IH_ARCH_DEFAULT : Z := 2.
Definition IH_TYPE_KERNEL : Z := 2.
Definition IH_TYPE_RAMDISK : Z := 3.
Definition IH_TYPE_MULTI : Z := 4.
Definition IH_TYPE_SCRIPT : Z := 6.
Definition CHUNKSZ : Z := 64 * 1024.
Definition CHUNKSZ_CRC32 : Z := 64 * 1024.

(** [struct image_header]: the offsets of its fields. *)
Inductive word_field := ih_magic | ih_hcrc | ih_time | ih_size | ih_load | ih_ep | ih_dcrc.
Inductive byte_field := ih_os | ih_arch | ih_type | ih_comp.

Definition word_offset (f : word_field) : Z :=
  match f with
  | ih_magic => 0 | ih_hcrc => 4 | ih_time => 8 | ih_size => 12 | ih_load => 16 | ih_ep => 20 | ih_dcrc => 24
  end.
Definition byte_offset (f : byte_field) : Z :=
  match f with ih_os => 28 | ih_arch => 29 | ih_type => 30 | ih_comp => 31 end.

Definition image_get_header_size : Z := 64.

Definition image_get_hdr_l (f : word_field) (m : mem) (hdr : Z) : option Z :=
  w ← load_word 4 m (hdr + word_offset f); Some (uimage_to_cpu w).
Definition image_get_hdr_b (f : byte_field) (m : mem) (hdr : Z) : option Z := load m (hdr + byte_offset f).

Definition image_get_magic := image_get_hdr_l ih_magic.
Definition image_get_hcrc := image_get_hdr_l ih_hcrc.
Definition image_get_size := image_get_hdr_l ih_size.
Definition image_get_load := image_get_hdr_l ih_load.
Definition image_get_ep := image_get_hdr_l ih_ep.
Definition image_get_dcrc := image_get_hdr_l ih_dcrc.
Definition image_get_os := image_get_hdr_b ih_os.
Definition image_get_arch := image_get_hdr_b ih_arch.
Definition image_get_type := image_get_hdr_b ih_type.
Definition image_get_comp := image_get_hdr_b ih_comp.

Definition image_get_data_size (m : mem) (hdr : Z) : option Z := image_get_size m hdr.
Definition image_get_data (hdr : Z) : Z := u32 (hdr + image_get_header_size).
Definition image_get_image_size (m : mem) (hdr : Z) : option Z :=
  s ← image_get_size m hdr; Some (u32 (s + image_get_header_size)).
Definition image_get_image_end (m : mem) (hdr : Z) : option Z :=
  s ← image_get_image_size m hdr; Some (u32 (hdr + s)).

(** Setters, on the bytes of a header. *)
Definition word_bytes (w : Z) : list Z := [u8 w; u8 (Z.shiftr w 8); u8 (Z.shiftr w 16); u8 (Z.shiftr w 24)].
Definition put_bytes (header : list Z) (off : Z) (l : list Z) : list Z :=
  take (Z.to_nat off) header ++ l ++ drop (Z.to_nat off + length l) header.
Definition image_set_hdr_l (f : word_field) (header : list Z) (val : Z) : list Z :=
  put_bytes header (word_offset f) (word_bytes (cpu_to_uimage val)).
Definition image_set_hdr_b (f : byte_field) (header : list Z) (val : Z) : list Z :=
  put_bytes header (byte_offset f) [val].
Definition image_set_hcrc := image_set_hdr_l ih_hcrc.

Definition image_check_magic (m : mem) (hdr : Z) : option bool := v ← image_get_magic m hdr; Some (v =? IH_MAGIC).
Definition image_check_type (m : mem) (hdr type : Z) : option bool := v ← image_get_type m hdr; Some (v =? type).
Definition image_check_arch (m : mem) (hdr arch : Z) : option bool := v ← image_get_arch m hdr; Some (v =? arch).
Definition image_check_os (m : mem) (hdr os : Z) : option bool := v ← image_get_os m hdr; Some (v =? os).
Definition image_check_target_arch (m : mem) (hdr : Z) : option bool := image_check_arch m hdr IH_ARCH_DEFAULT.

(** ** Checksums *)

(** The [n] bytes at [a]. *)
Fixpoint read_bytes (n : nat) (m : mem) (a : Z) : option (list Z) :=
  match n with
  | O => Some []
  | S n => x ← load m a; l ← read_bytes n m (a + 1); Some (x :: l)
  end.

(** [sp] is the address of the local variable [header]. *)
Definition image_check_hcrc (sp : Z) (m : mem) (hdr : Z) : option bool :=
  header ← read_bytes (Z.to_nat image_get_header_size) m hdr;
  let header := image_set_hcrc header 0 in
  let hcrc := crc32 sp 0 header in
  v ← image_get_hcrc m hdr;
  Some (hcrc =? v).

Definition image_check_dcrc (watchdog : bool) (m : mem) (hdr : Z) : option bool :=
  let data := image_get_data hdr in
  len ← image_get_data_size m hdr;
  buf ← read_bytes (Z.to_nat len) m data;
  dcrc ← crc32_wd watchdog data 0 buf CHUNKSZ_CRC32;
  v ← image_get_dcrc m hdr;
  Some (dcrc =? v).

(** ** Images of several components *)

(** [for (i = 0; size[i]; ++i) count++;] *)
Fixpoint count_loop (fuel : nat) (m : mem) (size i count : Z) : option Z :=
  match fuel with
  | O => None
  | S fuel =>
      s ← load_word 4 m (size + 4 * i);
      if negb (s =? 0) then count_loop fuel m size (u32 (i + 1)) (u32 (count + 1)) else Some count
  end.

Definition image_multi_count (m : mem) (hdr : Z) : option Z :=
  count_loop (str_fuel m) m (image_get_data hdr) 0 0.

(** [for (i = 0; i < idx; i++) offset += ...;] *)
Fixpoint offset_loop (n : nat) (m : mem) (size i offset : Z) : option Z :=
  match n with
  | O => Some offset
  | S n =>
      s ← load_word 4 m (size + 4 * i);
      offset_loop n m size (i + 1) (u32 (offset + Z.land (u32 (uimage_to_cpu s + 3)) (u32 (Z.lnot 3))))
  end.

(** The values of [*data] and [*len]. *)
Definition image_multi_getimg (m : mem) (hdr idx : Z) : option (Z * Z) :=
  count ← image_multi_count m hdr;
  let size := image_get_data hdr in
  let img_data := u32 (image_get_data hdr + u32 (u32 (count + 1) * 4)) in
  if idx <? count then
    s ← load_word 4 m (size + 4 * idx);
    let len := uimage_to_cpu s in
    offset ← offset_loop (Z.to_nat idx) m size 0 0;
    Some (u32 (img_data + offset), len)
  else Some (0, 0).

(** What is printed is left out, what is read for it is not. *)
Fixpoint print_loop (n : nat) (m : mem) (hdr i : Z) : option unit :=
  match n with
  | O => Some tt
  | S n => '(data, len) ← image_multi_getimg m hdr i; print_loop n m hdr (i + 1)
  end.

Definition image_print_contents (m : mem) (hdr : Z) : option unit :=
  multi ← image_check_type m hdr IH_TYPE_MULTI;
  script ← image_check_type m hdr IH_TYPE_SCRIPT;
  if (multi : bool) || script then
    count ← image_multi_count m hdr;
    print_loop (Z.to_nat count) m hdr 0
  else Some tt.

(** ** Finding images *)

Section finding.
Context (sp : Z) (watchdog : bool).

(** The header when the image is valid, a null pointer otherwise. *)
Definition image_get_ramdisk (m : mem) (rd_addr arch : Z) (verify : bool) : option Z :=
  let rd_hdr := rd_addr in
  ok ← image_check_magic m rd_hdr;
  if negb ok then Some NULL else
  ok ← image_check_hcrc sp m rd_hdr;
  if negb ok then Some NULL else
  _ ← image_print_contents m rd_hdr;
  ok ← (if verify then image_check_dcrc watchdog m rd_hdr else Some true);
  if negb ok then Some NULL else
  os ← image_check_os m rd_hdr IH_OS_LINUX;
  if negb os then Some NULL else
  ar ← image_check_arch m rd_hdr arch;
  if negb ar then Some NULL else
  ty ← image_check_type m rd_hdr IH_TYPE_RAMDISK;
  if negb ty then Some NULL else
  Some rd_hdr.

Definition image_get_kernel (m : mem) (img_addr : Z) (verify : bool) : option Z :=
  let hdr := img_addr in
  ok ← image_check_magic m hdr;
  if negb ok then Some NULL else
  ok ← image_check_hcrc sp m hdr;
  if negb ok then Some NULL else
  _ ← image_print_contents m hdr;
  ok ← (if verify then image_check_dcrc watchdog m hdr else Some true);
  if negb ok then Some NULL else
  ok ← image_check_target_arch m hdr;
  if negb ok then Some NULL else
  Some hdr.
End finding.

(** ** Tables of names *)

Record table_entry := mk_tentry { t_id : Z; sname : option cstr; lname : cstr }.

Section tables.
Local Open Scope string_scope.
Local Definition te (id : Z) (s l : string) : table_entry := mk_tentry id (Some (str s)) (str l).
Local Definition te0 (id : Z) (l : string) : table_entry := mk_tentry id None (str l).

Definition uimage_arch : list table_entry :=
  [te0 0 "Invalid ARCH"; te 1 "alpha" "Alpha"; te 2 "arm" "ARM"; te 3 "x86" "Intel x86"; te 4 "ia64" "IA64";
   te 12 "m68k" "M68K"; te 14 "microblaze" "MicroBlaze"; te 5 "mips" "MIPS"; te 6 "mips64" "MIPS 64 Bit";
   te 15 "nios2" "NIOS II"; te 7 "powerpc" "PowerPC"; te 7 "ppc" "PowerPC"; te 8 "s390" "IBM S390";
   te 9 "sh" "SuperH"; te 10 "sparc" "SPARC"; te 11 "sparc64" "SPARC 64 Bit"; te 16 "blackfin" "Blackfin";
   te 17 "avr32" "AVR32"; te 20 "nds32" "NDS32"; te 21 "or1k" "OpenRISC 1000"; te 19 "sandbox" "Sandbox";
   te 22 "arm64" "AArch64"; te 23 "arc" "ARC"; te 24 "x86_64" "AMD x86_64"; te (-1) "" ""].

(** Without [CONFIG_CMD_ELF], [CONFIG_LYNXKDI], [CONFIG_INTEGRITY] and
    [CONFIG_BOOTM_OPENRTOS]. *)
Definition uimage_os : list table_entry :=
  [te0 0 "Invalid OS"; te 5 "linux" "Linux"; te 2 "netbsd" "NetBSD"; te 22 "ose" "Enea OSE";
   te 23 "plan9" "Plan 9"; te 18 "rtems" "RTEMS"; te 17 "u-boot" "U-Boot"; te 14 "vxworks" "VxWorks";
   te (-1) "" ""].

Definition uimage_type : list table_entry :=
  [te 13 "aisimage" "Davinci AIS image"; te 7 "filesystem" "Filesystem Image"; te 5 "firmware" "Firmware";
   te 8 "flat_dt" "Flat Device Tree"; te 17 "gpimage" "TI Keystone SPL Image"; te 2 "kernel" "Kernel Image";
   te 14 "kernel_noload" "Kernel Image (no loading done)"; te 9 "kwbimage" "Kirkwood Boot Image";
   te 10 "imximage" "Freescale i.MX Boot Image"; te0 0 "Invalid Image"; te 4 "multi" "Multi-File Image";
   te 12 "omapimage" "TI OMAP SPL With GP CH"; te 15 "pblimage" "Freescale PBL Boot Image";
   te 3 "ramdisk" "RAMDisk Image"; te 6 "script" "Script"; te 19 "socfpgaimage" "Altera SOCFPGA preloader";
   te 1 "standalone" "Standalone Program"; te 11 "ublimage" "Davinci UBL image";
   te 16 "mxsimage" "Freescale MXS Boot Image"; te 18 "atmelimage" "ATMEL ROM-Boot Image";
   te 20 "x86_setup" "x86 setup.bin"; te 21 "lpc32xximage" "LPC32XX Boot Image"; te (-1) "" ""].

Definition uimage_comp : list table_entry :=
  [te 0 "none" "uncompressed"; te 2 "bzip2" "bzip2 compressed"; te 1 "gzip" "gzip compressed";
   te 3 "lzma" "lzma compressed"; te 4 "lzo" "lzo compressed"; te (-1) "" ""].
End tables.

(** The walk ends at the first negative id; a table without one is left. *)
Fixpoint get_table_entry_name (table : list table_entry) (msg : cstr) (id : Z) : option cstr :=
  match table with
  | [] => None
  | t :: table =>
      if t_id t >=? 0 then
        if t_id t =? id then Some (lname t) else get_table_entry_name table msg id
      else Some msg
  end.

Fixpoint get_table_entry_id (table : list table_entry) (name : cstr) : option Z :=
  match table with
  | [] => None
  | t :: table =>
      if t_id t >=? 0 then
        match sname t with
        | Some s => if strcmp_l s name =? 0 then Some (t_id t) else get_table_entry_id table name
        | None => get_table_entry_id table name
        end
      else Some (-1)
  end.

Definition genimg_get_os_name (os : Z) : option cstr := get_table_entry_name uimage_os (str "Unknown OS") os.
Definition genimg_get_arch_name (arch : Z) : option cstr :=
  get_table_entry_name uimage_arch (str "Unknown Architecture") arch.
Definition genimg_get_type_name (type : Z) : option cstr := get_table_entry_name uimage_type (str "Unknown Image") type.
Definition genimg_get_comp_name (comp : Z) : option cstr :=
  get_table_entry_name uimage_comp (str "Unknown Compression") comp.
Definition genimg_get_os_id (name : cstr) : option Z := get_table_entry_id uimage_os name.
Definition genimg_get_arch_id (name : cstr) : option Z := get_table_entry_id uimage_arch name.
Definition genimg_get_type_id (name : cstr) : option Z := get_table_entry_id uimage_type name.
Definition genimg_get_comp_id (name : cstr) : option Z := get_table_entry_id uimage_comp name.

(** ** Moving in chunks *)

(** [while (len > 0) ...] of [memmove_wd]. *)
Fixpoint move_chunks (fuel : nat) (m : mem) (to from len chunksz : Z) : option mem :=
  match fuel with
  | O => None
  | S fuel =>
      if len >? 0 then
        let tail := if len >? chunksz then chunksz else len in
        let '(to, from) := if to >? from then (to - tail, from - tail) else (to, from) in
        '(_, m) ← memmove m to from tail;
        let '(to, from) := if to <? from then (to + tail, from + tail) else (to, from) in
        move_chunks fuel m to from (len - tail) chunksz
      else Some m
  end.

Definition memmove_wd (watchdog : bool) (m : mem) (to from len chunksz : Z) : option mem :=
  if to =? from then Some m
  else if watchdog then
    let '(to, from) := if to >? from then (to + len, from + len) else (to, from) in
    move_chunks (S (Z.to_nat len)) m to from len chunksz
  else '(_, m) ← memmove m to from len; Some m.

(** ** Words in network byte order *)

#[local] Ltac Zify.zify_post_hook ::= Z.to_euclidean_division_equations.

Definition be32 (v : Z) : list Z := [u8 (Z.shiftr v 24); u8 (Z.shiftr v 16); u8 (Z.shiftr v 8); u8 v].

Lemma land_field x k : 0 <= k -> Z.land x (Z.shiftl 255 k) = Z.shiftl (Z.shiftr x k mod 2 ^ 8) k.
Proof.
  intros Hk. rewrite <-Z.land_ones by lia. apply Z.bits_inj'. intros i Hi.
  rewrite Z.land_spec, !Z.shiftl_spec by lia. destruct (Z.ltb_spec i k).
  - rewrite !(Z.testbit_neg_r _ (i - k)) by lia. apply andb_false_r.
  - rewrite Z.land_spec, Z.shiftr_spec by lia. by replace (i - k + k) with i by lia.
Qed.

Lemma swab32_bytes b0 b1 b2 b3 : byte_ok b0 -> byte_ok b1 -> byte_ok b2 -> byte_ok b3 ->
  ___swab32 (b0 + 256 * (b1 + 256 * (b2 + 256 * b3))) = b3 + 256 * (b2 + 256 * (b1 + 256 * b0)).
Proof.
  unfold byte_ok. intros H0 H1 H2 H3. unfold ___swab32.
  change 0x000000ff with (Z.shiftl 255 0). change 0x0000ff00 with (Z.shiftl 255 8).
  change 0x00ff0000 with (Z.shiftl 255 16). change 0xff000000 with (Z.shiftl 255 24).
  rewrite !land_field, !Z.shiftr_div_pow2, !Z.shiftl_mul_pow2 by lia.
  set (w := b0 + 256 * (b1 + 256 * (b2 + 256 * b3))).
  assert (E0 : w / 2 ^ 0 mod 2 ^ 8 = b0) by (unfold w; rewrite Z.div_1_r; lia).
  assert (E1 : w / 2 ^ 8 mod 2 ^ 8 = b1) by (unfold w; lia).
  assert (E2 : w / 2 ^ 16 mod 2 ^ 8 = b2) by (unfold w; lia).
  assert (E3 : w / 2 ^ 24 mod 2 ^ 8 = b3) by (unfold w; lia).
  rewrite E0, E1, E2, E3. rewrite !u32_small by lia.
  replace (b2 * 2 ^ 16 / 2 ^ 8) with (b2 * 2 ^ 8) by lia. replace (b3 * 2 ^ 24 / 2 ^ 24) with b3 by lia.
  rewrite (lor_low b2) by lia.
  replace (b1 * 2 ^ 8 * 2 ^ 8) with (b1 * 2 ^ 16) by lia. rewrite (lor_low b1) by lia.
  replace (b0 * 2 ^ 0 * 2 ^ 24) with (b0 * 2 ^ 24) by lia. rewrite (lor_low b0) by lia. lia.
Qed.

Lemma be32_ok v : Forall byte_ok (be32 v).
Proof. repeat constructor; unfold u8, byte_ok; lia. Qed.

Lemma be32_value v : 0 <= v < 2 ^ 32 ->
  u8 v + 256 * (u8 (Z.shiftr v 8) + 256 * (u8 (Z.shiftr v 16) + 256 * u8 (Z.shiftr v 24))) = v.
Proof. intros Hv. unfold u8. rewrite !Z.shiftr_div_pow2 by lia. lia. Qed.

(** A word stored in network byte order is read back. *)
Lemma load_be32 m a v : bytes_at m a (be32 v) -> 0 <= v < 2 ^ 32 ->
  exists w, load_word 4 m a = Some w /\ uimage_to_cpu w = v /\ (w = 0 <-> v = 0).
Proof.
  intros (H0 & H1 & H2 & H3 & _) Hv. unfold load_word, load. rewrite H0, H1, H2, H3. cbn [mbind option_bind].
  eexists. split; [done|]. pose proof (be32_value v Hv) as E. pose proof (be32_ok v) as F.
  inversion_clear F as [|? ? F0 F']; inversion_clear F' as [|? ? F1 F'']; inversion_clear F'' as [|? ? F2 F3'].
  inversion_clear F3' as [|? ? F3 _]. rewrite Z.mul_0_r, Z.add_0_r. unfold uimage_to_cpu.
  rewrite swab32_bytes by done. split; [lia|]. unfold byte_ok in *. lia.
Qed.

Lemma word_bytes_cpu v : 0 <= v < 2 ^ 32 -> word_bytes (cpu_to_uimage v) = be32 v.
Proof.
  intros Hv. unfold cpu_to_uimage. rewrite <-(be32_value v Hv) at 1. pose proof (be32_ok v) as F.
  inversion_clear F as [|? ? F0 F']; inversion_clear F' as [|? ? F1 F'']; inversion_clear F'' as [|? ? F2 F3'].
  inversion_clear F3' as [|? ? F3 _]. rewrite swab32_bytes by done. unfold word_bytes, be32.
  revert F0 F1 F2 F3. generalize (u8 v), (u8 (Z.shiftr v 8)), (u8 (Z.shiftr v 16)), (u8 (Z.shiftr v 24)).
  clear. intros b0 b1 b2 b3. unfold byte_ok, u8. intros. rewrite !Z.shiftr_div_pow2 by lia. repeat f_equal; lia.
Qed.

(** ** The format of an image *)

Record header := mk_header {
  h_magic : Z; h_hcrc : Z; h_time : Z; h_size : Z; h_load : Z; h_ep : Z; h_dcrc : Z;
  h_os : Z; h_arch : Z; h_type : Z; h_comp : Z; h_name : list Z }.

Definition encode (f : header) : list Z :=
  be32 (h_magic f) ++ be32 (h_hcrc f) ++ be32 (h_time f) ++ be32 (h_size f) ++ be32 (h_load f) ++
  be32 (h_ep f) ++ be32 (h_dcrc f) ++ [h_os f; h_arch f; h_type f; h_comp f] ++ h_name f.

Definition word_ok (v : Z) : Prop := 0 <= v < 2 ^ 32.
Definition header_ok (f : header) : Prop :=
  Forall word_ok [h_magic f; h_hcrc f; h_time f; h_size f; h_load f; h_ep f; h_dcrc f] /\
  Forall byte_ok ([h_os f; h_arch f; h_type f; h_comp f] ++ h_name f) /\ length (h_name f) = 32%nat.

Definition clear_hcrc (f : header) : header :=
  mk_header (h_magic f) 0 (h_time f) (h_size f) (h_load f) (h_ep f) (h_dcrc f)
    (h_os f) (h_arch f) (h_type f) (h_comp f) (h_name f).

(** The header [f] and the payload [data] are stored at [a]. *)
Record image_at (m : mem) (a : Z) (f : header) (data : list Z) : Prop := {
  ia_bytes : bytes_at m a (encode f ++ data);
  ia_header : header_ok f;
  ia_size : h_size f = Z.of_nat (length data);
  ia_data : Forall byte_ok data;
  ia_addr : 0 < a /\ a + 64 + Z.of_nat (length data) < 2 ^ 32 }.

Lemma encode_length f : header_ok f -> length (encode f) = 64%nat.
Proof. intros (_ & _ & H). unfold encode. rewrite !length_app, H. done. Qed.

Lemma encode_ok f : header_ok f -> Forall byte_ok (encode f).
Proof. intros (_ & H & _). unfold encode. rewrite !Forall_app in *. split_and!; try apply be32_ok; tauto. Qed.

Definition h_word (f : header) (w : word_field) : Z :=
  match w with
  | ih_magic => h_magic f | ih_hcrc => h_hcrc f | ih_time => h_time f | ih_size => h_size f
  | ih_load => h_load f | ih_ep => h_ep f | ih_dcrc => h_dcrc f
  end.
Definition h_byte (f : header) (b : byte_field) : Z :=
  match b with ih_os => h_os f | ih_arch => h_arch f | ih_type => h_type f | ih_comp => h_comp f end.

Lemma bytes_at_slice m a l k n : bytes_at m a l -> (k <= length l)%nat -> bytes_at m (a + Z.of_nat k) (take n (drop k l)).
Proof.
  intros H Hk. rewrite <-(take_drop k l) in H. apply bytes_at_app in H as [_ H].
  rewrite length_take_le in H by done. by apply bytes_at_take.
Qed.

(** The fields of a header in memory. *)
Lemma header_word m a f w : bytes_at m a (encode f) -> header_ok f -> image_get_hdr_l w m a = Some (h_word f w).
Proof.
  intros Hb Hok. pose proof (encode_length f Hok) as Hl. destruct Hok as (Hw & _). rewrite !List.Forall_cons_iff in Hw.
  assert (Hs : bytes_at m (a + word_offset w) (be32 (h_word f w))).
  { pose proof (bytes_at_slice m a _ (Z.to_nat (word_offset w)) 4 Hb) as H.
    destruct w; apply H; cbn; lia. }
  destruct (load_be32 m _ _ Hs) as (v & E1 & E2 & _); [destruct w; unfold word_ok in *; tauto|].
  unfold image_get_hdr_l. rewrite E1. cbn [mbind option_bind]. by rewrite E2.
Qed.

Lemma header_byte m a f b : bytes_at m a (encode f) -> image_get_hdr_b b m a = Some (h_byte f b).
Proof.
  intros Hb. unfold image_get_hdr_b, load.
  pose proof (bytes_at_lookup m a _ (Z.to_nat (byte_offset b)) (h_byte f b) Hb) as H.
  destruct b; apply H; reflexivity.
Qed.

Lemma image_get_word m a f data w : image_at m a f data -> image_get_hdr_l w m a = Some (h_word f w).
Proof. intros [Hb Hok _ _ _]. apply bytes_at_app in Hb as [Hb _]. by apply header_word. Qed.

Lemma image_get_byte m a f data b : image_at m a f data -> image_get_hdr_b b m a = Some (h_byte f b).
Proof. intros [Hb _ _ _ _]. apply bytes_at_app in Hb as [Hb _]. by apply header_byte. Qed.

(** ** Verification *)

(** CRC-32 of a sequence of bytes. *)
Definition crc32_of (l : list Z) : Z := Z.lxor (crc32_reference 0xffffffff l) 0xffffffff.

Lemma crc32_std addr l : Forall byte_ok l -> crc32 addr 0 l = crc32_of l.
Proof. intros H. unfold crc32, crc32_of. by rewrite crc32_no_comp_reference. Qed.

Lemma crc32_wd_std watchdog addr l chunk : Forall byte_ok l -> 0 < chunk -> crc32_wd watchdog addr 0 l chunk = Some (crc32_of l).
Proof.
  intros H Hc. unfold crc32_wd. destruct watchdog; [|by rewrite crc32_std].
  rewrite crc32_chunks_spec by (done || lia). destruct l as [|x l]; [done|]. zcase; [|cbn in *; lia]. by rewrite crc32_std.
Qed.

Lemma read_bytes_at m a l : bytes_at m a l -> read_bytes (length l) m a = Some l.
Proof.
  revert a. induction l as [|x l IH]; intros a; cbn; [done|]. intros [H1 H2]. unfold load. rewrite H1. cbn [mbind option_bind].
  by rewrite (IH _ H2).
Qed.

Lemma set_hcrc_encode f : image_set_hcrc (encode f) 0 = encode (clear_hcrc f).
Proof. reflexivity. Qed.

Lemma clear_hcrc_ok f : header_ok f -> header_ok (clear_hcrc f).
Proof. intros (H1 & H2 & H3). split; [|done]. rewrite !List.Forall_cons_iff in *. cbn. unfold word_ok in *. intuition lia. Qed.

Lemma check_hcrc_spec sp m a f data : image_at m a f data ->
  image_check_hcrc sp m a = Some (crc32_of (encode (clear_hcrc f)) =? h_hcrc f).
Proof.
  intros I. unfold image_check_hcrc, image_get_hcrc. rewrite (image_get_word _ _ _ _ ih_hcrc I). destruct I as [Hb Hok _ _ _].
  apply bytes_at_app in Hb as [Hb _]. apply read_bytes_at in Hb. rewrite (encode_length f Hok) in Hb.
  change (Z.to_nat image_get_header_size) with 64%nat. rewrite Hb. cbn [mbind option_bind].
  rewrite set_hcrc_encode, crc32_std by (by apply encode_ok, clear_hcrc_ok). done.
Qed.

Lemma check_dcrc_spec watchdog m a f data : image_at m a f data ->
  image_check_dcrc watchdog m a = Some (crc32_of data =? h_dcrc f).
Proof.
  intros I. unfold image_check_dcrc, image_get_dcrc, image_get_data_size, image_get_size.
  rewrite (image_get_word _ _ _ _ ih_size I), (image_get_word _ _ _ _ ih_dcrc I). destruct I as [Hb Hok Hs Hd Ha].
  cbn [mbind option_bind h_word]. rewrite Hs, Nat2Z.id. apply bytes_at_app in Hb as [_ Hb].
  rewrite (encode_length f Hok) in Hb. change (Z.of_nat 64) with 64 in Hb.
  unfold image_get_data, image_get_header_size. rewrite u32_small by lia. rewrite (read_bytes_at _ _ _ Hb). cbn [mbind option_bind].
  by rewrite crc32_wd_std.
Qed.

(** ** The format of images of several components *)

Definition round4 (n : Z) : Z := 4 * ((n + 3) / 4).
Definition pad4 (c : list Z) : list Z := c ++ replicate (Z.to_nat (round4 (Z.of_nat (length c)) - Z.of_nat (length c))) 0.

Definition sizes_table (comps : list (list Z)) : list Z :=
  concat (map (fun c => be32 (Z.of_nat (length c))) comps) ++ be32 0.

(** All components but the last are padded to a multiple of four bytes. *)
Fixpoint layout (comps : list (list Z)) : list Z :=
  match comps with
  | [] => []
  | c :: [] => c
  | c :: comps => pad4 c ++ layout comps
  end.

Definition multi_payload (comps : list (list Z)) : list Z := sizes_table comps ++ layout comps.

Lemma pad4_length c : Z.of_nat (length (pad4 c)) = round4 (Z.of_nat (length c)).
Proof. unfold pad4, round4. rewrite length_app, length_replicate. lia. Qed.

Lemma land_round4 s : 0 <= s -> s + 3 < 2 ^ 32 -> Z.land (u32 (s + 3)) (u32 (Z.lnot 3)) = round4 s.
Proof.
  intros H1 H2. rewrite u32_small by lia. change (u32 (Z.lnot 3)) with (Z.shiftl (Z.ones 30) 2).
  transitivity (Z.shiftl (Z.shiftr (s + 3) 2) 2).
  - apply Z.bits_inj'. intros i Hi. rewrite Z.land_spec, !Z.shiftl_spec by lia. destruct (Z.ltb_spec i 2).
    { rewrite !(Z.testbit_neg_r _ (i - 2)) by lia. apply andb_false_r. }
    rewrite Z.shiftr_spec by lia. replace (i - 2 + 2) with i by lia.
    destruct (Z.ltb_spec i 32); [rewrite Z.ones_spec_low by lia; apply andb_true_r|].
    rewrite (bits_above 32 (s + 3) i) by lia. done.
  - rewrite Z.shiftl_mul_pow2, Z.shiftr_div_pow2 by lia. unfold round4. lia.
Qed.

Lemma layout_lookup comps : forall i c, comps !! i = Some c ->
  exists rest, layout comps = concat (map pad4 (take i comps)) ++ c ++ rest.
Proof.
  induction comps as [|c0 comps IH]; intros i c Hi; [done|]. destruct i as [|i]; cbn in Hi.
  - injection Hi as <-. destruct comps as [|c1 comps].
    + exists []. cbn. by rewrite app_nil_r.
    + eexists. cbn [take map concat app layout]. unfold pad4 at 1. rewrite <-(assoc_L (++)). done.
  - destruct (IH i c Hi) as [rest E]. exists rest. cbn [take map concat]. rewrite <-(assoc_L (++)), <-E.
    by destruct comps.
Qed.

Lemma sizes_length comps : length (sizes_table comps) = (4 * (length comps + 1))%nat.
Proof. unfold sizes_table. rewrite length_app. induction comps as [|c comps IH]; [done|]. cbn in *. lia. Qed.

Definition sizes_ok (comps : list (list Z)) : Prop := Forall (fun c => c <> [] /\ Z.of_nat (length c) < 2 ^ 32) comps.

Lemma count_loop_spec m comps : forall fuel size i count, sizes_ok comps ->
  bytes_at m (size + 4 * i) (sizes_table comps) -> (length comps < fuel)%nat ->
  0 <= i -> 0 <= count -> i + Z.of_nat (length comps) < 2 ^ 32 -> count + Z.of_nat (length comps) < 2 ^ 32 ->
  count_loop fuel m size i count = Some (count + Z.of_nat (length comps)).
Proof.
  induction comps as [|c comps IH]; intros fuel size i count Hok Hb Hf H1 H2 H3 H4; (destruct fuel as [|fuel]; [lia|]); cbn [count_loop].
  - destruct (load_be32 m (size + 4 * i) 0 Hb) as (w & -> & _ & Hz); [lia|]. cbn [mbind option_bind].
    rewrite (proj2 Hz eq_refl). cbn. f_equal. lia.
  - inversion_clear Hok as [|? ? [Hc Hl] Hok']. unfold sizes_table in Hb. cbn [map concat] in Hb. rewrite <-(assoc_L (++)) in Hb.
    apply bytes_at_app in Hb as [Hb1 Hb2].
    destruct (load_be32 m _ _ Hb1) as (w & -> & _ & Hz); [lia|]. cbn [mbind option_bind].
    rewrite (proj2 (Z.eqb_neq w 0)) by (destruct c; [done|cbn in *; lia]). cbn [negb]. cbn [length] in *.
    rewrite !u32_small by lia. rewrite IH; [f_equal; lia|done| |lia..].
    change (Z.of_nat (length (be32 _))) with 4 in Hb2. by replace (size + 4 * (i + 1)) with (size + 4 * i + 4) by lia.
Qed.

(** The size of component [i], as a word of the table. *)
Lemma sizes_word m size comps i c : sizes_ok comps -> bytes_at m size (sizes_table comps) -> comps !! i = Some c ->
  exists w, load_word 4 m (size + 4 * Z.of_nat i) = Some w /\ uimage_to_cpu w = Z.of_nat (length c).
Proof.
  intros Hok Hb Hi. assert (Hc : Z.of_nat (length c) < 2 ^ 32) by (exact (proj2 (proj1 (Forall_lookup _ _) Hok i c Hi))).
  revert size i Hb Hi. induction comps as [|c0 comps IH]; intros size i Hb Hi; [done|].
  unfold sizes_table in Hb. cbn [map concat] in Hb. rewrite <-(assoc_L (++)) in Hb. apply bytes_at_app in Hb as [Hb1 Hb2].
  destruct i as [|i]; cbn in Hi.
  - injection Hi as ->. rewrite Z.add_0_r. destruct (load_be32 m _ _ Hb1) as (w & ? & ? & _); [lia|eauto].
  - inversion_clear Hok. destruct (IH H0 (size + 4) i) as (w & E1 & E2); [done|done|].
    exists w. split; [|done]. rewrite <-E1. f_equal. lia.
Qed.

Definition comp_offset (comps : list (list Z)) (i : nat) : Z := Z.of_nat (length (concat (map pad4 (take i comps)))).

Lemma comp_offset_S comps i c : comps !! i = Some c -> comp_offset comps (S i) = comp_offset comps i + round4 (Z.of_nat (length c)).
Proof.
  intros Hi. unfold comp_offset. rewrite (take_S_r _ _ _ Hi), map_app, concat_app, length_app. cbn. rewrite app_nil_r, <-pad4_length. lia.
Qed.

Lemma comp_offset_mono comps i j : (i <= j)%nat -> comp_offset comps i <= comp_offset comps j.
Proof.
  intros H. unfold comp_offset. rewrite <-(take_drop i (take j comps)), take_take, Nat.min_l by done.
  rewrite map_app, concat_app, length_app. lia.
Qed.

Lemma offset_loop_spec m size comps n : forall i off, sizes_ok comps -> bytes_at m size (sizes_table comps) ->
  (i + n <= length comps)%nat -> off = comp_offset comps i -> comp_offset comps (i + n) + 3 < 2 ^ 32 ->
  offset_loop n m size (Z.of_nat i) off = Some (comp_offset comps (i + n)).
Proof.
  induction n as [|n IH]; intros i off Hok Hb Hn -> Hlt; cbn [offset_loop]; [by rewrite Nat.add_0_r|].
  destruct (lookup_lt_is_Some_2 comps i) as [c Hc]; [lia|].
  destruct (sizes_word m size comps i c Hok Hb Hc) as (w & -> & Ew). cbn [mbind option_bind]. rewrite Ew.
  replace (i + S n)%nat with (S i + n)%nat in * by lia.
  pose proof (comp_offset_mono comps (S i) (S i + n) ltac:(lia)) as Hmono.
  pose proof (comp_offset_S comps i c Hc) as E. assert (0 <= comp_offset comps i) by (unfold comp_offset; lia).
  rewrite land_round4 by (unfold round4 in *; lia).
  replace (Z.of_nat i + 1) with (Z.of_nat (S i)) by lia. apply IH; [done..|lia| |done].
  rewrite u32_small by (unfold round4 in *; lia). lia.
Qed.

(** The table and the components of the payload. *)
Lemma multi_at m a f comps : image_at m a f (multi_payload comps) ->
  bytes_at m (a + 64) (sizes_table comps) /\
  bytes_at m (a + 64 + 4 * (Z.of_nat (length comps) + 1)) (layout comps).
Proof.
  intros [Hb Hok _ _ _]. apply bytes_at_app in Hb as [_ Hb]. rewrite (encode_length f Hok) in Hb.
  unfold multi_payload in Hb. apply bytes_at_app in Hb as [H1 H2]. split; [done|]. rewrite sizes_length in H2.
  by replace (a + 64 + 4 * (Z.of_nat (length comps) + 1)) with (a + Z.of_nat 64 + Z.of_nat (4 * (length comps + 1))) by lia.
Qed.

Lemma multi_length comps : length (multi_payload comps) = (4 * (length comps + 1) + length (layout comps))%nat.
Proof. unfold multi_payload. by rewrite length_app, sizes_length. Qed.

Lemma sizes_ok_intro m a f comps : image_at m a f (multi_payload comps) -> Forall (fun c => c <> []) comps -> sizes_ok comps.
Proof.
  intros [_ _ _ _ Ha] H. apply Forall_lookup. intros i c Hi. split; [exact (proj1 (Forall_lookup _ _) H i c Hi)|].
  destruct (layout_lookup comps i c Hi) as [rest E]. rewrite multi_length, E, !length_app in Ha. lia.
Qed.

Lemma multi_count_spec m a f comps : image_at m a f (multi_payload comps) -> Forall (fun c => c <> []) comps ->
  image_multi_count m a = Some (Z.of_nat (length comps)).
Proof.
  intros I H. pose proof (sizes_ok_intro _ _ _ _ I H) as Hok. destruct (multi_at _ _ _ _ I) as [H1 _].
  destruct I as [_ _ _ _ Ha]. rewrite multi_length in Ha. unfold image_multi_count, image_get_data, image_get_header_size.
  rewrite u32_small by lia. pose proof (bytes_at_size _ _ _ H1) as Hs. rewrite sizes_length in Hs.
  rewrite (count_loop_spec m comps) by (rewrite ?Z.mul_0_r, ?Z.add_0_r; unfold str_fuel; (done || lia)). f_equal.
Qed.

Lemma multi_getimg_in m a f comps i c : image_at m a f (multi_payload comps) -> Forall (fun c => c <> []) comps ->
  comps !! i = Some c ->
  exists d, image_multi_getimg m a (Z.of_nat i) = Some (d, Z.of_nat (length c)) /\ bytes_at m d c /\
    a + 64 <= d /\ d + Z.of_nat (length c) <= a + 64 + Z.of_nat (length (multi_payload comps)).
Proof.
  intros I H Hi. pose proof (sizes_ok_intro _ _ _ _ I H) as Hok. destruct (multi_at _ _ _ _ I) as [H1 H2].
  unfold image_multi_getimg. rewrite (multi_count_spec _ _ _ _ I H). cbn [mbind option_bind].
  pose proof (lookup_lt_Some _ _ _ Hi) as Hlt. rewrite (proj2 (Z.ltb_lt _ _)) by lia.
  destruct (layout_lookup comps i c Hi) as [rest El].
  destruct I as [_ _ _ _ Ha]. rewrite multi_length, El, !length_app in Ha. fold (comp_offset comps i) in *.
  assert (Hc : c <> []) by (exact (proj1 (Forall_lookup _ _) H i c Hi)).
  assert (Ho : comp_offset comps i = Z.of_nat (length (concat (map pad4 (take i comps))))) by done.
  unfold image_get_data, image_get_header_size. rewrite !(u32_small (a + 64)) by lia.
  destruct (sizes_word m (a + 64) comps i c Hok H1 Hi) as (w & -> & Ew). cbn [mbind option_bind].
  rewrite Nat2Z.id. pose proof (offset_loop_spec m (a + 64) comps i 0 0 Hok H1) as Eo. change (Z.of_nat 0) with 0 in Eo. cbn [Nat.add] in Eo.
  rewrite Eo by (rewrite ?Ho; (done || lia)). cbn [mbind option_bind]. rewrite Ew.
  eexists. split; [done|]. rewrite El in H2. apply bytes_at_app in H2 as [_ H2]. apply bytes_at_app in H2 as [H2 _].
  rewrite Ho, (u32_small (Z.of_nat (length comps) + 1)), (u32_small ((Z.of_nat (length comps) + 1) * 4)) by lia.
  rewrite (u32_small (a + 64 + _)) by lia. rewrite u32_small by lia.
  rewrite multi_length, El, !length_app. split; [|lia].
  by replace (a + 64 + (Z.of_nat (length comps) + 1) * 4 + Z.of_nat (length (concat (map pad4 (take i comps)))))
    with (a + 64 + 4 * (Z.of_nat (length comps) + 1) + Z.of_nat (length (concat (map pad4 (take i comps))))) by lia.
Qed.

Lemma multi_getimg_out m a f comps i : image_at m a f (multi_payload comps) -> Forall (fun c => c <> []) comps ->
  Z.of_nat (length comps) <= i -> image_multi_getimg m a i = Some (0, 0).
Proof.
  intros I H Hi. unfold image_multi_getimg. rewrite (multi_count_spec _ _ _ _ I H). cbn [mbind option_bind].
  by rewrite (proj2 (Z.ltb_ge _ _)).
Qed.

(** ** Moving in chunks moves the whole *)

(** Two moves, the second not reading what the first wrote. *)
Lemma copied_chunks m m1 m2 d s n d' s' n' :
  copied m m1 d s n -> copied m1 m2 d' s' n' -> 0 <= n -> 0 <= n' -> d' - s' = d - s ->
  (d' = d + n /\ d <= s) \/ (d = d' + n' /\ s <= d) ->
  copied m m2 (Z.min d d') (Z.min s s') (n + n').
Proof.
  intros H1 H2 Hn Hn' Hd Hc a. rewrite H2.
  destruct Hc as [[-> Hds] | [-> Hds]].
  - rewrite !Z.min_l by lia. rewrite !H1. fold (in_range (d + n) n' a) (in_range d (n + n') a) (in_range d n a).
    fold (in_range d n (s' + (a - (d + n)))). ranges; f_equal; lia.
  - rewrite !Z.min_r by lia. rewrite !H1. fold (in_range d' n' a) (in_range d' (n + n') a) (in_range (d' + n') n a).
    fold (in_range (d' + n') n (s' + (a - d'))). ranges; f_equal; lia.
Qed.

Lemma move_chunks_up fuel : forall m to from len chunksz,
  to < from -> 0 <= len -> 0 < chunksz -> (Z.to_nat len < fuel)%nat -> allocated m to len -> allocated m from len ->
  exists m', move_chunks fuel m to from len chunksz = Some m' /\ copied m m' to from len.
Proof.
  induction fuel as [|fuel IH]; intros m to from len chunksz Hd Hl Hc Hf Ht Hs; [lia|]. cbn [move_chunks].
  rewrite !(Z.gtb_ltb _ _). zcase.
  2: { assert (len = 0) as -> by lia. exists m. split; [done|]. intros a. fold (in_range to 0 a). ranges; done. }
  set (tail := if chunksz <? len then _ else _). assert (Htail : 0 < tail <= len) by (unfold tail; zcase; lia).
  rewrite (proj2 (Z.ltb_ge _ _)), (proj2 (Z.ltb_lt _ _)) by lia.
  destruct (memmove_spec m to from tail) as (m1 & -> & C1); [lia|intros a Ha; apply Hs; lia|intros a Ha; apply Ht; lia|].
  cbn [mbind option_bind].
  assert (A1 : allocated m from tail) by (intros a Ha; apply Hs; lia).
  destruct (IH m1 (to + tail) (from + tail) (len - tail) chunksz) as (m2 & -> & C2); [lia..| | |].
  - apply (copied_alloc m m1 to from tail); [done..|]. intros a Ha. apply Ht. lia.
  - apply (copied_alloc m m1 to from tail); [done..|]. intros a Ha. apply Hs. lia.
  - exists m2. split; [done|]. pose proof (copied_chunks _ _ _ _ _ _ _ _ _ C1 C2) as C.
    rewrite !Z.min_l in C by lia. replace len with (tail + (len - tail)) by lia. apply C; lia.
Qed.

Lemma move_chunks_down fuel : forall m to from len chunksz,
  from < to -> 0 <= len -> 0 < chunksz -> (Z.to_nat len < fuel)%nat ->
  allocated m (to - len) len -> allocated m (from - len) len ->
  exists m', move_chunks fuel m to from len chunksz = Some m' /\ copied m m' (to - len) (from - len) len.
Proof.
  induction fuel as [|fuel IH]; intros m to from len chunksz Hd Hl Hc Hf Ht Hs; [lia|]. cbn [move_chunks].
  rewrite !(Z.gtb_ltb _ _). zcase.
  2: { assert (len = 0) as -> by lia. exists m. split; [done|]. intros a. fold (in_range (to - 0) 0 a). ranges; done. }
  set (tail := if chunksz <? len then _ else _). assert (Htail : 0 < tail <= len) by (unfold tail; zcase; lia).
  rewrite (proj2 (Z.ltb_lt _ _)) by lia.
  assert (A1 : allocated m (from - tail) tail) by (intros a Ha; apply Hs; lia).
  destruct (memmove_spec m (to - tail) (from - tail) tail) as (m1 & -> & C1); [lia|done|intros a Ha; apply Ht; lia|].
  cbn [mbind option_bind]. rewrite (proj2 (Z.ltb_ge _ _)) by lia.
  destruct (IH m1 (to - tail) (from - tail) (len - tail) chunksz) as (m2 & -> & C2); [lia..| | |].
  - apply (copied_alloc m m1 (to - tail) (from - tail) tail); [done..|]. intros a Ha. apply Ht. lia.
  - apply (copied_alloc m m1 (to - tail) (from - tail) tail); [done..|]. intros a Ha. apply Hs. lia.
  - exists m2. split; [done|]. pose proof (copied_chunks _ _ _ _ _ _ _ _ _ C1 C2) as C.
    rewrite !Z.min_r in C by lia. replace (to - len) with (to - tail - (len - tail)) by lia.
    replace (from - len) with (from - tail - (len - tail)) by lia. replace len with (tail + (len - tail)) at 3 by lia. apply C; lia.
Qed.

Lemma memmove_wd_spec watchdog m to from len chunksz : 0 <= len -> 0 < chunksz -> allocated m to len -> allocated m from len ->
  exists m', memmove_wd watchdog m to from len chunksz = Some m' /\ copied m m' to from len.
Proof.
  intros Hl Hc Ht Hs. unfold memmove_wd. zcase.
  { subst. exists m. split; [done|apply copied_refl]. }
  destruct watchdog.
  - rewrite Z.gtb_ltb. destruct (Z.ltb_spec from to).
    + destruct (move_chunks_down (S (Z.to_nat len)) m (to + len) (from + len) len chunksz) as (m' & E & C); [lia..| | |].
      * by replace (to + len - len) with to by lia.
      * by replace (from + len - len) with from by lia.
      * exists m'. split; [done|]. by replace (to + len - len) with to in C by lia; replace (from + len - len) with from in C by lia.
    + apply move_chunks_up; (done || lia).
  - destruct (memmove_spec m to from len) as (m' & -> & C); [done..|]. by exists m'.
Qed.

(** ** Finding images *)

(** What is listed for a multi-component or script image is there. *)
Definition listed (f : header) (data : list Z) : Prop :=
  h_type f = IH_TYPE_MULTI \/ h_type f = IH_TYPE_SCRIPT ->
  exists comps, data = multi_payload comps /\ Forall (fun c => c <> []) comps.

Lemma print_loop_spec m a f comps : image_at m a f (multi_payload comps) -> Forall (fun c => c <> []) comps ->
  forall n i, (i + n <= length comps)%nat -> print_loop n m a (Z.of_nat i) = Some tt.
Proof.
  intros I H. induction n as [|n IH]; intros i Hi; cbn [print_loop]; [done|].
  destruct (lookup_lt_is_Some_2 comps i) as [c Hc]; [lia|].
  destruct (multi_getimg_in _ _ _ _ _ _ I H Hc) as (d & -> & _). cbn [mbind option_bind].
  replace (Z.of_nat i + 1) with (Z.of_nat (S i)) by lia. apply IH. lia.
Qed.

Lemma print_contents_spec m a f data : image_at m a f data -> listed f data -> image_print_contents m a = Some tt.
Proof.
  intros I L. unfold image_print_contents, image_check_type, image_get_type. rewrite (image_get_byte _ _ _ _ ih_type I).
  cbn [mbind option_bind h_byte]. destruct (_ || _) eqn:E; [|done].
  apply orb_true_iff in E. rewrite !Z.eqb_eq in E. destruct (L E) as (comps & -> & H).
  rewrite (multi_count_spec _ _ _ _ I H). cbn [mbind option_bind]. rewrite Nat2Z.id.
  by apply (print_loop_spec m a f comps I H (length comps) 0).
Qed.

(** Magic number and checksums. *)
Definition sealed (f : header) (data : list Z) (verify : bool) : bool :=
  (h_magic f =? IH_MAGIC) && (crc32_of (encode (clear_hcrc f)) =? h_hcrc f) &&
  (negb verify || (crc32_of data =? h_dcrc f)).

(** The checks that [image_get_kernel] and [image_get_ramdisk] begin with. *)
Lemma sealed_prefix sp watchdog m a f data (verify : bool) k : image_at m a f data -> listed f data ->
  (ok ← image_check_magic m a;
   if negb ok then Some NULL else
   ok ← image_check_hcrc sp m a;
   if negb ok then Some NULL else
   _ ← image_print_contents m a;
   ok ← (if verify then image_check_dcrc watchdog m a else Some true);
   if negb ok then Some NULL else k) = if sealed f data verify then k else Some NULL.
Proof.
  intros I L. unfold image_check_magic, image_get_magic, sealed. rewrite (image_get_word _ _ _ _ ih_magic I).
  cbn [mbind option_bind h_word]. destruct (h_magic f =? IH_MAGIC); [|done]. cbn [negb andb].
  rewrite (check_hcrc_spec _ _ _ _ _ I). cbn [mbind option_bind]. destruct (_ =? h_hcrc f); [|done]. cbn [negb andb].
  rewrite (print_contents_spec _ _ _ _ I L). cbn [mbind option_bind].
  destruct verify; [|done]. rewrite (check_dcrc_spec _ _ _ _ _ I). cbn [mbind option_bind negb orb].
  by destruct (_ =? h_dcrc f).
Qed.

Lemma image_get_kernel_spec sp watchdog m a f data verify : image_at m a f data -> listed f data ->
  image_get_kernel sp watchdog m a verify =
    Some (if sealed f data verify && (h_arch f =? IH_ARCH_DEFAULT) then a else NULL).
Proof.
  intros I L. unfold image_get_kernel. rewrite (sealed_prefix sp watchdog m a f data verify _ I L).
  destruct (sealed f data verify); [|done].
  unfold image_check_target_arch, image_check_arch, image_get_arch. rewrite (image_get_byte _ _ _ _ ih_arch I).
  cbn [mbind option_bind h_byte andb]. by destruct (h_arch f =? IH_ARCH_DEFAULT).
Qed.

Lemma image_get_ramdisk_spec sp watchdog m a f data arch verify : image_at m a f data -> listed f data ->
  image_get_ramdisk sp watchdog m a arch verify =
    Some (if sealed f data verify && (h_os f =? IH_OS_LINUX) && (h_arch f =? arch) && (h_type f =? IH_TYPE_RAMDISK)
          then a else NULL).
Proof.
  intros I L. unfold image_get_ramdisk. rewrite (sealed_prefix sp watchdog m a f data verify _ I L).
  destruct (sealed f data verify); [|done].
  unfold image_check_os, image_check_arch, image_check_type, image_get_os, image_get_arch, image_get_type.
  rewrite (image_get_byte _ _ _ _ ih_os I), (image_get_byte _ _ _ _ ih_arch I), (image_get_byte _ _ _ _ ih_type I).
  cbn [mbind option_bind h_byte andb].
  destruct (h_os f =? IH_OS_LINUX), (h_arch f =? arch), (h_type f =? IH_TYPE_RAMDISK); done.
Qed.

(** ** Tables *)

(** The entries before the end of a table. *)
Fixpoint entries (table : list table_entry) : list table_entry :=
  match table with
  | [] => []
  | t :: table => if t_id t >=? 0 then t :: entries table else []
  end.
Definition ended (table : list table_entry) : Prop := Exists (fun t => t_id t < 0) table.

Lemma get_name_spec table msg id : ended table ->
  get_table_entry_name table msg id =
    Some (match List.find (fun t => t_id t =? id) (entries table) with Some t => lname t | None => msg end).
Proof.
  induction table as [|t table IH]; intros H; [by inversion H|]. cbn. rewrite Z.geb_leb.
  destruct (Z.leb_spec 0 (t_id t)); [|done]. cbn. destruct (t_id t =? id); [done|]. apply IH. by inversion H; [lia|].
Qed.

Lemma get_id_spec table name : ended table -> Forall char_ok name ->
  Forall (fun t => match sname t with Some s => Forall char_ok s | None => True end) table ->
  get_table_entry_id table name =
    Some (match List.find (fun t => bool_decide (sname t = Some name)) (entries table) with Some t => t_id t | None => -1 end).
Proof.
  intros H Hn. induction table as [|t table IH]; intros Hs; [by inversion H|]. inversion_clear Hs as [|? ? Ht Hs'].
  cbn. rewrite Z.geb_leb. destruct (Z.leb_spec 0 (t_id t)); [|done]. cbn.
  assert (H' : ended table) by (by inversion H; [lia|]).
  destruct (sname t) as [s|]; [|rewrite bool_decide_eq_false_2 by done; by apply IH].
  destruct (Z.eqb_spec (strcmp_l s name) 0) as [E|E].
  - apply strcmp_l_eq in E as ->; [|done..]. by rewrite bool_decide_eq_true_2.
  - rewrite bool_decide_eq_false_2; [by apply IH|]. intros [= ->]. apply E. by apply strcmp_l_eq.
Qed.

(** ** The properties *)

(** an image of the legacy format is accepted as a kernel exactly when its
    magic number, the CRC-32 of its header (with the checksum field zero), on
    request that of its data, and its architecture are right, and as a ramdisk
    when also the operating system, the given architecture and the type are;
    otherwise the result is a null pointer.  The accessors find the payload and
    its end. *)
Theorem image_verification_correct sp watchdog m a f data arch verify :
  image_at m a f data -> listed f data ->
  image_get_kernel sp watchdog m a verify =
    Some (if sealed f data verify && (h_arch f =? IH_ARCH_DEFAULT) then a else NULL) /\
  image_get_ramdisk sp watchdog m a arch verify =
    Some (if sealed f data verify && (h_os f =? IH_OS_LINUX) && (h_arch f =? arch) && (h_type f =? IH_TYPE_RAMDISK)
          then a else NULL) /\
  bytes_at m (image_get_data a) data /\
  image_get_data_size m a = Some (Z.of_nat (length data)) /\
  image_get_image_end m a = Some (a + 64 + Z.of_nat (length data)).
Proof.
  intros I L. split; [by apply image_get_kernel_spec|]. split; [by apply image_get_ramdisk_spec|].
  unfold image_get_image_end, image_get_image_size, image_get_data_size, image_get_size, image_get_data, image_get_header_size.
  rewrite (image_get_word _ _ _ _ ih_size I). destruct I as [Hb Hok Hs _ Ha]. cbn [mbind option_bind h_word].
  rewrite Hs, !u32_small by (rewrite ?u32_small; lia). apply bytes_at_app in Hb as [_ Hb].
  rewrite (encode_length f Hok) in Hb. split_and!; [done..|f_equal; lia].
Qed.

(** the components of a multi-component image are found where the format
    puts them: with the table of sizes, its terminating zero and the components
    padded to four bytes, [image_multi_count] is their number and
    [image_multi_getimg] gives the address and the length of each, and zeros for
    an index out of range. *)
Theorem image_multi_roundtrip m a f comps :
  image_at m a f (multi_payload comps) -> Forall (fun c => c <> []) comps ->
  image_multi_count m a = Some (Z.of_nat (length comps)) /\
  (forall i c, comps !! i = Some c ->
     exists d, image_multi_getimg m a (Z.of_nat i) = Some (d, Z.of_nat (length c)) /\ bytes_at m d c) /\
  (forall i, Z.of_nat (length comps) <= i -> image_multi_getimg m a i = Some (0, 0)).
Proof.
  intros I H. split; [by eapply multi_count_spec|]. split.
  - intros i c Hi. destruct (multi_getimg_in _ _ _ _ _ _ I H Hi) as (d & ? & ? & _). by exists d.
  - intros i Hi. by eapply multi_getimg_out.
Qed.

(** [memmove_wd], which moves in chunks and from the right end when the areas
    may overlap, does what [memmove] does on the whole area, with and without a
    watchdog and for any size of the chunks. *)
Theorem memmove_wd_correct watchdog m to from len chunksz :
  0 <= len -> 0 < chunksz -> allocated m to len -> allocated m from len ->
  exists m', memmove_wd watchdog m to from len chunksz = Some m' /\ memmove m to from len = Some (to, m').
Proof.
  intros Hl Hc Ht Hs. destruct (memmove_wd_spec watchdog m to from len chunksz) as (m' & E & C); [done..|].
  destruct (memmove_spec m to from len) as (m2 & E2 & C2); [done..|]. exists m'. split; [done|]. rewrite E2. do 2 f_equal.
  apply map_eq. intros a. by rewrite C2, C.
Qed.

(** ** Examples *)

Definition mem_of (a : Z) (l : list Z) : mem := list_to_map (zip (seqZ a (Z.of_nat (length l))) l).

Lemma mem_of_bytes a l : bytes_at (mem_of a l) a l.
Proof.
  apply bytes_at_intro. intros i x Hi. unfold mem_of. apply elem_of_list_to_map_1.
  - rewrite fst_zip by (rewrite length_seqZ; lia). apply NoDup_seqZ.
  - apply list_elem_of_lookup. exists i. rewrite lookup_zip_Some. split; [|done].
    apply lookup_seqZ. pose proof (lookup_lt_Some _ _ _ Hi). lia.
Qed.

(** The header that the image tool writes for [data]. *)
Definition seal (f : header) (data : list Z) : header :=
  let f := mk_header IH_MAGIC 0 (h_time f) (Z.of_nat (length data)) (h_load f) (h_ep f) (crc32_of data)
             (h_os f) (h_arch f) (h_type f) (h_comp f) (h_name f) in
  mk_header (h_magic f) (crc32_of (encode f)) (h_time f) (h_size f) (h_load f) (h_ep f) (h_dcrc f)
    (h_os f) (h_arch f) (h_type f) (h_comp f) (h_name f).

Lemma seal_sealed f data verify : sealed (seal f data) data verify = true.
Proof. unfold sealed, seal, clear_hcrc. cbn [h_magic h_hcrc h_dcrc]. rewrite !Z.eqb_refl. by destruct verify. Qed.

Definition blank_header (type : Z) : header :=
  mk_header 0 0 0 0 0x10008000 0x10008000 0 IH_OS_LINUX IH_ARCH_DEFAULT type 0 (str "test" ++ replicate 28 0).

Definition ex_comps : list (list Z) := [[1; 2; 3; 4; 5]; [6; 7]].
Definition ex_multi : header := seal (blank_header IH_TYPE_MULTI) (multi_payload ex_comps).
Definition ex_mem : mem := mem_of 0x12000000 (encode ex_multi ++ multi_payload ex_comps).

Lemma ex_image_at : image_at ex_mem 0x12000000 ex_multi (multi_payload ex_comps).
Proof.
  split.
  - apply mem_of_bytes.
  - split; [|split; [|done]]; repeat constructor; vm_compute; congruence.
  - done.
  - repeat constructor; vm_compute; congruence.
  - vm_compute. split; congruence.
Defined.
Lemma ex_comps_ok : Forall (fun c : list Z => c <> []) ex_comps.
Proof. repeat constructor; discriminate. Defined.

Lemma image_verification_correct_witness :
  image_get_kernel 0x1000 false ex_mem 0x12000000 true = Some 0x12000000 /\
  image_get_ramdisk 0x1000 false ex_mem 0x12000000 2 true = Some NULL.
Proof.
  destruct (image_verification_correct 0x1000 false ex_mem 0x12000000 ex_multi (multi_payload ex_comps) 2 true ex_image_at)
    as (H1 & H2 & _).
  - intros _. exists ex_comps. split; [reflexivity|exact ex_comps_ok].
  - split; [rewrite H1; unfold ex_multi; rewrite seal_sealed; reflexivity|].
    rewrite H2. unfold ex_multi. rewrite seal_sealed. reflexivity.
Defined.

Lemma image_multi_roundtrip_witness :
  exists d, image_multi_getimg ex_mem 0x12000000 1 = Some (d, 2) /\ bytes_at ex_mem d [6; 7].
Proof.
  destruct (image_multi_roundtrip ex_mem 0x12000000 ex_multi ex_comps ex_image_at ex_comps_ok) as (_ & H & _).
  exact (H 1%nat [6; 7] eq_refl).
Defined.

Lemma memmove_wd_correct_witness :
  exists m', memmove_wd true (mem_of 100 [1; 2; 3; 4; 5; 6]) 101 100 5 2 = Some m' /\
    memmove (mem_of 100 [1; 2; 3; 4; 5; 6]) 101 100 5 = Some (101, m').
Proof.
  apply (memmove_wd_correct true (mem_of 100 [1; 2; 3; 4; 5; 6]) 101 100 5 2); [lia|lia|..].
  - intros a Ha. assert (a = 101 \/ a = 102 \/ a = 103 \/ a = 104 \/ a = 105) as Hc by lia.
    destruct Hc as [-> | [-> | [-> | [-> | ->]]]]; eexists; vm_compute; reflexivity.
  - intros a Ha. assert (a = 100 \/ a = 101 \/ a = 102 \/ a = 103 \/ a = 104) as Hc by lia.
    destruct Hc as [-> | [-> | [-> | [-> | ->]]]]; eexists; vm_compute; reflexivity.
Defined.

(** The table of sizes is listed before the data is verified: when the data of a
    multi-component image is damaged (here, its terminating zero), the walk
    leaves the image although the caller asked for verification. *)
Lemma image_listed_before_verified :
  let f := seal (blank_header IH_TYPE_MULTI) (be32 1 ++ be32 0 ++ [7]) in
  image_get_kernel 0x1000 false (mem_of 0x12000000 (encode f ++ be32 1 ++ be32 9 ++ [7])) 0x12000000 true = None.
Proof. vm_compute. reflexivity. Qed.

(** Every short name of the tables gives its code, and every code a long name. *)
Lemma genimg_tables :
  Forall (fun t => genimg_get_arch_id (default [] (sname t)) = Some (t_id t) \/ sname t = None) (entries uimage_arch) /\
  Forall (fun t => genimg_get_os_id (default [] (sname t)) = Some (t_id t) \/ sname t = None) (entries uimage_os) /\
  Forall (fun t => genimg_get_type_id (default [] (sname t)) = Some (t_id t) \/ sname t = None) (entries uimage_type) /\
  Forall (fun t => genimg_get_comp_id (default [] (sname t)) = Some (t_id t) \/ sname t = None) (entries uimage_comp) /\
  Forall (fun t => genimg_get_arch_name (t_id t) = Some (lname t)) (entries uimage_arch) /\
  Forall (fun t => genimg_get_os_name (t_id t) = Some (lname t)) (entries uimage_os) /\
  Forall (fun t => genimg_get_type_name (t_id t) = Some (lname t)) (entries uimage_type) /\
  Forall (fun t => genimg_get_comp_name (t_id t) = Some (lname t)) (entries uimage_comp).
Proof. split_and!; apply (bool_decide_unpack _); vm_compute; exact I. Qed.
