(* ===== verification/Bootm.v ===== *)
(** * Bootm: finding, loading and placing what is booted ([common/bootm.c],
      [common/image.c], [common/image-android.c])

    The stages of [bootm] up to the hand-over: the memory map for the images
    ([boot_start_lmb]), the kernel ([boot_get_kernel], [bootm_find_os]), its
    ramdisk ([boot_get_ramdisk]), loading ([bootm_load_os]) and moving the
    ramdisk out of the way ([boot_ramdisk_high]).  The configuration has legacy
    and Android images, raw ramdisks and device trees, and no FIT images.
    Memory is that of [CString], the environment that of [Environment], the
    map of free memory that of [Lmb]. *)
From stdpp Require Import gmap.
From Stdlib Require Import String.
From S2P Require Import Prelude CString Hashtable HashIO Crc EnvFlags Numbers Vsprintf Lmb Environment Image.
#[local] Open Scope Z_scope.

Definition IH_OS_VXWORKS : Z := 14.
Definition IH_ARCH_I386 : Z := 3.
Definition IH_ARCH_X86_64 : Z := 24.
Definition IH_TYPE_STANDALONE : Z := 1.
Definition IH_TYPE_KERNEL_NOLOAD : Z := 14.
Definition IH_COMP_NONE : Z := 0.
Definition IH_COMP_GZIP : Z := 1.
Definition IMAGE_FORMAT_INVALID : Z := 0.
Definition IMAGE_FORMAT_LEGACY : Z := 1.
Definition IMAGE_FORMAT_FIT : Z := 2.
Definition IMAGE_FORMAT_ANDROID : Z := 3.
Definition BOOTM_ERR_RESET : Z := -1.
Definition BOOTM_ERR_OVERLAP : Z := -2.
Definition BOOTM_ERR_UNIMPLEMENTED : Z := -3.
Definition CONFIG_SYS_BOOTM_LEN : Z := 0x1000000.
Definition CONFIG_SYS_SDRAM_BASE : Z := 0x10000000.
Definition ENOENT : Z := 2.

(** ** Formats *)

(** [fdt_magic] and the like: the words of a device tree header. *)
Definition fdt_get_header (off : Z) (m : mem) (fdt : Z) : option Z :=
  w ← load_word 4 m (fdt + off); Some (uimage_to_cpu w).
Definition FDT_MAGIC : Z := 0xd00dfeed.
Definition FDT_SW_MAGIC : Z := u32 (Z.lnot FDT_MAGIC).
Definition FDT_FIRST_SUPPORTED_VERSION : Z := 0x10.
Definition FDT_LAST_SUPPORTED_VERSION : Z := 0x11.
Definition FDT_ERR_BADMAGIC : Z := 9.
Definition FDT_ERR_BADVERSION : Z := 10.
Definition FDT_ERR_BADSTATE : Z := 7.

Definition fdt_check_header (m : mem) (fdt : Z) : option Z :=
  magic ← fdt_get_header 0 m fdt;
  if magic =? FDT_MAGIC then
    version ← fdt_get_header 20 m fdt;
    if version <? FDT_FIRST_SUPPORTED_VERSION then Some (- FDT_ERR_BADVERSION) else
    last ← fdt_get_header 24 m fdt;
    if last >? FDT_LAST_SUPPORTED_VERSION then Some (- FDT_ERR_BADVERSION) else Some 0
  else if magic =? FDT_SW_MAGIC then
    size ← fdt_get_header 36 m fdt;
    if size =? 0 then Some (- FDT_ERR_BADSTATE) else Some 0
  else Some (- FDT_ERR_BADMAGIC).

(** [memcmp(ANDR_BOOT_MAGIC, hdr->magic, 8)]: the difference of the first bytes
    that differ. *)
Fixpoint compare_magic (l : list Z) (m : mem) (a : Z) : option Z :=
  match l with
  | [] => Some 0
  | c :: l => x ← load m a; if c - x =? 0 then compare_magic l m (a + 1) else Some (c - x)
  end.
Definition android_image_check_header (m : mem) (hdr : Z) : option Z := compare_magic (str "ANDROID!") m hdr.

Definition genimg_get_format (m : mem) (img_addr : Z) : option Z :=
  legacy ← image_check_magic m img_addr;
  if (legacy : bool) then Some IMAGE_FORMAT_LEGACY else
  fdt ← fdt_check_header m img_addr;
  if fdt =? 0 then Some IMAGE_FORMAT_FIT else
  andr ← android_image_check_header m img_addr;
  if andr =? 0 then Some IMAGE_FORMAT_ANDROID else Some IMAGE_FORMAT_INVALID.

(** ** Android images

    [struct andr_img_hdr]; its words have the byte order of the processor. *)
Definition andr_word (off : Z) (m : mem) (hdr : Z) : option Z := load_word 4 m (hdr + off).
Definition kernel_size := andr_word 8.
Definition kernel_addr := andr_word 12.
Definition ramdisk_size := andr_word 16.
Definition second_size := andr_word 24.
Definition page_size := andr_word 36.
Definition ANDR_CMDLINE : Z := 64.
Definition ANDR_BOOT_ARGS_SIZE : Z := 512.

Definition android_image_get_end (m : mem) (hdr : Z) : option Z :=
  page ← page_size m hdr;
  k ← kernel_size m hdr;
  r ← ramdisk_size m hdr;
  s ← second_size m hdr;
  Some (u32 (u32 (u32 (u32 (hdr + page) + ALIGN k page) + ALIGN r page) + ALIGN s page)).

Definition android_image_get_kload (m : mem) (hdr : Z) : option Z := kernel_addr m hdr.

(** The return value, [*rd_data] and [*rd_len]. *)
Definition android_image_get_ramdisk (m : mem) (hdr : Z) (rd_data rd_len : Z) : option (Z * Z * Z) :=
  r ← ramdisk_size m hdr;
  if r =? 0 then Some (-1, rd_data, rd_len) else
  page ← page_size m hdr;
  k ← kernel_size m hdr;
  Some (0, u32 (u32 (hdr + page) + ALIGN k page), r).

Definition android_image_get_fdt (m : mem) (hdr : Z) (fdt_data fdt_len : Z) : option (Z * Z * Z) :=
  s ← second_size m hdr;
  if s =? 0 then Some (-1, fdt_data, fdt_len) else
  page ← page_size m hdr;
  k ← kernel_size m hdr;
  r ← ramdisk_size m hdr;
  Some (0, u32 (u32 (u32 (hdr + page) + ALIGN k page) + ALIGN r page), s).

(** The characters of the string at an address. *)
Fixpoint chars_at (fuel : nat) (m : mem) (a : Z) : option cstr :=
  match fuel with
  | O => None
  | S fuel => c ← load m a; if c =? 0 then Some [] else l ← chars_at fuel m (a + 1); Some (c :: l)
  end.

(** What the board and the code that is not modelled provide: the RAM, the stack
    pointer, the serial number in the fuses; the addresses of the local copy of
    a header, of [images.legacy_hdr_os_copy] and the contents of uninitialised
    locals; whether there is a watchdog; decompression ([dst], [dstlen], [src],
    [len], with the return value and the new length), [fdt_open_into] and the
    boot functions of the operating systems. *)
Class Board := {
  dram_start : Z;
  dram_size : Z;
  get_sp : Z;
  serial_high : Z;
  serial_low : Z;
  local_header : Z;
  copy_addr : Z;
  stack_data : Z;
  stack_len : Z;
  watchdog : bool;
  gunzip : mem -> Z -> Z -> Z -> Z -> option (Z * Z * mem);
  fdt_open_into : mem -> Z -> Z -> Z -> option (Z * mem) }.

Section boot.
Context {HH : EnvHooks} {BD : Board} (default_environment : list Z).

(** The return value, [*os_data], [*os_len] and the environment.  The command
    line is formatted into 512 bytes on the stack. *)
Definition android_image_get_kernel (m : mem) (gd : gdata) (hdr : Z) : option (Z * Z * Z * gdata) :=
  c ← load m (hdr + ANDR_CMDLINE);
  cmdline ← chars_at (str_fuel m) m (hdr + ANDR_CMDLINE);
  '(bootargs, gd) ← getenv default_environment gd (str "bootargs");
  let len := Z.of_nat (length cmdline) + Z.of_nat (length (default [] bootargs)) in
  if negb (malloc_ok (len + 2)) then Some (- ENOMEM, 0, 0, gd) else
  let newbootargs := match bootargs with Some b => b | None => if negb (c =? 0) then cmdline else [] end in
  serial ← render ∅ (str "%08x%08x") [word serial_high; word serial_low];
  let commandline := newbootargs ++ str " androidboot.serialno=" ++ serial in
  if Z.of_nat (length commandline) >=? ANDR_BOOT_ARGS_SIZE then None else
  '(_, gd) ← setenv gd (str "bootargs") (Some commandline);
  page ← page_size m hdr;
  k ← kernel_size m hdr;
  Some (0, u32 (hdr + page), k, gd).

(** ** The memory map *)

Definition getenv_bootm_low (gd : gdata) : option (Z * gdata) :=
  '(s, gd) ← getenv default_environment gd (str "bootm_low");
  Some (match s with Some s => fst (simple_strtoul s 16) | None => CONFIG_SYS_SDRAM_BASE end, gd).

Definition getenv_bootm_size (gd : gdata) : option (Z * gdata) :=
  '(s, gd) ← getenv default_environment gd (str "bootm_size");
  match s with
  | Some s => Some (u32 (fst (simple_strtoull s 16)), gd)
  | None =>
      '(s, gd) ← getenv default_environment gd (str "bootm_low");
      let tmp := match s with Some s => u32 (fst (simple_strtoull s 16)) | None => 0 end in
      Some (u32 (dram_size - tmp), gd)
  end.

Definition getenv_bootm_mapsize (gd : gdata) : option (Z * gdata) :=
  '(s, gd) ← getenv default_environment gd (str "bootm_mapsize");
  match s with
  | Some s => Some (u32 (fst (simple_strtoull s 16)), gd)
  | None => getenv_bootm_size gd
  end.

Definition arch_lmb_reserve (l : lmb) : option lmb :=
  let sp := u32 (get_sp - 4096) in
  '(_, l) ← lmb_reserve l sp (u32 (u32 (dram_start + dram_size) - sp));
  Some l.

Definition board_lmb_reserve (l : lmb) : lmb := l.

Definition boot_start_lmb (gd : gdata) (l : lmb) : option (lmb * gdata) :=
  l ← lmb_init l;
  '(mem_start, gd) ← getenv_bootm_low gd;
  '(mem_size, gd) ← getenv_bootm_size gd;
  '(_, l) ← lmb_add l mem_start mem_size;
  l ← arch_lmb_reserve l;
  Some (board_lmb_reserve l, gd).

(** The return value, [*initrd_start], [*initrd_end] and the state. *)
Definition boot_ramdisk_high (m : mem) (gd : gdata) (l : lmb) (rd_data rd_len initrd_end : Z) :
    option (Z * Z * Z * mem * gdata * lmb) :=
  '(s, gd) ← getenv default_environment gd (str "initrd_high");
  let '(initrd_high, initrd_copy_to_ram) :=
    match s with
    | Some s => let v := fst (simple_strtoul s 16) in (v, negb (v =? 0xffffffff))
    | None => (0xffffffff, true)
    end in
  if negb (rd_data =? 0) then
    if negb initrd_copy_to_ram then
      '(_, l) ← lmb_reserve l rd_data rd_len;
      Some (0, rd_data, u32 (rd_data + rd_len), m, gd, l)
    else
      '(initrd_start, l) ← (if negb (initrd_high =? 0) then lmb_alloc_base l rd_len 0x1000 initrd_high
                            else lmb_alloc l rd_len 0x1000);
      if initrd_start =? 0 then Some (-1, initrd_start, initrd_end, m, gd, l) else
      let initrd_end := u32 (initrd_start + rd_len) in
      m ← memmove_wd watchdog m initrd_start rd_data rd_len CHUNKSZ;
      Some (0, initrd_start, initrd_end, m, gd, l)
  else Some (0, 0, 0, m, gd, l).

(** ** The image structure *)

Record image_info := mk_info {
  i_start : Z; i_end : Z; image_start : Z; image_len : Z; i_load : Z; i_comp : Z; i_type : Z; i_os : Z; i_arch : Z }.

(** [bootm_headers_t]; the copy of the header is in memory at [copy_addr]. *)
Record bootm_headers := mk_images {
  legacy_hdr_os : Z; legacy_hdr_valid : Z; os : image_info; ep : Z; rd_start : Z; rd_end : Z;
  ft_addr : Z; ft_len : Z; initrd_start : Z; initrd_end : Z; verify : Z; state : Z; images_lmb : lmb }.

(** The memory, the environment and [images]. *)
Record bstate := mk_b { b_mem : mem; b_gd : gdata; images : bootm_headers }.

Definition set_legacy (hdr : Z) (i : bootm_headers) : bootm_headers :=
  mk_images hdr 1 (os i) (ep i) (rd_start i) (rd_end i) (ft_addr i) (ft_len i) (initrd_start i) (initrd_end i)
    (verify i) (state i) (images_lmb i).
Definition set_os (o : image_info) (e : Z) (i : bootm_headers) : bootm_headers :=
  mk_images (legacy_hdr_os i) (legacy_hdr_valid i) o e (rd_start i) (rd_end i) (ft_addr i) (ft_len i) (initrd_start i)
    (initrd_end i) (verify i) (state i) (images_lmb i).
Definition set_rd (s e : Z) (i : bootm_headers) : bootm_headers :=
  mk_images (legacy_hdr_os i) (legacy_hdr_valid i) (os i) (ep i) s e (ft_addr i) (ft_len i) (initrd_start i)
    (initrd_end i) (verify i) (state i) (images_lmb i).
Definition set_ft (a n : Z) (i : bootm_headers) : bootm_headers :=
  mk_images (legacy_hdr_os i) (legacy_hdr_valid i) (os i) (ep i) (rd_start i) (rd_end i) a n (initrd_start i)
    (initrd_end i) (verify i) (state i) (images_lmb i).
Definition set_initrd (s e : Z) (l : lmb) (i : bootm_headers) : bootm_headers :=
  mk_images (legacy_hdr_os i) (legacy_hdr_valid i) (os i) (ep i) (rd_start i) (rd_end i) (ft_addr i) (ft_len i) s e
    (verify i) (state i) l.
Definition set_lmb (l : lmb) (i : bootm_headers) : bootm_headers :=
  mk_images (legacy_hdr_os i) (legacy_hdr_valid i) (os i) (ep i) (rd_start i) (rd_end i) (ft_addr i) (ft_len i)
    (initrd_start i) (initrd_end i) (verify i) (state i) l.
Definition set_images_state (s : Z) (i : bootm_headers) : bootm_headers :=
  mk_images (legacy_hdr_os i) (legacy_hdr_valid i) (os i) (ep i) (rd_start i) (rd_end i) (ft_addr i) (ft_len i)
    (initrd_start i) (initrd_end i) (verify i) s (images_lmb i).

(** ** Starting *)

Definition BOOTM_STATE_START : Z := 0x1.
Definition BOOTM_STATE_FINDOS : Z := 0x2.
Definition BOOTM_STATE_FINDOTHER : Z := 0x4.
Definition BOOTM_STATE_LOADOS : Z := 0x8.
Definition BOOTM_STATE_RAMDISK : Z := 0x10.
Definition BOOTM_STATE_FDT : Z := 0x20.
Definition BOOTM_STATE_OS_CMDLINE : Z := 0x40.
Definition BOOTM_STATE_OS_BD_T : Z := 0x80.
Definition BOOTM_STATE_OS_PREP : Z := 0x100.
Definition BOOTM_STATE_OS_FAKE_GO : Z := 0x200.
Definition BOOTM_STATE_OS_GO : Z := 0x400.

Definition zero_region : lmb_region := mk_region 0 0 (replicate 9 (mk_prop 0 0)).
Definition zero_images : bootm_headers :=
  mk_images 0 0 (mk_info 0 0 0 0 0 0 0 0 0) 0 0 0 0 0 0 0 0 0 (mk_lmb zero_region zero_region).

Definition bootm_start (st : bstate) : option (Z * bstate) :=
  '(_, m) ← memset (b_mem st) copy_addr 0 image_get_header_size;
  '(v, gd) ← getenv_yesno default_environment (b_gd st) (str "verify");
  '(l, gd) ← boot_start_lmb gd (images_lmb zero_images);
  Some (0, mk_b m gd (mk_images 0 0 (os zero_images) 0 0 0 0 0 0 0 v BOOTM_STATE_START l)).

(** ** The kernel *)

(** [load_addr] after the callback of the variable [loadaddr]. *)
Definition on_loadaddr (load_addr : Z) (value : cstr) (op : env_op) : Z :=
  match op with
  | env_op_create | env_op_overwrite => fst (simple_strtoul value 16)
  | _ => load_addr
  end.

Definition genimg_get_kernel_addr_fit (load_addr : Z) (img_addr : option cstr) : Z :=
  match img_addr with
  | None => load_addr
  | Some s => fst (simple_strtoul s 16)
  end.
Definition genimg_get_kernel_addr := genimg_get_kernel_addr_fit.
Definition genimg_get_image (img_addr : Z) : Z := img_addr.
Definition genimg_has_config (i : bootm_headers) : bool := false.

(** The header or a null pointer, [*os_data], [*os_len] and the state. *)
Definition boot_get_kernel (load_addr : Z) (argv : list cstr) (st : bstate) : option (Z * Z * Z * bstate) :=
  let img_addr := genimg_get_image (genimg_get_kernel_addr_fit load_addr (head argv)) in
  let m := b_mem st in
  format ← genimg_get_format m img_addr;
  if format =? IMAGE_FORMAT_LEGACY then
    hdr ← image_get_kernel local_header watchdog m img_addr (negb (verify (images st) =? 0));
    if hdr =? NULL then Some (NULL, 0, 0, st) else
    type ← image_get_type m hdr;
    r ← (if (type =? IH_TYPE_KERNEL) || (type =? IH_TYPE_KERNEL_NOLOAD) || (type =? IH_TYPE_STANDALONE) then
           len ← image_get_data_size m hdr; Some (Some (image_get_data hdr, len))
         else if type =? IH_TYPE_MULTI then r ← image_multi_getimg m hdr 0; Some (Some r)
         else Some None);
    match r with
    | None => Some (NULL, 0, 0, st)
    | Some (os_data, os_len) =>
        '(_, m) ← memmove m copy_addr hdr image_get_header_size;
        Some (img_addr, os_data, os_len, mk_b m (b_gd st) (set_legacy hdr (images st)))
    end
  else if format =? IMAGE_FORMAT_ANDROID then
    '(ret, os_data, os_len, gd) ← android_image_get_kernel m (b_gd st) img_addr;
    let st := mk_b m gd (images st) in
    if negb (ret =? 0) then Some (NULL, os_data, os_len, st) else Some (img_addr, os_data, os_len, st)
  else Some (NULL, 0, 0, st).

(** What the format of the image says of the kernel: its description, the entry
    point and whether that was found. *)
Definition os_parameters (m : mem) (os_hdr format data len arch ep : Z) : option (option (image_info * Z * bool)) :=
  if format =? IMAGE_FORMAT_LEGACY then
    type ← image_get_type m os_hdr;
    comp ← image_get_comp m os_hdr;
    o ← image_get_os m os_hdr;
    e ← image_get_image_end m os_hdr;
    load ← image_get_load m os_hdr;
    arch ← image_get_arch m os_hdr;
    Some (Some (mk_info 0 e data len load comp type o arch, ep, false))
  else if format =? IMAGE_FORMAT_ANDROID then
    e ← android_image_get_end m os_hdr;
    load ← android_image_get_kload m os_hdr;
    Some (Some (mk_info 0 e data len load IH_COMP_NONE IH_TYPE_KERNEL IH_OS_LINUX arch, load, true))
  else Some None.

(** [boot_get_setup] without FIT support: the entry point stays as it is. *)
Definition boot_get_setup : Z := - ENOENT.

Definition with_span (o : image_info) (start load : Z) : image_info :=
  mk_info start (i_end o) (image_start o) (image_len o) load (i_comp o) (i_type o) (i_os o) (i_arch o).

Definition bootm_find_os (load_addr : Z) (argv : list cstr) (st : bstate) : option (Z * bstate) :=
  '(os_hdr, data, len, st) ← boot_get_kernel load_addr argv st;
  let o := os (images st) in
  let found := mk_info (i_start o) (i_end o) data len (i_load o) (i_comp o) (i_type o) (i_os o) (i_arch o) in
  let put o e := mk_b (b_mem st) (b_gd st) (set_os o e (images st)) in
  if len =? 0 then Some (1, put found (ep (images st))) else
  format ← genimg_get_format (b_mem st) os_hdr;
  r ← os_parameters (b_mem st) os_hdr format data len (i_arch o) (ep (images st));
  match r with
  | None => Some (1, put found (ep (images st)))
  | Some (o', e, ep_found) =>
      let o := with_span o' (i_start o) (i_load o') in
      e ← (if (i_arch o =? IH_ARCH_I386) || (i_arch o =? IH_ARCH_X86_64) then
             Some (if (boot_get_setup <? 0) && negb (boot_get_setup =? - ENOENT) then None else Some e)
           else if negb (legacy_hdr_valid (images st) =? 0) then
             e ← image_get_ep (b_mem st) copy_addr; Some (Some e)
           else Some (if negb (ep_found : bool) then None else Some e));
      match e with
      | None => Some (1, put o (if (ep_found : bool) then i_load o else ep (images st)))
      | Some e =>
          let '(load, e) := if i_type o =? IH_TYPE_KERNEL_NOLOAD then (image_start o, u32 (e + image_start o))
                            else (i_load o, e) in
          Some (0, put (with_span o os_hdr load) e)
      end
  end.

(** ** The ramdisk *)

(** What follows the first colon. *)
Fixpoint after_colon (s : cstr) : option cstr :=
  match s with
  | [] => None
  | c :: s => if c =? 58 then Some s else after_colon s
  end.

(** The return value, [*rd_start] and [*rd_end]. *)
Definition boot_get_ramdisk (m : mem) (argv : list cstr) (i : bootm_headers) (arch : Z) : option (Z * Z * Z) :=
  let found '(rd_data, rd_len) :=
    if rd_data =? 0 then (0, 0, 0) else (0, rd_data, u32 (rd_data + rd_len)) in
  match argv !! 1%nat with
  | Some select =>
      if strcmp_l select (str "-") =? 0 then Some (found (0, 0)) else
      let rd_addr := genimg_get_image (fst (simple_strtoul select 16)) in
      format ← genimg_get_format m rd_addr;
      if format =? IMAGE_FORMAT_LEGACY then
        rd_hdr ← image_get_ramdisk local_header watchdog m rd_addr arch (negb (verify i =? 0));
        if rd_hdr =? NULL then Some (1, 0, 0) else
        rd_len ← image_get_data_size m rd_hdr;
        _ ← image_get_load m rd_hdr;
        Some (found (image_get_data rd_hdr, rd_len))
      else
        match after_colon select with
        | Some size => Some (found (rd_addr, fst (simple_strtoul size 16)))
        | None => Some (1, 0, 0)
        end
  | None =>
      multi ← (if negb (legacy_hdr_valid i =? 0) then image_check_type m copy_addr IH_TYPE_MULTI else Some false);
      if (multi : bool) then r ← image_multi_getimg m (legacy_hdr_os i) 1; Some (found r) else
      format ← genimg_get_format m (i_start (os i));
      if format =? IMAGE_FORMAT_ANDROID then
        '(ret, rd_data, rd_len) ← android_image_get_ramdisk m (i_start (os i)) 0 0;
        Some (found (if ret =? 0 then (rd_data, rd_len) else (0, 0)))
      else Some (found (0, 0))
  end.

Definition IH_INITRD_ARCH : Z := IH_ARCH_DEFAULT.

Definition bootm_find_ramdisk (argv : list cstr) (st : bstate) : option (Z * bstate) :=
  '(ret, s, e) ← boot_get_ramdisk (b_mem st) argv (images st) IH_INITRD_ARCH;
  Some (if negb (ret =? 0) then 1 else 0, mk_b (b_mem st) (b_gd st) (set_rd s e (images st))).

(** ** The device tree *)

Definition IH_TYPE_FLATDT : Z := 8.
Definition CONFIG_SYS_FDT_PAD : Z := 0x3000.

Definition fdt_totalsize := fdt_get_header 4.
Definition fdt_off_mem_rsvmap := fdt_get_header 16.

(** Storing a word of a header. *)
Definition fdt_set_header (off : Z) (m : mem) (fdt val : Z) : option mem :=
  store_word 4 m (fdt + off) (cpu_to_uimage val).
Definition fdt_set_totalsize := fdt_set_header 4.

Definition __fswab64 (x : Z) : Z :=
  let h := Z.shiftr x 32 in
  let l := Z.land x (Z.shiftl 1 32 - 1) in
  Z.lor (Z.shiftl (___swab32 l) 32) (___swab32 h).
Definition fdt64_to_cpu (x : Z) : Z := __fswab64 x.

(** The address of an entry of the table of reserved memory. *)
Definition _fdt_mem_rsv (m : mem) (fdt n : Z) : option Z :=
  off ← fdt_off_mem_rsvmap m fdt; Some (fdt + off + 16 * n).

(** The return value, [*address] and [*size]. *)
Definition fdt_get_mem_rsv (m : mem) (fdt n : Z) (address size : Z) : option (Z * Z * Z) :=
  err ← fdt_check_header m fdt;
  if negb (err =? 0) then Some (err, address, size) else
  e ← _fdt_mem_rsv m fdt n;
  a ← load_word 8 m e;
  s ← load_word 8 m (e + 8);
  Some (0, fdt64_to_cpu a, fdt64_to_cpu s).

(** [while (fdt64_to_cpu(_fdt_mem_rsv(fdt, i)->size) != 0) i++;] *)
Fixpoint num_mem_rsv_loop (fuel : nat) (m : mem) (fdt i : Z) : option Z :=
  match fuel with
  | O => None
  | S fuel =>
      e ← _fdt_mem_rsv m fdt i;
      s ← load_word 8 m (e + 8);
      if negb (fdt64_to_cpu s =? 0) then num_mem_rsv_loop fuel m fdt (i + 1) else Some i
  end.
Definition fdt_num_mem_rsv (m : mem) (fdt : Z) : option Z := num_mem_rsv_loop (str_fuel m) m fdt 0.

(** [for (i = 0; i < total; i++)]; addresses are cut to 32 bits. *)
Fixpoint mem_rsv_loop (n : nat) (m : mem) (l : lmb) (fdt_blob i addr size : Z) : option lmb :=
  match n with
  | O => Some l
  | S n =>
      '(ret, addr, size) ← fdt_get_mem_rsv m fdt_blob i addr size;
      if negb (ret =? 0) then mem_rsv_loop n m l fdt_blob (i + 1) addr size else
      '(_, l) ← lmb_reserve l (u32 addr) (u32 size);
      mem_rsv_loop n m l fdt_blob (i + 1) addr size
  end.
Definition boot_fdt_add_mem_rsv_regions (m : mem) (l : lmb) (fdt_blob : Z) : option lmb :=
  ok ← fdt_check_header m fdt_blob;
  if negb (ok =? 0) then Some l else
  total ← fdt_num_mem_rsv m fdt_blob;
  mem_rsv_loop (Z.to_nat total) m l fdt_blob 0 stack_data stack_len.

Definition image_get_fdt (m : mem) (fdt_addr : Z) : option Z :=
  let fdt_hdr := fdt_addr in
  _ ← image_print_contents m fdt_hdr;
  ok ← image_check_hcrc local_header m fdt_hdr;
  if negb ok then Some NULL else
  ok ← image_check_dcrc watchdog m fdt_hdr;
  if negb ok then Some NULL else
  ok ← image_check_type m fdt_hdr IH_TYPE_FLATDT;
  if negb ok then Some NULL else
  comp ← image_get_comp m fdt_hdr;
  if negb (comp =? IH_COMP_NONE) then Some NULL else
  err ← fdt_check_header m (image_get_data fdt_hdr);
  if negb (err =? 0) then Some NULL else Some fdt_hdr.

(** Where the search ends: with a blob, or at one of the labels. *)
Inductive fdt_search := fdt_blob (a : Z) | no_fdt | fdt_error.

(** A blob of known length. *)
Definition fdt_of_len (m : mem) (fdt_data fdt_len : Z) : option fdt_search :=
  if fdt_len =? 0 then Some no_fdt else
  err ← fdt_check_header m fdt_data;
  if negb (err =? 0) then Some fdt_error else
  total ← fdt_totalsize m fdt_data;
  if negb (total =? fdt_len) then Some fdt_error else Some (fdt_blob fdt_data).

(** The case [IMAGE_FORMAT_LEGACY]: the blob is moved to its load address. *)
Definition fdt_legacy (m : mem) (fdt_addr : Z) : option (fdt_search * mem) :=
  fdt_hdr ← image_get_fdt m fdt_addr;
  if fdt_hdr =? NULL then Some (no_fdt, m) else
  let image_start := fdt_hdr in
  let image_data := image_get_data fdt_hdr in
  image_end ← image_get_image_end m fdt_hdr;
  load ← image_get_load m fdt_hdr;
  size ← image_get_data_size m fdt_hdr;
  let load_end := u32 (load + size) in
  if (load =? image_start) || (load =? image_data) then Some (fdt_blob load, m)
  else if (load <? image_end) && (load_end >? image_start) then Some (fdt_error, m)
  else '(_, m) ← memmove m load image_data size; Some (fdt_blob load, m).

Definition find_fdt (m : mem) (argv : list cstr) (i : bootm_headers) : option (fdt_search * mem) :=
  match argv !! 2%nat with
  | Some select =>
      let fdt_addr := genimg_get_image (fst (simple_strtoul select 16)) in
      format ← genimg_get_format m fdt_addr;
      if format =? IMAGE_FORMAT_LEGACY then fdt_legacy m fdt_addr
      else if format =? IMAGE_FORMAT_FIT then Some (fdt_blob fdt_addr, m)
      else Some (no_fdt, m)
  | None =>
      multi ← (if negb (legacy_hdr_valid i =? 0) then image_check_type m copy_addr IH_TYPE_MULTI else Some false);
      if (multi : bool) then
        '(fdt_data, fdt_len) ← image_multi_getimg m (legacy_hdr_os i) 2;
        r ← fdt_of_len m fdt_data fdt_len; Some (r, m)
      else
      format ← genimg_get_format m (i_start (os i));
      if format =? IMAGE_FORMAT_ANDROID then
        '(_, fdt_data, fdt_len) ← android_image_get_fdt m (i_start (os i)) stack_data stack_len;
        r ← fdt_of_len m fdt_data fdt_len; Some (r, m)
      else Some (no_fdt, m)
  end.

(** The return value, [*of_flat_tree], [*of_size] and the memory. *)
Definition boot_get_fdt (m : mem) (argv : list cstr) (i : bootm_headers) : option (Z * Z * Z * mem) :=
  '(r, m) ← find_fdt m argv i;
  match r with
  | fdt_blob a => size ← fdt_totalsize m a; Some (0, a, size, m)
  | no_fdt => Some (match argv !! 2%nat with None => 0 | Some _ => 1 end, 0, 0, m)
  | fdt_error => Some (1, 0, 0, m)
  end.

(** [set_working_fdt_addr]; [local] is the buffer of [simple_itoa]. *)
Definition set_working_fdt_addr (gd : gdata) (local : list Z) (addr : Z) : option gdata :=
  '(_, gd) ← setenv_ulong gd local (str "fdtaddr") addr; Some gd.

Definition bootm_find_fdt (local : list Z) (argv : list cstr) (st : bstate) : option (Z * bstate) :=
  '(ret, a, n, m) ← boot_get_fdt (b_mem st) argv (images st);
  let st := mk_b m (b_gd st) (set_ft a n (images st)) in
  if negb (ret =? 0) then Some (1, st) else
  gd ← set_working_fdt_addr (b_gd st) local a;
  Some (0, mk_b m gd (images st)).

Definition bootm_find_ramdisk_fdt (local : list Z) (argv : list cstr) (st : bstate) : option (Z * bstate) :=
  '(ret, st) ← bootm_find_ramdisk argv st;
  if negb (ret =? 0) then Some (1, st) else
  '(ret, st) ← bootm_find_fdt local argv st;
  if negb (ret =? 0) then Some (1, st) else Some (0, st).

Definition bootm_find_other (local : list Z) (argv : list cstr) (st : bstate) : option (Z * bstate) :=
  let o := os (images st) in
  if ((i_type o =? IH_TYPE_KERNEL) || (i_type o =? IH_TYPE_KERNEL_NOLOAD) || (i_type o =? IH_TYPE_MULTI)) &&
     ((i_os o =? IH_OS_LINUX) || (i_os o =? IH_OS_VXWORKS))
  then bootm_find_ramdisk_fdt local argv st
  else Some (0, st).

(** The return value, [*of_flat_tree], [*of_size] and the state. *)
Definition boot_relocate_fdt (local : list Z) (m : mem) (gd : gdata) (l : lmb) (of_flat_tree of_size : Z) :
    option (Z * Z * Z * mem * gdata * lmb) :=
  if of_size =? 0 then Some (0, of_flat_tree, of_size, m, gd, l) else
  err ← fdt_check_header m of_flat_tree;
  if negb (err =? 0) then Some (1, of_flat_tree, of_size, m, gd, l) else
  let of_len := u32 (of_size + CONFIG_SYS_FDT_PAD) in
  '(fdt_high, gd) ← getenv default_environment gd (str "fdt_high");
  '(of_start, disable_relocation, gd, l) ←
    match fdt_high with
    | Some s =>
        let desired_addr := fst (simple_strtoul s 16) in
        if desired_addr =? 0xffffffff then
          '(_, l) ← lmb_reserve l of_flat_tree of_len; Some (of_flat_tree, true, gd, l)
        else if negb (desired_addr =? 0) then
          '(a, l) ← lmb_alloc_base l of_len 0x1000 desired_addr; Some (a, false, gd, l)
        else '(a, l) ← lmb_alloc l of_len 0x1000; Some (a, false, gd, l)
    | None =>
        '(size, gd) ← getenv_bootm_mapsize gd;
        '(low, gd) ← getenv_bootm_low gd;
        '(a, l) ← lmb_alloc_base l of_len 0x1000 (u32 (size + low)); Some (a, false, gd, l)
    end;
  if of_start =? 0 then Some (1, of_flat_tree, of_size, m, gd, l) else
  '(err, m) ← (if (disable_relocation : bool) then m ← fdt_set_totalsize m of_start of_len; Some (0, m)
               else fdt_open_into m of_flat_tree of_start of_len);
  if negb (err =? 0) then Some (1, of_flat_tree, of_size, m, gd, l) else
  gd ← set_working_fdt_addr gd local of_start;
  Some (0, of_start, of_len, m, gd, l).

(** ** Loading *)

Definition handle_decomp_error : Z := BOOTM_ERR_RESET.

(** The return value, [*load_end] and the memory.  [load_buf] and [image_buf]
    are the addresses themselves. *)
Definition bootm_decomp_image (m : mem) (comp load image_start image_len unc_len : Z) : option (Z * Z * mem) :=
  r ← (if comp =? IH_COMP_NONE then
         if load =? image_start then Some (Some (0, image_len, m))
         else if image_len <=? unc_len then
           m ← memmove_wd watchdog m load image_start image_len CHUNKSZ; Some (Some (0, image_len, m))
         else Some (Some (1, image_len, m))
       else if comp =? IH_COMP_GZIP then r ← gunzip m load unc_len image_start image_len; Some (Some r)
       else Some None);
  match r with
  | None => Some (BOOTM_ERR_UNIMPLEMENTED, load, m)
  | Some (ret, image_len, m) =>
      if negb (ret =? 0) then Some (handle_decomp_error, load, m) else Some (0, u32 (load + image_len), m)
  end.

(** The return value, [*load_end] and the memory. *)
Definition bootm_load_os (m : mem) (i : bootm_headers) : option (Z * Z * mem) :=
  let o := os i in
  let load := i_load o in
  let blob_start := i_start o in
  let blob_end := i_end o in
  '(err, load_end, m) ← bootm_decomp_image m (i_comp o) load (image_start o) (image_len o) CONFIG_SYS_BOOTM_LEN;
  if negb (err =? 0) then Some (err, load_end, m) else
  let no_overlap := (i_comp o =? IH_COMP_NONE) && (load =? image_start o) in
  if negb no_overlap && (load <? blob_end) && (load_end >? blob_start) then
    if negb (legacy_hdr_valid i =? 0) then
      _ ← image_get_type m copy_addr; Some (BOOTM_ERR_OVERLAP, load_end, m)
    else Some (BOOTM_ERR_RESET, load_end, m)
  else Some (0, load_end, m).

(** ** The states of [bootm] *)

(** A boot function: its state argument, arguments, return value. *)
Definition boot_os_fn : Type := Z -> list cstr -> bstate -> option (Z * bstate).

(** The boot functions. *)
Class BootFns := {
  do_bootm_standalone : boot_os_fn;
  do_bootm_linux : boot_os_fn;
  do_bootm_netbsd : boot_os_fn;
  do_bootm_rtems : boot_os_fn;
  do_bootm_plan9 : boot_os_fn;
  do_bootm_vxworks : boot_os_fn }.
Context {BF : BootFns}.

(** The array, indexed by the codes of the operating systems. *)
Definition boot_os : list (option boot_os_fn) :=
  [None; None; Some do_bootm_netbsd; None; None; Some do_bootm_linux; None; None; None; None; None; None; None; None;
   Some do_bootm_vxworks; None; None; Some do_bootm_standalone; Some do_bootm_rtems; None; None; None; None;
   Some do_bootm_plan9].
Definition bootm_os_get_boot_func (os : Z) : option (option boot_os_fn) := aget boot_os os.

(** A call returns, or resets the board. *)
Inductive boot_result := returned (ret : Z) | board_reset.

Definition boot_selected_os (argv : list cstr) (s : Z) (boot_fn : boot_os_fn) (st : bstate) : option (Z * bstate) :=
  '(_, st) ← boot_fn s argv st;
  if (i_type (os (images st)) =? IH_TYPE_STANDALONE) || (s =? BOOTM_STATE_OS_FAKE_GO) then Some (0, st)
  else Some (BOOTM_ERR_RESET, st).

(** The label [err]. *)
Definition bootm_end (ret : Z) (st : bstate) : option (boot_result * bstate) :=
  if ret =? BOOTM_ERR_RESET then Some (board_reset, st) else Some (returned ret, st).

(** One of the states before the boot function is needed. *)
Definition run_state (run : bool) (f : bstate -> option (Z * bstate)) (ret : Z) (st : bstate) : option (Z * bstate) :=
  if (ret =? 0) && run then f st else Some (ret, st).

Definition load_state (st : bstate) : option (Z * bool * bstate) :=
  '(ret, load_end, m) ← bootm_load_os (b_mem st) (images st);
  let st := mk_b m (b_gd st) (images st) in
  let load := i_load (os (images st)) in
  if ret =? 0 then
    '(_, l) ← lmb_reserve (images_lmb (images st)) load (u32 (load_end - load));
    Some (0, false, mk_b m (b_gd st) (set_lmb l (images st)))
  else if negb (ret =? BOOTM_ERR_OVERLAP) then Some (ret, true, st)
  else Some (0, false, st).

Definition ramdisk_state (st : bstate) : option (Z * bstate) :=
  let i := images st in
  let rd_len := u32 (rd_end i - rd_start i) in
  '(ret, s, e, m, gd, l) ← boot_ramdisk_high (b_mem st) (b_gd st) (images_lmb i) (rd_start i) rd_len (initrd_end i);
  let st := mk_b m gd (set_initrd s e l i) in
  if negb (ret =? 0) then Some (ret, st) else
  '(_, gd) ← setenv_hex gd (str "initrd_start") s;
  '(_, gd) ← setenv_hex gd (str "initrd_end") e;
  Some (0, mk_b m gd (images st)).

Definition fdt_state (local : list Z) (st : bstate) : option (Z * bstate) :=
  let i := images st in
  l ← boot_fdt_add_mem_rsv_regions (b_mem st) (images_lmb i) (ft_addr i);
  '(ret, a, n, m, gd, l) ← boot_relocate_fdt local (b_mem st) (b_gd st) l (ft_addr i) (ft_len i);
  Some (ret, mk_b m gd (set_lmb l (set_ft a n i))).

(** From [bootm_os_get_boot_func] on. *)
Definition os_states (argv : list cstr) (states : Z) (st : bstate) : option (boot_result * bstate) :=
  boot_fn ← bootm_os_get_boot_func (i_os (os (images st)));
  let need_boot_fn := Z.land states 0x7c0 in
  match boot_fn with
  | None => if negb (need_boot_fn =? 0) then Some (returned 1, st) else bootm_end 0 st
  | Some boot_fn =>
      '(ret, st) ← run_state (has_flag states BOOTM_STATE_OS_CMDLINE) (boot_fn BOOTM_STATE_OS_CMDLINE argv) 0 st;
      '(ret, st) ← run_state (has_flag states BOOTM_STATE_OS_BD_T) (boot_fn BOOTM_STATE_OS_BD_T argv) ret st;
      '(ret, st) ← run_state (has_flag states BOOTM_STATE_OS_PREP) (boot_fn BOOTM_STATE_OS_PREP argv) ret st;
      if negb (ret =? 0) then Some (returned ret, st) else
      '(ret, st) ← run_state (has_flag states BOOTM_STATE_OS_GO)
                     (boot_selected_os argv BOOTM_STATE_OS_GO boot_fn) ret st;
      bootm_end ret st
  end.

Definition do_bootm_states (local : list Z) (load_addr : Z) (argv : list cstr) (states : Z)
    (st : bstate) : option (boot_result * bstate) :=
  let st := mk_b (b_mem st) (b_gd st) (set_images_state (Z.lor (state (images st)) states) (images st)) in
  '(ret, st) ← run_state (has_flag states BOOTM_STATE_START) bootm_start 0 st;
  '(ret, st) ← run_state (has_flag states BOOTM_STATE_FINDOS) (bootm_find_os load_addr argv) ret st;
  let other := (ret =? 0) && has_flag states BOOTM_STATE_FINDOTHER in
  '(ret, st) ← run_state (has_flag states BOOTM_STATE_FINDOTHER) (bootm_find_other local argv) ret st;
  let argv := if other then [] else argv in
  '(ret, failed, st) ← (if (ret =? 0) && has_flag states BOOTM_STATE_LOADOS then load_state st
                        else Some (ret, false, st));
  if (failed : bool) then bootm_end ret st else
  '(ret, st) ← run_state (has_flag states BOOTM_STATE_RAMDISK) ramdisk_state ret st;
  '(ret, st) ← run_state (has_flag states BOOTM_STATE_FDT) (fdt_state local) ret st;
  if negb (ret =? 0) then Some (returned ret, st) else os_states argv states st.
End boot.

(** ** Memory *)

(** [m'] is [m] but for the [n] bytes at [d]. *)
Definition same_outside (m m' : mem) (d n : Z) : Prop := forall a, ~ d <= a < d + n -> m' !! a = m !! a.

(** The [n] bytes at [a] and the [k] bytes at [d] have none in common. *)
Definition disjoint_areas (a n d k : Z) : Prop := a + n <= d \/ d + k <= a.

Lemma copied_outside m m' d s n : copied m m' d s n -> same_outside m m' d n.
Proof. intros H a Ha. rewrite H. fold (in_range d n a). ranges. done. Qed.

Lemma filled_outside m m' d n v : CString.filled m m' d n v -> same_outside m m' d n.
Proof. intros H a Ha. rewrite H. ranges. done. Qed.

Lemma outside_bytes m m' d n a l : same_outside m m' d n -> disjoint_areas a (Z.of_nat (length l)) d n ->
  bytes_at m a l -> bytes_at m' a l.
Proof.
  intros Ho Hd Hb. apply bytes_at_intro. intros i x Hi. pose proof (lookup_lt_Some _ _ _ Hi).
  unfold disjoint_areas in Hd. rewrite Ho by lia. by eapply bytes_at_lookup.
Qed.

Lemma copied_bytes m m' d s l : copied m m' d s (Z.of_nat (length l)) -> bytes_at m s l -> bytes_at m' d l.
Proof.
  intros Hc Hb. apply bytes_at_intro. intros i x Hi. pose proof (lookup_lt_Some _ _ _ Hi).
  rewrite Hc. fold (in_range d (Z.of_nat (length l)) (d + Z.of_nat i)). ranges.
  replace (s + (d + Z.of_nat i - d)) with (s + Z.of_nat i) by lia. by eapply bytes_at_lookup.
Qed.

Lemma bytes_allocated m a l : bytes_at m a l -> allocated m a (Z.of_nat (length l)).
Proof.
  intros Hb p Hp. destruct (lookup_lt_is_Some_2 l (Z.to_nat (p - a))) as [x Hx]; [lia|].
  apply (bytes_at_lookup m a) in Hx; [|done]. replace (a + Z.of_nat (Z.to_nat (p - a))) with p in Hx by lia. by exists x.
Qed.

Lemma outside_allocated m m' d n p k : same_outside m m' d n -> allocated m' d n -> allocated m p k -> allocated m' p k.
Proof.
  intros Ho Ha Hp a Hin. destruct (in_range_spec d n a); [by apply Ha|]. rewrite Ho by done. by apply Hp.
Qed.

Lemma outside_trans m1 m2 m3 d n : same_outside m1 m2 d n -> same_outside m2 m3 d n -> same_outside m1 m3 d n.
Proof. intros H1 H2 a Ha. by rewrite H2, H1. Qed.

Lemma image_outside m m' d n a f data : same_outside m m' d n ->
  disjoint_areas a (64 + Z.of_nat (length data)) d n -> image_at m a f data -> image_at m' a f data.
Proof.
  intros Ho Hd [Hb Hok Hs Hda Ha]. split; try done. eapply outside_bytes; [done| |done].
  by rewrite length_app, encode_length, Nat2Z.inj_add.
Qed.

(** ** Finding the kernel *)

(** Comparisons of constants. *)
Ltac zconst x := first [is_const x | match x with Z0 => idtac | Zpos _ => idtac | Zneg _ => idtac end].
Ltac ceval :=
  repeat match goal with
  | |- context [?x =? ?y] => zconst x; zconst y;
      let b := eval vm_compute in (x =? y) in
      match b with true => change (x =? y) with true | false => change (x =? y) with false end
  end; cbn [andb orb negb mbind option_bind].

Lemma format_legacy m a f data : image_at m a f data -> h_magic f = IH_MAGIC ->
  genimg_get_format m a = Some IMAGE_FORMAT_LEGACY.
Proof.
  intros I Hm. unfold genimg_get_format, image_check_magic, image_get_magic.
  rewrite (image_get_word _ _ _ _ ih_magic I). cbn [mbind option_bind h_word]. by rewrite Hm.
Qed.

(** The images [bootm] takes: of one of three types with a payload, or of several
    components, of which the first is the kernel [c]. *)
Definition kernel_of (f : header) (data c : list Z) : Prop :=
  (h_type f = IH_TYPE_KERNEL \/ h_type f = IH_TYPE_KERNEL_NOLOAD \/ h_type f = IH_TYPE_STANDALONE) /\ c = data \/
  h_type f = IH_TYPE_MULTI /\
    exists comps, data = multi_payload comps /\ Forall (fun c => c <> []) comps /\ comps !! 0%nat = Some c.

Definition bootable (f : header) : bool :=
  (h_type f =? IH_TYPE_KERNEL) || (h_type f =? IH_TYPE_KERNEL_NOLOAD) || (h_type f =? IH_TYPE_STANDALONE) ||
  (h_type f =? IH_TYPE_MULTI).

(** The description and the entry point of the kernel [c], found at [d] in the
    image at [a]. *)
Definition found_os (a : Z) (f : header) (data : list Z) (d : Z) (c : list Z) : image_info :=
  mk_info a (a + 64 + Z.of_nat (length data)) d (Z.of_nat (length c))
    (if h_type f =? IH_TYPE_KERNEL_NOLOAD then d else h_load f) (h_comp f) (h_type f) (h_os f) (h_arch f).
Definition found_ep (f : header) (d : Z) : Z :=
  if h_type f =? IH_TYPE_KERNEL_NOLOAD then u32 (h_ep f + d) else h_ep f.

Section kernel.
Context {HH : EnvHooks} {BD : Board} (de : list Z) (load_addr : Z) (argv : list cstr) (st : bstate).
Context (f : header) (data : list Z).
#[local] Abbreviation a := (genimg_get_kernel_addr_fit load_addr (head argv)).
#[local] Abbreviation v := (negb (verify (images st) =? 0)).
Context (I : image_at (b_mem st) a f data) (Hmagic : h_magic f = IH_MAGIC) (Hlisted : listed f data).

Lemma boot_get_kernel_valid c : sealed f data v = true -> h_arch f = IH_ARCH_DEFAULT -> kernel_of f data c ->
  allocated (b_mem st) copy_addr 64 ->
  exists d m', boot_get_kernel de load_addr argv st =
      Some (a, d, Z.of_nat (length c), mk_b m' (b_gd st) (set_legacy a (images st))) /\
    bytes_at (b_mem st) d c /\ a <= d /\ d + Z.of_nat (length c) <= a + 64 + Z.of_nat (length data) /\
    copied (b_mem st) m' copy_addr a 64.
Proof using I Hmagic Hlisted.
  intros Hs Ha Hk Hc. unfold boot_get_kernel, genimg_get_image. rewrite (format_legacy _ _ _ _ I Hmagic).
  cbn [mbind option_bind]. rewrite (image_get_kernel_spec _ _ _ _ _ _ _ I Hlisted), Hs, Ha.
  pose proof I as [Hb Hok Hsz _ Hp]. ceval.
  unfold NULL. zcase; [lia|]. unfold image_get_type. rewrite (image_get_byte _ _ _ _ ih_type I). cbn [mbind option_bind h_byte].
  assert (Hal : allocated (b_mem st) a 64).
  { apply bytes_allocated in Hb. intros p Hpa. apply Hb. rewrite length_app, encode_length by done. lia. }
  destruct (memmove_spec (b_mem st) copy_addr a 64) as (m' & Hmv & Hcp); [done..|].
  apply bytes_at_app in Hb as [_ Hb]. rewrite encode_length in Hb by done.
  destruct Hk as [[Ht ->]|(Ht & comps & -> & Hne & H0)].
  - exists (a + 64), m'. assert (E : (h_type f =? IH_TYPE_KERNEL) || (h_type f =? IH_TYPE_KERNEL_NOLOAD) ||
      (h_type f =? IH_TYPE_STANDALONE) = true) by (destruct Ht as [-> | [-> | ->]]; done).
    rewrite E. unfold image_get_data_size, image_get_size. rewrite (image_get_word _ _ _ _ ih_size I).
    cbn [mbind option_bind h_word]. unfold image_get_header_size. rewrite Hmv. cbn [mbind option_bind].
    unfold image_get_data, image_get_header_size. rewrite Hsz, u32_small by lia. repeat split; (done || lia).
  - destruct (multi_getimg_in _ _ _ _ 0%nat c I Hne H0) as (d & Hg & Hd & Hlo & Hhi). exists d, m'. rewrite Ht. ceval.
    change 0 with (Z.of_nat 0). rewrite Hg. cbn [orb mbind option_bind]. unfold image_get_header_size. rewrite Hmv.
    cbn [mbind option_bind]. repeat split; (done || lia).
Qed.

Lemma boot_get_kernel_invalid : sealed f data v && (h_arch f =? IH_ARCH_DEFAULT) && bootable f = false ->
  boot_get_kernel de load_addr argv st = Some (NULL, 0, 0, st).
Proof using I Hmagic Hlisted.
  intros Hb. unfold boot_get_kernel, genimg_get_image. rewrite (format_legacy _ _ _ _ I Hmagic).
  cbn [mbind option_bind]. rewrite (image_get_kernel_spec _ _ _ _ _ _ _ I Hlisted). ceval.
  destruct (sealed f data v && (h_arch f =? IH_ARCH_DEFAULT)); [|done]. cbn [andb] in Hb.
  destruct I as [_ _ _ _ Hp]. unfold NULL. zcase; [lia|]. unfold image_get_type. rewrite (image_get_byte _ _ _ _ ih_type I).
  cbn [mbind option_bind h_byte]. apply orb_false_elim in Hb as [Hb ->]. rewrite Hb. done.
Qed.

Lemma os_parameters_legacy m d n arch e : image_at m a f data ->
  os_parameters m a IMAGE_FORMAT_LEGACY d n arch e =
    Some (Some (mk_info 0 (a + 64 + Z.of_nat (length data)) d n (h_load f) (h_comp f) (h_type f) (h_os f) (h_arch f), e, false)).
Proof using.
  intros I'. unfold os_parameters. ceval. unfold image_get_type, image_get_comp, image_get_os, image_get_image_end,
    image_get_image_size, image_get_size, image_get_load, image_get_arch, image_get_header_size.
  rewrite !(image_get_byte _ _ _ _ _ I'), !(image_get_word _ _ _ _ _ I'). cbn [mbind option_bind h_byte h_word].
  destruct I' as [_ _ Hs _ Hp]. rewrite Hs, (u32_small (Z.of_nat _ + 64)), u32_small by lia. by rewrite (Z.add_comm _ 64), Z.add_assoc.
Qed.

Lemma find_os_valid c : sealed f data v = true -> h_arch f = IH_ARCH_DEFAULT -> kernel_of f data c -> c <> [] ->
  allocated (b_mem st) copy_addr 64 -> disjoint_areas a (64 + Z.of_nat (length data)) copy_addr 64 ->
  exists d m', bootm_find_os de load_addr argv st =
      Some (0, mk_b m' (b_gd st) (set_os (found_os a f data d c) (found_ep f d) (set_legacy a (images st)))) /\
    a <= d /\ d + Z.of_nat (length c) <= a + 64 + Z.of_nat (length data) /\
    image_at m' a f data /\ bytes_at m' d c /\ bytes_at m' copy_addr (encode f) /\
    same_outside (b_mem st) m' copy_addr 64.
Proof using I Hmagic Hlisted.
  intros Hs Ha Hk Hne Hc Hdis. destruct (boot_get_kernel_valid c) as (d & m' & Hg & Hd & Hlo & Hhi & Hcp); [done..|].
  pose proof (copied_outside _ _ _ _ _ Hcp) as Ho. pose proof (image_outside _ _ _ _ _ _ _ Ho Hdis I) as I'.
  pose proof I as [Hb Hok _ _ _]. apply bytes_at_app in Hb as [Hb _].
  assert (He : bytes_at m' copy_addr (encode f)) by (eapply copied_bytes; [by rewrite encode_length|done]).
  exists d, m'. split.
  - unfold bootm_find_os. rewrite Hg. cbn [mbind option_bind images b_mem b_gd]. destruct c as [|x c]; [done|]. zcase; [done|].
    rewrite (format_legacy _ _ _ _ I' Hmagic). cbn [mbind option_bind]. rewrite os_parameters_legacy by done.
    cbn [mbind option_bind with_span i_arch i_type i_load i_start i_end image_start image_len i_comp i_os].
    rewrite Ha. ceval. cbn [set_legacy legacy_hdr_valid]. ceval. unfold image_get_ep. rewrite (header_word _ _ _ ih_ep He Hok).
    cbn [mbind option_bind h_word]. unfold found_os, found_ep. rewrite Ha. by destruct (h_type f =? IH_TYPE_KERNEL_NOLOAD).
  - split_and!; try done. eapply outside_bytes; [done| |done]. unfold disjoint_areas in *. lia.
Qed.

Lemma find_os_invalid : sealed f data v && (h_arch f =? IH_ARCH_DEFAULT) && bootable f = false ->
  exists o, bootm_find_os de load_addr argv st = Some (1, mk_b (b_mem st) (b_gd st) (set_os o (ep (images st)) (images st))).
Proof using I Hmagic Hlisted.
  intros Hb. unfold bootm_find_os. rewrite boot_get_kernel_invalid by done. cbn. by eexists.
Qed.
End kernel.

Lemma header_word_ok f w : header_ok f -> 0 <= h_word f w.
Proof. intros (H & _). rewrite !List.Forall_cons_iff in H. unfold word_ok in H. destruct w; cbn; tauto. Qed.

(** ** Loading the kernel *)

(** The loaded kernel covers a part of the image it came from. *)
Definition overwrites (o : image_info) : bool :=
  negb (i_load o =? image_start o) && (i_load o <? i_end o) && (i_load o + image_len o >? i_start o).

Lemma load_os_plain `{BD : Board} m i c : i_comp (os i) = IH_COMP_NONE ->
  bytes_at m (image_start (os i)) c -> image_len (os i) = Z.of_nat (length c) ->
  Z.of_nat (length c) <= CONFIG_SYS_BOOTM_LEN \/ i_load (os i) = image_start (os i) ->
  allocated m (i_load (os i)) (Z.of_nat (length c)) -> 0 <= i_load (os i) ->
  i_load (os i) + Z.of_nat (length c) < 2 ^ 32 -> (legacy_hdr_valid i <> 0 -> allocated m copy_addr 64) ->
  exists m', bootm_load_os m i =
      Some (if overwrites (os i) then if legacy_hdr_valid i =? 0 then BOOTM_ERR_RESET else BOOTM_ERR_OVERLAP else 0,
            i_load (os i) + Z.of_nat (length c), m') /\
    copied m m' (i_load (os i)) (image_start (os i)) (Z.of_nat (length c)).
Proof.
  intros Hcomp Hb Hlen Hfit Hal H0 Htop Hcopy. unfold bootm_load_os, bootm_decomp_image, overwrites. rewrite Hcomp, Hlen. ceval.
  pose proof (bytes_allocated _ _ _ Hb) as Hsrc. set (dst := i_load (os i)) in *. set (src := image_start (os i)) in *.
  assert (Hmove : exists m', (if dst =? src then Some (Some (0, Z.of_nat (length c), m))
      else if Z.of_nat (length c) <=? CONFIG_SYS_BOOTM_LEN then
        m ← memmove_wd watchdog m dst src (Z.of_nat (length c)) CHUNKSZ; Some (Some (0, Z.of_nat (length c), m))
      else Some (Some (1, Z.of_nat (length c), m))) = Some (Some (0, Z.of_nat (length c), m')) /\
      copied m m' dst src (Z.of_nat (length c))).
  { zcase; [exists m; split; [done|]; subst; replace src with dst by done; apply copied_refl|]. zcase; [|lia].
    destruct (memmove_wd_spec watchdog m dst src (Z.of_nat (length c)) CHUNKSZ) as (m' & -> & Hc); [lia|done..|].
    by exists m'. }
  destruct Hmove as (m' & -> & Hc). exists m'. split; [|done]. cbn [mbind option_bind]. ceval.
  rewrite u32_small by lia. destruct (negb (dst =? src) && (dst <? i_end (os i)) && _) eqn:E; [|done].
  ceval. zcase; [done|]. cbn [negb].
  assert (Hty : is_Some (m' !! (copy_addr + 30))).
  { apply (copied_alloc _ _ _ _ _ copy_addr 64 Hsrc Hc); [auto|lia]. }
  destruct Hty as [x Hx]. unfold image_get_type, image_get_hdr_b, load. cbn [byte_offset]. rewrite Hx. done.
Qed.

(** ** The memory map *)

Definition hex_of (s : cstr) : Z := fst (simple_strtoul s 16).
Definition ull_of (s : cstr) : Z := u32 (fst (simple_strtoull s 16)).

(** What the variables say of the memory for images. *)
Definition bootm_low_of (M : gmap cstr cstr) : Z :=
  match M !! str "bootm_low" with Some s => hex_of s | None => CONFIG_SYS_SDRAM_BASE end.
Definition bootm_size_of `{BD : Board} (M : gmap cstr cstr) : Z :=
  match M !! str "bootm_size", M !! str "bootm_low" with
  | Some s, _ => ull_of s
  | None, Some s => u32 (dram_size - ull_of s)
  | None, None => u32 dram_size
  end.

(** The stack and what is above it. *)
Definition stack_base `{BD : Board} : Z := u32 (get_sp - 4096).
Definition stack_block `{BD : Board} : lmb_property := mk_prop stack_base (u32 (u32 (dram_start + dram_size) - stack_base)).

Lemma str_chars s : forallb (fun c => (0 <? c) && (c <? 256)) (str s) = true -> Forall char_ok (str s).
Proof. intros H. apply List.Forall_forall. intros x Hx. rewrite forallb_forall in H. specialize (H x Hx). unfold char_ok. zbool. lia. Qed.

Lemma add_first rgn base size : rep rgn [] -> block_ok base size ->
  exists rgn', lmb_add_region rgn base size = Some (0, rgn') /\ wf_region rgn' [mk_prop base size].
Proof.
  intros Hr Hb. destruct (add_dummy rgn base size Hr) as (l' & ret & rgn' & Ha & -> & Hr').
  inversion Ha as [| ? ? ? ? ? E | ? ? ? ? ? E | ? ? ? ? ? ? E | ? ? Hne ? ? E]; subst;
    try (by destruct pre).
  exists rgn'. split; [done|]. split; [done|]. unfold block_ok in Hb. cbn. unfold p_end. cbn. lia.
Qed.

Section map.
Context {HH : EnvHooks} {BD : Board} (de : list Z) (gd : gdata) (M : gmap cstr cstr) (HM : EnvRep gd M).

Lemma bootm_low_spec : getenv_bootm_low de gd = Some (bootm_low_of M, gd).
Proof using HM.
  unfold getenv_bootm_low, bootm_low_of. rewrite (getenv_ready de gd M) by (done || by apply str_chars).
  cbn [mbind option_bind]. by destruct (M !! _).
Qed.

Lemma bootm_size_spec : getenv_bootm_size de gd = Some (bootm_size_of M, gd).
Proof using HM.
  unfold getenv_bootm_size, bootm_size_of. rewrite (getenv_ready de gd M) by (done || by apply str_chars).
  cbn [mbind option_bind]. destruct (M !! str "bootm_size"); [done|].
  rewrite (getenv_ready de gd M) by (done || by apply str_chars). cbn [mbind option_bind].
  destruct (M !! _); [done|]. by rewrite Z.sub_0_r.
Qed.

Lemma start_lmb_spec l : length (r_region (memory l)) = 9%nat -> length (r_region (reserved l)) = 9%nat ->
  block_ok (bootm_low_of M) (bootm_size_of M) -> block_ok (p_base stack_block) (p_size stack_block) ->
  exists l', boot_start_lmb de gd l = Some (l', gd) /\
    wf_region (memory l') [mk_prop (bootm_low_of M) (bootm_size_of M)] /\ wf_region (reserved l') [stack_block].
Proof using HM.
  intros H1 H2 Hb Hs. unfold boot_start_lmb, lmb_init, init_region.
  destruct l as [[c1 z1 [|x1 j1]] [c2 z2 [|x2 j2]]]; try done. cbn in H1, H2. cbn [memory reserved r_region].
  rewrite !aset_Some by (cbn; lia). change (Z.to_nat 0) with 0%nat. cbn [mbind option_bind].
  change (<[0%nat := mk_prop 0 0]> (x1 :: j1)) with (mk_prop 0 0 :: j1).
  change (<[0%nat := mk_prop 0 0]> (x2 :: j2)) with (mk_prop 0 0 :: j2).
  rewrite bootm_low_spec. cbn [mbind option_bind]. rewrite bootm_size_spec. cbn [mbind option_bind].
  unfold lmb_add. cbn [memory reserved].
  destruct (add_first (mk_region 1 0 (mk_prop 0 0 :: j1)) (bootm_low_of M) (bootm_size_of M)) as (r1 & -> & W1); [|done|].
  { split; [done|]. left. cbn. eauto. }
  cbn [mbind option_bind]. unfold arch_lmb_reserve, lmb_reserve. cbn [memory reserved].
  destruct (add_first (mk_region 1 0 (mk_prop 0 0 :: j2)) (p_base stack_block) (p_size stack_block)) as (r2 & E2 & W2); [|done|].
  { split; [done|]. left. cbn. eauto. }
  unfold stack_block, stack_base in E2. cbn [p_base p_size] in E2. rewrite E2. cbn [mbind option_bind].
  eexists. split; [done|]. by split.
Qed.
End map.

(** ** Placing the ramdisk *)

Definition initrd_limit (M : gmap cstr cstr) : Z :=
  match M !! str "initrd_high" with Some s => hex_of s | None => 0xffffffff end.
Definition initrd_in_place (M : gmap cstr cstr) : Prop :=
  exists s, M !! str "initrd_high" = Some s /\ hex_of s = 0xffffffff.

(** All of the memory [ml] can be written. *)
Definition ram_present (m : mem) (ml : list lmb_property) : Prop := forall a, covered ml a -> is_Some (m !! a).

Lemma placeable_present m ml rl size align limit b : ram_present m ml -> placeable ml rl size align limit b ->
  allocated m b size.
Proof.
  intros Hm Hp a Ha. apply Hm. apply Exists_exists in Hp as (x & Hx & H0 & Hlo & Hhi & _).
  apply Exists_exists. exists x. split; [done|]. unfold in_prop, window in *. zcase_in Hhi; lia.
Qed.

Section ramdisk.
Context {HH : EnvHooks} {BD : Board} (de : list Z) (gd : gdata) (M : gmap cstr cstr) (HM : EnvRep gd M).
Context (m : mem) (lm : lmb) (ml rl : list lmb_property) (rd_data : Z) (c : list Z).
Context (Hml : wf_region (memory lm) ml) (Hrl : wf_region (reserved lm) rl).
Context (Hrd : 0 < rd_data) (Hb : bytes_at m rd_data c) (Hlen : rd_data + Z.of_nat (length c) < 2 ^ 32).
#[local] Abbreviation rd_len := (Z.of_nat (length c)).

Lemma ramdisk_in_place e0 : initrd_in_place M ->
  exists ret res', lmb_add_region (reserved lm) rd_data rd_len = Some (ret, res') /\
    boot_ramdisk_high de m gd lm rd_data rd_len e0 = Some (0, rd_data, rd_data + rd_len, m, gd, mk_lmb (memory lm) res').
Proof using HM Hrl Hrd Hlen.
  intros (s & Hs & Hv). destruct (add_region_total (reserved lm) rd_data rd_len) as (ret & res' & E & _);
    [by eapply wf_bounded|]. exists ret, res'. split; [done|]. unfold boot_ramdisk_high, lmb_reserve.
  rewrite (getenv_ready de gd M) by (done || by apply str_chars). cbn [mbind option_bind]. rewrite Hs.
  unfold hex_of in Hv. rewrite Hv. zcase; [lia|]. ceval. rewrite E. cbn [mbind option_bind]. by rewrite u32_small by lia.
Qed.

Lemma ramdisk_placed e0 : ~ initrd_in_place M -> c <> [] -> max_ok (initrd_limit M) rd_len -> ram_present m ml ->
  exists ret s e m' res', boot_ramdisk_high de m gd lm rd_data rd_len e0 = Some (ret, s, e, m', gd, mk_lmb (memory lm) res') /\
    ((ret = 0 /\ placeable ml rl rd_len 0x1000 (initrd_limit M) s /\
      (forall a, placeable ml rl rd_len 0x1000 (initrd_limit M) a -> a <= s) /\ e = s + rd_len /\ copied m m' s rd_data rd_len) \/
     (ret = -1 /\ m' = m /\
      ((forall a, ~ placeable ml rl rd_len 0x1000 (initrd_limit M) a) \/ r_cnt (reserved lm) = MAX_LMB_REGIONS))).
Proof using HM Hml Hrl Hrd Hb Hlen.
  intros Hcopy Hne Hmax Hram. unfold boot_ramdisk_high.
  rewrite (getenv_ready de gd M) by (done || by apply str_chars). cbn [mbind option_bind].
  assert (E : match M !! str "initrd_high" with
      | Some s => let v := fst (simple_strtoul s 16) in (v, negb (v =? 0xffffffff))
      | None => (0xffffffff, true)
      end = (initrd_limit M, true)).
  { unfold initrd_limit. destruct (M !! str "initrd_high") as [s|] eqn:Hs; [|done]. unfold hex_of.
    cbn zeta. f_equal. apply negb_true_iff, Z.eqb_neq. intros Hv. apply Hcopy. by exists s. }
  cbn zeta in E. rewrite E. zcase; [lia|]. cbn [negb].
  assert (Hn : 0 < rd_len) by (destruct c; [done|cbn; lia]).
  assert (Halloc : (if negb (initrd_limit M =? 0) then lmb_alloc_base lm rd_len 0x1000 (initrd_limit M) else lmb_alloc lm rd_len 0x1000) =
    lmb_alloc_base lm rd_len (2 ^ 12) (initrd_limit M)).
  { destruct (Z.eqb_spec (initrd_limit M) 0) as [->|]; done. }
  rewrite Halloc.
  destruct (alloc_base_spec lm ml rl rd_len 12 (initrd_limit M)) as [[-> Hno]|(b & ret & res' & Hp & Hmx & Hadd & ->)]; [done..|lia|done| |].
  - cbn [mbind option_bind]. ceval. exists (-1), 0, e0, m, (reserved lm). split; [by destruct lm|]. right. auto.
  - cbn [mbind option_bind]. 
    destruct (add_region_total (reserved lm) b (lmb_align_up rd_len (2 ^ 12))) as (r2 & g2 & E2 & _ & H8); [by eapply wf_bounded|].
    rewrite Hadd in E2. injection E2 as <- <-. pose proof (wf_bounded _ _ Hrl) as [_ Hcnt].
    pose proof Hp as Hp0. apply Exists_exists in Hp0 as (x & Hx & Hb0 & _ & Hbt & _).
    assert (Hxt : p_end x < 2 ^ 32).
    { destruct Hml as [_ Hch]. by destruct (chain_below_hi _ _ x Hch Hx) as (_ & _ & _ & ?). }
    destruct (Z.ltb_spec ret 0).
    + ceval. exists (-1), 0, e0, m, res'. split; [done|]. right. split; [done|]. split; [done|]. right. lia.
    + zcase; [lia|].
      destruct (memmove_wd_spec watchdog m b rd_data rd_len CHUNKSZ) as (m' & -> & Hc); [lia|done|..].
      { by eapply placeable_present. }
      { by apply bytes_allocated. }
      cbn [mbind option_bind]. eexists 0, b, _, m', res'. split; [done|]. left. split_and!; try done.
      unfold window in Hbt. zcase_in Hbt; rewrite u32_small by lia; done.
Qed.
End ramdisk.

(** ** The stages of a boot *)

Lemma sealed_any f data (v : bool) : sealed f data true = true -> sealed f data v = true.
Proof. unfold sealed. intros H. apply andb_prop in H as [-> H]. destruct v; [done|]. done. Qed.

Lemma sealed_magic f data v : sealed f data v = true -> h_magic f = IH_MAGIC.
Proof. unfold sealed. intros H. zbool. tauto. Qed.

Section stages.
Context {HH : EnvHooks} {BD : Board} (de : list Z).

(** The areas of the images and of the header copy stay out of each other's way. *)
Lemma start_stage st M : EnvRep (b_gd st) M -> allocated (b_mem st) copy_addr 64 ->
  block_ok (bootm_low_of M) (bootm_size_of M) -> block_ok (p_base stack_block) (p_size stack_block) ->
  exists m' l v, bootm_start de st =
      Some (0, mk_b m' (b_gd st) (mk_images 0 0 (os zero_images) 0 0 0 0 0 0 0 v BOOTM_STATE_START l)) /\
    same_outside (b_mem st) m' copy_addr 64 /\ allocated m' copy_addr 64 /\
    wf_region (memory l) [mk_prop (bootm_low_of M) (bootm_size_of M)] /\ wf_region (reserved l) [stack_block].
Proof using.
  intros HM Hc Hb Hs. destruct (memset_spec (b_mem st) copy_addr 0 64) as (m' & Hm & Hf); [lia|done|].
  destruct (start_lmb_spec de (b_gd st) M HM (images_lmb zero_images)) as (l & Hl & W1 & W2); [done..|].
  unfold bootm_start, image_get_header_size, getenv_yesno. rewrite Hm. cbn [mbind option_bind].
  rewrite (getenv_ready de _ M) by (done || by apply str_chars). cbn [mbind option_bind]. rewrite Hl. cbn [mbind option_bind].
  eexists m', l, _. split; [done|]. split; [by eapply filled_outside|]. split; [by eapply filled_alloc|]. done.
Qed.

(** The ramdisk [c] in a valid image at [b], which the second argument names. *)
Record ramdisk_image (m : mem) (b : Z) (f : header) (c : list Z) : Prop := {
  ri_at : image_at m b f c;
  ri_sealed : sealed f c true = true;
  ri_os : h_os f = IH_OS_LINUX;
  ri_arch : h_arch f = IH_INITRD_ARCH;
  ri_type : h_type f = IH_TYPE_RAMDISK }.

Lemma ramdisk_outside m m' d n b f c : same_outside m m' d n -> disjoint_areas b (64 + Z.of_nat (length c)) d n ->
  ramdisk_image m b f c -> ramdisk_image m' b f c.
Proof using. intros Ho Hd [I ? ? ? ?]. split; try done. by eapply image_outside. Qed.

Lemma ramdisk_stage st argv ra f c : argv !! 1%nat = Some ra -> strcmp_l ra (str "-") <> 0 ->
  ramdisk_image (b_mem st) (hex_of ra) f c ->
  bootm_find_ramdisk argv st = Some (0, mk_b (b_mem st) (b_gd st)
    (set_rd (hex_of ra + 64) (hex_of ra + 64 + Z.of_nat (length c)) (images st))).
Proof using.
  intros Ha Hd [I Hs Ho Har Ht]. unfold bootm_find_ramdisk, boot_get_ramdisk. rewrite Ha, (proj2 (Z.eqb_neq _ _) Hd).
  unfold genimg_get_image. fold (hex_of ra).
  rewrite (format_legacy _ _ _ _ I) by by eapply sealed_magic. cbn [mbind option_bind]. ceval.
  rewrite (image_get_ramdisk_spec _ _ _ _ _ _ _ _ I) by (unfold listed; rewrite Ht; intros [?|?]; done).
  rewrite (sealed_any _ _ _ Hs), Ho, Har, Ht. ceval. pose proof I as [_ _ Hsz _ Hp]. unfold NULL. zcase; [lia|].
  unfold image_get_data_size, image_get_size, image_get_load. rewrite !(image_get_word _ _ _ _ _ I).
  cbn [mbind option_bind h_word]. unfold image_get_data, image_get_header_size. rewrite Hsz, (u32_small (_ + 64)) by lia.
  zcase; [lia|]. rewrite u32_small by lia. done.
Qed.

(** Neither the arguments nor the image of the kernel name a device tree. *)
Lemma no_fdt_stage m argv i f data : argv !! 2%nat = None -> legacy_hdr_valid i = 1 -> header_ok f ->
  bytes_at m copy_addr (encode f) -> h_type f <> IH_TYPE_MULTI -> image_at m (i_start (os i)) f data -> h_magic f = IH_MAGIC ->
  boot_get_fdt m argv i = Some (0, 0, 0, m).
Proof using.
  intros Ha Hv Hok Hb Ht I Hm. unfold boot_get_fdt, find_fdt. rewrite Ha, Hv. ceval.
  unfold image_check_type, image_get_type. rewrite (header_byte _ _ _ ih_type Hb). cbn [mbind option_bind h_byte].
  rewrite (proj2 (Z.eqb_neq _ _) Ht). rewrite (format_legacy _ _ _ _ I Hm). done.
Qed.
End stages.

(** ** Booting a kernel with a ramdisk *)

(** Flags of known states. *)
Ltac feval :=
  repeat match goal with
  | |- context [has_flag 0x1f ?b] =>
      let v := eval vm_compute in (has_flag 0x1f b) in change (has_flag 0x1f b) with v
  end.

Section sequence.
Context {HH : EnvHooks} {HOk : EnvHooksOk HH} {BD : Board} {BF : BootFns} (de : list Z).
Context (Hdup : forall s, dup_string s <> None) (Hmalloc : forall n, malloc_ok n = true).

Definition ram_block (M : gmap cstr cstr) : lmb_property := mk_prop (bootm_low_of M) (bootm_size_of M).
Definition kernel_block (f : header) (data : list Z) : lmb_property := mk_prop (h_load f) (Z.of_nat (length data)).

(** [bootm ka ra]: an uncompressed kernel with a ramdisk, both in legacy images.
    The kernel goes to a place that is neither in the ramdisk nor in its own
    image nor in the stack, and somewhere in memory there is room for the ramdisk. *)
Record boot_setup (M : gmap cstr cstr) (m : mem) (ka ra : cstr) (f : header) (data : list Z) (rf : header) (rdata : list Z) : Prop := {
  bs_kernel : image_at m (hex_of ka) f data;
  bs_sealed : sealed f data true = true;
  bs_arch : h_arch f = IH_ARCH_DEFAULT;
  bs_type : h_type f = IH_TYPE_KERNEL;
  bs_comp : h_comp f = IH_COMP_NONE;
  bs_os : h_os f = IH_OS_LINUX;
  bs_data : data <> [] /\ Z.of_nat (length data) <= CONFIG_SYS_BOOTM_LEN;
  bs_select : strcmp_l ra (str "-") <> 0;
  bs_ramdisk : ramdisk_image m (hex_of ra) rf rdata;
  bs_rdata : rdata <> [];
  bs_copy : allocated m copy_addr 64;
  bs_copy_kernel : disjoint_areas (hex_of ka) (64 + Z.of_nat (length data)) copy_addr 64;
  bs_copy_ramdisk : disjoint_areas (hex_of ra) (64 + Z.of_nat (length rdata)) copy_addr 64;
  bs_ram : block_ok (bootm_low_of M) (bootm_size_of M);
  bs_present : ram_present m [ram_block M];
  bs_stack : block_ok (p_base stack_block) (p_size stack_block);
  bs_load : allocated m (h_load f) (Z.of_nat (length data));
  bs_below : h_load f + Z.of_nat (length data) <= stack_base;
  bs_load_kernel : disjoint_areas (h_load f) (Z.of_nat (length data)) (hex_of ka) (64 + Z.of_nat (length data));
  bs_load_ramdisk : disjoint_areas (hex_of ra) (64 + Z.of_nat (length rdata)) (h_load f) (Z.of_nat (length data));
  bs_moved : ~ initrd_in_place M;
  bs_limit : max_ok (initrd_limit M) (Z.of_nat (length rdata));
  bs_room : exists p, placeable [ram_block M] [kernel_block f data; stack_block] (Z.of_nat (length rdata)) 0x1000 (initrd_limit M) p }.

(** The state in which the operating system is started. *)
Record booted (M : gmap cstr cstr) (f : header) (data rdata : list Z) (st : bstate) : Prop := {
  bo_kernel : bytes_at (b_mem st) (h_load f) data;
  bo_entry : ep (images st) = h_ep f;
  bo_ramdisk : bytes_at (b_mem st) (initrd_start (images st)) rdata;
  bo_end : initrd_end (images st) = initrd_start (images st) + Z.of_nat (length rdata);
  bo_placed : placeable [ram_block M] [kernel_block f data; stack_block] (Z.of_nat (length rdata)) 0x1000 (initrd_limit M)
    (initrd_start (images st)) }.

(** Room depends only on which addresses are reserved. *)
Lemma placeable_mono ml rl rl' size align limit a : (forall p, covered rl' p -> covered rl p) ->
  placeable ml rl size align limit a -> placeable ml rl' size align limit a.
Proof using.
  intros H Hp. eapply Exists_impl; [|exact Hp]. intros x (?&?&?&?&Hf). split_and!; [done..|].
  intros p Hin Hc. exact (Hf p Hin (H p Hc)).
Qed.

(** Loading the kernel reserves its place. *)
Lemma load_stage st M f data : let i := images st in let o := os i in
  i_comp o = IH_COMP_NONE -> i_load o = h_load f -> image_len o = Z.of_nat (length data) -> legacy_hdr_valid i <> 0 ->
  bytes_at (b_mem st) (image_start o) data -> data <> [] -> Z.of_nat (length data) <= CONFIG_SYS_BOOTM_LEN ->
  h_load f + Z.of_nat (length data) <= i_start o \/ i_end o <= h_load f ->
  allocated (b_mem st) (h_load f) (Z.of_nat (length data)) -> 0 <= h_load f ->
  h_load f + Z.of_nat (length data) <= stack_base -> allocated (b_mem st) copy_addr 64 ->
  block_ok (p_base stack_block) (p_size stack_block) ->
  wf_region (memory (images_lmb i)) [ram_block M] -> wf_region (reserved (images_lmb i)) [stack_block] ->
  exists m' res' rl, load_state st = Some (0, false, mk_b m' (b_gd st) (set_lmb (mk_lmb (memory (images_lmb i)) res') i)) /\
    copied (b_mem st) m' (h_load f) (image_start o) (Z.of_nat (length data)) /\
    wf_region res' rl /\ (forall p, covered rl p <-> covered [kernel_block f data; stack_block] p) /\
    (length rl < 8)%nat.
Proof using.
  intros i o Hcomp Hload Hlen Hleg Hb Hne Hfit Hdis Hal H0 Hbelow Hcopy Hs Hml Hrl.
  assert (Hn : 0 < Z.of_nat (length data)) by (destruct data; [done|cbn; lia]). destruct Hs as (Hs0 & Hs1 & Hs2).
  change (p_base stack_block) with stack_base in *.
  destruct (load_os_plain (b_mem st) i data) as (m' & Hl & Hc); fold o; rewrite ?Hload; try done; try lia.
  fold o in Hl, Hc. rewrite Hload in Hl, Hc. unfold overwrites in Hl. rewrite Hload, Hlen in Hl.
  assert (E : negb (h_load f =? image_start o) && (h_load f <? i_end o) && (h_load f + Z.of_nat (length data) >? i_start o) = false).
  { rewrite Z.gtb_ltb. destruct (Z.ltb_spec (h_load f) (i_end o)), (Z.ltb_spec (i_start o) (h_load f + Z.of_nat (length data)));
      rewrite ?andb_false_r; try done; lia. }
  rewrite E in Hl. unfold load_state, lmb_reserve. fold i. rewrite Hl. cbn [mbind option_bind images].
  fold o. rewrite Hload. replace (u32 (h_load f + _ - h_load f)) with (Z.of_nat (length data)) by (rewrite u32_small; lia). ceval.
  assert (Hbk : block_ok (h_load f) (Z.of_nat (length data))) by (unfold block_ok; lia).
  destruct (add_region_spec _ _ (h_load f) (Z.of_nat (length data)) Hrl Hbk)
    as [(rl & ret & res' & Ha & -> & Hr)|[_ ?]]; [|cbn [mbind option_bind]|done].
  { intros p Hp Hcv. unfold covered in Hcv. rewrite Exists_cons, Exists_nil in Hcv. unfold in_block, in_prop in *. 
    destruct Hcv as [[? _]|[]]. unfold stack_block in *. cbn [p_base] in *. lia. }
  destruct Hrl as [_ Hch]. eexists m', res', rl. split; [done|]. split; [done|].
  split; [split; [done|by eapply added_chain]|]. split.
  - intros p. rewrite (added_covered _ _ _ _ _ p Hbk Hch Ha), !covered_cons. unfold in_block, in_prop, kernel_block, p_end. cbn. tauto.
  - clear -Ha. inversion Ha as [|pre x post ? ? E|pre z post ? ? E|pre x z post ? ? E|pre post ? ? ? E]; subst;
      apply (f_equal length) in E; rewrite !length_app in *; cbn in *; lia.
Qed.

Lemma flag_of states b : Z.land states 0x3f = 0x1f -> Z.land 0x3f b = b -> has_flag states b = has_flag 0x1f b.
Proof using. intros Hs Hb. unfold has_flag. rewrite <-Hb at 1. by rewrite Z.land_assoc, Hs. Qed.

Lemma plain_var s : forallb (fun c => (0 <? c) && (c <? 256)) (str s) && negb (deref (str s) =? 45) &&
  bool_decide (find_chr 61 (str s) = None) = true -> plain_name (str s).
Proof using.
  intros H. apply andb_prop in H as [H H3]. apply andb_prop in H as [H1 H2]. split; [by apply str_chars|].
  split; [|by apply bool_decide_eq_true in H3]. by apply negb_true_iff, Z.eqb_neq in H2.
Qed.

(** Setting one of the variables that are not read for the boot. *)
Lemma setenv_other gd M k name v : EnvRoom gd M k -> 0 < k -> plain_name name -> v <> [] ->
  exists r gd' M', setenv gd name (Some v) = Some (r, gd') /\ EnvRoom gd' M' (k - 1) /\
    (forall key, key <> name -> M' !! key = M !! key).
Proof using Hdup Hmalloc HOk.
  intros HR Hk Hn Hv. destruct (setenv_room gd M k name v Hdup Hmalloc HR Hk Hn Hv) as (r & gd' & M' & Hs & HR' & HM).
  exists r, gd', M'. split; [done|]. split; [done|]. intros key Hkey. destruct HM as [->| ->]; [done|].
  by rewrite lookup_insert_ne.
Qed.

Lemma other_stage st M k ka ra f data rf rdata local d :
  os (images st) = found_os (hex_of ka) f data d data -> legacy_hdr_valid (images st) = 1 ->
  h_type f = IH_TYPE_KERNEL -> h_os f = IH_OS_LINUX -> h_magic f = IH_MAGIC ->
  image_at (b_mem st) (hex_of ka) f data -> bytes_at (b_mem st) copy_addr (encode f) ->
  strcmp_l ra (str "-") <> 0 -> ramdisk_image (b_mem st) (hex_of ra) rf rdata ->
  EnvRoom (b_gd st) M k -> 0 < k -> length local = 22%nat ->
  exists gd' M', bootm_find_other local [ka; ra] st = Some (0, mk_b (b_mem st) gd' (set_ft 0 0
      (set_rd (hex_of ra + 64) (hex_of ra + 64 + Z.of_nat (length rdata)) (images st)))) /\
    EnvRoom gd' M' (k - 1) /\ (forall key, key <> str "fdtaddr" -> M' !! key = M !! key).
Proof using Hdup Hmalloc HOk.
  intros Ho Hv Ht Hos Hm I Hb Hd R HR Hk Hl.
  destruct (setenv_other (b_gd st) M k (str "fdtaddr") (digit_text 0 10 0)) as (r & gd' & M' & Hs & HR' & HM); try done.
  { by apply plain_var. }
  exists gd', M'. split; [|done]. unfold bootm_find_other. rewrite Ho. unfold found_os at 1 2 3 4 5. cbn [i_type i_os].
  rewrite Ht, Hos. ceval. unfold bootm_find_ramdisk_fdt. rewrite (ramdisk_stage st [ka; ra] ra rf rdata) by done.
  cbn [mbind option_bind]. ceval. unfold bootm_find_fdt. cbn [b_mem images].
  rewrite (no_fdt_stage _ [ka; ra] _ f data); try done; [|by apply I|by rewrite Ht|by cbn; rewrite Ho].
  cbn [mbind option_bind b_gd]. ceval. unfold set_working_fdt_addr. rewrite setenv_ulong_text by (lia || done).
  rewrite Hs. done.
Qed.

(** Placing the ramdisk, in the memory the loaded kernel leaves. *)
Lemma ramdisk_stage_placed st M rl c : let i := images st in
  EnvRoom (b_gd st) M 2 -> wf_region (memory (images_lmb i)) [ram_block M] -> wf_region (reserved (images_lmb i)) rl ->
  (length rl < 8)%nat -> rd_end i = rd_start i + Z.of_nat (length c) -> 0 < rd_start i ->
  rd_start i + Z.of_nat (length c) < 2 ^ 32 -> bytes_at (b_mem st) (rd_start i) c -> c <> [] ->
  ~ initrd_in_place M -> max_ok (initrd_limit M) (Z.of_nat (length c)) -> ram_present (b_mem st) [ram_block M] ->
  (exists p, placeable [ram_block M] rl (Z.of_nat (length c)) 0x1000 (initrd_limit M) p) ->
  exists m' gd' s l', ramdisk_state de st = Some (0, mk_b m' gd' (set_initrd s (s + Z.of_nat (length c)) l' i)) /\
    placeable [ram_block M] rl (Z.of_nat (length c)) 0x1000 (initrd_limit M) s /\
    copied (b_mem st) m' s (rd_start i) (Z.of_nat (length c)).
Proof using Hdup Hmalloc HOk.
  intros i HR Hml Hrl H8 Hre H0 Htop Hb Hne Hin Hmax Hram [p Hp]. unfold ramdisk_state. fold i. rewrite Hre.
  replace (u32 (rd_start i + _ - rd_start i)) with (Z.of_nat (length c)) by (rewrite u32_small; lia).
  destruct (ramdisk_placed de (b_gd st) M (room_rep _ _ _ HR) (b_mem st) (images_lmb i) [ram_block M] rl (rd_start i) c
    Hml Hrl H0 Hb Htop (initrd_end i) Hin Hne Hmax Hram) as (ret & s & e & m' & res' & -> & [(-> & Hs & _ & -> & Hc)|(-> & _ & Hno)]).
  2:{ exfalso. destruct Hno as [Hno|Hcnt]; [by apply (Hno p)|].
      destruct Hrl as [[_ [(_ & E & _)|(_ & E & _)]] _]; unfold MAX_LMB_REGIONS in *; lia. }
  cbn [mbind option_bind]. ceval.
  assert (Hrange : 0 <= s /\ s + Z.of_nat (length c) < 2 ^ 32).
  { apply Exists_exists in Hs as (x & Hx & ? & _ & Hw & _). destruct Hml as [_ Hch].
    destruct (chain_below_hi _ _ x Hch Hx) as (_ & _ & _ & ?). unfold window in Hw. zcase_in Hw; lia. }
  rewrite setenv_hex_text by lia.
  destruct (setenv_other (b_gd st) M 2 (str "initrd_start") (digit_text SMALL 16 s)) as (r1 & gd1 & M1 & -> & HR1 & _); try done.
  { by apply plain_var. }
  { apply digit_text_nonempty; lia. }
  cbn [mbind option_bind]. rewrite setenv_hex_text by lia.
  destruct (setenv_other gd1 M1 1 (str "initrd_end") (digit_text SMALL 16 (s + Z.of_nat (length c)))) as (r2 & gd2 & M2 & -> & _); try done.
  { by apply plain_var. }
  { apply digit_text_nonempty; lia. }
  cbn [mbind option_bind]. eexists m', gd2, s, _. by split.
Qed.

(** The variables the boot depends on are not among those it sets. *)
Lemma boot_vars M M' : (forall key, key <> str "fdtaddr" -> M' !! key = M !! key) ->
  bootm_low_of M' = bootm_low_of M /\ bootm_size_of M' = bootm_size_of M /\ initrd_limit M' = initrd_limit M /\
  (initrd_in_place M' -> initrd_in_place M).
Proof using.
  intros H. unfold bootm_low_of, bootm_size_of, initrd_limit, initrd_in_place. rewrite !H by done. done.
Qed.

(** Loading the kernel and placing the ramdisk, once both are found. *)
Lemma load_and_place st M f data b rf rdata : let i := images st in let o := os i in
  i_comp o = IH_COMP_NONE -> i_load o = h_load f -> image_len o = Z.of_nat (length data) -> legacy_hdr_valid i <> 0 ->
  bytes_at (b_mem st) (image_start o) data -> data <> [] -> Z.of_nat (length data) <= CONFIG_SYS_BOOTM_LEN ->
  h_load f + Z.of_nat (length data) <= i_start o \/ i_end o <= h_load f ->
  allocated (b_mem st) (h_load f) (Z.of_nat (length data)) -> 0 <= h_load f ->
  h_load f + Z.of_nat (length data) <= stack_base -> allocated (b_mem st) copy_addr 64 ->
  block_ok (p_base stack_block) (p_size stack_block) ->
  wf_region (memory (images_lmb i)) [ram_block M] -> wf_region (reserved (images_lmb i)) [stack_block] ->
  ep i = h_ep f -> rd_start i = b + 64 -> rd_end i = b + 64 + Z.of_nat (length rdata) ->
  ramdisk_image (b_mem st) b rf rdata -> disjoint_areas b (64 + Z.of_nat (length rdata)) (h_load f) (Z.of_nat (length data)) ->
  rdata <> [] -> EnvRoom (b_gd st) M 2 -> ~ initrd_in_place M -> max_ok (initrd_limit M) (Z.of_nat (length rdata)) ->
  ram_present (b_mem st) [ram_block M] ->
  (exists p, placeable [ram_block M] [kernel_block f data; stack_block] (Z.of_nat (length rdata)) 0x1000 (initrd_limit M) p) ->
  exists st1 st', load_state st = Some (0, false, st1) /\ ramdisk_state de st1 = Some (0, st') /\ booted M f data rdata st'.
Proof using Hdup Hmalloc HOk.
  intros i o Hcomp Hload Hlen Hleg Hb Hne Hfit Hdis Hal H0 Hbelow Hcopy Hs Hml Hrl Hep Hrs Hre R Hrd Hrne HR Hin Hmax Hram [p Hp].
  destruct (load_stage st M f data) as (m' & res' & rl & Hload' & Hc & Hrl' & Hcov & H8); try done.
  pose proof (copied_outside _ _ _ _ _ Hc) as Ho. pose proof (ramdisk_outside _ _ _ _ _ _ _ Ho Hrd R) as [[Hrb Hrok _ _ Hra] _ _ _ _].
  apply bytes_at_app in Hrb as [_ Hrb]. rewrite encode_length in Hrb by done.
  destruct (ramdisk_stage_placed (mk_b m' (b_gd st) (set_lmb (mk_lmb (memory (images_lmb i)) res') i)) M rl rdata)
    as (m'' & gd' & s & l' & Hr & Hpl & Hc2); cbn [images b_gd b_mem set_lmb images_lmb rd_start rd_end memory reserved];
    rewrite ?Hrs, ?Hre; try done; try lia.
  { intros q Hq. apply (copied_alloc _ _ _ _ _ q 1 (bytes_allocated _ _ _ Hb) Hc); [|lia].
    intros q' Hq'. replace q' with q by lia. by apply Hram. }
  { exists p. eapply placeable_mono; [|exact Hp]. intros q Hq. by apply Hcov. }
  cbn [images b_gd b_mem set_lmb images_lmb rd_start] in Hc2. rewrite Hrs in Hc2.
  assert (Hpl' : placeable [ram_block M] [kernel_block f data; stack_block] (Z.of_nat (length rdata)) 0x1000 (initrd_limit M) s)
    by (eapply placeable_mono; [|exact Hpl]; intros q Hq; by apply Hcov).
  eexists _, _. split; [exact Hload'|]. split; [exact Hr|]. split; cbn; try done.
  - eapply outside_bytes; [by eapply copied_outside| |by eapply copied_bytes].
    apply Exists_exists in Hpl' as (x & _ & _ & _ & _ & _ & Hf). unfold disjoint_areas.
    assert (Hn : 0 < Z.of_nat (length data)) by (destruct data; [done|cbn; lia]).
    assert (Hn' : 0 < Z.of_nat (length rdata)) by (destruct rdata; [done|cbn; lia]).
    destruct (Z_le_gt_dec (h_load f + Z.of_nat (length data)) s); [by left|].
    destruct (Z_le_gt_dec (s + Z.of_nat (length rdata)) (h_load f)); [by right|]. exfalso.
    apply (Hf (Z.max s (h_load f))); [unfold in_block; lia|]. rewrite covered_cons. left.
    unfold in_prop, kernel_block, p_end. cbn. lia.
  - by eapply copied_bytes.
Qed.

Lemma boot_sequence st M ka ra f data rf rdata local load_addr states :
  boot_setup M (b_mem st) ka ra f data rf rdata -> EnvRoom (b_gd st) M 3 -> length local = 22%nat ->
  Z.land states 0x3f = 0x1f ->
  exists st', do_bootm_states de local load_addr [ka; ra] states st = os_states [] states st' /\ booted M f data rdata st'.
Proof using Hdup Hmalloc HOk.
  intros B HR Hl Hst. pose proof (sealed_magic _ _ _ (bs_sealed _ _ _ _ _ _ _ _ B)) as Hmagic.
  unfold do_bootm_states, run_state. rewrite !(flag_of states) by done. feval. cbn [b_mem b_gd images].
  set (st0 := mk_b _ _ _).
  destruct (start_stage de st0 M) as (m1 & l1 & v & -> & O1 & A1 & W1 & W2);
    [by eapply room_rep|apply B|apply B|apply B|].
  change (b_mem st0) with (b_mem st) in *. change (b_gd st0) with (b_gd st). cbn [mbind option_bind]. ceval.
  set (i1 := mk_images _ _ _ _ _ _ _ _ _ _ _ _ _).
  pose proof (image_outside _ _ _ _ _ _ _ O1 (bs_copy_kernel _ _ _ _ _ _ _ _ B) (bs_kernel _ _ _ _ _ _ _ _ B)) as I1.
  pose proof (ramdisk_outside _ _ _ _ _ _ _ O1 (bs_copy_ramdisk _ _ _ _ _ _ _ _ B) (bs_ramdisk _ _ _ _ _ _ _ _ B)) as R1.
  destruct (find_os_valid de load_addr [ka; ra] (mk_b m1 (b_gd st) i1) f data I1 Hmagic) with (c := data)
    as (d & m2 & -> & Hd1 & Hd2 & I2 & Hb2 & He2 & O2); try apply B; try done.
  { unfold listed. rewrite (bs_type _ _ _ _ _ _ _ _ B). intros [?|?]; done. }
  { by apply sealed_any, B. }
  { left. split; [|done]. left. apply B. }
  assert (A2 : allocated m2 copy_addr 64).
  { replace 64 with (Z.of_nat (length (encode f))) by by rewrite encode_length by apply I2. by apply bytes_allocated. }
  cbn [mbind option_bind]. ceval.
  pose proof (ramdisk_outside _ _ _ _ _ _ _ O2 (bs_copy_ramdisk _ _ _ _ _ _ _ _ B) R1) as R2.
  set (i2 := set_os _ _ _). cbn [b_gd]. ceval.
  destruct (other_stage (mk_b m2 (b_gd st) i2) M 3 ka ra f data rf rdata local d) as (gd3 & M3 & -> & HR3 & HM3); try apply B; try done.
  cbn [mbind option_bind]. ceval.
  set (i3 := set_ft _ _ _). cbn [b_mem]. destruct (boot_vars M M3 HM3) as (V1 & V2 & V3 & V4).
  assert (Hram : ram_block M3 = ram_block M) by (unfold ram_block; by rewrite V1, V2).
  destruct (load_and_place (mk_b m2 gd3 i3) M3 f data (hex_of ra) rf rdata) as (st4 & st5 & -> & Hr & Hbt);
    rewrite ?Hram, ?V3; try apply B; try done.
  - cbn. by rewrite (bs_type _ _ _ _ _ _ _ _ B).
  - cbn. destruct (bs_load_kernel _ _ _ _ _ _ _ _ B) as [H|H]; [by left|right]. unfold hex_of in H. lia.
  - apply (outside_allocated _ _ _ _ _ _ (outside_trans _ _ _ _ _ O1 O2) A2), B.
  - apply (header_word_ok f ih_load), I2.
  - cbn. unfold found_ep. by rewrite (bs_type _ _ _ _ _ _ _ _ B).
  - intros Hin. by apply (bs_moved _ _ _ _ _ _ _ _ B), V4.
  - intros q Hq. apply (outside_allocated _ _ _ _ q 1 (outside_trans _ _ _ _ _ O1 O2) A2); [|lia].
    intros q' Hq'. replace q' with q by lia. by apply (bs_present _ _ _ _ _ _ _ _ B).
  - cbn [mbind option_bind]. ceval. rewrite Hr. cbn [mbind option_bind]. ceval. exists st5. split; [done|].
    destruct Hbt as [? ? ? ? Hpl]. split; try done. by rewrite <-Hram, <-V3.
Qed.
End sequence.

(** ** Properties *)



(** C15: [boot_ramdisk_high] moves the ramdisk to the highest page-aligned place in
    memory that lies below [initrd_high] and is not reserved, copies every byte of
    it (the places may overlap) and writes nothing else; it fails only when there
    is no such place or the table of reservations is full.  With [initrd_high] all
    ones the ramdisk stays where it is and is reserved. *)
Theorem boot_ramdisk_high_correct `{HH : EnvHooks} `{BD : Board} de gd M m lm ml rl rd_data c e0 :
  let len := Z.of_nat (length c) in
  EnvRep gd M -> wf_region (memory lm) ml -> wf_region (reserved lm) rl ->
  0 < rd_data -> rd_data + len < 2 ^ 32 -> bytes_at m rd_data c -> c <> [] ->
  (initrd_in_place M -> exists ret res', lmb_add_region (reserved lm) rd_data len = Some (ret, res') /\
     boot_ramdisk_high de m gd lm rd_data len e0 = Some (0, rd_data, rd_data + len, m, gd, mk_lmb (memory lm) res')) /\
  (~ initrd_in_place M -> max_ok (initrd_limit M) len -> ram_present m ml ->
   exists ret s e m' res', boot_ramdisk_high de m gd lm rd_data len e0 = Some (ret, s, e, m', gd, mk_lmb (memory lm) res') /\
     ((ret = 0 /\ placeable ml rl len 0x1000 (initrd_limit M) s /\
       (forall a, placeable ml rl len 0x1000 (initrd_limit M) a -> a <= s) /\ e = s + len /\
       bytes_at m' s c /\ same_outside m m' s len) \/
      (ret = -1 /\ m' = m /\
       ((forall a, ~ placeable ml rl len 0x1000 (initrd_limit M) a) \/ r_cnt (reserved lm) = MAX_LMB_REGIONS)))).
Proof.
  intros len HM Hml Hrl Hrd Hlen Hb Hne. split; [intros; by eapply ramdisk_in_place|]. intros Hin Hmax Hram.
  destruct (ramdisk_placed de gd M HM m lm ml rl rd_data c Hml Hrl Hrd Hb Hlen e0 Hin Hne Hmax Hram)
    as (ret & s & e & m' & res' & E & [(-> & H1 & H2 & -> & Hc)|H]); eexists _, s, _, m', res'; (split; [exact E|]).
  - left. split_and!; try done; [by eapply copied_bytes|by eapply copied_outside].
  - by right.
Qed.

(** ** Examples *)

#[local] Instance ex_board : Board := {|
  dram_start := 0x10000000; dram_size := 0x8000; get_sp := 0x10007000; serial_high := 0; serial_low := 0;
  local_header := 0x10006f00; copy_addr := 0x10007100; stack_data := 0; stack_len := 0; watchdog := false;
  gunzip _ _ _ _ _ := None; fdt_open_into _ _ _ _ := None |}.
#[local] Instance ex_fns : BootFns := {|
  do_bootm_standalone _ _ st := Some (0, st); do_bootm_linux _ _ st := Some (0, st); do_bootm_netbsd _ _ st := Some (0, st);
  do_bootm_rtems _ _ st := Some (0, st); do_bootm_plan9 _ _ st := Some (0, st); do_bootm_vxworks _ _ st := Some (0, st) |}.

Definition ex_header (type load : Z) : header :=
  mk_header 0 0 0 0 load load 0 IH_OS_LINUX IH_ARCH_DEFAULT type IH_COMP_NONE (str "test" ++ replicate 28 0).
Definition ex_kdata : list Z := [1; 2; 3; 4; 5; 6; 7; 8].
Definition ex_rdata : list Z := [9; 8; 7; 6].
Definition ex_kernel : header := seal (ex_header IH_TYPE_KERNEL 0x10001000) ex_kdata.
Definition ex_ramdisk : header := seal (ex_header IH_TYPE_RAMDISK 0) ex_rdata.
Definition ex_bytes : list Z :=
  (encode ex_kernel ++ ex_kdata) ++ replicate (Z.to_nat 0xb8) 0 ++ (encode ex_ramdisk ++ ex_rdata) ++ replicate (Z.to_nat 0x7ebc) 0.
Definition ex_ram : mem := mem_of 0x10000000 ex_bytes.
Definition ex_vars : gmap cstr cstr := {[ [97] := [49] ]}.
Definition ex_state : bstate := mk_b ex_ram gd_a zero_images.

Lemma ex_ram_bytes : bytes_at ex_ram 0x10000000 ex_bytes.
Proof. apply mem_of_bytes. Qed.

Lemma ex_lengths : length (encode ex_kernel ++ ex_kdata) = 72%nat /\ length (encode ex_ramdisk ++ ex_rdata) = 68%nat.
Proof. split; vm_compute; reflexivity. Qed.

Lemma ex_bytes_at : bytes_at ex_ram 0x10000000 (encode ex_kernel ++ ex_kdata) /\
  bytes_at ex_ram 0x10000100 (encode ex_ramdisk ++ ex_rdata).
Proof.
  pose proof ex_ram_bytes as H. unfold ex_bytes in H. destruct ex_lengths as [L1 L2].
  apply bytes_at_app in H as [H1 H]. apply bytes_at_app in H as [_ H]. apply bytes_at_app in H as [H2 _].
  split; [exact H1|]. rewrite length_replicate, L1 in H2.
  replace 0x10000100 with (0x10000000 + Z.of_nat 72 + Z.of_nat (Z.to_nat 0xb8)) by lia. exact H2.
Qed.

Lemma ex_allocated a n : 0x10000000 <= a -> a + n <= 0x10008000 -> allocated ex_ram a n.
Proof.
  intros H1 H2 p Hp. pose proof (bytes_allocated _ _ _ ex_ram_bytes) as H. apply H. destruct ex_lengths as [L1 L2].
  unfold ex_bytes. rewrite !(length_app (_ ++ _) (_ ++ _)), !(length_app (replicate _ _)), !(length_app (encode ex_ramdisk ++ _)).
  rewrite L1, L2, !length_replicate. lia.
Qed.

Lemma ex_addrs : hex_of (str "10000000") = 0x10000000 /\ hex_of (str "10000100") = 0x10000100.
Proof. split; vm_compute; reflexivity. Qed.

Lemma ex_headers : header_ok ex_kernel /\ header_ok ex_ramdisk.
Proof. split; (split; [|split; [|done]]); repeat constructor; vm_compute; congruence. Qed.

Lemma ex_map : bootm_low_of ex_vars = 0x10000000 /\ bootm_size_of ex_vars = 0x8000 /\ initrd_limit ex_vars = 0xffffffff /\
  stack_block = mk_prop 0x10006000 0x2000.
Proof. split_and!; vm_compute; reflexivity. Qed.

Lemma ex_images : image_at ex_ram 0x10000000 ex_kernel ex_kdata /\ image_at ex_ram 0x10000100 ex_ramdisk ex_rdata.
Proof.
  destruct ex_bytes_at as [H1 H2], ex_headers as [O1 O2].
  split; (split; [assumption|assumption|reflexivity|repeat constructor; vm_compute; congruence|vm_compute; split; congruence]).
Qed.

Lemma ex_setup : boot_setup ex_vars ex_ram (str "10000000") (str "10000100") ex_kernel ex_kdata ex_ramdisk ex_rdata.
Proof.
  destruct ex_addrs as [A1 A2], ex_images as [I1 I2], ex_map as (M1 & M2 & M3 & M4).
  pose proof (seal_sealed (ex_header IH_TYPE_KERNEL 0x10001000) ex_kdata true) as S1. fold ex_kernel in S1.
  pose proof (seal_sealed (ex_header IH_TYPE_RAMDISK 0) ex_rdata true) as S2. fold ex_ramdisk in S2.
  split; rewrite ?A1, ?A2, ?M1, ?M2, ?M3, ?M4; try assumption; try reflexivity.
  - split; [discriminate|vm_compute; congruence].
  - vm_compute. congruence.
  - split; [assumption|assumption|reflexivity..].
  - discriminate.
  - apply ex_allocated; vm_compute; congruence.
  - left. vm_compute. congruence.
  - left. vm_compute. congruence.
  - vm_compute. split; [|split]; congruence.
  - intros p Hp. unfold ram_block in Hp. rewrite M1, M2, covered_cons, covered_nil in Hp.
    destruct Hp as [Hp|[]]. unfold in_prop, p_end in Hp. cbn in Hp. apply (ex_allocated p 1); lia.
  - vm_compute. split; [|split]; congruence.
  - apply ex_allocated; vm_compute; congruence.
  - vm_compute. congruence.
  - right. vm_compute. congruence.
  - left. vm_compute. congruence.
  - intros (s & Hs & _). vm_compute in Hs. congruence.
  - right. vm_compute. split; congruence.
  - exists 0x10005000. unfold ram_block. rewrite M1, M2. constructor. unfold fits, window.
    split; [reflexivity|]. split; [vm_compute; congruence|]. split; [vm_compute; congruence|]. split.
    + by exists 0x10005.
    + intros p Hp Hc. rewrite !covered_cons, covered_nil in Hc. unfold in_block, in_prop, p_end in *.
      change (p_base (kernel_block ex_kernel ex_kdata)) with 0x10001000 in Hc.
      change (p_size (kernel_block ex_kernel ex_kdata)) with 8 in Hc. change (Z.of_nat (length ex_rdata)) with 4 in Hp.
      cbn in Hc. lia.
Qed.

Lemma ex_room : EnvRoom gd_a ex_vars 3.
Proof.
  destruct table_a_rep as [tab HR]. split; [reflexivity|]. exists tab. split; [exact HR|].
  assert (Htab : tab = default [] (Hashtable.table table_a)) by (pose proof (Hashtable.rep_table _ _ _ HR) as Ht; by injection Ht as <-).
  rewrite Htab. vm_compute. congruence.
Qed.



Definition ex_regions : lmb := mk_lmb (mk_region 1 0 (slots [mk_prop 0x10000000 0x8000])) (mk_region 1 0 (slots [mk_prop 0x10006000 0x2000])).

Lemma ex_regions_wf : wf_region (memory ex_regions) [mk_prop 0x10000000 0x8000] /\
  wf_region (reserved ex_regions) [mk_prop 0x10006000 0x2000].
Proof.
  split; (split; [split; [reflexivity|right; split; [discriminate|]; split; [reflexivity|]; split; [vm_compute; congruence|eexists; reflexivity]]|]);
    cbn; unfold p_end; cbn; lia.
Qed.

Lemma boot_ramdisk_high_correct_witness : exists ret s e m' l,
  @boot_ramdisk_high plain_hooks _ [] ex_ram gd_a ex_regions 0x10000140 4 0 = Some (ret, s, e, m', gd_a, l).
Proof.
  destruct ex_regions_wf as [W1 W2], ex_images as [_ [Hb _ _ _ _]]. apply bytes_at_app in Hb as [_ Hb].
  rewrite (encode_length ex_ramdisk (proj2 ex_headers)) in Hb.
  destruct (@boot_ramdisk_high_correct plain_hooks ex_board [] gd_a ex_vars ex_ram ex_regions _ _ 0x10000140 ex_rdata 0
    (room_rep _ _ _ ex_room) W1 W2) as [_ H]; [reflexivity|vm_compute; reflexivity|exact Hb|discriminate|].
  destruct H as (ret & s & e & m' & res' & H & _).
  - intros (s & Hs & _). vm_compute in Hs. congruence.
  - right. vm_compute. split; congruence.
  - intros p Hp. rewrite covered_cons, covered_nil in Hp. destruct Hp as [Hp|[]]. unfold in_prop, p_end in Hp. cbn in Hp.
    apply (ex_allocated p 1); lia.
  - exists ret, s, e, m'. eexists. exact H.
Defined.

(** A kernel that is loaded over its own image: [bootm] goes on, but does not
    reserve the place of the kernel, and the ramdisk is then put over it. *)
Definition low_board : Board := {|
  dram_start := 0x10000000; dram_size := 0x3000; get_sp := 0x10003000; serial_high := 0; serial_low := 0;
  local_header := 0x10002f00; copy_addr := 0x10002100; stack_data := 0; stack_len := 0; watchdog := false;
  gunzip _ _ _ _ _ := None; fdt_open_into _ _ _ _ := None |}.
Definition low_data : list Z := replicate 32 1.
Definition low_kernel : header := seal (ex_header IH_TYPE_KERNEL 0x10001000) low_data.
Definition low_state : bstate :=
  mk_b (mem_of 0x10000100 (encode ex_ramdisk ++ ex_rdata) ∪ mem_of 0x10000fd0 (encode low_kernel ++ low_data) ∪
        mem_of 0x10002100 (replicate 64 0)) gd_a zero_images.

Lemma bootm_overlap_unreserved :
  match @do_bootm_states plain_hooks low_board [] ex_fns (replicate 22 0) 0 [str "10000fd0"; str "10000100"] 0x1f low_state with
  | Some (returned 0, st) =>
      initrd_start (images st) = i_load (os (images st)) /\ load (b_mem st) (i_load (os (images st))) = Some 9
  | _ => False
  end.
Proof. vm_compute. split; reflexivity. Qed.

(** The array of boot functions has 24 entries, the field [ih_os] of a header is
    any byte: an operating system from 24 on indexes out of the array. *)
Lemma boot_os_out_of_range `{BF : BootFns} o : 24 <= o -> bootm_os_get_boot_func o = None.
Proof.
  intros Ho. unfold bootm_os_get_boot_func, aget. zcase; [|lia]. apply lookup_ge_None. cbn. lia.
Qed.

(** An Android image without a second stage leaves the length of the device tree
    as it was, and [boot_get_fdt] has not set it. *)
Lemma android_fdt_unset m hdr fdt_data fdt_len : second_size m hdr = Some 0 ->
  android_image_get_fdt m hdr fdt_data fdt_len = Some (-1, fdt_data, fdt_len).
Proof. intros H. unfold android_image_get_fdt. by rewrite H. Qed.

(** With [bootm_low] 32 MB into the RAM of the example, the size that is left is
    computed from the address and not from the offset. *)
Lemma bootm_size_from_address (BD : Board) : dram_start = 0x10000000 -> dram_size = 0x40000000 ->
  bootm_size_of {[ str "bootm_low" := str "12000000" ]} = 0x2e000000.
Proof. intros _ H. unfold bootm_size_of. rewrite lookup_singleton_ne, lookup_singleton_eq, H by done. reflexivity. Qed.
