(* ===== verification/Tftp.v ===== *)
(** * Tftp: loading a file over the network ([net/tftp.c])

    The client of the Trivial File Transfer Protocol: [TftpStart] asks a server
    for a file, [TftpHandler] takes the packets of the server and [TftpTimeout]
    the expiry of the timer.  They are run by the loop of [net/net.c] until its
    state is no longer [NETLOOP_CONTINUE].  The configuration has neither
    [tftpput] nor the TFTP server, nor multicast transfers or the [tsize] option.

    The second part is the other side: a server after RFC 1350 and RFC 2347, and
    a network between the two that loses and repeats packets, as a transition
    system on which the client is shown to load the file. *)
From stdpp Require Import gmap relations.
From Stdlib Require Import String Sorted.
From S2P Require Import Prelude CString Hashtable HashIO EnvFlags Numbers Vsprintf Crc Image Environment.
#[local] Open Scope Z_scope.

Definition WELL_KNOWN_PORT : Z := 69.
Definition TIMEOUT : Z := 5000.
Definition TIMEOUT_COUNT : Z := 10.
Definition CONFIG_SYS_HZ : Z := 1000.
Definition TFTP_RRQ : Z := 1.
Definition TFTP_DATA : Z := 3.
Definition TFTP_ACK : Z := 4.
Definition TFTP_ERROR : Z := 5.
Definition TFTP_OACK : Z := 6.
Definition TFTP_ERR_FILE_NOT_FOUND : Z := 1.
Definition TFTP_ERR_ACCESS_DENIED : Z := 2.
Definition STATE_SEND_RRQ : Z := 1.
Definition STATE_DATA : Z := 2.
Definition STATE_TOO_LARGE : Z := 3.
Definition STATE_BAD_MAGIC : Z := 4.
Definition STATE_OACK : Z := 5.
Definition STATE_RECV_WRQ : Z := 6.
Definition STATE_SEND_WRQ : Z := 7.
Definition TFTP_BLOCK_SIZE : Z := 512.
Definition TFTP_SEQUENCE_SIZE : Z := 65536.
Definition TFTP_MAX_LEN : Z := 128.
Definition TFTP_MTU_BLOCKSIZE : Z := 1468.

(** ** State *)

Inductive net_loop_state := NETLOOP_CONTINUE | NETLOOP_RESTART | NETLOOP_SUCCESS | NETLOOP_FAIL.

(** The functions the timer may call. *)
Inductive thand := TftpTimeout_f | startAgainTimeout.

Record peer := mk_peer { TftpRemoteIP : Z; TftpRemotePort : Z; TftpOurPort : Z }.
Record timing := mk_timing {
  TftpTimeoutCount : Z; TftpTimeoutCountMax : Z; TftpTimeoutMSecs : Z; timeHandler : option thand; timeDelta : Z }.
Record xfer := mk_xfer { TftpBlock : Z; TftpLastBlock : Z; TftpBlockWrap : Z; TftpBlockWrapOffset : Z }.
(** The state of the network loop; [udp_handler] says whether [TftpHandler] is
    installed. *)
Record netloop := mk_loop { net_state : net_loop_state; NetTryCount : Z; udp_handler : bool }.

(** The variables of the file, the memory and the packets sent: the address, the
    two ports and the contents. *)
Record tftp := mk_tftp {
  t_peer : peer; t_timing : timing; t_xfer : xfer; t_loop : netloop; TftpState : Z; TftpBlkSize : Z; TftpBlkSizeOption : Z;
  tftp_filename : cstr; NetBootFileXferSize : Z; ram : mem; tx : list (Z * Z * Z * list Z) }.

Definition with_peer (t : tftp) (p : peer) : tftp :=
  mk_tftp p (t_timing t) (t_xfer t) (t_loop t) (TftpState t) (TftpBlkSize t) (TftpBlkSizeOption t) (tftp_filename t)
    (NetBootFileXferSize t) (ram t) (tx t).
Definition with_timing (t : tftp) (c : timing) : tftp :=
  mk_tftp (t_peer t) c (t_xfer t) (t_loop t) (TftpState t) (TftpBlkSize t) (TftpBlkSizeOption t) (tftp_filename t)
    (NetBootFileXferSize t) (ram t) (tx t).
Definition with_xfer (t : tftp) (x : xfer) : tftp :=
  mk_tftp (t_peer t) (t_timing t) x (t_loop t) (TftpState t) (TftpBlkSize t) (TftpBlkSizeOption t) (tftp_filename t)
    (NetBootFileXferSize t) (ram t) (tx t).
Definition with_loop (t : tftp) (l : netloop) : tftp :=
  mk_tftp (t_peer t) (t_timing t) (t_xfer t) l (TftpState t) (TftpBlkSize t) (TftpBlkSizeOption t) (tftp_filename t)
    (NetBootFileXferSize t) (ram t) (tx t).
Definition with_tftp_state (t : tftp) (s : Z) : tftp :=
  mk_tftp (t_peer t) (t_timing t) (t_xfer t) (t_loop t) s (TftpBlkSize t) (TftpBlkSizeOption t) (tftp_filename t)
    (NetBootFileXferSize t) (ram t) (tx t).
Definition with_blksize (t : tftp) (n : Z) : tftp :=
  mk_tftp (t_peer t) (t_timing t) (t_xfer t) (t_loop t) (TftpState t) n (TftpBlkSizeOption t) (tftp_filename t)
    (NetBootFileXferSize t) (ram t) (tx t).
Definition with_file (t : tftp) (size : Z) (m : mem) : tftp :=
  mk_tftp (t_peer t) (t_timing t) (t_xfer t) (t_loop t) (TftpState t) (TftpBlkSize t) (TftpBlkSizeOption t)
    (tftp_filename t) size m (tx t).
Definition with_tx (t : tftp) (l : list (Z * Z * Z * list Z)) : tftp :=
  mk_tftp (t_peer t) (t_timing t) (t_xfer t) (t_loop t) (TftpState t) (TftpBlkSize t) (TftpBlkSizeOption t)
    (tftp_filename t) (NetBootFileXferSize t) (ram t) l.

(** What the client takes from elsewhere: the address files are loaded to, the
    variables of the environment, the addresses and the file name of the request,
    the timer when the port is chosen, whether all interfaces have been tried when
    [eth_try_another] returns ([NetRestartWrap]), whether there is a device, and
    the number of retries of the request. *)
Class Net := {
  load_addr : Z;
  net_getenv : cstr -> option cstr;
  NetServerIP : Z;
  NetOurIP : Z;
  BootFile : cstr;
  get_timer : Z;
  NetRestartWrap : bool;
  NetDevExists : bool;
  TftpRRQTimeoutCountMax : Z }.

Section client.
Context {NN : Net}.

(** ** The network loop *)

Definition net_set_state (t : tftp) (s : net_loop_state) : tftp :=
  with_loop t (mk_loop s (NetTryCount (t_loop t)) (udp_handler (t_loop t))).

Definition NetSetTimeout (t : tftp) (iv : Z) (f : thand) : tftp :=
  let c := t_timing t in
  with_timing t (if iv =? 0 then mk_timing (TftpTimeoutCount c) (TftpTimeoutCountMax c) (TftpTimeoutMSecs c) None (timeDelta c)
                 else mk_timing (TftpTimeoutCount c) (TftpTimeoutCountMax c) (TftpTimeoutMSecs c) (Some f)
                              (u32 (iv * CONFIG_SYS_HZ) / 1000)).

(** What leaves: the headers of the lower layers, and the wait for the Ethernet
    address of the server, belong to the network. *)
Definition NetSendUDPPacket (t : tftp) (payload : list Z) : tftp :=
  let p := t_peer t in with_tx t (tx t ++ [(TftpRemoteIP p, TftpRemotePort p, TftpOurPort p, payload)]).

Definition NetStartAgain (t : tftp) : tftp :=
  let '(retry_forever, retrycnt) :=
    match net_getenv (str "netretry") with
    | Some nretry =>
        if strcmp_l nretry (str "yes") =? 0 then (true, 0)
        else if strcmp_l nretry (str "no") =? 0 then (false, 0)
        else if strcmp_l nretry (str "once") =? 0 then (false, 1)
        else (false, fst (simple_strtoul nretry 0))
    | None => (true, 0)
    end in
  let l := t_loop t in
  if negb retry_forever && (u32 (NetTryCount l) >=? retrycnt) then net_set_state t NETLOOP_FAIL else
  let t := with_loop t (mk_loop (net_state l) (NetTryCount l + 1) (udp_handler l)) in
  if NetRestartWrap then
    if NetDevExists then
      let t := NetSetTimeout t 10000 startAgainTimeout in
      with_loop t (mk_loop (net_state l) (NetTryCount l + 1) false)
    else net_set_state t NETLOOP_FAIL
  else net_set_state t NETLOOP_RESTART.

(** ** Blocks *)

(** Stores bytes one after the other. *)
Fixpoint store_list (m : mem) (a : Z) (l : list Z) : option mem :=
  match l with
  | [] => Some m
  | x :: l => m ← store m a x; store_list m (a + 1) l
  end.

(** A product of [int]s; overflow is undefined. *)
Definition int_mul (a b : Z) : option Z := if (- 2 ^ 31 <=? a * b) && (a * b <? 2 ^ 31) then Some (a * b) else None.

Definition store_block (t : tftp) (block : Z) (src : list Z) (len : Z) : option tftp :=
  p ← int_mul block (TftpBlkSize t);
  let offset := u32 (p + TftpBlockWrapOffset (t_xfer t)) in
  let newsize := u32 (offset + len) in
  if Z.of_nat (length src) <? len then None else
  m ← store_list (ram t) (u32 (load_addr + offset)) (take (Z.to_nat len) src);
  Some (with_file t (if NetBootFileXferSize t <? newsize then newsize else NetBootFileXferSize t) m).

Definition new_transfer (t : tftp) : tftp := with_xfer t (mk_xfer (TftpBlock (t_xfer t)) 0 0 0).

(** The message of the restart is left out. *)
Definition restart (t : tftp) : tftp := NetStartAgain t.

Definition update_block_number (t : tftp) : tftp :=
  let x := t_xfer t in
  if (TftpBlock x =? 0) && negb (TftpLastBlock x =? 0) then
    let c := t_timing t in
    let t := with_xfer t (mk_xfer (TftpBlock x) (TftpLastBlock x) (u32 (TftpBlockWrap x + 1))
               (u32 (TftpBlockWrapOffset x + TftpBlkSize t * TFTP_SEQUENCE_SIZE))) in
    with_timing t (mk_timing 0 (TftpTimeoutCountMax c) (TftpTimeoutMSecs c) (timeHandler c) (timeDelta c))
  else t.

Definition tftp_complete (t : tftp) : tftp := net_set_state t NETLOOP_SUCCESS.

(** ** Sending *)

(** [htons] stored in the packet. *)
Definition net16 (n : Z) : list Z := [u8 (Z.shiftr n 8); u8 n].

(** The packet of the current state. *)
Definition tftp_packet (t : tftp) : option (list Z) :=
  let s := TftpState t in
  if (s =? STATE_SEND_RRQ) || (s =? STATE_SEND_WRQ) then
    secs ← render ∅ (str "%lu") [word (TftpTimeoutMSecs (t_timing t) / 1000)];
    size ← render ∅ (str "%d") [word (TftpBlkSizeOption t)];
    Some (net16 TFTP_RRQ ++ tftp_filename t ++ [0] ++ str "octet" ++ [0] ++ str "timeout" ++ [0] ++ secs ++ [0] ++
          str "blksize" ++ [0] ++ size ++ [0])
  else if (s =? STATE_OACK) || (s =? STATE_RECV_WRQ) || (s =? STATE_DATA) then
    Some (net16 TFTP_ACK ++ net16 (TftpBlock (t_xfer t)))
  else if s =? STATE_TOO_LARGE then Some (net16 TFTP_ERROR ++ net16 3 ++ str "File too large" ++ [0])
  else if s =? STATE_BAD_MAGIC then Some (net16 TFTP_ERROR ++ net16 2 ++ str "File has bad magic" ++ [0])
  else Some [].

Definition TftpSend (t : tftp) : option tftp := p ← tftp_packet t; Some (NetSendUDPPacket t p).

(** ** Receiving *)

(** The string at the start of a buffer. *)
Fixpoint c_str (l : list Z) : option cstr :=
  match l with
  | [] => None
  | x :: l => if x =? 0 then Some [] else cons x <$> c_str l
  end.

(** [strcmp] of a buffer with a string. *)
Fixpoint strcmp_b (l : list Z) (t : cstr) : option Z :=
  match l, t with
  | [], _ => None
  | x :: _, [] => Some (s8 (x - 0))
  | x :: l, y :: t => if negb (s8 (x - y) =? 0) then Some (s8 (x - y)) else strcmp_b l t
  end.

Definition read16 (pkt : list Z) : option Z :=
  match pkt with a :: b :: _ => Some (Z.lor (Z.shiftl a 8) b) | _ => None end.

(** The loop over an option acknowledgement; the block size it leaves. *)
Fixpoint oack_loop (fuel : nat) (pkt : list Z) (i len blk : Z) : option Z :=
  match fuel with
  | O => None
  | S fuel =>
      if i + 8 <? len then
        r ← strcmp_b (drop (Z.to_nat i) pkt) (str "blksize");
        blk ← (if r =? 0 then s ← c_str (drop (Z.to_nat (i + 8)) pkt); Some (u16 (fst (simple_strtoul s 10)))
               else Some blk);
        oack_loop fuel pkt (i + 1) len blk
      else Some blk
  end.

Definition with_remote_port (t : tftp) (src : Z) : tftp :=
  with_peer t (mk_peer (TftpRemoteIP (t_peer t)) src (TftpOurPort (t_peer t))).
Definition with_block (t : tftp) (b : Z) : tftp :=
  let x := t_xfer t in with_xfer t (mk_xfer b (TftpLastBlock x) (TftpBlockWrap x) (TftpBlockWrapOffset x)).
Definition with_last_block (t : tftp) (b : Z) : tftp :=
  let x := t_xfer t in with_xfer t (mk_xfer (TftpBlock x) b (TftpBlockWrap x) (TftpBlockWrapOffset x)).
Definition with_timeout_max (t : tftp) (n : Z) : tftp :=
  let c := t_timing t in
  with_timing t (mk_timing (TftpTimeoutCount c) n (TftpTimeoutMSecs c) (timeHandler c) (timeDelta c)).

Definition handle_oack (t : tftp) (pkt : list Z) (src len : Z) : option tftp :=
  let t := with_remote_port (with_tftp_state t STATE_OACK) src in
  blk ← oack_loop (S (Z.to_nat len)) pkt 0 len (TftpBlkSize t);
  TftpSend (with_blksize t blk).

(** From the test for a repeated block on. *)
Definition accept_data (t : tftp) (pkt : list Z) (len : Z) : option tftp :=
  let block := TftpBlock (t_xfer t) in
  if block =? TftpLastBlock (t_xfer t) then Some t else
  let t := with_timeout_max (with_last_block t block) TIMEOUT_COUNT in
  let t := NetSetTimeout t (TftpTimeoutMSecs (t_timing t)) TftpTimeout_f in
  t ← store_block t (s32 (u32 (block - 1))) (drop 2 pkt) len;
  t ← TftpSend t;
  Some (if len <? TftpBlkSize t then tftp_complete t else t).

Definition handle_data (t : tftp) (pkt : list Z) (src len : Z) : option tftp :=
  if len <? 2 then Some t else
  let len := len - 2 in
  b ← read16 pkt;
  let t := update_block_number (with_block t b) in
  let s := TftpState t in
  if (s =? STATE_SEND_RRQ) || (s =? STATE_OACK) || (s =? STATE_RECV_WRQ) then
    let t := new_transfer (with_remote_port (with_tftp_state t STATE_DATA) src) in
    if negb (TftpBlock (t_xfer t) =? 1) then Some (NetStartAgain t) else accept_data t pkt len
  else accept_data t pkt len.

Definition handle_error (t : tftp) (pkt : list Z) : option tftp :=
  e ← read16 pkt;
  Some (if (e =? TFTP_ERR_FILE_NOT_FOUND) || (e =? TFTP_ERR_ACCESS_DENIED) then net_set_state t NETLOOP_FAIL
        else NetStartAgain t).

(** [pkt] is the receive buffer from the payload on: the payload, [len] bytes,
    and what was left there before. *)
Definition TftpHandler (t : tftp) (pkt : list Z) (dest src len : Z) : option tftp :=
  if negb (dest =? TftpOurPort (t_peer t)) then Some t else
  let s := TftpState t in
  if negb (s =? STATE_SEND_RRQ) && negb (src =? TftpRemotePort (t_peer t)) && negb (s =? STATE_RECV_WRQ) &&
     negb (s =? STATE_SEND_WRQ) then Some t else
  if len <? 2 then Some t else
  let len := len - 2 in
  proto ← read16 pkt;
  let pkt := drop 2 pkt in
  if proto =? TFTP_OACK then handle_oack t pkt src len
  else if proto =? TFTP_DATA then handle_data t pkt src len
  else if proto =? TFTP_ERROR then handle_error t pkt
  else Some t.

Definition TftpTimeout (t : tftp) : option tftp :=
  let c := t_timing t in
  let n := TftpTimeoutCount c + 1 in
  let t := with_timing t (mk_timing n (TftpTimeoutCountMax c) (TftpTimeoutMSecs c) (timeHandler c) (timeDelta c)) in
  if n >? TftpTimeoutCountMax c then Some (restart t) else
  let t := NetSetTimeout t (TftpTimeoutMSecs c) TftpTimeout_f in
  if negb (TftpState t =? STATE_RECV_WRQ) then TftpSend t else Some t.

(** ** Starting *)

Fixpoint string_to_ip_loop (n : nat) (s : cstr) (addr : Z) : Z :=
  match n with
  | O => addr
  | S n =>
      let '(val, e) := simple_strtoul s 10 in
      string_to_ip_loop n (drop 1 e) (Z.lor (u32 (Z.shiftl addr 8)) (Z.land val 0xff))
  end.
Definition string_to_ip (s : cstr) : Z := ___swab32 (string_to_ip_loop 4 s 0).

(** The string after the first [c]. *)
Fixpoint after_char (c : Z) (s : cstr) : option cstr :=
  match s with
  | [] => None
  | x :: s => if x =? c then Some s else after_char c s
  end.

(** What [strncpy] and the final NUL leave in [tftp_filename]. *)
Definition filename_of (s : cstr) : cstr := take (Z.to_nat (TFTP_MAX_LEN - 1)) s.

Definition default_filename : option cstr :=
  render ∅ (str "%02X%02X%02X%02X.img")
    [word (Z.land NetOurIP 0xff); word (Z.land (Z.shiftr NetOurIP 8) 0xff);
     word (Z.land (Z.shiftr NetOurIP 16) 0xff); word (Z.land (Z.shiftr NetOurIP 24) 0xff)].

Definition request_target : option (Z * cstr) :=
  match BootFile with
  | [] => d ← default_filename; Some (NetServerIP, filename_of d)
  | _ => match after_char 58 BootFile with
         | None => Some (NetServerIP, filename_of BootFile)
         | Some p => Some (string_to_ip BootFile, filename_of p)
         end
  end.

(** The messages and the time kept for the transfer rate are left out. *)
Definition TftpStart (t : tftp) : option tftp :=
  let opt := match net_getenv (str "tftpblocksize") with
             | Some ep => u16 (fst (simple_strtol ep 10)) | None => TftpBlkSizeOption t end in
  let msecs := match net_getenv (str "tftptimeout") with
               | Some ep => u32 (fst (simple_strtol ep 10)) | None => TftpTimeoutMSecs (t_timing t) end in
  let msecs := if msecs <? 1000 then 1000 else msecs in
  '(ip, name) ← request_target;
  let c := t_timing t in
  let x := t_xfer t in
  let l := t_loop t in
  let p := mk_peer ip WELL_KNOWN_PORT (1024 + get_timer mod 3072) in
  let c := mk_timing 0 TftpRRQTimeoutCountMax msecs (timeHandler c) (timeDelta c) in
  TftpSend (NetSetTimeout (mk_tftp p c (mk_xfer 0 (TftpLastBlock x) (TftpBlockWrap x) (TftpBlockWrapOffset x))
              (mk_loop (net_state l) (NetTryCount l) true) STATE_SEND_RRQ TFTP_BLOCK_SIZE opt name
              (NetBootFileXferSize t) (ram t) (tx t)) msecs TftpTimeout_f).

(** ** The turns of [NetLoop] *)

(** The timer expires. *)
Definition run_timer (t : tftp) : option tftp :=
  let c := t_timing t in
  let off := with_timing t (mk_timing (TftpTimeoutCount c) (TftpTimeoutCountMax c) (TftpTimeoutMSecs c) None (timeDelta c)) in
  match timeHandler c with
  | None => Some t
  | Some TftpTimeout_f => TftpTimeout off
  | Some startAgainTimeout => Some (net_set_state off NETLOOP_RESTART)
  end.

(** A UDP packet arrives. *)
Definition run_packet (t : tftp) (pkt : list Z) (dest src len : Z) : option tftp :=
  if udp_handler (t_loop t) then TftpHandler t pkt dest src len else Some t.

(** From the label [restart] on, when the prerequisites of the transfer are met. *)
Definition NetLoop_restart (t : tftp) : option tftp :=
  TftpStart (with_file (net_set_state t NETLOOP_CONTINUE) 0 (ram t)).
End client.

(** Reduces the projections and the updates of the state. *)
Ltac tsimp_in H :=
  cbv beta iota zeta delta [t_peer t_timing t_xfer t_loop TftpState TftpBlkSize TftpBlkSizeOption tftp_filename NetBootFileXferSize ram tx
       TftpRemoteIP TftpRemotePort TftpOurPort TftpTimeoutCount TftpTimeoutCountMax TftpTimeoutMSecs timeHandler timeDelta
       TftpBlock TftpLastBlock TftpBlockWrap TftpBlockWrapOffset net_state NetTryCount udp_handler
       with_peer with_timing with_xfer with_loop with_tftp_state with_blksize with_file with_tx with_remote_port with_block
       with_last_block with_timeout_max net_set_state tftp_complete NetSendUDPPacket new_transfer
       mbind option_bind fst snd] in H.
Ltac tsimp :=
  cbv beta iota zeta delta [t_peer t_timing t_xfer t_loop TftpState TftpBlkSize TftpBlkSizeOption tftp_filename NetBootFileXferSize ram tx
       TftpRemoteIP TftpRemotePort TftpOurPort TftpTimeoutCount TftpTimeoutCountMax TftpTimeoutMSecs timeHandler timeDelta
       TftpBlock TftpLastBlock TftpBlockWrap TftpBlockWrapOffset net_state NetTryCount udp_handler
       with_peer with_timing with_xfer with_loop with_tftp_state with_blksize with_file with_tx with_remote_port with_block
       with_last_block with_timeout_max net_set_state tftp_complete NetSendUDPPacket new_transfer
       mbind option_bind fst snd].
Ltac topen t := destruct t as [[] [] [] [] ? ? ? ? ? ? ?].

(** ** Lemmas on blocks and memory *)

Lemma u16_range n : 0 <= u16 n < 65536.
Proof. apply Z.mod_pos_bound. lia. Qed.

Lemma u16_split n : n = 65536 * (n / 65536) + u16 n.
Proof. apply (Z.div_mod n 65536). lia. Qed.

(** The next number, with and without a wrap. *)
Lemma u16_next n :
  (u16 n = 65535 /\ u16 (n + 1) = 0 /\ (n + 1) / 65536 = n / 65536 + 1) \/
  (u16 n < 65535 /\ u16 (n + 1) = u16 n + 1 /\ (n + 1) / 65536 = n / 65536).
Proof.
  pose proof (u16_split n). pose proof (u16_split (n + 1)). pose proof (u16_range n). pose proof (u16_range (n + 1)).
  destruct (decide (u16 n = 65535)); [left|right]; lia.
Qed.

Lemma u32_add_r a b : u32 (a + u32 b) = u32 (a + b).
Proof. apply Zplus_mod_idemp_r. Qed.

Lemma int_mul_small a b : - 2 ^ 31 <= a * b < 2 ^ 31 -> int_mul a b = Some (a * b).
Proof. intros H. unfold int_mul. zcase; [zcase; [done | lia] | lia]. Qed.

Lemma read16_net16 n l : read16 (net16 n ++ l) = Some (u16 n).
Proof.
  unfold net16, read16. cbn [app]. f_equal. rewrite Z.shiftl_mul_pow2 by lia.
  pose proof (u8_range n). rewrite lor_low by lia. unfold u8, u16. rewrite Z.shiftr_div_pow2 by lia.
  change (2 ^ 16) with (2 ^ 8 * 2 ^ 8). rewrite Z.rem_mul_r by lia. lia.
Qed.

Lemma net16_u16 n : net16 (u16 n) = net16 n.
Proof.
  unfold net16, u8, u16. rewrite !Z.shiftr_div_pow2 by lia.
  change (2 ^ 16) with (2 ^ 8 * 2 ^ 8). rewrite Z.rem_mul_r by lia. apply (f_equal2 (fun a b => [a; b])).
  - rewrite Z.mul_comm, Z.div_add by lia. rewrite (Z.div_small (n mod 2 ^ 8)) by (apply Z.mod_pos_bound; lia).
    by rewrite Z.add_0_l, Z.mod_mod by lia.
  - rewrite Z.mul_comm, Z.mod_add by lia. by rewrite Z.mod_mod by lia.
Qed.

Lemma store_list_app m a l1 l2 :
  store_list m a (l1 ++ l2) = (m1 ← store_list m a l1; store_list m1 (a + Z.of_nat (length l1)) l2).
Proof.
  revert m a. induction l1 as [|x l1 IH]; intros m a; cbn [store_list app length].
  - cbn [mbind option_bind]. by rewrite Z.add_0_r.
  - destruct (store m a x) as [m1|]; [|done]. cbn [mbind option_bind]. rewrite IH.
    destruct (store_list m1 (a + 1) l1) as [m2|]; [|done]. cbn [mbind option_bind]. f_equal. lia.
Qed.

Lemma store_list_total m a l : (forall b, a <= b < a + Z.of_nat (length l) -> is_Some (m !! b)) ->
  is_Some (store_list m a l).
Proof.
  revert m a. induction l as [|x l IH]; intros m a Ha; cbn [store_list length] in *; [by eexists|].
  rewrite store_Some by (apply Ha; lia). cbn [mbind option_bind]. apply IH.
  intros b Hb. apply insert_alloc, Ha. lia.
Qed.

(** What the memory holds afterwards. *)
Lemma store_list_lookup m a l m' b : store_list m a l = Some m' ->
  m' !! b = if in_range a (Z.of_nat (length l)) b then l !! Z.to_nat (b - a) else m !! b.
Proof.
  revert m a. induction l as [|x l IH]; intros m a E; cbn [store_list length] in *.
  - simplify_eq. destruct (in_range_spec a (Z.of_nat 0) b); [lia | done].
  - unfold store in E. destruct (m !! a) as [y|] eqn:Ey; [|done]. cbn [mbind option_bind] in E. rewrite (IH _ _ E).
    destruct (in_range_spec (a + 1) (Z.of_nat (length l)) b), (in_range_spec a (Z.of_nat (S (length l))) b); try lia.
    + replace (Z.to_nat (b - a)) with (S (Z.to_nat (b - (a + 1)))) by lia. done.
    + replace b with a by lia. rewrite lookup_insert_eq, Z.sub_diag. done.
    + rewrite lookup_insert_ne by lia. done.
Qed.


(** ** The acknowledgement of the options *)

(** Bytes none of which is the letter b. *)
Definition no_b (l : list Z) : Prop := Forall (fun x => 0 <= x < 256 /\ x <> 98) l.

(** What a server answers to the options: nothing and the first block of 512
    bytes, or the options it accepts with their values, among them "blksize" or,
    if it keeps to 512 bytes, not.  No other option the client asks for has a b. *)
Definition reply_ok (blk : Z) (opts : option (list Z)) : Prop :=
  match opts with
  | None => blk = TFTP_BLOCK_SIZE
  | Some o => (exists pre, no_b pre /\ o = pre ++ str "blksize" ++ [0] ++ digit_text 0 10 blk ++ [0]) \/
              blk = TFTP_BLOCK_SIZE /\ no_b o
  end.

Lemma strcmp_b_other x l : 0 <= x < 256 -> x <> 98 -> exists r, strcmp_b (x :: l) (str "blksize") = Some r /\ r <> 0.
Proof.
  intros Hx Hne. assert (Hs : s8 (x - 98) <> 0) by (rewrite (s8_zero x 98 Hx) by lia; done).
  exists (s8 (x - 98)). split; [|done]. change (str "blksize") with (98 :: str "lksize"). cbn [strcmp_b].
  by rewrite (proj2 (Z.eqb_neq _ 0) Hs).
Qed.

(** Over bytes that are not b. *)
Lemma oack_skip l : forall fuel pre rest i len b, no_b l -> i = Z.of_nat (length pre) -> i + Z.of_nat (length l) + 8 <= len ->
  oack_loop (length l + fuel) (pre ++ l ++ rest) i len b = oack_loop fuel (pre ++ l ++ rest) (i + Z.of_nat (length l)) len b.
Proof.
  induction l as [|x l IH]; intros fuel pre rest i len b Hl Hi Hlen; cbn [length app] in *; [by rewrite Z.add_0_r|].
  apply Forall_cons_1 in Hl as [[Hx Hne] Hl]. cbn [Nat.add oack_loop]. rewrite (proj2 (Z.ltb_lt (i + 8) len)) by lia.
  rewrite Hi at 1. rewrite Nat2Z.id, drop_app_length.
  destruct (strcmp_b_other x (l ++ rest) Hx Hne) as (r & -> & Hr). cbn [mbind option_bind].
  rewrite (proj2 (Z.eqb_neq r 0) Hr). cbn [mbind option_bind].
  replace (pre ++ x :: l ++ rest) with ((pre ++ [x]) ++ l ++ rest) by by rewrite <- app_assoc.
  rewrite (IH fuel (pre ++ [x]) rest (i + 1) len b) by (done || len). f_equal. lia.
Qed.

Lemma oack_skip_start l fuel rest len b : no_b l -> Z.of_nat (length l) + 8 <= len ->
  oack_loop (length l + fuel) (l ++ rest) 0 len b = oack_loop fuel (l ++ rest) (Z.of_nat (length l)) len b.
Proof. intros Hl Hlen. apply (oack_skip l fuel [] rest 0 len b); done || lia. Qed.

Lemma c_str_app s rest : Forall char_ok s -> c_str (s ++ 0 :: rest) = Some s.
Proof.
  induction 1 as [|x s Hx Hs IH]; cbn [app c_str]; [done|]. unfold char_ok in Hx.
  rewrite (proj2 (Z.eqb_neq x 0)) by lia. by rewrite IH.
Qed.

Lemma digits_no_b n : 0 <= n < 2 ^ 64 -> no_b (digit_text 0 10 n).
Proof.
  intros Hn. unfold digit_text. apply Forall_rev, Forall_map.
  eapply Forall_impl; [|apply (num_digits 10 n), digits_numeral; lia]. intros d Hd. unfold digit_ok in Hd.
  unfold digit_char. case_match; zbool; lia.
Qed.

Lemma oack_blksize pre blk junk b : 0 < blk < 65536 -> no_b pre ->
  let o := pre ++ str "blksize" ++ [0] ++ digit_text 0 10 blk ++ [0] in
  oack_loop (S (length o)) (o ++ junk) 0 (Z.of_nat (length o)) b = Some blk.
Proof.
  intros Hb Hpre o. unfold o. clear o.
  set (ds := digit_text 0 10 blk). pose proof (digits_no_b blk ltac:(lia)) as Hds. fold ds in Hds.
  assert (Hc : Forall char_ok ds) by (apply digit_text_chars; lia).
  set (L := Z.of_nat (length (pre ++ str "blksize" ++ [0] ++ ds ++ [0]))).
  set (l := take (length ds) (str "lksize" ++ 0 :: ds)). set (r := drop (length ds) (str "lksize" ++ 0 :: ds)).
  assert (Hl : no_b l).
  { apply Forall_take, Forall_app. split; [|constructor; [lia | done]]. apply (bool_decide_unpack _). vm_compute. exact I. }
  assert (Hll : length l = length ds) by (unfold l; rewrite length_take, length_app; cbn; lia).
  assert (EL : L = Z.of_nat (length pre) + 8 + Z.of_nat (length ds) + 1) by (unfold L; rewrite !length_app; cbn; lia).
  replace (S (length (pre ++ str "blksize" ++ [0] ++ ds ++ [0]))) with (length pre + (1 + (length l + 9)))%nat
    by (rewrite Hll, !length_app; cbn; lia).
  rewrite <- !app_assoc. rewrite (oack_skip_start pre _ _ L b) by (done || lia). cbn [oack_loop app Nat.add].
  rewrite (proj2 (Z.ltb_lt _ L)) by lia. rewrite Nat2Z.id, drop_app_length.
  change (strcmp_b (str "blksize" ++ 0 :: ds ++ 0 :: junk) (str "blksize")) with (Some 0). cbn [mbind option_bind Z.eqb].
  replace (Z.to_nat (Z.of_nat (length pre) + 8)) with (length pre + 8)%nat by lia.
  rewrite <- drop_drop, drop_app_length. change (drop 8 (str "blksize" ++ 0 :: ds ++ 0 :: junk)) with (ds ++ 0 :: junk).
  rewrite c_str_app by done. cbn [mbind option_bind]. assert (simple_strtoul ds 10 = (blk, [])) as -> by (apply read_digits; lia). cbn [fst].
  replace (u16 blk) with blk by (symmetry; apply Z.mod_small; lia).
  replace (pre ++ str "blksize" ++ 0 :: ds ++ 0 :: junk) with ((pre ++ [98]) ++ l ++ r ++ 0 :: junk)
    by (rewrite (app_assoc l); unfold l, r; rewrite take_drop, <- !app_assoc; done).
  rewrite (oack_skip l 9 (pre ++ [98]) _ _ L blk); [|done | rewrite length_app; cbn [length]; lia | lia].
  cbn [oack_loop]. by rewrite (proj2 (Z.ltb_ge _ L)) by lia.
Qed.

(** The client takes over the block size the server has chosen. *)
Lemma reply_agreed blk opts : 0 < blk < 65536 -> reply_ok blk opts ->
  match opts with
  | None => blk = TFTP_BLOCK_SIZE
  | Some o => forall junk b, b = TFTP_BLOCK_SIZE \/ b = blk ->
      oack_loop (S (length o)) (o ++ junk) 0 (Z.of_nat (length o)) b = Some blk
  end.
Proof.
  intros Hb Hr. destruct opts as [o|]; [|done]. intros junk b Hb0. destruct Hr as [(pre & Hpre & ->)|[-> Ho]].
  - by apply oack_blksize.
  - destruct (Nat.le_gt_cases 8 (length o)) as [Hl|Hl].
    + rewrite <- (take_drop (length o - 8) o) at 2. rewrite <- app_assoc.
      replace (S (length o)) with (length (take (length o - 8) o) + 9)%nat by (rewrite length_take; lia).
      rewrite (oack_skip_start _ 9 _ _ b); [|by apply Forall_take | rewrite length_take; lia].
      cbn [oack_loop]. rewrite (proj2 (Z.ltb_ge _ (Z.of_nat (length o)))) by (rewrite length_take; lia). naive_solver.
    + cbn [oack_loop]. rewrite (proj2 (Z.ltb_ge _ (Z.of_nat (length o)))) by lia. naive_solver.
Qed.

(** ** The server and the network *)

(** The server has the address [ip], serves the file [name] and sends from the
    port [port]. *)
Section transfer.
Context {NN : Net} (name : cstr) (file : list Z) (blk : Z) (opts : option (list Z)) (ip port : Z).

Definition block (n : Z) : list Z := take (Z.to_nat blk) (drop (Z.to_nat ((n - 1) * blk)) file).
Definition data_packet (n : Z) : list Z := net16 TFTP_DATA ++ net16 n ++ block n.

(** The packets of the server count from 1: with options the acknowledgement of
    the options comes first, else the first block.  [offs] is the difference to
    the number of the block. *)
Definition offs : Z := match opts with Some _ => 1 | None => 0 end.
Definition srv_packet (j : Z) : list Z :=
  match opts with
  | Some o => if j =? 1 then net16 TFTP_OACK ++ o else data_packet (j - 1)
  | None => data_packet j
  end.
(** The last block is the first one that is not full. *)
Definition last_packet : Z := Z.of_nat (length file) / blk + 1 + offs.

(** The number of the last packet sent, 0 before the request, and the port of
    the client. *)
Record server := mk_server { sent : Z; client_port : Z }.

(** A datagram from the client. *)
Abbreviation datagram := (Z * Z * Z * list Z)%type.

(** A request for the file is answered with the first packet, an
    acknowledgement of the last packet with the next; anything else, such as an
    acknowledgement of an older packet, is ignored. *)
Definition serve (s : server) (d : datagram) : server * list (Z * list Z) :=
  let '(dip, dport, sport, p) := d in
  if negb (dip =? ip) then (s, []) else
  if (dport =? WELL_KNOWN_PORT) && bool_decide ((net16 TFTP_RRQ ++ name ++ [0]) `prefix_of` p) && (sent s <=? 1) then
    (mk_server 1 sport, [(sport, srv_packet 1)])
  else if (dport =? port) && (sport =? client_port s) && bool_decide (p = net16 TFTP_ACK ++ net16 (sent s - offs)) &&
          (1 <=? sent s) && (sent s <? last_packet) then
    (mk_server (sent s + 1) sport, [(sport, srv_packet (sent s + 1))])
  else (s, []).

(** Packets in transit, oldest first. *)
Record world := mk_world { cli : tftp; srv : server; to_cli : list (Z * list Z); to_srv : list datagram }.

(** A packet is lost or arrives twice. *)
Inductive mishap {A} : list A -> list A -> Prop :=
| lost l1 x l2 : mishap (l1 ++ x :: l2) (l1 ++ l2)
| repeated l1 x l2 : mishap (l1 ++ x :: l2) (l1 ++ x :: x :: l2).

Definition running (w : world) : Prop := net_state (t_loop (cli w)) = NETLOOP_CONTINUE.

(** What the client has sent leaves with the turn of the loop. *)
Definition client_turn (w : world) (l : list (Z * list Z)) (t : tftp) : world :=
  mk_world (with_tx t []) (srv w) l (to_srv w ++ tx t).
Definition server_turn (w : world) (l : list datagram) (s : server) (out : list (Z * list Z)) : world :=
  mk_world (cli w) s (to_cli w ++ out) l.

(** Turns without mishap. *)
Inductive smooth : world -> world -> Prop :=
| client_receives w dest p l junk t : running w -> to_cli w = (dest, p) :: l ->
    run_packet (cli w) (p ++ junk) dest port (Z.of_nat (length p)) = Some t -> smooth w (client_turn w l t)
| client_timer w t : running w -> run_timer (cli w) = Some t -> smooth w (client_turn w (to_cli w) t)
| server_receives w d l : to_srv w = d :: l ->
    smooth w (server_turn w l (fst (serve (srv w) d)) (snd (serve (srv w) d)))
| server_timer w : 1 <= sent (srv w) ->
    smooth w (server_turn w (to_srv w) (srv w) [(client_port (srv w), srv_packet (sent (srv w)))]).

(** A step is such a turn, a mishap, or a packet that is not of this transfer:
    for another port, or, once the port of the server is known, from another. *)
Inductive step : world -> world -> Prop :=
| step_smooth w w' : smooth w w' -> step w w'
| step_to_cli w l : mishap (to_cli w) l -> step w (mk_world (cli w) (srv w) l (to_srv w))
| step_to_srv w l : mishap (to_srv w) l -> step w (mk_world (cli w) (srv w) (to_cli w) l)
| step_stray w pkt dest src len t : running w ->
    dest <> TftpOurPort (t_peer (cli w)) \/ TftpState (cli w) <> STATE_SEND_RRQ /\ src <> TftpRemotePort (t_peer (cli w)) ->
    run_packet (cli w) pkt dest src len = Some t -> step w (client_turn w (to_cli w) t).

(** ** The client along a transfer *)

Definition stored (n : Z) : Z := Z.min (Z.max 0 n * blk) (Z.of_nat (length file)).

(** The first [k] bytes of the file are in memory, which is otherwise as before. *)
Definition loaded (m0 : mem) (k : Z) (t : tftp) : Prop :=
  store_list m0 load_addr (take (Z.to_nat k) file) = Some (ram t).

(** The packet the client has sent last. *)
Definition frame (our : Z) (rrq : list Z) (c : Z) : datagram :=
  if c =? 0 then (ip, WELL_KNOWN_PORT, our, rrq) else (ip, port, our, net16 TFTP_ACK ++ net16 (c - offs)).

(** The client has accepted the packets up to the [c]-th. *)
Record client_at (m0 : mem) (our : Z) (rrq : list Z) (c : Z) (t : tftp) : Prop := {
  at_run : net_state (t_loop t) = NETLOOP_CONTINUE;
  at_handler : udp_handler (t_loop t) = true;
  at_timer : timeHandler (t_timing t) = Some TftpTimeout_f;
  at_msecs : 0 < TftpTimeoutMSecs (t_timing t);
  at_our : TftpOurPort (t_peer t) = our;
  at_ip : TftpRemoteIP (t_peer t) = ip;
  at_tx : tx t = [];
  at_loaded : loaded m0 (stored (c - offs)) t;
  at_size : NetBootFileXferSize t = stored (c - offs);
  at_state :
    (c = 0 /\ TftpState t = STATE_SEND_RRQ /\ TftpBlkSize t = TFTP_BLOCK_SIZE /\ TftpRemotePort (t_peer t) = WELL_KNOWN_PORT /\
     TftpBlock (t_xfer t) = 0 /\ tftp_packet t = Some rrq) \/
    (c = 1 /\ offs = 1 /\ TftpState t = STATE_OACK /\ TftpBlkSize t = blk /\ TftpRemotePort (t_peer t) = port /\
     TftpBlock (t_xfer t) = 0) \/
    (1 <= c - offs /\ TftpState t = STATE_DATA /\ TftpBlkSize t = blk /\ TftpRemotePort (t_peer t) = port /\
     TftpBlock (t_xfer t) = u16 (c - offs) /\ TftpLastBlock (t_xfer t) = u16 (c - offs) /\
     TftpBlockWrapOffset (t_xfer t) = u32 (blk * 65536 * ((c - offs) / 65536))) }.

(** The transfer has succeeded. *)
Definition succeeded (m0 : mem) (t : tftp) : Prop :=
  net_state (t_loop t) = NETLOOP_SUCCESS /\ loaded m0 (Z.of_nat (length file)) t /\
  NetBootFileXferSize t = Z.of_nat (length file).

(** The attempt is over; part of the file may be in memory. *)
Definition given_up (m0 : mem) (t : tftp) : Prop :=
  (exists k, loaded m0 k t) /\
  (net_state (t_loop t) = NETLOOP_RESTART \/ net_state (t_loop t) = NETLOOP_FAIL \/
   net_state (t_loop t) = NETLOOP_CONTINUE /\ udp_handler (t_loop t) = false /\
   timeHandler (t_timing t) = Some startAgainTimeout).

Section steps.
Context (m0 : mem) (our : Z) (rrq : list Z).
Hypothesis Hblk : 0 < blk /\ 65534 * blk < 2 ^ 31.
Hypothesis Haddr : 0 <= load_addr /\ load_addr + Z.of_nat (length file) < 2 ^ 32.
Hypothesis Halloc : forall a, load_addr <= a < load_addr + Z.of_nat (length file) -> is_Some (m0 !! a).
Hypothesis Hopts : match opts with
  | None => blk = TFTP_BLOCK_SIZE
  | Some o => forall junk b, b = TFTP_BLOCK_SIZE \/ b = blk ->
      oack_loop (S (length o)) (o ++ junk) 0 (Z.of_nat (length o)) b = Some blk
  end.

Lemma offs_cases : offs = 0 /\ opts = None \/ offs = 1 /\ exists o, opts = Some o.
Proof. unfold offs. destruct opts; eauto. Qed.

(** The blocks up to the last one follow each other. *)
Lemma block_facts n : 1 <= n <= last_packet - offs ->
  stored (n - 1) = (n - 1) * blk /\ stored n = stored (n - 1) + Z.of_nat (length (block n)) /\
  (Z.of_nat (length (block n)) < blk <-> n = last_packet - offs) /\
  take (Z.to_nat (stored n)) file = take (Z.to_nat (stored (n - 1))) file ++ block n.
Proof.
  intros Hn. unfold last_packet in *. set (F := Z.of_nat (length file)) in *.
  pose proof (Z.div_mod F blk). pose proof (Z.mod_pos_bound F blk).
  assert (E1 : stored (n - 1) = (n - 1) * blk) by (unfold stored; fold F; nia).
  assert (E2 : Z.of_nat (length (block n)) = Z.min blk (F - (n - 1) * blk)).
  { unfold block. rewrite length_take, length_drop. nia. }
  assert (E3 : stored n = stored (n - 1) + Z.of_nat (length (block n))) by (unfold stored in *; fold F; nia).
  repeat split; [done | done | nia | nia |].
  unfold block. rewrite <- E1. rewrite take_take_drop. rewrite E3, E2, E1.
  destruct (Z.le_gt_cases blk (F - (n - 1) * blk)); [rewrite Z.min_l by lia; f_equal; nia|].
  rewrite Z.min_r by lia. rewrite !take_ge by nia. done.
Qed.

Lemma loaded_alloc k t a : loaded m0 k t -> load_addr <= a < load_addr + Z.of_nat (length file) -> is_Some (ram t !! a).
Proof.
  intros Hl Ha. rewrite (store_list_lookup _ _ _ _ a Hl). destruct (in_range_spec load_addr (Z.of_nat (length (take (Z.to_nat k) file))) a).
  - apply lookup_lt_is_Some_2. lia.
  - by apply Halloc.
Qed.

(** Storing the next block. *)
Lemma store_block_next n t junk : 1 <= n <= last_packet - offs -> TftpBlkSize t = blk ->
  TftpBlockWrapOffset (t_xfer t) = u32 (blk * 65536 * (n / 65536)) ->
  loaded m0 (stored (n - 1)) t -> NetBootFileXferSize t = stored (n - 1) ->
  exists m, store_block t (s32 (u32 (u16 n - 1))) (block n ++ junk) (Z.of_nat (length (block n))) =
              Some (with_file t (stored n) m) /\ loaded m0 (stored n) (with_file t (stored n) m).
Proof.
  intros Hn Hb Hw Hl Hs. destruct (block_facts n Hn) as (E1 & E2 & E3 & E4).
  pose proof (u16_split n) as Hsplit. pose proof (u16_range n) as Hr.
  assert (Es : s32 (u32 (u16 n - 1)) = u16 n - 1).
  { destruct (decide (u16 n = 0)) as [->|]; [done|]. rewrite u32_small by lia. apply s32_small. lia. }
  unfold store_block. rewrite Es, Hb, Hw, int_mul_small by nia. cbn [mbind option_bind].
  assert (Ha : (u16 n - 1) * blk + blk * 65536 * (n / 65536) = stored (n - 1)) by nia.
  rewrite !u32_add_r, Ha.
  assert (0 <= stored (n - 1) /\ stored n <= Z.of_nat (length file)) by (unfold stored in *; nia).
  rewrite !(u32_small (stored (n - 1))) by lia. rewrite <- E2, !u32_small by lia.
  rewrite length_app. zcase; [lia|]. rewrite Nat2Z.id, take_app_length.
  assert (Hc : forall m', store_list (ram t) (load_addr + stored (n - 1)) (block n) = Some m' ->
    store_list m0 load_addr (take (Z.to_nat (stored n)) file) = Some m').
  { intros m' Em. rewrite E4, store_list_app. unfold loaded in Hl. rewrite Hl. cbn [mbind option_bind].
    rewrite length_take. rewrite <- Em. f_equal. lia. }
  destruct (store_list_total (ram t) (load_addr + stored (n - 1)) (block n)) as [m Em].
  { intros a Ha'. eapply loaded_alloc; [done | lia]. }
  exists m. rewrite Em. cbn [mbind option_bind]. split; [|by apply Hc].
  rewrite Hs. do 2 f_equal. zcase; lia.
Qed.

Abbreviation at_ := (client_at m0 our rrq).

(** The test for a repeated block and what follows it. *)
Lemma accept_next n t junk : 1 <= n <= last_packet - offs -> TftpBlkSize t = blk -> TftpState t = STATE_DATA ->
  TftpBlock (t_xfer t) = u16 n -> TftpLastBlock (t_xfer t) <> u16 n ->
  TftpBlockWrapOffset (t_xfer t) = u32 (blk * 65536 * (n / 65536)) ->
  0 < TftpTimeoutMSecs (t_timing t) -> loaded m0 (stored (n - 1)) t -> NetBootFileXferSize t = stored (n - 1) ->
  exists m t', accept_data t (net16 n ++ block n ++ junk) (Z.of_nat (length (block n))) = Some t' /\
    loaded m0 (stored n) t' /\
    t' = mk_tftp (t_peer t)
           (mk_timing (TftpTimeoutCount (t_timing t)) TIMEOUT_COUNT (TftpTimeoutMSecs (t_timing t)) (Some TftpTimeout_f)
              (u32 (TftpTimeoutMSecs (t_timing t) * CONFIG_SYS_HZ) / 1000))
           (mk_xfer (u16 n) (u16 n) (TftpBlockWrap (t_xfer t)) (TftpBlockWrapOffset (t_xfer t)))
           (mk_loop (if decide (n = last_packet - offs) then NETLOOP_SUCCESS else net_state (t_loop t))
              (NetTryCount (t_loop t)) (udp_handler (t_loop t)))
           STATE_DATA blk (TftpBlkSizeOption t) (tftp_filename t) (stored n) m
           (tx t ++ [(TftpRemoteIP (t_peer t), TftpRemotePort (t_peer t), TftpOurPort (t_peer t),
                      net16 TFTP_ACK ++ net16 n)]).
Proof.
  intros Hn Hb Hst Hbl Hlast Hw Hms Hl Hs. destruct (block_facts n Hn) as (_ & _ & E3 & _).
  topen t. tsimp_in Hb. tsimp_in Hst. tsimp_in Hbl. tsimp_in Hlast. tsimp_in Hw. tsimp_in Hms. tsimp_in Hs. subst.
  unfold accept_data. tsimp. zcase; [lia|].
  unfold NetSetTimeout. tsimp. zcase; [lia|]. tsimp. change (drop 2 (net16 n ++ block n ++ junk)) with (block n ++ junk).
  match goal with |- context [store_block ?t _ _ _] => set (t1 := t) end.
  destruct (store_block_next n t1 junk Hn eq_refl eq_refl Hl eq_refl) as (m' & -> & Hl'). subst t1.
  unfold TftpSend, tftp_packet. tsimp.
  change (STATE_DATA =? STATE_SEND_RRQ) with false. change (STATE_DATA =? STATE_SEND_WRQ) with false.
  change (STATE_DATA =? STATE_DATA) with true. rewrite !orb_true_r. cbn [orb]. tsimp. rewrite net16_u16.
  exists m'. eexists. split; [reflexivity|].
  split; [by zcase|]. zcase; destruct (decide (n = last_packet - offs)); tsimp; try done; exfalso; intuition lia.
Qed.

(** The guards of [TftpHandler] let a packet of the server through. *)
Definition hears (t : tftp) : Prop :=
  udp_handler (t_loop t) = true /\ TftpOurPort (t_peer t) = our /\
  (TftpState t = STATE_SEND_RRQ \/ TftpRemotePort (t_peer t) = port).

Lemma at_hears c t : at_ c t -> hears t.
Proof. intros []. unfold hears. split_and!; [done | done | naive_solver]. Qed.

Lemma hear t op body junk : hears t -> 0 <= op < 65536 ->
  run_packet t ((net16 op ++ body) ++ junk) our port (Z.of_nat (length (net16 op ++ body))) =
    if op =? TFTP_OACK then handle_oack t (body ++ junk) port (Z.of_nat (length body))
    else if op =? TFTP_DATA then handle_data t (body ++ junk) port (Z.of_nat (length body))
    else if op =? TFTP_ERROR then handle_error t (body ++ junk) else Some t.
Proof.
  intros (Hu & Ho & Hs) Hop. unfold run_packet, TftpHandler. rewrite Hu, Ho, Z.eqb_refl. cbn [negb].
  match goal with |- (if ?b then _ else _) = _ => assert (b = false) as -> end.
  { destruct Hs as [-> | ->]; [done|]. rewrite Z.eqb_refl. cbn [negb]. by rewrite andb_false_r. }
  change (Z.of_nat (length (net16 op ++ body))) with (Z.of_nat (S (S (length body)))).
  zcase; [lia|]. rewrite <- app_assoc, read16_net16. cbn [mbind option_bind].
  change (drop 2 (net16 op ++ body ++ junk)) with (body ++ junk).
  replace (u16 op) with op by (symmetry; apply Z.mod_small; lia).
  by replace (Z.of_nat (S (S (length body))) - 2) with (Z.of_nat (length body)) by lia.
Qed.

(** Accepting a packet: the acknowledgement sent and the state reached. *)
Definition accepted (c : Z) (t : tftp) : Prop :=
  tx t = [frame our rrq c] /\ (c = last_packet -> succeeded m0 (with_tx t [])) /\ (c < last_packet -> at_ c (with_tx t [])).

Lemma stored_last : stored (last_packet - offs) = Z.of_nat (length file).
Proof.
  unfold stored, last_packet. pose proof (Z.div_mod (Z.of_nat (length file)) blk).
  pose proof (Z.mod_pos_bound (Z.of_nat (length file)) blk). nia.
Qed.

(** From the test for a repeated block on. *)
Lemma accept_next_at c t junk : 1 <= c + 1 - offs <= last_packet - offs -> TftpBlkSize t = blk -> TftpState t = STATE_DATA ->
  TftpBlock (t_xfer t) = u16 (c + 1 - offs) -> TftpLastBlock (t_xfer t) <> u16 (c + 1 - offs) ->
  TftpBlockWrapOffset (t_xfer t) = u32 (blk * 65536 * ((c + 1 - offs) / 65536)) ->
  0 < TftpTimeoutMSecs (t_timing t) -> loaded m0 (stored (c - offs)) t -> NetBootFileXferSize t = stored (c - offs) ->
  net_state (t_loop t) = NETLOOP_CONTINUE -> udp_handler (t_loop t) = true -> tx t = [] ->
  t_peer t = mk_peer ip port our ->
  exists t', accept_data t (net16 (c + 1 - offs) ++ block (c + 1 - offs) ++ junk) (Z.of_nat (length (block (c + 1 - offs)))) = Some t' /\
    accepted (c + 1) t'.
Proof.
  intros Hn Hb Hst Hbl Hlast Hw Hms Hl Hs Hrun Hu Htx Hp. replace (c - offs) with (c + 1 - offs - 1) in Hl, Hs by lia.
  destruct (accept_next _ t junk Hn Hb Hst Hbl Hlast Hw Hms Hl Hs) as (m & t' & E & Hl' & ->).
  eexists. split; [exact E|]. rewrite Hp, Hrun, Hu, Htx. unfold loaded in Hl'. tsimp_in Hl'.
  pose proof offs_cases. split; [|split]; [|intros Hc..]; tsimp.
  - unfold frame. zcase; [lia | done].
  - unfold succeeded, loaded. tsimp. rewrite <- stored_last, <- Hc. by rewrite decide_True by done.
  - split; tsimp; try done. { by rewrite decide_False by lia. }
    right. right. split_and!; done || lia.
Qed.

Lemma handle_data_body t n junk : handle_data t ((net16 n ++ block n) ++ junk) port (Z.of_nat (length (net16 n ++ block n))) =
  (let t := update_block_number (with_block t (u16 n)) in
   let s := TftpState t in
   let len := Z.of_nat (length (block n)) in
   if (s =? STATE_SEND_RRQ) || (s =? STATE_OACK) || (s =? STATE_RECV_WRQ) then
     let t := new_transfer (with_remote_port (with_tftp_state t STATE_DATA) port) in
     if negb (TftpBlock (t_xfer t) =? 1) then Some (NetStartAgain t)
     else accept_data t (net16 n ++ block n ++ junk) len
   else accept_data t (net16 n ++ block n ++ junk) len).
Proof.
  unfold handle_data. change (Z.of_nat (length (net16 n ++ block n))) with (Z.of_nat (S (S (length (block n))))).
  zcase; [lia|]. rewrite <- app_assoc, read16_net16. cbn [mbind option_bind].
  by replace (Z.of_nat (S (S (length (block n)))) - 2) with (Z.of_nat (length (block n))) by lia.
Qed.

Lemma first_number n : n = 1 -> u16 n = 1.
Proof. by intros ->. Qed.
Lemma first_wrap n : n = 1 -> u32 (blk * 65536 * (n / 65536)) = 0.
Proof. intros ->. change (1 / 65536) with 0. by rewrite Z.mul_0_r. Qed.
Lemma next_wrap q : u32 (u32 (blk * 65536 * q) + blk * TFTP_SEQUENCE_SIZE) = u32 (blk * 65536 * (q + 1)).
Proof. rewrite Z.add_comm, u32_add_r. f_equal. unfold TFTP_SEQUENCE_SIZE. lia. Qed.

(** The next block is stored and acknowledged. *)
Lemma data_next c t junk : at_ c t -> 1 <= c + 1 - offs <= last_packet - offs ->
  exists t', handle_data t ((net16 (c + 1 - offs) ++ block (c + 1 - offs)) ++ junk) port
               (Z.of_nat (length (net16 (c + 1 - offs) ++ block (c + 1 - offs)))) = Some t' /\ accepted (c + 1) t'.
Proof.
  intros Hat Hn. rewrite handle_data_body. destruct Hat as [A1 A2 A3 A4 A5 A6 A7 A8 A9 A10]. topen t.
  unfold loaded in A8. tsimp_in A1. tsimp_in A2. tsimp_in A3. tsimp_in A4. tsimp_in A5. tsimp_in A6. tsimp_in A7. tsimp_in A8.
  tsimp_in A9. tsimp_in A10. clear A3. subst.
  assert (Hfirst : c + 1 - offs = 1 -> stored (c - offs) = 0) by (intros; unfold stored; nia).
  destruct A10 as [(-> & -> & -> & -> & -> & _) | [(-> & Ho & -> & -> & -> & ->) | (Hc & -> & -> & -> & -> & -> & ->)]].
  - destruct offs_cases as [[Ho Eo]|[Ho _]]; [|lia]. pose proof Hopts as Hb. rewrite Eo in Hb. rewrite <- Hb.
    unfold update_block_number. tsimp. rewrite (first_number (0 + 1 - offs)) by lia. tsimp. cbn [Z.eqb andb orb negb Pos.eqb].
    apply accept_next_at; tsimp; rewrite ?first_number, ?first_wrap by lia; done || lia.
  - unfold update_block_number. tsimp. rewrite (first_number (1 + 1 - offs)) by lia. tsimp. cbn [Z.eqb andb orb negb Pos.eqb].
    apply accept_next_at; tsimp; rewrite ?first_number, ?first_wrap by lia; done || lia.
  - unfold update_block_number. tsimp.
    destruct (u16_next (c - offs)) as [(E1 & E2 & E3) | (E1 & E2 & E3)]; replace (c - offs + 1) with (c + 1 - offs) in * by lia;
      pose proof (u16_range (c - offs)).
    + rewrite E2, E1. cbn [Z.eqb andb negb Pos.eqb]. tsimp. cbn [Z.eqb orb Pos.eqb]. tsimp.
      apply accept_next_at; tsimp; rewrite ?E3, ?next_wrap; done || lia.
    + rewrite (proj2 (Z.eqb_neq (u16 (c + 1 - offs)) 0)) by lia. cbn [andb].
      tsimp. cbn [Z.eqb orb Pos.eqb]. apply accept_next_at; tsimp; rewrite ?E3; done || lia.
Qed.

Lemma last_packet_pos : 1 <= last_packet - offs.
Proof. unfold last_packet. pose proof (Z.div_pos (Z.of_nat (length file)) blk). lia. Qed.

(** The options are taken over and acknowledged, once or again. *)
Lemma oack_next o c t junk : opts = Some o -> at_ c t -> 0 <= c <= 1 ->
  exists t', handle_oack t (o ++ junk) port (Z.of_nat (length o)) = Some t' /\ accepted 1 t'.
Proof.
  intros Eo Hat Hc. pose proof last_packet_pos. destruct offs_cases as [[_ ?]|[Ho _]]; [congruence|].
  pose proof Hopts as Hb. rewrite Eo in Hb. specialize (Hb junk).
  destruct Hat as [A1 A2 A3 A4 A5 A6 A7 A8 A9 A10]. topen t.
  unfold loaded in A8. tsimp_in A1. tsimp_in A2. tsimp_in A3. tsimp_in A4. tsimp_in A5. tsimp_in A6. tsimp_in A7. tsimp_in A8.
  tsimp_in A9. tsimp_in A10. subst.
  assert (Es : stored (c - offs) = stored (1 - offs)) by (unfold stored; nia). rewrite Es in A8. rewrite Es in A10 |- *.
  assert (Hk : TftpBlkSize0 = TFTP_BLOCK_SIZE \/ TftpBlkSize0 = blk) by naive_solver lia.
  assert (Hz : TftpBlock0 = 0) by naive_solver lia.
  unfold handle_oack. tsimp. rewrite Nat2Z.id, Hb by done. tsimp. unfold TftpSend, tftp_packet. tsimp.
  cbn [Z.eqb orb Pos.eqb]. tsimp. eexists. split; [reflexivity|]. split; [|split]; [|intros Hl..]; tsimp; [|lia|].
  - unfold frame. cbn [Z.eqb]. by rewrite Ho, Hz.
  - split; tsimp; try done. right. left. split_and!; done || lia.
Qed.

Lemma client_accept c t junk : at_ c t -> 0 <= c < last_packet ->
  exists t', run_packet t (srv_packet (c + 1) ++ junk) our port (Z.of_nat (length (srv_packet (c + 1)))) = Some t' /\
    accepted (c + 1) t'.
Proof.
  intros Hat Hc. pose proof (at_hears _ _ Hat) as Hh. unfold srv_packet.
  destruct offs_cases as [[Ho Eo]|[Ho [o Eo]]]; rewrite Eo.
  - unfold data_packet. rewrite hear by done. destruct (data_next c t junk Hat) as (t' & E & Ha); [lia|].
    rewrite Ho, Z.sub_0_r in E. by exists t'.
  - zcase.
    + rewrite hear by done. replace c with 0 in * by lia. apply (oack_next o 0); done || lia.
    + unfold data_packet. rewrite hear by done. replace (c + 1 - 1) with (c + 1 - offs) by lia. apply data_next; [done | lia].
Qed.

(** A packet once more: it is ignored, or its acknowledgement repeated. *)
Lemma client_again c t junk : at_ c t -> 1 <= c < last_packet ->
  exists t', run_packet t (srv_packet c ++ junk) our port (Z.of_nat (length (srv_packet c))) = Some t' /\
    at_ c (with_tx t' []) /\ (tx t' = [] \/ tx t' = [frame our rrq c]).
Proof.
  intros Hat Hc. pose proof (at_hears _ _ Hat) as Hh.
  assert (Hd : 1 <= c - offs -> exists t', handle_data t ((net16 (c - offs) ++ block (c - offs)) ++ junk) port
     (Z.of_nat (length (net16 (c - offs) ++ block (c - offs)))) = Some t' /\ at_ c (with_tx t' []) /\ tx t' = []).
  { intros Hn. rewrite handle_data_body. pose proof (at_tx _ _ _ _ _ Hat) as Htx.
    destruct (at_state _ _ _ _ _ Hat) as [(-> & _) | [(-> & Ho & _) | (_ & S1 & _ & _ & S2 & S3 & _)]]; [lia | lia |].
    assert (update_block_number (with_block t (u16 (c - offs))) = t) as ->.
    { topen t. tsimp_in S2. tsimp_in S3. subst. unfold update_block_number. tsimp. by destruct (_ =? 0). }
    cbv zeta. rewrite S1. cbn [Z.eqb orb Pos.eqb]. unfold accept_data. rewrite S2, S3, Z.eqb_refl. exists t. split_and!; [done | | done].
    topen t. tsimp_in Htx. by subst. }
  unfold srv_packet. destruct offs_cases as [[Ho Eo]|[Ho [o Eo]]]; rewrite Eo.
  - unfold data_packet. rewrite hear by done. rewrite Ho, Z.sub_0_r in Hd. destruct Hd as (t' & ? & ? & ?); [lia|]. eauto.
  - zcase.
    + subst c. rewrite hear by done. destruct (oack_next o 1 t junk) as (t' & E & Ha1 & _ & Ha2); [done..|lia|]. exists t'. eauto with lia.
    + unfold data_packet. rewrite hear by done. replace (c - 1) with (c - offs) by lia. destruct Hd as (t' & ? & ? & ?); [lia|]. eauto.
Qed.

Lemma start_again_given_up k t : loaded m0 k t -> net_state (t_loop t) = NETLOOP_CONTINUE ->
  given_up m0 (NetStartAgain t) /\ tx (NetStartAgain t) = tx t.
Proof.
  intros Hl Hr. unfold NetStartAgain. destruct (match net_getenv _ with Some _ => _ | None => _ end) as [f n].
  unfold loaded in Hl. unfold given_up, loaded. topen t. tsimp_in Hl. tsimp_in Hr. subst.
  destruct (negb f && _); [|destruct NetRestartWrap; [destruct NetDevExists|]]; unfold NetSetTimeout; tsimp;
    try change (10000 =? 0) with false; tsimp; eauto 10.
Qed.

(** When the timer expires the last packet is sent again, unless the retries
    are used up. *)
Lemma client_timeout c t : at_ c t -> 0 <= c ->
  exists t', run_timer t = Some t' /\
    if TftpTimeoutCount (t_timing t) + 1 >? TftpTimeoutCountMax (t_timing t) then given_up m0 t' /\ tx t' = []
    else at_ c (with_tx t' []) /\ tx t' = [frame our rrq c].
Proof.
  intros Hat Hc. pose proof offs_cases. unfold run_timer. rewrite (at_timer _ _ _ _ _ Hat). unfold TftpTimeout. tsimp.
  destruct Hat as [A1 A2 A3 A4 A5 A6 A7 A8 A9 A10]. topen t. unfold loaded in A8.
  tsimp_in A1. tsimp_in A2. tsimp_in A3. tsimp_in A4. tsimp_in A5. tsimp_in A6. tsimp_in A7. tsimp_in A8.
  tsimp_in A9. tsimp_in A10. subst. tsimp. destruct (_ >? _).
  { eexists. split; [done|]. by apply (start_again_given_up (stored (c - offs))). }
  unfold NetSetTimeout. tsimp. rewrite (proj2 (Z.eqb_neq TftpTimeoutMSecs0 0)) by lia. tsimp. unfold TftpSend. unfold tftp_packet in A10 |- *. tsimp. tsimp_in A10.
  destruct A10 as [(-> & -> & -> & -> & -> & Hp) | [(-> & Ho & -> & -> & -> & ->) | (Hn & -> & -> & -> & -> & -> & ->)]];
    cbn [Z.eqb orb negb Pos.eqb] in *; tsimp.
  - rewrite Hp. tsimp. eexists. split; [done|]. split; [|done]. split; tsimp; try done. left. split_and!; done.
  - eexists. split; [done|]. split; [split; tsimp; try done; right; left; split_and!; done|]. unfold frame. cbn [Z.eqb]. by rewrite Ho.
  - rewrite net16_u16. eexists. split; [done|]. split; [split; tsimp; try done; right; right; split_and!; done|].
    unfold frame. zcase; [lia | done].
Qed.

(** A packet that is not of the transfer is ignored. *)
Lemma client_stray c t pkt dest src len : at_ c t ->
  dest <> TftpOurPort (t_peer t) \/ TftpState t <> STATE_SEND_RRQ /\ src <> TftpRemotePort (t_peer t) ->
  run_packet t pkt dest src len = Some t.
Proof.
  intros Hat Hx. unfold run_packet, TftpHandler. rewrite (at_handler _ _ _ _ _ Hat).
  destruct (Z.eqb_spec dest (TftpOurPort (t_peer t))); [|done]. destruct Hx as [|[Hs Hp]]; [done|]. cbn [negb].
  rewrite (proj2 (Z.eqb_neq src (TftpRemotePort (t_peer t)))) by done.
  destruct (at_state _ _ _ _ _ Hat) as [(_ & S & _) | [(_ & _ & S & _) | (_ & S & _)]]; rewrite S in *; done.
Qed.

(** *** The invariant *)

(** Numbers in order, between two bounds. *)
Definition numbered (lo hi : Z) (js : list Z) : Prop := StronglySorted Z.le js /\ Forall (fun j => lo <= j <= hi) js.

Lemma numbered_cons lo hi j js : numbered lo hi (j :: js) -> lo <= j <= hi /\ numbered j hi js.
Proof.
  intros [Hs Hf]. apply Forall_cons_1 in Hf as [Hj Hf]. apply StronglySorted_inv in Hs as [Hs Hle]. split; [lia|]. split; [done|].
  rewrite Forall_forall in *. intros i Hi. specialize (Hle i Hi). specialize (Hf i Hi). lia.
Qed.

Lemma numbered_snoc lo hi js : lo <= hi -> numbered lo hi js -> numbered lo hi (js ++ [hi]).
Proof.
  intros H [Hs Hf]. split; [|apply Forall_app; split; [done | repeat constructor; lia]].
  induction Hs as [|x l Hs IH Hx]; cbn [app]; [repeat constructor|]. apply Forall_cons_1 in Hf as [Hj Hf].
  constructor; [by apply IH|]. apply Forall_app. split; [done|]. repeat constructor. lia.
Qed.

(** What is in transit. *)
Definition queue {A} (f : Z -> A) (lo hi : Z) (q : list A) : Prop := exists js, q = map f js /\ numbered lo hi js.

Lemma queue_cons {A} (f : Z -> A) lo hi x q : queue f lo hi (x :: q) ->
  exists j, x = f j /\ lo <= j <= hi /\ queue f j hi q.
Proof.
  intros ([|j js] & E & Hn); [done|]. cbn [map] in E. simplify_eq. apply numbered_cons in Hn as [Hj Hn].
  exists j. split_and!; [done | lia | lia |]. by exists js.
Qed.

Lemma queue_weaken {A} (f : Z -> A) lo hi lo' hi' q : lo' <= lo -> hi <= hi' -> queue f lo hi q -> queue f lo' hi' q.
Proof. intros H1 H2 (js & E & Hs & Hf). exists js. split; [done|]. split; [done|]. eapply Forall_impl; [|exact Hf]. simpl. lia. Qed.

Lemma queue_snoc {A} (f : Z -> A) lo hi q : lo <= hi -> queue f lo hi q -> queue f lo hi (q ++ [f hi]).
Proof. intros H (js & -> & Hn). exists (js ++ [hi]). rewrite map_app. split; [done|]. by apply numbered_snoc. Qed.

Lemma queue_mishap {A} (f : Z -> A) lo hi q q' : mishap q q' -> queue f lo hi q -> queue f lo hi q'.
Proof.
  intros Hm (js & E & Hs & Hf). assert (Hx : exists j1 x j2 y, js = j1 ++ x :: j2 /\ (y = [] \/ y = [x; x]) /\ q' = map f (j1 ++ y ++ j2)).
  { destruct Hm as [l1 x l2|l1 x l2]; symmetry in E; apply map_eq_app in E as (j1 & j2' & -> & <- & E2);
      destruct j2' as [|y j2]; [done | | done |]; cbn [map] in E2; simplify_eq; exists j1, y, j2.
    - exists []. rewrite !map_app. eauto.
    - exists [y; y]. rewrite !map_app. eauto. }
  destruct Hx as (j1 & x & j2 & y & -> & Hy & ->). exists (j1 ++ y ++ j2). split; [done|]. unfold numbered.
  apply Forall_app in Hf as [Hf1 Hf2]. apply Forall_cons_1 in Hf2 as [Hf2 Hf3]. split.
  - clear Hf1 Hf2 Hf3 E Hm. induction j1 as [|z j1 IH]; cbn [app] in *.
    + apply StronglySorted_inv in Hs as [Hs Hx]. destruct Hy as [-> | ->]; cbn [app]; [done|].
      repeat constructor; done || lia.
    + apply StronglySorted_inv in Hs as [Hs Hx]. constructor; [by apply IH|]. apply Forall_app in Hx as [Hx1 Hx2].
      apply Forall_cons_1 in Hx2 as [Hx2 Hx3]. apply Forall_app. split; [done|]. destruct Hy as [-> | ->]; cbn [app]; auto.
  - apply Forall_app. split; [done|]. destruct Hy as [-> | ->]; cbn [app]; auto.
Qed.

Hypothesis Hrrq : (net16 TFTP_RRQ ++ name ++ [0]) `prefix_of` rrq.

Abbreviation from_srv := (fun j => (our, srv_packet j)).
Abbreviation from_cli := (frame our rrq).

(** The client has accepted [c] packets and the server has sent that many or one
    more; packets for the client are not older than the last accepted, nor
    acknowledgements older than the last but one sent. *)
Record in_transfer (c : Z) (w : world) : Prop := {
  it_at : at_ c (cli w);
  it_c : 0 <= c < last_packet;
  it_k : c <= sent (srv w) <= c + 1;
  it_port : 1 <= sent (srv w) -> client_port (srv w) = our;
  it_to_cli : queue from_srv (Z.max 1 c) (sent (srv w)) (to_cli w);
  it_to_srv : queue from_cli (Z.max 0 (sent (srv w) - 1)) c (to_srv w) }.

Definition inv (w : world) : Prop :=
  (exists c, in_transfer c w) \/ succeeded m0 (cli w) \/ given_up m0 (cli w).

Lemma with_tx_same t : tx t = [] -> with_tx t [] = t.
Proof. intros H. topen t. tsimp_in H. by subst. Qed.

Lemma queue_add {A} (f : Z -> A) lo hi q l : lo <= hi -> queue f lo hi q -> l = [] \/ l = [f hi] -> queue f lo hi (q ++ l).
Proof. intros H Hq [-> | ->]; [by rewrite app_nil_r | by apply queue_snoc]. Qed.

(** The server on a packet of the client. *)
Lemma serve_frame s c i : 0 <= c -> c <= sent s <= c + 1 -> c < last_packet -> (1 <= sent s -> client_port s = our) ->
  Z.max 0 (sent s - 1) <= i <= c ->
  serve s (from_cli i) =
    if (i =? 0) || (i =? sent s) then (mk_server (i + 1) our, [(our, srv_packet (i + 1))]) else (s, []).
Proof.
  intros Hc Hk Hl Hp Hi. unfold frame. destruct (Z.eqb_spec i 0) as [->|Hi0]; cbn [orb].
  { unfold serve. rewrite Z.eqb_refl. cbn [negb]. rewrite bool_decide_true by done. rewrite (proj2 (Z.leb_le (sent s) 1)) by lia. done. }
  unfold serve. rewrite Z.eqb_refl. cbn [negb]. rewrite bool_decide_false, andb_false_r.
  2:{ intros [l E]. discriminate E. }
  cbn [andb]. rewrite Hp, !Z.eqb_refl by lia. cbn [andb]. rewrite (proj2 (Z.leb_le 1 (sent s))) by lia.
  destruct (Z.eqb_spec i (sent s)) as [->|Hne].
  { rewrite bool_decide_true by done. cbn [andb]. zcase; [done | lia]. }
  rewrite bool_decide_false; [done|]. intros E. apply app_inj_1 in E as [_ E]; [|done].
  apply (f_equal (fun l => read16 (l ++ []))) in E. rewrite !read16_net16 in E. injection E as E.
  replace i with (sent s - 1) in E by lia. destruct (u16_next (sent s - 1 - offs)) as [?|?];
    replace (sent s - 1 - offs + 1) with (sent s - offs) in * by lia; lia.
Qed.

(** A packet once more. *)
Lemma it_again c w l junk : in_transfer c w -> 1 <= c -> queue from_srv c (sent (srv w)) l ->
  exists t, run_packet (cli w) (srv_packet c ++ junk) our port (Z.of_nat (length (srv_packet c))) = Some t /\
    in_transfer c (client_turn w l t).
Proof.
  intros [Hat Hc Hk Hp Hq1 Hq2] H1 Hl. destruct (client_again c (cli w) junk Hat) as (t & E & Ha & Htx); [lia|].
  exists t. split; [done|]. split; cbn [client_turn cli srv to_cli to_srv]; try done.
  - by replace (Z.max 1 c) with c by lia.
  - apply queue_add; [lia | done | done].
Qed.

(** The next packet. *)
Lemma it_accept c w l junk : in_transfer c w -> sent (srv w) = c + 1 -> queue from_srv (c + 1) (c + 1) l ->
  exists t, run_packet (cli w) (srv_packet (c + 1) ++ junk) our port (Z.of_nat (length (srv_packet (c + 1)))) = Some t /\
    tx t = [from_cli (c + 1)] /\
    (c + 1 = last_packet /\ succeeded m0 (cli (client_turn w l t)) \/ in_transfer (c + 1) (client_turn w l t)).
Proof.
  intros [Hat Hc Hk Hp Hq1 Hq2] Ek Hl.
  destruct (client_accept c (cli w) junk Hat) as (t & E & Htx & Hlast & Hnext); [lia|].
  exists t. split_and!; [done..|]. destruct (decide (c + 1 = last_packet)); [left; split; [done|]; by apply Hlast|].
  right. split; cbn [client_turn cli srv to_cli to_srv]; try done; try lia.
  - apply Hnext. lia.
  - rewrite Ek. by replace (Z.max 1 (c + 1)) with (c + 1) by lia.
  - rewrite Htx. apply queue_snoc; [lia|]. eapply queue_weaken; [| |exact Hq2]; lia.
Qed.

(** The server takes a packet. *)
Lemma it_serve c w i l : in_transfer c w -> Z.max 0 (sent (srv w) - 1) <= i <= c -> queue from_cli i c l ->
  in_transfer c (server_turn w l (fst (serve (srv w) (from_cli i))) (snd (serve (srv w) (from_cli i)))).
Proof.
  intros [Hat Hc Hk Hp Hq1 Hq2] Hi Hl. rewrite (serve_frame _ c) by (done || lia).
  destruct ((i =? 0) || (i =? sent (srv w))) eqn:Eb; cbn [fst snd]; split; cbn [server_turn cli srv to_cli to_srv sent client_port]; try done.
  - apply orb_true_iff in Eb as [Eb|Eb]; zbool; lia.
  - apply (queue_add from_srv _ (i + 1)); [|eapply queue_weaken; [| |exact Hq1]|by right];
      apply orb_true_iff in Eb as [Eb|Eb]; zbool; lia.
  - by replace (Z.max 0 (i + 1 - 1)) with i by lia.
  - rewrite app_nil_r. done.
  - eapply queue_weaken; [| |exact Hl]; lia.
Qed.

Lemma inv_client_receives w dest p l junk t : inv w -> running w -> to_cli w = (dest, p) :: l ->
  run_packet (cli w) (p ++ junk) dest port (Z.of_nat (length p)) = Some t -> inv (client_turn w l t).
Proof.
  intros [[c Hw]|[[Hs _]|Hg]] Hr El E; [|unfold running in Hr; congruence|].
  - pose proof (it_to_cli _ _ Hw) as Hq1. pose proof (it_k _ _ Hw). rewrite El in Hq1.
    apply queue_cons in Hq1 as (j & Ej & Hj & Hq1). simplify_eq. destruct (decide (j = c)) as [->|Hne].
    + destruct (it_again c w l junk) as (t' & E' & Hw'); [done | lia | done |]. rewrite E' in E. simplify_eq. left. eauto.
    + assert (Ek : sent (srv w) = c + 1) by lia. replace j with (c + 1) in * by lia. rewrite Ek in Hq1.
      destruct (it_accept c w l junk) as (t' & E' & _ & Hw'); [done..|]. rewrite E' in E. simplify_eq. unfold inv. naive_solver.
  - destruct Hg as [Hl [Hg|[Hg|(Hg & Hu & Ht)]]]; [unfold running in Hr; congruence..|].
    unfold run_packet in E. rewrite Hu in E. simplify_eq. right. right. split; [done|]. auto.
Qed.

Lemma inv_client_timer w t : inv w -> running w -> run_timer (cli w) = Some t -> inv (client_turn w (to_cli w) t).
Proof.
  intros [[c Hw]|[[Hs _]|Hg]] Hr E; [|unfold running in Hr; congruence|].
  - destruct Hw as [Hat Hc Hk Hp Hq1 Hq2]. destruct (client_timeout c (cli w) Hat) as (t' & E' & Ht); [lia|].
    rewrite E' in E. simplify_eq. destruct (_ >? _); [right; right; by apply Ht|]. destruct Ht as [Ha Htx].
    left. exists c. split; cbn [client_turn cli srv to_cli to_srv]; try done. rewrite Htx. apply queue_snoc; [lia | done].
  - destruct Hg as [Hl [Hg|[Hg|(Hg & Hu & Ht)]]]; [unfold running in Hr; congruence..|].
    unfold run_timer in E. rewrite Ht in E. simplify_eq. right. right. split; [done|]. auto.
Qed.

Lemma inv_server w l d : inv w -> to_srv w = d :: l -> inv (server_turn w l (fst (serve (srv w) d)) (snd (serve (srv w) d))).
Proof.
  intros [[c Hw]|[Hs|Hg]] El; [|by right; left|by right; right]. left. exists c. pose proof (it_to_srv _ _ Hw) as Hq.
  rewrite El in Hq. apply queue_cons in Hq as (i & -> & Hi & Hq). by apply it_serve.
Qed.

Lemma inv_step w w' : inv w -> step w w' -> inv w'.
Proof.
  intros Hi Hst. destruct Hst as [w w' Hsm|w l Hm|w l Hm|w pkt dest src len t Hr Hx E];
    [destruct Hsm as [w dest p l junk t Hr El E|w t Hr E|w d l El|w Hk]|..].
  - by eapply inv_client_receives.
  - by apply inv_client_timer.
  - by apply inv_server.
  - destruct Hi as [[c Hw]|[Hs|Hg]]; [|by right; left|by right; right]. destruct Hw as [Hat Hc Hk' Hp Hq1 Hq2].
    left. exists c. split; cbn [server_turn cli srv to_cli to_srv]; try done. rewrite Hp by done.
    apply (queue_add from_srv); [lia | done | by right].
  - destruct Hi as [[c Hw]|[Hs|Hg]]; [|by right; left|by right; right]. destruct Hw as [Hat Hc Hk Hp Hq1 Hq2].
    left. exists c. split; cbn [cli srv to_cli to_srv]; try done. by eapply queue_mishap.
  - destruct Hi as [[c Hw]|[Hs|Hg]]; [|by right; left|by right; right]. destruct Hw as [Hat Hc Hk Hp Hq1 Hq2].
    left. exists c. split; cbn [cli srv to_cli to_srv]; try done. by eapply queue_mishap.
  - destruct Hi as [[c Hw]|[[Hs _]|Hg]]; [|unfold running in Hr; congruence|].
    + destruct Hw as [Hat Hc Hk Hp Hq1 Hq2]. rewrite (client_stray c) in E by done. simplify_eq.
      left. exists c. pose proof (at_tx _ _ _ _ _ Hat) as Htx.
      split; cbn [client_turn cli srv to_cli to_srv]; rewrite ?with_tx_same, ?Htx, ?app_nil_r by done; done.
    + destruct Hg as [Hl [Hg|[Hg|(Hg & Hu & Ht)]]]; [unfold running in Hr; congruence..|].
      unfold run_packet in E. rewrite Hu in E. simplify_eq. right. right. split; [done|]. auto.
Qed.

(** No turn of the client is undefined. *)
Lemma inv_total w : inv w -> running w -> is_Some (run_timer (cli w)) /\
  forall dest p l junk, to_cli w = (dest, p) :: l ->
    is_Some (run_packet (cli w) (p ++ junk) dest port (Z.of_nat (length p))).
Proof.
  intros [[c Hw]|[[Hs _]|Hg]] Hr; [|unfold running in Hr; congruence|].
  - pose proof (it_c _ _ Hw). split.
    + destruct (client_timeout c (cli w) (it_at _ _ Hw)) as (t & E & _); [lia|]. by exists t.
    + intros dest p l junk El. pose proof (it_to_cli _ _ Hw) as Hq. pose proof (it_k _ _ Hw). rewrite El in Hq.
      apply queue_cons in Hq as (j & Ej & Hj & Hq). simplify_eq. destruct (decide (j = c)) as [->|Hne].
      * destruct (it_again c w l junk Hw) as (t & E & _); [lia | done |]. by exists t.
      * assert (Ek : sent (srv w) = c + 1) by lia. replace j with (c + 1) in * by lia. rewrite Ek in Hq.
        destruct (it_accept c w l junk Hw Ek Hq) as (t & E & _). by exists t.
  - destruct Hg as [Hl [Hg|[Hg|(Hg & Hu & Ht)]]]; [unfold running in Hr; congruence..|].
    unfold run_timer, run_packet. rewrite Ht, Hu. split; [by eexists|]. intros. by eexists.
Qed.

Lemma inv_loaded w : inv w -> exists k, loaded m0 k (cli w).
Proof.
  intros [[c Hw]|[(_ & Hl & _)|[Hl _]]]; [eexists; apply (it_at _ _ Hw) | by eexists | done].
Qed.

Lemma inv_success w : inv w -> net_state (t_loop (cli w)) = NETLOOP_SUCCESS -> succeeded m0 (cli w).
Proof.
  intros [[c Hw]|[Hs|[_ [Hg|[Hg|[Hg _]]]]]] E; [|done|congruence..]. rewrite (at_run _ _ _ _ _ (it_at _ _ Hw)) in E. done.
Qed.

(** The client is at work. *)
Lemma inv_working w : inv w -> running w -> udp_handler (t_loop (cli w)) = true -> exists c, in_transfer c w.
Proof. intros [Hw|[[Hs _]|[_ [Hg|[Hg|(_ & Hu & _)]]]]] Hr E; [done | unfold running in Hr; congruence..|congruence]. Qed.

(** *** Completion *)

(** A queue in which number [x] is still to come. *)
Definition coming {A} (f : Z -> A) (lo hi x : Z) (q : list A) : Prop :=
  exists js, q = map f js /\ numbered lo hi js /\ In x js.

Lemma coming_cons {A} (f : Z -> A) lo hi x q : coming f lo hi x q ->
  exists j q', q = f j :: q' /\ lo <= j <= hi /\ queue f j hi q' /\ (j = x \/ coming f j hi x q').
Proof.
  intros ([|j js] & -> & Hn & Hx); [done|]. apply numbered_cons in Hn as [Hj Hn].
  exists j, (map f js). split_and!; [done | lia | lia | by exists js |]. destruct Hx as [->|Hx]; [by left|]. right. by exists js.
Qed.

Lemma coming_snoc {A} (f : Z -> A) lo hi q : lo <= hi -> queue f lo hi q -> coming f lo hi hi (q ++ [f hi]).
Proof.
  intros H (js & -> & Hn). exists (js ++ [hi]). rewrite map_app. split_and!; [done | by apply numbered_snoc|].
  apply in_app_iff. right. by left.
Qed.

(** The server is reached by the acknowledgement in transit and sends the next packet. *)
Lemma ack_arrives c q : forall w, in_transfer c w -> to_srv w = q -> sent (srv w) = c ->
  coming from_cli (Z.max 0 (c - 1)) c c q ->
  exists w', rtc smooth w w' /\ in_transfer c w' /\ sent (srv w') = c + 1 /\
    coming from_srv (Z.max 1 c) (c + 1) (c + 1) (to_cli w').
Proof.
  induction q as [|d q IH]; intros w Hw Eq Ek Hq; destruct (coming_cons _ _ _ _ _ Hq) as (i & q' & E & Hi & Hq' & Hx); [done|].
  injection E as -> <-. destruct Hw as [Hat Hc Hk Hp Hq1 Hq2] eqn:Hw'. clear Hw'.
  assert (Hs : smooth w (server_turn w q (fst (serve (srv w) (from_cli i))) (snd (serve (srv w) (from_cli i))))) by by constructor.
  assert (Hw1 := it_serve c w i q Hw ltac:(lia) Hq').
  rewrite (serve_frame _ c) in Hs, Hw1 by (done || lia). destruct (Z.eqb_spec i (sent (srv w))) as [Ei|Hne].
  - rewrite orb_true_r in Hs, Hw1. eexists. split; [by apply rtc_once|]. split; [done|]. cbn [server_turn srv to_cli sent fst snd].
    split; [lia|]. replace (i + 1) with (c + 1) by lia. apply (coming_snoc from_srv); [lia|]. eapply queue_weaken; [| |exact Hq1]; lia.
  - destruct Hx as [Hx|Hx]; [lia|].
    destruct (IH _ Hw1) as (w' & H1 & H2); [done | | by replace (Z.max 0 (c - 1)) with i by lia |].
    { cbn [server_turn srv]. destruct (Z.eqb_spec i 0); cbn [orb fst sent]; lia. }
    exists w'. split; [by eapply rtc_l | done].
Qed.

(** The client is reached by the packet in transit. *)
Lemma packet_arrives c q : forall w, in_transfer c w -> to_cli w = q -> sent (srv w) = c + 1 ->
  coming from_srv (Z.max 1 c) (c + 1) (c + 1) q ->
  exists w', rtc smooth w w' /\
    (succeeded m0 (cli w') \/
     in_transfer (c + 1) w' /\ sent (srv w') = c + 1 /\ coming from_cli (Z.max 0 c) (c + 1) (c + 1) (to_srv w')).
Proof.
  induction q as [|d q IH]; intros w Hw Eq Ek Hq; destruct (coming_cons _ _ _ _ _ Hq) as (j & q' & E & Hj & Hq' & Hx); [done|].
  injection E as -> <-. pose proof (it_c _ _ Hw) as Hc. pose proof (at_run _ _ _ _ _ (it_at _ _ Hw)) as Hr.
  destruct (decide (j = c + 1)) as [->|Hne].
  - destruct (it_accept c w q [] Hw Ek Hq') as (t & E & Htx & Hw').
    eexists. split; [eapply rtc_once, (client_receives w our _ q []); done|]. destruct Hw' as [[_ Hw']|Hw']; [by left|].
    right. split; [done|]. cbn [client_turn srv to_srv]. split; [done|]. rewrite Htx. apply coming_snoc; [lia|].
    pose proof (it_to_srv _ _ Hw) as Hs. eapply queue_weaken; [| |exact Hs]; lia.
  - destruct Hx as [Hx|Hx]; [lia|]. replace j with c in * by lia. rewrite <- Ek in Hq'.
    destruct (it_again c w q [] Hw ltac:(lia) Hq') as (t & E & Hw').
    destruct (IH _ Hw') as (w' & H1 & H2); [done | done | by replace (Z.max 1 c) with c by lia |].
    exists w'. split; [|done]. eapply rtc_l; [|exact H1]. by eapply (client_receives w our _ q []).
Qed.

(** From an acknowledgement in transit to the end. *)
Lemma completes n : forall c w, in_transfer c w -> last_packet - c <= Z.of_nat n -> sent (srv w) = c ->
  coming from_cli (Z.max 0 (c - 1)) c c (to_srv w) -> exists w', rtc smooth w w' /\ succeeded m0 (cli w').
Proof.
  induction n as [|n IH]; intros c w Hw Hn Ek Hq; pose proof (it_c _ _ Hw); [lia|].
  destruct (ack_arrives c _ w Hw eq_refl Ek Hq) as (w1 & R1 & Hw1 & Ek1 & Hq1).
  destruct (packet_arrives c _ w1 Hw1 eq_refl Ek1 Hq1) as (w2 & R2 & [Hs|(Hw2 & Ek2 & Hq2)]).
  - exists w2. split; [by etrans | done].
  - destruct (IH (c + 1) w2 Hw2) as (w3 & R3 & Hs); [lia | done | by replace (c + 1 - 1) with c by lia |].
    exists w3. split; [|done]. etrans; [exact R1|]. by etrans.
Qed.

(** From any state of a transfer in which the client may still repeat its packet. *)
Lemma can_complete c w : in_transfer c w ->
  TftpTimeoutCount (t_timing (cli w)) < TftpTimeoutCountMax (t_timing (cli w)) ->
  exists w', rtc smooth w w' /\ succeeded m0 (cli w').
Proof.
  intros Hw Ht. pose proof (it_c _ _ Hw) as Hc. pose proof (it_k _ _ Hw) as Hk.
  destruct (decide (sent (srv w) = c)) as [Ek|Hne].
  - destruct (client_timeout c (cli w) (it_at _ _ Hw)) as (t & E & Ht'); [lia|].
    rewrite Z.gtb_ltb, (proj2 (Z.ltb_ge _ _)) in Ht' by lia. destruct Ht' as [Ha Htx].
    assert (Hw1 : in_transfer c (client_turn w (to_cli w) t)).
    { destruct Hw as [Hat Hc' Hk' Hp Hq1 Hq2]. split; cbn [client_turn cli srv to_cli to_srv]; try done. rewrite Htx. apply queue_snoc; [lia | done]. }
    destruct (completes (Z.to_nat (last_packet - c)) c _ Hw1) as (w' & R & Hs); [lia | done | |].
    { cbn [client_turn to_srv]. rewrite Htx. apply coming_snoc; [lia|]. rewrite <- Ek at 1. apply (it_to_srv _ _ Hw). }
    exists w'. split; [|done]. eapply rtc_l; [|exact R]. constructor; [|done]. apply (at_run _ _ _ _ _ (it_at _ _ Hw)).
  - assert (Ek : sent (srv w) = c + 1) by lia.
    set (w1 := server_turn w (to_srv w) (srv w) [(client_port (srv w), srv_packet (sent (srv w)))]).
    assert (R1 : smooth w w1) by (constructor; lia).
    assert (Hw1 : in_transfer c w1).
    { destruct Hw as [Hat Hc' Hk' Hp Hq1 Hq2]. split; cbn [w1 server_turn cli srv to_cli to_srv]; try done. rewrite Hp by lia.
      apply (queue_snoc from_srv); [lia | done]. }
    destruct (packet_arrives c _ w1 Hw1 eq_refl Ek) as (w2 & R2 & [Hs|(Hw2 & Ek2 & Hq2)]).
    { cbn [w1 server_turn to_cli]. rewrite (it_port _ _ Hw), Ek by lia. apply (coming_snoc from_srv); [lia|]. rewrite <- Ek. apply (it_to_cli _ _ Hw). }
    + exists w2. split; [by eapply rtc_l | done].
    + destruct (completes (Z.to_nat (last_packet - (c + 1))) (c + 1) w2 Hw2) as (w3 & R3 & Hs);
        [pose proof (it_c _ _ Hw2); lia | done | by replace (c + 1 - 1) with c by lia |].
      exists w3. split; [|done]. eapply rtc_l; [exact R1|]. by etrans.
Qed.

End steps.
End transfer.

(** ** The request *)

Definition request_text (name : cstr) (secs opt : Z) : list Z :=
  net16 TFTP_RRQ ++ name ++ [0] ++ str "octet" ++ [0] ++ str "timeout" ++ [0] ++ digit_text 0 10 secs ++ [0] ++
  str "blksize" ++ [0] ++ digit_text 0 10 opt ++ [0].

Lemma render_unsigned_long m n : render m (str "%lu") [word n] = t_out <$> number (mk_text [] m) (u32 n) 10 (-1) (-1) 0.
Proof. by apply render_one. Qed.

Lemma request_packet t : TftpState t = STATE_SEND_RRQ -> 0 <= TftpTimeoutMSecs (t_timing t) < 2 ^ 32 ->
  0 <= TftpBlkSizeOption t < 65536 ->
  tftp_packet t = Some (request_text (tftp_filename t) (TftpTimeoutMSecs (t_timing t) / 1000) (TftpBlkSizeOption t)).
Proof.
  intros Hs Hm Ho. unfold tftp_packet. rewrite Hs. change (STATE_SEND_RRQ =? STATE_SEND_RRQ) with true. cbn [orb].
  assert (0 <= TftpTimeoutMSecs (t_timing t) / 1000 < 2 ^ 32)
    by (split; [apply Z.div_pos; lia | apply Z.div_lt_upper_bound; lia]).
  rewrite render_unsigned_long, render_signed.
  rewrite (s32_small (TftpBlkSizeOption t)), (u64_small (TftpBlkSizeOption t)), u32_small by lia.
  rewrite !number_spec by lia. cbn [t_out app fmap option_fmap option_map mbind option_bind].
  rewrite number_text_plain, number_text_signed by (done || lia). cbn [prefix_text].
  assert (s64 (TftpBlkSizeOption t) = TftpBlkSizeOption t) as -> by (unfold s64; rewrite Z.mod_small; lia).
  rewrite (proj2 (Z.ltb_ge _ 0)) by lia. done.
Qed.

(** ** A whole transfer *)

(** The file, the block size and the reply of the server, and the memory: the
    file fits below the end of the address space and its area is allocated; the
    byte number of a block does not leave an [int]. *)
Record transfer_ok `{NN : Net} (file : list Z) (blk : Z) (opts : option (list Z)) (m0 : mem) : Prop := {
  ok_blk : 0 < blk /\ 65534 * blk < 2 ^ 31;
  ok_addr : 0 <= load_addr /\ load_addr + Z.of_nat (length file) < 2 ^ 32;
  ok_alloc : forall a, load_addr <= a < load_addr + Z.of_nat (length file) -> is_Some (m0 !! a);
  ok_reply : reply_ok blk opts }.

(** The variables hold values of their types; nothing is left to be sent. *)
Record client_ok (t : tftp) : Prop := {
  ok_msecs : 0 <= TftpTimeoutMSecs (t_timing t) < 2 ^ 32;
  ok_option : 0 <= TftpBlkSizeOption t < 65536;
  ok_tx : tx t = [] }.

(** The request is on its way. *)
Definition session (t : tftp) : world := mk_world (with_tx t []) (mk_server 0 0) [] (tx t).

(** The request that [TftpStart] sends. *)
Lemma start_request `{NN : Net} t0 ip fname : client_ok t0 -> request_target = Some (ip, fname) ->
  exists t our secs opt, NetLoop_restart t0 = Some t /\
    tx t = [(ip, WELL_KNOWN_PORT, our, request_text fname secs opt)] /\
    forall file blk opts port, 0 <= blk ->
      client_at file blk opts ip port (ram t0) our (request_text fname secs opt) 0 (with_tx t []).
Proof.
  intros [Hm Ho Htx] Ht. unfold NetLoop_restart, TftpStart. rewrite Ht. topen t0. tsimp. tsimp_in Hm. tsimp_in Ho. tsimp_in Htx. subst.
  match goal with |- context [mk_timing 0 _ ?x] => set (msecs := x) end.
  match goal with |- context [mk_tftp _ _ _ _ _ _ ?x] => set (opt := x) end.
  assert (Hms : 1000 <= msecs < 2 ^ 32).
  { unfold msecs. destruct (net_getenv (str "tftptimeout")) as [ep|]; zcase; try lia.
    split; [done | apply u32_range]. }
  assert (Hopt : 0 <= opt < 65536).
  { unfold opt. destruct (net_getenv (str "tftpblocksize")) as [ep|]; [apply u16_range | done]. }
  unfold NetSetTimeout. tsimp. rewrite (proj2 (Z.eqb_neq msecs 0)) by lia. tsimp. unfold TftpSend.
  match goal with |- context [tftp_packet ?x] => rewrite (request_packet x) by (tsimp; done || lia) end. tsimp.
  eexists _, _, (msecs / 1000), opt. split; [done|]. tsimp. split; [done|]. intros file blk opts port Hb.
  assert (Hs : stored file blk (0 - offs opts) = 0) by (unfold stored, offs; destruct opts; lia).
  split; tsimp; try done; try lia; rewrite ?Hs.
  - done.
  - left. split_and!; try done. by rewrite request_packet by (tsimp; done || lia).
Qed.

Section whole.
Context `{NN : Net} (file : list Z) (blk : Z) (opts : option (list Z)) (port : Z) (t0 : tftp) (ip : Z) (fname : cstr).
Hypothesis Hok : transfer_ok file blk opts (ram t0).
Hypothesis Hcl : client_ok t0.
Hypothesis Htarget : request_target = Some (ip, fname).

(** Every state of a run satisfies the invariant. *)
Lemma reachable_inv : exists t our rrq, NetLoop_restart t0 = Some t /\ (net16 TFTP_RRQ ++ fname ++ [0]) `prefix_of` rrq /\
  forall w, rtc (step fname file blk opts ip port) (session t) w -> inv file blk opts ip port (ram t0) our rrq w.
Proof.
  destruct Hok as [Hb Ha Hal Hre]. pose proof (reply_agreed blk opts ltac:(lia) Hre) as Hag.
  destruct (start_request t0 ip fname Hcl Htarget) as (t & our & secs & opt & E & Htx & Hat).
  assert (Hp : (net16 TFTP_RRQ ++ fname ++ [0]) `prefix_of` request_text fname secs opt).
  { unfold request_text. eexists. rewrite <- !app_assoc. done. }
  exists t, our, (request_text fname secs opt). split; [done|]. split; [done|].
  assert (Hi : inv file blk opts ip port (ram t0) our (request_text fname secs opt) (session t)).
  { left. exists 0. split; cbn [session cli srv to_cli to_srv sent]; try lia.
    - apply Hat. lia.
    - unfold last_packet. unfold offs. pose proof (Z.div_pos (Z.of_nat (length file)) blk). destruct opts; lia.
    - exists []. split; [done|]. split; constructor.
    - rewrite Htx. exists [0]. split; [done|]. split; repeat constructor; lia. }
  intros w Hw. induction Hw as [|w1 w2 w3 Hs Hr IH]; [done|]. apply IH. by eapply inv_step.
Qed.

(** A file loaded: it is in memory from [load_addr] on, everything else is as it was. *)
Lemma loaded_lookup k t a : loaded file (ram t0) k t ->
  ram t !! a = if in_range load_addr (Z.of_nat (length (take (Z.to_nat k) file))) a
               then file !! Z.to_nat (a - load_addr) else ram t0 !! a.
Proof.
  intros Hl. rewrite (store_list_lookup _ _ _ _ a Hl).
  destruct (in_range_spec load_addr (Z.of_nat (length (take (Z.to_nat k) file))) a) as [Ha|Ha]; [|done].
  rewrite length_take in Ha. by rewrite lookup_take_lt by lia.
Qed.

(** C5: the client loads the file intact, whatever the network does short of
    reordering: in every state that is reached from the request, with packets
    lost and repeated in both directions, timers expiring on both sides and
    packets of others arriving, no turn of the client is undefined, nothing
    outside the area of the file is written, and if the state is
    [NETLOOP_SUCCESS] the area holds the file and [NetBootFileXferSize] its
    length.  The block numbers may wrap any number of times. *)
Theorem tftp_transfer_safe : exists t, NetLoop_restart t0 = Some t /\
  forall w, rtc (step fname file blk opts ip port) (session t) w ->
    (running w -> is_Some (run_timer (cli w)) /\
       forall dest p l junk, to_cli w = (dest, p) :: l ->
         is_Some (run_packet (cli w) (p ++ junk) dest port (Z.of_nat (length p)))) /\
    (net_state (t_loop (cli w)) = NETLOOP_SUCCESS -> NetBootFileXferSize (cli w) = Z.of_nat (length file) /\
       forall i x, file !! i = Some x -> ram (cli w) !! (load_addr + Z.of_nat i) = Some x) /\
    (forall a, ~ (load_addr <= a < load_addr + Z.of_nat (length file)) -> ram (cli w) !! a = ram t0 !! a).
Proof.
  destruct reachable_inv as (t & our & rrq & E & Hp & Hi). destruct Hok as [Hb Ha Hal Hre].
  pose proof (reply_agreed blk opts ltac:(lia) Hre) as Hag. exists t. split; [done|]. intros w Hw. specialize (Hi w Hw).
  split_and!.
  - intros Hr. by eapply inv_total.
  - intros Hs. destruct (inv_success _ _ _ _ _ _ _ _ w Hi Hs) as (_ & Hl & Hsz). split; [done|]. intros i x Hx.
    pose proof (lookup_lt_Some _ _ _ Hx). rewrite (loaded_lookup _ _ _ Hl), length_take.
    destruct (in_range_spec load_addr (Z.of_nat (Z.to_nat (Z.of_nat (length file)) `min` length file)) (load_addr + Z.of_nat i)); [|lia].
    rewrite <- Hx. f_equal. lia.
  - intros a Ha'. destruct (inv_loaded _ _ _ _ _ _ _ _ w Hi) as [k Hl]. rewrite (loaded_lookup _ _ _ Hl), length_take.
    destruct (in_range_spec load_addr (Z.of_nat (Z.to_nat k `min` length file)) a); [lia | done].
Qed.

(** C7: a transfer can always be completed: from every state that is reached,
    while the client is at work and has a retry left, the turns of the two
    sides lead to [NETLOOP_SUCCESS] with the file in memory without any further
    loss. *)
Theorem tftp_transfer_completes : exists t, NetLoop_restart t0 = Some t /\
  forall w, rtc (step fname file blk opts ip port) (session t) w ->
    running w -> udp_handler (t_loop (cli w)) = true ->
    TftpTimeoutCount (t_timing (cli w)) < TftpTimeoutCountMax (t_timing (cli w)) ->
    exists w', rtc (smooth fname file blk opts ip port) w w' /\
      net_state (t_loop (cli w')) = NETLOOP_SUCCESS /\ NetBootFileXferSize (cli w') = Z.of_nat (length file) /\
      store_list (ram t0) load_addr file = Some (ram (cli w')).
Proof.
  destruct reachable_inv as (t & our & rrq & E & Hp & Hi). destruct Hok as [Hb Ha Hal Hre].
  pose proof (reply_agreed blk opts ltac:(lia) Hre) as Hag. exists t. split; [done|]. intros w Hw Hr Hu Ht. specialize (Hi w Hw).
  destruct (inv_working _ _ _ _ _ _ _ _ w Hi Hr Hu) as [c Hc].
  destruct (can_complete fname file blk opts ip port (ram t0) our rrq Hb Ha Hal Hag Hp c w Hc Ht) as (w' & R & Hs & Hl & Hsz).
  exists w'. split_and!; [done..|]. unfold loaded in Hl. by rewrite Nat2Z.id, take_ge in Hl by lia.
Qed.
End whole.

(** ** The variables of the client *)

(** A packet that a client may send: the request or an acknowledgement. *)
Definition client_packet (p : list Z) : Prop :=
  (exists name secs opt, p = request_text name secs opt) \/ exists n, p = net16 TFTP_ACK ++ net16 n.

(** Every variable holds a value of its type, the state is one of three, and only
    requests and acknowledgements have been sent. *)
Record typed (t : tftp) : Prop := {
  ty_state : TftpState t = STATE_SEND_RRQ \/ TftpState t = STATE_OACK \/ TftpState t = STATE_DATA;
  ty_block : 0 <= TftpBlock (t_xfer t) < 65536;
  ty_last : 0 <= TftpLastBlock (t_xfer t) < 65536;
  ty_wrap : 0 <= TftpBlockWrap (t_xfer t) < 2 ^ 32;
  ty_offset : 0 <= TftpBlockWrapOffset (t_xfer t) < 2 ^ 32;
  ty_blk : 0 <= TftpBlkSize t < 65536;
  ty_option : 0 <= TftpBlkSizeOption t < 65536;
  ty_msecs : 0 <= TftpTimeoutMSecs (t_timing t) < 2 ^ 32;
  ty_size : 0 <= NetBootFileXferSize t < 2 ^ 32;
  ty_tx : Forall (fun d => client_packet (snd d)) (tx t) }.

Lemma send_typed t t' : typed t -> TftpSend t = Some t' -> typed t' /\ ram t' = ram t.
Proof.
  intros Ht E. unfold TftpSend in E. destruct (tftp_packet t) as [p|] eqn:Ep; [|done]. cbn [mbind option_bind] in E. simplify_eq.
  assert (Hp : client_packet p).
  { destruct (ty_state t Ht) as [S|S].
    - rewrite request_packet in Ep by (done || apply Ht). simplify_eq. left. by eexists _, _, _.
    - right. unfold tftp_packet in Ep. destruct S as [S|S]; rewrite S in Ep; cbn [Z.eqb orb Pos.eqb] in Ep; injection Ep as <-; by eexists. }
  destruct Ht. split; [|done]. split; try done. unfold NetSendUDPPacket. tsimp. apply Forall_app. split; [done|]. by constructor.
Qed.

Lemma start_again_typed `{NN : Net} t : typed t -> typed (NetStartAgain t) /\ ram (NetStartAgain t) = ram t.
Proof.
  intros []. unfold NetStartAgain. destruct (match net_getenv _ with Some _ => _ | None => _ end) as [f n].
  destruct (negb f && _); [|destruct NetRestartWrap; [destruct NetDevExists|]]; unfold NetSetTimeout; (split; [split|]); done.
Qed.

Lemma store_list_dom m a l m' : store_list m a l = Some m' -> dom m' = dom m.
Proof.
  revert m a. induction l as [|x l IH]; intros m a E; cbn [store_list] in E; [by simplify_eq|].
  unfold store in E. destruct (m !! a) eqn:Ea; [|done]. cbn [mbind option_bind] in E. rewrite (IH _ _ E).
  apply dom_insert_lookup_L. by eexists.
Qed.

Lemma timeout_typed t iv f : typed t -> typed (NetSetTimeout t iv f) /\ ram (NetSetTimeout t iv f) = ram t.
Proof. intros []. unfold NetSetTimeout. by destruct (iv =? 0). Qed.

Lemma store_block_typed `{NN : Net} t b src len t' : typed t -> store_block t b src len = Some t' ->
  typed t' /\ dom (ram t') = dom (ram t).
Proof.
  intros [] E. unfold store_block in E. destruct (int_mul b (TftpBlkSize t)) as [q|]; [|done]. cbn [mbind option_bind] in E.
  destruct (_ <? len); [done|].
  match type of E with context [store_list ?m ?a ?l] => destruct (store_list m a l) as [m'|] eqn:Em; [|done] end.
  cbn [mbind option_bind] in E. simplify_eq. split; [|by apply store_list_dom in Em]. split; try done. tsimp.
  zcase; [apply u32_range | done].
Qed.

Lemma accept_typed `{NN : Net} t pkt len t' : typed t -> accept_data t pkt len = Some t' ->
  typed t' /\ dom (ram t') = dom (ram t).
Proof.
  intros Ht E. unfold accept_data in E. destruct (_ =? _); [by simplify_eq|].
  set (t1 := with_timeout_max (with_last_block t (TftpBlock (t_xfer t))) TIMEOUT_COUNT) in *.
  assert (H1 : typed t1 /\ ram t1 = ram t) by (destruct Ht; done).
  destruct (timeout_typed t1 (TftpTimeoutMSecs (t_timing t1)) TftpTimeout_f (proj1 H1)) as [H2 R2]. rewrite (proj2 H1) in R2.
  match type of E with context [store_block ?a ?b ?c ?d] => destruct (store_block a b c d) as [t3|] eqn:E3; [|done] end.
  destruct (store_block_typed _ _ _ _ _ H2 E3) as [H3 R3]. rewrite R2 in R3. cbn [mbind option_bind] in E.
  destruct (TftpSend t3) as [t4|] eqn:E4; [|done]. destruct (send_typed _ _ H3 E4) as [H4 R4]. rewrite <- R4 in R3.
  cbn [mbind option_bind] in E. simplify_eq. destruct (len <? _); [|done]. by destruct H4.
Qed.

Lemma read16_range pkt b : Forall byte_ok pkt -> read16 pkt = Some b -> 0 <= b < 65536.
Proof.
  intros Hb E. destruct pkt as [|x [|y pkt]]; try done. cbn [read16] in E. simplify_eq.
  apply Forall_cons_1 in Hb as [Hx Hb]. apply Forall_cons_1 in Hb as [Hy _]. unfold byte_ok in *.
  rewrite Z.shiftl_mul_pow2, lor_low by lia. lia.
Qed.

Lemma update_typed t b : typed t -> 0 <= b < 65536 ->
  typed (update_block_number (with_block t b)) /\ ram (update_block_number (with_block t b)) = ram t.
Proof.
  intros [] Hb. unfold update_block_number. destruct (_ && _); [|done]. split; [|done]. split; try done; apply u32_range.
Qed.

Lemma handle_data_typed `{NN : Net} t pkt src len t' : typed t -> Forall byte_ok pkt -> handle_data t pkt src len = Some t' ->
  typed t' /\ dom (ram t') = dom (ram t).
Proof.
  intros Ht Hb E. unfold handle_data in E. destruct (len <? 2); [by simplify_eq|].
  destruct (read16 pkt) as [b|] eqn:Eb; [|done]. cbn [mbind option_bind] in E.
  destruct (update_typed t b Ht (read16_range _ _ Hb Eb)) as [Hu Ru]. rewrite <- Ru.
  set (u := update_block_number (with_block t b)) in *. clearbody u. destruct (_ || _); [|by eapply accept_typed].
  set (v := new_transfer (with_remote_port (with_tftp_state u STATE_DATA) src)) in *.
  assert (Hv : typed v) by (destruct Hu; split; tsimp; try done; auto; lia). change (ram u) with (ram v).
  destruct (negb _); [|by eapply accept_typed]. simplify_eq. destruct (start_again_typed v Hv) as [? ->]. done.
Qed.

Lemma oack_loop_range fuel pkt : forall i len b b', 0 <= b < 65536 -> oack_loop fuel pkt i len b = Some b' -> 0 <= b' < 65536.
Proof.
  induction fuel as [|fuel IH]; intros i len b b' Hb E; [done|]. cbn [oack_loop] in E. destruct (_ <? _); [|by simplify_eq].
  destruct (strcmp_b _ _) as [r|]; [|done]. cbn [mbind option_bind] in E. destruct (r =? 0).
  - destruct (c_str _) as [s|]; [|done]. cbn [mbind option_bind] in E. apply IH in E; [done | apply u16_range].
  - cbn [mbind option_bind] in E. by apply IH in E.
Qed.

Lemma handler_typed `{NN : Net} t pkt dest src len t' : typed t -> Forall byte_ok pkt ->
  TftpHandler t pkt dest src len = Some t' -> typed t' /\ dom (ram t') = dom (ram t).
Proof.
  intros Ht Hb E. unfold TftpHandler in E. destruct (negb _); [by simplify_eq|]. destruct (_ && _); [by simplify_eq|].
  destruct (len <? 2); [by simplify_eq|]. destruct (read16 pkt) as [op|]; [|done]. cbn [mbind option_bind] in E.
  assert (Hb' : Forall byte_ok (drop 2 pkt)) by by apply Forall_drop. destruct (op =? TFTP_OACK).
  { unfold handle_oack in E. destruct (oack_loop _ _ _ _ _) as [b|] eqn:Eb; [|done]. cbn [mbind option_bind] in E.
    apply oack_loop_range in Eb; [|apply Ht]. apply send_typed in E as [H R]; [by rewrite R|]. destruct Ht. split; tsimp; auto. }
  destruct (op =? TFTP_DATA); [by eapply handle_data_typed|]. destruct (op =? TFTP_ERROR); [|by simplify_eq].
  unfold handle_error in E. destruct (read16 _) as [e|]; [|done]. cbn [mbind option_bind] in E. simplify_eq.
  destruct (_ || _); [by destruct Ht|]. destruct (start_again_typed t Ht) as [? ->]. done.
Qed.

Lemma timer_typed `{NN : Net} t t' : typed t -> TftpTimeout t = Some t' -> typed t' /\ ram t' = ram t.
Proof.
  intros Ht E. unfold TftpTimeout in E.
  set (t1 := with_timing t (mk_timing (TftpTimeoutCount (t_timing t) + 1) (TftpTimeoutCountMax (t_timing t))
    (TftpTimeoutMSecs (t_timing t)) (timeHandler (t_timing t)) (timeDelta (t_timing t)))) in *.
  assert (H1 : typed t1) by (destruct Ht; done). change (ram t) with (ram t1). clearbody t1. destruct (_ >? _).
  { simplify_eq. by apply start_again_typed. }
  destruct (timeout_typed t1 (TftpTimeoutMSecs (t_timing t)) TftpTimeout_f H1) as [H2 <-].
  destruct (negb _); [by apply send_typed | by simplify_eq].
Qed.

Lemma restart_typed `{NN : Net} t t' : typed t -> NetLoop_restart t = Some t' -> typed t' /\ ram t' = ram t.
Proof.
  intros Ht E. unfold NetLoop_restart, TftpStart in E. destruct request_target as [[ip name]|]; [|done]. cbn [mbind option_bind] in E.
  match type of E with TftpSend (NetSetTimeout ?x ?iv ?f) = _ => set (u := x) in *; set (ms := iv) in * end.
  assert (Hms : 0 <= ms < 2 ^ 32).
  { unfold ms. pose proof (ty_msecs t Ht). destruct (net_getenv (str "tftptimeout")) as [ep|]; zcase; try lia.
    - apply u32_range.
    - done. }
  assert (Hu : typed u).
  { destruct Ht. split; unfold u; tsimp; auto; try lia.
    - unfold TFTP_BLOCK_SIZE. lia.
    - destruct (net_getenv (str "tftpblocksize")); [apply u16_range | done]. }
  change (ram t) with (ram u). destruct (timeout_typed u ms TftpTimeout_f Hu) as [H2 <-]. by apply send_typed.
Qed.


(** ** What the conditions exclude *)

(** Once a block has followed the block numbered 0, a late copy of the latter is
    taken for another turn of the numbers: the offset moves on. *)
Lemma stale_block_zero t : TftpLastBlock (t_xfer t) <> 0 ->
  TftpBlockWrapOffset (t_xfer (update_block_number (with_block t 0))) =
    u32 (TftpBlockWrapOffset (t_xfer t) + TftpBlkSize t * TFTP_SEQUENCE_SIZE).
Proof. intros H. topen t. tsimp_in H. unfold update_block_number. tsimp. by rewrite (proj2 (Z.eqb_neq _ 0) H). Qed.

(** With blocks of no bytes, which the client accepts if the server asks for
    them, no packet ends the transfer. *)
Lemma no_block_size t pkt len t' `{NN : Net} : TftpBlkSize t = 0 -> 0 <= len -> net_state (t_loop t) = NETLOOP_CONTINUE ->
  accept_data t pkt len = Some t' -> net_state (t_loop t') = NETLOOP_CONTINUE.
Proof.
  intros Hb Hl Hr E. unfold accept_data in E. destruct (_ =? _); [by simplify_eq|].
  unfold store_block, TftpSend in E.
  match type of E with context [NetSetTimeout ?a ?b ?c] => set (u := NetSetTimeout a b c) in * end.
  assert (Hu : TftpBlkSize u = 0 /\ net_state (t_loop u) = NETLOOP_CONTINUE) by (unfold u, NetSetTimeout; by destruct (_ =? 0)).
  clearbody u. destruct Hu as [Hu1 Hu2]. rewrite Hu1 in E. destruct (int_mul _ _); [|done]. cbn [mbind option_bind] in E.
  destruct (_ <? len); [done|]. destruct (store_list _ _ _); [|done]. cbn [mbind option_bind] in E.
  destruct (tftp_packet _); [|done]. cbn [mbind option_bind] in E. simplify_eq. topen u. tsimp_in Hu1. tsimp_in Hu2. subst.
  tsimp. zcase; [lia | done].
Qed.

(** ** Examples *)

Definition ex_net : Net := {|
  load_addr := 16; net_getenv _ := None; NetServerIP := 0x0100a8c0; NetOurIP := 0x0200a8c0; BootFile := str "a";
  get_timer := 4000; NetRestartWrap := false; NetDevExists := true; TftpRRQTimeoutCountMax := TIMEOUT_COUNT |}.
Definition ex_client : tftp :=
  mk_tftp (mk_peer 0 0 0) (mk_timing 0 TIMEOUT_COUNT TIMEOUT None 0) (mk_xfer 0 0 0 0) (mk_loop NETLOOP_CONTINUE 1 false)
    STATE_SEND_RRQ TFTP_BLOCK_SIZE TFTP_MTU_BLOCKSIZE [] 0 (list_to_map ((fun a => (a, 0)) <$> seqZ 10 20)) [].
Definition ex_file : list Z := [11; 22; 33; 44; 55].
Definition ex_reply : option (list Z) := Some (str "timeout" ++ [0; 53; 0] ++ str "blksize" ++ [0; 50; 0]).

Lemma ex_transfer_ok : @transfer_ok ex_net ex_file 2 ex_reply (ram ex_client).
Proof.
  split; [lia | cbn; lia | |].
  - intros a Ha. cbn [load_addr ex_net length ex_file] in Ha.
    assert (a = 16 \/ a = 17 \/ a = 18 \/ a = 19 \/ a = 20) as [-> | [-> | [-> | [-> | ->]]]] by lia; by eexists.
  - left. exists (str "timeout" ++ [0; 53; 0]). split; [|done]. apply (bool_decide_unpack _). vm_compute. exact I.
Qed.

Lemma ex_client_ok : client_ok ex_client.
Proof. split; cbn; unfold TIMEOUT, TFTP_MTU_BLOCKSIZE; done || lia. Qed.

Lemma ex_target : @request_target ex_net = Some (0x0100a8c0, str "a").
Proof. reflexivity. Qed.

Lemma tftp_transfer_safe_witness : exists t, @NetLoop_restart ex_net ex_client = Some t /\
  forall w, rtc (@step ex_net (str "a") ex_file 2 ex_reply 0x0100a8c0 4000) (session t) w ->
    net_state (t_loop (cli w)) = NETLOOP_SUCCESS -> ram (cli w) !! 18 = Some 33.
Proof.
  destruct (@tftp_transfer_safe ex_net ex_file 2 ex_reply 4000 ex_client _ _ ex_transfer_ok ex_client_ok ex_target) as (t & E & H).
  exists t. split; [exact E|]. intros w Hw Hs. destruct (H w Hw) as (_ & Hf & _). exact (proj2 (Hf Hs) 2%nat 33 eq_refl).
Defined.

Lemma tftp_transfer_completes_witness : exists t w', @NetLoop_restart ex_net ex_client = Some t /\
  rtc (@smooth ex_net (str "a") ex_file 2 ex_reply 0x0100a8c0 4000) (session t) w' /\
  net_state (t_loop (cli w')) = NETLOOP_SUCCESS /\ NetBootFileXferSize (cli w') = 5.
Proof.
  destruct (@tftp_transfer_completes ex_net ex_file 2 ex_reply 4000 ex_client _ _ ex_transfer_ok ex_client_ok ex_target) as (t & E & H).
  pose proof E as E'. vm_compute in E'. injection E' as E'.
  destruct (H (session t) (rtc_refl _ _)) as (w' & R & Hs & Hz & _).
  - rewrite <- E'. reflexivity.
  - rewrite <- E'. reflexivity.
  - rewrite <- E'. reflexivity.
  - exists t, w'. split; [exact E|]. split; [exact R|]. split; [exact Hs | exact Hz].
Defined.

