(* ===== verification/Rbtree.v ===== *)
(** * Rbtree: red-black trees ([lib/rbtree.c], [include/linux/rbtree.h],
      [include/linux/rbtree_augmented.h])

    Nodes are links inside the objects of a client; a node holds its two children
    and, in one word, its parent and its colour.  The nodes are a heap from
    addresses to their contents and NULL is 0.  Where the code has two branches
    that mirror each other there is one definition with the side as an argument.
    The callbacks of the augmented variants, which are empty in [rb_insert_color]
    and [rb_erase], are left out. *)
From S2P Require Import Prelude.
From stdpp Require Import list gmap.
#[local] Open Scope Z_scope.

Definition RB_RED : Z := 0.
Definition RB_BLACK : Z := 1.

Record rb_node := mk_node { __rb_parent_color : Z; rb_right : Z; rb_left : Z }.

(** The nodes and [root->rb_node]. *)
Record rb := mk_rb { nodes : gmap Z rb_node; root : Z }.

Inductive side := Left | Right.
Definition opp (s : side) : side := match s with Left => Right | Right => Left end.

Definition child (s : side) (n : rb_node) : Z := match s with Left => rb_left n | Right => rb_right n end.
Definition with_child (s : side) (n : rb_node) (v : Z) : rb_node :=
  match s with
  | Left => mk_node (__rb_parent_color n) (rb_right n) v
  | Right => mk_node (__rb_parent_color n) v (rb_left n)
  end.
Definition with_pc (n : rb_node) (v : Z) : rb_node := mk_node v (rb_right n) (rb_left n).

(** ** Access *)

Definition get (t : rb) (a : Z) : option rb_node := if a =? 0 then None else nodes t !! a.
Definition set (t : rb) (a : Z) (n : rb_node) : option rb :=
  _ ← get t a; Some (mk_rb (<[a := n]> (nodes t)) (root t)).

Definition get_child (s : side) (t : rb) (a : Z) : option Z := n ← get t a; Some (child s n).
Definition set_child (s : side) (t : rb) (a v : Z) : option rb := n ← get t a; set t a (with_child s n v).
Definition set_pc (t : rb) (a v : Z) : option rb := n ← get t a; set t a (with_pc n v).
Definition get_pc (t : rb) (a : Z) : option Z := n ← get t a; Some (__rb_parent_color n).

Definition __rb_parent (pc : Z) : Z := Z.land pc (u32 (Z.lnot 3)).
Definition __rb_color (pc : Z) : Z := Z.land pc 1.
Definition __rb_is_black (pc : Z) : bool := negb (__rb_color pc =? 0).

Definition rb_parent (t : rb) (a : Z) : option Z := pc ← get_pc t a; Some (__rb_parent pc).
Definition rb_red_parent (t : rb) (a : Z) : option Z := get_pc t a.
Definition rb_is_black (t : rb) (a : Z) : option bool := pc ← get_pc t a; Some (__rb_is_black pc).
Definition rb_is_red (t : rb) (a : Z) : option bool := b ← rb_is_black t a; Some (negb b).
Definition rb_set_black (t : rb) (a : Z) : option rb := pc ← get_pc t a; set_pc t a (Z.lor pc RB_BLACK).
Definition rb_set_parent (t : rb) (a p : Z) : option rb := pc ← get_pc t a; set_pc t a (Z.lor (__rb_color pc) p).
Definition rb_set_parent_color (t : rb) (a p color : Z) : option rb := set_pc t a (Z.lor p color).

(** [if (a) ...] around an update. *)
Definition if_node (a : Z) (t : rb) (f : option rb) : option rb := if a =? 0 then Some t else f.
(** [a && rb_is_red(a)]. *)
Definition node_is_red (t : rb) (a : Z) : option bool := if a =? 0 then Some false else rb_is_red t a.

Definition __rb_change_child (t : rb) (old new parent : Z) : option rb :=
  if negb (parent =? 0) then
    l ← get_child Left t parent;
    if l =? old then set_child Left t parent new else set_child Right t parent new
  else Some (mk_rb (nodes t) new).

Definition __rb_rotate_set_parents (t : rb) (old new color : Z) : option rb :=
  parent ← rb_parent t old;
  pc ← get_pc t old;
  t ← set_pc t new pc;
  t ← rb_set_parent_color t old new color;
  __rb_change_child t old new parent.

Definition RB_EMPTY_ROOT (t : rb) : bool := root t =? 0.
Definition RB_EMPTY_NODE (t : rb) (node : Z) : option bool := pc ← get_pc t node; Some (pc =? node).
Definition RB_CLEAR_NODE (t : rb) (node : Z) : option rb := set_pc t node node.

(** ** Insertion *)

(** [*rb_link = node] is done by the caller's choice of side, or at the root. *)
Definition rb_link_node (t : rb) (node parent : Z) (rb_link : option side) : option rb :=
  t ← set t node (mk_node parent 0 0);
  match rb_link with
  | None => Some (mk_rb (nodes t) node)
  | Some s => set_child s t parent node
  end.

(** The turn ends the loop, or continues it with another node and parent. *)
Inductive turn := Break (t : rb) | Continue (t : rb) (node parent : Z).

(** Case 2: rotates at the parent, if the node is on the inner side. *)
Definition insert_case2 (s : side) (t : rb) (node parent tmp : Z) : option (rb * Z * Z) :=
  if node =? tmp then
    tmp ← get_child s t node;
    t ← set_child (opp s) t parent tmp;
    t ← set_child s t node parent;
    t ← if_node tmp t (rb_set_parent_color t tmp parent RB_BLACK);
    t ← rb_set_parent_color t parent node RB_RED;
    tmp ← get_child (opp s) t node;
    Some (t, node, tmp)
  else Some (t, parent, tmp).

(** The branch for a parent on side [s] of [gparent]; [tmp] is the other child. *)
Definition insert_turn (s : side) (t : rb) (node parent gparent tmp : Z) : option turn :=
  red ← node_is_red t tmp;
  if (red : bool) then
    t ← rb_set_parent_color t tmp gparent RB_BLACK;
    t ← rb_set_parent_color t parent gparent RB_BLACK;
    up ← rb_parent t gparent;
    t ← rb_set_parent_color t gparent up RB_RED;
    Some (Continue t gparent up)
  else
    tmp ← get_child (opp s) t parent;
    '(t, parent, tmp) ← insert_case2 s t node parent tmp;
    t ← set_child s t gparent tmp;
    t ← set_child (opp s) t parent gparent;
    t ← if_node tmp t (rb_set_parent_color t tmp gparent RB_BLACK);
    t ← __rb_rotate_set_parents t gparent parent RB_RED;
    Some (Break t).

Fixpoint insert_loop (fuel : nat) (t : rb) (node parent : Z) : option rb :=
  match fuel with
  | O => None
  | S fuel =>
      if parent =? 0 then rb_set_parent_color t node 0 RB_BLACK else
      b ← rb_is_black t parent;
      if (b : bool) then Some t else
      gparent ← rb_red_parent t parent;
      tmp ← get_child Right t gparent;
      r ← (if negb (parent =? tmp) then insert_turn Left t node parent gparent tmp
           else tmp ← get_child Left t gparent; insert_turn Right t node parent gparent tmp);
      match r with Break t => Some t | Continue t node parent => insert_loop fuel t node parent end
  end.

(** A turn takes the node up, so there are at most as many as nodes. *)
Definition rb_fuel (t : rb) : nat := S (size (nodes t)).

Definition __rb_insert (t : rb) (node : Z) : option rb :=
  parent ← rb_red_parent t node;
  insert_loop (rb_fuel t) t node parent.

Definition rb_insert_color (t : rb) (node : Z) : option rb := __rb_insert t node.

(** ** Removal *)

(** Case 1: a red sibling is rotated up; the new sibling. *)
Definition erase_case1 (s : side) (t : rb) (parent sibling : Z) : option (rb * Z) :=
  red ← rb_is_red t sibling;
  if (red : bool) then
    tmp1 ← get_child s t sibling;
    t ← set_child (opp s) t parent tmp1;
    t ← set_child s t sibling parent;
    t ← rb_set_parent_color t tmp1 parent RB_BLACK;
    t ← __rb_rotate_set_parents t parent sibling RB_RED;
    Some (t, tmp1)
  else Some (t, sibling).

(** Case 4: the rotation at the parent. *)
Definition erase_case4 (s : side) (t : rb) (parent sibling tmp1 : Z) : option turn :=
  tmp2 ← get_child s t sibling;
  t ← set_child (opp s) t parent tmp2;
  t ← set_child s t sibling parent;
  t ← rb_set_parent_color t tmp1 sibling RB_BLACK;
  t ← if_node tmp2 t (rb_set_parent t tmp2 parent);
  t ← __rb_rotate_set_parents t parent sibling RB_BLACK;
  Some (Break t).

(** Cases 2 to 4, with a black sibling. *)
Definition erase_cases (s : side) (t : rb) (parent sibling : Z) : option turn :=
  tmp1 ← get_child (opp s) t sibling;
  red1 ← node_is_red t tmp1;
  if negb red1 then
    tmp2 ← get_child s t sibling;
    red2 ← node_is_red t tmp2;
    if negb red2 then
      t ← rb_set_parent_color t sibling parent RB_RED;
      red ← rb_is_red t parent;
      if (red : bool) then t ← rb_set_black t parent; Some (Break t)
      else
        up ← rb_parent t parent;
        Some (if negb (up =? 0) then Continue t parent up else Break t)
    else
      tmp1 ← get_child (opp s) t tmp2;
      t ← set_child s t sibling tmp1;
      t ← set_child (opp s) t tmp2 sibling;
      t ← set_child (opp s) t parent tmp2;
      t ← if_node tmp1 t (rb_set_parent_color t tmp1 sibling RB_BLACK);
      erase_case4 s t parent tmp2 sibling
  else erase_case4 s t parent sibling tmp1.

(** The branch for a node on side [s] of [parent]. *)
Definition erase_turn (s : side) (t : rb) (parent sibling : Z) : option turn :=
  '(t, sibling) ← erase_case1 s t parent sibling;
  erase_cases s t parent sibling.

Fixpoint erase_loop (fuel : nat) (t : rb) (node parent : Z) : option rb :=
  match fuel with
  | O => None
  | S fuel =>
      sibling ← get_child Right t parent;
      r ← (if negb (node =? sibling) then erase_turn Left t parent sibling
           else sibling ← get_child Left t parent; erase_turn Right t parent sibling);
      match r with Break t => Some t | Continue t node parent => erase_loop fuel t node parent end
  end.

Definition ____rb_erase_color (t : rb) (parent : Z) : option rb := erase_loop (rb_fuel t) t 0 parent.

(** The leftmost node below [successor], whose left child is [tmp], and its parent. *)
Fixpoint leftmost (fuel : nat) (t : rb) (parent successor tmp : Z) : option (Z * Z) :=
  match fuel with
  | O => None
  | S fuel =>
      if tmp =? 0 then Some (parent, successor) else
      l ← get_child Left t tmp;
      leftmost fuel t successor tmp l
  end.

(** Cases 2 and 3: the successor, the place to rebalance from and the child it leaves. *)
Definition unlink_successor (t : rb) (child : Z) : option (rb * Z * Z * Z) :=
  tmp ← get_child Left t child;
  if tmp =? 0 then
    child2 ← get_child Right t child;
    Some (t, child, child, child2)
  else
    '(parent, successor) ← leftmost (rb_fuel t) t 0 child tmp;
    child2 ← get_child Right t successor;
    t ← set_child Left t parent child2;
    t ← set_child Right t successor child;
    t ← rb_set_parent t child successor;
    Some (t, successor, parent, child2).

(** The node to rebalance from, NULL for none. *)
Definition __rb_erase_augmented (t : rb) (node : Z) : option (rb * Z) :=
  child ← get_child Right t node;
  tmp ← get_child Left t node;
  if tmp =? 0 then
    pc ← get_pc t node;
    let parent := __rb_parent pc in
    t ← __rb_change_child t node child parent;
    if negb (child =? 0) then t ← set_pc t child pc; Some (t, 0)
    else Some (t, if __rb_is_black pc then parent else 0)
  else if child =? 0 then
    pc ← get_pc t node;
    t ← set_pc t tmp pc;
    t ← __rb_change_child t node tmp (__rb_parent pc);
    Some (t, 0)
  else
    '(t, successor, parent, child2) ← unlink_successor t child;
    tmp ← get_child Left t node;
    t ← set_child Left t successor tmp;
    t ← rb_set_parent t tmp successor;
    pc ← get_pc t node;
    t ← __rb_change_child t node successor (__rb_parent pc);
    if negb (child2 =? 0) then
      t ← set_pc t successor pc;
      t ← rb_set_parent_color t child2 parent RB_BLACK;
      Some (t, 0)
    else
      pc2 ← get_pc t successor;
      t ← set_pc t successor pc;
      Some (t, if __rb_is_black pc2 then parent else 0).

Definition rb_erase (t : rb) (node : Z) : option rb :=
  '(t, rebalance) ← __rb_erase_augmented t node;
  if negb (rebalance =? 0) then ____rb_erase_color t rebalance else Some t.

(** ** Traversal *)

(** [while (n->child) n = n->child;] *)
Fixpoint outermost (fuel : nat) (s : side) (t : rb) (n : Z) : option Z :=
  match fuel with
  | O => None
  | S fuel => c ← get_child s t n; if c =? 0 then Some n else outermost fuel s t c
  end.

Definition rb_end (s : side) (t : rb) : option Z :=
  if RB_EMPTY_ROOT t then Some 0 else outermost (rb_fuel t) s t (root t).
Definition rb_first : rb -> option Z := rb_end Left.
Definition rb_last : rb -> option Z := rb_end Right.

(** [while ((parent = rb_parent(node)) && node == parent->child) node = parent;] *)
Fixpoint climb (fuel : nat) (s : side) (t : rb) (node : Z) : option Z :=
  match fuel with
  | O => None
  | S fuel =>
      parent ← rb_parent t node;
      if parent =? 0 then Some 0 else
      c ← get_child s t parent;
      if node =? c then climb fuel s t parent else Some parent
  end.

(** The neighbour towards side [s]. *)
Definition rb_step (s : side) (t : rb) (node : Z) : option Z :=
  empty ← RB_EMPTY_NODE t node;
  if (empty : bool) then Some 0 else
  c ← get_child s t node;
  if negb (c =? 0) then outermost (rb_fuel t) (opp s) t c else climb (rb_fuel t) s t node.
Definition rb_next : rb -> Z -> option Z := rb_step Right.
Definition rb_prev : rb -> Z -> option Z := rb_step Left.

Definition rb_replace_node (t : rb) (victim new : Z) : option rb :=
  parent ← rb_parent t victim;
  t ← __rb_change_child t victim new parent;
  l ← get_child Left t victim;
  t ← if_node l t (rb_set_parent t l new);
  r ← get_child Right t victim;
  t ← if_node r t (rb_set_parent t r new);
  n ← get t victim;
  set t new n.

Fixpoint rb_left_deepest_node (fuel : nat) (t : rb) (node : Z) : option Z :=
  match fuel with
  | O => None
  | S fuel =>
      l ← get_child Left t node;
      if negb (l =? 0) then rb_left_deepest_node fuel t l else
      r ← get_child Right t node;
      if negb (r =? 0) then rb_left_deepest_node fuel t r else Some node
  end.

Definition rb_next_postorder (t : rb) (node : Z) : option Z :=
  if node =? 0 then Some 0 else
  parent ← rb_parent t node;
  if parent =? 0 then Some 0 else
  l ← get_child Left t parent;
  r ← get_child Right t parent;
  if (node =? l) && negb (r =? 0) then rb_left_deepest_node (rb_fuel t) t r else Some parent.

Definition rb_first_postorder (t : rb) : option Z :=
  if root t =? 0 then Some 0 else rb_left_deepest_node (rb_fuel t) t (root t).

(** ** Trees *)

Inductive color := Red | Black.
Inductive tree := E | T (c : color) (l : tree) (a : Z) (r : tree).

#[global] Instance color_eq_dec : EqDecision color.
Proof. solve_decision. Defined.
#[global] Instance side_eq_dec : EqDecision side.
Proof. solve_decision. Defined.

Fixpoint inorder (t : tree) : list Z :=
  match t with E => [] | T _ l a r => inorder l ++ a :: inorder r end.
Fixpoint postorder (t : tree) : list Z :=
  match t with E => [] | T _ l a r => postorder l ++ postorder r ++ [a] end.
Fixpoint height (t : tree) : nat := match t with E => O | T _ l _ r => S (height l `max` height r) end.

(** A tree with its root of colour [c] in which both children of a red node are
    black and every path has [n] black nodes. *)
Inductive is_rb : tree -> color -> nat -> Prop :=
| rb_E : is_rb E Black 0
| rb_red l a r n : is_rb l Black n -> is_rb r Black n -> is_rb (T Red l a r) Red n
| rb_black l a r c1 c2 n : is_rb l c1 n -> is_rb r c2 n -> is_rb (T Black l a r) Black (S n).
#[local] Hint Constructors is_rb : core.

(** A red-black tree: the root is black. *)
Definition redblack (t : tree) : Prop := exists n, is_rb t Black n.

(** A node with the subtree [x] on side [s] and [y] on the other. *)
Definition join (s : side) (c : color) (x : tree) (a : Z) (y : tree) : tree :=
  match s with Left => T c x a y | Right => T c y a x end.

(** The way from a subtree to the root: on which side of its parent it hangs,
    the parent's colour and address, and the sibling. *)
Record frame := mk_frame { f_side : side; f_col : color; f_addr : Z; f_sib : tree }.
Definition plug1 (f : frame) (x : tree) : tree := join (f_side f) (f_col f) x (f_addr f) (f_sib f).
Fixpoint plug (k : list frame) (x : tree) : tree :=
  match k with [] => x | f :: k => plug k (plug1 f x) end.

(** The nodes before and after a subtree. *)
Fixpoint before (k : list frame) : list Z :=
  match k with
  | [] => []
  | f :: k => before k ++ match f_side f with Left => [] | Right => inorder (f_sib f) ++ [f_addr f] end
  end.
Fixpoint after (k : list frame) : list Z :=
  match k with
  | [] => []
  | f :: k => match f_side f with Left => f_addr f :: inorder (f_sib f) | Right => [] end ++ after k
  end.

Lemma inorder_plug k x : inorder (plug k x) = before k ++ inorder x ++ after k.
Proof.
  revert x. induction k as [|f k IH]; intros x; cbn [plug before after]; [by rewrite app_nil_r|].
  rewrite IH. unfold plug1, join. destruct (f_side f); cbn [inorder]; rewrite <- ?app_assoc; cbn [app]; by rewrite <- ?app_assoc.
Qed.

(** The way to the root accepts a subtree with its root of colour [c] and [n]
    black nodes on every path. *)
Inductive path_ok : list frame -> color -> nat -> Prop :=
| path_root n : path_ok [] Black n
| path_red s a y k n : path_ok k Red n -> is_rb y Black n -> path_ok (mk_frame s Red a y :: k) Black n
| path_black s a y c c' k n : path_ok k Black (S n) -> is_rb y c' n -> path_ok (mk_frame s Black a y :: k) c n.
#[local] Hint Constructors path_ok : core.

Lemma join_red s x a y n : is_rb x Black n -> is_rb y Black n -> is_rb (join s Red x a y) Red n.
Proof. destruct s; simpl; eauto. Qed.
Lemma join_black s x a y c1 c2 n : is_rb x c1 n -> is_rb y c2 n -> is_rb (join s Black x a y) Black (S n).
Proof. destruct s; simpl; eauto. Qed.
#[local] Hint Resolve join_red join_black : core.

Lemma plug_ok k x c n : path_ok k c n -> is_rb x c n -> redblack (plug k x).
Proof.
  intros Hk. revert x. induction Hk as [n|s a y k n Hk IH Hy|s a y c c' k n Hk IH Hy]; intros x Hx; cbn [plug].
  - by exists n.
  - apply IH. unfold plug1. cbn. eauto.
  - apply IH. unfold plug1. cbn. eauto.
Qed.

(** The parts of a node on one side and on the other. *)
Lemma join_inv s c x a y c0 n : is_rb (join s c x a y) c0 n ->
  c0 = c /\ ((c = Red /\ is_rb x Black n /\ is_rb y Black n) \/
             (c = Black /\ exists c1 c2 m, n = S m /\ is_rb x c1 m /\ is_rb y c2 m)).
Proof. destruct s; cbn [join]; inversion 1; subst; split; eauto 10. Qed.

Lemma plug_inv k : forall x n, is_rb (plug k x) Black n -> exists c m, path_ok k c m /\ is_rb x c m.
Proof.
  induction k as [|[s fc a y] k IH]; intros x n H; cbn [plug] in H; [eauto|].
  destruct (IH _ _ H) as (c & m & Hk & Hx). unfold plug1 in Hx. cbn in Hx. apply join_inv in Hx as [-> [(-> & Hx & Hy)|(-> & c1 & c2 & m' & -> & Hx & Hy)]]; eauto.
Qed.

(** Every node has its two sides. *)
Definition near (s : side) (l r : tree) : tree := match s with Left => l | Right => r end.
Lemma join_near s c l a r : T c l a r = join s c (near s l r) a (near (opp s) l r).
Proof. by destruct s. Qed.

(** *** Insertion on trees *)

Definition is_red (t : tree) : bool := match t with T Red _ _ _ => true | _ => false end.
Definition paint (c : color) (t : tree) : tree := match t with E => E | T _ l a r => T c l a r end.

(** The rotations of cases 2 and 3 at the grandparent [g], for the subtree [x]
    below the parent [f]. *)
Definition insert_rotate (g f : frame) (x : tree) : tree :=
  let s := f_side g in
  match x with
  | E => E
  | T _ l n r =>
      if decide (f_side f = s) then join s Black x (f_addr f) (join s Red (f_sib f) (f_addr g) (f_sib g))
      else join s Black (join s Red (f_sib f) (f_addr f) (near s l r)) n (join s Red (near (opp s) l r) (f_addr g) (f_sib g))
  end.

Fixpoint insert_fix (k : list frame) (x : tree) : tree :=
  match k with
  | [] => paint Black x
  | f :: k' =>
      match f_col f, k' with
      | Red, g :: k'' =>
          if is_red (f_sib g)
          then insert_fix k'' (join (f_side g) Red (join (f_side f) Black x (f_addr f) (f_sib f)) (f_addr g) (paint Black (f_sib g)))
          else plug k'' (insert_rotate g f x)
      | _, _ => plug k x
      end
  end.

Lemma inorder_paint c t : inorder (paint c t) = inorder t.
Proof. by destruct t. Qed.

Lemma inorder_join s c x a y : inorder (join s c x a y) =
  match s with Left => inorder x ++ a :: inorder y | Right => inorder y ++ a :: inorder x end.
Proof. by destruct s. Qed.

Lemma inorder_rotate g f x : x <> E -> inorder (insert_rotate g f x) = inorder (plug1 g (plug1 f x)).
Proof.
  destruct x as [|c l n r]; [done|]. intros _. unfold insert_rotate, plug1. destruct f as [fs fc fa fy], g as [gs gc ga gy]. cbn.
  destruct gs, fs; destruct (decide _); try done; cbn [join inorder near opp];
    rewrite <- ?app_assoc; cbn [app]; rewrite <- ?app_assoc; done.
Qed.

Lemma insert_fix_inorder k : forall x, x <> E -> inorder (insert_fix k x) = inorder (plug k x).
Proof.
  assert (Hind : forall n k x, (length k < n)%nat -> x <> E -> inorder (insert_fix k x) = inorder (plug k x)); [|eauto].
  clear k. induction n as [|n IH]; intros k x Hn Hx; [lia|]. destruct k as [|f k]; cbn [insert_fix plug]; [apply inorder_paint|].
  destruct (f_col f) eqn:Ec; [|done]. destruct k as [|g k]; [done|]. cbn [length] in Hn. cbn [plug]. rewrite inorder_plug.
  destruct (is_red (f_sib g)).
  - rewrite IH by (lia || by destruct (f_side g)). rewrite inorder_plug. do 2 f_equal. unfold plug1.
    rewrite !inorder_join, inorder_paint. done.
  - rewrite inorder_plug. do 2 f_equal. by apply inorder_rotate.
Qed.

Lemma insert_fix_ok k : forall x n, is_rb x Red n -> path_ok k Black n -> redblack (insert_fix k x).
Proof.
  assert (Hind : forall m k x n, (length k < m)%nat -> is_rb x Red n -> path_ok k Black n -> redblack (insert_fix k x)); [|eauto].
  clear k. induction m as [|m IH]; intros k x n Hm Hx Hk; [lia|]. inversion Hk as [n'|s a y k' n' Hk' Hy|s a y c c' k' n' Hk' Hy]; subst; cbn [insert_fix f_col].
  - inversion Hx; subst. exists (S n). cbn. eauto.
  - inversion Hk' as [|?|s' a' y' c c' k'' n' Hk'' Hy']; subst. cbn [length] in Hm. cbn [f_sib f_side f_addr]. destruct (is_red y') eqn:Ey.
    + destruct y' as [|[|] l b r]; try done. inversion Hy'; subst. apply (IH _ _ (S n)); [lia | | done]. cbn [paint]. eauto.
    + assert (Hy2 : is_rb y' Black n) by (destruct c'; [inversion Hy'; by subst | done]).
      inversion Hx as [|l b r n' Hl Hr|]; subst. unfold insert_rotate. cbn [f_sib f_side f_addr].
      assert (Hn : forall s, is_rb (near s l r) Black n) by (by intros []).
      destruct (decide _); apply (plug_ok _ _ Black (S n)); eauto.
  - by apply (plug_ok (mk_frame s Black a y :: k') x Red n); eauto.
Qed.

(** *** Removal on trees *)

(** Cases 2 to 4 for the subtree [x], which lacks a black node, below [f] whose
    sibling is black; [rec] continues at the parent. *)
Definition erase_black (rec : tree -> tree) (k : list frame) (f : frame) (x : tree) : tree :=
  let s := f_side f in
  match f_sib f with
  | E => plug k (plug1 f x)
  | T _ l a r =>
      if is_red (near (opp s) l r) then
        plug k (join s (f_col f) (join s Black x (f_addr f) (near s l r)) a (paint Black (near (opp s) l r)))
      else
        match near s l r with
        | T Red l2 b r2 =>
            plug k (join s (f_col f) (join s Black x (f_addr f) (near s l2 r2)) b
                      (join s Black (near (opp s) l2 r2) a (near (opp s) l r)))
        | _ =>
            let x' := join s Black x (f_addr f) (paint Red (f_sib f)) in
            match f_col f with Red => plug k x' | Black => rec x' end
        end
  end.

Fixpoint erase_fix (k : list frame) (x : tree) : tree :=
  match k with
  | [] => x
  | f :: k =>
      match f_sib f with
      | T Red l a r =>
          let s := f_side f in
          erase_black (fun t => t) (mk_frame s (f_col f) a (near (opp s) l r) :: k) (mk_frame s Red (f_addr f) (near s l r)) x
      | _ => erase_black (erase_fix k) k f x
      end
  end.

Ltac orders := cbn [join inorder near opp]; repeat (rewrite <- ?app_assoc; cbn [app]); done.

Lemma erase_black_inorder rec k f x : (f_col f = Black -> forall y, inorder (rec y) = inorder (plug k y)) ->
  inorder (erase_black rec k f x) = inorder (plug k (plug1 f x)).
Proof.
  intros Hrec. unfold erase_black, plug1. destruct f as [s fc p y]. cbn [f_sib f_side f_col f_addr] in *.
  destruct y as [|c l a r]; [done|]. destruct (is_red (near (opp s) l r)).
  { rewrite !inorder_plug. do 2 f_equal. rewrite !inorder_join, inorder_paint. destruct s; orders. }
  assert (Hdef : inorder (match fc with Red => plug k (join s Black x p (paint Red (T c l a r))) | Black => rec (join s Black x p (paint Red (T c l a r))) end)
    = inorder (plug k (join s fc x p (T c l a r)))).
  { destruct fc; rewrite ?Hrec by done; rewrite !inorder_plug; do 2 f_equal; rewrite !inorder_join, inorder_paint; done. }
  destruct (near s l r) as [|[|] l2 b r2] eqn:En; [exact Hdef | | exact Hdef].
  rewrite !inorder_plug. do 2 f_equal. destruct s; cbn [near opp] in *; subst; orders.
Qed.

(** Where a red root fits, a black one does. *)
Lemma path_weaken k n : path_ok k Red n -> path_ok k Black n.
Proof. inversion 1; subst; eauto. Qed.

Lemma erase_black_ok rec k f x n c : path_ok (f :: k) c (S n) -> is_rb x Black n -> is_red (f_sib f) = false ->
  (f_col f = Black -> forall y m, is_rb y Black m -> path_ok k Black (S m) -> redblack (rec y)) ->
  redblack (erase_black rec k f x).
Proof.
  intros Hk Hx Hred Hrec. unfold erase_black. destruct f as [s fc p y]. cbn [f_sib f_side f_col f_addr] in *.
  assert (Hy : is_rb y Black (S n) /\ (fc = Red /\ path_ok k Red (S n) \/ fc = Black /\ path_ok k Black (S (S n)))).
  { inversion Hk as [|? ? ? ? ? H1 H2|? ? ? ? c' ? ? H1 H2]; subst; [by auto|]. destruct c'; [|by auto].
    inversion H2; subst; done. }
  clear Hk. destruct Hy as [Hy Hfc]. inversion Hy as [| |l a r c1 c2 m Hl Hr E1 E2 E3]. subst. clear Hy Hred.
  assert (Hn : forall s, exists c, is_rb (near s l r) c n) by (intros []; eauto).
  assert (Hput : forall u v b, is_rb u Black (S n) -> is_rb v Black (S n) -> redblack (plug k (join s fc u b v))).
  { intros u v b Hu Hv. destruct Hfc as [[-> Hk]|[-> Hk]]; eapply plug_ok; eauto. }
  destruct (Hn (opp s)) as [cf Hf]. destruct (Hn s) as [cn Hnear]. destruct (is_red (near (opp s) l r)) eqn:Er.
  { apply Hput; [eauto|]. destruct (near (opp s) l r) as [|[|] l2 b r2]; try done. inversion Hf; subst. cbn [paint]. eauto. }
  assert (Hf' : is_rb (near (opp s) l r) Black n) by (destruct cf; [inversion Hf as [|? ? ? ? ? ? E|]; rewrite <- E in Er; done | done]).
  assert (Hdef : is_red (near s l r) = false ->
    redblack match fc with Red => plug k (join s Black x p (paint Red (T Black l a r))) | Black => rec (join s Black x p (paint Red (T Black l a r))) end).
  { intros Er2. assert (Hn' : is_rb (near s l r) Black n) by (destruct cn; [inversion Hnear as [|? ? ? ? ? ? E|]; rewrite <- E in Er2; done | done]).
    assert (Hred : is_rb (T Red l a r) Red n) by (destruct s; cbn [near opp] in *; eauto).
    assert (Hj : is_rb (join s Black x p (T Red l a r)) Black (S n)) by eauto.
    destruct Hfc as [[-> Hk]|[-> Hk]]; [eapply plug_ok; [by apply path_weaken | done] | by eapply Hrec]. }
  destruct (near s l r) as [|[|] l2 b r2]; [by apply Hdef | | by apply Hdef].
  inversion Hnear as [|? ? ? ? Hl2 Hr2|]; subst. assert (Hn2 : forall s, is_rb (near s l2 r2) Black n) by (by intros []). apply Hput; eauto.
Qed.

(** What the loop needs: below [k] a black node is missing. *)
Definition lacking (k : list frame) (n : nat) : Prop := exists c, path_ok k c (S n).

Lemma lacking_sibling f k n : lacking (f :: k) n -> exists c, is_rb (f_sib f) c (S n) /\ (f_col f = Red -> c = Black).
Proof. intros [c Hk]. inversion Hk; subst; cbn; eauto. exists c'. split; [done|]. done. Qed.

(** Case 1: the path after the rotation. *)
Lemma lacking_case1 s fc p l a r k n : lacking (mk_frame s fc p (T Red l a r) :: k) n ->
  fc = Black /\ is_red (near s l r) = false /\ near s l r <> E /\
  path_ok (mk_frame s Red p (near s l r) :: mk_frame s fc a (near (opp s) l r) :: k) Black (S n).
Proof.
  intros [c Hk]. inversion Hk as [|? ? ? ? ? H1 H2|? ? ? ? c' ? ? H1 H2]; subst; [inversion H2|]. split; [done|].
  inversion H2 as [|? ? ? ? Hl Hr|]; subst.
  assert (Hn : forall s, is_rb (near s l r) Black (S n)) by (by intros []). specialize (Hn s) as Hs.
  split; [|split]; [inversion Hs; subst; done | inversion Hs; done|]. apply path_red; [|done]. eapply path_black; [done|]. apply Hn.
Qed.

Lemma erase_fix_ok k : forall x n, is_rb x Black n -> lacking k n -> redblack (erase_fix k x).
Proof.
  induction k as [|f k IH]; intros x n Hx Hk; cbn [erase_fix]; [by exists n|].
  destruct f as [s fc p y]. cbn [f_sib f_side f_col f_addr].
  assert (Hb : is_red y = false -> redblack (erase_black (erase_fix k) k (mk_frame s fc p y) x)).
  { intros Hy. destruct Hk as [c Hk]. eapply erase_black_ok; [done..|]. intros Hc z m Hz Hp. eapply IH; [done|]. by exists Black. }
  destruct y as [|[|] l a r]; [by apply Hb | | by apply Hb].
  destruct (lacking_case1 _ _ _ _ _ _ _ _ Hk) as (-> & H1 & H2 & H3). by eapply erase_black_ok.
Qed.

Lemma erase_fix_inorder k : forall x, inorder (erase_fix k x) = inorder (plug k x).
Proof.
  induction k as [|f k IH]; intros x; cbn [erase_fix plug]; [done|].
  assert (Hb := erase_black_inorder (erase_fix k) k f x (fun _ => IH)).
  destruct f as [s fc p y]. cbn [f_sib f_side f_col f_addr] in *. destruct y as [|[|] l a r]; [done | | done].
  rewrite erase_black_inorder by done. cbn [plug]. rewrite !inorder_plug. do 2 f_equal.
  unfold plug1. cbn [f_sib f_side f_col f_addr]. rewrite !inorder_join. cbn [inorder].
  destruct s; orders.
Qed.

(** The leftmost node below a node, which lies below [k]: the way to it, its
    colour, its address and its right subtree. *)
Fixpoint min_path (c : color) (l : tree) (a : Z) (r : tree) (k : list frame) : list frame * color * Z * tree :=
  match l with
  | E => (k, c, a, r)
  | T c' l' a' r' => min_path c' l' a' r' (mk_frame Left c a r :: k)
  end.

Lemma min_path_plug l : forall c a r k k' c' s x, min_path c l a r k = (k', c', s, x) ->
  exists k2, k' = k2 ++ k /\ plug k2 (T c' E s x) = T c l a r /\ Forall (fun f => f_side f = Left) k2.
Proof.
  induction l as [|c1 l1 IH a1 r1 _]; intros c a r k k' c' s x H; cbn [min_path] in H.
  - simplify_eq. exists []. eauto.
  - apply IH in H as (k2 & -> & E2 & Hl). exists (k2 ++ [mk_frame Left c a r]). rewrite <- app_assoc. split; [done|]. split.
    + clear Hl. revert E2. generalize (T c' E s x) (T c1 l1 a1 r1). induction k2 as [|f k2 IH2]; intros u v E2; cbn [plug app] in *; [by subst|]. by apply IH2.
    + apply Forall_app. split; [done|]. by repeat constructor.
Qed.

(** Removal of the node [a] with the subtrees [l] and [r]. *)
Definition erase_tree (k : list frame) (c : color) (l : tree) (a : Z) (r : tree) : tree :=
  match l, r with
  | E, E => match c with Red => plug k E | Black => erase_fix k E end
  | E, T _ _ _ _ => plug k (paint c r)
  | T _ _ _ _, E => plug k (paint c l)
  | T _ _ _ _, T c2 l2 a2 r2 =>
      let '(k2, c', s, x) := min_path c2 l2 a2 r2 [] in
      let k' := k2 ++ mk_frame Right c s l :: k in
      match x with
      | E => match c' with Red => plug k' E | Black => erase_fix k' E end
      | T _ _ _ _ => plug k' (paint Black x)
      end
  end.

Lemma plug_app k1 k2 x : plug (k1 ++ k2) x = plug k2 (plug k1 x).
Proof. revert x. induction k1 as [|f k1 IH]; intros x; cbn [app plug]; auto. Qed.

Lemma before_left k : Forall (fun f => f_side f = Left) k -> before k = [].
Proof. induction 1 as [|f k Hf Hk IH]; cbn [before]; [done|]. by rewrite IH, Hf. Qed.

Lemma erase_tree_inorder k c l a r :
  inorder (erase_tree k c l a r) = before k ++ inorder l ++ inorder r ++ after k.
Proof.
  unfold erase_tree. destruct l as [|cl ll al rl]; destruct r as [|c2 l2 a2 r2].
  - destruct c; rewrite ?erase_fix_inorder; apply inorder_plug.
  - rewrite inorder_plug, inorder_paint. done.
  - rewrite inorder_plug, inorder_paint. done.
  - destruct (min_path c2 l2 a2 r2 []) as [[[k2 c'] s] x] eqn:Em. destruct (min_path_plug _ _ _ _ _ _ _ _ _ Em) as (k3 & -> & E2 & Hl).
    rewrite app_nil_r. assert (Hx : forall y, inorder y = inorder x ->
      inorder (plug (k3 ++ mk_frame Right c s (T cl ll al rl) :: k) y) =
        before k ++ inorder (T cl ll al rl) ++ inorder (T c2 l2 a2 r2) ++ after k).
    { intros y Hy. rewrite <- E2, plug_app. cbn [plug]. rewrite inorder_plug. f_equal. rewrite app_assoc. f_equal.
      unfold plug1. cbn [f_side f_col f_addr f_sib join]. rewrite inorder_plug, (before_left k3 Hl). set (L := T cl ll al rl). cbn [inorder].
      rewrite inorder_plug, (before_left k3 Hl), Hy. orders. }
    destruct x as [|cx lx ax rx]; [destruct c'|]; rewrite ?erase_fix_inorder; by apply Hx.
Qed.

(** A subtree without black nodes on its paths that is not empty is one red node. *)
Lemma rb_single t c : is_rb t c 0 -> t <> E -> c = Red /\ is_rb (paint Black t) Black 1.
Proof. inversion 1; subst; [done|]. cbn [paint]. eauto. Qed.

(** Addresses do not matter. *)
Lemma path_addr k1 s c a a' y k2 c0 n :
  path_ok (k1 ++ mk_frame s c a y :: k2) c0 n -> path_ok (k1 ++ mk_frame s c a' y :: k2) c0 n.
Proof.
  revert c0 n. induction k1 as [|f k1 IH]; intros c0 n H; cbn [app] in *; inversion H; subst; eauto.
Qed.

(** The node [s] without left child is taken out, its right subtree [x] moves up. *)
Lemma unlink_ok k c s x n : path_ok k c n -> is_rb (T c E s x) c n ->
  redblack match x with
           | E => match c with Red => plug k E | Black => erase_fix k E end
           | T _ _ _ _ => plug k (paint Black x)
           end.
Proof.
  intros Hk Ht. inversion Ht as [|? ? ? ? H1 H2|? ? ? ? ? ? H1 H2]; subst; inversion H1; subst.
  - inversion H2; subst. by eapply plug_ok; [apply path_weaken|].
  - destruct x as [|cx lx ax rx]; [eapply erase_fix_ok; [constructor|]; by eexists|].
    destruct (rb_single _ _ H2) as [_ H3]; [done|]. by eapply plug_ok.
Qed.

(** The successor lies on a path of the tree, with the successor in the place of [a]. *)
Lemma successor_place k c l a c2 l2 a2 r2 n k2 c' s x : min_path c2 l2 a2 r2 [] = (k2, c', s, x) ->
  path_ok k c n -> is_rb (T c l a (T c2 l2 a2 r2)) c n ->
  exists m, path_ok (k2 ++ mk_frame Right c s l :: k) c' m /\ is_rb (T c' E s x) c' m.
Proof.
  intros Em Hk Ht. destruct (min_path_plug _ _ _ _ _ _ _ _ _ Em) as (k3 & -> & E2 & _).
  rewrite app_nil_r. destruct (plug_ok _ _ _ _ Hk Ht) as [m Hm]. rewrite <- E2 in Hm.
  change (plug k (T c l a (plug k3 (T c' E s x)))) with (plug (mk_frame Right c a l :: k) (plug k3 (T c' E s x))) in Hm.
  rewrite <- plug_app in Hm. destruct (plug_inv _ _ _ Hm) as (c0 & m' & Hk' & Hx). assert (c0 = c') as -> by (inversion Hx; done).
  exists m'. split; [by eapply path_addr | done].
Qed.

Lemma erase_tree_ok k c l a r n : path_ok k c n -> is_rb (T c l a r) c n -> redblack (erase_tree k c l a r).
Proof.
  intros Hk Ht. unfold erase_tree. destruct l as [|cl ll al rl]; destruct r as [|c2 l2 a2 r2].
  - by apply (unlink_ok k c a E n).
  - assert (c = Black) as -> by (inversion Ht as [|? ? ? ? H1 H2|]; subst; [inversion H1; subst; inversion H2 | done]).
    by apply (unlink_ok k Black a (T c2 l2 a2 r2) n).
  - inversion Ht as [|? ? ? ? H1 H2|? ? ? ? ? ? H1 H2]; subst; inversion H2; subst; [inversion H1|].
    destruct (rb_single _ _ H1) as [-> H3]; [done|]. by eapply plug_ok.
  - destruct (min_path c2 l2 a2 r2 []) as [[[k2 c'] s] x] eqn:Em.
    destruct (successor_place _ _ _ _ _ _ _ _ _ _ _ _ _ Em Hk Ht) as (m & Hk' & Hx). by eapply unlink_ok.
Qed.

(** ** Trees in the heap *)

Definition bit (c : color) : Z := match c with Red => RB_RED | Black => RB_BLACK end.
Definition ptr (t : tree) : Z := match t with E => 0 | T _ _ a _ => a end.

(** The contents of a node with [x] on side [s] and [y] on the other. *)
Definition cell (s : side) (p : Z) (c : color) (x y : Z) : rb_node :=
  match s with Left => mk_node (Z.lor p (bit c)) y x | Right => mk_node (Z.lor p (bit c)) x y end.

(** The nodes of a tree whose root has the parent [p]. *)
Fixpoint cells (p : Z) (t : tree) : list (Z * rb_node) :=
  match t with
  | E => []
  | T c l a r => (a, cell Left p c (ptr l) (ptr r)) :: cells a l ++ cells a r
  end.

(** The nodes on the way to the root, from a subtree at [h]. *)
Definition up (k : list frame) : Z := match k with [] => 0 | f :: _ => f_addr f end.
Fixpoint kcells (k : list frame) (h : Z) : list (Z * rb_node) :=
  match k with
  | [] => []
  | f :: k =>
      (f_addr f, cell (f_side f) (up k) (f_col f) h (ptr (f_sib f))) :: cells (f_addr f) (f_sib f) ++ kcells k (f_addr f)
  end.
(** The root of the tree above a subtree at [h]. *)
Fixpoint top (k : list frame) (h : Z) : Z := match k with [] => h | f :: k => top k (f_addr f) end.

(** The address of a node: a pointer, not NULL, aligned. *)
Definition addr_ok (a : Z) : Prop := 0 < a < 2 ^ 32 /\ a mod 4 = 0.

(** The heap consists of the nodes [l] and the rest [F]. *)
Record owns (t : rb) (l : list (Z * rb_node)) (F : gmap Z rb_node) : Prop := {
  own_nodup : NoDup l.*1;
  own_addr : Forall addr_ok l.*1;
  own_frame : forall a, a ∈ l.*1 -> F !! a = None;
  own_eq : nodes t = list_to_map l ∪ F }.

(** The tree [x] below [k] is in the heap, beside [F]. *)
Definition holds (t : rb) (k : list frame) (x : tree) (F : gmap Z rb_node) : Prop :=
  owns t (kcells k (ptr x) ++ cells (up k) x) F /\ root t = top k (ptr x).

Lemma owns_perm t l l' F : l ≡ₚ l' -> owns t l F -> owns t l' F.
Proof.
  intros Hp [Hn Ha Hf He]. assert (Hp1 : l.*1 ≡ₚ l'.*1) by by rewrite Hp. split.
  - by rewrite <- Hp1.
  - by rewrite <- Hp1.
  - intros a. rewrite <- Hp1. apply Hf.
  - rewrite He. f_equal. by apply list_to_map_proper.
Qed.

#[global] Instance owns_proper t : Proper ((≡ₚ) ==> (=) ==> iff) (owns t).
Proof. intros l l' Hp F ? <-. split; apply owns_perm; [done | by symmetry]. Qed.

Lemma owns_get t a n l F : owns t ((a, n) :: l) F -> get t a = Some n.
Proof.
  intros [Hn Ha Hf He]. cbn [fmap list_fmap fst] in *. apply Forall_cons_1 in Ha as [[Ha _] _]. unfold get.
  rewrite (proj2 (Z.eqb_neq a 0)) by lia. rewrite He. cbn [list_to_map foldr curry fst snd].
  apply lookup_union_Some_l, lookup_insert_eq.
Qed.

Lemma owns_set t a n n' l F : owns t ((a, n) :: l) F -> exists t', set t a n' = Some t' /\ owns t' ((a, n') :: l) F /\ root t' = root t.
Proof.
  intros H. unfold set. rewrite (owns_get _ _ _ _ _ H). cbn [mbind option_bind]. eexists. split; [done|]. split; [|done].
  destruct H as [Hn Ha Hf He]. split; [done..|]. cbn [nodes]. rewrite He. cbn [list_to_map foldr curry fst snd].
  by rewrite insert_union_l, insert_insert_eq.
Qed.

(** *** The word with parent and colour *)

Lemma bit_cases c : bit c = 0 \/ bit c = 1.
Proof. destruct c; auto. Qed.

Lemma bit_high c i : 2 <= i -> Z.testbit (bit c) i = false.
Proof. intros Hi. apply (bits_above 2); [lia | destruct (bit_cases c); lia | done]. Qed.

(** A parent is NULL or an address. *)
Definition parent_ok (p : Z) : Prop := 0 <= p < 2 ^ 32 /\ p mod 4 = 0.

Lemma parent_low p i : parent_ok p -> 0 <= i < 2 -> Z.testbit p i = false.
Proof.
  intros [Hp Hm] Hi. assert (E : p = p / 4 * 2 ^ 2) by (pose proof (Z.div_mod p 4); lia).
  rewrite E. apply Z.mul_pow2_bits_low. lia.
Qed.

Lemma pc_parent p c : parent_ok p -> __rb_parent (Z.lor p (bit c)) = p.
Proof.
  intros Hp. unfold __rb_parent. change (u32 (Z.lnot 3)) with (Z.shiftl (Z.ones 30) 2).
  apply Z.bits_inj'. intros i Hi. rewrite Z.land_spec, Z.lor_spec, Z.shiftl_spec by lia.
  destruct (Z.lt_ge_cases i 2); [rewrite (parent_low p i), (Z.testbit_neg_r (Z.ones 30) (i - 2)) by (done || lia); by rewrite andb_false_r|].
  rewrite bit_high, orb_false_r by lia. destruct (Z.lt_ge_cases i 32).
  - rewrite Z.ones_spec_low by lia. apply andb_true_r.
  - rewrite (bits_above 32 p i) by (done || lia || apply Hp). done.
Qed.

Lemma pc_color p c : parent_ok p -> __rb_color (Z.lor p (bit c)) = bit c.
Proof.
  intros Hp. unfold __rb_color. apply Z.bits_inj'. intros i Hi. rewrite Z.land_spec, Z.lor_spec.
  destruct (Z.eq_dec i 0) as [->|Hne].
  - rewrite (parent_low p 0) by (done || lia). cbn [orb]. by destruct c.
  - rewrite (bits_above 1 1 i), (bits_above 1 (bit c) i) by (lia || destruct (bit_cases c); lia). apply andb_false_r.
Qed.

Lemma pc_black p c : parent_ok p -> __rb_is_black (Z.lor p (bit c)) = match c with Black => true | Red => false end.
Proof. intros Hp. unfold __rb_is_black. rewrite pc_color by done. by destruct c. Qed.

Lemma addr_parent a : addr_ok a -> parent_ok a.
Proof. intros [H1 H2]. split; [lia | done]. Qed.
#[local] Hint Resolve addr_parent : core.

(** *** Cells *)

Lemma child_near s p c x y : child s (cell s p c x y) = x.
Proof. by destruct s. Qed.
Lemma child_far s p c x y : child (opp s) (cell s p c x y) = y.
Proof. by destruct s. Qed.
Lemma with_near s p c x y v : with_child s (cell s p c x y) v = cell s p c v y.
Proof. by destruct s. Qed.
Lemma with_far s p c x y v : with_child (opp s) (cell s p c x y) v = cell s p c x v.
Proof. by destruct s. Qed.
Lemma with_pc_cell s p c x y p' c' : with_pc (cell s p c x y) (Z.lor p' (bit c')) = cell s p' c' x y.
Proof. by destruct s. Qed.
Lemma pc_cell s p c x y : __rb_parent_color (cell s p c x y) = Z.lor p (bit c).
Proof. by destruct s. Qed.
Lemma cell_opp s p c x y : cell (opp s) p c x y = cell s p c y x.
Proof. by destruct s. Qed.

Lemma cells_join s p c x a y : cells p (join s c x a y) ≡ₚ (a, cell s p c (ptr x) (ptr y)) :: cells a x ++ cells a y.
Proof. destruct s; cbn [join cells]; [done|]. by rewrite (Permutation_app_comm (cells a y)). Qed.

Lemma ptr_join s c x a y : ptr (join s c x a y) = a.
Proof. by destruct s. Qed.

Lemma cells_plug1 f k x : kcells (f :: k) (ptr x) ++ cells (f_addr f) x ≡ₚ kcells k (f_addr f) ++ cells (up k) (plug1 f x).
Proof. cbn [kcells]. unfold plug1. rewrite cells_join. solve_Permutation. Qed.

(** Moving the point of view along the path. *)
Lemma holds_plug1 t f k x F : holds t (f :: k) x F <-> holds t k (plug1 f x) F.
Proof.
  unfold holds. rewrite (ptr_join _ _ _ _ _ : ptr (plug1 f x) = f_addr f). cbn [top up]. by rewrite cells_plug1.
Qed.

Lemma holds_plug t k x F : holds t k x F <-> holds t [] (plug k x) F.
Proof. revert x. induction k as [|f k IH]; intros x; cbn [plug]; [done|]. by rewrite holds_plug1. Qed.

(** *** Running the code *)

(** The list without one of its elements. *)
Ltac without x l :=
  match l with
  | x :: ?l' => l'
  | ?y :: ?l' => let r := without x l' in constr:(y :: r)
  | ?l1 ++ ?l2 => let r := without x l1 in constr:(r ++ l2)
  | ?l1 ++ ?l2 => let r := without x l2 in constr:(l1 ++ r)
  end.

(** Brings the cell at [a] to the front. *)
Ltac front a H :=
  lazymatch type of H with
  | owns ?t ((a, _) :: _) ?F => idtac
  | owns ?t ?l ?F =>
      match l with context [(a, ?n)] =>
        let l0 := without (a, n) l in apply (owns_perm t l ((a, n) :: l0) F ltac:(solve_Permutation)) in H
      end
  end.

(** The same for the nodes of a subtree or of the path. *)
Ltac without_part x l :=
  match l with
  | x => constr:(@nil (Z * rb_node))
  | ?y :: ?l' => let r := without_part x l' in constr:(y :: r)
  | ?l1 ++ ?l2 => let r := without_part x l1 in constr:(r ++ l2)
  | ?l1 ++ ?l2 => let r := without_part x l2 in constr:(l1 ++ r)
  end.
Ltac front_part x H :=
  lazymatch type of H with
  | owns ?t ?l ?F => let l0 := without_part x l in apply (owns_perm t l (x ++ l0) F ltac:(solve_Permutation)) in H
  end.

Ltac cell_simpl :=
  rewrite ?child_near, ?child_far, ?with_near, ?with_far, ?with_pc_cell, ?pc_cell.

Ltac run_get :=
  match goal with
  | H : owns ?t _ _ |- context [get ?t ?a] => front a H; rewrite (owns_get _ _ _ _ _ H); cbn [mbind option_bind]; cell_simpl
  end.

Ltac run_set :=
  match goal with
  | H : owns ?t _ _ |- context [set ?t ?a ?n'] =>
      front a H; let t' := fresh "t" in let H' := fresh "HH" in let R := fresh "Hr" in
      destruct (owns_set t a _ n' _ _ H) as (t' & -> & H' & R); clear H; rename H' into H; cbn [mbind option_bind]
  end.

Lemma owns_addr t a n l F : owns t ((a, n) :: l) F -> addr_ok a.
Proof. intros [_ Ha _ _]. cbn in Ha. by apply Forall_cons_1 in Ha as [? _]. Qed.

Lemma owns_nonzero t l F a : owns t l F -> a ∈ l.*1 -> a <> 0.
Proof. intros [_ Ha _ _] Hin. rewrite Forall_forall in Ha. destruct (Ha a Hin). lia. Qed.

Lemma owns_ne t l1 l2 F a b : owns t (l1 ++ l2) F -> a ∈ l1.*1 -> b ∈ l2.*1 -> a <> b.
Proof.
  intros [Hn _ _ _] Ha Hb ->. rewrite fmap_app in Hn. apply NoDup_app in Hn as (_ & Hd & _). by apply (Hd b).
Qed.

Lemma ptr_in p x : x <> E -> ptr x ∈ (cells p x).*1.
Proof. destruct x; [done|]. intros _. cbn. by left. Qed.

(** The parent at the top of a path. *)
Lemma owns_up t k h l F : owns t (kcells k h ++ l) F -> parent_ok (up k).
Proof.
  intros H. destruct k as [|f k]; cbn [up]; [split; [lia | done]|]. cbn [kcells app] in H. by apply addr_parent, (owns_addr _ _ _ _ _ H).
Qed.

(** A subtree gets another parent and, if it is not empty, colour. *)
Lemma run_paint t p p' c x l F : owns t (cells p x ++ l) F ->
  exists t', if_node (ptr x) t (rb_set_parent_color t (ptr x) p' (bit c)) = Some t' /\
    owns t' (cells p' (paint c x) ++ l) F /\ root t' = root t.
Proof.
  intros H. destruct x as [|c0 lx a rx]; [by exists t|]. cbn [cells app] in H. pose proof (owns_addr _ _ _ _ _ H) as Ha.
  unfold if_node. cbn [ptr]. rewrite (proj2 (Z.eqb_neq a 0)) by (destruct Ha; lia).
  unfold rb_set_parent_color, set_pc. run_get. run_set. eauto.
Qed.

Lemma run_parent t p p' x l F : parent_ok p -> owns t (cells p x ++ l) F ->
  exists t', if_node (ptr x) t (rb_set_parent t (ptr x) p') = Some t' /\ owns t' (cells p' x ++ l) F /\ root t' = root t.
Proof.
  intros Hp H. destruct x as [|c0 lx a rx]; [by exists t|]. cbn [cells app] in H. pose proof (owns_addr _ _ _ _ _ H) as Ha.
  unfold if_node. cbn [ptr]. rewrite (proj2 (Z.eqb_neq a 0)) by (destruct Ha; lia).
  unfold rb_set_parent, get_pc, set_pc. run_get. rewrite pc_color, Z.lor_comm by done. cell_simpl. run_set. eauto.
Qed.

(** The child of the top of a path is exchanged. *)
Lemma run_change_child t k old new l F : owns t (kcells k old ++ l) F -> old ∈ l.*1 -> root t = top k old ->
  exists t', __rb_change_child t old new (up k) = Some t' /\ owns t' (kcells k new ++ l) F /\ root t' = top k new.
Proof.
  intros H Hold Hroot. unfold __rb_change_child. destruct k as [|f k]; cbn [up kcells app top] in *.
  { cbn. eexists. split; [done|]. split; [|done]. destruct H. by split. }
  pose proof (owns_addr _ _ _ _ _ H) as Ha. rewrite (proj2 (Z.eqb_neq (f_addr f) 0)) by (destruct Ha; lia). cbn [negb].
  assert (Hsib : ptr (f_sib f) <> old).
  { destruct (f_sib f) as [|c x a y] eqn:Es; [cbn [ptr]; intros <-; by eapply (owns_nonzero _ _ _ 0 H); [set_solver|]|].
    cbn [ptr]. eapply (owns_ne t (cells (f_addr f) (T c x a y)) ((f_addr f, cell (f_side f) (up k) (f_col f) old a) :: kcells k (f_addr f) ++ l)).
    - eapply owns_perm; [|exact H]. cbn [ptr]. solve_Permutation.
    - cbn. by left.
    - cbn. set_solver. }
  unfold get_child, set_child. run_get. destruct (f_side f) eqn:Es; cbn [cell child rb_left rb_right with_child __rb_parent_color] in *.
  - rewrite Z.eqb_refl. run_set. eexists. split; [done|]. split; [exact H | congruence].
  - rewrite (proj2 (Z.eqb_neq _ _) Hsib). run_set. eexists. split; [done|]. split; [exact H | congruence].
Qed.

Ltac gets := repeat run_get; cbn [mbind option_bind]; cell_simpl.

Lemma run_rotate_set t s old new p0 c0 xo yo xn yn k c color l F :
  owns t ((old, cell s (up k) c xo yo) :: (new, cell s p0 c0 xn yn) :: kcells k old ++ l) F -> root t = top k old ->
  exists t', __rb_rotate_set_parents t old new (bit color) = Some t' /\
    owns t' ((old, cell s new color xo yo) :: (new, cell s (up k) c xn yn) :: kcells k new ++ l) F /\ root t' = top k new.
Proof.
  intros H Hroot. assert (Hup : parent_ok (up k)).
  { apply (owns_up t k old ((old, cell s (up k) c xo yo) :: (new, cell s p0 c0 xn yn) :: l) F). eapply owns_perm; [|exact H]. solve_Permutation. }
  unfold __rb_rotate_set_parents, rb_parent, rb_set_parent_color, get_pc, set_pc. gets. rewrite pc_parent by done. run_set.
  gets. run_set.
  edestruct (run_change_child t1 k old new ((old, cell s new color xo yo) :: (new, cell s (up k) c xn yn) :: l) F) as (t' & E' & H' & R').
  - eapply owns_perm; [|exact H]. solve_Permutation.
  - cbn. by left.
  - congruence.
  - exists t'. split; [done|]. split; [|done]. eapply owns_perm; [|exact H']. solve_Permutation.
Qed.

Lemma paint_same c t : (forall l a r, t <> T (match c with Red => Black | Black => Red end) l a r) -> paint c t = t.
Proof. intros H. destruct t as [|[|] l a r]; destruct c; cbn; try done; by destruct (H l a r). Qed.

Lemma paint_not_red t : is_red t = false -> paint Black t = t.
Proof. by destruct t as [|[|] ? ? ?]. Qed.

Lemma near_cells s p c l a r : cells p (T c l a r) ≡ₚ (a, cell s p c (ptr (near s l r)) (ptr (near (opp s) l r))) :: cells a (near s l r) ++ cells a (near (opp s) l r).
Proof. rewrite (join_near s). apply cells_join. Qed.

(** The colour of a subtree. *)
Lemma run_red t p x l F : parent_ok p -> owns t (cells p x ++ l) F -> node_is_red t (ptr x) = Some (is_red x).
Proof.
  intros Hp H. destruct x as [|c lx a rx]; [done|]. cbn [cells app ptr] in *. pose proof (owns_addr _ _ _ _ _ H) as Ha.
  unfold node_is_red. rewrite (proj2 (Z.eqb_neq a 0)) by (destruct Ha; lia).
  unfold rb_is_red, rb_is_black, get_pc. gets. rewrite pc_black by done. by destruct c.
Qed.

(** An address is none of those of a subtree beside it. *)
Lemma owns_ptr_ne t a n p x l F : owns t ((a, n) :: cells p x ++ l) F -> a <> ptr x.
Proof.
  intros H. destruct x as [|c lx b rx]; [cbn [ptr]; pose proof (owns_addr _ _ _ _ _ H) as [? _]; lia|].
  apply (owns_ne t [(a, n)] (cells p (T c lx b rx) ++ l) F a b H); cbn; by left.
Qed.

Lemma run_color t s a p c x y p' c' l F : owns t ((a, cell s p c x y) :: l) F ->
  exists t', rb_set_parent_color t a p' (bit c') = Some t' /\ owns t' ((a, cell s p' c' x y) :: l) F /\ root t' = root t.
Proof. intros H. unfold rb_set_parent_color, set_pc. gets. run_set. eauto. Qed.

(** The updates of parents and colours. *)
Ltac run_update :=
  match goal with
  | H : owns ?t _ _ |- context [rb_set_parent_color ?t ?a ?p (bit ?c)] =>
      front a H; let t' := fresh "t" in let H' := fresh "HH" in let R := fresh "Hr" in
      destruct (run_color t _ a _ _ _ _ p c _ _ H) as (t' & -> & H' & R); clear H; rename H' into H; cbn [mbind option_bind]
  | H : owns ?t ?l _ |- context [if_node (ptr ?x) ?t (rb_set_parent_color ?t (ptr ?x) ?p (bit ?c))] =>
      match l with context [cells ?q x] =>
        front_part (cells q x) H; let t' := fresh "t" in let H' := fresh "HH" in let R := fresh "Hr" in
        destruct (run_paint t q p c x _ _ H) as (t' & -> & H' & R); clear H; rename H' into H; cbn [mbind option_bind]
      end
  end.

Ltac opens := change RB_BLACK with (bit Black); change RB_RED with (bit Red);
  unfold get_child, set_child, rb_is_red, rb_is_black, rb_parent, rb_red_parent, get_pc.
Ltac run_rotate :=
  match goal with
  | H : owns ?t ?l _ |- context [__rb_rotate_set_parents ?t ?old ?new (bit ?c)] =>
      match l with context [kcells ?k old] =>
        front_part (kcells k old) H; front new H; front old H;
        let t' := fresh "t" in let H' := fresh "HH" in let R := fresh "Hr" in
        destruct (run_rotate_set t _ old new _ _ _ _ _ _ k _ c _ _ H ltac:(congruence)) as (t' & -> & H' & R); clear H; rename H' into H;
        cbn [mbind option_bind]
      end
  end.

(** Concludes that the tree is in the heap. *)
Ltac held s :=
  unfold holds, plug1; cbn [f_col f_sib f_side f_addr]; rewrite ?ptr_join; split;
  [match goal with H : owns _ _ _ |- _ => eapply owns_perm; [|exact H] end; rewrite ?cells_join, ?ptr_join, ?(near_cells s); cbn [ptr];
   solve_Permutation | congruence].
Ltac arranged s := eexists; split; [done|]; held s.

(** Cases 2 and 3. *)
Lemma run_insert_rotate t k g f l n r F : f_col f = Red -> f_col g = Black ->
  is_red (f_sib g) = false -> is_red (f_sib f) = false -> is_red l = false -> is_red r = false ->
  holds t k (plug1 g (plug1 f (T Red l n r))) F ->
  exists t', insert_turn (f_side g) t n (f_addr f) (f_addr g) (ptr (f_sib g)) = Some (Break t') /\
    holds t' k (insert_rotate g f (T Red l n r)) F.
Proof.
  destruct f as [fs fc p y], g as [s gc ga u]. cbn [f_col f_sib f_side f_addr]. intros -> -> Hu Hy Hl Hr [H Hroot].
  unfold plug1 in H, Hroot. cbn [f_col f_sib f_side f_addr] in *. rewrite ptr_join in H, Hroot.
  rewrite !cells_join, ptr_join, (near_cells s) in H. cbn [ptr] in H.
  assert (Hn : forall s, is_red (near s l r) = false) by (by intros []).
  assert (Hga : parent_ok ga) by (front ga H; apply addr_parent, (owns_addr _ _ _ _ _ H)).
  assert (Ered : node_is_red t (ptr u) = Some false).
  { rewrite <- Hu. front_part (cells ga u) H. by eapply run_red. }
  unfold insert_turn. rewrite Ered. cbn [mbind option_bind]. unfold insert_rotate. cbn [f_col f_sib f_side f_addr].
  destruct (decide (fs = s)) as [->|Hne].
  - assert (Hne : n <> ptr y) by (front_part (cells p y) H; front n H; apply (owns_ptr_ne _ _ _ _ _ _ _ H)).
    opens. gets. unfold insert_case2. rewrite (proj2 (Z.eqb_neq _ _) Hne). cbn [mbind option_bind].
    gets. run_set. gets. run_set. run_update. rewrite paint_not_red in H by done. run_rotate. arranged s.
  - assert (fs = opp s) as -> by (by destruct fs, s). rewrite cell_opp in H.
    opens. gets. unfold insert_case2. rewrite Z.eqb_refl. opens. gets. run_set. gets. run_set. run_update. run_update. gets.
    run_set. gets. run_set. run_update. rewrite !paint_not_red in H by done. run_rotate. arranged s.
Qed.

Lemma black_not_red t n : is_rb t Black n -> is_red t = false.
Proof. by inversion 1. Qed.

(** Case 1. *)
Lemma run_insert_flip t k g f x F : f_col f = Red -> f_col g = Black -> is_red (f_sib g) = true ->
  holds t k (plug1 g (plug1 f x)) F ->
  exists t', insert_turn (f_side g) t (ptr x) (f_addr f) (f_addr g) (ptr (f_sib g)) = Some (Continue t' (f_addr g) (up k)) /\
    holds t' k (join (f_side g) Red (join (f_side f) Black x (f_addr f) (f_sib f)) (f_addr g) (paint Black (f_sib g))) F.
Proof.
  destruct f as [fs fc p y], g as [s gc ga u]. cbn [f_col f_sib f_side f_addr]. intros -> -> Hu [H Hroot].
  unfold plug1 in H, Hroot. cbn [f_col f_sib f_side f_addr] in *. rewrite ptr_join in H, Hroot.
  rewrite !cells_join, ptr_join in H.
  assert (Hga : parent_ok ga) by (front ga H; apply addr_parent, (owns_addr _ _ _ _ _ H)).
  assert (Hup : parent_ok (up k)) by (front_part (kcells k ga) H; apply (owns_up _ _ _ _ _ H)).
  assert (Ered : node_is_red t (ptr u) = Some true) by (rewrite <- Hu; front_part (cells ga u) H; exact (run_red _ _ _ _ _ Hga H)).
  destruct u as [|[|] lu ua ru]; try done. rewrite (near_cells s) in H. cbn [ptr paint] in *.
  unfold insert_turn. rewrite Ered. cbn [mbind option_bind]. opens. run_update. run_update. gets. rewrite pc_parent by done.
  run_update. arranged s.
Qed.

(** The loop finds the branch for the side of the parent. *)
Lemma insert_branch {A} (K : turn -> option A) t k g f x F : holds t k (plug1 g (plug1 f x)) F ->
  (tmp ← get_child Right t (f_addr g);
   r ← (if negb (f_addr f =? tmp) then insert_turn Left t (ptr x) (f_addr f) (f_addr g) tmp
        else tmp ← get_child Left t (f_addr g); insert_turn Right t (ptr x) (f_addr f) (f_addr g) tmp);
   K r) =
  (r ← insert_turn (f_side g) t (ptr x) (f_addr f) (f_addr g) (ptr (f_sib g)); K r).
Proof.
  destruct f as [fs fc p y], g as [s gc ga u]. cbn [f_col f_sib f_side f_addr]. intros [H Hroot].
  unfold plug1 in H, Hroot. cbn [f_col f_sib f_side f_addr] in *. rewrite ptr_join in H, Hroot.
  rewrite !cells_join, ptr_join in H.
  assert (Hne : p <> ptr u) by (front_part (cells ga u) H; front p H; apply (owns_ptr_ne _ _ _ _ _ _ _ H)).
  opens. gets. destruct s; cbn [child cell rb_right rb_left].
  - by rewrite (proj2 (Z.eqb_neq _ _) Hne).
  - by rewrite Z.eqb_refl.
Qed.

Lemma run_insert F k : forall fuel t x n, holds t k x F -> is_rb x Red n -> path_ok k Black n -> (length k < fuel)%nat ->
  exists t', insert_loop fuel t (ptr x) (up k) = Some t' /\ holds t' [] (insert_fix k x) F.
Proof.
  assert (Hind : forall m k fuel t x n, (length k < m)%nat -> holds t k x F -> is_rb x Red n -> path_ok k Black n -> (length k < fuel)%nat ->
    exists t', insert_loop fuel t (ptr x) (up k) = Some t' /\ holds t' [] (insert_fix k x) F); [|eauto].
  clear k. induction m as [|m IH]; intros k fuel t x n Hm H Hx Hk Hf; [lia|]. destruct fuel as [|fuel]; [lia|]. cbn [insert_loop].
  destruct k as [|f k]; cbn [up insert_fix].
  { destruct H as [H Hroot]. inversion Hx as [|l a r n' Hl Hr|]; subst. cbn [kcells app cells ptr up] in *.
    change RB_BLACK with (bit Black). destruct (run_color t _ a _ _ _ _ 0 Black _ _ H) as (t' & E & H' & R). exists t'. split; [done|].
    split; [done|]. cbn [top paint ptr] in *. congruence. }
  pose proof H as Hh. destruct H as [H Hroot]. cbn [kcells app] in H. assert (Hfa := owns_addr _ _ _ _ _ H).
  assert (Hup : parent_ok (up k)) by (front_part (kcells k (f_addr f)) H; apply (owns_up _ _ _ _ _ H)).
  rewrite (proj2 (Z.eqb_neq (f_addr f) 0)) by (destruct Hfa; lia).
  unfold rb_is_black, rb_red_parent, get_pc. gets. rewrite pc_black by done. destruct (f_col f) eqn:Ef.
  2:{ exists t. split; [done|]. apply holds_plug in Hh. done. }
  assert (Hk2 : exists g k', k = g :: k' /\ f_col g = Black /\ is_red (f_sib f) = false /\ (exists c, is_rb (f_sib g) c n) /\ path_ok k' Black (S n)).
  { inversion Hk as [|? ? ? ? ? Hk1 Hy|]; subst; [|done]. inversion Hk1; subst. eexists _, _. split_and!; [done | done | by inversion Hy | eauto | done]. }
  destruct Hk2 as (g & k' & -> & Eg & Hy & [c Hc] & Hk'). cbn [up] in *. rewrite Z.lor_0_r.
  rewrite !holds_plug1 in Hh. rewrite (insert_branch _ t k' g f x F Hh). cbn [length] in *. destruct (is_red (f_sib g)) eqn:Eu.
  - destruct (run_insert_flip t k' g f x F Ef Eg Eu Hh) as (t' & E & H'). rewrite E. cbn [mbind option_bind].
    destruct (IH k' fuel t' _ (S n) ltac:(lia) H') as (t2 & E2 & H2); [|done | lia |].
    + destruct (f_sib g) as [|[|] lu ua ru]; try done. inversion Hc; subst. inversion Hk as [|? ? ? ? ? _ Hy'|]; subst; [|done]. cbn in *. eauto.
    + rewrite ptr_join in E2. by exists t2.
  - inversion Hx as [|l a r n' Hl Hr|]; subst. cbn [ptr] in *.
    destruct (run_insert_rotate t k' g f l a r F Ef Eg Eu Hy) as (t' & E & H'); [by eapply black_not_red.. | done |].
    rewrite E. cbn [mbind option_bind]. exists t'. split; [done|]. by rewrite <- holds_plug.
Qed.

(** *** Removal *)

Ltac run_reparent :=
  match goal with
  | H : owns ?t ?l _ |- context [if_node (ptr ?x) ?t (rb_set_parent ?t (ptr ?x) ?p)] =>
      match l with context [cells ?q x] =>
        front_part (cells q x) H; let t' := fresh "t" in let H' := fresh "HH" in let R := fresh "Hr" in
        destruct (run_parent t q p x _ _ ltac:(done) H) as (t' & -> & H' & R); clear H; rename H' into H; cbn [mbind option_bind]
      end
  end.

(** Case 4, for a sibling [a] with the child [b] on the far side. *)
Lemma run_erase_case4 t k s fc p x a c yn b z1 z2 p1 c1 p2 c2 F : parent_ok a ->
  owns t (kcells k p ++ (p, cell s (up k) fc (ptr x) c) :: cells p x ++
          (a, cell s p1 c1 (ptr yn) b) :: cells a yn ++ (b, cell s p2 c2 (ptr z1) (ptr z2)) :: cells b z1 ++ cells b z2) F ->
  root t = top k p ->
  exists t', erase_case4 s t p a b = Some (Break t') /\
    holds t' k (join s fc (join s Black x p yn) a (join s Black z1 b z2)) F.
Proof.
  intros Ha H Hroot. unfold erase_case4. opens. gets. run_set. gets. run_set. run_update. run_reparent. run_rotate. arranged s.
Qed.

(** Cases 2 to 4. *)
Lemma run_erase_cases t k f x l a r n F : f_sib f = T Black l a r -> is_rb (f_sib f) Black n -> holds t k (plug1 f x) F ->
  (exists t', erase_cases (f_side f) t (f_addr f) a = Some (Break t') /\ forall rec, holds t' [] (erase_black rec k f x) F) \/
  (f_col f = Black /\ is_red l = false /\ is_red r = false /\ let x' := join (f_side f) Black x (f_addr f) (T Red l a r) in
   exists t', erase_cases (f_side f) t (f_addr f) a =
                Some (if negb (up k =? 0) then Continue t' (f_addr f) (up k) else Break t') /\
     holds t' k x' F /\ forall rec, erase_black rec k f x = rec x').
Proof.
  destruct f as [s fc p y]. cbn [f_col f_sib f_side f_addr]. intros -> Hy [H Hroot]. unfold plug1 in H, Hroot. cbn [f_col f_sib f_side f_addr] in *.
  rewrite ptr_join in H, Hroot. rewrite !cells_join, (near_cells s) in H. cbn [ptr] in H.
  assert (Hrb : exists c m, is_rb (near s l r) c m) by (inversion Hy; subst; destruct s; cbn; eauto).
  assert (Ha : parent_ok a) by (front a H; apply addr_parent, (owns_addr _ _ _ _ _ H)).
  assert (Hup : parent_ok (up k)) by (front_part (kcells k p) H; apply (owns_up _ _ _ _ _ H)).
  assert (Efar : node_is_red t (ptr (near (opp s) l r)) = Some (is_red (near (opp s) l r)))
    by (front_part (cells a (near (opp s) l r)) H; exact (run_red _ _ _ _ _ Ha H)).
  assert (Enear : node_is_red t (ptr (near s l r)) = Some (is_red (near s l r)))
    by (front_part (cells a (near s l r)) H; exact (run_red _ _ _ _ _ Ha H)).
  unfold erase_cases, erase_black. cbn [f_col f_sib f_side f_addr]. opens. gets. rewrite Efar. cbn [mbind option_bind].
  destruct (is_red (near (opp s) l r)) eqn:Ef; cbn [negb].
  { left. destruct (near (opp s) l r) as [|[|] l2 b r2] eqn:En; try done. cbn [ptr paint] in *. rewrite (near_cells s) in H.
    edestruct (run_erase_case4 t k s fc p x a a (near s l r) b (near s l2 r2) (near (opp s) l2 r2)) as (t' & E' & H'); [done | | done |].
    { eapply owns_perm; [|exact H]. solve_Permutation. }
    rewrite <- join_near in H'. exists t'. split; [done|]. intros _. by rewrite <- holds_plug. }
  gets. rewrite Enear. cbn [mbind option_bind].
  destruct (is_red (near s l r)) eqn:En; cbn [negb].
  - left. destruct (near s l r) as [|[|] l2 b r2] eqn:El; try done. cbn [ptr paint] in *. rewrite (near_cells s) in H.
    assert (Hb : parent_ok b) by (front b H; apply addr_parent, (owns_addr _ _ _ _ _ H)).
    opens. gets. run_set. gets. run_set. gets. run_set. run_update. 
    rewrite paint_not_red in H.
    2:{ destruct Hrb as (c' & m & Hrb). inversion Hrb as [|? ? ? ? H1 H2|]; subst. destruct s; by eapply black_not_red. }
    edestruct (run_erase_case4 t3 k s fc p x b b (near s l2 r2) a (near (opp s) l2 r2) (near (opp s) l r)) as (t' & E' & H'); [done | | congruence |].
    { eapply owns_perm; [|exact H]. solve_Permutation. }
    exists t'. split; [done|]. intros _. by rewrite <- holds_plug.
  - assert (Hx : forall (A : Type) (u : tree -> Z -> tree -> A) (v : A), (match near s l r with T Red l2 b r2 => u l2 b r2 | _ => v end) = v)
      by (intros; by destruct (near s l r) as [|[|] ? ? ?]).
    run_update. gets. rewrite pc_black by done. destruct fc; cbn [negb].
    + left. unfold rb_set_black, get_pc, set_pc. gets. change RB_BLACK with (bit Black).
      replace (Z.lor (Z.lor (up k) (bit Red)) (bit Black)) with (Z.lor (up k) (bit Black)) by by rewrite Z.lor_0_r. cell_simpl. run_set.
      eexists. split; [done|]. intros rec. rewrite Hx, <- holds_plug. cbn [paint]. held s.
    + right. split; [done|]. split; [by destruct s|]. split; [by destruct s|]. rewrite pc_parent by done. eexists. split; [done|]. split; [|intros rec; by rewrite Hx]. held s.
Qed.

(** Case 1. *)
Lemma run_erase_case1 t k s p x l a r F : is_red (near s l r) = false -> near s l r <> E ->
  holds t k (plug1 (mk_frame s Black p (T Red l a r)) x) F ->
  exists t', erase_case1 s t p a = Some (t', ptr (near s l r)) /\
    holds t' (mk_frame s Black a (near (opp s) l r) :: k) (plug1 (mk_frame s Red p (near s l r)) x) F.
Proof.
  intros Hn Hne [H Hroot]. unfold plug1 in H, Hroot. cbn [f_col f_sib f_side f_addr] in *.
  rewrite ptr_join in H, Hroot. rewrite !cells_join, (near_cells s) in H. cbn [ptr] in H.
  assert (Hp : parent_ok p) by (front p H; apply addr_parent, (owns_addr _ _ _ _ _ H)).
  unfold erase_case1. opens. gets. rewrite pc_black by done. cbn [negb].
  destruct (near s l r) as [|[|] l2 b r2] eqn:En; try done. rewrite (near_cells s) in H. cbn [ptr] in *.
  gets. run_set. gets. run_set. run_update. run_rotate. eexists. split; [done|]. rewrite holds_plug1. held s.
Qed.

Lemma run_erase_turn t k f x n F : lacking (f :: k) n -> holds t k (plug1 f x) F ->
  (exists t', erase_turn (f_side f) t (f_addr f) (ptr (f_sib f)) = Some (Break t') /\ holds t' [] (erase_fix (f :: k) x) F) \/
  (exists t' x', erase_turn (f_side f) t (f_addr f) (ptr (f_sib f)) =
       Some (if negb (up k =? 0) then Continue t' (f_addr f) (up k) else Break t') /\ ptr x' = f_addr f /\
     holds t' k x' F /\ erase_fix (f :: k) x = erase_fix k x' /\
     (is_rb x Black n -> exists m, is_rb x' Black m /\ lacking k m)).
Proof.
  intros Hk Hh. destruct (lacking_sibling _ _ _ Hk) as (c & Hs & _). unfold erase_turn.
  destruct (f_sib f) as [|[|] l a r] eqn:Ey; [inversion Hs| |].
  - destruct f as [s fc p y]. cbn [f_sib f_side f_addr f_col] in *. subst y.
    destruct (lacking_case1 _ _ _ _ _ _ _ _ Hk) as (-> & H1 & H2 & H3).
    destruct (run_erase_case1 t k s p x l a r F H1 H2 Hh) as (t1 & E1 & Hh1). cbn [ptr]. rewrite E1. cbn [mbind option_bind].
    destruct (near s l r) as [|[|] l2 b r2] eqn:En; try done.
    edestruct (run_erase_cases t1 (mk_frame s Black a (near (opp s) l r) :: k) (mk_frame s Red p (T Black l2 b r2)) x l2 b r2) as [(t' & E' & H')|[? _]];
      [done | by inversion H3 | exact Hh1 | | done].
    left. exists t'. split; [done|]. cbn [erase_fix f_sib f_side f_addr f_col]. rewrite En. apply H'.
  - assert (c = Black) as -> by by inversion Hs. rewrite <- Ey in Hs. cbn [ptr].
    assert (E1 : erase_case1 (f_side f) t (f_addr f) a = Some (t, a)).
    { destruct Hh as [H _]. unfold plug1 in H. rewrite ptr_join, cells_join, Ey in H. cbn [cells ptr app] in H.
      assert (Hp : parent_ok (f_addr f)) by (front (f_addr f) H; apply addr_parent, (owns_addr _ _ _ _ _ H)).
      unfold erase_case1. opens. gets. by rewrite pc_black by done. }
    rewrite E1. cbn [mbind option_bind].
    assert (Efix : erase_fix (f :: k) x = erase_black (erase_fix k) k f x) by (cbn [erase_fix]; by rewrite Ey).
    destruct (run_erase_cases t k f x l a r (S n) F Ey Hs Hh) as [(t' & E' & H')|(Ec & Hl & Hr & t' & E' & H' & Hrec)].
    + left. exists t'. split; [done|]. rewrite Efix. apply H'.
    + right. eexists t', _. split; [exact E'|]. split; [apply ptr_join|]. split; [exact H'|]. rewrite Efix. split; [apply Hrec|].
      intros Hx. exists (S n). rewrite Ey in Hs. inversion Hs as [| |? ? ? c1 c2 ? H1 H2]; subst.
      assert (is_rb l Black n /\ is_rb r Black n) as [H3 H4].
      { split; [destruct c1; [inversion H1; by subst | done] | destruct c2; [inversion H2; by subst | done]]. }
      split; [eauto|]. destruct Hk as [c Hk]. exists Black. inversion Hk; subst; cbn in Ec; [done|]. done.
Qed.

(** The loop finds the branch for the side of the node. *)
Lemma erase_branch {A} (K : turn -> option A) t k f x F : f_sib f <> E -> holds t k (plug1 f x) F ->
  (sibling ← get_child Right t (f_addr f);
   r ← (if negb (ptr x =? sibling) then erase_turn Left t (f_addr f) sibling
        else sibling ← get_child Left t (f_addr f); erase_turn Right t (f_addr f) sibling);
   K r) = (r ← erase_turn (f_side f) t (f_addr f) (ptr (f_sib f)); K r).
Proof.
  intros Hy [H _]. unfold plug1 in H. rewrite ptr_join, cells_join in H.
  assert (Hne : ptr x <> ptr (f_sib f)).
  { destruct (f_sib f) as [|c l a r]; [done|]. cbn [cells ptr app] in *. front_part (cells (f_addr f) x) H. front a H.
    pose proof (owns_ptr_ne _ _ _ _ _ _ _ H). cbn [ptr]. congruence. }
  opens. gets. destruct (f_side f); cbn [child cell rb_right rb_left].
  - by rewrite (proj2 (Z.eqb_neq _ _) Hne).
  - by rewrite Z.eqb_refl.
Qed.

Lemma run_erase F k : forall fuel t x n, holds t k x F -> is_rb x Black n -> lacking k n -> k <> [] -> (length k <= fuel)%nat ->
  exists t', erase_loop fuel t (ptr x) (up k) = Some t' /\ holds t' [] (erase_fix k x) F.
Proof.
  induction k as [|f k IH]; intros fuel t x n Hh Hx Hk Hne Hf; [done|]. destruct fuel as [|fuel]; cbn [length] in Hf; [lia|].
  cbn [erase_loop up]. rewrite holds_plug1 in Hh. destruct (lacking_sibling _ _ _ Hk) as (c & Hs & _).
  rewrite (erase_branch _ t k f x F) by (done || by inversion Hs).
  destruct (run_erase_turn t k f x n F Hk Hh) as [(t' & -> & H')|(t' & x' & -> & Ep & H' & -> & Hm)]; cbn [mbind option_bind]; [eauto|].
  destruct (Hm Hx) as (m & Hx' & Hk'). destruct k as [|g k]; cbn [up] in *; [by exists t'|].
  assert (Hg : f_addr g <> 0).
  { destruct H' as [H _]. cbn [kcells app] in H. destruct (owns_addr _ _ _ _ _ H). lia. }
  rewrite (proj2 (Z.eqb_neq _ _) Hg). cbn [negb]. rewrite <- Ep. eapply IH; done || lia.
Qed.

(** *** Taking out a node *)

(** A path whose topmost node has the parent [p]. *)
Definition upon (k : list frame) (p : Z) : Z := match k with [] => p | f :: _ => f_addr f end.
Fixpoint pcells (k : list frame) (p h : Z) : list (Z * rb_node) :=
  match k with
  | [] => []
  | f :: k =>
      (f_addr f, cell (f_side f) (upon k p) (f_col f) h (ptr (f_sib f))) :: cells (f_addr f) (f_sib f) ++ pcells k p (f_addr f)
  end.

Lemma cells_plug k : forall p x, cells p (plug k x) ≡ₚ pcells k p (ptr x) ++ cells (upon k p) x.
Proof.
  induction k as [|f k IH]; intros p x; cbn [plug pcells app upon]; [done|]. rewrite IH. unfold plug1. rewrite ptr_join, cells_join.
  solve_Permutation.
Qed.

Lemma ptr_plug k x : ptr (plug k x) = top k (ptr x).
Proof. revert x. induction k as [|f k IH]; intros x; cbn [plug top]; [done|]. rewrite IH. unfold plug1. by rewrite ptr_join. Qed.

Lemma kcells_app k2 f k h : kcells (k2 ++ f :: k) h ≡ₚ pcells k2 (f_addr f) h ++ kcells (f :: k) (top k2 h).
Proof.
  revert h. induction k2 as [|g k2 IH]; intros h; cbn [app pcells top]; [done|]. cbn [kcells]. rewrite IH.
  assert (up (k2 ++ f :: k) = upon k2 (f_addr f)) as -> by by destruct k2. cbn [kcells]. solve_Permutation.
Qed.

Lemma top_app k2 k h : top (k2 ++ k) h = top k (top k2 h).
Proof. revert h. induction k2 as [|g k2 IH]; intros h; cbn [app top]; auto. Qed.

Lemma up_app k2 f k : up (k2 ++ f :: k) = upon k2 (f_addr f).
Proof. by destruct k2. Qed.

(** The topmost node of a path gets another parent. *)
Lemma run_top_parent k : forall t p p' h l F, k <> [] -> parent_ok p -> owns t (pcells k p h ++ l) F ->
  exists t', rb_set_parent t (top k h) p' = Some t' /\ owns t' (pcells k p' h ++ l) F /\ root t' = root t.
Proof.
  induction k as [|f k IH]; intros t p p' h l F Hne Hp H; [done|]. destruct k as [|g k].
  - cbn [pcells top upon app] in *. unfold rb_set_parent, get_pc, set_pc. gets. rewrite pc_color, Z.lor_comm by done. cell_simpl.
    run_set. eauto.
  - set (gk := g :: k) in *. cbn [pcells top] in *.
    edestruct (IH t p p' (f_addr f) ((f_addr f, cell (f_side f) (f_addr g) (f_col f) h (ptr (f_sib f))) :: cells (f_addr f) (f_sib f) ++ l) F)
      as (t' & E & H' & R); [done | done | |].
    { eapply owns_perm; [|exact H]. cbn [upon gk]. solve_Permutation. }
    exists t'. split; [done|]. split; [|done]. eapply owns_perm; [|exact H']. cbn [upon gk]. solve_Permutation.
Qed.

(** Nodes of the tree become part of the rest. *)
Lemma owns_release t a n l F : owns t ((a, n) :: l) F -> owns t l (<[a := n]> F).
Proof.
  intros [Hn Ha Hf He]. cbn [fmap list_fmap fst] in *. apply NoDup_cons in Hn as [Hni Hn]. apply Forall_cons_1 in Ha as [Ha Ha'].
  split; [done | done | |].
  - intros b Hb. rewrite lookup_insert_ne by (intros ->; done). apply Hf. by right.
  - rewrite He. cbn [list_to_map foldr curry fst snd]. rewrite <- insert_union_l, insert_union_r; [done|].
    by apply not_elem_of_list_to_map_1.
Qed.

Lemma owns_size t l F : owns t l F -> (length l <= size (nodes t))%nat.
Proof.
  intros [Hn Ha Hf He]. rewrite He. rewrite <- (map_size_list_to_map (M := gmap Z) l Hn).
  apply map_subseteq_size, map_union_subseteq_l.
Qed.

Lemma run_leftmost t F l : forall fuel c a r k k' c' s x p rest, min_path c l a r k = (k', c', s, x) -> (height l < fuel)%nat ->
  owns t (cells p (T c l a r) ++ rest) F -> leftmost fuel t (up k) a (ptr l) = Some (up k', s).
Proof.
  induction l as [|c1 l1 IH a1 r1 _]; intros fuel c a r k k' c' s x p rest E Hf H; (destruct fuel as [|fuel]; [lia|]); cbn [leftmost ptr min_path] in *.
  - by simplify_eq.
  - cbn [cells app] in H. assert (a1 <> 0) by (front a1 H; destruct (owns_addr _ _ _ _ _ H); lia).
    rewrite (proj2 (Z.eqb_neq a1 0)) by done. unfold get_child. gets. cbn [child cell rb_left height] in *.
    apply (IH fuel c1 a1 r1 (mk_frame Left c a r :: k) k' c' s x a ((a, cell Left p c a1 (ptr r)) :: cells a r ++ rest)); [done | lia |]. eapply owns_perm; [|exact H]. cbn [cells]. solve_Permutation.
Qed.

Lemma height_cells p x : (height x <= length (cells p x))%nat.
Proof. revert p. induction x as [|c l IHl a r IHr]; intros p; cbn [height cells length]; [lia|]. rewrite length_app. specialize (IHl a). specialize (IHr a). lia. Qed.

Lemma run_unlink t c2 l2 a2 r2 k2 c' s x a rest F : min_path c2 l2 a2 r2 [] = (k2, c', s, x) -> parent_ok a ->
  owns t (cells a (T c2 l2 a2 r2) ++ rest) F ->
  exists t', unlink_successor t a2 = Some (t', s, upon k2 s, ptr x) /\
    owns t' (pcells k2 s (ptr x) ++ (s, cell Left (upon k2 a) c' 0 (top k2 (ptr x))) :: cells s x ++ rest) F /\ root t' = root t.
Proof.
  intros Em Ha H. destruct (min_path_plug _ _ _ _ _ _ _ _ _ Em) as (k3 & Ek & E2 & Hl). rewrite app_nil_r in Ek. subst k3.
  unfold unlink_successor. destruct l2 as [|cl ll al rl].
  - cbn [min_path] in Em. simplify_eq. cbn [cells ptr app] in H. opens. gets. cbn [child cell rb_left rb_right Z.eqb]. 
    exists t. split; [done|]. split; [|done]. exact H.
  - set (L := T cl ll al rl) in *. assert (Ea2 : top k2 s = a2) by (pose proof (ptr_plug k2 (T c' E s x)) as Hp; rewrite E2 in Hp; done).
    assert (El : leftmost (rb_fuel t) t 0 a2 (ptr L) = Some (up k2, s)).
    { apply (run_leftmost t F L _ c2 a2 r2 [] k2 c' s x a rest Em); [|done]. apply owns_size in H. cbn [cells app length] in H. rewrite !length_app in H.
      unfold rb_fuel. pose proof (height_cells a2 L). lia. }
    assert (Eget : get_child Left t a2 = Some al) by (cbn [cells app] in H; unfold get_child; gets; done).
    assert (Hal : al <> 0) by (cbn [cells app L] in H; front al H; destruct (owns_addr _ _ _ _ _ H); lia).
    rewrite Eget. cbn [mbind option_bind]. rewrite (proj2 (Z.eqb_neq al 0)) by done. change al with (ptr L). rewrite El. cbn [mbind option_bind].
    assert (Hk2 : exists c1 p1 y1 k3, k2 = mk_frame Left c1 p1 y1 :: k3).
    { destruct k2 as [|[s1 c1 p1 y1] k3]; [cbn in E2; unfold L in E2; congruence|]. apply Forall_cons_1 in Hl as [Hl _]. cbn in Hl. subst s1. eauto. }
    destruct Hk2 as (c1 & p1 & y1 & k3 & ->). rewrite <- E2, cells_plug in H. cbn [pcells upon f_addr f_side f_col f_sib up ptr cells app] in *.
    opens. gets. cbn [child cell rb_right]. run_set. cbn [with_child cell]. gets. cbn [with_child cell rb_right rb_left __rb_parent_color]. run_set.
    set (f1 := mk_frame Left c1 p1 y1) in *. change (top k3 p1 = a2) in Ea2.
    assert (H2 : owns t1 (pcells (f1 :: k3) a (ptr x) ++ (s, cell Left p1 c' 0 a2) :: cells s x ++ rest) F).
    { eapply owns_perm; [|exact H]. cbn [pcells cell f1 f_side f_addr f_col f_sib]. solve_Permutation. }
    destruct (run_top_parent (f1 :: k3) t1 a s (ptr x) _ F ltac:(done) Ha H2) as (t2 & E3 & H3 & R3). cbn [top f1 f_addr] in E3. rewrite Ea2 in E3.
    rewrite E3. cbn [mbind option_bind]. exists t2. split; [done|]. split; [|congruence]. cbn [top f1 f_addr]. rewrite Ea2. exact H3.
Qed.

(** The node without a left child: its right subtree takes its place. *)
Lemma run_erase_left t k c a r F : holds t k (T c E a r) F ->
  exists t', __rb_erase_augmented t a = Some (t', match r, c with E, Black => up k | _, _ => 0 end) /\
    holds t' k (paint c r) (<[a := cell Left (up k) c 0 (ptr r)]> F).
Proof.
  intros [H Hroot]. cbn [cells ptr app] in *.
  assert (Hup : parent_ok (up k)) by (front_part (kcells k a) H; apply (owns_up _ _ _ _ _ H)).
  unfold __rb_erase_augmented. opens. gets. cbn [child cell rb_left rb_right Z.eqb]. rewrite pc_parent by done.
  destruct (run_change_child t k a (ptr r) ((a, cell Left (up k) c 0 (ptr r)) :: cells a r) F) as (t1 & E1 & H1 & R1);
    [front_part (kcells k a) H; exact H | by left | done |]. rewrite E1. cbn [mbind option_bind]. clear E1 H. rename H1 into H.
  destruct r as [|cr lr ar rr]; cbn [ptr Z.eqb negb paint cells] in *.
  - rewrite pc_black by done. exists t1. split; [by destruct c|]. split; [|done]. front a H. apply owns_release in H. exact H.
  - front ar H. rewrite (proj2 (Z.eqb_neq ar 0)) by (destruct (owns_addr _ _ _ _ _ H); lia). cbn [negb].
    unfold set_pc. gets. run_set. eexists. split; [done|]. front a H. apply owns_release in H. split; [|cbn [ptr]; congruence].
    eapply owns_perm; [|exact H]. cbn [cells ptr]. solve_Permutation.
Qed.

(** The node without a right child: its left subtree takes its place. *)
Lemma run_erase_right t k c a l F : l <> E -> holds t k (T c l a E) F ->
  exists t', __rb_erase_augmented t a = Some (t', 0) /\ holds t' k (paint c l) (<[a := cell Left (up k) c (ptr l) 0]> F).
Proof.
  intros Hl [H Hroot]. destruct l as [|cl ll al rl]; [done|]. cbn [cells ptr app] in *.
  assert (Hup : parent_ok (up k)) by (front_part (kcells k a) H; apply (owns_up _ _ _ _ _ H)).
  assert (Hal : al <> 0) by (front al H; destruct (owns_addr _ _ _ _ _ H); lia).
  unfold __rb_erase_augmented. opens. gets. cbn [child cell rb_left rb_right Z.eqb]. rewrite (proj2 (Z.eqb_neq al 0)) by done.
  rewrite pc_parent by done. unfold set_pc. gets. run_set.
  front a H. front_part (kcells k a) H.
  destruct (run_change_child _ k a al _ F H) as (t1 & E1 & H1 & R1); [by left | congruence|].
  rewrite E1. cbn [mbind option_bind]. clear H. rename H1 into H. exists t1. split; [done|]. front a H. apply owns_release in H.
  split; [|done]. eapply owns_perm; [|exact H]. cbn [cells ptr paint]. solve_Permutation.
Qed.

(** The node with both subtrees: its successor takes its place. *)
Lemma run_erase_both t k c a l c2 l2 a2 r2 k2 c' s x F : l <> E -> min_path c2 l2 a2 r2 [] = (k2, c', s, x) ->
  holds t k (T c l a (T c2 l2 a2 r2)) F ->
  let k' := k2 ++ mk_frame Right c s l :: k in
  exists t', __rb_erase_augmented t a = Some (t', match x, c' with E, Black => up k' | _, _ => 0 end) /\
    holds t' k' (paint Black x) (<[a := cell Left (up k) c (ptr l) a2]> F).
Proof.
  intros Hl Em [H Hroot] k'. set (R := T c2 l2 a2 r2) in *. cbn [cells ptr app] in H, Hroot. change (ptr R) with a2 in H.
  assert (Hup : parent_ok (up k)) by (front_part (kcells k a) H; apply (owns_up _ _ _ _ _ H)).
  assert (Ha : parent_ok a) by (front a H; apply addr_parent, (owns_addr _ _ _ _ _ H)).
  assert (Ha2 : a2 <> 0) by (cbn [cells R] in H; front a2 H; destruct (owns_addr _ _ _ _ _ H); lia).
  assert (Hl0 : ptr l <> 0).
  { destruct l as [|cl ll al rl]; [done|]. cbn [cells ptr app] in *. front al H. destruct (owns_addr _ _ _ _ _ H); lia. }
  assert (Eg : get t a = Some (cell Left (up k) c (ptr l) a2)) by (front a H; exact (owns_get _ _ _ _ _ H)).
  assert (Er : get_child Right t a = Some a2) by (unfold get_child; by rewrite Eg).
  assert (El : get_child Left t a = Some (ptr l)) by (unfold get_child; by rewrite Eg).
  unfold __rb_erase_augmented. rewrite Er, El. cbn [mbind option_bind]. rewrite (proj2 (Z.eqb_neq _ _) Hl0), (proj2 (Z.eqb_neq _ _) Ha2). front_part (cells a R) H.
  destruct (run_unlink t c2 l2 a2 r2 k2 c' s x a _ F Em Ha H) as (t1 & E1 & H1 & R1). clear H. rename H1 into H.
  rewrite E1. cbn [mbind option_bind]. clear E1 Eg Er El.
  assert (Hq : parent_ok (upon k2 a)).
  { destruct k2 as [|f k2]; [done|]. cbn [upon pcells app] in *. apply addr_parent, (owns_addr _ _ _ _ _ H). }
  assert (Hs0 : s <> 0) by (front s H; destruct (owns_addr _ _ _ _ _ H); lia).
  opens. gets. cbn [child cell rb_left with_child rb_right __rb_parent_color]. run_set.
  front_part (cells a l) H. destruct (run_parent _ a s l _ F Ha H) as (t3 & E3 & H3 & R3). unfold if_node in E3.
  rewrite (proj2 (Z.eqb_neq _ _) Hl0) in E3. rewrite E3. clear H E3. rename H3 into H. cbn [mbind option_bind]. gets. cbn [__rb_parent_color cell]. rewrite pc_parent by done.
  front_part (kcells k a) H. destruct (run_change_child _ k a s _ F H) as (t4 & E4 & H4 & R4); [set_solver | congruence|].
  rewrite E4. clear H E4. rename H4 into H. cbn [mbind option_bind].
  change (mk_node (Z.lor (upon k2 a) (bit c')) (top k2 (ptr x)) (ptr l)) with (cell Left (upon k2 a) c' (ptr l) (top k2 (ptr x))) in H.
  assert (Hend : forall t5 y, ptr y = ptr x -> root t5 = top k s ->
    owns t5 (kcells k s ++ (a, cell Left (up k) c (ptr l) a2) :: cells s l ++ (s, cell Left (up k) c (ptr l) (top k2 (ptr x))) ::
             pcells k2 s (ptr x) ++ cells (upon k2 s) y) F -> holds t5 k' y (<[a := cell Left (up k) c (ptr l) a2]> F)).
  { intros t5 y Hy R5 H5. front a H5. apply owns_release in H5. unfold holds, k'. rewrite top_app, up_app, Hy. split; [|done].
    rewrite kcells_app. eapply owns_perm; [|exact H5]. cbn [kcells f_addr f_side f_col f_sib]. rewrite (cell_opp Left). solve_Permutation. }
  assert (Euk : up k' = upon k2 s) by apply up_app.
  destruct x as [|cx lx ax rx]; cbn [ptr Z.eqb negb paint] in *.
  - gets. rewrite pc_black by done. unfold set_pc. gets. run_set. eexists. split; [by destruct c'; rewrite ?Euk|].
    apply Hend; [done | congruence |]. eapply owns_perm; [|exact H]. cbn [cells]. solve_Permutation.
  - cbn [cells app] in H. assert (Hax : ax <> 0) by (front ax H; destruct (owns_addr _ _ _ _ _ H); lia).
    rewrite (proj2 (Z.eqb_neq _ _) Hax). cbn [negb]. unfold set_pc. gets. run_set. run_update. eexists. split; [done|].
    apply Hend; [done | congruence |]. eapply owns_perm; [|exact H]. cbn [cells]. solve_Permutation.
Qed.

Lemma kcells_length k h : (length k <= length (kcells k h))%nat.
Proof. revert h. induction k as [|f k IH]; intros h; cbn [kcells length]; [lia|]. rewrite length_app. specialize (IH (f_addr f)). lia. Qed.

(** There are at least as many nodes as the way to the root is long. *)
Lemma holds_fuel t k x F : holds t k x F -> (length k < rb_fuel t)%nat.
Proof.
  intros [H _]. apply owns_size in H. rewrite length_app in H. pose proof (kcells_length k (ptr x)). unfold rb_fuel. lia.
Qed.

(** The rebalancing after a node was taken out, for the place [up k] if a black node is missing. *)
Lemma run_rebalance t k x c F : holds t k (paint Black x) F -> (x = E -> c = Black -> lacking k 0) ->
  exists t', (let rebalance := match x, c with E, Black => up k | _, _ => 0 end in
              if negb (rebalance =? 0) then ____rb_erase_color t rebalance else Some t) = Some t' /\
    holds t' [] match x with
                | E => match c with Red => plug k E | Black => erase_fix k E end
                | T _ _ _ _ => plug k (paint Black x)
                end F.
Proof.
  intros H Hk. cbv zeta. destruct x as [|cx lx ax rx]; [|exists t; split; [done|]; by apply holds_plug in H].
  cbn [paint] in H. destruct c; [exists t; split; [done|]; by apply holds_plug in H|].
  destruct k as [|f k]; [by exists t|]. cbn [up]. assert (Hf : f_addr f <> 0).
  { destruct H as [H _]. cbn [kcells app] in H. destruct (owns_addr _ _ _ _ _ H). lia. }
  rewrite (proj2 (Z.eqb_neq _ _) Hf). cbn [negb]. unfold ____rb_erase_color.
  apply (run_erase F (f :: k) (rb_fuel t) t E 0); [done | constructor | by apply Hk | done |]. apply holds_fuel in H. lia.
Qed.

(** [rb_erase] in the heap is [erase_tree]; the node is left as it was. *)
Lemma run_rb_erase t k c l a r n F : path_ok k c n -> is_rb (T c l a r) c n -> holds t k (T c l a r) F ->
  exists t', rb_erase t a = Some t' /\ holds t' [] (erase_tree k c l a r) (<[a := cell Left (up k) c (ptr l) (ptr r)]> F).
Proof.
  intros Hk Ht Hh. unfold rb_erase, erase_tree. destruct l as [|cl ll al rl]; [|destruct r as [|c2 l2 a2 r2]].
  - destruct (run_erase_left t k c a r F Hh) as (t1 & -> & H1). cbn [mbind option_bind].
    assert (Er : r = E \/ c = Black) by (inversion Ht as [|? ? ? ? Hl Hr|]; subst; [left; inversion Hl; subst; by inversion Hr | by right]).
    assert (Hp : paint c r = paint Black r) by (destruct Er as [ -> | -> ]; done). rewrite Hp in H1.
    destruct (run_rebalance t1 k r c _ H1) as (t2 & E2 & H2).
    { intros -> ->. inversion Ht as [| |? ? ? ? ? ? Hl]; subst. inversion Hl; subst. by exists Black. }
    exists t2. split; [done|]. destruct r; [done|]. destruct Er as [ | -> ]; done.
  - destruct (run_erase_right t k c a (T cl ll al rl) F ltac:(done) Hh) as (t1 & -> & H1). cbn [mbind option_bind].
    exists t1. split; [done|]. by apply holds_plug in H1.
  - destruct (min_path c2 l2 a2 r2 []) as [[[k2 c'] s] x] eqn:Em.
    destruct (run_erase_both t k c a (T cl ll al rl) c2 l2 a2 r2 k2 c' s x F ltac:(done) Em Hh) as (t1 & -> & H1). cbn [mbind option_bind].
    apply run_rebalance; [done|]. intros -> ->.
    destruct (successor_place _ _ _ _ _ _ _ _ _ _ _ _ _ Em Hk Ht) as (m & Hk' & Hx). inversion Hx as [| |? ? ? ? ? ? Hl]; subst. inversion Hl; subst.
    by exists Black.
Qed.

(** ** What the operations promise *)

(** The heap holds the tree [x], and [F] beside it. *)
Definition represents (t : rb) (x : tree) (F : gmap Z rb_node) : Prop := holds t [] x F.

(** The link where a node below [k] hangs. *)
Definition link_of (k : list frame) : option side := match k with [] => None | f :: _ => Some (f_side f) end.

(** A node of the rest joins those of the tree. *)
Lemma owns_take t a n0 n l F : F !! a = Some n0 -> addr_ok a -> owns t l F ->
  exists t', set t a n = Some t' /\ owns t' ((a, n) :: l) (delete a F) /\ root t' = root t.
Proof.
  intros HF Ha [Hn Hal Hf He]. assert (Hni : a ∉ l.*1) by (intros Hin; by rewrite (Hf a Hin) in HF).
  unfold set, get. rewrite (proj2 (Z.eqb_neq a 0)) by (destruct Ha; lia).
  assert (Hl : nodes t !! a = Some n0).
  { rewrite He, lookup_union_r; [done|]. by apply not_elem_of_list_to_map_1. }
  rewrite Hl. cbn [mbind option_bind]. eexists. split; [done|]. split; [|done]. split; cbn [nodes fmap list_fmap fst].
  - by constructor.
  - by constructor.
  - intros b Hb. destruct (decide (b = a)) as [->|Hne]; [apply lookup_delete_eq|]. rewrite lookup_delete_ne by done.
    apply Hf. by apply elem_of_cons in Hb as [|].
  - rewrite He. cbn [list_to_map foldr curry fst snd]. apply map_eq. intros b. destruct (decide (b = a)) as [->|Hne].
    + rewrite lookup_insert_eq. symmetry. apply lookup_union_Some_l, lookup_insert_eq.
    + rewrite lookup_insert_ne by done. rewrite !lookup_union, lookup_insert_ne, lookup_delete_ne by done. done.
Qed.

(** [rb_link_node] hangs a red node without children below [k]. *)
Lemma run_link t k n n0 F : represents t (plug k E) F -> F !! n = Some n0 -> addr_ok n ->
  exists t', rb_link_node t n (up k) (link_of k) = Some t' /\ holds t' k (T Red E n E) (delete n F).
Proof.
  intros Hh HF Hn. apply holds_plug in Hh as [H Hroot]. cbn [ptr cells] in *. rewrite app_nil_r in H.
  unfold rb_link_node. destruct (owns_take t n n0 (mk_node (up k) 0 0) _ F HF Hn H) as (t1 & -> & H1 & R1). cbn [mbind option_bind].
  assert (Ec : mk_node (up k) 0 0 = cell Left (up k) Red 0 0) by (cbn [cell bit]; unfold RB_RED; by rewrite Z.lor_0_r).
  rewrite Ec in H1. clear H. rename H1 into H. destruct k as [|f k]; cbn [link_of up kcells top] in *.
  - eexists. split; [done|]. split; [|done]. cbn [kcells cells ptr up app] in *. destruct H. by split.
  - unfold set_child. cbn [app] in H. gets. run_set. eexists. split; [done|]. split; [|cbn [top ptr] in *; congruence].
    eapply owns_perm; [|exact H]. cbn [kcells cells ptr up app]. solve_Permutation.
Qed.

(** Linking a node below [k] and rebalancing. *)
Lemma run_rb_insert t k n n0 F : represents t (plug k E) F -> redblack (plug k E) -> F !! n = Some n0 -> addr_ok n ->
  exists t' x', (t1 ← rb_link_node t n (up k) (link_of k); rb_insert_color t1 n) = Some t' /\
    represents t' x' (delete n F) /\ redblack x' /\ inorder x' = before k ++ n :: after k.
Proof.
  intros Hh [m Hrb] HF Hn. destruct (run_link t k n n0 F Hh HF Hn) as (t1 & -> & H1). cbn [mbind option_bind].
  destruct (plug_inv _ _ _ Hrb) as (c & m' & Hk & Hx). inversion Hx; subst.
  unfold rb_insert_color, __rb_insert, rb_red_parent, get_pc.
  assert (Eg : get t1 n = Some (cell Left (up k) Red 0 0)).
  { destruct H1 as [H _]. cbn [ptr cells] in H. front n H. apply (owns_get _ _ _ _ _ H). }
  rewrite Eg. cbn [mbind option_bind cell __rb_parent_color bit]. unfold RB_RED. rewrite Z.lor_0_r.
  destruct (run_insert (delete n F) k (rb_fuel t1) t1 (T Red E n E) 0 H1) as (t' & E' & H'); [by repeat constructor | done | by eapply holds_fuel|].
  exists t', (insert_fix k (T Red E n E)). split_and!; [exact E' | exact H' | by eapply insert_fix_ok; [by repeat constructor|] |].
  rewrite insert_fix_inorder by done. apply inorder_plug.
Qed.

Lemma before_snoc k f :
  before (k ++ [f]) = match f_side f with Left => [] | Right => inorder (f_sib f) ++ [f_addr f] end ++ before k.
Proof. induction k as [|g k IH]; cbn [before app]; [by rewrite app_nil_r|]. rewrite IH. by rewrite <- app_assoc. Qed.
Lemma after_snoc k f :
  after (k ++ [f]) = after k ++ match f_side f with Left => f_addr f :: inorder (f_sib f) | Right => [] end.
Proof. induction k as [|g k IH]; cbn [after app]; [by rewrite app_nil_r|]. rewrite IH. by rewrite <- app_assoc. Qed.

(** A node has a place in the tree. *)
Lemma inorder_place x : forall l1 a l2, inorder x = l1 ++ a :: l2 ->
  exists k c l r, x = plug k (T c l a r) /\ l1 = before k ++ inorder l /\ l2 = inorder r ++ after k.
Proof.
  induction x as [|c l IHl b r IHr]; intros l1 a l2 Hx; cbn [inorder] in Hx; [by destruct l1|].
  apply app_eq_inv in Hx as [(u & E1 & E2)|(u & E1 & E2)]; destruct u as [|z u]; cbn [app] in E2; injection E2 as ? E2; subst.
  - rewrite app_nil_r in E1. exists [], c, l, r. cbn [plug before after app]. by rewrite app_nil_r.
  - destruct (IHl _ _ _ E1) as (k & c0 & l0 & r0 & -> & -> & ->). exists (k ++ [mk_frame Left c b r]), c0, l0, r0.
    rewrite plug_app, before_snoc, after_snoc. cbn [f_side f_addr f_sib app]. by rewrite <- app_assoc.
  - rewrite app_nil_r. exists [], c, l, r. cbn [plug before after app]. by rewrite app_nil_r.
  - destruct (IHr _ _ _ E2) as (k & c0 & l0 & r0 & -> & -> & ->). exists (k ++ [mk_frame Right c z l]), c0, l0, r0.
    rewrite plug_app, before_snoc, after_snoc. cbn [f_side f_addr f_sib app]. rewrite app_nil_r. split_and!; [done | orders | done].
Qed.

(** A NULL link of a node is a free place of the tree, next to the node in the order. *)
Lemma free_place t x l1 p l2 s F : represents t x F -> inorder x = l1 ++ p :: l2 -> get_child s t p = Some 0 ->
  exists k, x = plug k E /\ up k = p /\ link_of k = Some s /\
    before k = (match s with Left => l1 | Right => l1 ++ [p] end) /\ after k = match s with Left => p :: l2 | Right => l2 end.
Proof.
  intros Hh Hx Hc. destruct (inorder_place _ _ _ _ Hx) as (k & c & l & r & -> & -> & ->). apply holds_plug in Hh as [H _].
  rewrite (near_cells s) in H. cbn [ptr] in H. front p H. unfold get_child in Hc. rewrite (owns_get _ _ _ _ _ H) in Hc. cbn [mbind option_bind] in Hc.
  rewrite child_near in Hc. assert (Hn : near s l r = E).
  { destruct (near s l r) as [|c1 l1 a1 r1]; [done|]. cbn [ptr cells app] in *. injection Hc as ->. front 0 H. destruct (owns_addr _ _ _ _ _ H). lia. }
  exists (mk_frame s c p (near (opp s) l r) :: k). cbn [plug up link_of f_addr f_side before after f_sib]. split_and!; [|done | done | |].
  - unfold plug1. cbn [f_col f_sib f_side f_addr]. by rewrite <- Hn, <- join_near.
  - destruct s; cbn [near opp] in *; subst; [done|]. by rewrite <- app_assoc.
  - destruct s; cbn [near opp] in *; subst; done.
Qed.

(** C22: linking a node at any NULL link of a red-black tree and rebalancing
    succeeds, gives a red-black tree whose nodes in order are the old ones with the
    new one right before or after the node of the link, and changes nothing outside
    the tree; in an empty tree the node becomes the root. *)
Theorem rb_insert_correct t x F n n0 : represents t x F -> redblack x -> F !! n = Some n0 -> addr_ok n ->
  (x = E -> exists t' x', (t1 ← rb_link_node t n 0 None; rb_insert_color t1 n) = Some t' /\
     represents t' x' (delete n F) /\ redblack x' /\ inorder x' = [n]) /\
  (forall l1 p l2 s, inorder x = l1 ++ p :: l2 -> get_child s t p = Some 0 ->
   exists t' x', (t1 ← rb_link_node t n p (Some s); rb_insert_color t1 n) = Some t' /\
     represents t' x' (delete n F) /\ redblack x' /\
     inorder x' = match s with Left => l1 ++ n :: p :: l2 | Right => l1 ++ p :: n :: l2 end).
Proof.
  intros Hh Hrb HF Hn. split.
  - intros ->. by apply (run_rb_insert t [] n n0 F).
  - intros l1 p l2 s Hx Hc. destruct (free_place t x l1 p l2 s F Hh Hx Hc) as (k & -> & <- & El & Eb & Ea).
    destruct (run_rb_insert t k n n0 F Hh Hrb HF Hn) as (t' & x' & E' & H' & Hrb' & Ex). rewrite El in E'.
    exists t', x'. split_and!; [done.. |]. rewrite Ex, Eb, Ea. destruct s; [done|]. by rewrite <- app_assoc.
Qed.

(** C23: removing any node of a red-black tree succeeds, gives a red-black tree with
    the other nodes in the same order, and leaves the removed node and everything
    outside the tree as they were. *)
Theorem rb_erase_correct t x l1 a l2 F : represents t x F -> redblack x -> inorder x = l1 ++ a :: l2 ->
  exists t' x' n, rb_erase t a = Some t' /\ get t a = Some n /\
    represents t' x' (<[a := n]> F) /\ redblack x' /\ inorder x' = l1 ++ l2.
Proof.
  intros Hh [m Hrb] Hx. destruct (inorder_place _ _ _ _ Hx) as (k & c & l & r & -> & -> & ->).
  destruct (plug_inv _ _ _ Hrb) as (c0 & m' & Hk & Ht). assert (c0 = c) as -> by (inversion Ht; done).
  apply holds_plug in Hh. destruct (run_rb_erase t k c l a r m' F Hk Ht Hh) as (t' & E' & H').
  exists t', (erase_tree k c l a r), (cell Left (up k) c (ptr l) (ptr r)).
  split_and!; [done | | done | by eapply erase_tree_ok |].
  - destruct Hh as [H _]. cbn [ptr cells] in H. front a H. apply (owns_get _ _ _ _ _ H).
  - rewrite erase_tree_inorder. by rewrite <- !app_assoc.
Qed.

(** ** Traversal *)

(** The first node of a list from one end, NULL for none. *)
Definition edge (s : side) (l : list Z) : Z := match s with Left => hd 0 l | Right => List.last l 0 end.
(** The nodes beyond a subtree on one side. *)
Definition beyond (s : side) (k : list frame) : list Z := match s with Left => before k | Right => after k end.

Lemma last_snoc (l : list Z) a : List.last (l ++ [a]) 0 = a.
Proof. induction l as [|b l IH]; [done|]. cbn. by destruct l. Qed.
Lemma last_app (l1 l2 : list Z) : l2 <> [] -> List.last (l1 ++ l2) 0 = List.last l2 0.
Proof.
  intros Hl. destruct (exists_last Hl) as (l & a & ->). by rewrite app_assoc, !last_snoc.
Qed.

Lemma edge_node s c l a r :
  edge s (inorder (T c l a r)) = match near s l r with E => a | T _ _ _ _ => edge s (inorder (near s l r)) end.
Proof.
  destruct s; cbn [near edge inorder].
  - destruct l as [|c1 l1 a1 r1]; [done|]. cbn [inorder]. by destruct (inorder l1).
  - destruct r as [|c1 l1 a1 r1]; [apply last_snoc|]. set (r := T c1 l1 a1 r1).
    change (inorder l ++ a :: inorder r) with (inorder l ++ [a] ++ inorder r). rewrite app_assoc. apply last_app.
    subst r. cbn. by destruct (inorder l1).
Qed.

Lemma run_outermost s t F x : forall fuel p rest, x <> E -> (height x <= fuel)%nat -> owns t (cells p x ++ rest) F ->
  outermost fuel s t (ptr x) = Some (edge s (inorder x)).
Proof.
  assert (Hind : forall h x, (height x <= h)%nat -> forall fuel p rest, x <> E -> (height x <= fuel)%nat -> owns t (cells p x ++ rest) F ->
    outermost fuel s t (ptr x) = Some (edge s (inorder x))); [|eauto].
  clear x. induction h as [|h IH]; intros [|c l a r] Hh fuel p rest Hne Hf H; cbn [height] in *; try done; try lia.
  destruct fuel as [|fuel]; [lia|]. rewrite edge_node, (near_cells s) in *. cbn [outermost ptr app] in *. opens. gets.
  destruct (near s l r) as [|c1 l1 a1 r1] eqn:En; [done|]. cbn [ptr cells app] in *.
  assert (a1 <> 0) by (front a1 H; destruct (owns_addr _ _ _ _ _ H); lia). rewrite (proj2 (Z.eqb_neq a1 0)) by done.
  change (outermost fuel s t (ptr (T c1 l1 a1 r1)) = Some (edge s (inorder (T c1 l1 a1 r1)))). rewrite <- En. assert (height (near s l r) <= height l `max` height r)%nat by (destruct s; cbn; lia).
  apply (IH (near s l r) ltac:(lia) fuel a ((a, cell s p c a1 (ptr (near (opp s) l r))) :: cells a (near (opp s) l r) ++ rest)); [by rewrite En | lia |].
  eapply owns_perm; [|exact H]. rewrite En. cbn [cells]. solve_Permutation.
Qed.

Lemma run_climb s t F k : forall fuel x, holds t k x F -> x <> E -> (length k < fuel)%nat ->
  climb fuel s t (ptr x) = Some (edge (opp s) (beyond s k)).
Proof.
  induction k as [|f k IH]; intros fuel x Hh Hx Hf; (destruct fuel as [|fuel]; cbn [length] in Hf; [lia|]); cbn [climb].
  - destruct Hh as [H _]. destruct x as [|c l a r]; [done|]. cbn [kcells ptr cells app up] in *. opens. gets. cbn [cell __rb_parent_color].
    rewrite pc_parent by (split; [lia | done]). by destruct s.
  - assert (Hfa : addr_ok (f_addr f)) by (destruct Hh as [H _]; cbn [kcells app] in H; apply (owns_addr _ _ _ _ _ H)).
    assert (Ep : rb_parent t (ptr x) = Some (f_addr f)).
    { destruct Hh as [H _]. destruct x as [|c l a r]; [done|]. cbn [kcells ptr cells app up] in *. opens. gets. cbn [cell __rb_parent_color]. by rewrite pc_parent by auto. }
    rewrite Ep. cbn [mbind option_bind]. rewrite (proj2 (Z.eqb_neq (f_addr f) 0)) by (destruct Hfa; lia).
    assert (Ec : get t (f_addr f) = Some (cell (f_side f) (up k) (f_col f) (ptr x) (ptr (f_sib f)))).
    { destruct Hh as [H _]. cbn [kcells app] in H. apply (owns_get _ _ _ _ _ H). }
    unfold get_child. rewrite Ec. cbn [mbind option_bind]. destruct (decide (f_side f = s)) as [Es|Es].
    + rewrite Es, child_near, Z.eqb_refl. pose proof Hh as Hh'. rewrite holds_plug1 in Hh'.
      rewrite <- (ptr_join (f_side f) (f_col f) x (f_addr f) (f_sib f) : ptr (plug1 f x) = _).
      rewrite (IH fuel (plug1 f x) Hh'); [|by unfold plug1; destruct (f_side f) | lia].
      destruct s; cbn [beyond before after]; rewrite Es; cbn [app]; by rewrite ?app_nil_r.
    + assert (f_side f = opp s) as Eo by (by destruct (f_side f), s). rewrite Eo, cell_opp, child_near.
      assert (Hne : ptr x <> ptr (f_sib f)).
      { destruct Hh as [H _]. destruct x as [|c l a r]; [done|]. cbn [kcells ptr cells app up] in *.
        front_part (cells (f_addr f) (f_sib f)) H. front a H. apply (owns_ptr_ne _ _ _ _ _ _ _ H). }
      rewrite (proj2 (Z.eqb_neq _ _) Hne). destruct s; cbn [beyond before after edge opp]; rewrite Eo; cbn [opp]; [|done].
      rewrite app_assoc. by rewrite last_snoc.
Qed.

Lemma holds_height t k x F : holds t k x F -> (height x < rb_fuel t)%nat.
Proof.
  intros [H _]. apply owns_size in H. rewrite length_app in H. pose proof (height_cells (up k) x). unfold rb_fuel. lia.
Qed.

Lemma run_end s t x F : represents t x F -> rb_end s t = Some (edge s (inorder x)).
Proof.
  intros Hh. pose proof (holds_height _ _ _ _ Hh) as Hhe. destruct Hh as [H Hroot]. cbn [top kcells app up] in *. unfold rb_end, RB_EMPTY_ROOT. rewrite Hroot.
  destruct x as [|c l a r]; [by destruct s|]. assert (Ha := owns_addr _ _ _ _ _ H). cbn [ptr]. rewrite (proj2 (Z.eqb_neq a 0)) by (destruct Ha; lia).
  apply (run_outermost s t F (T c l a r) _ 0 []); [done | lia |]. by rewrite app_nil_r.
Qed.

(** A node that was cleared has no neighbours. *)
Lemma clear_node_step s t a t' : RB_CLEAR_NODE t a = Some t' -> rb_step s t' a = Some 0.
Proof.
  unfold RB_CLEAR_NODE, set_pc, set, rb_step, RB_EMPTY_NODE, get_pc. intros H. destruct (get t a) as [n|] eqn:Eg; [|done]. cbn [mbind option_bind] in H.
  simplify_eq. unfold get in *. destruct (a =? 0); [done|]. cbn [nodes]. rewrite lookup_insert_eq. cbn [mbind option_bind with_pc __rb_parent_color].
  by rewrite Z.eqb_refl.
Qed.

(** The neighbour of a node lies in its subtree or above. *)
Lemma run_step s t k c l a r F : holds t k (T c l a r) F ->
  rb_step s t a = Some (edge (opp s) match s with Left => before k ++ inorder l | Right => inorder r ++ after k end).
Proof.
  intros Hh. pose proof (holds_height _ _ _ _ Hh) as Hhe. pose proof (holds_fuel _ _ _ _ Hh) as Hfu. unfold rb_step.
  assert (Eg : get t a = Some (cell s (up k) c (ptr (near s l r)) (ptr (near (opp s) l r)))).
  { destruct Hh as [H _]. rewrite (near_cells s) in H. cbn [ptr] in H. front a H. apply (owns_get _ _ _ _ _ H). }
  assert (Hpc : Z.lor (up k) (bit c) <> a).
  { destruct Hh as [H _]. cbn [ptr cells] in H. intros Ea.
    assert (Hup : parent_ok (up k)) by apply (owns_up _ _ _ _ _ H). assert (Ha : parent_ok a) by (front a H; apply addr_parent, (owns_addr _ _ _ _ _ H)).
    assert (Eu : up k = a).
    { rewrite <- (pc_parent (up k) c Hup), Ea. rewrite <- (pc_parent a Red Ha) at 2. by rewrite Z.lor_0_r. }
    destruct k as [|f k]; cbn [up kcells app] in *; [front a H; destruct (owns_addr _ _ _ _ _ H); lia|].
    destruct H as [Hn _ _ _]. cbn in Hn. rewrite Eu in Hn. apply NoDup_cons in Hn as [Hn _]. apply Hn. rewrite fmap_app. set_solver. }
  unfold RB_EMPTY_NODE, get_pc, get_child. rewrite Eg. cbn [mbind option_bind]. rewrite pc_cell, child_near, (proj2 (Z.eqb_neq _ _) Hpc).
  destruct (near s l r) as [|c1 l1 a1 r1] eqn:En.
  - cbn [ptr Z.eqb negb]. pose proof (run_climb s t F k (rb_fuel t) (T c l a r) Hh ltac:(done) Hfu) as Ec. cbn [ptr] in Ec. rewrite Ec.
    destruct s; cbn [near beyond] in *; subst; cbn [inorder app]; by rewrite ?app_nil_r.
  - destruct Hh as [H _]. rewrite (near_cells s), En in H. front_part (cells a (T c1 l1 a1 r1)) H.
    assert (a1 <> 0) by (cbn [cells app] in H; destruct (owns_addr _ _ _ _ _ H); lia). cbn [ptr]. rewrite (proj2 (Z.eqb_neq a1 0)) by done. cbn [negb].
    change a1 with (ptr (T c1 l1 a1 r1)). erewrite (run_outermost (opp s)); [|done | |exact H].
    2:{ rewrite <- En. assert (height (near s l r) <= height l `max` height r)%nat by (destruct s; cbn; lia). cbn [height] in Hhe. lia. }
    f_equal. destruct s; cbn [near opp edge] in *; subst.
    + symmetry. apply last_app. cbn. by destruct (inorder l1).
    + cbn. by destruct (inorder l1).
Qed.

(** the iterators visit the nodes of a tree in order: the first and the last node
    of the list, and from a node its neighbours, NULL at the ends. *)
Theorem rb_iterators_correct t x F : represents t x F ->
  rb_first t = Some (hd 0 (inorder x)) /\ rb_last t = Some (List.last (inorder x) 0) /\
  forall l1 a l2, inorder x = l1 ++ a :: l2 -> rb_next t a = Some (hd 0 l2) /\ rb_prev t a = Some (List.last l1 0).
Proof.
  intros Hh. split_and!; [by apply (run_end Left t x F) | by apply (run_end Right t x F)|].
  intros l1 a l2 Hx. destruct (inorder_place _ _ _ _ Hx) as (k & c & l & r & -> & -> & ->). apply holds_plug in Hh.
  split; [apply (run_step Right t k c l a r F Hh) | apply (run_step Left t k c l a r F Hh)].
Qed.

(** ** Replacing a node *)

Lemma run_replace t k c l a r n n0 F : holds t k (T c l a r) F -> F !! n = Some n0 -> addr_ok n ->
  exists t', rb_replace_node t a n = Some t' /\ holds t' k (T c l n r) (<[a := cell Left (up k) c (ptr l) (ptr r)]> (delete n F)).
Proof.
  intros [H Hroot] HF Hn. cbn [ptr cells] in *. assert (Hup : parent_ok (up k)) by apply (owns_up _ _ _ _ _ H).
  assert (Ha : parent_ok a) by (front a H; apply addr_parent, (owns_addr _ _ _ _ _ H)).
  unfold rb_replace_node. opens. gets. cbn [cell __rb_parent_color]. rewrite pc_parent by done. front_part (kcells k a) H.
  destruct (run_change_child _ k a n _ F H) as (t1 & -> & H1 & R1); [by left | done |]. cbn [mbind option_bind]. clear H. rename H1 into H.
  gets. cbn [child cell rb_left]. run_reparent. gets. cbn [child cell rb_right]. run_reparent. gets.
  destruct (owns_take _ n n0 (cell Left (up k) c (ptr l) (ptr r)) _ _ HF Hn H) as (t' & -> & H' & R').
  eexists. split; [done|]. clear H. rename H' into H. front a H. apply owns_release in H. split; [|cbn [ptr]; congruence].
  eapply owns_perm; [|exact H]. cbn [cells ptr]. solve_Permutation.
Qed.

Lemma is_rb_rename k c l a n r m : is_rb (plug k (T c l a r)) Black m -> redblack (plug k (T c l n r)).
Proof.
  intros H. destruct (plug_inv _ _ _ H) as (c0 & m' & Hk & Ht). eapply plug_ok; [done|]. inversion Ht; subst; eauto.
Qed.

(** Replacing a node by another puts the other one at its place, keeps the tree
    red-black and leaves the replaced node as it was. *)
Theorem rb_replace_correct t x l1 a l2 n n0 F : represents t x F -> inorder x = l1 ++ a :: l2 -> F !! n = Some n0 -> addr_ok n ->
  exists t' x' m, rb_replace_node t a n = Some t' /\ get t a = Some m /\ represents t' x' (<[a := m]> (delete n F)) /\
    inorder x' = l1 ++ n :: l2 /\ (redblack x -> redblack x').
Proof.
  intros Hh Hx HF Hn. destruct (inorder_place _ _ _ _ Hx) as (k & c & l & r & -> & -> & ->). apply holds_plug in Hh.
  destruct (run_replace t k c l a r n n0 F Hh HF Hn) as (t' & E' & H').
  exists t', (plug k (T c l n r)), (cell Left (up k) c (ptr l) (ptr r)). split_and!; [done | | by apply holds_plug in H' | |].
  - destruct Hh as [H _]. cbn [ptr cells] in H. front a H. apply (owns_get _ _ _ _ _ H).
  - rewrite inorder_plug. orders.
  - intros [m Hm]. by eapply is_rb_rename.
Qed.

(** ** Postorder *)

(** The nodes after a subtree in postorder. *)
Fixpoint pafter (k : list frame) : list Z :=
  match k with
  | [] => []
  | f :: k => match f_side f with Left => postorder (f_sib f) | Right => [] end ++ f_addr f :: pafter k
  end.

Lemma pafter_snoc k f :
  pafter (k ++ [f]) = pafter k ++ match f_side f with Left => postorder (f_sib f) | Right => [] end ++ [f_addr f].
Proof. induction k as [|g k IH]; cbn [pafter app]; [done|]. rewrite IH. orders. Qed.

Lemma postorder_place x : forall l1 a l2, postorder x = l1 ++ a :: l2 ->
  exists k c l r, x = plug k (T c l a r) /\ l2 = pafter k.
Proof.
  induction x as [|c l IHl b r IHr]; intros l1 a l2 Hx; cbn [postorder] in Hx; [by destruct l1|].
  assert (Hr : forall l1' l2', postorder r ++ [b] = l1' ++ a :: l2' -> exists k c' l' r', T c l b r = plug k (T c' l' a r') /\ l2' = pafter k).
  { intros l1' l2' Hx'. apply app_eq_inv in Hx' as [(u & E1 & E2)|(u & E1 & E2)]; destruct u as [|z u]; cbn [app] in E2; simplify_eq.
    - by exists [], c, l, r.
    - destruct (IHr _ _ _ E1) as (k & c0 & l0 & r0 & -> & ->). exists (k ++ [mk_frame Right c b l]), c0, l0, r0.
      rewrite plug_app, pafter_snoc. done.
    - by exists [], c, l, r.
    - by destruct u. }
  apply app_eq_inv in Hx as [(u & E1 & E2)|(u & E1 & E2)]; [destruct u as [|z u]; cbn [app] in E2|by eapply Hr].
  - by eapply (Hr [] l2).
  - injection E2 as -> E2. destruct (IHl _ _ _ E1) as (k & c0 & l0 & r0 & -> & ->). exists (k ++ [mk_frame Left c b r]), c0, l0, r0.
    rewrite plug_app, pafter_snoc. by rewrite E2.
Qed.

Lemma postorder_hd c l a r : hd 0 (postorder (T c l a r)) =
  match l, r with T _ _ _ _, _ => hd 0 (postorder l) | E, T _ _ _ _ => hd 0 (postorder r) | E, E => a end.
Proof.
  cbn [postorder]. destruct l as [|c1 l1 a1 r1]; cbn [postorder app].
  - destruct r as [|c2 l2 a2 r2]; [done|]. cbn [postorder]. by destruct (postorder l2), (postorder r2).
  - by destruct (postorder l1), (postorder r1).
Qed.

Lemma run_left_deepest t F x : forall fuel p rest, x <> E -> (height x <= fuel)%nat -> owns t (cells p x ++ rest) F ->
  rb_left_deepest_node fuel t (ptr x) = Some (hd 0 (postorder x)).
Proof.
  induction x as [|c l IHl a r IHr]; intros fuel p rest Hne Hf H; [done|]. destruct fuel as [|fuel]; cbn [height] in Hf; [lia|].
  rewrite postorder_hd. cbn [rb_left_deepest_node ptr cells app] in *. opens. gets. cbn [child cell rb_left rb_right].
  destruct l as [|c1 l1 a1 r1]; [cbn [ptr Z.eqb negb cells app] in *|].
  - destruct r as [|c2 l2 a2 r2]; [done|]. cbn [ptr] in *. front_part (cells a (T c2 l2 a2 r2)) H.
    assert (a2 <> 0) by (destruct (owns_addr _ _ _ _ _ H); lia). rewrite (proj2 (Z.eqb_neq a2 0)) by done. cbn [negb].
    eapply IHr; [done | lia | exact H].
  - front_part (cells a (T c1 l1 a1 r1)) H. assert (a1 <> 0) by (destruct (owns_addr _ _ _ _ _ H); lia). cbn [ptr].
    rewrite (proj2 (Z.eqb_neq a1 0)) by done. cbn [negb]. eapply IHl; [done | lia | exact H].
Qed.

Lemma run_next_postorder t k x F : holds t k x F -> x <> E -> rb_next_postorder t (ptr x) = Some (hd 0 (pafter k)).
Proof.
  intros Hh Hx. unfold rb_next_postorder. destruct x as [|c l a r]; [done|].
  assert (Hf : forall f k', k = f :: k' -> (height (f_sib f) < rb_fuel t)%nat).
  { intros f k' ->. destruct Hh as [H _]. apply owns_size in H. cbn [kcells app length] in H. rewrite !length_app in H.
    pose proof (height_cells (f_addr f) (f_sib f)). unfold rb_fuel. lia. }
  destruct Hh as [H _]. cbn [ptr cells] in *. assert (Hup := owns_up _ _ _ _ _ H).
  front a H. rewrite (proj2 (Z.eqb_neq a 0)) by (destruct (owns_addr _ _ _ _ _ H); lia). opens. gets. cbn [cell __rb_parent_color]. rewrite pc_parent by done.
  destruct k as [|f k]; [done|]. cbn [up kcells pafter] in *. front (f_addr f) H.
  rewrite (proj2 (Z.eqb_neq (f_addr f) 0)) by (destruct (owns_addr _ _ _ _ _ H); lia). gets.
  front_part (cells (f_addr f) (f_sib f)) H. front a H. assert (Hne := owns_ptr_ne _ _ _ _ _ _ _ H).
  destruct (f_side f); cbn [child cell rb_left rb_right].
  - rewrite Z.eqb_refl. cbn [andb]. destruct (f_sib f) as [|c1 l1 a1 r1] eqn:Es; [done|].
    front_part (cells (f_addr f) (T c1 l1 a1 r1)) H. assert (a1 <> 0) by (destruct (owns_addr _ _ _ _ _ H); lia). cbn [ptr].
    rewrite (proj2 (Z.eqb_neq a1 0)) by done. cbn [negb]. change a1 with (ptr (T c1 l1 a1 r1)).
    erewrite run_left_deepest; [|done | |exact H]; [cbn [postorder]; by destruct (postorder l1), (postorder r1)|].
    specialize (Hf _ _ eq_refl). rewrite Es in Hf. lia.
  - rewrite (proj2 (Z.eqb_neq _ _) Hne). done.
Qed.

(** The postorder iterators visit the children of a node before it, the nodes of
    the left subtree first, and end with NULL after the root. *)
Theorem rb_postorder_correct t x F : represents t x F ->
  rb_first_postorder t = Some (hd 0 (postorder x)) /\
  forall l1 a l2, postorder x = l1 ++ a :: l2 -> rb_next_postorder t a = Some (hd 0 l2).
Proof.
  intros Hh. split.
  - pose proof (holds_height _ _ _ _ Hh) as Hhe. destruct Hh as [H Hroot]. cbn [kcells app up top] in *. unfold rb_first_postorder. rewrite Hroot.
    destruct x as [|c l a r]; [done|]. assert (Ha := owns_addr _ _ _ _ _ H). cbn [ptr]. rewrite (proj2 (Z.eqb_neq a 0)) by (destruct Ha; lia).
    apply (run_left_deepest t F (T c l a r) _ 0 []); [done | lia |]. by rewrite app_nil_r.
  - intros l1 a l2 Hx. destruct (postorder_place _ _ _ _ Hx) as (k & c & l & r & -> & ->). apply holds_plug in Hh.
    by apply (run_next_postorder t k (T c l a r) F Hh).
Qed.

(** ** Height *)

Lemma rb_height t c n : is_rb t c n -> (height t <= 2 * n + match c with Red => 1 | Black => 0 end /\ 2 ^ n <= S (length (inorder t)))%nat.
Proof.
  induction 1 as [|l a r n H1 IH1 H2 IH2|l a r c1 c2 n H1 IH1 H2 IH2]; cbn [height inorder]; rewrite ?length_app; cbn [length Nat.pow]; [lia..|].
  destruct c1, c2; lia.
Qed.

(** A red-black tree with n nodes is at most 2 log2 (n + 1) high. *)
Lemma redblack_height x : redblack x -> (height x <= 2 * Nat.log2 (S (length (inorder x))))%nat.
Proof.
  intros [n Hn]. destruct (rb_height _ _ _ Hn) as [H1 H2]. assert (n <= Nat.log2 (S (length (inorder x))))%nat; [|lia].
  apply Nat.log2_le_pow2; lia.
Qed.

(** The descent to the first or last of n nodes takes at most 2 log2 (n + 1) turns. *)
Theorem rb_end_logarithmic s t x F : represents t x F -> redblack x -> x <> E ->
  outermost (2 * Nat.log2 (S (length (inorder x)))) s t (root t) = Some (edge s (inorder x)).
Proof.
  intros [H Hroot] Hrb Hx. cbn [top kcells app up] in *. rewrite Hroot. apply (run_outermost s t F x _ 0 []); [done | by apply redblack_height|].
  by rewrite app_nil_r.
Qed.

(** ** A tree of three nodes and a spare node *)

Definition sample : tree := T Black (T Red E 8 E) 16 (T Red E 24 E).
Definition spare : gmap Z rb_node := {[ 32 := mk_node 0 0 0 ]}.
Definition sample_heap : rb := mk_rb (list_to_map (cells 0 sample) ∪ spare) 16.

Lemma sample_represents : represents sample_heap sample spare.
Proof.
  split; [split|done].
  - cbn. repeat (apply NoDup_cons; split; [set_solver by lia|]). apply NoDup_nil_2.
  - cbn. repeat (apply Forall_cons; split; [split; [lia | done]|]). apply Forall_nil_2.
  - cbn. intros a Ha. apply not_elem_of_dom_1. set_solver by lia.
  - done.
Qed.
Lemma sample_redblack : redblack sample.
Proof. exists 1%nat. repeat econstructor. Qed.

(** The node 32 is linked to the right of 24, which needs the colours flipped. *)
Lemma rb_insert_correct_witness : exists t' x', (t1 ← rb_link_node sample_heap 32 24 (Some Right); rb_insert_color t1 32) = Some t' /\
  represents t' x' (delete 32 spare) /\ redblack x' /\ inorder x' = [8; 16; 24; 32].
Proof.
  apply (proj2 (rb_insert_correct sample_heap sample spare 32 (mk_node 0 0 0) sample_represents sample_redblack
    ltac:(reflexivity) ltac:(split; [lia | reflexivity])) [8; 16] 24 [] Right); vm_compute; reflexivity.
Defined.

(** The root is removed, its successor takes its place. *)
Lemma rb_erase_correct_witness : exists t' x' n, rb_erase sample_heap 16 = Some t' /\ get sample_heap 16 = Some n /\
  represents t' x' (<[16 := n]> spare) /\ redblack x' /\ inorder x' = [8; 24].
Proof. apply (rb_erase_correct sample_heap sample [8] 16 [24] spare sample_represents sample_redblack). reflexivity. Defined.

Lemma rb_iterators_correct_witness : rb_first sample_heap = Some 8 /\ rb_last sample_heap = Some 24 /\
  rb_next sample_heap 16 = Some 24 /\ rb_prev sample_heap 8 = Some 0.
Proof.
  destruct (rb_iterators_correct sample_heap sample spare sample_represents) as (H1 & H2 & H3).
  split; [exact H1|]. split; [exact H2|]. split; [apply (H3 [8] 16 [24]) | apply (H3 [] 8 [16; 24])]; reflexivity.
Defined.
