(* ===== verification/Readline.v ===== *)
(** * Readline: line editing and history ([common/cli_readline.c]), completion of
      command names ([common/command.c]) and [env edit] ([common/cmd_nvedit.c])

    The line lies in an array of the caller; [num] is the cursor and [eol_num] the
    end of the line.  The characters sent to the console are collected in [out],
    those of the keyboard are a list: the loop over them ends with a line, with
    control-C, or waiting for more.  The retry timeout of the boot, which is not
    configured, and the watchdog are left out. *)
From Stdlib Require Import String.
From S2P Require Import Prelude CString Hashtable HashIO EnvFlags CliSimple Environment.

(** ** Arrays of characters *)

(** The string in an array, which must have its terminator inside. *)
Fixpoint acstr (l : list Z) : option cstr :=
  match l with
  | [] => None
  | c :: l => if c =? 0 then Some [] else s ← acstr l; Some (c :: s)
  end.
Definition astrlen (l : list Z) : option Z := s ← acstr l; Some (Z.of_nat (length s)).

(** [strcpy] of a string to the start of an array. *)
Definition astrcpy (dst : list Z) (s : cstr) : option (list Z) :=
  if Nat.ltb (length s) (length dst) then Some (s ++ 0 :: drop (S (length s)) dst) else None.

(** [memmove] of [n] characters inside an array. *)
Definition amove (l : list Z) (d s n : Z) : option (list Z) :=
  if (0 <=? d) && (0 <=? s) && (0 <=? n) && (d + n <=? Z.of_nat (length l)) && (s + n <=? Z.of_nat (length l)) then
    let d := Z.to_nat d in let n' := Z.to_nat n in
    Some (take d l ++ take n' (drop (Z.to_nat s) l) ++ drop (d + n') l)
  else None.

(** What [printf("%.*s", n, str)] prints. *)
Fixpoint nstr (n : nat) (l : list Z) : list Z :=
  match n, l with
  | S n, c :: l => if c =? 0 then [] else c :: nstr n l
  | _, _ => []
  end.

(** ** History *)

Definition HIST_MAX : Z := 20.
Definition HIST_SIZE : Z := CONFIG_SYS_CBSIZE.

(** [hist_list] points to the rows of [hist_lines] throughout. *)
Record history := mk_hist { hist_max : Z; hist_add_idx : Z; hist_cur : Z; hist_num : Z; hist_lines : list (list Z) }.

Definition hist_init (lines : list (list Z)) : history :=
  mk_hist 0 0 (-1) 0 (map (fun l => <[0%nat := 0]> l) lines).

Definition set_cur (h : history) (c : Z) : history := mk_hist (hist_max h) (hist_add_idx h) c (hist_num h) (hist_lines h).
Definition hist_list (h : history) (i : Z) : option cstr := l ← aget (hist_lines h) i; acstr l.

Definition cread_add_to_hist (h : history) (line : cstr) : option history :=
  old ← aget (hist_lines h) (hist_add_idx h);
  new ← astrcpy old line;
  lines ← aset (hist_lines h) (hist_add_idx h) new;
  let idx := hist_add_idx h + 1 in
  let idx := if HIST_MAX <=? idx then 0 else idx in
  let mx := if hist_max h <? idx then idx else hist_max h in
  Some (mk_hist mx idx (hist_cur h) (u32 (hist_num h + 1)) lines).

(** The line, [None] inside for NULL. *)
Definition hist_prev (h : history) : option (option cstr * history) :=
  if hist_cur h <? 0 then Some (None, h) else
  let cur := hist_cur h - 1 in
  let cur := if cur <? 0 then hist_max h else cur in
  if cur =? hist_add_idx h then Some (None, h)
  else l ← hist_list h cur; Some (Some l, set_cur h cur).

Definition hist_next (h : history) : option (option cstr * history) :=
  if hist_cur h <? 0 then Some (None, h) else
  if hist_cur h =? hist_add_idx h then Some (None, h) else
  let cur := hist_cur h + 1 in
  let cur := if hist_max h <? cur then 0 else cur in
  if cur =? hist_add_idx h then Some (Some [], set_cur h cur)
  else l ← hist_list h cur; Some (Some l, set_cur h cur).

(** ** Editing *)

Definition CTL_CH (c : Z) : Z := c - 97 + 1.
Definition CTL_BACKSPACE : Z := 8.
Definition BELL : Z := 7.
Definition DEL : Z := 255.
Definition DEL7 : Z := 127.
Definition CREAD_HIST_CHAR : Z := 33.

Record ed := mk_ed { buf : list Z; num : Z; eol_num : Z; out : list Z }.
Definition getcmd_putch (e : ed) (c : Z) : ed := mk_ed (buf e) (num e) (eol_num e) (out e ++ [c]).
Definition putstr (e : ed) (s : list Z) : ed := mk_ed (buf e) (num e) (eol_num e) (out e ++ s).
Definition getcmd_cbeep (e : ed) : ed := getcmd_putch e BELL.
Definition putnstr (e : ed) (n : Z) : ed := putstr e (nstr (Z.to_nat n) (drop (Z.to_nat (num e)) (buf e))).
Definition backspaces (e : ed) (n : Z) : ed := putstr e (replicate (Z.to_nat n) CTL_BACKSPACE).
Definition set_num (e : ed) (n : Z) : ed := mk_ed (buf e) n (eol_num e) (out e).
Definition set_eol (e : ed) (n : Z) : ed := mk_ed (buf e) (num e) n (out e).
Definition set_buf (e : ed) (b : list Z) : ed := mk_ed b (num e) (eol_num e) (out e).

Definition BEGINNING_OF_LINE (e : ed) : ed := set_num (backspaces e (num e)) 0.
Definition ERASE_TO_EOL (e : ed) : ed :=
  if num e <? eol_num e then
    set_eol (backspaces (putstr e (replicate (Z.to_nat (eol_num e - num e)) 32)) (eol_num e - num e)) (num e)
  else e.
Definition REFRESH_TO_EOL (e : ed) : ed :=
  if num e <? eol_num e then set_num (putnstr e (eol_num e - num e)) (eol_num e) else e.

Definition cread_add_char (ichar : Z) (insert : bool) (len : Z) (e : ed) : option ed :=
  if (insert || (num e =? eol_num e)) && (u32 (len - 1) <? eol_num e) then Some (getcmd_cbeep e) else
  let e := if insert || (num e =? eol_num e) then set_eol e (eol_num e + 1) else e in
  if insert then
    let wlen := eol_num e - num e in
    b ← (if 1 <? wlen then amove (buf e) (num e + 1) (num e) (wlen - 1) else Some (buf e));
    b ← aset b (num e) ichar;
    let e := putnstr (set_buf e b) wlen in
    Some (backspaces (set_num e (num e + 1)) (wlen - 1))
  else
    b ← aset (buf e) (num e) ichar;
    let e := putnstr (set_buf e b) 1 in
    Some (set_num e (num e + 1)).

Fixpoint cread_add_str (str : list Z) (insert : bool) (len : Z) (e : ed) : option ed :=
  match str with
  | [] => Some e
  | c :: str => e ← cread_add_char c insert len e; cread_add_str str insert len e
  end.

(** The initial line is inserted into itself: the characters are read as the array is when their turn comes. *)
Fixpoint cread_add_self (n : nat) (i len : Z) (e : ed) : option ed :=
  match n with
  | O => Some e
  | S n => c ← aget (buf e) i; e ← cread_add_char c true len e; cread_add_self n (i + 1) len e
  end.

Definition delete_forward (e : ed) : option ed :=
  if num e <? eol_num e then
    let wlen := eol_num e - num e - 1 in
    b ← (if negb (wlen =? 0) then amove (buf e) (num e) (num e + 1) wlen else Some (buf e));
    let e := set_buf e b in
    let e := if negb (wlen =? 0) then putnstr e wlen else e in
    let e := backspaces (getcmd_putch e 32) (wlen + 1) in
    Some (set_eol e (eol_num e - 1))
  else Some e.

Definition delete_backward (e : ed) : option ed :=
  if negb (num e =? 0) then
    let wlen := eol_num e - num e in
    let e := set_num e (num e - 1) in
    b ← amove (buf e) (num e) (num e + 1) wlen;
    let e := putnstr (getcmd_putch (set_buf e b) CTL_BACKSPACE) wlen in
    let e := backspaces (getcmd_putch e 32) (wlen + 1) in
    Some (set_eol e (eol_num e - 1))
  else Some e.

(** A line of the history takes the place of the line. *)
Definition replace_line (e : ed) (hline : cstr) : option ed :=
  let e := ERASE_TO_EOL (BEGINNING_OF_LINE e) in
  b ← astrcpy (buf e) hline;
  n ← astrlen b;
  Some (REFRESH_TO_EOL (set_eol (set_buf e b) n)).

(** ** Completion *)

Section completion.
Context {world : Type} (table : list (@cmd_tbl_s world)).
(** The field [complete] of an entry: the number of completions and the completions. *)
Context (complete : @cmd_tbl_s world -> option (list cstr -> Z -> Z -> Z * list cstr)).
Context (CONFIG_SYS_PROMPT : cstr).

(** The loops over the table, which end with an ellipsis when [cmdv] is full. *)
Fixpoint collect (room : nat) (names : list cstr) : list cstr :=
  match names, room with
  | [], _ => []
  | _ :: _, O => [str "..."]
  | n :: names, S room => n :: collect room names
  end.

Definition complete_cmdv (argv : list cstr) (last_char maxv : Z) : Z * list cstr :=
  if maxv <? 2 then (-2, []) else
  match argv with
  | [] => let l := collect (Z.to_nat (maxv - 2)) (map cmd_name table) in (Z.of_nat (length l), l)
  | a :: rest =>
      if negb (bool_decide (rest = [])) || (last_char =? 0) || isblank last_char then
        match find_cmd_tbl a table with
        | None => (0, [])
        | Some e => match complete e with None => (0, []) | Some f => f argv last_char maxv end
        end
      else
        let base := base_name a in
        let l := collect (Z.to_nat (maxv - 2)) (filter (fun n => take (length base) n = base) (map cmd_name table)) in
        (Z.of_nat (length l), l)
  end.

Fixpoint make_argv_loop (n : nat) (s : cstr) : list cstr :=
  match n with
  | O => []
  | S n =>
      match skip_blank s with
      | [] => []
      | s => let '(w, r) := take_word s in match r with [] => [w] | _ :: r => w :: make_argv_loop n r end
      end
  end.
Definition make_argv (s : cstr) (argvsz : Z) : list cstr := make_argv_loop (Z.to_nat (argvsz - 1)) s.

(** The first [len] characters that agree; beyond the end of a string stands its terminator. *)
Fixpoint agree (len : nat) (s t : cstr) : nat :=
  match len with
  | O => O
  | S len =>
      match s, t with
      | a :: s, b :: t => if a =? b then S (agree len s t) else O
      | _, _ => O
      end
  end.

Definition find_common_prefix (argv : list cstr) : nat :=
  match argv with
  | [] => O
  | anchor :: rest => fold_left (fun len t => agree len anchor t) rest (length anchor)
  end.

(** [print_argv(NULL, "  ", " ", 78, argv)]. *)
Fixpoint print_argv (i : Z) (argv : list cstr) : list Z :=
  match argv with
  | [] => [10]
  | a :: argv =>
      let len := Z.of_nat (length a) + 1 in
      if 78 <=? i + len then [10; 32; 32] ++ a ++ print_argv (1 + len) argv
      else [32] ++ a ++ print_argv (i + len) argv
  end.

(** The result, the new array, the new [*np] and what is printed. *)
Definition cmd_auto_complete (prompt : cstr) (b : list Z) (n : Z) : option (Z * list Z * Z * list Z) :=
  if negb (strcmp_l prompt CONFIG_SYS_PROMPT =? 0) then Some (0, b, n, []) else
  line ← acstr b;
  let cnt := Z.of_nat (length line) in
  let last_char := default 0 (list.last line) in
  if CONFIG_SYS_CBSIZE <=? cnt then None else
  let argv := make_argv line (CONFIG_SYS_MAXARGS + 1) in
  let '(i, cmdv) := complete_cmdv argv last_char 20 in
  if i =? 0 then Some (if Nat.ltb 1 (length argv) then (0, b, n, []) else (1, b, n, [BELL])) else
  let j := Z.of_nat (find_common_prefix cmdv) in
  r ← (if i =? 1 then
         a ← list.last argv; c ← list.head cmdv;
         if Nat.ltb (length c) (length a) then None
         else Some (Some (drop (length a) c, [32]))
       else if (1 <? i) && negb (j =? 0) then
         a ← list.last argv; c ← list.head cmdv;
         let j := j - Z.of_nat (length a) in
         Some (if 0 <? j then Some (take (Z.to_nat j) (drop (length a) c), []) else None)
       else Some None);
  match r with
  | Some (s, sep) =>
      let k := Z.of_nat (length s + length sep) in
      if CONFIG_SYS_CBSIZE - 2 <=? n + k then Some (1, b, n, [BELL]) else
      if Nat.ltb (length line + length s + length sep) (length b) then
        let b' := line ++ s ++ sep ++ 0 :: drop (S (length line + length s + length sep)) b in
        Some (1, b', n + k, s ++ sep ++ (if bool_decide (sep = []) then [BELL] else []))
      else None
  | None => Some (1, b, n, print_argv 78 cmdv ++ prompt ++ line)
  end.

(** The key TAB of [cread_line]. *)
Definition complete_line (prompt : option cstr) (e : ed) : option ed :=
  if num e <? eol_num e then Some (getcmd_cbeep e) else
  b ← aset (buf e) (num e) 0;
  p ← prompt;
  '(r, b, num2, o) ← cmd_auto_complete p b (num e);
  let e := putstr (set_buf e b) o in
  let col := num2 - num e in
  Some (if negb (r =? 0) then set_eol (set_num e (num e + col)) (eol_num e + col) else e).

(** ** The loop *)

Record line_state := mk_ls { edit : ed; insert : bool; esc_len : Z; esc_save : list Z; hist : history }.
Definition with_edit (s : line_state) (e : ed) : line_state := mk_ls e (insert s) (esc_len s) (esc_save s) (hist s).
Definition with_esc (s : line_state) (n : Z) (v : list Z) : line_state := mk_ls (edit s) (insert s) n v (hist s).

Inductive key_result := Next (s : line_state) | Enter (s : line_state) | Interrupt (s : line_state).

(** The [switch] on the key. *)
Definition key_switch (prompt : option cstr) (len : Z) (s : line_state) (ichar : Z) : option key_result :=
  let e := edit s in
  let ok (r : option ed) := e ← r; Some (Next (with_edit s e)) in
  if ichar =? 0x1b then
    if esc_len s =? 0 then v ← aset (esc_save s) 0 ichar; Some (Next (with_esc s 1 v))
    else Some (Next (with_esc (with_edit s (putstr e (str "impossible condition #876" ++ [10]))) 0 (esc_save s)))
  else if ichar =? CTL_CH 97 then ok (Some (BEGINNING_OF_LINE e))
  else if ichar =? CTL_CH 99 then b ← aset (buf e) 0 0; Some (Interrupt (with_edit s (set_buf e b)))
  else if ichar =? CTL_CH 102 then
    ok (if num e <? eol_num e then c ← aget (buf e) (num e); Some (set_num (getcmd_putch e c) (num e + 1)) else Some e)
  else if ichar =? CTL_CH 98 then
    ok (Some (if negb (num e =? 0) then set_num (getcmd_putch e CTL_BACKSPACE) (num e - 1) else e))
  else if ichar =? CTL_CH 100 then ok (delete_forward e)
  else if ichar =? CTL_CH 107 then ok (Some (ERASE_TO_EOL e))
  else if ichar =? CTL_CH 101 then ok (Some (REFRESH_TO_EOL e))
  else if ichar =? CTL_CH 111 then Some (Next (mk_ls e (negb (insert s)) (esc_len s) (esc_save s) (hist s)))
  else if (ichar =? CTL_CH 120) || (ichar =? CTL_CH 117) then ok (Some (ERASE_TO_EOL (BEGINNING_OF_LINE e)))
  else if (ichar =? DEL) || (ichar =? DEL7) || (ichar =? 8) then ok (delete_backward e)
  else if (ichar =? CTL_CH 112) || (ichar =? CTL_CH 110) then
    '(hline, h) ← (if ichar =? CTL_CH 112 then hist_prev (hist s) else hist_next (hist s));
    e ← match hline with None => Some (getcmd_cbeep e) | Some l => replace_line e l end;
    Some (Next (mk_ls e (insert s) 0 (esc_save s) h))
  else if ichar =? 9 then ok (complete_line prompt e)
  else ok (cread_add_char ichar (insert s) len e).

(** Keys that stand at the end of an escape sequence. *)
Definition esc_key (ichar : Z) : option Z :=
  if ichar =? 68 then Some (CTL_CH 98)
  else if ichar =? 67 then Some (CTL_CH 102)
  else if ichar =? 72 then Some (CTL_CH 97)
  else if ichar =? 65 then Some (CTL_CH 112)
  else if ichar =? 66 then Some (CTL_CH 110)
  else None.

(** One key. *)
Definition cread_key (prompt : option cstr) (len : Z) (s : line_state) (ichar : Z) : option key_result :=
  let e := edit s in
  if (ichar =? 10) || (ichar =? 13) then Some (Enter (with_edit s (getcmd_putch e 10)))
  else if negb (esc_len s =? 0) then
    if esc_len s =? 1 then
      if ichar =? 91 then v ← aset (esc_save s) 1 ichar; Some (Next (with_esc s 2 v))
      else e ← cread_add_str (take 1 (esc_save s)) (insert s) len e; Some (Next (with_esc (with_edit s e) 0 (esc_save s)))
    else
      match esc_key ichar with
      | Some ichar => key_switch prompt len (with_esc s 0 (esc_save s)) ichar
      | None =>
          v ← aset (esc_save s) (esc_len s) ichar;
          e ← cread_add_str (take (Z.to_nat (esc_len s + 1)) v) (insert s) len e;
          Some (Next (with_esc (with_edit s e) 0 v))
      end
  else key_switch prompt len s ichar.

(** What became of the keys: the return code, the array, the length, the history and
    the output, or a state that waits for the next key. *)
Inductive line_result := Done (rc : Z) (b : list Z) (len : Z) (h : history) (o : list Z) | Waiting (s : line_state).

Fixpoint cread_loop (prompt : option cstr) (len : Z) (s : line_state) (keys : list Z) : option line_result :=
  match keys with
  | [] => Some (Waiting s)
  | k :: keys =>
      r ← cread_key prompt len s k;
      match r with
      | Next s => cread_loop prompt len s keys
      | Interrupt s => Some (Done (-1) (buf (edit s)) len (hist s) (out (edit s)))
      | Enter s =>
          let e := edit s in
          b ← aset (buf e) (eol_num e) 0;
          c ← aget b 0;
          h ← (if negb (c =? 0) && negb (c =? CREAD_HIST_CHAR) then line ← acstr b; cread_add_to_hist (hist s) line else Some (hist s));
          Some (Done 0 b (eol_num e) (set_cur h (hist_add_idx h)) (out e))
      end
  end.

(** [in_time] says that the first key comes before the timeout; [esc0] is what the
    array [esc_save] holds at first. *)
Definition cread_line (prompt : option cstr) (b : list Z) (len timeout : Z) (in_time : bool) (esc0 : list Z) (h : history) (keys : list Z)
    : option line_result :=
  init_len ← astrlen b;
  e ← cread_add_self (Z.to_nat init_len) 0 len (mk_ed b 0 0 []);
  if negb (timeout =? 0) && negb in_time then Some (Done (-2) (buf e) len h (out e))
  else cread_loop prompt len (mk_ls e true 0 esc0 h) keys.

(** ** Before relocation: no history *)

Definition erase_seq : list Z := [8; 32; 8].
Definition tab_stop (col : Z) : Z := 8 - Z.land col 7.

(** [p] is the index of the end of the line and [n] the number of its characters. *)
Record simple := mk_simple { s_buf : list Z; s_p : Z; s_n : Z; s_col : Z; s_out : list Z }.

(** The line up to [p] is typed again from column [col]. *)
Fixpoint retype (l : list Z) (col : Z) (o : list Z) : Z * list Z :=
  match l with
  | [] => (col, o)
  | c :: l =>
      if c =? 9 then retype l (col + tab_stop col) (o ++ replicate (Z.to_nat (tab_stop col)) 32)
      else retype l (col + 1) (o ++ [c])
  end.

Definition delete_char (plen : Z) (s : simple) : option simple :=
  if s_n s =? 0 then Some s else
  let p := s_p s - 1 in
  c ← aget (s_buf s) p;
  let '(col, o) :=
    if c =? 9 then
      retype (take (Z.to_nat p) (s_buf s)) (Z.min (s_col s) plen)
        (s_out s ++ concat (replicate (Z.to_nat (s_col s - plen)) erase_seq))
    else (s_col s - 1, s_out s ++ erase_seq) in
  Some (mk_simple (s_buf s) p (s_n s - 1) col o).

(** [while ((n > 0) && ( *p != ' ')) p = delete_char(...);] *)
Fixpoint erase_word (fuel : nat) (plen : Z) (s : simple) : option simple :=
  if 0 <? s_n s then
    c ← aget (s_buf s) (s_p s);
    if c =? 32 then Some s else
    match fuel with
    | O => None
    | S fuel => s ← delete_char plen s; erase_word fuel plen s
    end
  else Some s.

(** A character that belongs to the line. *)
Definition simple_add (prompt : option cstr) (s : simple) (c : Z) : option simple :=
  if s_n s <? CONFIG_SYS_CBSIZE - 2 then
    let put (s : simple) (col : Z) (o : list Z) :=
      b ← aset (s_buf s) (s_p s) c; Some (mk_simple b (s_p s + 1) (s_n s + 1) col (s_out s ++ o)) in
    if c =? 9 then
      b ← aset (s_buf s) (s_p s) 0;
      p ← prompt;
      '(r, b, n, o) ← cmd_auto_complete p b (s_n s);
      let s' := mk_simple b (s_p s) n (s_col s + (n - s_n s)) (s_out s ++ o) in
      if negb (r =? 0) then Some (mk_simple b n n (s_col s') (s_out s'))
      else put s' (s_col s' + tab_stop (s_col s')) (replicate (Z.to_nat (tab_stop (s_col s'))) 32)
    else put s (s_col s + 1) (if c =? 0 then [] else [c])
  else Some (mk_simple (s_buf s) (s_p s) (s_n s) (s_col s) (s_out s ++ [BELL])).

Inductive simple_result := SDone (rc : Z) (b : list Z) (o : list Z) | SWaiting (s : simple).

Fixpoint simple_loop (prompt : option cstr) (plen : Z) (s : simple) (keys : list Z) : option simple_result :=
  match keys with
  | [] => Some (SWaiting s)
  | c :: keys =>
      if (c =? 13) || (c =? 10) then b ← aset (s_buf s) (s_p s) 0; Some (SDone (s_p s) b (s_out s ++ [13; 10]))
      else if c =? 0 then simple_loop prompt plen s keys
      else if c =? 3 then b ← aset (s_buf s) 0 0; Some (SDone (-1) b (s_out s))
      else if c =? 0x15 then
        simple_loop prompt plen (mk_simple (s_buf s) 0 0 (Z.min (s_col s) plen)
          (s_out s ++ concat (replicate (Z.to_nat (s_col s - plen)) erase_seq))) keys
      else
        s ← (if c =? 0x17 then s ← delete_char plen s; erase_word (Z.to_nat (s_n s)) plen s
             else if (c =? 8) || (c =? 0x7f) then delete_char plen s
             else simple_add prompt s c);
        simple_loop prompt plen s keys
  end.

(** ** Reading a line *)

(** [initted] of [cli_readline_into_buffer], and the variables of the history. *)
Record console := mk_console { initted : bool; c_hist : history }.

Inductive read_result :=
| Read (rc : Z) (b : list Z) (c : console) (o : list Z)
| Wait.

(** The array is [console_buffer] before relocation. *)
Definition cli_readline_into_buffer (flags : Z) (c : console) (prompt : option cstr) (buffer : list Z) (timeout : Z) (in_time : bool)
    (esc0 keys : list Z) : option read_result :=
  let shown := default [] prompt in
  if has_flag flags GD_FLG_RELOC then
    let h := if initted c then c_hist c else hist_init (hist_lines (c_hist c)) in
    r ← cread_line prompt buffer CONFIG_SYS_CBSIZE timeout in_time esc0 h keys;
    Some match r with
         | Done rc b len h o => Read (if rc <? 0 then rc else len) b (mk_console true h) (shown ++ o)
         | Waiting _ => Wait
         end
  else
    let plen := Z.of_nat (length shown) in
    r ← simple_loop prompt plen (mk_simple buffer 0 0 plen shown) keys;
    Some match r with SDone rc b o => Read rc b c o | SWaiting _ => Wait end.

Definition cli_readline (flags : Z) (c : console) (prompt : option cstr) (console_buffer esc0 keys : list Z) : option read_result :=
  b ← aset console_buffer 0 0;
  cli_readline_into_buffer flags c prompt b 0 true esc0 keys.

Definition TQ_readline (flags : Z) (c : console) (prompt : option cstr) (console_buffer esc0 keys : list Z) : option read_result :=
  b ← aset console_buffer 0 0;
  b ← match prompt with Some p => astrcpy b p | None => Some b end;
  cli_readline_into_buffer flags c None b 0 true esc0 keys.
End completion.

(** ** A terminal

    One row of a terminal wide enough for the line: a printable character is written
    at the cursor, backspace moves the cursor back, a newline starts a fresh row and
    the bell is not seen. *)

Record term := mk_term { row : list Z; tcol : nat }.
Definition tputc (t : term) (c : Z) : term :=
  if c =? 8 then mk_term (row t) (tcol t - 1)
  else if c =? 10 then mk_term [] 0
  else if c <? 32 then t
  else mk_term (take (tcol t) (row t) ++ c :: drop (S (tcol t)) (row t)) (S (tcol t)).
Definition tputs (t : term) (o : list Z) : term := fold_left tputc o t.
Definition printable (c : Z) : Prop := 32 <= c.

Lemma tputs_app t o1 o2 : tputs t (o1 ++ o2) = tputs (tputs t o1) o2.
Proof. apply fold_left_app. Qed.

Lemma drop_plus {A} n m (l : list A) : drop (n + m) l = drop m (drop n l).
Proof. by rewrite drop_drop. Qed.

Lemma tputs_print s : forall A B, Forall printable s ->
  tputs (mk_term (A ++ B) (length A)) s = mk_term (A ++ s ++ drop (length s) B) (length A + length s).
Proof.
  induction s as [|c s IH]; intros A B Hs; cbn [tputs fold_left app length drop]; [by rewrite Nat.add_0_r|].
  apply Forall_cons_1 in Hs as [Hc Hs]. unfold printable in Hc. unfold tputc at 2. cbn [row tcol].
  rewrite (proj2 (Z.eqb_neq c 8)), (proj2 (Z.eqb_neq c 10)), (proj2 (Z.ltb_ge c 32)) by lia.
  rewrite take_app_length, drop_app_ge by lia. replace (S (length A) - length A)%nat with 1%nat by lia.
  rewrite app_snoc. replace (S (length A)) with (length (A ++ [c])) by (rewrite length_app; simpl; lia).
  fold (tputs (mk_term ((A ++ [c]) ++ drop 1 B) (length (A ++ [c]))) s). rewrite IH by done. rewrite drop_drop, length_app, <- !app_assoc. cbn [app length].
  f_equal. lia.
Qed.

Lemma tputs_back n : forall r c, (n <= c)%nat -> tputs (mk_term r c) (replicate n 8) = mk_term r (c - n).
Proof.
  induction n as [|n IH]; intros r c Hn; cbn [replicate tputs fold_left]; [by rewrite Nat.sub_0_r|].
  change (tputc (mk_term r c) 8) with (mk_term r (c - 1)). fold (tputs (mk_term r (c - 1)) (replicate n 8)). rewrite IH by lia. f_equal. lia.
Qed.

(** ** The line with its cursor *)

(** The row after [pre] with the line [l ++ r], the cursor after [l] and blanks to the right. *)
Definition screen (pre l r : list Z) (k : nat) : term := mk_term (pre ++ l ++ r ++ replicate k 32) (length pre + length l).

(** The output [o] turns the sight of one line into that of another. *)
Definition paints (o l r l' r' : list Z) : Prop :=
  Forall printable (l ++ r) -> Forall printable (l' ++ r') -> forall pre k, exists k', tputs (screen pre l r k) o = screen pre l' r' k'.

(** The array holds the line [l ++ r] with the cursor after [l]; it has room for [len]
    characters and the terminator. *)
Record editing (len : Z) (e : ed) (l r : list Z) : Prop := {
  ed_buf : exists rest, buf e = l ++ r ++ rest;
  ed_num : num e = Z.of_nat (length l);
  ed_eol : eol_num e = Z.of_nat (length l + length r);
  ed_len : Z.of_nat (length l + length r) <= len;
  ed_room : len < Z.of_nat (length (buf e)) }.

(** An operation takes the line [l ++ r] to [l' ++ r'], in the array and on the screen. *)
Definition edits (len : Z) (e : ed) (l r : list Z) (e' : ed) (l' r' : list Z) : Prop :=
  editing len e' l' r' /\ length (buf e') = length (buf e) /\ exists o, out e' = out e ++ o /\ paints o l r l' r'.

Lemma paints_nothing l r : paints [] l r l r.
Proof. intros _ _ pre k. by exists k. Qed.
Lemma paints_bell l r : paints [BELL] l r l r.
Proof. intros _ _ pre k. by exists k. Qed.

(** Printing over the right part, then going back. *)
Lemma screen_over s n pre l r k l' r' k' : Forall printable s -> (n <= length s)%nat ->
  l ++ s ++ drop (length s) (r ++ replicate k 32) = l' ++ r' ++ replicate k' 32 -> length l' = (length l + length s - n)%nat ->
  tputs (screen pre l r k) (s ++ replicate n 8) = screen pre l' r' k'.
Proof.
  intros Hs Hn Hk Hl'. unfold screen.
  rewrite (app_assoc pre l), <- length_app, tputs_app, tputs_print by done. rewrite tputs_back by lia. f_equal; [|rewrite length_app; lia].
  rewrite <- app_assoc. by rewrite Hk.
Qed.

Lemma screen_print s pre l r k l' r' k' : Forall printable s ->
  l ++ s ++ drop (length s) (r ++ replicate k 32) = l' ++ r' ++ replicate k' 32 -> length l' = (length l + length s)%nat ->
  tputs (screen pre l r k) s = screen pre l' r' k'.
Proof. intros Hs Hk Hl. rewrite <- (app_nil_r s) at 1. apply (screen_over s 0); [done | lia | done | lia]. Qed.

Lemma nstr_print l rest : Forall printable l -> nstr (length l) (l ++ rest) = l.
Proof.
  induction 1 as [|c l Hc Hl IH]; cbn [length nstr app]; [done|]. unfold printable in Hc. rewrite (proj2 (Z.eqb_neq c 0)) by lia. by rewrite IH.
Qed.

(** ** Editing operations *)

Section editing.
Context (len : Z) (Hlen : 0 < len < 2 ^ 32).

(** Typing a character. *)
Definition typed (ins : bool) (c : Z) (l r : list Z) : list Z * list Z :=
  match ins, r with
  | false, _ :: r' => (l ++ [c], r')
  | _, _ => if len <=? Z.of_nat (length l + length r) then (l, r) else (l ++ [c], r)
  end.

Lemma amove_up l r x rest : r <> [] ->
  exists y, amove (l ++ r ++ x :: rest) (Z.of_nat (length l) + 1) (Z.of_nat (length l)) (Z.of_nat (length r)) = Some (l ++ y :: r ++ rest).
Proof.
  intros Hr. destruct r as [|y r]; [done|]. exists y. unfold amove. rewrite !length_app. cbn [length].
  repeat match goal with |- context [?a <=? ?b] => rewrite (proj2 (Z.leb_le a b)) by lia end. cbn [andb]. f_equal.
  replace (Z.to_nat (Z.of_nat (length l) + 1)) with (length l + 1)%nat by lia. rewrite !Nat2Z.id.
  rewrite take_app_add, drop_app_length. cbn [app take]. rewrite <- app_assoc, <- Nat.add_assoc, drop_app_add. cbn [app drop Nat.add].
  rewrite take_0, take_app_length, drop_app_ge by lia. by replace (S (length r) - length r)%nat with 1%nat by lia.
Qed.

Lemma amove_down l r x rest :
  amove (l ++ x :: r ++ rest) (Z.of_nat (length l)) (Z.of_nat (length l) + 1) (Z.of_nat (length r)) =
    Some (l ++ r ++ drop (length r) (x :: r ++ rest)).
Proof.
  unfold amove. rewrite !length_app. cbn [length]. rewrite !length_app.
  repeat match goal with |- context [?a <=? ?b] => rewrite (proj2 (Z.leb_le a b)) by lia end. cbn [andb]. f_equal.
  replace (Z.to_nat (Z.of_nat (length l) + 1)) with (length l + 1)%nat by lia. rewrite !Nat2Z.id.
  rewrite take_app_length, !drop_app_add. cbn [drop]. by rewrite drop_0, take_app_length.
Qed.

Ltac ed_cbn := cbn [buf num eol_num out set_num set_eol set_buf putnstr putstr backspaces getcmd_putch getcmd_cbeep] in *.

Lemma edits_bell e l r : editing len e l r -> edits len e l r (getcmd_cbeep e) l r.
Proof. intros [H1 H2 H3 H4 H5]. split; [by split|]. split; [done|]. exists [BELL]. split; [done | apply paints_bell]. Qed.

Lemma edits_nothing e l r : editing len e l r -> edits len e l r e l r.
Proof. intros H. split; [done|]. split; [done|]. exists []. split; [by rewrite app_nil_r | apply paints_nothing]. Qed.

Lemma editing_rest e l r : editing len e l r -> Z.of_nat (length l + length r) < Z.of_nat (length (buf e)) ->
  exists x rest, buf e = l ++ r ++ x :: rest.
Proof. intros [[rest H1] _ _ _ _] Hl. destruct rest as [|x rest]; [rewrite H1 in Hl; rewrite !length_app in Hl; simpl in Hl; lia|]. eauto. Qed.

(** A character was stored at the cursor, it and the characters [w] after it were printed. *)
Lemma typed_edits e e' l r c r' w rest : editing len e l r -> buf e' = l ++ c :: r' ++ rest -> length (buf e') = length (buf e) ->
  num e' = Z.of_nat (length l) + 1 -> eol_num e' = Z.of_nat (length l + length r') + 1 -> Z.of_nat (length l + length r') + 1 <= len ->
  out e' = out e ++ nstr (S (length w)) (c :: r' ++ rest) ++ replicate (length w) 8 ->
  (r = r' /\ w = r') \/ (exists x, r = x :: r' /\ w = []) -> edits len e l r e' (l ++ [c]) r'.
Proof.
  intros H Eb El En Ee Hr Eo Hw. destruct H as [_ _ _ _ H5]. split; [|split; [done|]].
  - split; [exists rest; by rewrite <- app_assoc | rewrite ?length_app; cbn [length]; lia.. | by rewrite El].
  - eexists. split; [exact Eo|]. intros _ Hp pre k. rewrite <- app_assoc in Hp. apply Forall_app in Hp as [_ Hp]. cbn [app] in Hp.
    destruct Hw as [[-> ->]|(x & -> & ->)].
    + change (S (length r')) with (length (c :: r')). rewrite app_comm_cons, nstr_print by done. exists (k - 1)%nat.
      apply screen_over; [done | cbn [length]; lia | | rewrite length_app; cbn [length]; lia].
      rewrite <- app_assoc. cbn [app length]. do 3 f_equal. rewrite drop_app_ge by lia. replace (S (length r') - length r')%nat with 1%nat by lia.
      destruct k; [done|]. cbn [replicate drop]. by replace (S k - 1)%nat with k by lia.
    + assert (Hc : Forall printable [c]) by (apply Forall_cons_1 in Hp as [? _]; by repeat constructor).
      cbn [length replicate]. rewrite app_nil_r, (nstr_print [c] (r' ++ rest) Hc : nstr (S 0) (c :: r' ++ rest) = [c]). exists k.
      apply screen_print; [done | by rewrite <- app_assoc | rewrite length_app; cbn [length]; lia].
Qed.

Lemma add_char_edits c ins e l r : editing len e l r ->
  exists e', cread_add_char c ins len e = Some e' /\ let '(l', r') := typed ins c l r in edits len e l r e' l' r'.
Proof.
  intros H. pose proof (H) as [_ H2 H3 H4 H5]. unfold cread_add_char. rewrite (u32_small (len - 1)) by lia.
  assert (Hroom : ins || (num e =? eol_num e) = true -> typed ins c l r = if len <=? Z.of_nat (length l + length r) then (l, r) else (l ++ [c], r)).
  { intros Hi. destruct ins; [done|]. cbn [orb] in Hi. apply Z.eqb_eq in Hi. destruct r; [done|]. cbn [length] in *. lia. }
  destruct (ins || (num e =? eol_num e)) eqn:Ei; cbn [andb].
  - rewrite (Hroom eq_refl). destruct (Z.ltb_spec (len - 1) (eol_num e)) as [Hf|Hf].
    { rewrite (proj2 (Z.leb_le _ _)) by lia. eexists. split; [done|]. by apply edits_bell. }
    rewrite (proj2 (Z.leb_gt _ _)) by lia. destruct (editing_rest e l r H ltac:(lia)) as (x & rest & Eb). destruct ins.
    + ed_cbn. assert (Ew : eol_num e + 1 - num e = Z.of_nat (length r) + 1) by lia. rewrite Ew, Z.add_simpl_r.
      assert (Hs : exists y, (if 1 <? Z.of_nat (length r) + 1 then amove (buf e) (num e + 1) (num e) (Z.of_nat (length r)) else Some (buf e)) = Some (l ++ y :: r ++ rest)).
      { rewrite Eb, H2. destruct r as [|y r]; [by exists x|]. rewrite (proj2 (Z.ltb_lt _ _)) by (cbn [length]; lia). by apply amove_up. }
      destruct Hs as [y Hs]. rewrite Hs. cbn [mbind option_bind]. rewrite aset_mid by done. cbn [mbind option_bind]. eexists. split; [done|].
      apply (typed_edits _ _ _ _ _ _ r rest H); ed_cbn; [done | rewrite Eb; len | lia.. | | by left].
      rewrite H2, !Nat2Z.id, drop_app_length, <- app_assoc. by replace (Z.to_nat (Z.of_nat (length r) + 1)) with (S (length r)) by lia.
    + cbn [orb] in Ei. apply Z.eqb_eq in Ei. ed_cbn. destruct r; [|cbn [length] in *; lia]. cbn [app] in Eb.
      rewrite Eb, aset_mid by done. cbn [mbind option_bind]. eexists. split; [done|].
      apply (typed_edits _ _ _ _ _ _ [] rest H); ed_cbn; [done | rewrite Eb; len | cbn [length] in *; lia.. | | by left].
      by rewrite H2, Nat2Z.id, drop_app_length, app_nil_r.
  - destruct ins; [done|]. cbn [orb] in Ei. apply Z.eqb_neq in Ei. pose proof (H) as [[rest Eb] _ _ _ _]. destruct r as [|x r]; [cbn [length] in *; lia|]. cbn [typed].
    rewrite Eb. cbn [app]. rewrite aset_mid by done. cbn [mbind option_bind]. eexists. split; [done|].
    apply (typed_edits _ _ _ _ _ _ [] rest H); ed_cbn; [done | rewrite Eb; len | cbn [length] in *; lia.. | | eauto].
    by rewrite H2, Nat2Z.id, drop_app_length, app_nil_r.
Qed.

Lemma edits_trans e l r e1 l1 r1 e2 l2 r2 : (Forall printable (l ++ r) -> Forall printable (l2 ++ r2) -> Forall printable (l1 ++ r1)) ->
  edits len e l r e1 l1 r1 -> edits len e1 l1 r1 e2 l2 r2 -> edits len e l r e2 l2 r2.
Proof.
  intros Hp (H1 & L1 & o1 & E1 & P1) (H2 & L2 & o2 & E2 & P2). split; [done|]. split; [congruence|]. exists (o1 ++ o2). split; [by rewrite E2, E1, app_assoc|].
  intros Ha Hb pre k. destruct (P1 Ha (Hp Ha Hb) pre k) as [k1 E]. destruct (P2 (Hp Ha Hb) Hb pre k1) as [k2 E']. exists k2. by rewrite tputs_app, E.
Qed.

(** Backspaces move the cursor. *)
Lemma screen_back pre l l2 r k : tputs (screen pre (l ++ l2) r k) (replicate (length l2) 8) = screen pre l (l2 ++ r) k.
Proof. unfold screen. rewrite tputs_back by len. f_equal; [by rewrite <- !app_assoc | len]. Qed.

Lemma editing_move e l r l' r' o : editing len e l r -> l ++ r = l' ++ r' ->
  editing len (mk_ed (buf e) (Z.of_nat (length l')) (eol_num e) o) l' r'.
Proof.
  intros [[rest H1] H2 H3 H4 H5] E. assert (El := f_equal (@length Z) E). rewrite !length_app in El. split; cbn [buf num eol_num] in *; try lia.
  exists rest. by rewrite H1, !app_assoc, E.
Qed.

Lemma begin_edits e l r : editing len e l r -> edits len e l r (BEGINNING_OF_LINE e) [] (l ++ r).
Proof.
  intros H. split; [by apply (editing_move e l r [] (l ++ r))|]. split; [done|]. unfold BEGINNING_OF_LINE. ed_cbn. eexists. split; [done|].
  intros _ _ pre k. exists k. destruct H as [_ -> _ _ _]. rewrite Nat2Z.id. apply (screen_back pre [] l).
Qed.

Lemma left_edits e l c r : editing len e (l ++ [c]) r ->
  num e <> 0 /\ edits len e (l ++ [c]) r (set_num (getcmd_putch e CTL_BACKSPACE) (num e - 1)) l (c :: r).
Proof.
  intros H. pose proof H as [_ H2 _ _ _]. rewrite length_app in H2. cbn [length] in H2. split; [lia|]. split.
  - ed_cbn. replace (num e - 1) with (Z.of_nat (length l)) by lia. apply (editing_move e (l ++ [c]) r); [done | by rewrite <- app_assoc].
  - split; [done|]. exists [8]. split; [done|]. intros _ _ pre k. exists k. apply (screen_back pre l [c]).
Qed.

Lemma right_edits e l c r : editing len e l (c :: r) ->
  num e < eol_num e /\ aget (buf e) (num e) = Some c /\ edits len e l (c :: r) (set_num (getcmd_putch e c) (num e + 1)) (l ++ [c]) r.
Proof.
  intros H. pose proof H as [[rest H1] H2 H3 _ _]. cbn [length] in H3. split; [lia|]. split; [rewrite H1; by apply aget_mid|]. split.
  - ed_cbn. replace (num e + 1) with (Z.of_nat (length (l ++ [c]))) by len. apply (editing_move e l (c :: r)); [done | by rewrite <- app_assoc].
  - split; [done|]. exists [c]. split; [done|]. intros Hp _ pre k. exists k. apply Forall_app in Hp as [_ Hp]. apply Forall_cons_1 in Hp as [Hc _].
    apply screen_print; [by repeat constructor | by rewrite <- app_assoc | len].
Qed.

Lemma refresh_edits e l r : editing len e l r -> edits len e l r (REFRESH_TO_EOL e) (l ++ r) [].
Proof.
  intros H. pose proof H as [[rest H1] H2 H3 _ _]. unfold REFRESH_TO_EOL. destruct (Z.ltb_spec (num e) (eol_num e)).
  - split; [|split; [done|]].
    + unfold putnstr. ed_cbn. replace (eol_num e) with (Z.of_nat (length (l ++ r))) at 2 by len. apply (editing_move e l r); [done | by rewrite app_nil_r].
    + unfold putnstr. ed_cbn. eexists. split; [done|]. intros Hp _ pre k. exists k. rewrite H1, H2, Nat2Z.id, drop_app_length.
      replace (Z.to_nat (eol_num e - Z.of_nat (length l))) with (length r) by lia. apply Forall_app in Hp as [_ Hp]. rewrite nstr_print by done.
      apply screen_print; [done | | len]. rewrite drop_app_length. by rewrite <- app_assoc.
  - destruct r; [|cbn [length] in *; lia]. rewrite app_nil_r. by apply edits_nothing.
Qed.

Lemma erase_edits e l r : editing len e l r -> edits len e l r (ERASE_TO_EOL e) l [].
Proof.
  intros H. pose proof H as [[rest H1] H2 H3 H4 H5]. unfold ERASE_TO_EOL. destruct (Z.ltb_spec (num e) (eol_num e)).
  - split; [|split; [done|]].
    + split; ed_cbn; cbn [length]; try lia. exists (r ++ rest). done.
    + ed_cbn. rewrite <- app_assoc. eexists. split; [done|]. intros _ _ pre k. exists (length r + k)%nat.
      replace (Z.to_nat (eol_num e - num e)) with (length r) by lia. assert (Hr : length r = length (replicate (length r) 32)) by by rewrite length_replicate.
      apply screen_over; [apply Forall_replicate; unfold printable; lia | by rewrite length_replicate | | rewrite length_replicate; lia].
      rewrite length_replicate, drop_app_length, replicate_add. done.
  - destruct r; [|cbn [length] in *; lia]. by apply edits_nothing.
Qed.

Lemma kill_edits e l r : editing len e l r -> edits len e l r (ERASE_TO_EOL (BEGINNING_OF_LINE e)) [] [].
Proof.
  intros H. pose proof (begin_edits e l r H) as H1. eapply edits_trans; [|exact H1 | apply erase_edits, H1]. done.
Qed.

(** The right part is printed one place to the left, with a blank behind it. *)
Lemma screen_close pre l c r k : Forall printable r ->
  tputs (screen pre l (c :: r) k) ((r ++ [32]) ++ replicate (S (length r)) 8) = screen pre l r (S k).
Proof.
  intros Hr. apply screen_over; [apply Forall_app; split; [done|]; repeat constructor; unfold printable; lia | len | | len].
  rewrite length_app. cbn [length]. rewrite Nat.add_1_r. cbn [app drop]. rewrite drop_app_length, <- app_assoc. done.
Qed.

Lemma editing_close e e' l c r rest x : editing len e l (c :: r) -> buf e' = l ++ r ++ x :: rest -> length (buf e') = length (buf e) ->
  num e' = Z.of_nat (length l) -> eol_num e' = eol_num e - 1 -> editing len e' l r.
Proof. intros [_ H2 H3 H4 H5] Eb El En Ee. cbn [length] in *. split; [by exists (x :: rest) | lia.. | by rewrite El]. Qed.

Lemma close_buf (l : list Z) (c : Z) (r rest : list Z) : exists x, l ++ r ++ drop (length r) (c :: r ++ rest) = l ++ r ++ x :: rest.
Proof.
  destruct (exists_last (l := c :: r)) as (r0 & x & E); [done|]. exists x. do 2 f_equal. rewrite app_comm_cons, E, <- app_assoc.
  assert (length r = length r0) as -> by (assert (El := f_equal (@length Z) E); rewrite length_app in El; cbn [length] in El; lia). by rewrite drop_app_length.
Qed.

Lemma delete_forward_edits e l c r : editing len e l (c :: r) ->
  exists e', delete_forward e = Some e' /\ edits len e l (c :: r) e' l r.
Proof.
  intros H. pose proof H as [[rest H1] H2 H3 _ _]. cbn [length app] in *. unfold delete_forward. rewrite (proj2 (Z.ltb_lt _ _)) by lia.
  replace (eol_num e - num e - 1) with (Z.of_nat (length r)) by lia. destruct (close_buf l c r rest) as [x Ex].
  assert (Eb : (if negb (Z.of_nat (length r) =? 0) then amove (buf e) (num e) (num e + 1) (Z.of_nat (length r)) else Some (buf e)) = Some (l ++ r ++ x :: rest)).
  { rewrite H1, H2, amove_down, Ex. destruct r as [|y r]; [|done]. cbn in *. by rewrite Ex. }
  rewrite Eb. cbn [mbind option_bind]. eexists. split; [done|].
  assert (Eo : out (if negb (Z.of_nat (length r) =? 0) then putnstr (set_buf e (l ++ r ++ x :: rest)) (Z.of_nat (length r)) else set_buf e (l ++ r ++ x :: rest)) =
    out e ++ nstr (length r) (r ++ x :: rest)).
  { destruct (Z.eqb_spec (Z.of_nat (length r)) 0) as [Hz|Hz]; cbn [negb]; unfold putnstr; ed_cbn.
    - destruct r; [|cbn [length] in *; lia]. by rewrite app_nil_r.
    - by rewrite H2, !Nat2Z.id, drop_app_length. }
  assert (Es : forall q : bool, let e1 := if q then putnstr (set_buf e (l ++ r ++ x :: rest)) (Z.of_nat (length r)) else set_buf e (l ++ r ++ x :: rest) in
    buf e1 = l ++ r ++ x :: rest /\ num e1 = num e /\ eol_num e1 = eol_num e) by (by intros []).
  destruct (Es (negb (Z.of_nat (length r) =? 0))) as (Es1 & Es2 & Es3). split; [|split].
  - eapply (editing_close e); [done | ed_cbn; exact Es1 | ed_cbn; rewrite Es1, H1; len | ed_cbn; lia | ed_cbn; lia].
  - ed_cbn. rewrite Es1, H1. len.
  - ed_cbn. rewrite Eo, <- !app_assoc. eexists. split; [done|]. intros Hp _ pre k. exists (S k). apply Forall_app in Hp as [_ Hp]. apply Forall_cons_1 in Hp as [_ Hp].
    rewrite nstr_print by done. replace (Z.to_nat (Z.of_nat (length r) + 1)) with (S (length r)) by lia. rewrite app_assoc. by apply screen_close.
Qed.

Lemma delete_backward_edits e l c r : editing len e (l ++ [c]) r ->
  exists e', delete_backward e = Some e' /\ edits len e (l ++ [c]) r e' l r.
Proof.
  intros H. pose proof H as [[rest H1] H2 H3 _ _]. rewrite length_app in *. cbn [length] in *. rewrite <- app_assoc in H1. cbn [app] in H1.
  unfold delete_backward. rewrite (proj2 (Z.eqb_neq _ _)) by lia. cbn [negb].
  replace (eol_num e - num e) with (Z.of_nat (length r)) by lia. destruct (close_buf l c r rest) as [x Ex]. ed_cbn.
  replace (num e - 1) with (Z.of_nat (length l)) by lia. rewrite H1, amove_down, Ex. cbn [mbind option_bind]. eexists. split; [done|].
  assert (H' : editing len (mk_ed (buf e) (Z.of_nat (length l)) (eol_num e) (out e)) l (c :: r)).
  { apply (editing_move e (l ++ [c]) r); [done | by rewrite <- app_assoc]. }
  split; [|split].
  - eapply (editing_close _ _ l c r); [exact H' | ed_cbn; done | ed_cbn; rewrite H1; len | done | done].
  - ed_cbn. rewrite H1. len.
  - unfold putnstr. ed_cbn. rewrite !Nat2Z.id, drop_app_length, <- !app_assoc. eexists. split; [done|]. intros Hp _ pre k. exists (S k).
    apply Forall_app in Hp as [_ Hp]. rewrite nstr_print by done. replace (Z.to_nat (Z.of_nat (length r) + 1)) with (S (length r)) by lia.
    rewrite tputs_app. change [CTL_BACKSPACE] with (replicate (length [c]) 8). rewrite screen_back.
    rewrite (app_assoc r). by apply screen_close.
Qed.

(** A string of the history takes the place of the line. *)
Lemma acstr_app s rest : Forall (fun c => c <> 0) s -> acstr (s ++ 0 :: rest) = Some s.
Proof. induction 1 as [|c s Hc Hs IH]; cbn [app acstr]; [done|]. rewrite (proj2 (Z.eqb_neq c 0)) by done. by rewrite IH. Qed.

Lemma acstr_inv b s : acstr b = Some s -> exists rest, b = s ++ 0 :: rest /\ Forall (fun c => c <> 0) s.
Proof.
  revert s. induction b as [|c b IH]; intros s H; cbn [acstr] in H; [done|]. destruct (Z.eqb_spec c 0) as [->|Hc].
  - simplify_eq. exists b. by split; [|constructor].
  - destruct (acstr b) as [t|]; [|done]. cbn [mbind option_bind] in H. simplify_eq. destruct (IH t eq_refl) as (rest & -> & Ht). exists rest. by split; [|constructor].
Qed.

Lemma replace_edits e l r hline : editing len e l r -> Forall (fun c => c <> 0) hline -> Z.of_nat (length hline) <= len ->
  exists e', replace_line e hline = Some e' /\ edits len e l r e' hline [].
Proof.
  intros H Hh Hl. unfold replace_line. pose proof (kill_edits e l r H) as Hk. set (e0 := ERASE_TO_EOL (BEGINNING_OF_LINE e)) in *.
  destruct Hk as ([H1 H2 H3 H4 H5] & L0 & o0 & Eo & P0). unfold astrcpy. rewrite (proj2 (Nat.ltb_lt _ _)) by lia. cbn [mbind option_bind].
  unfold astrlen. rewrite acstr_app by done. cbn [mbind option_bind]. eexists. split; [done|].
  set (e1 := set_eol (set_buf e0 (hline ++ 0 :: drop (S (length hline)) (buf e0))) (Z.of_nat (length hline))).
  assert (Lb : length (hline ++ 0 :: drop (S (length hline)) (buf e0)) = length (buf e0)) by (rewrite length_app; cbn [length]; rewrite length_drop; lia).
  assert (He1 : editing len e1 [] hline).
  { split; unfold e1; ed_cbn; cbn [length] in *; [by eexists | lia.. |]. by rewrite Lb. }
  pose proof (refresh_edits e1 [] hline He1) as (Hr & Lr & o1 & E1 & P1). split; [done|]. split; [rewrite Lr; unfold e1; ed_cbn; by rewrite Lb|].
  exists (o0 ++ o1). split; [rewrite E1; unfold e1; ed_cbn; by rewrite Eo, app_assoc|]. intros Ha Hb pre k. rewrite app_nil_r in Hb.
  destruct (P0 Ha ltac:(constructor) pre k) as [k1 E]. rewrite tputs_app, E.
  assert (Hs : tputs (screen pre [] [] k1) o1 = screen pre hline [] (k1 - length hline)).
  { unfold e1, REFRESH_TO_EOL in E1. ed_cbn. cbn [length Nat.add] in H2. rewrite H2 in E1. destruct (Z.ltb_spec (Z.of_nat 0) (Z.of_nat (length hline))).
    - unfold putnstr in E1. ed_cbn. apply app_inv_head in E1. rewrite H2, Z.sub_0_r, Nat2Z.id in E1. cbn [Z.of_nat Z.to_nat] in E1. rewrite drop_0, nstr_print in E1 by done.
      subst o1. apply screen_print; [done | | cbn [length]; lia]. cbn [app]. f_equal. apply drop_replicate.
    - destruct hline; [|cbn [length] in *; lia]. assert (o1 = []) as ->; [|cbn; by rewrite Nat.sub_0_r]. apply (app_inv_head (out e0)). by rewrite app_nil_r. }
  eauto.
Qed.
End editing.

(** ** The history as a list

    The newest line comes first; the position counts the steps back from the line
    being edited, there is none before the first line was read. *)

Definition HIST_KEPT : nat := Z.to_nat (HIST_MAX - 1).

(** The slot [p] steps before the one for the next line. *)
Definition slot (h : history) (p : nat) : Z :=
  let i := hist_add_idx h - Z.of_nat p in if i <? 0 then i + hist_max h + 1 else i.

Record hist_rep (h : history) (H : list cstr) (pos : option nat) : Prop := {
  hr_idx : 0 <= hist_add_idx h <= hist_max h;
  hr_max : hist_max h <= HIST_MAX - 1;
  hr_full : hist_add_idx h = hist_max h \/ hist_max h = HIST_MAX - 1;
  hr_rows : length (hist_lines h) = Z.to_nat HIST_MAX;
  hr_size : Forall (fun l => length l = Z.to_nat (HIST_SIZE + 1)) (hist_lines h);
  hr_length : Z.of_nat (length H) = hist_max h;
  hr_lines : forall i s, H !! i = Some s -> hist_list h (slot h (S i)) = Some s;
  hr_pos : match pos with None => hist_cur h = -1 | Some p => (p <= length H)%nat /\ hist_cur h = slot h p end }.

Lemma slot_range h H pos p : hist_rep h H pos -> (p <= length H)%nat -> 0 <= slot h p <= hist_max h.
Proof. intros [H1 _ _ _ _ H2 _ _] Hp. unfold slot. cbv zeta. destruct (Z.ltb_spec (hist_add_idx h - Z.of_nat p) 0); lia. Qed.

Lemma slot_ne h H pos p q : hist_rep h H pos -> (p <= length H)%nat -> (q <= length H)%nat -> slot h p = slot h q -> p = q.
Proof.
  intros [H1 _ _ _ _ H2 _ _] Hp Hq. unfold slot. cbv zeta.
  destruct (Z.ltb_spec (hist_add_idx h - Z.of_nat p) 0), (Z.ltb_spec (hist_add_idx h - Z.of_nat q) 0); lia.
Qed.

Lemma hist_rep_pos h H pos p : hist_rep h H pos -> (p <= length H)%nat -> hist_rep (set_cur h (slot h p)) H (Some p).
Proof. intros [] Hp. split; try done. Qed.

Lemma slot_0 h : 0 <= hist_add_idx h -> slot h 0 = hist_add_idx h.
Proof. intros Hh. unfold slot. cbv zeta. rewrite Z.sub_0_r. by rewrite (proj2 (Z.ltb_ge _ _)) by lia. Qed.

(** One step back. *)
Definition older (H : list cstr) (pos : option nat) : option cstr * option nat :=
  match pos with
  | None => (None, None)
  | Some p => match H !! p with Some s => (Some s, Some (S p)) | None => (None, Some p) end
  end.
(** One step forward; the line after the newest is empty. *)
Definition newer (H : list cstr) (pos : option nat) : option cstr * option nat :=
  match pos with
  | None => (None, None)
  | Some O => (None, Some O)
  | Some (S O) => (Some [], Some O)
  | Some (S (S p)) => (H !! p, Some (S p))
  end.

Lemma hist_prev_older h H pos : hist_rep h H pos ->
  exists h', hist_prev h = Some (fst (older H pos), h') /\ hist_rep h' H (snd (older H pos)).
Proof.
  intros HR. pose proof HR as [H1 H2 H3 H4 H5 H6 H7 H8]. unfold hist_prev. destruct pos as [p|]; cbn [older fst snd].
  2:{ rewrite H8. eauto. }
  destruct H8 as [Hp H8]. pose proof (slot_range h H _ p HR Hp). rewrite (proj2 (Z.ltb_ge _ _)) by lia.
  destruct (H !! p) as [s|] eqn:E; cbn [fst snd].
  - apply lookup_lt_Some in E as Hlt.
    assert (Ec : (if hist_cur h - 1 <? 0 then hist_max h else hist_cur h - 1) = slot h (S p)).
    { rewrite H8. unfold slot. cbv zeta. destruct (Z.ltb_spec (hist_add_idx h - Z.of_nat p) 0), (Z.ltb_spec (hist_add_idx h - Z.of_nat (S p)) 0); zcase; lia. }
    rewrite Ec. rewrite (proj2 (Z.eqb_neq _ _)).
    2:{ rewrite <- (slot_0 h) by lia. intros E0. apply (slot_ne h H _ _ _ HR) in E0; lia. }
    rewrite (H7 p s E). cbn [mbind option_bind]. eexists. split; [done|]. eapply hist_rep_pos; [done | lia].
  - apply lookup_ge_None in E. assert (p = length H) as -> by lia.
    rewrite (proj2 (Z.eqb_eq _ _)); [eauto|]. rewrite H8. unfold slot. cbv zeta.
    destruct (Z.ltb_spec (hist_add_idx h - Z.of_nat (length H)) 0); zcase; lia.
Qed.

Lemma hist_next_newer h H pos : hist_rep h H pos ->
  exists h', hist_next h = Some (fst (newer H pos), h') /\ hist_rep h' H (snd (newer H pos)).
Proof.
  intros HR. pose proof HR as [H1 H2 H3 H4 H5 H6 H7 H8]. unfold hist_next. destruct pos as [p|]; cbn [newer fst snd].
  2:{ rewrite H8. eauto. }
  destruct H8 as [Hp H8]. pose proof (slot_range h H _ p HR Hp). rewrite (proj2 (Z.ltb_ge _ _)) by lia. destruct p as [|p].
  { rewrite H8, slot_0, Z.eqb_refl by lia. cbn [fst snd]. eauto. }
  rewrite (proj2 (Z.eqb_neq _ _)). 2:{ rewrite H8. rewrite <- (slot_0 h) by lia. intros E0. apply (slot_ne h H _ _ _ HR) in E0; lia. }
  assert (Ec : (if hist_max h <? hist_cur h + 1 then 0 else hist_cur h + 1) = slot h p).
  { rewrite H8. unfold slot. cbv zeta. destruct (Z.ltb_spec (hist_add_idx h - Z.of_nat p) 0), (Z.ltb_spec (hist_add_idx h - Z.of_nat (S p)) 0); zcase; lia. }
  rewrite Ec. destruct p as [|p].
  - rewrite slot_0, Z.eqb_refl by lia. cbn [fst snd]. eexists. split; [done|]. rewrite <- (slot_0 h) by lia. eapply hist_rep_pos; [done | lia].
  - rewrite (proj2 (Z.eqb_neq _ _)). 2:{ rewrite <- (slot_0 h) by lia. intros E0. apply (slot_ne h H _ _ _ HR) in E0; lia. }
    destruct (lookup_lt_is_Some_2 H p) as [s E]; [lia|]. rewrite (H7 p s E), E. cbn [mbind option_bind fst snd]. eexists. split; [done|]. eapply hist_rep_pos; [done | lia].
Qed.

(** A line is added; the newest [HIST_KEPT] lines are kept. *)
Lemma add_to_hist_rep h H pos line : hist_rep h H pos -> Forall (fun c => c <> 0) line -> Z.of_nat (length line) <= HIST_SIZE ->
  exists h', cread_add_to_hist h line = Some h' /\ hist_rep (set_cur h' (hist_add_idx h')) (take HIST_KEPT (line :: H)) (Some O).
Proof.
  intros HR Hline Hl. pose proof HR as [H1 H2 H3 H4 H5 H6 H7 H8]. unfold cread_add_to_hist. unfold HIST_MAX, HIST_SIZE in *. 
  destruct (aget_is_Some (hist_lines h) (hist_add_idx h)) as [old Eo]; [lia|]. rewrite Eo. cbn [mbind option_bind].
  assert (Hold : length old = Z.to_nat (CONFIG_SYS_CBSIZE + 1)).
  { rewrite aget_lookup in Eo by lia. exact (Forall_lookup_1 _ _ _ _ H5 Eo). }
  unfold astrcpy. rewrite (proj2 (Nat.ltb_lt _ _)) by lia. cbn [mbind option_bind]. rewrite aset_Some by lia. cbn [mbind option_bind].
  eexists. split; [done|]. set (new := line ++ 0 :: drop (S (length line)) old).
  assert (Hnew : length new = Z.to_nat (CONFIG_SYS_CBSIZE + 1)) by (unfold new; rewrite length_app; cbn [length]; rewrite length_drop; lia).
  set (idx := if 20 <=? hist_add_idx h + 1 then 0 else hist_add_idx h + 1).
  set (h' := mk_hist _ _ _ _ _). set (h2 := set_cur h' (hist_add_idx h')).
  assert (Hidx : 0 <= idx <= hist_max h2 /\ hist_max h2 <= 19 /\ (idx = hist_max h2 \/ hist_max h2 = 19) /\
    hist_max h2 = Z.min 19 (hist_max h + 1) /\ (idx = hist_add_idx h + 1 \/ (idx = 0 /\ hist_add_idx h = 19 /\ hist_max h = 19))).
  { cbn [h2 h' set_cur hist_max hist_add_idx]. unfold idx. destruct (Z.leb_spec 20 (hist_add_idx h + 1)); zcase; lia. }
  destruct Hidx as (I1 & I2 & I3 & I4 & I5).
  assert (Hkeep : length (take HIST_KEPT (line :: H)) = Z.to_nat (hist_max h2)) by (rewrite length_take; cbn [length]; unfold HIST_KEPT, HIST_MAX; lia).
  assert (Hslot : forall i, (i < length (take HIST_KEPT (line :: H)))%nat -> slot h2 (S i) = slot h i).
  { intros i Hi. unfold slot. cbn [h2 h' set_cur hist_max hist_add_idx] in *. fold idx in I4 |- *. cbv zeta.
    destruct (Z.ltb_spec (idx - Z.of_nat (S i)) 0), (Z.ltb_spec (hist_add_idx h - Z.of_nat i) 0); lia. }
  split; try done.
  - cbn [h2 h' set_cur hist_lines]. by rewrite length_insert.
  - cbn [h2 h' set_cur hist_lines]. apply Forall_insert; [done|]. done.
  - rewrite Hkeep. lia.
  - intros i s Hi. rewrite Hslot by (by eapply lookup_lt_Some). unfold hist_list. cbn [h2 h' set_cur hist_lines]. apply lookup_take_Some in Hi as [Hi Hik].
    destruct i as [|i]; cbn in Hi.
    + simplify_eq. rewrite slot_0, aget_lookup, list_lookup_insert_eq by lia. cbn [mbind option_bind]. by apply acstr_app.
    + pose proof (lookup_lt_Some _ _ _ Hi). pose proof (slot_range h H pos (S i) HR ltac:(lia)). rewrite <- (H7 i s Hi). unfold hist_list.
      rewrite !aget_lookup by lia. rewrite list_lookup_insert_ne; [done|].
      intros E0. assert (Es : slot h (S i) = slot h 0) by (rewrite slot_0; lia). apply (slot_ne h H pos _ _ HR) in Es; lia.
  - split; [lia|]. by rewrite slot_0 by exact (proj1 I1).
Qed.

(** ** The editor as a machine on lines *)

Inductive action := Home | End_ | Left_ | Right_ | Delete | Backspace | KillEnd | KillLine | Overwrite | Older | Newer | Char (c : Z).

(** The line before and after the cursor, the mode, the escape sequence read so far,
    the lines of the history and the position in it. *)
Record view := mk_view { v_left : list Z; v_right : list Z; v_ins : bool; v_esc : list Z; v_lines : list cstr; v_pos : option nat }.
Definition v_line (v : view) : list Z := v_left v ++ v_right v.
Definition moved (v : view) (lr : list Z * list Z) : view := mk_view (fst lr) (snd lr) (v_ins v) (v_esc v) (v_lines v) (v_pos v).
Definition recalled (v : view) (r : option cstr * option nat) : view :=
  match fst r with
  | Some s => mk_view s [] (v_ins v) (v_esc v) (v_lines v) (snd r)
  | None => mk_view (v_left v) (v_right v) (v_ins v) (v_esc v) (v_lines v) (snd r)
  end.

Definition act (len : Z) (v : view) (a : action) : view :=
  let l := v_left v in let r := v_right v in
  match a with
  | Home => moved v ([], l ++ r)
  | End_ => moved v (l ++ r, [])
  | Left_ => moved v (removelast l, match list.last l with Some c => c :: r | None => r end)
  | Right_ => moved v (l ++ take 1 r, drop 1 r)
  | Delete => moved v (l, drop 1 r)
  | Backspace => moved v (removelast l, r)
  | KillEnd => moved v (l, [])
  | KillLine => moved v ([], [])
  | Overwrite => mk_view l r (negb (v_ins v)) (v_esc v) (v_lines v) (v_pos v)
  | Older => recalled v (older (v_lines v) (v_pos v))
  | Newer => recalled v (newer (v_lines v) (v_pos v))
  | Char c => moved v (typed len (v_ins v) c l r)
  end.

(** The actions of the control keys. *)
Definition keymap : list (Z * action) :=
  [(CTL_CH 97, Home); (CTL_CH 102, Right_); (CTL_CH 98, Left_); (CTL_CH 100, Delete); (CTL_CH 107, KillEnd); (CTL_CH 101, End_);
   (CTL_CH 111, Overwrite); (CTL_CH 120, KillLine); (CTL_CH 117, KillLine); (DEL, Backspace); (DEL7, Backspace); (8, Backspace);
   (CTL_CH 112, Older); (CTL_CH 110, Newer)].
Fixpoint lookup_key (km : list (Z * action)) (k : Z) : action :=
  match km with [] => Char k | (k', a) :: km => if k =? k' then a else lookup_key km k end.

Inductive view_result := VNext (v : view) | VLine (v : view) | VBreak (v : view).
Definition with_vesc (v : view) (e : list Z) : view := mk_view (v_left v) (v_right v) (v_ins v) e (v_lines v) (v_pos v).

Definition plain_key (len : Z) (v : view) (k : Z) : view_result :=
  if k =? 27 then VNext (with_vesc v [27])
  else if k =? CTL_CH 99 then VBreak v
  else VNext (act len v (lookup_key keymap k)).

Definition view_key (len : Z) (v : view) (k : Z) : view_result :=
  if (k =? 10) || (k =? 13) then VLine v
  else
    let typing cs := VNext (with_vesc (fold_left (fun v c => act len v (Char c)) cs v) []) in
    match v_esc v with
    | [] => plain_key len v k
    | [c] => if k =? 91 then VNext (with_vesc v [c; 91]) else typing [c]
    | e => match esc_key k with Some k' => plain_key len (with_vesc v []) k' | None => typing (e ++ [k]) end
    end.

Fixpoint view_loop (len : Z) (v : view) (keys : list Z) : view_result :=
  match keys with
  | [] => VNext v
  | k :: keys => match view_key len v k with VNext v => view_loop len v keys | r => r end
  end.

(** The lines seen on the way. *)
Fixpoint view_trace (len : Z) (v : view) (keys : list Z) : list view :=
  v :: match keys with
       | [] => []
       | k :: keys => match view_key len v k with VNext v => view_trace len v keys | _ => [] end
       end.

Definition upto0 (l : list Z) : cstr := nstr (length l) l.
(** The history after a line. *)
Definition remember (line : list Z) (lines : list cstr) : list cstr :=
  match line with
  | c :: _ => if (c =? 0) || (c =? CREAD_HIST_CHAR) then lines else take HIST_KEPT (upto0 line :: lines)
  | [] => lines
  end.

(** ** The code follows the machine *)

Section machine.
Context {world : Type} (table : list (@cmd_tbl_s world)) (complete : @cmd_tbl_s world -> option (list cstr -> Z -> Z -> Z * list cstr)).
Context (CONFIG_SYS_PROMPT : cstr) (prompt : option cstr).

Record shows (s : line_state) (v : view) : Prop := {
  sh_edit : editing HIST_SIZE (edit s) (v_left v) (v_right v);
  sh_ins : insert s = v_ins v;
  sh_esc : esc_len s = Z.of_nat (length (v_esc v)) /\ (length (v_esc v) <= 2)%nat /\ exists rest, esc_save s = v_esc v ++ rest /\ length (esc_save s) = 8%nat;
  sh_hist : hist_rep (hist s) (v_lines v) (v_pos v);
  sh_lines : Forall (Forall (fun c => c <> 0)) (v_lines v);
  sh_short : Forall (fun l => Z.of_nat (length l) <= HIST_SIZE) (v_lines v) }.

(** The line [v] became [v'], also on the screen. *)
Definition follows (s : line_state) (v : view) (s' : line_state) (v' : view) : Prop :=
  shows s' v' /\ exists o, out (edit s') = out (edit s) ++ o /\ paints o (v_left v) (v_right v) (v_left v') (v_right v').

Lemma follows_edit s v e' l' r' : shows s v -> edits HIST_SIZE (edit s) (v_left v) (v_right v) e' l' r' ->
  follows s v (with_edit s e') (moved v (l', r')).
Proof. intros [] (H & _ & Ho). split; [by split | done]. Qed.

Lemma sh_len : 0 < HIST_SIZE < 2 ^ 32.
Proof. unfold HIST_SIZE, CONFIG_SYS_CBSIZE. lia. Qed.
Local Hint Resolve sh_len : core.

Lemma removelast_snoc (l : list Z) c : removelast (l ++ [c]) = l.
Proof. apply removelast_last. Qed.

(** The keys that move or delete. *)
Lemma run_left s v : shows s v ->
  follows s v (with_edit s (if negb (num (edit s) =? 0) then set_num (getcmd_putch (edit s) CTL_BACKSPACE) (num (edit s) - 1) else edit s)) (act HIST_SIZE v Left_).
Proof.
  intros H. pose proof (sh_edit _ _ H) as He. apply follows_edit; [done|]. cbn [act fst snd moved].
  destruct (v_left v) as [|c0 l0 _] eqn:El using rev_ind.
  - pose proof (ed_num _ _ _ _ He) as Hn. cbn [length] in Hn. rewrite Hn. cbn. by apply edits_nothing.
  - destruct (left_edits _ _ _ _ _ He) as [Hn Hl]. rewrite (proj2 (Z.eqb_neq _ _)) by done. cbn [negb]. by rewrite removelast_snoc, last_snoc.
Qed.

Lemma run_right s v : shows s v ->
  exists e', (if num (edit s) <? eol_num (edit s) then c ← aget (buf (edit s)) (num (edit s)); Some (set_num (getcmd_putch (edit s) c) (num (edit s) + 1)) else Some (edit s)) = Some e' /\
    follows s v (with_edit s e') (act HIST_SIZE v Right_).
Proof.
  intros H. pose proof (sh_edit _ _ H) as He. cbn [act]. destruct (v_right v) as [|c r] eqn:Er.
  - pose proof (ed_num _ _ _ _ He) as Hn. pose proof (ed_eol _ _ _ _ He) as Hn2. cbn [length] in Hn2. rewrite (proj2 (Z.ltb_ge _ _)) by lia. eexists. split; [done|].
    apply follows_edit; [done|]. rewrite Er. cbn [take drop]. rewrite app_nil_r. by apply edits_nothing.
  - destruct (right_edits _ _ _ _ _ He) as (H1 & H2 & H3). rewrite (proj2 (Z.ltb_lt _ _)) by done. rewrite H2. cbn [mbind option_bind]. eexists. split; [done|].
    apply follows_edit; [done|]. by rewrite Er.
Qed.

Lemma run_delete s v : shows s v -> exists e', delete_forward (edit s) = Some e' /\ follows s v (with_edit s e') (act HIST_SIZE v Delete).
Proof.
  intros H. pose proof (sh_edit _ _ H) as He. cbn [act]. destruct (v_right v) as [|c r] eqn:Er.
  - pose proof (ed_num _ _ _ _ He) as Hn. pose proof (ed_eol _ _ _ _ He) as Hn2. cbn [length] in Hn2. unfold delete_forward. rewrite (proj2 (Z.ltb_ge _ _)) by lia.
    eexists. split; [done|]. apply follows_edit; [done|]. rewrite Er. by apply edits_nothing.
  - destruct (delete_forward_edits _ _ _ _ _ He) as (e' & E & H1). exists e'. split; [done|]. apply follows_edit; [done|]. by rewrite Er.
Qed.

Lemma run_backspace s v : shows s v -> exists e', delete_backward (edit s) = Some e' /\ follows s v (with_edit s e') (act HIST_SIZE v Backspace).
Proof.
  intros H. pose proof (sh_edit _ _ H) as He. cbn [act]. destruct (v_left v) as [|c0 l0 _] eqn:El using rev_ind.
  - pose proof (ed_num _ _ _ _ He) as Hn. cbn [length] in Hn. unfold delete_backward. rewrite Hn. cbn. eexists. split; [done|].
    apply follows_edit; [done|]. rewrite El. by apply edits_nothing.
  - destruct (delete_backward_edits _ _ _ _ _ He) as (e' & E & H1). exists e'. split; [done|]. apply follows_edit; [done|]. by rewrite El, removelast_snoc.
Qed.

Lemma run_char s v c : shows s v ->
  exists e', cread_add_char c (insert s) HIST_SIZE (edit s) = Some e' /\ follows s v (with_edit s e') (act HIST_SIZE v (Char c)).
Proof.
  intros H. destruct (add_char_edits HIST_SIZE sh_len c (insert s) _ _ _ (sh_edit _ _ H)) as (e' & E & H1). exists e'. split; [done|].
  cbn [act]. rewrite (sh_ins _ _ H) in H1. destruct (typed HIST_SIZE (v_ins v) c (v_left v) (v_right v)) as [l' r']. by apply follows_edit.
Qed.

(** The keys of the history. *)
Lemma run_recall s v hline pos' h' : shows s v -> hist_rep h' (v_lines v) pos' ->
  (forall l, hline = Some l -> Forall (fun c => c <> 0) l /\ Z.of_nat (length l) <= HIST_SIZE) ->
  exists e', match hline with None => Some (getcmd_cbeep (edit s)) | Some l => replace_line (edit s) l end = Some e' /\
    (esc_len s = 0 -> follows s v (mk_ls e' (insert s) 0 (esc_save s) h') (recalled v (hline, pos'))).
Proof.
  intros H Hh Hl. pose proof (sh_edit _ _ H) as He. unfold recalled. cbn [fst snd].
  assert (Hend : forall e' l' r', edits HIST_SIZE (edit s) (v_left v) (v_right v) e' l' r' -> esc_len s = 0 ->
    follows s v (mk_ls e' (insert s) 0 (esc_save s) h') (mk_view l' r' (v_ins v) (v_esc v) (v_lines v) pos')).
  { intros e' l' r' (H1 & _ & Ho) Hz. split; [|done]. destruct H as [_ Hi Hesc _ Hli Hsh]. rewrite Hz in Hesc. by split. }
  destruct hline as [l|].
  - destruct (Hl l eq_refl) as [Hl1 Hl2]. destruct (replace_edits HIST_SIZE _ _ _ l He Hl1 Hl2) as (e' & E & H1). exists e'. split; [done|]. by apply Hend.
  - eexists. split; [done|]. apply Hend. by apply edits_bell.
Qed.

Lemma older_line s v l : shows s v -> fst (older (v_lines v) (v_pos v)) = Some l -> Forall (fun c => c <> 0) l /\ Z.of_nat (length l) <= HIST_SIZE.
Proof.
  intros H. pose proof (sh_lines _ _ H) as H1. pose proof (sh_short _ _ H) as H2. destruct (v_pos v) as [p|]; cbn [older]; [|done].
  destruct (v_lines v !! p) as [x|] eqn:E; cbn [fst]; [|done]. intros ?; simplify_eq. split; [exact (Forall_lookup_1 _ _ _ _ H1 E) | exact (Forall_lookup_1 _ _ _ _ H2 E)].
Qed.

Lemma newer_line s v l : shows s v -> fst (newer (v_lines v) (v_pos v)) = Some l -> Forall (fun c => c <> 0) l /\ Z.of_nat (length l) <= HIST_SIZE.
Proof.
  intros H. pose proof (sh_lines _ _ H) as H1. pose proof (sh_short _ _ H) as H2. destruct (v_pos v) as [[|[|p]]|]; cbn [newer fst]; try done.
  - intros ?; simplify_eq. split; [constructor | cbn; unfold HIST_SIZE, CONFIG_SYS_CBSIZE; lia].
  - intros E. split; [exact (Forall_lookup_1 _ _ _ _ H1 E) | exact (Forall_lookup_1 _ _ _ _ H2 E)].
Qed.

(** The results of a key agree. *)
Definition agrees (s : line_state) (v : view) (r : key_result) (vr : view_result) : Prop :=
  match r, vr with
  | Next s', VNext v' => follows s v s' v'
  | Enter s', VLine v' => v' = v /\ s' = with_edit s (getcmd_putch (edit s) 10)
  | Interrupt s', VBreak v' => v' = v /\ hist s' = hist s /\ (exists rest, buf (edit s') = 0 :: rest) /\ out (edit s') = out (edit s)
  | _, _ => False
  end.

Lemma run_switch s v k : shows s v -> v_esc v = [] -> k <> 9 ->
  exists r, key_switch table complete CONFIG_SYS_PROMPT prompt HIST_SIZE s k = Some r /\ agrees s v r (plain_key HIST_SIZE v k).
Proof.
  intros H Hesc Hk. pose proof (sh_edit _ _ H) as He. destruct (sh_esc _ _ H) as (E1 & _ & rest & E2 & E3). rewrite Hesc in E1, E2. cbn [length app] in *.
  unfold key_switch, plain_key. destruct (Z.eqb_spec k 27) as [->|Hk1].
  { rewrite E1. cbn [Z.eqb]. change (Z.of_nat 0 =? 0) with true. cbv iota. rewrite aset_Some by (rewrite E3; lia). cbn [mbind option_bind]. eexists. split; [done|].
    split; [|exists []; split; [by rewrite app_nil_r | apply paints_nothing]]. destruct H as [? ? _ ? ? ?]. split; try done. cbn [with_esc with_vesc esc_len v_esc esc_save length].
    split; [done|]. split; [lia|]. destruct (esc_save s) as [|c0 cs]; [done|]. exists cs. split; [done | by rewrite length_insert]. }
  cbn [lookup_key keymap]. destruct (Z.eqb_spec k (CTL_CH 97)) as [->|Hk2].
  { eexists. split; [done|]. cbn. apply follows_edit; [done|]. by apply begin_edits. }
  destruct (Z.eqb_spec k (CTL_CH 99)) as [->|Hk3].
  { rewrite aset_Some by (pose proof (ed_room _ _ _ _ He); unfold HIST_SIZE, CONFIG_SYS_CBSIZE in *; lia). cbn [mbind option_bind]. eexists. split; [done|].
    cbn. split_and!; [done | done | | done]. destruct (buf (edit s)) eqn:Eb; [pose proof (ed_room _ _ _ _ He) as Hr; rewrite Eb in Hr; cbn in Hr; unfold HIST_SIZE, CONFIG_SYS_CBSIZE in *; lia|]. by eexists. }
  destruct (Z.eqb_spec k (CTL_CH 102)) as [->|Hk4]; [destruct (run_right s v H) as (e' & E & Hf); rewrite E; eauto|].
  destruct (Z.eqb_spec k (CTL_CH 98)) as [->|Hk5]; [eexists; split; [done|]; by apply run_left|].
  destruct (Z.eqb_spec k (CTL_CH 100)) as [->|Hk6]; [destruct (run_delete s v H) as (e' & E & Hf); rewrite E; eauto|].
  destruct (Z.eqb_spec k (CTL_CH 107)) as [->|Hk7]; [eexists; split; [done|]; cbn; apply follows_edit; [done|]; by apply erase_edits|].
  destruct (Z.eqb_spec k (CTL_CH 101)) as [->|Hk8]; [eexists; split; [done|]; cbn; apply follows_edit; [done|]; by apply refresh_edits|].
  destruct (Z.eqb_spec k (CTL_CH 111)) as [->|Hk9].
  { eexists. split; [done|]. split; [|exists []; split; [by rewrite app_nil_r | apply paints_nothing]]. destruct H as [? Hi ? ? ? ?]. split; try done. cbn. by rewrite Hi. }
  destruct (Z.eqb_spec k (CTL_CH 120)) as [->|Hk10]; [eexists; split; [done|]; cbn; apply follows_edit; [done|]; by apply kill_edits|].
  destruct (Z.eqb_spec k (CTL_CH 117)) as [->|Hk11]; [eexists; split; [done|]; cbn; apply follows_edit; [done|]; by apply kill_edits|].
  cbn [orb]. destruct (Z.eqb_spec k DEL) as [->|Hk12]; [cbn [orb]; destruct (run_backspace s v H) as (e' & E & Hf); rewrite E; eauto|].
  destruct (Z.eqb_spec k DEL7) as [->|Hk13]; [cbn [orb]; destruct (run_backspace s v H) as (e' & E & Hf); rewrite E; eauto|].
  destruct (Z.eqb_spec k 8) as [->|Hk14]; [cbn [orb]; destruct (run_backspace s v H) as (e' & E & Hf); rewrite E; eauto|]. cbn [orb].
  destruct (Z.eqb_spec k (CTL_CH 112)) as [->|Hk15].
  { cbn [orb]. destruct (hist_prev_older _ _ _ (sh_hist _ _ H)) as (h' & -> & Hh). cbn [mbind option_bind].
    destruct (run_recall s v _ _ h' H Hh (fun l => older_line s v l H)) as (e' & -> & Hf). cbn [mbind option_bind]. eexists. split; [done|].
    cbn [agrees act]. destruct (older (v_lines v) (v_pos v)). by apply Hf. }
  destruct (Z.eqb_spec k (CTL_CH 110)) as [->|Hk16].
  { cbn [orb]. destruct (hist_next_newer _ _ _ (sh_hist _ _ H)) as (h' & -> & Hh). cbn [mbind option_bind].
    destruct (run_recall s v _ _ h' H Hh (fun l => newer_line s v l H)) as (e' & -> & Hf). cbn [mbind option_bind]. eexists. split; [done|].
    cbn [agrees act]. destruct (newer (v_lines v) (v_pos v)). by apply Hf. }
  cbn [orb]. rewrite (proj2 (Z.eqb_neq k 9)) by done. destruct (run_char s v k H) as (e' & E & Hf). rewrite E. eauto.
Qed.

(** Typing only adds to the left part and takes from the right part. *)
Lemma typed_parts ins c l r : let '(l', r') := typed HIST_SIZE ins c l r in (exists t, l' = l ++ t) /\ (exists u, r = u ++ r').
Proof.
  unfold typed. destruct ins, r as [|x r]; try destruct (HIST_SIZE <=? _); split; try (by exists []; rewrite ?app_nil_r); try (by eexists); by exists [x].
Qed.

Definition type_all (v : view) (cs : list Z) : view := fold_left (fun v c => act HIST_SIZE v (Char c)) cs v.

Lemma type_all_parts cs : forall v, (exists t, v_left (type_all v cs) = v_left v ++ t) /\ (exists u, v_right v = u ++ v_right (type_all v cs)).
Proof.
  induction cs as [|c cs IH]; intros v; cbn [type_all fold_left]; [split; [exists [] | exists []]; by rewrite ?app_nil_r|].
  fold (type_all (act HIST_SIZE v (Char c)) cs). destruct (IH (act HIST_SIZE v (Char c))) as [[t Ht] [u Hu]]. pose proof (typed_parts (v_ins v) c (v_left v) (v_right v)) as Hp.
  cbn [act moved v_left v_right] in *. destruct (typed HIST_SIZE (v_ins v) c (v_left v) (v_right v)) as [l' r']. cbn [fst snd] in *. destruct Hp as [[t' ->] [u' Hu']].
  split; [exists (t' ++ t) | exists (u' ++ u)]; [by rewrite Ht, app_assoc | rewrite Hu'; rewrite Hu at 1; by rewrite app_assoc].
Qed.

Lemma run_add_str cs : forall s v, shows s v ->
  exists e', cread_add_str cs (insert s) HIST_SIZE (edit s) = Some e' /\ follows s v (with_edit s e') (type_all v cs).
Proof.
  induction cs as [|c cs IH]; intros s v H; cbn [cread_add_str type_all fold_left].
  { exists (edit s). split; [done|]. split; [by destruct H; split|]. exists []. split; [by rewrite app_nil_r | apply paints_nothing]. }
  destruct (run_char s v c H) as (e1 & -> & H1 & o1 & Eo1 & P1). cbn [mbind option_bind]. destruct (IH _ _ H1) as (e2 & E2 & H2 & o2 & Eo2 & P2).
  exists e2. split; [done|]. split; [done|]. fold (type_all (act HIST_SIZE v (Char c)) cs) in *. exists (o1 ++ o2). cbn [with_edit edit] in *. split; [by rewrite Eo2, Eo1, app_assoc|].
  intros Ha Hb pre k. destruct (type_all_parts cs (act HIST_SIZE v (Char c))) as [[t Ht] _]. pose proof (typed_parts (v_ins v) c (v_left v) (v_right v)) as Hp.
  assert (Hm : Forall printable (v_left (act HIST_SIZE v (Char c)) ++ v_right (act HIST_SIZE v (Char c)))).
  { cbn [act moved v_left v_right] in *. destruct (typed HIST_SIZE (v_ins v) c (v_left v) (v_right v)) as [l' r']. cbn [fst snd] in *. destruct Hp as [_ [u Hu]].
    rewrite Ht in Hb. rewrite Hu in Ha. repeat rewrite Forall_app in *. naive_solver. }
  destruct (P1 Ha Hm pre k) as [k1 E]. destruct (P2 Hm Hb pre k1) as [k2 E']. exists k2. by rewrite tputs_app, E.
Qed.

Lemma type_all_esc cs : forall v, v_esc (type_all v cs) = v_esc v.
Proof. induction cs as [|c cs IH]; intros v; cbn [type_all fold_left]; [done|]. fold (type_all (act HIST_SIZE v (Char c)) cs). by rewrite IH. Qed.

Lemma follows_esc s v s' v' n sv e : follows s v s' v' -> n = Z.of_nat (length e) -> (length e <= 2)%nat ->
  (exists rest, sv = e ++ rest /\ length sv = 8%nat) -> follows s v (with_esc s' n sv) (with_vesc v' e).
Proof. intros [[] Ho] Hn He Hr. split; [by split | done]. Qed.

Lemma esc_key_cases k k' : esc_key k = Some k' -> k' = 2 \/ k' = 6 \/ k' = 1 \/ k' = 16 \/ k' = 14.
Proof. unfold esc_key. repeat zcase; intros E; simplify_eq; vm_compute; auto 10. Qed.

(** One key. *)
Lemma run_key s v k : shows s v -> k <> 9 ->
  exists r, cread_key table complete CONFIG_SYS_PROMPT prompt HIST_SIZE s k = Some r /\ agrees s v r (view_key HIST_SIZE v k).
Proof.
  intros H Hk. unfold cread_key, view_key. destruct ((k =? 10) || (k =? 13)); [by eexists|].
  destruct (sh_esc _ _ H) as (E1 & E2 & rest & E3 & E4). assert (Hnothing : follows s v s v).
  { split; [done|]. exists []. split; [by rewrite app_nil_r | apply paints_nothing]. }
  destruct (v_esc v) as [|c [|c2 [|]]] eqn:Ev; cbn [length app] in *; rewrite ?E1; try lia.
  - by apply run_switch.
  - change (Z.of_nat 1 =? 0) with false. change (Z.of_nat 1 =? 1) with true. cbn [negb]. cbv iota. destruct (Z.eqb_spec k 91) as [->|Hk1].
    + rewrite aset_Some by (rewrite E4; lia). cbn [mbind option_bind]. eexists. split; [done|]. apply follows_esc; [done | done | cbn; lia|].
      rewrite E3. destruct rest as [|x rest]; [rewrite E3 in E4; cbn in E4; lia|]. exists rest. split; [done|]. rewrite <- E4, E3. done.
    + assert (take 1 (esc_save s) = [c]) as -> by (by rewrite E3). destruct (run_add_str [c] s v H) as (e' & -> & Hf). cbn [mbind option_bind]. eexists. split; [done|]. 
      apply follows_esc; [done | done | cbn; lia | by exists (esc_save s)].
  - change (Z.of_nat 2 =? 0) with false. change (Z.of_nat 2 =? 1) with false. cbn [negb]. cbv iota. destruct (esc_key k) as [k'|] eqn:Ek.
    + assert (H' : shows (with_esc s 0 (esc_save s)) (with_vesc v [])).
      { apply (follows_esc s v s v 0 (esc_save s) [] Hnothing); [done | cbn; lia | by exists (esc_save s)]. }
      destruct (run_switch _ _ k' H' eq_refl) as (r & E & Ha); [destruct (esc_key_cases _ _ Ek); lia|].
      exists r. split; [done|]. destruct (esc_key_cases _ _ Ek) as [-> |[-> |[-> |[-> | ->]]]]; destruct r; done.
    + rewrite aset_Some by (rewrite E4; lia). cbn [mbind option_bind].
      destruct rest as [|x rest]; [rewrite E3 in E4; cbn in E4; lia|]. rewrite E3. cbn [Z.to_nat Pos.to_nat insert list_insert Pos.iter_op].
      change (take (Z.to_nat (Z.of_nat 2 + 1)) (<[Z.to_nat (Z.of_nat 2):=k]> (c :: c2 :: x :: rest))) with [c; c2; k].
      destruct (run_add_str [c; c2; k] s v H) as (e' & -> & Hf). cbn [mbind option_bind]. eexists. split; [done|].
      apply follows_esc; [done | done | cbn; lia |]. eexists. split; [done|]. rewrite <- E4, E3. done.
Qed.

(** ** Whole lines *)

Definition visible (v : view) : Prop := Forall printable (v_line v).

Lemma nstr_upto0 l rest : acstr (l ++ 0 :: rest) = Some (upto0 l).
Proof. unfold upto0. induction l as [|c l IH]; cbn [app acstr length nstr]; [done|]. destruct (c =? 0); [done|]. by rewrite IH. Qed.

Lemma upto0_ok l : Forall (fun c => c <> 0) (upto0 l) /\ (length (upto0 l) <= length l)%nat.
Proof.
  unfold upto0. induction l as [|c l [IH1 IH2]]; cbn [length nstr]; [split; [constructor | lia]|].
  destruct (Z.eqb_spec c 0); [split; [constructor | cbn; lia]|]. split; [by constructor | cbn [length]; lia].
Qed.

(** The end of a line: it is terminated and goes to the history. *)
Lemma run_enter s v : shows s v ->
  exists b h rest, aset (buf (edit s)) (eol_num (edit s)) 0 = Some b /\ b = v_line v ++ 0 :: rest /\
    (c ← aget b 0; h ← (if negb (c =? 0) && negb (c =? CREAD_HIST_CHAR) then line ← acstr b; cread_add_to_hist (hist s) line else Some (hist s)); Some h) = Some h /\
    hist_rep (set_cur h (hist_add_idx h)) (remember (v_line v) (v_lines v)) (Some O).
Proof.
  intros H. pose proof (sh_edit _ _ H) as He. pose proof (sh_hist _ _ H) as Hh.
  destruct (editing_rest HIST_SIZE _ _ _ He) as (x & rest & Eb); [pose proof (ed_len _ _ _ _ He); pose proof (ed_room _ _ _ _ He); lia|].
  pose proof (ed_eol _ _ _ _ He) as Ee. pose proof (ed_len _ _ _ _ He) as El. rewrite app_assoc in Eb. fold (v_line v) in Eb. rewrite <- length_app in Ee, El. fold (v_line v) in Ee, El.
  rewrite Eb, aset_mid by done. exists (v_line v ++ 0 :: rest).
  assert (Hsame : hist_rep (set_cur (hist s) (hist_add_idx (hist s))) (v_lines v) (Some O)).
  { rewrite <- (slot_0 (hist s)) by (destruct (hr_idx _ _ _ Hh); lia). eapply hist_rep_pos; [done | lia]. }
  destruct (v_line v) as [|c l] eqn:Ev; cbn [app remember].
  { exists (hist s), rest. done. }
  change (aget (c :: l ++ 0 :: rest) 0) with (Some c). cbn [mbind option_bind]. destruct (Z.eqb_spec c 0) as [->|Hc]; cbn [negb andb orb]; [by exists (hist s), rest|].
  destruct (Z.eqb_spec c CREAD_HIST_CHAR) as [->|Hc']; cbn [negb andb orb]; [by exists (hist s), rest|].
  rewrite (nstr_upto0 (c :: l) rest : acstr (c :: l ++ 0 :: rest) = _). cbn [mbind option_bind]. destruct (upto0_ok (c :: l)) as [Hu1 Hu2].
  destruct (add_to_hist_rep _ _ _ (upto0 (c :: l)) Hh Hu1) as (h' & -> & Hh'); [lia|]. cbn [mbind option_bind]. by exists h', rest.
Qed.

(** The output [o] shows the lines on the way and the last of them, after [o0]. *)
Definition displays (v0 : view) (keys : list Z) (o : list Z) (v : view) : Prop :=
  Forall visible (view_trace HIST_SIZE v0 keys) ->
  forall pre k, exists k', tputs (screen pre (v_left v0) (v_right v0) k) o = screen pre (v_left v) (v_right v) k'.

Definition ended (v0 : view) (keys o0 : list Z) (r : line_result) (vr : view_result) : Prop :=
  match r, vr with
  | Waiting s, VNext v => shows s v /\ exists o, out (edit s) = o0 ++ o /\ displays v0 keys o v
  | Done rc b n h o, VLine v =>
      rc = 0 /\ n = Z.of_nat (length (v_line v)) /\ (exists rest, b = v_line v ++ 0 :: rest) /\
      hist_rep h (remember (v_line v) (v_lines v)) (Some O) /\ exists o', o = o0 ++ o' ++ [10] /\ displays v0 keys o' v
  | Done rc b n h o, VBreak v =>
      rc = -1 /\ (exists rest, b = 0 :: rest) /\ hist_rep h (v_lines v) (v_pos v) /\ exists o', o = o0 ++ o' /\ displays v0 keys o' v
  | _, _ => False
  end.

Lemma view_trace_head v keys : Forall visible (view_trace HIST_SIZE v keys) -> visible v.
Proof. destruct keys; cbn [view_trace]; intros Hv; by apply Forall_cons_1 in Hv as [? _]. Qed.

(** Prefixing a key. *)
Lemma displays_step v0 k keys v1 o1 o v : view_key HIST_SIZE v0 k = VNext v1 -> paints o1 (v_left v0) (v_right v0) (v_left v1) (v_right v1) ->
  displays v1 keys o v -> displays v0 (k :: keys) (o1 ++ o) v.
Proof.
  intros Ek P1 Hd Hv pre kk. pose proof (view_trace_head _ _ Hv) as Hv0. cbn [view_trace] in Hv. rewrite Ek in Hv. apply Forall_cons_1 in Hv as [_ Hv].
  destruct (P1 Hv0 (view_trace_head _ _ Hv) pre kk) as [k1 E]. destruct (Hd Hv pre k1) as [k2 E2]. exists k2. by rewrite tputs_app, E.
Qed.

Lemma displays_nothing v keys : displays v keys [] v.
Proof. intros _ pre k. by exists k. Qed.

Lemma run_loop_keys keys : forall s v, shows s v -> Forall (fun k => k <> 9) keys ->
  exists r, cread_loop table complete CONFIG_SYS_PROMPT prompt HIST_SIZE s keys = Some r /\ ended v keys (out (edit s)) r (view_loop HIST_SIZE v keys).
Proof.
  induction keys as [|k keys IH]; intros s v H Hk; cbn [cread_loop view_loop].
  { eexists. split; [done|]. split; [done|]. exists []. rewrite app_nil_r. split; [done | apply displays_nothing]. }
  apply Forall_cons_1 in Hk as [Hk Hks]. destruct (run_key s v k H Hk) as (r & -> & Ha). cbn [mbind option_bind].
  destruct r as [s'|s'|s'], (view_key HIST_SIZE v k) as [v'|v'|v'] eqn:Ev; try done.
  - destruct Ha as [H' (o1 & Eo & P1)]. destruct (IH s' v' H' Hks) as (r & -> & He). exists r. split; [done|]. rewrite Eo in He.
    destruct r as [rc b n h o|s2], (view_loop HIST_SIZE v' keys) as [v2|v2|v2]; cbn [ended] in *; try done.
    + destruct He as (? & ? & ? & ? & o' & -> & Hd). split_and!; [done.. |]. exists (o1 ++ o'). split; [by rewrite <- !app_assoc | by eapply displays_step].
    + destruct He as (? & ? & ? & o' & -> & Hd). split_and!; [done.. |]. exists (o1 ++ o'). split; [by rewrite <- !app_assoc | by eapply displays_step].
    + destruct He as (? & o & Eo2 & Hd). split; [done|]. exists (o1 ++ o). split; [by rewrite Eo2, <- app_assoc | by eapply displays_step].
  - destruct Ha as [-> ->]. destruct (run_enter s v H) as (b & h & rest & E1 & E2 & E3 & Hh). cbn [with_edit edit getcmd_putch buf eol_num hist out]. rewrite E1. cbn [mbind option_bind].
    destruct (aget b 0) as [c|]; cbn [mbind option_bind] in *; [|done].
    destruct (if negb (c =? 0) && negb (c =? CREAD_HIST_CHAR) then acstr b ≫= (λ line, cread_add_to_hist (hist s) line) else Some (hist s)) as [h0|]; cbn [mbind option_bind] in *; [|done].
    simplify_eq. eexists. split; [done|]. split_and!; [done | | by eexists | done |].
    + rewrite (ed_eol _ _ _ _ (sh_edit _ _ H)). unfold v_line. by rewrite length_app.
    + exists []. split; [done | apply displays_nothing].
  - destruct Ha as (-> & Eh & Hb & Eo). eexists. split; [done|]. split_and!; [done | done | rewrite Eh; apply (sh_hist _ _ H) |].
    exists []. rewrite app_nil_r. split; [done | apply displays_nothing].
Qed.

(** The lines of a history are strings that fit. *)
Lemma hist_rep_lines h H pos : hist_rep h H pos -> Forall (Forall (fun c => c <> 0)) H /\ Forall (fun l => Z.of_nat (length l) <= HIST_SIZE) H.
Proof.
  intros HR. assert (Hall : forall i s, H !! i = Some s -> Forall (fun c => c <> 0) s /\ Z.of_nat (length s) <= HIST_SIZE).
  { intros i s Hi. pose proof (hr_lines _ _ _ HR i s Hi) as Hl. unfold hist_list in Hl. destruct (aget (hist_lines h) (slot h (S i))) as [row|] eqn:Er; [|done].
    cbn [mbind option_bind] in Hl. destruct (acstr_inv _ _ Hl) as (rest & -> & Hs). split; [done|]. pose proof (aget_Some_range _ _ _ Er).
    rewrite aget_lookup in Er by lia. pose proof (Forall_lookup_1 _ _ _ _ (hr_size _ _ _ HR) Er) as Hrow. cbn beta in Hrow. rewrite length_app in Hrow. cbn [length] in Hrow. lia. }
  split; apply Forall_lookup; intros i s Hi; by apply (Hall i s).
Qed.

(** The initial line is already in the array. *)
Lemma run_add_self n : forall i l rest o, Forall (fun c => c <> 0) l -> (i + n = length l)%nat -> Z.of_nat (length l) <= HIST_SIZE ->
  cread_add_self n (Z.of_nat i) HIST_SIZE (mk_ed (l ++ rest) (Z.of_nat i) (Z.of_nat i) o) =
    Some (mk_ed (l ++ rest) (Z.of_nat (length l)) (Z.of_nat (length l)) (o ++ drop i l)).
Proof.
  induction n as [|n IH]; intros i l rest o Hl Hi Hlen; cbn [cread_add_self].
  { replace i with (length l) by lia. by rewrite drop_all, app_nil_r. }
  cbn [buf]. destruct (lookup_lt_is_Some_2 l i) as [c Ec]; [lia|].
  assert (Eg : (l ++ rest) !! i = Some c) by (by rewrite lookup_app_l by lia). rewrite aget_lookup, Nat2Z.id, Eg by lia. cbn [mbind option_bind].
  unfold cread_add_char. cbn [orb andb num eol_num buf set_eol]. rewrite u32_small by (unfold HIST_SIZE, CONFIG_SYS_CBSIZE; lia).
  rewrite (proj2 (Z.ltb_ge _ _)) by lia. replace (Z.of_nat i + 1 - Z.of_nat i) with 1 by lia. change (1 <? 1) with false. cbv iota. cbn [mbind option_bind].
  rewrite aset_Some, Nat2Z.id, list_insert_id by (done || rewrite length_app; lia). cbn [mbind option_bind]. unfold putnstr, backspaces, putstr, set_num, set_buf, set_eol. cbn [num buf out eol_num]. rewrite Nat2Z.id.
  rewrite (drop_S _ c i Eg). change (Z.to_nat 1) with 1%nat. change (Z.to_nat (1 - 1)) with 0%nat. cbn [replicate nstr]. rewrite (proj2 (Z.eqb_neq c 0)).
  2:{ pose proof (Forall_lookup_1 _ _ _ _ Hl Ec). done. }
  rewrite app_nil_r. replace (Z.of_nat i + 1) with (Z.of_nat (S i)) by lia. rewrite IH by (done || lia). rewrite <- app_assoc. cbn [app]. by rewrite <- (drop_S _ c i Ec).
Qed.

(** The view at the start: the initial line with the cursor at its end. *)
Definition start_view (init : list Z) (H : list cstr) (pos : option nat) : view := mk_view init [] true [] H pos.

(** C21: whatever keys are typed, except TAB, [cread_line] stays inside its arrays and
    follows the editor on lines: the line it returns and stores, the history and the
    position in it are those of the editor, and as long as the lines are printable
    the terminal shows the line with the cursor at its place. *)
Theorem cread_line_correct b init rest timeout in_time esc0 h H pos keys : b = init ++ 0 :: rest -> Forall (fun c => c <> 0) init ->
  Z.of_nat (length init) <= HIST_SIZE -> HIST_SIZE < Z.of_nat (length b) -> length esc0 = 8%nat -> hist_rep h H pos ->
  Forall (fun k => k <> 9) keys -> timeout = 0 \/ in_time = true ->
  exists r, cread_line table complete CONFIG_SYS_PROMPT prompt b HIST_SIZE timeout in_time esc0 h keys = Some r /\
    ended (start_view init H pos) keys init r (view_loop HIST_SIZE (start_view init H pos) keys).
Proof.
  intros -> Hz Hlen Hb Hesc Hh Hk Ht. unfold cread_line, astrlen. rewrite acstr_app by done. cbn [mbind option_bind]. rewrite Nat2Z.id.
  pose proof (run_add_self (length init) 0 init (0 :: rest) [] Hz ltac:(lia) Hlen) as Es. change (Z.of_nat 0) with 0 in Es. rewrite Es. cbn [mbind option_bind app drop].
  replace (negb (timeout =? 0) && negb in_time) with false by (destruct Ht as [-> | ->]; [done | by rewrite andb_false_r]).
  destruct (hist_rep_lines _ _ _ Hh) as [HL1 HL2].
  apply (run_loop_keys keys (mk_ls (mk_ed (init ++ 0 :: rest) (Z.of_nat (length init)) (Z.of_nat (length init)) init) true 0 esc0 h) (start_view init H pos)); [|done].
  split; cbn [edit start_view v_left v_right insert v_ins esc_len v_esc hist v_lines v_pos esc_save]; try done.
  - split; cbn [buf num eol_num length]; [by eexists | lia.. | done].
  - split; [done|]. split; [cbn; lia|]. by exists esc0.
Qed.

(** ** Completion *)

Lemma make_argv_word n w : w <> [] -> Forall (fun c => isblank c = false) w -> make_argv_loop (S n) w = [w].
Proof.
  intros Hw Hb. assert (Ht : take_word w = (w, [])).
  { clear Hw. induction Hb as [|c w Hc Hw IH]; cbn [take_word]; [done|]. by rewrite Hc, IH. }
  destruct w as [|c w]; [done|]. apply Forall_cons_1 in Hb as [Hc _]. cbn [make_argv_loop skip_blank]. rewrite Hc, Ht. done.
Qed.

(** The commands whose names begin with a word. *)
Definition candidates (w : cstr) : list cstr := filter (fun n => take (length w) n = w) (map cmd_name table).

Lemma collect_all room names : (length names <= room)%nat -> collect room names = names.
Proof.
  revert names. induction room as [|room IH]; intros [|n names] Hr; cbn [collect length] in *; try done; [lia|]. by rewrite IH by lia.
Qed.

Lemma agree_le n s t : (agree n s t <= n)%nat.
Proof. revert s t. induction n as [|n IH]; intros [|a s] [|b t]; cbn [agree]; try lia. destruct (a =? b); [|lia]. specialize (IH s t). lia. Qed.

Lemma agree_take n s t : (n <= length s)%nat -> take (agree n s t) t = take (agree n s t) s.
Proof.
  revert s t. induction n as [|n IH]; intros [|a s] [|b t] Hn; cbn [agree length] in *; try done; try lia.
  destruct (Z.eqb_spec a b) as [->|]; [|done]. cbn [take]. by rewrite IH by lia.
Qed.

Lemma agree_max n s t w : take (length w) s = w -> take (length w) t = w -> (length w <= n)%nat -> (length w <= agree n s t)%nat.
Proof.
  revert s t w. induction n as [|n IH]; intros s t w Hs Ht Hn; [lia|]. destruct w as [|c w]; [cbn; lia|]. destruct s as [|a s], t as [|b t]; try done. cbn [length take] in *.
  simplify_eq. cbn [agree]. rewrite Z.eqb_refl. specialize (IH s t w ltac:(done) ltac:(done) ltac:(lia)). lia.
Qed.

(** [find_common_prefix] gives the length of the longest prefix of all strings. *)
Lemma common_prefix_spec s names : let n := find_common_prefix (s :: names) in
  Forall (fun t => take n t = take n s) (s :: names) /\
  forall w, Forall (fun t => take (length w) t = w) (s :: names) -> (length w <= n)%nat.
Proof.
  cbv zeta. cbn [find_common_prefix].
  assert (Hgen : forall m, (m <= length s)%nat -> let n := fold_left (fun len t => agree len s t) names m in
    (n <= m)%nat /\ Forall (fun t => take n t = take n s) names /\ forall w, take (length w) s = w -> Forall (fun t => take (length w) t = w) names -> (length w <= m)%nat -> (length w <= n)%nat).
  { clear. induction names as [|t names IH]; intros m Hm; cbn [fold_left]; [split; [lia|]; split; [constructor | done]|].
    pose proof (agree_le m s t). destruct (IH (agree m s t) ltac:(lia)) as (I1 & I2 & I3). split; [lia|]. split.
    - constructor; [|done]. pose proof (agree_take m s t Hm) as Ha.
      assert (Hmin : forall x : cstr, take (fold_left (fun len t => agree len s t) names (agree m s t)) x =
        take (fold_left (fun len t => agree len s t) names (agree m s t)) (take (agree m s t) x)) by (intros x; rewrite take_take; f_equal; lia).
      by rewrite (Hmin t), (Hmin s), Ha.
    - intros w Hs Hw Hlw. apply Forall_cons_1 in Hw as [Hw1 Hw2]. apply I3; [done | done | by apply agree_max]. }
  destruct (Hgen (length s) ltac:(lia)) as (_ & G2 & G3). split; [by constructor|]. intros w Hw. apply Forall_cons_1 in Hw as [Hs Hw]. apply G3; [done | done |].
  rewrite <- Hs, length_take. lia.
Qed.

(** The text a word is completed to. *)
Definition completed (w : cstr) : cstr :=
  match candidates w with
  | [] => w
  | [c] => c ++ [32]
  | c :: cs => take (find_common_prefix (c :: cs)) c
  end.

Lemma candidates_prefix w : Forall (fun n => take (length w) n = w) (candidates w).
Proof. apply Forall_forall. intros n Hn%list_elem_of_In. unfold candidates in Hn. by apply list_elem_of_filter in Hn as [? _]. Qed.

Lemma find_chr_absent c s : Forall (fun x => x <> c) s -> find_chr c s = None.
Proof. induction 1 as [|x s Hx Hs IH]; cbn [find_chr]; [done|]. rewrite (proj2 (Z.eqb_neq x c)) by done. by rewrite IH. Qed.

Lemma strcmp_l_refl s : strcmp_l s s = 0.
Proof. induction s as [|c s IH]; cbn [strcmp_l]; [done|]. by rewrite Z.sub_diag. Qed.

Lemma complete_word_cmdv w last_char : w <> [] -> Forall (fun c => isblank c = false /\ c <> 46) w -> list.last w = Some last_char -> last_char <> 0 ->
  (length (candidates w) <= 18)%nat -> complete_cmdv table complete [w] last_char 20 = (Z.of_nat (length (candidates w)), candidates w).
Proof.
  intros Hw Hc El Hl Hn. unfold complete_cmdv. change (20 <? 2) with false. cbv iota. rewrite bool_decide_true by done. cbn [negb orb].
  rewrite (proj2 (Z.eqb_neq _ _)) by done. assert (Hb : isblank last_char = false).
  { apply last_Some in El as [l' ->]. apply Forall_app in Hc as [_ Hc]. by apply Forall_cons_1 in Hc as [[? _] _]. }
  rewrite Hb. cbn [orb]. assert (base_name w = w) as ->.
  { unfold base_name. rewrite find_chr_absent; [done|]. eapply Forall_impl; [|exact Hc]. naive_solver. }
  fold (candidates w). rewrite collect_all; [done|]. change (Z.to_nat (20 - 2)) with 18%nat. done.
Qed.

Lemma prefix_drop w (c : cstr) : take (length w) c = w -> w ++ drop (length w) c = c.
Proof. intros Hp. rewrite <- Hp at 1. apply take_drop. Qed.

Lemma common_le (c : cstr) names n : (n <= length c)%nat -> (fold_left (fun len t => agree len c t) names n <= length c)%nat.
Proof. revert n. induction names as [|t names IH]; intros n Hn; cbn [fold_left]; [done|]. apply IH. pose proof (agree_le n c t). lia. Qed.

(** The completion is stored behind the word. *)
Lemma put_completion w s sep rest full : w ++ s ++ sep = full -> Z.of_nat (length full) < CONFIG_SYS_CBSIZE - 2 ->
  CONFIG_SYS_CBSIZE <= Z.of_nat (length (w ++ 0 :: rest)) ->
  exists rest' o,
    (if CONFIG_SYS_CBSIZE - 2 <=? Z.of_nat (length w) + Z.of_nat (length s + length sep) then Some (1, w ++ 0 :: rest, Z.of_nat (length w), [BELL])
     else if Nat.ltb (length w + length s + length sep) (length (w ++ 0 :: rest)) then
       Some (1, w ++ s ++ sep ++ 0 :: drop (S (length w + length s + length sep)) (w ++ 0 :: rest), Z.of_nat (length w) + Z.of_nat (length s + length sep),
             s ++ sep ++ (if bool_decide (sep = []) then [BELL] else []))
     else None) = Some (1, full ++ 0 :: rest', Z.of_nat (length full), o).
Proof.
  intros <- Hf Hb. rewrite !length_app in *. cbn [length] in *. rewrite (proj2 (Z.leb_gt _ _)) by lia. rewrite (proj2 (Nat.ltb_lt _ _)) by lia. eexists _, _.
  rewrite <- !app_assoc. do 3 f_equal. lia.
Qed.

(** TAB after a word completes it to the only command that begins with it, with a
    space behind it, or as far as the commands that begin with it agree. *)
Theorem cmd_auto_complete_word w rest : w <> [] -> Forall (fun c => isblank c = false /\ c <> 46 /\ c <> 0) w -> (length (candidates w) <= 18)%nat ->
  Z.of_nat (length (completed w)) < CONFIG_SYS_CBSIZE - 2 -> Z.of_nat (length w) < CONFIG_SYS_CBSIZE - 2 -> CONFIG_SYS_CBSIZE <= Z.of_nat (length (w ++ 0 :: rest)) ->
  exists rest' o, cmd_auto_complete table complete CONFIG_SYS_PROMPT CONFIG_SYS_PROMPT (w ++ 0 :: rest) (Z.of_nat (length w)) =
    Some (1, completed w ++ 0 :: rest', Z.of_nat (length (completed w)), o).
Proof.
  intros Hw Hc Hn Hfit Hwl Hb. unfold cmd_auto_complete. rewrite strcmp_l_refl. cbn [Z.eqb negb]. cbv iota.
  assert (Hc0 : Forall (fun c => c <> 0) w) by (eapply Forall_impl; [|exact Hc]; naive_solver).
  assert (Hc1 : Forall (fun c => isblank c = false /\ c <> 46) w) by (eapply Forall_impl; [|exact Hc]; naive_solver).
  assert (Hc2 : Forall (fun c => isblank c = false) w) by (eapply Forall_impl; [|exact Hc]; naive_solver).
  rewrite acstr_app by done. cbn [mbind option_bind]. rewrite (proj2 (Z.leb_gt _ _)) by lia.
  unfold make_argv. replace (Z.to_nat (CONFIG_SYS_MAXARGS + 1 - 1)) with (S 255) by (vm_compute; reflexivity). rewrite make_argv_word by done.
  destruct (list.last w) as [lc|] eqn:El; [|apply last_None in El; done]. assert (Hlc : lc <> 0) by (apply last_Some in El as [l' ->]; apply Forall_app in Hc0 as [_ Hc0]; by apply Forall_cons_1 in Hc0 as [? _]).
  change (default 0 (Some lc)) with lc. rewrite (complete_word_cmdv w lc) by done. pose proof (candidates_prefix w) as Hpre. unfold completed in *.
  destruct (candidates w) as [|c [|c2 cs]]; cbn [length] in *.
  - eexists _, _. cbn. done.
  - change (Z.of_nat 1 =? 0) with false. change (Z.of_nat 1 =? 1) with true. cbv iota. cbn [list.last list.head mbind option_bind]. apply Forall_cons_1 in Hpre as [Hp _].
    assert (Hlw : (length w <= length c)%nat) by (rewrite <- Hp, length_take; lia). rewrite (proj2 (Nat.ltb_ge _ _)) by done. cbn [mbind option_bind].
    apply (put_completion w (drop (length w) c) [32] rest (c ++ [32])); [by rewrite app_assoc, (prefix_drop w c Hp) | done | lia].
  - set (C := c :: c2 :: cs) in *. destruct (common_prefix_spec c (c2 :: cs)) as [_ Hmax]. specialize (Hmax w Hpre). fold C in Hmax. set (j := find_common_prefix C) in *.
    assert (Hj : (1 <= j)%nat) by (destruct w; [done | cbn [length] in *; lia]).
    assert (Hjc : (j <= length c)%nat) by (subst j C; cbn [find_common_prefix]; apply common_le; lia).
    rewrite (proj2 (Z.eqb_neq _ 0)), (proj2 (Z.eqb_neq _ 1)), (proj2 (Z.ltb_lt 1 _)), (proj2 (Z.eqb_neq (Z.of_nat j) 0)) by lia. cbn [negb andb].
    cbn [list.last list.head mbind option_bind C]. apply Forall_cons_1 in Hpre as [Hp _]. destruct (Z.ltb_spec 0 (Z.of_nat j - Z.of_nat (length w))) as [Hlt|Hle].
    + apply (put_completion w _ [] rest (take j c)); [|done | lia].
      rewrite app_nil_r. replace (take j c) with (take j (w ++ drop (length w) c)) by (by rewrite (prefix_drop w c Hp)).
      rewrite take_app_ge by lia. do 2 f_equal. lia.
    + assert (Ew : take j c = w) by (replace j with (length w) by lia; done). rewrite Ew. eexists _, _. done.
Qed.
End machine.

(** ** Without history *)

Section simple.
Context {world : Type} (table : list (@cmd_tbl_s world)) (complete : @cmd_tbl_s world -> option (list cstr -> Z -> Z -> Z * list cstr)).
Context (CONFIG_SYS_PROMPT : cstr) (prompt : option cstr) (plen : Z).

(** The line lies in the array with room for its terminator. *)
Record simple_ok (s : simple) : Prop := {
  so_p : s_p s = s_n s;
  so_n : 0 <= s_n s <= CONFIG_SYS_CBSIZE - 2;
  so_buf : CONFIG_SYS_CBSIZE - 2 < Z.of_nat (length (s_buf s)) }.

Lemma delete_char_ok s : simple_ok s -> exists s', delete_char plen s = Some s' /\ simple_ok s' /\
  s_n s' = (if s_n s =? 0 then 0 else s_n s - 1) /\ length (s_buf s') = length (s_buf s).
Proof.
  intros H. pose proof H as [H1 H2 H3]. unfold delete_char. destruct (Z.eqb_spec (s_n s) 0) as [E|E]; [by exists s|].
  destruct (aget_is_Some (s_buf s) (s_p s - 1)) as [c Ec]; [lia|]. rewrite Ec. cbn [mbind option_bind].
  destruct (if c =? 9 then _ else _) as [col o]. eexists. split; [done|]. cbn [s_n s_buf]. split; [|done]. split; cbn [s_p s_n s_buf]; lia.
Qed.

Lemma erase_word_ok fuel : forall s, simple_ok s -> s_n s <= Z.of_nat fuel -> exists s', erase_word fuel plen s = Some s' /\ simple_ok s' /\ length (s_buf s') = length (s_buf s).
Proof.
  induction fuel as [|fuel IH]; intros s H Hf; pose proof H as [H1 H2 H3]; cbn [erase_word]; (destruct (Z.ltb_spec 0 (s_n s)) as [Hn|Hn]; [|by exists s]); [lia|].
  destruct (aget_is_Some (s_buf s) (s_p s)) as [c Ec]; [lia|]. rewrite Ec. cbn [mbind option_bind]. destruct (c =? 32); [by exists s|].
  destruct (delete_char_ok s H) as (s' & -> & Hs & En & El). cbn [mbind option_bind]. rewrite (proj2 (Z.eqb_neq _ _)) in En by lia.
  destruct (IH s' Hs ltac:(lia)) as (s2 & E2 & Hs2 & El2). exists s2. split_and!; [done | done | congruence].
Qed.

Lemma simple_add_ok s c : simple_ok s -> c <> 9 -> exists s', simple_add table complete CONFIG_SYS_PROMPT prompt s c = Some s' /\ simple_ok s' /\ length (s_buf s') = length (s_buf s).
Proof.
  intros H Hc. pose proof H as [H1 H2 H3]. unfold simple_add. destruct (Z.ltb_spec (s_n s) (CONFIG_SYS_CBSIZE - 2)); [|eexists; split; [done|]; by split; [split|]].
  rewrite (proj2 (Z.eqb_neq c 9)) by done. rewrite aset_Some by lia. cbn [mbind option_bind]. eexists. split; [done|]. cbn [s_buf]. rewrite length_insert.
  split; [|done]. split; cbn [s_p s_n s_buf]; rewrite ?length_insert; lia.
Qed.

(** Before relocation every sequence of keys without TAB stays inside the array; the
    line that is returned has its length and its terminator. *)
Theorem simple_loop_safe keys : forall s, simple_ok s -> Forall (fun k => k <> 9) keys ->
  exists r, simple_loop table complete CONFIG_SYS_PROMPT prompt plen s keys = Some r /\
    match r with SDone rc b _ => rc = -1 \/ (0 <= rc <= CONFIG_SYS_CBSIZE - 2 /\ aget b rc = Some 0) | SWaiting s' => simple_ok s' end.
Proof.
  induction keys as [|c keys IH]; intros s H Hk; cbn [simple_loop]; [by exists (SWaiting s)|]. apply Forall_cons_1 in Hk as [Hc Hks]. pose proof H as [H1 H2 H3].
  destruct ((c =? 13) || (c =? 10)).
  { rewrite aset_Some by lia. cbn [mbind option_bind]. eexists. split; [done|]. right. split; [lia|]. rewrite aget_lookup, list_lookup_insert_eq by lia. done. }
  destruct (c =? 0); [by apply IH|]. destruct (c =? 3).
  { rewrite aset_Some by (unfold CONFIG_SYS_CBSIZE in *; lia). cbn [mbind option_bind]. eexists. split; [done|]. by left. }
  destruct (c =? 21); [apply IH; [|done]; split; cbn [s_p s_n s_buf]; unfold CONFIG_SYS_CBSIZE in *; lia|].
  assert (Hs : exists s', (if c =? 23 then s ← delete_char plen s; erase_word (Z.to_nat (s_n s)) plen s
    else if (c =? 8) || (c =? 127) then delete_char plen s else simple_add table complete CONFIG_SYS_PROMPT prompt s c) = Some s' /\ simple_ok s').
  { destruct (c =? 23).
    - destruct (delete_char_ok s H) as (s1 & -> & Hs1 & _ & _). cbn [mbind option_bind]. destruct (erase_word_ok (Z.to_nat (s_n s1)) s1 Hs1) as (s2 & E2 & Hs2 & _); [destruct Hs1; lia|]. eauto.
    - destruct ((c =? 8) || (c =? 127)); [destruct (delete_char_ok s H) as (s1 & E1 & Hs1 & _) | destruct (simple_add_ok s c H Hc) as (s1 & E1 & Hs1 & _)]; eauto. }
  destruct Hs as (s' & -> & Hs'). cbn [mbind option_bind]. by apply IH.
Qed.
End simple.

(** ** [env edit] *)

Section envedit.
Context {HH : EnvHooks} (default_environment : list Z).
Context {world : Type} (table : list (@cmd_tbl_s world)) (complete : @cmd_tbl_s world -> option (list cstr -> Z -> Z -> Z * list cstr)).
Context (CONFIG_SYS_PROMPT : cstr).

(** [buffer] is the local array; nothing is returned while the line is not finished. *)
Definition do_env_edit (gd : gdata) (c : console) (argv : list cstr) (buffer esc0 keys : list Z) : option (option (Z * gdata * console)) :=
  if Nat.ltb (length argv) 2 then Some (Some (CMD_RET_USAGE, gd, c)) else
  name ← argv !! 1%nat;
  '(init_val, gd) ← getenv default_environment gd name;
  b ← match init_val with
      | Some v => astrcpy buffer (take (Z.to_nat (CONFIG_SYS_CBSIZE - 1)) v)
      | None => aset buffer 0 0
      end;
  r ← cli_readline_into_buffer table complete CONFIG_SYS_PROMPT (gd_flags gd) c (Some (str "edit: ")) b 0 true esc0 keys;
  match r with
  | Wait => Some None
  | Read rc b c _ =>
      if rc <? 0 then Some (Some (1, gd, c)) else
      line ← acstr b;
      '(rc, gd) ← setenv gd name (Some line);
      Some (Some (rc, gd, c))
  end.
End envedit.

(** ** Examples *)

Definition no_lines : list (list Z) := replicate 20 (replicate 1025 0).
Definition fresh_console : console := mk_console false (mk_hist 0 0 (-1) 0 no_lines).

Lemma hist_init_rep lines : length lines = Z.to_nat HIST_MAX -> Forall (fun l => length l = Z.to_nat (HIST_SIZE + 1)) lines -> hist_rep (hist_init lines) [] None.
Proof.
  intros Hl Hs. split; cbn [hist_init hist_max hist_add_idx hist_lines hist_cur length]; try (unfold HIST_MAX; lia); try done.
  - by rewrite length_map.
  - apply Forall_map. eapply Forall_impl; [|exact Hs]. intros l. cbn beta. by rewrite length_insert.
Qed.

(** The keys [run foo], three times to the left, one backspace, Enter: the line is [runfoo]. *)
Lemma cread_line_correct_witness : exists r,
  cread_line (world := unit) [] (fun _ => None) (str "=> ") (Some (str "=> ")) (replicate 1025 0) HIST_SIZE 0 true (replicate 8 0) (hist_init no_lines)
    (str "run foo" ++ [2; 2; 2; 8; 13]) = Some r /\
  ended (start_view [] [] None) (str "run foo" ++ [2; 2; 2; 8; 13]) [] r (VLine (mk_view (str "run") (str "foo") true [] [] None)).
Proof.
  apply (cread_line_correct (world := unit) [] (fun _ => None) (str "=> ") (Some (str "=> ")) (replicate 1025 0) [] (replicate 1024 0) 0 true (replicate 8 0)
    (hist_init no_lines) [] None (str "run foo" ++ [2; 2; 2; 8; 13])).
  - reflexivity.
  - constructor.
  - vm_compute. discriminate.
  - vm_compute. reflexivity.
  - reflexivity.
  - apply hist_init_rep; [reflexivity|]. unfold no_lines. apply Forall_replicate. reflexivity.
  - cbn. repeat constructor; discriminate.
  - by left.
Defined.

(** A line that fills the buffer overflows the copy that completion works on. *)
Lemma completion_full_line : cread_line (world := unit) [] (fun _ => None) (str "=> ") (Some (str "=> ")) (replicate 1025 0) CONFIG_SYS_CBSIZE 0 true (replicate 8 0)
  (hist_init no_lines) (replicate 1024 120 ++ [9]) = None.
Proof. vm_compute. reflexivity. Qed.

(** Completing a command with a length modifier reads behind the name of the command. *)
Lemma completion_modifier : cmd_auto_complete [mk_cmd (str "cp") 4 1 false (fun (w : unit) _ _ => (0, w))] (fun _ => None) (str "=> ") (str "=> ")
  (str "cp.b" ++ replicate 1000 0) 4 = None.
Proof. vm_compute. reflexivity. Qed.

(** [TQ_readline] edits without a prompt, which TAB takes the length of. *)
Lemma tq_readline_tab : TQ_readline (world := unit) [] (fun _ => None) (str "=> ") GD_FLG_RELOC fresh_console (Some (str "abc")) (replicate 1025 0) (replicate 8 0) [9] = None.
Proof. vm_compute. reflexivity. Qed.

(** [env edit] gives its buffer of [CONFIG_SYS_CBSIZE] bytes to a function that fills one more. *)
Definition gd_reloc : gdata := mk_gd (Z.lor GD_FLG_RELOC GD_FLG_ENV_READY) [] 1 (replicate 32 0) table_a 1.
Lemma env_edit_overflow : @do_env_edit plain_hooks [] unit [] (fun _ => None) (str "=> ") gd_reloc fresh_console [str "edit"; str "b"]
  (replicate 1024 0) (replicate 8 0) (replicate 1024 120 ++ [13]) = None.
Proof. vm_compute. reflexivity. Qed.

(** The value of the variable [a] is edited from 1 to 12. *)
Lemma env_edit_example : match @do_env_edit plain_hooks [] unit [] (fun _ => None) (str "=> ") gd_reloc fresh_console [str "edit"; str "a"]
  (replicate 1024 0) (replicate 8 0) (str "2" ++ [13]) with
  | Some (Some (rc, gd, _)) => rc = 0 /\ option_map fst (@getenv plain_hooks [] gd (str "a")) = Some (Some (str "12"))
  | _ => False
  end.
Proof. vm_compute. auto. Qed.
