(* ===== verification/Fat.v ===== *)
(** * Fat: reading files from FAT file systems ([fs/fat/fat.c], [include/fat.h])

    The block device and the partition are a class; a device stores the blocks it
    reads into an array of the caller and returns their number.  Arrays of bytes are
    lists with the address of their first byte where alignment matters; the static
    buffers of the file system are part of its state.  What is printed, also by
    listing directories, is left out. *)
From Stdlib Require Import String.
From S2P Require Import Prelude CString Hashtable EnvFlags.
From stdpp Require Import list.
#[local] Open Scope Z_scope.

(** ** The device *)

(** [cur_dev] says that a device with a reading function is selected; [block_read] gives the
    number of blocks and the bytes it stores; [part_start] and
    [part_blksz] belong to [cur_part_info]. *)
Class BlockDev := { cur_dev : bool; block_read : Z -> Z -> Z * list Z; part_start : Z; part_blksz : Z; dev_blksz : Z }.

Definition ARCH_DMA_MINALIGN : Z := 32.
Definition MAX_CLUSTSIZE : Z := 65536.
Definition FATBUFBLOCKS : Z := 6.
Definition PREFETCH_BLOCKS : Z := 2.

(** Bytes stored into an array. *)
Definition splice (arr : list Z) (off : Z) (data : list Z) : option (list Z) :=
  if (0 <=? off) && (off + Z.of_nat (length data) <=? Z.of_nat (length arr)) then
    Some (take (Z.to_nat off) arr ++ data ++ drop (Z.to_nat off + length data) arr)
  else None.

(** The bytes of an array from a place on. *)
Definition slice (arr : list Z) (off n : Z) : option (list Z) :=
  if (0 <=? off) && (0 <=? n) && (off + n <=? Z.of_nat (length arr)) then Some (take (Z.to_nat n) (drop (Z.to_nat off) arr)) else None.

(** Little-endian numbers in an array. *)
Definition le_num (l : list Z) : Z := foldr (fun b n => b + 256 * n) 0 l.
Definition get_le (n : Z) (arr : list Z) (off : Z) : option Z := l ← slice arr off n; Some (le_num l).

(** ** The file system *)

Record fsdata := mk_fs {
  fatbuf : list Z; fatsize : Z; fatlength : Z; fat_sect : Z; rootdir_sect : Z; sect_size : Z; clust_size : Z; data_begin : Z; fatbufnum : Z }.

Definition FATBUFSIZE (d : fsdata) : Z := sect_size d * FATBUFBLOCKS.
Definition FAT12BUFSIZE (d : fsdata) : Z := FATBUFSIZE d * 2 / 3.
Definition FAT16BUFSIZE (d : fsdata) : Z := FATBUFSIZE d / 2.
Definition FAT32BUFSIZE (d : fsdata) : Z := FATBUFSIZE d / 4.
Definition bytesperclust (d : fsdata) : Z := clust_size d * sect_size d.

Definition CHECK_CLUST (x fatsize : Z) : bool :=
  (x <=? 1) || ((if negb (fatsize =? 32) then if negb (fatsize =? 16) then 0xff0 else 0xfff0 else 0xffffff0) <=? x).

(** A directory entry is 32 bytes. *)
Definition dir_entry : Type := list Z.
Definition d_start (e : dir_entry) : Z := le_num (take 2 (drop 26 e)).
Definition d_starthi (e : dir_entry) : Z := le_num (take 2 (drop 20 e)).
Definition d_size (e : dir_entry) : Z := le_num (take 4 (drop 28 e)).
Definition d_attr (e : dir_entry) : Z := nth 11 e 0.
Definition START (d : fsdata) (e : dir_entry) : Z := d_start e + (if negb (fatsize d =? 32) then 0 else Z.shiftl (d_starthi e) 16).

Section fat.
Context {BD : BlockDev}.

(** Reads blocks into an array; the return value is an [int]. *)
Definition disk_read (block nr_blocks : Z) (arr : list Z) (off : Z) : option (Z * list Z) :=
  if negb cur_dev then Some (-1, arr) else
  let '(r, data) := block_read (u32 (part_start + block)) nr_blocks in
  arr ← splice arr off data;
  Some (s32 r, arr).

(** ** Entries of the FAT *)

Definition with_fatbuf (d : fsdata) (b : list Z) (n : Z) : fsdata :=
  mk_fs b (fatsize d) (fatlength d) (fat_sect d) (rootdir_sect d) (sect_size d) (clust_size d) (data_begin d) n.

(** The number of entries the buffer holds. *)
Definition fat_entries (d : fsdata) : option Z :=
  if fatsize d =? 32 then Some (FAT32BUFSIZE d) else if fatsize d =? 16 then Some (FAT16BUFSIZE d)
  else if fatsize d =? 12 then Some (FAT12BUFSIZE d) else None.

(** Brings a block of the FAT into the buffer; [false] when that fails. *)
Definition load_fatbuf (d : fsdata) (bufnum : Z) : option (bool * fsdata) :=
  if bufnum =? u32 (fatbufnum d) then Some (true, d) else
  let startblock := u32 (bufnum * FATBUFBLOCKS) in
  let getsize := if fatlength d <? u32 (startblock + FATBUFBLOCKS) then u32 (fatlength d - startblock) else FATBUFBLOCKS in
  '(r, b) ← disk_read (u32 (startblock + fat_sect d)) getsize (fatbuf d) 0;
  Some (if r <? 0 then (false, with_fatbuf d b (fatbufnum d)) else (true, with_fatbuf d b (s32 bufnum))).

(** The entry at [offset] of the buffer. *)
Definition read_entry (d : fsdata) (offset : Z) : option Z :=
  if fatsize d =? 32 then get_le 4 (fatbuf d) (4 * offset)
  else if fatsize d =? 16 then get_le 2 (fatbuf d) (2 * offset)
  else
    let off16 := u32 (offset * 3) / 4 in
    let word i := get_le 2 (fatbuf d) (2 * i) in
    let k := Z.land offset 3 in
    if k =? 0 then v ← word off16; Some (Z.land v 0xfff)
    else if k =? 1 then
      val1 ← word off16; val2 ← word (off16 + 1);
      Some (Z.lor (Z.shiftl (Z.land val2 0x00ff) 4) (Z.shiftr (Z.land val1 0xf000) 12))
    else if k =? 2 then
      val1 ← word off16; val2 ← word (off16 + 1);
      Some (Z.lor (Z.shiftl (Z.land val2 0x000f) 8) (Z.shiftr (Z.land val1 0xff00) 8))
    else v ← word off16; Some (Z.shiftr (Z.land v 0xfff0) 4).

Definition get_fatent (d : fsdata) (entry : Z) : option (Z * fsdata) :=
  match fat_entries d with
  | None => Some (0, d)
  | Some n =>
      if n =? 0 then None else
      let bufnum := entry / n in
      let offset := entry - bufnum * n in
      '(ok, d) ← load_fatbuf d bufnum;
      if negb ok then Some (0, d) else
      r ← read_entry d offset;
      Some (r, d)
  end.

(** ** Clusters *)

(** The array [arr] lies at address [addr]. *)
Fixpoint cluster_sectors (fuel : nat) (d : fsdata) (startsect : Z) (arr : list Z) (off size : Z) : option (list Z + Z * list Z * Z * Z) :=
  if size <? sect_size d then Some (inr (startsect, arr, off, size)) else
  match fuel with
  | O => None
  | S fuel =>
      '(ret, tmpbuf) ← disk_read startsect 1 (replicate (Z.to_nat (sect_size d)) 0) 0;
      if negb (ret =? 1) then Some (inl arr) else
      arr ← splice arr off tmpbuf;
      cluster_sectors fuel d (u32 (startsect + 1)) arr (off + sect_size d) (size - sect_size d)
  end.

Definition get_cluster (d : fsdata) (clustnum addr : Z) (arr : list Z) (off size : Z) : option (Z * list Z) :=
  let startsect := if 0 <? clustnum then u32 (data_begin d + clustnum * clust_size d) else rootdir_sect d in
  if sect_size d =? 0 then None else
  r ← (if negb (Z.land (addr + off) (ARCH_DMA_MINALIGN - 1) =? 0) then cluster_sectors (Z.to_nat (size / sect_size d)) d startsect arr off size
       else
         let idx := size / sect_size d in
         '(ret, arr) ← disk_read startsect idx arr off;
         if negb (u32 ret =? idx) then Some (inl arr)
         else Some (inr (u32 (startsect + idx), arr, off + idx * sect_size d, size - idx * sect_size d)));
  match r with
  | inl arr => Some (-1, arr)
  | inr (startsect, arr, off, size) =>
      if negb (size =? 0) then
        '(ret, tmpbuf) ← disk_read startsect 1 (replicate (Z.to_nat (sect_size d)) 0) 0;
        if negb (ret =? 1) then Some (-1, arr) else
        arr ← splice arr off (take (Z.to_nat size) tmpbuf);
        Some (0, arr)
      else Some (0, arr)
  end.

(** ** Files *)

(** [while (actsize <= pos)]: the cluster at [pos] and the place where it ends, or NULL inside for an invalid entry. *)
Fixpoint seek_loop (fuel : nat) (d : fsdata) (curclust actsize pos : Z) : option (option (Z * Z) * fsdata) :=
  if pos <? actsize then Some (Some (curclust, actsize), d) else
  match fuel with
  | O => None
  | S fuel =>
      '(curclust, d) ← get_fatent d curclust;
      if CHECK_CLUST curclust (fatsize d) then Some (None, d)
      else seek_loop fuel d curclust (actsize + bytesperclust d) pos
  end.

(** The search for consecutive clusters. *)
Inductive run_end := Invalid | Getit (endclust actsize : Z) | Rest.
Fixpoint consecutive (fuel : nat) (d : fsdata) (endclust actsize filesize : Z) : option (run_end * fsdata) :=
  if filesize <=? actsize then Some (Rest, d) else
  match fuel with
  | O => None
  | S fuel =>
      '(newclust, d) ← get_fatent d endclust;
      if negb (u32 (newclust - 1) =? endclust) then Some (Getit endclust actsize, d)
      else if CHECK_CLUST newclust (fatsize d) then Some (Invalid, d)
      else consecutive fuel d newclust (actsize + bytesperclust d) filesize
  end.

(** The [do] loop: the return code, [*gotsize], the array and the file system. *)
Fixpoint copy_loop (fuel : nat) (d : fsdata) (curclust addr : Z) (arr : list Z) (off filesize gotsize : Z) : option (Z * Z * list Z * fsdata) :=
  match fuel with
  | O => None
  | S fuel' =>
      '(f, d) ← consecutive fuel d curclust (bytesperclust d) filesize;
      match f with
      | Invalid => Some (0, gotsize, arr, d)
      | Rest =>
          '(r, arr) ← get_cluster d curclust addr arr off (u32 filesize);
          Some (if negb (r =? 0) then (-1, gotsize, arr, d) else (0, gotsize + filesize, arr, d))
      | Getit endclust actsize =>
          '(r, arr) ← get_cluster d curclust addr arr off (u32 actsize);
          if negb (r =? 0) then Some (-1, gotsize, arr, d) else
          '(curclust, d) ← get_fatent d endclust;
          if CHECK_CLUST curclust (fatsize d) then Some (0, gotsize + s32 actsize, arr, d)
          else copy_loop fuel' d curclust addr arr (off + actsize) (filesize - actsize) (gotsize + s32 actsize)
      end
  end.

(** The rest of [get_contents] once the cluster at [pos] is found; [pos] and [filesize] count from its start. *)
Definition read_from (fuel : nat) (d : fsdata) (vblock : list Z) (curclust pos filesize addr : Z) (arr : list Z) : option (Z * Z * list Z * list Z * fsdata) :=
  if negb (pos =? 0) then
    let actsize := Z.min filesize (bytesperclust d) in
    '(r, vblock) ← get_cluster d curclust 0 vblock 0 (u32 actsize);
    if negb (r =? 0) then Some (-1, 0, arr, vblock, d) else
    let filesize := filesize - actsize in
    let actsize := actsize - pos in
    data ← slice vblock pos actsize;
    arr ← splice arr 0 data;
    if filesize =? 0 then Some (0, actsize, arr, vblock, d) else
    '(curclust, d) ← get_fatent d curclust;
    if CHECK_CLUST curclust (fatsize d) then Some (0, actsize, arr, vblock, d) else
    '(r, got, arr, d) ← copy_loop fuel d curclust addr arr actsize filesize actsize;
    Some (r, got, arr, vblock, d)
  else
    '(r, got, arr, d) ← copy_loop fuel d curclust addr arr 0 filesize 0;
    Some (r, got, arr, vblock, d).

(** [vblock] is [get_contents_vfatname_block], at an aligned address.  The return code,
    [*gotsize], the array, the block and the file system. *)
Definition get_contents (d : fsdata) (vblock : list Z) (dent : dir_entry) (pos addr : Z) (arr : list Z) (maxsize : Z)
    : option (Z * Z * list Z * list Z * fsdata) :=
  let filesize := d_size dent in
  if filesize <=? pos then Some (0, 0, arr, vblock, d) else
  let filesize := if (0 <? maxsize) && (pos + maxsize <? filesize) then pos + maxsize else filesize in
  let fuel := S (Z.to_nat filesize) in
  '(s, d) ← seek_loop fuel d (START d dent) (bytesperclust d) pos;
  match s with
  | None => Some (0, 0, arr, vblock, d)
  | Some (curclust, actsize) =>
      let actsize := actsize - bytesperclust d in
      let filesize := filesize - actsize in
      let pos := pos - actsize in
      read_from fuel d vblock curclust pos filesize addr arr
  end.
End fat.

(** ** Bytes and numbers *)

Definition byte_list (l : list Z) : Prop := Forall (fun b => 0 <= b < 256) l.

Lemma le_num_range l : byte_list l -> 0 <= le_num l < 256 ^ Z.of_nat (length l).
Proof.
  induction 1 as [|b l Hb Hl IH]; [cbn; lia|]. cbn [length]. change (le_num (b :: l)) with (b + 256 * le_num l).
  rewrite Nat2Z.inj_succ, Z.pow_succ_r by lia. lia.
Qed.

Lemma le_app l1 l2 : byte_list l1 -> le_num (l1 ++ l2) = le_num l1 + 256 ^ Z.of_nat (length l1) * le_num l2.
Proof.
  induction 1 as [|b l Hb Hl IH]; [cbn [app length]; change (le_num []) with 0; cbn; lia|]. cbn [app length].
  change (le_num (b :: l ++ l2)) with (b + 256 * le_num (l ++ l2)). change (le_num (b :: l)) with (b + 256 * le_num l). rewrite IH, Nat2Z.inj_succ, Z.pow_succ_r by lia. ring.
Qed.

(** A part of an array is a part of the digits of its number. *)
Lemma le_part l o k : byte_list l -> (o + k <= length l)%nat ->
  le_num (take k (drop o l)) = le_num l / 256 ^ Z.of_nat o mod 256 ^ Z.of_nat k.
Proof.
  intros Hl Hk. assert (H1 : byte_list (take o l)) by by apply Forall_take. assert (H2 : byte_list (take k (drop o l))) by by apply Forall_take, Forall_drop.
  rewrite <- (take_drop o l) at 2. rewrite le_app by done. rewrite length_take, Nat.min_l by lia.
  rewrite <- (take_drop k (drop o l)) at 2. rewrite (le_app (take k (drop o l))) by done. rewrite length_take, length_drop, Nat.min_l by lia.
  pose proof (le_num_range _ H1) as R1. pose proof (le_num_range _ H2) as R2. rewrite length_take, Nat.min_l in R1 by lia. rewrite length_take, length_drop, Nat.min_l in R2 by lia.
  assert (0 < 256 ^ Z.of_nat o) by (apply Z.pow_pos_nonneg; lia). assert (0 < 256 ^ Z.of_nat k) by (apply Z.pow_pos_nonneg; lia).
  rewrite Z.add_comm, (Z.mul_comm (256 ^ Z.of_nat o)), Z.div_add_l by lia. rewrite (Z.div_small (le_num (take o l))), Z.add_0_r by lia.
  rewrite Z.add_comm, (Z.mul_comm (256 ^ Z.of_nat k)), Z.add_comm, Z.mod_add by lia. by rewrite Z.mod_small by lia.
Qed.

Lemma pow256 n : 0 <= n -> 256 ^ n = 2 ^ (8 * n).
Proof. intros Hn. change 256 with (2 ^ 8). by rewrite <- Z.pow_mul_r by lia. Qed.

(** ** The FAT as one number *)

(** Entry [i] of a FAT with entries of [w] bits. *)
Definition fat_ref (w : Z) (F : list Z) (i : Z) : Z := le_num F / 2 ^ (w * i) mod 2 ^ w.

(** A field inside another. *)
Lemma field_sub N a b c w : 0 <= a -> 0 <= c -> 0 <= w -> c + w <= b -> N / 2 ^ a mod 2 ^ b / 2 ^ c mod 2 ^ w = N / 2 ^ (a + c) mod 2 ^ w.
Proof.
  intros Ha Hc Hw Hb. apply Z.bits_inj'. intros i Hi. destruct (Z.lt_ge_cases i w) as [H|H].
  - rewrite !Z.mod_pow2_bits_low by lia. rewrite <- !Z.shiftr_div_pow2 by lia. rewrite !Z.shiftr_spec by lia.
    rewrite Z.mod_pow2_bits_low by lia. rewrite Z.shiftr_spec by lia. f_equal. lia.
  - by rewrite !Z.mod_pow2_bits_high by lia.
Qed.

(** The ways the code takes 12 bits out of two words. *)
Lemma nibbles_0 v : Z.land v 0xfff = v mod 2 ^ 12.
Proof. change 0xfff with (Z.ones 12). by rewrite Z.land_ones by lia. Qed.

Lemma high_part v a b : 0 <= a -> a <= b -> 0 <= v < 2 ^ b -> Z.shiftr (Z.land v (Z.shiftl (Z.ones (b - a)) a)) a = v / 2 ^ a.
Proof.
  intros Ha Hb Hv. apply Z.bits_inj'. intros i Hi. rewrite Z.shiftr_spec, Z.land_spec, Z.shiftl_spec, <- Z.shiftr_div_pow2, Z.shiftr_spec by lia.
  destruct (Z.lt_ge_cases (i + a) b).
  - rewrite Z.ones_spec_low by lia. apply andb_true_r.
  - rewrite (bits_above b v (i + a)) by (done || lia). done.
Qed.

Lemma two_words v1 v2 a : 0 <= v1 < 2 ^ 16 -> 0 <= v2 < 2 ^ 16 -> 4 <= a <= 16 ->
  Z.lor (Z.shiftl (Z.land v2 (Z.ones (a - 4))) (16 - a)) (Z.shiftr (Z.land v1 (Z.shiftl (Z.ones (16 - a)) a)) a) = (v1 + 2 ^ 16 * v2) / 2 ^ a mod 2 ^ 12.
Proof.
  intros H1 H2 Ha. rewrite high_part by lia. rewrite (Z.add_comm v1), (Z.mul_comm (2 ^ 16)), <- lor_low by lia. rewrite <- !Z.shiftr_div_pow2 by lia.
  apply Z.bits_inj'. intros i Hi. rewrite Z.lor_spec, Z.shiftl_spec, Z.land_spec by lia. destruct (Z.lt_ge_cases i 12) as [Hi2|Hi2].
  - rewrite Z.mod_pow2_bits_low, !Z.shiftr_spec, Z.lor_spec by lia. destruct (Z.lt_ge_cases i (16 - a)).
    + rewrite (Z.testbit_neg_r v2) by lia. rewrite Z.mul_pow2_bits_low by lia. done.
    + rewrite Z.ones_spec_low, andb_true_r, (bits_above 16 v1 (i + a)) by lia. rewrite Z.mul_pow2_bits by lia. rewrite !orb_false_r. f_equal. lia.
  - rewrite Z.mod_pow2_bits_high, Z.ones_spec_high, andb_false_r, Z.shiftr_spec, (bits_above 16 v1 (i + a)) by lia. done.
Qed.


(** ** A volume on a device *)

(** A device that holds the bytes [disk] and reads them. *)
Class BlockDevOk (BD : BlockDev) (disk : list Z) : Prop := {
  bd_dev : cur_dev = true;
  bd_read : forall s n, 0 <= s -> 0 <= n < 2 ^ 31 -> (s + n) * dev_blksz <= Z.of_nat (length disk) ->
    block_read s n = (n, take (Z.to_nat (n * dev_blksz)) (drop (Z.to_nat (s * dev_blksz)) disk));
  bd_bytes : byte_list disk;
  bd_pos : 0 < dev_blksz < 2 ^ 16;
  bd_size : Z.of_nat (length disk) <= 2 ^ 31 * dev_blksz }.

Section volume.
Context {BD : BlockDev} {disk : list Z} {DOk : BlockDevOk BD disk}.

(** The bytes from a sector of the partition on. *)
Definition sector_bytes (s n : Z) : list Z := take (Z.to_nat n) (drop (Z.to_nat ((part_start + s) * dev_blksz)) disk).

(** The geometry: the FAT lies on the device, its entries have a known size. *)
Record geometry (d : fsdata) : Prop := {
  g_part : 0 <= part_start;
  g_ss : sect_size d = dev_blksz;
  g_ss4 : sect_size d mod 4 = 0;
  g_type : fatsize d = 12 \/ fatsize d = 16 \/ fatsize d = 32;
  g_fat : 0 <= fat_sect d /\ 0 <= fatlength d;
  g_end : (part_start + fat_sect d + fatlength d) * dev_blksz <= Z.of_nat (length disk);
  g_buf : Z.of_nat (length (fatbuf d)) = FATBUFSIZE d }.

Definition FAT (d : fsdata) : list Z := sector_bytes (fat_sect d) (fatlength d * dev_blksz).

(** The buffer holds the block of the FAT that its number says. *)
Definition coherent (d : fsdata) : Prop :=
  fatbufnum d = -1 \/
  (0 <= fatbufnum d /\ fatbufnum d * FATBUFSIZE d < fatlength d * dev_blksz /\
   forall o k, 0 <= o -> 0 <= k -> o + k <= FATBUFSIZE d -> fatbufnum d * FATBUFSIZE d + o + k <= fatlength d * dev_blksz ->
     slice (fatbuf d) o k = slice (FAT d) (fatbufnum d * FATBUFSIZE d + o) k).

(** Two states of the same file system. *)
Definition same_fs (d d' : fsdata) : Prop := d' = with_fatbuf d (fatbuf d') (fatbufnum d').

Lemma disk_read_ok s n arr off : 0 <= part_start -> 0 <= s -> 0 <= n < 2 ^ 31 -> (part_start + s + n) * dev_blksz <= Z.of_nat (length disk) ->
  0 <= off -> off + n * dev_blksz <= Z.of_nat (length arr) ->
  disk_read s n arr off = Some (n, take (Z.to_nat off) arr ++ sector_bytes s (n * dev_blksz) ++ drop (Z.to_nat (off + n * dev_blksz)) arr).
Proof.
  intros Hp Hs Hn Hd Ho Ha. destruct (bd_pos (BD := BD) (disk := disk)) as [Hb Hb2]. pose proof (bd_size (BD := BD) (disk := disk)) as Hsz.
  assert (Hsum : part_start + s + n <= 2 ^ 31) by nia. unfold disk_read. rewrite (bd_dev (BD := BD) (disk := disk)). cbn [negb]. rewrite u32_small by lia. rewrite bd_read by (done || lia).
  unfold splice, sector_bytes. rewrite length_take, length_drop. replace (Nat.min _ _) with (Z.to_nat (n * dev_blksz)) by nia.
  rewrite (proj2 (Z.leb_le 0 off)), (proj2 (Z.leb_le _ (Z.of_nat (length arr)))) by nia. cbn [andb mbind option_bind]. rewrite s32_small by lia.
  do 5 f_equal. nia.
Qed.

Lemma length_sector s n : 0 <= part_start + s -> 0 <= n -> (part_start + s) * dev_blksz + n <= Z.of_nat (length disk) ->
  Z.of_nat (length (sector_bytes s n)) = n.
Proof.
  intros Hs Hn Hd. destruct (bd_pos (BD := BD) (disk := disk)) as [Hb _]. assert (0 <= (part_start + s) * dev_blksz) by nia.
  unfold sector_bytes. rewrite length_take, length_drop. lia.
Qed.

Lemma slice_app_l (l1 l2 : list Z) o k : o + k <= Z.of_nat (length l1) -> slice (l1 ++ l2) o k = slice l1 o k.
Proof.
  intros H. unfold slice. rewrite length_app. destruct (Z.leb_spec 0 o), (Z.leb_spec 0 k); cbn [andb]; try done.
  rewrite !(proj2 (Z.leb_le _ _)) by lia. f_equal. rewrite drop_app_le by lia. rewrite take_app_le by (rewrite length_drop; lia). done.
Qed.

Lemma slice_sector s n o k : 0 <= o -> 0 <= k -> o + k <= n -> 0 <= part_start + s -> (part_start + s) * dev_blksz + n <= Z.of_nat (length disk) ->
  slice (sector_bytes s n) o k = Some (take (Z.to_nat k) (drop (Z.to_nat ((part_start + s) * dev_blksz + o)) disk)).
Proof.
  intros Ho Hk Hn Hs Hd. destruct (bd_pos (BD := BD) (disk := disk)) as [Hb _]. assert (Hx : 0 <= (part_start + s) * dev_blksz) by nia.
  unfold slice, sector_bytes. rewrite length_take, length_drop. replace (Nat.min _ _) with (Z.to_nat n) by lia.
  rewrite (proj2 (Z.leb_le 0 o)), (proj2 (Z.leb_le 0 k)), (proj2 (Z.leb_le _ _)) by lia. cbn [andb]. f_equal.
  rewrite skipn_firstn_comm, take_take, drop_drop. f_equal; [lia|]. f_equal. lia.
Qed.

Lemma load_fatbuf_ok d n : geometry d -> coherent d -> 0 <= n -> n * FATBUFSIZE d < fatlength d * dev_blksz ->
  exists d', load_fatbuf d n = Some (true, d') /\ geometry d' /\ coherent d' /\ same_fs d d' /\ fatbufnum d' = n.
Proof.
  intros G C Hn Hlt. pose proof G as [G1 G2 G3 G4 [G5 G6] G7 G8]. destruct (bd_pos (BD := BD) (disk := disk)) as [Hb Hb2]. pose proof (bd_size (BD := BD) (disk := disk)) as Hsz.
  unfold load_fatbuf. unfold FATBUFSIZE, FATBUFBLOCKS in *. rewrite G2 in *.
  assert (Hl31 : part_start + fat_sect d + fatlength d <= 2 ^ 31) by nia. assert (Hnl : n * 6 < fatlength d) by nia.
  destruct (Z.eqb_spec n (u32 (fatbufnum d))) as [E|E].
  - exists d. split; [done|]. split; [done|]. split; [done|]. split; [by destruct d|].
    destruct C as [C|(C1 & C2 & _)]; [rewrite C in E; vm_compute in E; lia|].
    unfold FATBUFSIZE, FATBUFBLOCKS in C2. rewrite G2 in C2. rewrite u32_small in E by nia. done.
  - rewrite (u32_small (n * 6)), (u32_small (n * 6 + 6)) by lia.
    set (g := if fatlength d <? n * 6 + 6 then u32 (fatlength d - n * 6) else 6).
    assert (Hg : g = Z.min 6 (fatlength d - n * 6)) by (unfold g; zcase; [rewrite u32_small by lia|]; lia). clearbody g.
    rewrite (u32_small (n * 6 + fat_sect d)) by lia. rewrite disk_read_ok by (lia || nia). cbn [mbind option_bind]. rewrite (proj2 (Z.ltb_ge _ _)) by lia.
    assert (HX : 0 <= g * dev_blksz <= dev_blksz * 6) by nia. assert (HD : (part_start + (n * 6 + fat_sect d)) * dev_blksz + g * dev_blksz <= Z.of_nat (length disk)) by nia.
    assert (HY : Z.of_nat (length (sector_bytes (n * 6 + fat_sect d) (g * dev_blksz))) = g * dev_blksz) by (apply length_sector; lia).
    rewrite (s32_small n) by lia. eexists. split; [done|]. set (b' := take _ _ ++ _). assert (Hlen : Z.of_nat (length b') = dev_blksz * 6).
    { unfold b'. rewrite !length_app, !Nat2Z.inj_add, HY, length_drop, length_take. lia. }
    split; [destruct G; split; try done; change (Z.of_nat (length b') = sect_size d * 6); by rewrite G2|]. split; [|split; done]. right. unfold FATBUFSIZE, FATBUFBLOCKS. cbn [with_fatbuf fatbufnum sect_size fatlength fatbuf fat_sect]. rewrite G2.
    split; [done|]. split; [done|]. intros o k Ho Hk Hok Hin. change (FAT (with_fatbuf d b' n)) with (FAT d). unfold b'. cbn [Z.to_nat]. change (take (Z.to_nat 0) (fatbuf d)) with (@nil Z). cbn [app].
    rewrite slice_app_l by (rewrite HY; destruct (Z.min_spec 6 (fatlength d - n * 6)) as [[_ Eg]|[_ Eg]]; rewrite Hg, Eg; lia).
    unfold FAT.
    assert (Hfat : (part_start + fat_sect d) * dev_blksz + fatlength d * dev_blksz <= Z.of_nat (length disk)) by nia.
    assert (o + k <= g * dev_blksz) by (destruct (Z.min_spec 6 (fatlength d - n * 6)) as [[_ Eg]|[_ Eg]]; rewrite Hg, Eg; lia).
    assert (0 <= n * (dev_blksz * 6)) by nia. rewrite !slice_sector by lia. do 3 f_equal. lia.
Qed.

Definition in_fat (d : fsdata) (i : Z) : Prop := 0 <= i /\ fatsize d * (i + 1) <= 8 * (fatlength d * dev_blksz).

Lemma fat_bytes d : byte_list (FAT d).
Proof. unfold FAT, sector_bytes. apply Forall_take, Forall_drop, bd_bytes. Qed.

(** A number in the buffer is a field of the FAT. *)
Lemma buf_field d o k : geometry d -> coherent d -> fatbufnum d <> -1 -> 0 <= o -> 0 <= k -> o + k <= FATBUFSIZE d ->
  fatbufnum d * FATBUFSIZE d + o + k <= fatlength d * dev_blksz ->
  get_le k (fatbuf d) o = Some (le_num (FAT d) / 2 ^ (8 * (fatbufnum d * FATBUFSIZE d + o)) mod 2 ^ (8 * k)).
Proof.
  intros G [C|(C1 & C2 & C3)] Hn Ho Hk Hb Hf; [done|]. unfold get_le. rewrite C3 by lia. pose proof G as [G1 G2 G3 G4 [G5 G6] G7 G8]. destruct (bd_pos (BD := BD) (disk := disk)) as [Hd _].
  assert (Hl : Z.of_nat (length (FAT d)) = fatlength d * dev_blksz) by (apply length_sector; nia).
  assert (0 <= fatbufnum d * FATBUFSIZE d) by (unfold FATBUFSIZE, FATBUFBLOCKS; nia).
  unfold slice. rewrite (proj2 (Z.leb_le 0 _)), (proj2 (Z.leb_le 0 k)), (proj2 (Z.leb_le _ (Z.of_nat _))) by lia. cbn [andb mbind option_bind]. f_equal.
  rewrite le_part by (apply fat_bytes || lia). rewrite !Z2Nat.id, !pow256 by lia. done.
Qed.

Lemma field_split N a : 0 <= a -> N / 2 ^ a mod 2 ^ 32 = N / 2 ^ a mod 2 ^ 16 + 2 ^ 16 * (N / 2 ^ (a + 16) mod 2 ^ 16).
Proof.
  intros Ha. change (2 ^ 32) with (2 ^ 16 * 2 ^ 16). rewrite Z.rem_mul_r by lia. rewrite Z.div_div by lia. by rewrite <- Z.pow_add_r by lia.
Qed.

(** Twelve bits out of two words at byte [8 * a]. *)
Lemma two_words_field N a c : 0 <= a -> 4 <= c <= 16 ->
  Z.lor (Z.shiftl (Z.land (N / 2 ^ (a + 16) mod 2 ^ 16) (Z.ones (c - 4))) (16 - c)) (Z.shiftr (Z.land (N / 2 ^ a mod 2 ^ 16) (Z.shiftl (Z.ones (16 - c)) c)) c) =
    N / 2 ^ (a + c) mod 2 ^ 12.
Proof.
  intros Ha Hc. rewrite two_words; [|apply Z.mod_pos_bound; lia.. | lia]. rewrite <- field_split by lia. by apply field_sub; lia.
Qed.

Lemma read_entry_12 d offset : geometry d -> coherent d -> fatbufnum d <> -1 -> fatsize d = 12 -> 0 <= offset < FAT12BUFSIZE d ->
  12 * (offset + 1) <= 8 * (fatlength d * dev_blksz - fatbufnum d * FATBUFSIZE d) ->
  read_entry d offset = Some (fat_ref 12 (FAT d) (fatbufnum d * FAT12BUFSIZE d + offset)).
Proof.
  intros G C Hn Ht Ho Hf. pose proof G as [G1 G2 G3 G4 [G5 G6] G7 G8]. destruct (bd_pos (BD := BD) (disk := disk)) as [Hd Hd2].
  assert (Hn0 : 0 <= fatbufnum d) by (destruct C as [C|[C _]]; done).
  assert (E12 : FAT12BUFSIZE d = 4 * sect_size d) by (unfold FAT12BUFSIZE, FATBUFSIZE, FATBUFBLOCKS; rewrite <- Z.mul_assoc; change (6 * 2) with (4 * 3); rewrite Z.mul_assoc, Z.div_mul by lia; lia).
  assert (EB : FATBUFSIZE d = 6 * sect_size d) by (unfold FATBUFSIZE, FATBUFBLOCKS; lia).
  set (B := fatbufnum d * FATBUFSIZE d) in *. assert (HB : 8 * B = 12 * (fatbufnum d * FAT12BUFSIZE d)) by (unfold B; rewrite E12, EB; lia).
  assert (HB2 : exists m, fatlength d * dev_blksz - B = 2 * m).
  { unfold B. rewrite EB, G2 in *. apply Z.mod_divide in G3 as [q Hq]; [|lia]. exists ((fatlength d - 6 * fatbufnum d) * (2 * q)). rewrite Hq. ring. }
  destruct HB2 as [m Hm]. unfold read_entry, fat_ref. rewrite Ht. cbn [Z.eqb Pos.eqb]. rewrite u32_small by lia.
  change (Z.land offset 3) with (Z.land offset (Z.ones 2)). rewrite Z.land_ones by lia. change (2 ^ 2) with 4.
  pose proof (Z.div_mod offset 4 ltac:(lia)) as Eo. pose proof (Z.mod_pos_bound offset 4 ltac:(lia)) as Hr. set (q := offset / 4) in *. set (r := offset mod 4) in *.
  assert (Hoff : offset * 3 / 4 = 3 * q + r * 3 / 4) by (rewrite Eo; replace ((4 * q + r) * 3) with (3 * q * 4 + r * 3) by ring; by rewrite Z.div_add_l by lia).
  rewrite Hoff. clearbody q r. assert (Hr4 : r = 0 \/ r = 1 \/ r = 2 \/ r = 3) by lia.
  destruct Hr4 as [-> |[-> |[-> | ->]]]; cbn [Z.eqb Pos.eqb].
  - change (0 * 3 / 4) with 0. rewrite buf_field by (done || lia). cbn [mbind option_bind]. fold B. f_equal. rewrite nibbles_0. change (8 * 2) with 16. rewrite <- (Z.div_1_r (_ mod 2 ^ 16)). change 1 with (2 ^ 0).
    rewrite field_sub by lia. do 2 f_equal. f_equal. lia.
  - change (1 * 3 / 4) with 0. rewrite !buf_field by (done || lia). cbn [mbind option_bind]. fold B. f_equal. change (8 * 2) with 16.
    replace (8 * (B + 2 * (3 * q + 0 + 1))) with (8 * (B + 2 * (3 * q + 0)) + 16) by lia. 
    etransitivity; [apply (two_words_field (le_num (FAT d)) (8 * (B + 2 * (3 * q + 0))) 12); lia|]. do 2 f_equal. f_equal. lia.
  - change (2 * 3 / 4) with 1. rewrite !buf_field by (done || lia). cbn [mbind option_bind]. fold B. f_equal. change (8 * 2) with 16.
    replace (8 * (B + 2 * (3 * q + 1 + 1))) with (8 * (B + 2 * (3 * q + 1)) + 16) by lia. 
    etransitivity; [apply (two_words_field (le_num (FAT d)) (8 * (B + 2 * (3 * q + 1))) 8); lia|]. do 2 f_equal. f_equal. lia.
  - change (3 * 3 / 4) with 2. rewrite buf_field by (done || lia). cbn [mbind option_bind]. fold B. f_equal. change (8 * 2) with 16.
    change 0xfff0 with (Z.shiftl (Z.ones (16 - 4)) 4). rewrite high_part by (lia || apply Z.mod_pos_bound; lia).
    rewrite <- (Z.mod_small (_ / 2 ^ 4) (2 ^ 12)) by (split; [apply Z.div_pos; [apply Z.mod_pos_bound; lia | lia] | apply Z.div_lt_upper_bound; [lia|]; apply Z.mod_pos_bound; lia]).
    rewrite field_sub by lia. do 2 f_equal. f_equal. lia.
Qed.

(** The entries of a FAT with [k] bytes each. *)
Lemma read_entry_bytes d k N offset : geometry d -> coherent d -> fatbufnum d <> -1 -> 0 < k -> FATBUFSIZE d = k * N -> 0 <= offset < N ->
  8 * k * (offset + 1) <= 8 * (fatlength d * dev_blksz - fatbufnum d * FATBUFSIZE d) ->
  get_le k (fatbuf d) (k * offset) = Some (fat_ref (8 * k) (FAT d) (fatbufnum d * N + offset)).
Proof.
  intros G C Hn Hk EB Ho Hf. rewrite buf_field by (done || nia). unfold fat_ref. do 2 f_equal. do 2 f_equal. rewrite EB. ring.
Qed.

Lemma fat_entries_ok d : geometry d -> exists N, fat_entries d = Some N /\ 0 < N /\ 8 * FATBUFSIZE d = fatsize d * N.
Proof.
  intros [G1 G2 G3 G4 _ _ _]. destruct (bd_pos (BD := BD) (disk := disk)) as [Hd _]. apply Z.mod_divide in G3 as [q Hq]; [|lia].
  assert (0 < q) by lia. unfold fat_entries, FAT12BUFSIZE, FAT16BUFSIZE, FAT32BUFSIZE, FATBUFSIZE, FATBUFBLOCKS.
  destruct G4 as [-> |[-> | ->]]; cbn [Z.eqb Pos.eqb]; eexists; (split; [done|]); rewrite Hq.
  - replace (q * 4 * 6 * 2) with (16 * q * 3) by ring. rewrite Z.div_mul by lia. lia.
  - replace (q * 4 * 6) with (12 * q * 2) by ring. rewrite Z.div_mul by lia. lia.
  - replace (q * 4 * 6) with (6 * q * 4) by ring. rewrite Z.div_mul by lia. lia.
Qed.

Lemma read_entry_ok d N offset : geometry d -> coherent d -> fatbufnum d <> -1 -> fat_entries d = Some N -> 0 <= offset < N ->
  in_fat d (fatbufnum d * N + offset) -> read_entry d offset = Some (fat_ref (fatsize d) (FAT d) (fatbufnum d * N + offset)).
Proof.
  intros G C Hn HN Ho [_ Hf]. destruct (fat_entries_ok d G) as (N' & HN' & HN0 & HB). rewrite HN in HN'. injection HN' as <-.
  assert (Hf' : fatsize d * (offset + 1) <= 8 * (fatlength d * dev_blksz - fatbufnum d * FATBUFSIZE d)) by nia. clear Hf.
  pose proof (g_type _ G) as [Ht|[Ht|Ht]]; rewrite Ht in *; unfold fat_entries in HN; rewrite Ht in HN; cbn [Z.eqb Pos.eqb] in HN; injection HN as <-.
  - by apply read_entry_12.
  - unfold read_entry. rewrite Ht. cbn [Z.eqb Pos.eqb]. apply (read_entry_bytes d 2); (done || lia).
  - unfold read_entry. rewrite Ht. cbn [Z.eqb Pos.eqb]. apply (read_entry_bytes d 4); (done || lia).
Qed.

Lemma get_fatent_ok d i : geometry d -> coherent d -> in_fat d i ->
  exists d', get_fatent d i = Some (fat_ref (fatsize d) (FAT d) i, d') /\ geometry d' /\ coherent d' /\ same_fs d d'.
Proof.
  intros G C [Hi Hf]. destruct (fat_entries_ok d G) as (N & HN & HN0 & HB). unfold get_fatent. rewrite HN.
  rewrite (proj2 (Z.eqb_neq N 0)) by lia. pose proof (Z.div_mod i N ltac:(lia)) as Ei. pose proof (Z.mod_pos_bound i N HN0) as Hr.
  replace (i - i / N * N) with (i mod N) by lia. set (q := i / N) in *. set (r := i mod N) in *. assert (Hq : 0 <= q) by (apply Z.div_pos; lia). clearbody q r.
  assert (0 < fatsize d) by (destruct (g_type _ G) as [-> |[-> | ->]]; lia).
  destruct (load_fatbuf_ok d q G C Hq ltac:(nia)) as (d' & E & G' & C' & S & Hn). rewrite E. cbn [mbind option_bind negb].
  assert (Hs : fat_entries d' = fat_entries d /\ fatsize d' = fatsize d /\ FAT d' = FAT d /\ fatlength d' = fatlength d) by (rewrite S; done). destruct Hs as (S1 & S2 & S3 & S4).
  rewrite (read_entry_ok d' N r); [|done..| lia | congruence | done | unfold in_fat; rewrite S2, S4, Hn; split; [nia|]; replace (q * N + r + 1) with (i + 1) by lia; done].
  cbn [mbind option_bind]. rewrite S2, S3, Hn. exists d'. split; [|done]. do 3 f_equal. lia.
Qed.

(** ** Clusters and files on the disk *)

(** An array after bytes were stored into it. *)
Definition patched (arr : list Z) (off : Z) (data : list Z) : list Z :=
  take (Z.to_nat off) arr ++ data ++ drop (Z.to_nat off + length data) arr.

Lemma splice_patched arr off data : 0 <= off -> off + Z.of_nat (length data) <= Z.of_nat (length arr) -> splice arr off data = Some (patched arr off data).
Proof. intros H1 H2. unfold splice. by rewrite (proj2 (Z.leb_le 0 off)), (proj2 (Z.leb_le _ _)) by lia. Qed.

Lemma length_patched arr off data : 0 <= off -> off + Z.of_nat (length data) <= Z.of_nat (length arr) -> length (patched arr off data) = length arr.
Proof. intros H1 H2. unfold patched. rewrite !length_app, length_take, length_drop. lia. Qed.

Lemma patched_twice arr off d1 d2 : 0 <= off -> off + Z.of_nat (length d1) + Z.of_nat (length d2) <= Z.of_nat (length arr) ->
  patched (patched arr off d1) (off + Z.of_nat (length d1)) d2 = patched arr off (d1 ++ d2).
Proof.
  intros H1 H2. set (o := Z.to_nat off). assert (EA : length (take o arr) = o) by (rewrite length_take; lia).
  unfold patched. replace (Z.to_nat (off + Z.of_nat (length d1))) with (o + length d1)%nat by lia. fold o. rewrite (app_assoc (take o arr) d1).
  assert (EL : length (take o arr ++ d1) = (o + length d1)%nat) by (rewrite length_app; lia).
  rewrite (take_app_length' (take o arr ++ d1)) by done. rewrite (drop_app_ge (take o arr ++ d1)) by lia.
  rewrite EL, drop_drop, length_app, <- !app_assoc. do 4 f_equal. lia.
Qed.

Lemma patched_nil arr off : 0 <= off -> patched arr off [] = arr.
Proof. intros H. unfold patched. cbn [length app]. rewrite Nat.add_0_r. apply take_drop. Qed.

Lemma disk_read_patched s n arr off : 0 <= part_start -> 0 <= s -> 0 <= n < 2 ^ 31 -> (part_start + s + n) * dev_blksz <= Z.of_nat (length disk) ->
  0 <= off -> off + n * dev_blksz <= Z.of_nat (length arr) -> disk_read s n arr off = Some (n, patched arr off (sector_bytes s (n * dev_blksz))).
Proof.
  intros H1 H2 H3 H4 H5 H6. rewrite disk_read_ok by done. destruct (bd_pos (BD := BD) (disk := disk)) as [Hd _].
  assert (0 <= n * dev_blksz) by nia. assert (Z.of_nat (length (sector_bytes s (n * dev_blksz))) = n * dev_blksz) by (apply length_sector; lia).
  unfold patched. by replace (Z.to_nat (off + n * dev_blksz)) with (Z.to_nat off + length (sector_bytes s (n * dev_blksz)))%nat by lia.
Qed.

(** One sector in a buffer of its own. *)
Lemma disk_read_one s : 0 <= part_start -> 0 <= s -> (part_start + s + 1) * dev_blksz <= Z.of_nat (length disk) ->
  disk_read s 1 (replicate (Z.to_nat dev_blksz) 0) 0 = Some (1, sector_bytes s dev_blksz).
Proof.
  intros H1 H2 H3. destruct (bd_pos (BD := BD) (disk := disk)) as [Hd _]. rewrite disk_read_patched by (done || lia || rewrite length_replicate; lia).
  rewrite Z.mul_1_l. assert (L : Z.of_nat (length (sector_bytes s dev_blksz)) = dev_blksz) by (apply length_sector; lia). unfold patched. cbn [Z.to_nat]. change (take 0 (replicate (Z.to_nat dev_blksz) 0)) with (@nil Z).
  rewrite drop_ge by (rewrite length_replicate; lia). by rewrite app_nil_r.
Qed.

Lemma sector_bytes_app s n m : 0 <= part_start + s -> 0 <= n -> 0 <= m ->
  sector_bytes s (n * dev_blksz) ++ sector_bytes (s + n) m = sector_bytes s (n * dev_blksz + m).
Proof.
  intros Hs Hn Hm. destruct (bd_pos (BD := BD) (disk := disk)) as [Hd _]. unfold sector_bytes. assert (0 <= n * dev_blksz) by nia. assert (0 <= (part_start + s) * dev_blksz) by nia.
  replace (Z.to_nat ((part_start + (s + n)) * dev_blksz)) with (Z.to_nat ((part_start + s) * dev_blksz) + Z.to_nat (n * dev_blksz))%nat by lia.
  rewrite <- drop_drop, Z2Nat.inj_add by lia. by rewrite take_take_drop.
Qed.

Lemma take_sector s n m : 0 <= m <= n -> take (Z.to_nat m) (sector_bytes s n) = sector_bytes s m.
Proof. intros H. unfold sector_bytes. rewrite take_take. f_equal. lia. Qed.

Lemma cluster_sectors_ok fuel d s arr off size : geometry d -> 0 <= s -> 0 <= size -> (Z.to_nat (size / dev_blksz) <= fuel)%nat ->
  (part_start + s + size / dev_blksz) * dev_blksz <= Z.of_nat (length disk) -> 0 <= off -> off + size <= Z.of_nat (length arr) ->
  let q := size / dev_blksz in
  cluster_sectors fuel d s arr off size = Some (inr (s + q, patched arr off (sector_bytes s (q * dev_blksz)), off + q * dev_blksz, size - q * dev_blksz)).
Proof.
  intros G. pose proof G as [G1 G2 G3 G4 [G5 G6] G7 G8]. destruct (bd_pos (BD := BD) (disk := disk)) as [Hd Hd2]. pose proof (bd_size (BD := BD) (disk := disk)) as Hsz. assert (Hd0 : dev_blksz <> 0) by lia.
  revert s arr off size. induction fuel as [|fuel IH]; intros s arr off size Hs Hz Hf Hdk Ho Ha q; cbn [cluster_sectors]; rewrite G2;
    pose proof (Z.div_mod size dev_blksz Hd0) as E; pose proof (Z.mod_pos_bound size dev_blksz Hd) as R; fold q in E, Hf, Hdk;
    destruct (Z.ltb_spec size dev_blksz) as [Hlt|Hge].
  1, 3: assert (Hq : q = 0) by (apply Z.div_small; lia); rewrite Hq, Z.mul_0_l, !Z.add_0_r, Z.sub_0_r; unfold sector_bytes; cbn [Z.to_nat]; change (take 0 ?l) with (@nil Z); by rewrite patched_nil.
  - assert (0 < q) by nia. lia.
  - assert (Hq : 0 < q) by nia. rewrite disk_read_one by (done || nia). cbn [mbind option_bind]. change (negb (1 =? 1)) with false. cbn iota.
    assert (L : Z.of_nat (length (sector_bytes s dev_blksz)) = dev_blksz) by (apply length_sector; nia). rewrite splice_patched by lia. cbn [mbind option_bind].
    assert (Hsum : part_start + s + q <= 2 ^ 31) by nia. rewrite u32_small by lia. assert (Eq : (size - dev_blksz) / dev_blksz = q - 1).
    { unfold q. replace (size - dev_blksz) with (size + (-1) * dev_blksz) by lia. rewrite Z.div_add by lia. lia. }
    rewrite IH by (rewrite ?Eq, ?length_patched by lia; first [lia | nia]). rewrite Eq. do 2 f_equal. f_equal; [f_equal; [f_equal|]|]; try lia.
    replace (off + dev_blksz) with (off + Z.of_nat (length (sector_bytes s dev_blksz))) by lia.
    assert (L2 : Z.of_nat (length (sector_bytes (s + 1) ((q - 1) * dev_blksz))) = (q - 1) * dev_blksz) by (apply length_sector; nia). rewrite patched_twice by nia. f_equal.
    rewrite <- (Z.mul_1_l dev_blksz) at 1. assert (0 <= (q - 1) * dev_blksz) by nia. rewrite sector_bytes_app by lia. f_equal. lia.
Qed.

(** Sectors from [s] on, [m] of them on the device, are read whether or not the place is aligned. *)
Lemma get_cluster_ok d c addr arr off size m : geometry d -> 0 < c -> 0 <= data_begin d + c * clust_size d -> 0 <= size < 2 ^ 31 -> size <= m * dev_blksz ->
  (part_start + (data_begin d + c * clust_size d) + m) * dev_blksz <= Z.of_nat (length disk) -> 0 <= off -> off + size <= Z.of_nat (length arr) ->
  get_cluster d c addr arr off size = Some (0, patched arr off (sector_bytes (data_begin d + c * clust_size d) size)).
Proof.
  intros G Hc Hs Hz Hm Hdk Ho Ha. pose proof G as [G1 G2 G3 G4 [G5 G6] G7 G8]. destruct (bd_pos (BD := BD) (disk := disk)) as [Hd Hd2]. pose proof (bd_size (BD := BD) (disk := disk)) as Hsz. assert (Hd0 : dev_blksz <> 0) by lia.
  pose proof (Z.div_mod size dev_blksz Hd0) as E. pose proof (Z.mod_pos_bound size dev_blksz Hd) as R. set (s := data_begin d + c * clust_size d) in *.
  assert (Hq : 0 <= size / dev_blksz <= size) by (split; [apply Z.div_pos; lia | apply Z.div_le_upper_bound; nia]).
  assert (Hqm : size / dev_blksz <= m) by nia. assert (Hsum : part_start + s + m <= 2 ^ 31) by nia.
  unfold get_cluster. rewrite (proj2 (Z.ltb_lt 0 c)) by lia. fold s. rewrite (u32_small s) by nia. rewrite G2, (proj2 (Z.eqb_neq dev_blksz 0)) by lia.
  set (q := size / dev_blksz) in *. set (arr' := patched arr off (sector_bytes s (q * dev_blksz))).
  assert (Hlen : Z.of_nat (length (sector_bytes s (q * dev_blksz))) = q * dev_blksz) by (apply length_sector; nia).
  transitivity (match inr (s + q, arr', off + q * dev_blksz, size - q * dev_blksz) with
    | inl arr => Some (-1, arr)
    | inr (startsect, arr, off, size) =>
        if negb (size =? 0) then
          '(ret, tmpbuf) ← disk_read startsect 1 (replicate (Z.to_nat dev_blksz) 0) 0;
          if negb (ret =? 1) then Some (-1, arr) else
          arr ← splice arr off (take (Z.to_nat size) tmpbuf);
          Some (0, arr)
        else Some (0, arr)
    end : option (Z * list Z)).
  - destruct (negb (Z.land (addr + off) (ARCH_DMA_MINALIGN - 1) =? 0)).
    + rewrite cluster_sectors_ok by (done || lia || nia). done.
    + rewrite disk_read_patched by (done || lia || nia). cbn [mbind option_bind]. rewrite (u32_small q) by lia. rewrite Z.eqb_refl. cbn [negb]. rewrite (u32_small (s + q)) by lia. done.
  - cbv beta iota. destruct (Z.eqb_spec (size - q * dev_blksz) 0) as [E0|E0]; cbn [negb].
    + unfold arr'. do 4 f_equal. lia.
    + assert (Hqm1 : q < m) by nia. assert (Hqm2 : (q + 1) * dev_blksz <= m * dev_blksz) by (apply Z.mul_le_mono_nonneg_r; lia).
      rewrite disk_read_one by (done || lia). cbn [mbind option_bind]. change (negb (1 =? 1)) with false. cbn iota. rewrite take_sector by lia.
      assert (L : Z.of_nat (length (sector_bytes (s + q) (size - q * dev_blksz))) = size - q * dev_blksz) by (apply length_sector; lia).
      assert (length arr' = length arr) by (apply length_patched; lia). rewrite splice_patched by lia. cbn [mbind option_bind].
      unfold arr'. replace (off + q * dev_blksz) with (off + Z.of_nat (length (sector_bytes s (q * dev_blksz)))) by lia. rewrite patched_twice by lia.
      rewrite sector_bytes_app by lia. do 4 f_equal. lia.
Qed.

(** A state of the file system [d0] on the device. *)
Definition vol (d0 d : fsdata) : Prop := geometry d /\ coherent d /\ same_fs d0 d.

Definition clust_sect (d : fsdata) (c : Z) : Z := data_begin d + c * clust_size d.
Definition cluster_bytes (d : fsdata) (c : Z) : list Z := sector_bytes (clust_sect d c) (bytesperclust d).
Definition next_cluster (d : fsdata) (c : Z) : Z := fat_ref (fatsize d) (FAT d) c.

(** A cluster that the FAT describes and the device holds. *)
Definition good_cluster (d : fsdata) (c : Z) : Prop :=
  CHECK_CLUST c (fatsize d) = false /\ in_fat d c /\ 0 <= clust_sect d c /\ (part_start + clust_sect d (c + 1)) * dev_blksz <= Z.of_nat (length disk).

(** The clusters [c :: cs] follow each other in the FAT. *)
Fixpoint cluster_chain (d : fsdata) (c : Z) (cs : list Z) : Prop :=
  good_cluster d c /\ match cs with [] => True | c' :: cs => next_cluster d c = c' /\ cluster_chain d c' cs end.

(** Their bytes. *)
Definition content (d : fsdata) (cs : list Z) : list Z := concat (map (cluster_bytes d) cs).

Lemma same_fs_trans d0 d1 d2 : same_fs d0 d1 -> same_fs d1 d2 -> same_fs d0 d2.
Proof. unfold same_fs. intros E1 E2. rewrite E1 in E2. exact E2. Qed.

Lemma get_fatent_vol d0 d i : vol d0 d -> in_fat d0 i -> exists d', get_fatent d i = Some (next_cluster d0 i, d') /\ vol d0 d'.
Proof.
  intros (G & C & S) Hi. destruct (get_fatent_ok d i G C) as (d' & E & G' & C' & S'); [rewrite S; exact Hi|].
  exists d'. split; [rewrite E, S; done|]. split; [done|]. split; [done|]. by apply (same_fs_trans d0 d).
Qed.

Lemma cluster_chain_good d c cs : cluster_chain d c cs -> good_cluster d c.
Proof. by destruct cs; intros []. Qed.

Lemma good_range d c : good_cluster d c -> 2 <= c < 2 ^ 28.
Proof.
  intros (H & _). unfold CHECK_CLUST in H. apply orb_false_elim in H as [H1 H2]. apply Z.leb_gt in H1, H2. split; [lia|].
  destruct (negb (fatsize d =? 32)), (negb (fatsize d =? 16)); lia.
Qed.

Section files.
Context (d0 : fsdata) (CS : 0 < clust_size d0) (SS : sect_size d0 = dev_blksz) (PS : 0 <= part_start).
Abbreviation bpc := (bytesperclust d0).

Lemma bpc_eq : bpc = clust_size d0 * dev_blksz /\ 0 < bpc.
Proof. unfold bytesperclust. rewrite SS. destruct (bd_pos (BD := BD) (disk := disk)). nia. Qed.

Lemma length_cluster c : good_cluster d0 c -> Z.of_nat (length (cluster_bytes d0 c)) = bpc.
Proof.
  intros (_ & _ & H1 & H2). destruct bpc_eq as [E Hb]. unfold cluster_bytes. apply length_sector; [lia | lia|].
  unfold clust_sect in *. rewrite E. lia.
Qed.

Lemma length_content c cs : cluster_chain d0 c cs -> Z.of_nat (length (content d0 (c :: cs))) = (1 + Z.of_nat (length cs)) * bpc.
Proof.
  revert c. induction cs as [|c' cs IH]; intros c [Hg H]; unfold content; cbn [map concat]; rewrite length_app, Nat2Z.inj_add, length_cluster by done; [cbn [length]; lia|].
  destruct H as [_ H]. fold (content d0 (c' :: cs)). change (length (cluster_bytes d0 c' ++ _)) with (length (content d0 (c' :: cs))). rewrite IH by done. cbn [length]. lia.
Qed.

Lemma seek_loop_ok fuel d c cs a pos : vol d0 d -> cluster_chain d0 c cs -> a - bpc <= pos < a + bpc * Z.of_nat (length cs) -> pos - a < Z.of_nat fuel ->
  exists pre c' cs' d', seek_loop fuel d c a pos = Some (Some (c', a + Z.of_nat (length pre) * bpc), d') /\ vol d0 d' /\ c :: cs = pre ++ c' :: cs' /\ cluster_chain d0 c' cs' /\
    a + Z.of_nat (length pre) * bpc - bpc <= pos < a + Z.of_nat (length pre) * bpc.
Proof.
  destruct bpc_eq as [_ Hb]. revert d c cs a. induction fuel as [|fuel IH]; intros d c cs a V Hc Hp Hf; cbn [seek_loop]; destruct (Z.ltb_spec pos a) as [Hlt|Hge].
  1, 3: exists [], c, cs, d; cbn [length app]; rewrite Z.mul_0_l, Z.add_0_r; do 4 (split; [done|]); lia.
  - lia.
  - destruct cs as [|c' cs]; [cbn [length] in Hp; lia|]. destruct Hc as [Hg [Hn Hc]]. destruct (get_fatent_vol d0 d c V) as (d' & E & V'); [apply Hg|]. rewrite E. cbn [mbind option_bind].
    pose proof V' as (_ & _ & Sm). assert (Es : fatsize d' = fatsize d0 /\ bytesperclust d' = bpc) by (rewrite Sm; done). destruct Es as [-> ->]. rewrite Hn.
    rewrite (proj1 (cluster_chain_good _ _ _ Hc)). cbn [length] in Hp. destruct (IH d' c' cs (a + bpc) V' Hc ltac:(lia) ltac:(lia)) as (pre & c2 & cs2 & d2 & E2 & V2 & El & C2 & Hp2).
    exists (c :: pre), c2, cs2, d2. cbn [length app]. rewrite E2, El. rewrite Nat2Z.inj_succ. split; [do 4 f_equal; lia|]. do 3 (split; [done|]). lia.
Qed.

(** The clusters from [e] on that lie next to each other on the disk. *)
Lemma consecutive_ok fuel d e cs a f : vol d0 d -> cluster_chain d0 e cs -> f <= a + bpc * Z.of_nat (length cs) -> f - a <= Z.of_nat fuel ->
  exists k d', (k <= length cs)%nat /\ vol d0 d' /\ cluster_chain d0 (e + Z.of_nat k) (drop k cs) /\
    content d0 (e :: take k cs) = sector_bytes (clust_sect d0 e) ((1 + Z.of_nat k) * bpc) /\
    (consecutive fuel d e a f = Some (Rest, d') /\ f <= a + Z.of_nat k * bpc \/
     consecutive fuel d e a f = Some (Getit (e + Z.of_nat k) (a + Z.of_nat k * bpc), d') /\ a + Z.of_nat k * bpc < f).
Proof.
  destruct bpc_eq as [Eb Hb]. revert d e cs a. induction fuel as [|fuel IH]; intros d e cs a V Hc Hl Hf; cbn [consecutive]; destruct (Z.leb_spec f a) as [Hle|Hgt].
  1, 3: exists 0%nat, d; rewrite Z.mul_0_l, !Z.add_0_r, drop_0; (split; [lia|]); do 2 (split; [done|]); (split; [|by left]); unfold content; cbn [take map concat]; by rewrite app_nil_r, Z.mul_1_l.
  - lia.
  - destruct cs as [|c' cs]; [cbn [length] in Hl; lia|]. pose proof Hc as [Hg [Hn Hc']]. destruct (get_fatent_vol d0 d e V) as (d' & E & V'); [apply Hg|]. rewrite E. cbn [mbind option_bind]. rewrite Hn.
    pose proof (good_range _ _ Hg) as Re. pose proof (good_range _ _ (cluster_chain_good _ _ _ Hc')) as Rc. rewrite u32_small by lia.
    pose proof V' as (_ & _ & Sm). assert (Es : fatsize d' = fatsize d0 /\ bytesperclust d' = bpc) by (rewrite Sm; done). destruct Es as [-> ->].
    destruct (Z.eqb_spec (c' - 1) e) as [Ec|Ec]; cbn [negb].
    + rewrite (proj1 (cluster_chain_good _ _ _ Hc')). cbn [length] in Hl. destruct (IH d' c' cs (a + bpc) V' Hc' ltac:(lia) ltac:(lia)) as (k & d2 & Hk & V2 & C2 & E2 & R).
      exists (S k), d2. cbn [length drop take]. rewrite Nat2Z.inj_succ. split; [lia|]. split; [done|]. split; [by replace (e + Z.succ (Z.of_nat k)) with (c' + Z.of_nat k) by lia|]. split.
      * change (content d0 (e :: c' :: take k cs)) with (cluster_bytes d0 e ++ content d0 (c' :: take k cs)). rewrite E2. unfold cluster_bytes. destruct Hg as (_ & _ & H1 & _).
        replace (clust_sect d0 c') with (clust_sect d0 e + clust_size d0) by (unfold clust_sect; replace c' with (e + 1) by lia; ring). rewrite Eb at 1. rewrite sector_bytes_app by nia. f_equal. lia.
      * replace (e + Z.succ (Z.of_nat k)) with (c' + Z.of_nat k) by lia. replace (a + Z.succ (Z.of_nat k) * bpc) with (a + bpc + Z.of_nat k * bpc) by ring. done.
    + exists 0%nat, d'. rewrite Z.mul_0_l, !Z.add_0_r, drop_0. split; [lia|]. do 2 (split; [done|]). split; [unfold content; cbn [take map concat]; by rewrite app_nil_r, Z.mul_1_l|]. right. done.
Qed.

Lemma content_app cs1 cs2 : content d0 (cs1 ++ cs2) = content d0 cs1 ++ content d0 cs2.
Proof. unfold content. by rewrite map_app, concat_app. Qed.

(** A part of a chain read with one call of [get_cluster]. *)
Lemma get_cluster_run d c cs k addr arr off size : vol d0 d -> cluster_chain d0 c cs -> (k <= length cs)%nat -> cluster_chain d0 (c + Z.of_nat k) (drop k cs) ->
  content d0 (c :: take k cs) = sector_bytes (clust_sect d0 c) ((1 + Z.of_nat k) * bpc) -> 0 <= size < 2 ^ 31 -> size <= (1 + Z.of_nat k) * bpc ->
  0 <= off -> off + size <= Z.of_nat (length arr) ->
  get_cluster d c addr arr off size = Some (0, patched arr off (take (Z.to_nat size) (content d0 (c :: cs)))).
Proof.
  intros (G & _ & Sm) Hc Hk Hk2 Hr Hz Hm Ho Ha. destruct bpc_eq as [Eb Hb]. destruct (bd_pos (BD := BD) (disk := disk)) as [Hd _].
  pose proof (cluster_chain_good _ _ _ Hc) as Hg. pose proof (good_range _ _ Hg) as Rc. destruct Hg as (_ & _ & H1 & _). destruct (cluster_chain_good _ _ _ Hk2) as (_ & _ & _ & H2).
  assert (Es : data_begin d = data_begin d0 /\ clust_size d = clust_size d0) by (rewrite Sm; done). destruct Es as [Ed Ec].
  rewrite (get_cluster_ok d c addr arr off size ((1 + Z.of_nat k) * clust_size d0)); rewrite ?Ed, ?Ec; fold (clust_sect d0 c); try done; [|lia|rewrite Eb in Hm; lia|].
  - do 3 f_equal. rewrite <- (take_drop k cs). change (c :: take k cs ++ drop k cs) with ((c :: take k cs) ++ drop k cs). rewrite content_app, Hr.
    rewrite take_app_le; [by rewrite take_sector by lia|]. unfold sector_bytes. rewrite length_take, length_drop. unfold clust_sect in *. rewrite Eb in *. nia.
  - unfold clust_sect in *. etransitivity; [|exact H2]. apply Z.mul_le_mono_nonneg_r; lia.
Qed.

Lemma take_content c cs k f : cluster_chain d0 c cs -> (k < length cs)%nat -> (1 + Z.of_nat k) * bpc <= f ->
  take (Z.to_nat f) (content d0 (c :: cs)) =
    take (Z.to_nat ((1 + Z.of_nat k) * bpc)) (content d0 (c :: cs)) ++ take (Z.to_nat (f - (1 + Z.of_nat k) * bpc)) (content d0 (drop k cs)).
Proof.
  intros Hc Hk Hf. destruct bpc_eq as [_ Hb]. set (n := (1 + Z.of_nat k) * bpc) in *. assert (0 <= n) by nia.
  assert (L : forall k c cs, cluster_chain d0 c cs -> (k < length cs)%nat -> Z.of_nat (length (content d0 (c :: take k cs))) = (1 + Z.of_nat k) * bpc).
  { clear - CS SS PS DOk. induction k as [|k IH]; intros c [|c' cs] Hc Hk; cbn [length] in Hk; try lia; destruct Hc as (Hg & _ & Hc); cbn [take].
    - unfold content. cbn [map concat]. rewrite app_nil_r, length_cluster by done. lia.
    - change (content d0 (c :: c' :: take k cs)) with (cluster_bytes d0 c ++ content d0 (c' :: take k cs)). rewrite length_app, Nat2Z.inj_add, length_cluster, IH by (done || lia). lia. }
  specialize (L k c cs Hc Hk). fold n in L.
  assert (E : content d0 (c :: cs) = content d0 (c :: take k cs) ++ content d0 (drop k cs)) by (rewrite <- content_app; cbn [app]; by rewrite take_drop).
  rewrite E. rewrite take_app_ge by lia. rewrite take_app_length' by lia. do 2 f_equal. lia.
Qed.

Lemma copy_loop_ok fuel d c cs addr arr off f got : vol d0 d -> cluster_chain d0 c cs -> 0 < f < 2 ^ 31 -> f <= (1 + Z.of_nat (length cs)) * bpc ->
  0 <= off -> off + f <= Z.of_nat (length arr) -> f <= Z.of_nat fuel ->
  exists d', copy_loop fuel d c addr arr off f got = Some (0, got + f, patched arr off (take (Z.to_nat f) (content d0 (c :: cs))), d') /\ vol d0 d'.
Proof.
  destruct bpc_eq as [Eb Hb]. revert d c cs arr off f got. induction fuel as [|fuel IH]; intros d c cs arr off f got V Hc Hf Hl Ho Ha Hfu; [lia|].
  cbn [copy_loop]. pose proof V as (_ & _ & Sm). replace (bytesperclust d) with bpc by (rewrite Sm; done). clear Sm.
  destruct (consecutive_ok (S fuel) d c cs bpc f V Hc ltac:(lia) ltac:(lia)) as (k & d1 & Hk & V1 & C1 & E1 & [[R Hfk]|[R Hfk]]); rewrite R; cbn [mbind option_bind].
  - rewrite (u32_small f) by lia. rewrite (get_cluster_run d1 c cs k) by (done || lia). cbn [mbind option_bind]. change (negb (0 =? 0)) with false. cbn iota. by exists d1.
  - set (n := bpc + Z.of_nat k * bpc) in *. assert (En : n = (1 + Z.of_nat k) * bpc) by (unfold n; ring). assert (Hn : 0 < n) by nia. rewrite (u32_small n), (s32_small n) by lia.
    rewrite (get_cluster_run d1 c cs k) by (done || lia). cbn [mbind option_bind]. change (negb (0 =? 0)) with false. cbn iota.
    assert (Hkl : (k < length cs)%nat) by nia. pose proof (take_content c cs k f Hc Hkl ltac:(lia)) as Et.
    assert (Ln : Z.of_nat (length (take (Z.to_nat n) (content d0 (c :: cs)))) = n) by (rewrite length_take; pose proof (length_content c cs Hc); nia).
    destruct (drop k cs) as [|c2 cs2] eqn:Ed; [apply (f_equal length) in Ed; rewrite length_drop in Ed; cbn in Ed; lia|].
    assert (Hl2 : length cs = (k + S (length cs2))%nat) by (apply (f_equal length) in Ed; rewrite length_drop in Ed; cbn [length] in Ed; lia).
    destruct C1 as [Hg2 [Hn2 C2]]. destruct (get_fatent_vol d0 d1 (c + Z.of_nat k) V1) as (d2 & E2 & V2); [apply Hg2|]. rewrite E2. cbn [mbind option_bind].
    pose proof V2 as (_ & _ & Sm). replace (fatsize d2) with (fatsize d0) by (rewrite Sm; done). rewrite Hn2, (proj1 (cluster_chain_good _ _ _ C2)).
    destruct (IH d2 c2 cs2 (patched arr off (take (Z.to_nat n) (content d0 (c :: cs)))) (off + n) (f - n) (got + n) V2 C2) as (d3 & E3 & V3); [lia|nia|lia|rewrite length_patched; lia|lia|].
    exists d3. split; [|done]. rewrite E3. pose proof (length_content c2 cs2 C2) as Lc2.
    replace (off + n) with (off + Z.of_nat (length (take (Z.to_nat n) (content d0 (c :: cs))))) by lia.
    rewrite patched_twice by (try rewrite (length_take _ (Z.to_nat (f - n))); lia). rewrite Et, <- En. do 4 f_equal. lia.
Qed.

Lemma length_pre c cs pre c' cs' : cluster_chain d0 c cs -> c :: cs = pre ++ c' :: cs' -> Z.of_nat (length (content d0 pre)) = Z.of_nat (length pre) * bpc.
Proof.
  revert c cs. induction pre as [|p pre IH]; intros c cs Hc E; [done|]. injection E as -> E. pose proof (cluster_chain_good _ _ _ Hc) as Hg.
  change (content d0 (p :: pre)) with (cluster_bytes d0 p ++ content d0 pre). rewrite length_app, Nat2Z.inj_add, length_cluster by done. cbn [length].
  destruct cs as [|c2 cs]; [by destruct pre|]. destruct Hc as (_ & _ & Hc). rewrite (IH c2 cs Hc E). lia.
Qed.

Lemma slice_patched arr data o k : 0 <= o -> 0 <= k -> o + k <= Z.of_nat (length data) -> Z.of_nat (length data) <= Z.of_nat (length arr) ->
  slice (patched arr 0 data) o k = Some (take (Z.to_nat k) (drop (Z.to_nat o) data)).
Proof.
  intros Ho Hk Hd Ha. unfold patched. change (take (Z.to_nat 0) arr) with (@nil Z). cbn [app]. rewrite slice_app_l by done.
  unfold slice. by rewrite (proj2 (Z.leb_le 0 o)), (proj2 (Z.leb_le 0 k)), (proj2 (Z.leb_le _ _)) by lia.
Qed.

Lemma read_from_ok fuel d vblock c cs pos f addr arr : vol d0 d -> cluster_chain d0 c cs -> 0 <= pos < bpc -> pos < f < 2 ^ 31 -> f <= (1 + Z.of_nat (length cs)) * bpc ->
  bpc <= Z.of_nat (length vblock) -> f - pos <= Z.of_nat (length arr) -> f <= Z.of_nat fuel ->
  exists v' d', read_from fuel d vblock c pos f addr arr =
    Some (0, f - pos, patched arr 0 (take (Z.to_nat (f - pos)) (drop (Z.to_nat pos) (content d0 (c :: cs)))), v', d') /\ vol d0 d' /\ length v' = length vblock.
Proof.
  intros V Hc Hp Hf Hl Hv Ha Hfu. destruct bpc_eq as [Eb Hb]. unfold read_from. pose proof V as (_ & _ & Sm). replace (bytesperclust d) with bpc by (rewrite Sm; done). clear Sm.
  destruct (Z.eqb_spec pos 0) as [-> |Hp0]; cbn [negb].
  - destruct (copy_loop_ok fuel d c cs addr arr 0 f 0 V Hc) as (d' & E & V'); [lia..|]. rewrite E. cbn [mbind option_bind]. exists vblock, d'. rewrite Z.add_0_l, Z.sub_0_r. done.
  - set (a := Z.min f bpc). assert (Ra : 0 < a < 2 ^ 31 /\ pos < a) by lia. rewrite (u32_small a) by lia. pose proof (length_content c cs Hc) as Lc.
    rewrite (get_cluster_run d c cs 0 0 vblock 0 a); [|done|done|lia|by rewrite Z.add_0_r, drop_0|unfold content; cbn [take map concat]; by rewrite app_nil_r, Z.add_0_r, Z.mul_1_l|lia..].
    cbn [mbind option_bind]. change (negb (0 =? 0)) with false. cbn iota. assert (La : Z.of_nat (length (take (Z.to_nat a) (content d0 (c :: cs)))) = a) by (rewrite length_take; lia).
    rewrite slice_patched by lia. cbn [mbind option_bind]. set (data := take (Z.to_nat (a - pos)) _).
    assert (Ed : data = take (Z.to_nat (a - pos)) (drop (Z.to_nat pos) (content d0 (c :: cs)))) by (unfold data; rewrite skipn_firstn_comm, take_take; f_equal; lia).
    assert (Ld : Z.of_nat (length data) = a - pos) by (unfold data; rewrite length_take, length_drop; lia). clearbody data.
    rewrite splice_patched by lia. cbn [mbind option_bind]. destruct (Z.eqb_spec (f - a) 0) as [E0|E0].
    + eexists _, d. replace (f - pos) with (a - pos) by lia. rewrite <- Ed. split; [done|]. split; [done|]. apply length_patched; lia.
    + assert (Ea : a = bpc) by lia. destruct cs as [|c2 cs]; [cbn [length] in Hl; lia|]. pose proof Hc as (Hg & Hn & C2). destruct (get_fatent_vol d0 d c V) as (d1 & E1 & V1); [apply Hg|].
      rewrite E1. cbn [mbind option_bind]. pose proof V1 as (_ & _ & Sm). replace (fatsize d1) with (fatsize d0) by (rewrite Sm; done). rewrite Hn, (proj1 (cluster_chain_good _ _ _ C2)).
      cbn [length] in Hl. pose proof (length_content c2 cs C2) as Lc2.
      destruct (copy_loop_ok fuel d1 c2 cs addr (patched arr 0 data) (a - pos) (f - a) (a - pos) V1 C2) as (d2 & E2 & V2); [lia|lia|lia|rewrite length_patched; lia|lia|].
      rewrite E2. cbn [mbind option_bind]. exists (patched vblock 0 (take (Z.to_nat a) (content d0 (c :: c2 :: cs)))), d2. split; [|split; [done | apply length_patched; lia]]. replace (a - pos + (f - a)) with (f - pos) by lia. do 4 f_equal.
      replace (a - pos) with (0 + Z.of_nat (length data)) at 1 by lia. pose proof (firstn_le_length (Z.to_nat (f - a)) (content d0 (c2 :: cs))). rewrite patched_twice by lia. f_equal. rewrite Ed.
      change (content d0 (c :: c2 :: cs)) with (cluster_bytes d0 c ++ content d0 (c2 :: cs)). pose proof (length_cluster c Hg) as L1.
      rewrite drop_app_le by lia. assert (L3 : length (drop (Z.to_nat pos) (cluster_bytes d0 c)) = Z.to_nat (a - pos)) by (rewrite length_drop; lia).
      rewrite (take_app_length' _ _ (Z.to_nat (a - pos))) by done. rewrite take_app_ge by lia. do 2 f_equal. lia.
Qed.
End files.

(** The number of bytes a call reads. *)
Definition read_size (size pos maxsize : Z) : Z :=
  if size <=? pos then 0 else if (0 <? maxsize) && (pos + maxsize <? size) then maxsize else size - pos.

Lemma get_contents_ok d vblock dent cs pos addr arr maxsize : geometry d -> coherent d -> 0 < clust_size d -> cluster_chain d (START d dent) cs ->
  d_size dent <= (1 + Z.of_nat (length cs)) * bytesperclust d -> d_size dent < 2 ^ 31 -> bytesperclust d <= Z.of_nat (length vblock) -> 0 <= pos ->
  let n := read_size (d_size dent) pos maxsize in n <= Z.of_nat (length arr) ->
  exists v' d', get_contents d vblock dent pos addr arr maxsize =
      Some (0, n, patched arr 0 (take (Z.to_nat n) (drop (Z.to_nat pos) (content d (START d dent :: cs)))), v', d') /\ vol d d' /\ length v' = length vblock.
Proof.
  intros G C CS Hc Hl Hs Hv Hp n Ha. pose proof (g_ss _ G) as SS. pose proof (g_part _ G) as PS. destruct (bpc_eq d CS SS) as [Eb Hb].
  assert (V : vol d d) by (split; [done|]; split; [done|]; by destruct d). unfold get_contents, n, read_size in *.
  destruct (Z.leb_spec (d_size dent) pos) as [Hle|Hgt]; [exists vblock, d; by rewrite patched_nil|].
  set (F := if (0 <? maxsize) && (pos + maxsize <? d_size dent) then pos + maxsize else d_size dent).
  assert (HF : pos < F <= d_size dent /\ (if (0 <? maxsize) && (pos + maxsize <? d_size dent) then maxsize else d_size dent - pos) = F - pos).
  { unfold F. destruct (Z.ltb_spec 0 maxsize), (Z.ltb_spec (pos + maxsize) (d_size dent)); cbn [andb]; lia. }
  destruct HF as [HF EF]. rewrite EF in *. clearbody F. clear EF n.
  destruct (seek_loop_ok d CS SS (S (Z.to_nat F)) d (START d dent) cs (bytesperclust d) pos V Hc ltac:(lia) ltac:(lia)) as (pre & c' & cs' & d1 & E1 & V1 & El & C1 & R).
  rewrite E1. cbn [mbind option_bind]. set (P := Z.of_nat (length pre) * bytesperclust d) in *. replace (bytesperclust d + P - bytesperclust d1) with P by (pose proof V1 as (_ & _ & Sm); replace (bytesperclust d1) with (bytesperclust d) by (rewrite Sm; done); lia).
  pose proof (length_pre d CS SS PS _ _ _ _ _ Hc El) as Lp. fold P in Lp. assert (Hlc : Z.of_nat (length cs) = Z.of_nat (length pre) + Z.of_nat (length cs')) by (apply (f_equal length) in El; rewrite length_app in El; cbn [length] in El; lia).
  destruct (read_from_ok d CS SS PS (S (Z.to_nat F)) d1 vblock c' cs' (pos - P) (F - P) addr arr V1 C1) as (v' & d' & E & V' & L'); [lia|lia|unfold P; lia|done|lia|lia|].
  exists v', d'. replace (F - P - (pos - P)) with (F - pos) in E by lia. rewrite El, content_app, drop_app_ge by lia.
  replace (Z.to_nat pos - length (content d pre))%nat with (Z.to_nat (pos - P)) by lia. split; [|done]. exact E.
Qed.

(** C27: [get_fatent] returns the entry of the FAT, read as one little-endian number cut into fields of 12, 16 or 32
    bits, whichever block of the FAT is in the buffer, and keeps the buffer coherent. *)
Theorem get_fatent_correct d i : geometry d -> coherent d -> in_fat d i ->
  exists d', get_fatent d i = Some (fat_ref (fatsize d) (FAT d) i, d') /\ geometry d' /\ coherent d' /\ same_fs d d'.
Proof. apply get_fatent_ok. Qed.

(** C26: [get_contents] stores the bytes of the file from [pos] on, at most [maxsize] of them when that is not 0, returns
    0 and their number, for files whose clusters are anywhere on the disk, in any of the three formats and at any
    alignment; nothing else in the array changes and the buffer stays coherent. *)
Theorem get_contents_correct d vblock dent cs pos addr arr maxsize : geometry d -> coherent d -> 0 < clust_size d -> cluster_chain d (START d dent) cs ->
  d_size dent <= (1 + Z.of_nat (length cs)) * bytesperclust d -> d_size dent < 2 ^ 31 -> bytesperclust d <= Z.of_nat (length vblock) -> 0 <= pos ->
  let n := read_size (d_size dent) pos maxsize in n <= Z.of_nat (length arr) ->
  exists v' d', get_contents d vblock dent pos addr arr maxsize =
      Some (0, n, patched arr 0 (take (Z.to_nat n) (drop (Z.to_nat pos) (content d (START d dent :: cs)))), v', d') /\ vol d d' /\ length v' = length vblock.
Proof. apply get_contents_ok. Qed.
End volume.

(** ** A small volume *)

(** A device made of a list of bytes. *)
Definition ram_dev (disk : list Z) (blk start : Z) : BlockDev := {|
  cur_dev := true;
  block_read := fun s n => if (s + n) * blk <=? Z.of_nat (length disk) then (n, take (Z.to_nat (n * blk)) (drop (Z.to_nat (s * blk)) disk)) else (0, []);
  part_start := start; part_blksz := blk; dev_blksz := blk |}.

Definition small_disk : list Z :=
  let fat := [248; 255; 255; 3; 80; 0; 0; 16; 2] ++ replicate 40 0 ++ [240; 255] ++ replicate 5 0 in
  replicate 16 0 ++ fat ++ map (fun i => Z.of_nat i mod 251) (seq 0 520).
Definition small_dev : BlockDev := ram_dev small_disk 8 1.
Definition small_fs : fsdata := mk_fs (replicate 48 0) 12 7 1 8 8 2 5 (-1).
Definition small_file : dir_entry := replicate 26 0 ++ [2; 0; 55; 0; 0; 0].

#[local] Instance small_dev_ok : BlockDevOk small_dev small_disk.
Proof.
  split; [done| |unfold byte_list; apply (bool_decide_unpack _); by vm_compute | done | done].
  intros s n Hs Hn H. cbn [small_dev ram_dev block_read dev_blksz] in *. by rewrite (proj2 (Z.leb_le _ _)) by exact H.
Qed.

Lemma small_fs_ok : geometry (BD := small_dev) (disk := small_disk) small_fs /\ coherent (BD := small_dev) (disk := small_disk) small_fs.
Proof. split; [|by left]. split; try (cbn; lia); try done. Qed.

Lemma get_fatent_correct_witness : exists d', @get_fatent small_dev small_fs 33 = Some (4095, d') /\ fatbufnum d' = 1.
Proof.
  destruct small_fs_ok as [G C]. destruct (get_fatent_correct (BD := small_dev) (disk := small_disk) small_fs 33 G C) as (d' & E & _ & _ & _).
  - by split; vm_compute.
  - exists d'. rewrite E. split; [by vm_compute|]. apply (f_equal (fun o => match o with Some (_, d) => fatbufnum d | None => 0 end)) in E. rewrite <- E. by vm_compute.
Defined.

(** A file in the clusters 2, 3, 5 and 33, read from byte 3 on to a misaligned address. *)
Lemma get_contents_correct_witness : exists v' d', @get_contents small_dev small_fs (replicate 100 0) small_file 3 5 (replicate 60 7) 0 =
  Some (0, 52, patched (replicate 60 7) 0 (take 52 (drop 3 (content (BD := small_dev) (disk := small_disk) small_fs [2; 3; 5; 33]))), v', d') /\
  vol (BD := small_dev) (disk := small_disk) small_fs d' /\ length v' = 100%nat.
Proof.
  destruct small_fs_ok as [G C]. apply (get_contents_correct (BD := small_dev) (disk := small_disk) small_fs (replicate 100 0) small_file [3; 5; 33] 3 5 (replicate 60 7) 0 G C); try (vm_compute; congruence).
  by vm_compute.
Defined.
