(* ===== verification/FatDir.v ===== *)
(** * FatDir: directories and paths of FAT file systems ([fs/fat/fat.c])

    Directory entries, long file names, the search in the root directory and in
    other directories, and reading a file by its path.  A static buffer is the list
    of its bytes, a directory entry in it is the offset of its 32 bytes, so that
    the entry copied over a slot of a long name is seen by what follows.  Listing
    is left out: the functions are those for [dols == LS_NO].  Memory that
    [memalign] gives starts with zeros. *)
From Stdlib Require Import String.
From S2P Require Import Prelude CString Hashtable EnvFlags Fat.
From stdpp Require Import list.
#[local] Open Scope Z_scope.

(** [memalign] of that many bytes succeeds. *)
Class Memalign := memalign : Z -> bool.

(** ** Names *)

Definition VFAT_MAXLEN_BYTES : Z := 256.
Definition VFAT_MAXSEQ : Z := 9.
Definition ATTR_VOLUME : Z := 8.
Definition ATTR_DIR : Z := 16.
Definition ATTR_VFAT : Z := 15.
Definition DELETED_FLAG : Z := 0xe5.
Definition aRING : Z := 0x05.
Definition LAST_LONG_ENTRY_MASK : Z := 0x40.
Definition ISDIRDELIM (c : Z) : bool := (c =? 47) || (c =? 92).

Definition downcase (s : cstr) : cstr := map tolower s.

(** The part of a string before its first delimiter and the part after it. *)
Fixpoint dirdelim (s : cstr) : option (cstr * cstr) :=
  match s with
  | [] => None
  | c :: s => if ISDIRDELIM c then Some ([], s) else '(a, b) ← dirdelim s; Some (c :: a, b)
  end.

Fixpoint skip_delims (s : cstr) : cstr :=
  match s with c :: s' => if ISDIRDELIM c then skip_delims s' else s | [] => [] end.

(** The characters before the first blank or terminator. *)
Fixpoint to_blank (l : list Z) : cstr :=
  match l with c :: l => if (c =? 0) || (c =? 32) then [] else c :: to_blank l | [] => [] end.

(** The first character of a name. *)
Definition name_flag (s : cstr) : cstr :=
  match s with
  | c :: s' => if c =? DELETED_FLAG then [] else if c =? aRING then DELETED_FLAG :: s' else s
  | [] => []
  end.

Definition d_name0 (e : dir_entry) : Z := nth 0 e 0.
Definition d_ext (e : dir_entry) : list Z := take 3 (drop 8 e).

(** Short name of an entry. *)
Definition get_name (e : dir_entry) : cstr :=
  let s := to_blank (take 8 e) in
  let e0 := nth 0 (d_ext e) 0 in
  let s := if negb (e0 =? 0) && negb (e0 =? 32) then s ++ 46 :: to_blank (d_ext e) else s in
  downcase (name_flag s).

(** Where a slot has the characters of the name. *)
Definition slot_places : list nat := [1; 3; 5; 7; 9; 14; 16; 18; 20; 22; 24; 28; 30]%nat.

(** Appends the characters of a slot to [l_name]; whether the terminator was met. *)
Fixpoint slot_loop (places : list nat) (slot : list Z) (l_name : cstr) : option (bool * cstr) :=
  match places with
  | [] => Some (false, l_name)
  | j :: places =>
      if VFAT_MAXLEN_BYTES <=? Z.of_nat (length l_name) then None else
      let c := nth j slot 0 in
      if c =? 0 then Some (true, l_name) else slot_loop places slot (l_name ++ [c])
  end.
Definition slot2str : list Z -> cstr -> option (bool * cstr) := slot_loop slot_places.

Section dir.
Context {BD : BlockDev}.

(** ** Long names *)

Definition slot_id (blk : list Z) (o : Z) : option Z := id ← aget blk o; Some (Z.land id (Z.lnot LAST_LONG_ENTRY_MASK)).

(** [while (slotptr < buflimit)]: the place where the loop ends and the counter there, [None] inside for a wrong number. *)
Fixpoint slots_forward (counter : nat) (blk : list Z) (o limit : Z) : option (option (Z * nat)) :=
  if limit <=? o then Some (Some (o, counter)) else
  match counter with
  | O => Some (Some (o, O))
  | S n =>
      id ← slot_id blk o;
      if negb (id =? Z.of_nat counter) then Some None else slots_forward n blk (o + 32) limit
  end.

(** [while (counter > 0)] in the next cluster. *)
Fixpoint slots_next (counter : nat) (blk : list Z) (o : Z) : option (option Z) :=
  match counter with
  | O => Some (Some o)
  | S n =>
      id ← slot_id blk o;
      if negb (id =? Z.of_nat counter) then Some None else slots_next n blk (o + 32)
  end.

(** The name out of the slots before offset [32 * n] of the next cluster. *)
Fixpoint names_next (n : nat) (blk : list Z) (l_name : cstr) : option cstr :=
  match n with
  | O => Some l_name
  | S n => slot ← slice blk (32 * Z.of_nat n) 32; '(_, l_name) ← slot2str slot l_name; names_next n blk l_name
  end.

(** The [do] loop back to the slot with [LAST_LONG_ENTRY_MASK]; [l_name] is full after 20 slots. *)
Fixpoint names_back (fuel : nat) (blk : list Z) (o : Z) (l_name : cstr) : option cstr :=
  match fuel with
  | O => None
  | S fuel =>
      let o := o - 32 in
      slot ← slice blk o 32;
      '(stop, l_name) ← slot2str slot l_name;
      if (stop : bool) || negb (Z.land (nth 0 slot 0) LAST_LONG_ENTRY_MASK =? 0) then Some l_name else names_back fuel blk o l_name
  end.

(** [blk] holds the cluster at [base] and the slot at [ret]; [vblock] is [get_contents_vfatname_block]. *)
Definition get_vfatname (d : fsdata) (vblock : list Z) (curclust : Z) (blk : list Z) (base ret : Z) : option (Z * cstr * list Z * list Z * fsdata) :=
  let buflimit := base + sect_size d * (if curclust =? 0 then PREFETCH_BLOCKS else clust_size d) in
  counter ← slot_id blk ret;
  if VFAT_MAXSEQ <? counter then Some (-1, [], blk, vblock, d) else
  f ← slots_forward (Z.to_nat counter) blk ret buflimit;
  match f with
  | None => Some (-1, [], blk, vblock, d)
  | Some (o, counter) =>
      let finish (realdent : dir_entry) (l_name : cstr) vblock d :=
        l_name ← names_back 21 blk o l_name;
        if VFAT_MAXLEN_BYTES <=? Z.of_nat (length l_name) then None else
        blk ← splice blk ret realdent;
        Some (0, downcase (name_flag l_name), blk, vblock, d) in
      if buflimit <=? o then
        if curclust =? 0 then Some (-1, [], blk, vblock, d) else
        '(curclust, d) ← get_fatent d curclust;
        if CHECK_CLUST curclust (fatsize d) then Some (-1, [], blk, vblock, d) else
        '(r, vblock) ← get_cluster d curclust 0 vblock 0 (bytesperclust d);
        if negb (r =? 0) then Some (-1, [], blk, vblock, d) else
        o2 ← slots_next counter vblock 0;
        match o2 with
        | None => Some (-1, [], blk, vblock, d)
        | Some o2 =>
            realdent ← slice vblock o2 32;
            l_name ← names_next counter vblock [];
            finish realdent l_name vblock d
        end
      else realdent ← slice blk o 32; finish realdent [] vblock d
  end.

(** ** Directories *)

(** The entry at [o], with its long name: [None] inside when the search goes on at once. *)
Definition entry_lname (d : fsdata) (vblock : list Z) (curclust : Z) (blk : list Z) (base o : Z) : option (option cstr * list Z * list Z * fsdata) :=
  e ← slice blk o 32;
  if d_name0 e =? DELETED_FLAG then Some (None, blk, vblock, d) else
  if Z.land (d_attr e) ATTR_VOLUME =? 0 then Some (Some [], blk, vblock, d) else
  if (Z.land (d_attr e) ATTR_VFAT =? ATTR_VFAT) && negb (Z.land (d_name0 e) LAST_LONG_ENTRY_MASK =? 0) then
    '(_, l_name, blk, vblock, d) ← get_vfatname d vblock curclust blk base o;
    Some (Some l_name, blk, vblock, d)
  else Some (None, blk, vblock, d).

Inductive scan_result := Next | Return_null | Entry (e : dir_entry).

(** [for (i = 0; i < DIRENTSPERCLUST; i++)] of [get_dentfromdir]. *)
Fixpoint scan_dir (n : nat) (d : fsdata) (vblock : list Z) (curclust : Z) (blk : list Z) (o : Z) (filename : cstr) : option (scan_result * list Z * list Z * fsdata) :=
  match n with
  | O => Some (Next, blk, vblock, d)
  | S n =>
      '(l, blk, vblock, d) ← entry_lname d vblock curclust blk 0 o;
      match l with
      | None => scan_dir n d vblock curclust blk (o + 32) filename
      | Some l_name =>
          e ← slice blk o 32;
          if d_name0 e =? 0 then Some (Return_null, blk, vblock, d) else
          if bool_decide (filename = get_name e) || bool_decide (filename = l_name) then Some (Entry e, blk, vblock, d)
          else scan_dir n d vblock curclust blk (o + 32) filename
      end
  end.

(** The blocks [get_dentfromdir_block] and [get_contents_vfatname_block] change; the entry, or NULL inside. *)
Fixpoint dent_loop (fuel : nat) (d : fsdata) (vblock dblock : list Z) (curclust : Z) (filename : cstr) : option (option dir_entry * list Z * list Z * fsdata) :=
  match fuel with
  | O => None
  | S fuel =>
      '(r, dblock) ← get_cluster d curclust 0 dblock 0 (bytesperclust d);
      if negb (r =? 0) then Some (None, vblock, dblock, d) else
      '(s, dblock, vblock, d) ← scan_dir (Z.to_nat (bytesperclust d / 32)) d vblock curclust dblock 0 filename;
      match s with
      | Return_null => Some (None, vblock, dblock, d)
      | Entry e => Some (Some e, vblock, dblock, d)
      | Next =>
          '(curclust, d) ← get_fatent d curclust;
          if CHECK_CLUST curclust (fatsize d) then Some (None, vblock, dblock, d)
          else dent_loop fuel d vblock dblock curclust filename
      end
  end.

(** A chain without repetition has no more clusters than the FAT has bytes. *)
Definition chain_fuel (d : fsdata) : nat := S (Z.to_nat (fatlength d * sect_size d)).
Definition get_dentfromdir (d : fsdata) (vblock dblock : list Z) (filename : cstr) (retdent : dir_entry) : option (option dir_entry * list Z * list Z * fsdata) :=
  dent_loop (chain_fuel d) d vblock dblock (START d retdent) filename.

(** ** The root directory *)

(** The loop over a sector of the root directory, which lies in [do_fat_read_at_block]; where it ends. *)
Fixpoint scan_root (n : nat) (d : fsdata) (vblock : list Z) (root_cluster : Z) (blk : list Z) (dir_ptr o : Z) (fname : cstr) (isdir : bool)
    : option (scan_result * list Z * list Z * fsdata) :=
  match n with
  | O => Some (Next, blk, vblock, d)
  | S n =>
      e ← slice blk o 32;
      if (Z.land (d_attr e) ATTR_VOLUME =? 0) && (d_name0 e =? 0) then Some (Return_null, blk, vblock, d) else
      '(l, blk, vblock, d) ← entry_lname d vblock root_cluster blk dir_ptr o;
      match l with
      | None => scan_root n d vblock root_cluster blk dir_ptr (o + 32) fname isdir
      | Some l_name =>
          e ← slice blk o 32;
          if negb (bool_decide (fname = get_name e)) && negb (bool_decide (fname = l_name)) then scan_root n d vblock root_cluster blk dir_ptr (o + 32) fname isdir
          else if isdir && (Z.land (d_attr e) ATTR_DIR =? 0) then Some (Return_null, blk, vblock, d)
          else Some (Entry e, blk, vblock, d)
      end
  end.

(** The variables of the loop over the root directory; [dentptr] is kept when no block is read. *)
Record root_state := mk_root { firsttime : bool; buffer_blk_cnt : Z; cursect : Z; root_cluster : Z; dentptr : Z }.

Fixpoint root_loop (fuel : nat) (d : fsdata) (vblock blk : list Z) (rootdir_size : Z) (r : root_state) (fname : cstr) (isdir : bool)
    : option (option dir_entry * list Z * list Z * fsdata) :=
  match fuel with
  | O => None
  | S fuel =>
      let fat32 := fatsize d =? 32 in
      '(dir_ptr, blk) ← (if fat32 || firsttime r then Some (0, blk)
                         else b ← slice blk (sect_size d) (sect_size d); blk ← splice blk 0 b; Some (sect_size d, blk));
      '(rd, blk) ← (if fat32 && negb (buffer_blk_cnt r =? 0) then Some (Some (dentptr r), blk)
                    else
                      '(n, blk) ← disk_read (cursect r) (if fat32 then clust_size d else PREFETCH_BLOCKS) blk dir_ptr;
                      Some (if n <? 0 then None else Some dir_ptr, blk));
      match rd with
      | None => Some (None, vblock, blk, d)
      | Some dent =>
          let n := sect_size d / 32 in
          '(s, blk, vblock, d) ← scan_root (Z.to_nat n) d vblock (root_cluster r) blk dir_ptr dent fname isdir;
          match s with
          | Return_null => Some (None, vblock, blk, d)
          | Entry e => Some (Some e, vblock, blk, d)
          | Next =>
              let cnt := buffer_blk_cnt r + 1 in
              let dent := dent + 32 * n in
              if fat32 then
                if cnt =? clust_size d then
                  '(nxt, d) ← get_fatent d (root_cluster r);
                  if CHECK_CLUST nxt 32 then Some (None, vblock, blk, d)
                  else root_loop fuel d vblock blk rootdir_size (mk_root false 0 (u32 (data_begin d + nxt * clust_size d)) nxt dent) fname isdir
                else root_loop fuel d vblock blk rootdir_size (mk_root false cnt (cursect r) (root_cluster r) dent) fname isdir
              else
                let cnt := if cnt =? PREFETCH_BLOCKS then 0 else cnt in
                let cursect := u32 (cursect r + 1) in
                if u32 rootdir_size <=? u32 (cursect - rootdir_sect d) then Some (None, vblock, blk, d)
                else root_loop fuel d vblock blk rootdir_size (mk_root false cnt cursect (root_cluster r) dent) fname isdir
          end
      end
  end.

(** ** Paths *)

Record boot_sector := mk_bs {
  bs_sector_size : Z; bs_cluster_size : Z; bs_reserved : Z; bs_fats : Z; bs_dir_entries : Z; bs_fat_length : Z; bs_fat32_length : Z; bs_root_cluster : Z }.

Definition FAT12_SIGN : cstr := str "FAT12   ".
Definition FAT16_SIGN : cstr := str "FAT16   ".
Definition FAT32_SIGN : cstr := str "FAT32   ".

(** The fields of a boot sector that are used, out of the 64 bytes of the structure. *)
Definition bs_of (b : list Z) : boot_sector :=
  let f (o n : Z) := le_num (take (Z.to_nat n) (drop (Z.to_nat o) b)) in
  mk_bs (f 11 2) (f 13 1) (f 14 2) (f 16 1) (f 17 2) (f 22 2) (f 36 4) (f 44 4).

(** The boot sector and the size of the entries of the FAT, or -1. *)
Definition read_bootsectandvi {MA : Memalign} : option (option (boot_sector * Z)) :=
  if negb cur_dev then Some None else
  if negb (memalign dev_blksz) then Some None else
  '(r, block) ← disk_read 0 1 (replicate (Z.to_nat dev_blksz) 0) 0;
  if r <? 0 then Some None else
  b ← slice block 0 64;
  let bs := bs_of b in
  if bs_fat_length bs =? 0 then
    vi ← slice block 64 26;
    Some (if bool_decide (take 8 (drop 18 vi) = FAT32_SIGN) then Some (bs, 32) else None)
  else
    vi ← slice b 36 26;
    let fs_type := take 8 (drop 18 vi) in
    Some (if bool_decide (fs_type = FAT12_SIGN) then Some (bs, 12)
          else if bool_decide (fs_type = FAT16_SIGN) then Some (bs, 16) else None).

(** The file system of a boot sector and the number of sectors of its root directory. *)
Definition fs_of (bs : boot_sector) (fatsz : Z) : option (fsdata * Z) :=
  let len := if fatsz =? 32 then bs_fat32_length bs else bs_fat_length bs in
  let rootdir := u32 (bs_reserved bs + len * bs_fats bs) in
  let ss := bs_sector_size bs in
  let cs := bs_cluster_size bs in
  rootdir_size ← (if fatsz =? 32 then Some 0 else if ss =? 0 then None else Some (bs_dir_entries bs * 32 / ss));
  Some (mk_fs (replicate (Z.to_nat (ss * FATBUFBLOCKS)) 0) fatsz len (bs_reserved bs) rootdir ss cs (s32 (rootdir + rootdir_size - cs * 2)) (-1), rootdir_size).

(** [while (isdir)]: the entry of the path [subname] from a directory on. *)
Fixpoint path_loop (fuel : nat) (d : fsdata) (vblock dblock : list Z) (dent : dir_entry) (subname : cstr)
    : option (option dir_entry * list Z * list Z * fsdata) :=
  match fuel with
  | O => None
  | S fuel =>
      let '(name, nextname) := match dirdelim subname with Some (name, rest) => (name, Some (skip_delims rest)) | None => (subname, None) end in
      '(e, vblock, dblock, d) ← get_dentfromdir d vblock dblock name dent;
      match e, nextname with
      | None, _ => Some (None, vblock, dblock, d)
      | Some e, None => Some (Some e, vblock, dblock, d)
      | Some e, Some nextname => if Z.land (d_attr e) ATTR_DIR =? 0 then Some (None, vblock, dblock, d) else path_loop fuel d vblock dblock e nextname
      end
  end.

(** The static buffers [do_fat_read_at_block], [get_dentfromdir_block] and [get_contents_vfatname_block]. *)
Record blocks := mk_blocks { root_blk : list Z; dent_blk : list Z; vfat_blk : list Z }.

(** The entry that a path names, NULL inside when there is none: the root directory, then [path_loop]. *)
Definition find_path (d : fsdata) (B : blocks) (rootdir_size root : Z) (fnamecopy : cstr) : option (option dir_entry * blocks * fsdata) :=
  let '(fname, subname) := match dirdelim fnamecopy with Some (a, b) => (a, Some (skip_delims b)) | None => (fnamecopy, None) end in
  '(e, vblock, rblock, d) ← root_loop (S (Z.to_nat rootdir_size) + chain_fuel d * Z.to_nat (clust_size d)) d (vfat_blk B) (root_blk B) rootdir_size
     (mk_root true 0 (rootdir_sect d) root 0) fname (match subname with Some _ => true | None => false end);
  match e, subname with
  | Some e, Some subname =>
      '(e, vblock, dblock, d) ← path_loop (S (length subname)) d vblock (dent_blk B) e subname;
      Some (e, mk_blocks rblock dblock vblock, d)
  | _, _ => Some (e, mk_blocks rblock (dent_blk B) vblock, d)
  end.

(** The return code, [*size] where it is set, the array at [addr] and the buffers. *)
Definition do_fat_read_at {MA : Memalign} (B : blocks) (filename : cstr) (pos addr : Z) (arr : list Z) (maxsize : Z) (dogetsize : bool)
    : option (Z * option Z * list Z * blocks) :=
  v ← read_bootsectandvi;
  match v with
  | None => Some (-1, None, arr, B)
  | Some (bs, fatsz) =>
      if negb (bs_sector_size bs =? part_blksz) then Some (-1, None, arr, B) else
      '(d, rootdir_size) ← fs_of bs fatsz;
      if negb (memalign (FATBUFSIZE d)) then Some (-1, None, arr, B) else
      let filename := skip_delims filename in
      if 2048 <=? Z.of_nat (length filename) then None else
      let fnamecopy := downcase filename in
      match fnamecopy with
      | [] => Some (-1, None, arr, B)
      | _ :: _ =>
          '(e, B, d) ← find_path d B rootdir_size (if fatsize d =? 32 then bs_root_cluster bs else 0) fnamecopy;
          match e with
          | None => Some (-1, None, arr, B)
          | Some e =>
              if dogetsize then Some (0, Some (d_size e), arr, B) else
              '(r, got, arr, vblock, d) ← get_contents d (vfat_blk B) e pos addr arr maxsize;
              Some (r, Some got, arr, mk_blocks (root_blk B) (dent_blk B) vblock)
          end
      end
  end.

Definition do_fat_read {MA : Memalign} (B : blocks) (filename : cstr) (addr : Z) (arr : list Z) (maxsize : Z) : option (Z * option Z * list Z * blocks) :=
  do_fat_read_at B filename 0 addr arr maxsize false.

(** Selects the device: the return code and whether [cur_dev] is set. *)
Definition fat_set_blk_dev : option (Z * bool) :=
  '(r, buffer) ← disk_read 0 1 (replicate (Z.to_nat dev_blksz) 0) 0;
  if negb (r =? 1) then Some (-1, false) else
  magic ← slice buffer 0x1fe 2;
  if negb (bool_decide (magic = [0x55; 0xAA])) then Some (-1, false) else
  t ← slice buffer 0x36 3;
  if bool_decide (t = str "FAT") then Some (0, true) else
  t ← slice buffer 0x52 5;
  if bool_decide (t = str "FAT32") then Some (0, true) else Some (-1, false).

(** The callers; a null buffer is the empty array. *)
Definition fat_exists {MA : Memalign} (B : blocks) (filename : cstr) : option (bool * blocks) :=
  '(r, _, _, B) ← do_fat_read_at B filename 0 0 [] 0 true; Some (r =? 0, B).
Definition fat_size {MA : Memalign} (B : blocks) (filename : cstr) : option (Z * option Z * blocks) :=
  '(r, size, _, B) ← do_fat_read_at B filename 0 0 [] 0 true; Some (r, size, B).
Definition file_fat_read_at {MA : Memalign} (B : blocks) (filename : cstr) (pos addr : Z) (arr : list Z) (maxsize : Z) : option (Z * option Z * list Z * blocks) :=
  do_fat_read_at B filename pos addr arr maxsize false.
Definition file_fat_read {MA : Memalign} (B : blocks) (filename : cstr) (addr : Z) (arr : list Z) (maxsize : Z) : option (Z * list Z * blocks) :=
  '(ret, actread, arr, B) ← file_fat_read_at B filename 0 addr arr maxsize;
  if negb (ret =? 0) then Some (ret, arr, B) else n ← actread; Some (s32 n, arr, B).
Definition fat_read_file {MA : Memalign} (B : blocks) (filename : cstr) (addr : Z) (arr : list Z) (offset len : Z) : option (Z * option Z * list Z * blocks) :=
  file_fat_read_at B filename offset addr arr len.
End dir.

(** ** What a directory contains *)

(** Entry [j] of a directory. *)
Definition ent (B : list Z) (j : nat) : dir_entry := take 32 (drop (32 * j) B).

Definition deleted (e : dir_entry) : bool := d_name0 e =? DELETED_FLAG.
Definition is_volume (e : dir_entry) : bool := negb (Z.land (d_attr e) ATTR_VOLUME =? 0).
Definition starts_name (e : dir_entry) : bool := (Z.land (d_attr e) ATTR_VFAT =? ATTR_VFAT) && negb (Z.land (d_name0 e) LAST_LONG_ENTRY_MASK =? 0).
Definition slot_number (e : dir_entry) : Z := Z.land (d_name0 e) (Z.lnot LAST_LONG_ENTRY_MASK).

(** The characters before the terminator. *)
Fixpoint until0 (l : list Z) : cstr := match l with c :: l => if c =? 0 then [] else c :: until0 l | [] => [] end.
Definition slot_chars (e : dir_entry) : list Z := map (fun j => nth j e 0) slot_places.

(** The name in slots, which are stored in reverse. *)
Definition long_name (slots : list dir_entry) : cstr := downcase (name_flag (until0 (concat (map slot_chars (rev slots))))).

(** The slots of a long name: down_numbered down to 1, the first is marked. *)
Definition down_numbered (slots : list dir_entry) : Prop :=
  forall i s, slots !! i = Some s -> slot_number s = Z.of_nat (length slots - i) /\ (Z.land (d_name0 s) LAST_LONG_ENTRY_MASK = 0 <-> i <> 0%nat).

Definition slots_at (B : list Z) (j n : nat) : list dir_entry := map (ent B) (seq j n).

(** What an entry means for a search. *)
Definition verdict (name : cstr) (B : list Z) (j : nat) : scan_result :=
  let e := ent B j in
  if deleted e then Next else
  if is_volume e then
    if starts_name e then
      let n := Z.to_nat (slot_number e) in
      let r := ent B (j + n) in
      if bool_decide (name = get_name r) || bool_decide (name = long_name (slots_at B j n)) then Entry r else Next
    else Next
  else if d_name0 e =? 0 then Return_null
  else if bool_decide (name = get_name e) then Entry e else Next.

Fixpoint dir_lookup (name : cstr) (B : list Z) (j k : nat) : scan_result :=
  match k with
  | O => Next
  | S k => match verdict name B j with Next => dir_lookup name B (S j) k | v => v end
  end.

(** A long name that starts at [j] is complete before entry [hi]. *)
Definition name_complete (B : list Z) (j hi : nat) : Prop :=
  deleted (ent B j) = false -> is_volume (ent B j) = true -> starts_name (ent B j) = true ->
  let n := Z.to_nat (slot_number (ent B j)) in
  (1 <= n <= 9)%nat /\ (j + n < hi)%nat /\ down_numbered (slots_at B j n) /\ d_name0 (ent B (j + n)) <> 0.

(** ** Reading entries out of a buffer *)

(** The buffer has the entries from [lo] to [hi], entry [j] at [p + 32 * j]. *)
Definition buf_window (blk : list Z) (p : Z) (B : list Z) (lo hi : nat) : Prop :=
  forall j, (lo <= j < hi)%nat -> slice blk (p + 32 * Z.of_nat j) 32 = Some (ent B j).

Lemma slice_spec arr o n l : slice arr o n = Some l -> 0 <= o /\ 0 <= n /\ o + n <= Z.of_nat (length arr) /\ Z.of_nat (length l) = n /\ l = take (Z.to_nat n) (drop (Z.to_nat o) arr).
Proof.
  unfold slice. destruct (Z.leb_spec 0 o), (Z.leb_spec 0 n), (Z.leb_spec (o + n) (Z.of_nat (length arr))); cbn [andb]; try done.
  intros [= <-]. rewrite length_take, length_drop. repeat split; lia.
Qed.

Lemma slice_some arr o n : 0 <= o -> 0 <= n -> o + n <= Z.of_nat (length arr) -> slice arr o n = Some (take (Z.to_nat n) (drop (Z.to_nat o) arr)).
Proof. intros. unfold slice. by rewrite (proj2 (Z.leb_le 0 o)), (proj2 (Z.leb_le 0 n)), (proj2 (Z.leb_le _ _)) by lia. Qed.

Lemma slice_patched_after arr o data o2 n : 0 <= o -> o + Z.of_nat (length data) <= o2 -> 0 <= n -> o2 + n <= Z.of_nat (length arr) -> slice (patched arr o data) o2 n = slice arr o2 n.
Proof.
  intros H1 H2 H3 H4. assert (L : length (patched arr o data) = length arr) by (apply length_patched; lia). rewrite !slice_some by (rewrite ?L; lia). f_equal. f_equal.
  unfold patched. rewrite app_assoc, drop_app_ge by (rewrite length_app, length_take; lia). rewrite length_app, length_take, drop_drop. f_equal. lia.
Qed.

Lemma slice_patched_at arr o data : 0 <= o -> o + Z.of_nat (length data) <= Z.of_nat (length arr) -> slice (patched arr o data) o (Z.of_nat (length data)) = Some data.
Proof.
  intros H1 H2. rewrite slice_some by (rewrite ?length_patched; lia). f_equal. unfold patched. rewrite drop_app_ge by (rewrite length_take; lia).
  rewrite length_take. replace (Z.to_nat o - _)%nat with 0%nat by lia. rewrite drop_0. apply take_app_length'. lia.
Qed.

Lemma slice_id arr o l : slice arr o 32 = Some l -> slot_id arr o = Some (slot_number l).
Proof.
  intros H. apply slice_spec in H as (H1 & _ & H3 & _ & ->). unfold slot_id, aget. rewrite (proj2 (Z.leb_le 0 o)) by lia.
  destruct (lookup_lt_is_Some_2 arr (Z.to_nat o) ltac:(lia)) as [x E]. rewrite E. cbn [mbind option_bind]. f_equal. unfold slot_number, d_name0. f_equal.
  rewrite (drop_S arr x _ E). done.
Qed.

Lemma buf_window_ent blk p B lo hi j : buf_window blk p B lo hi -> (lo <= j < hi)%nat -> length (ent B j) = 32%nat /\ 0 <= p + 32 * Z.of_nat j /\ p + 32 * Z.of_nat j + 32 <= Z.of_nat (length blk).
Proof. intros W Hj. apply W in Hj. apply slice_spec in Hj as (? & ? & ? & ? & _). lia. Qed.

(** ** Long names *)

Lemma until0_app l1 l2 : until0 (l1 ++ l2) = if existsb (Z.eqb 0) l1 then until0 l1 else l1 ++ until0 l2.
Proof.
  induction l1 as [|c l1 IH]; [done|]. cbn [app until0 existsb]. rewrite (Z.eqb_sym 0 c). destruct (c =? 0); [done|]. cbn [orb]. rewrite IH. by destruct (existsb _ _).
Qed.

Lemma slot_loop_ok places slot acc : Z.of_nat (length acc + length places) <= VFAT_MAXLEN_BYTES ->
  slot_loop places slot acc = Some (existsb (Z.eqb 0) (map (fun j => nth j slot 0) places), acc ++ until0 (map (fun j => nth j slot 0) places)).
Proof.
  revert acc. induction places as [|j places IH]; intros acc H; cbn [slot_loop map existsb until0]; [by rewrite app_nil_r|]. cbn [length] in H.
  rewrite (proj2 (Z.leb_gt _ _)) by lia. rewrite (Z.eqb_sym 0). destruct (nth j slot 0 =? 0); [by rewrite app_nil_r|]. cbn [orb]. rewrite IH by (rewrite length_app; cbn [length]; lia).
  by rewrite <- app_assoc.
Qed.

Lemma until0_none l : existsb (Z.eqb 0) l = false -> until0 l = l.
Proof. intros H. rewrite <- (app_nil_r l) at 1. rewrite until0_app, H. apply app_nil_r. Qed.

Lemma length_until0 l : (length (until0 l) <= length l)%nat.
Proof. induction l as [|c l IH]; [done|]. cbn. destruct (c =? 0); cbn; lia. Qed.

Lemma slots_at_S B j m : slots_at B j (S m) = slots_at B j m ++ [ent B (j + m)].
Proof. unfold slots_at. by rewrite seq_S, map_app. Qed.

Lemma slots_at_lookup B j n i : (i < n)%nat -> slots_at B j n !! i = Some (ent B (j + i)).
Proof. intros H. unfold slots_at. by rewrite list_lookup_fmap, lookup_seq_lt. Qed.

Lemma slots_forward_ok blk p B j n hi limit m : buf_window blk p B j hi -> (j + n < hi)%nat -> down_numbered (slots_at B j n) -> p + 32 * Z.of_nat (j + n) < limit -> (m <= n)%nat ->
  slots_forward m blk (p + 32 * Z.of_nat (j + (n - m))) limit = Some (Some (p + 32 * Z.of_nat (j + n), 0%nat)).
Proof.
  intros W Hh Hn Hl. induction m as [|m IH]; intros Hm; cbn [slots_forward]; rewrite (proj2 (Z.leb_gt _ _)) by lia.
  - by replace (n - 0)%nat with n by lia.
  - rewrite (slice_id _ _ _ (W (j + (n - S m))%nat ltac:(lia))). cbn [mbind option_bind].
    destruct (Hn (n - S m)%nat (ent B (j + (n - S m)))) as [E _]; [apply slots_at_lookup; lia|].
    rewrite E. unfold slots_at. rewrite length_map, length_seq. replace (n - (n - S m))%nat with (S m) by lia. rewrite Z.eqb_refl. cbn [negb].
    rewrite <- (IH ltac:(lia)). f_equal. lia.
Qed.

Lemma names_back_ok fuel blk p B j n hi m acc : buf_window blk p B j hi -> (j + n < hi)%nat -> down_numbered (slots_at B j n) -> (1 <= m <= n)%nat -> (m <= fuel)%nat ->
  Z.of_nat (length acc + 13 * m) <= VFAT_MAXLEN_BYTES ->
  names_back fuel blk (p + 32 * Z.of_nat (j + m)) acc = Some (acc ++ until0 (concat (map slot_chars (rev (slots_at B j m))))).
Proof.
  intros W Hh Hn. revert m acc. induction fuel as [|fuel IH]; intros m acc Hm Hf Hl; [lia|]. destruct m as [|m]; [lia|]. cbn [names_back].
  replace (p + 32 * Z.of_nat (j + S m) - 32) with (p + 32 * Z.of_nat (j + m)) by lia. rewrite (W (j + m)%nat) by lia. cbn [mbind option_bind].
  unfold slot2str. rewrite slot_loop_ok by (cbn [length slot_places]; lia). fold (slot_chars (ent B (j + m))). cbn [mbind option_bind].
  rewrite slots_at_S, rev_app_distr. cbn [rev app map concat]. rewrite until0_app. destruct (Hn m (ent B (j + m))) as [_ E]; [apply slots_at_lookup; lia|].
  fold (d_name0 (ent B (j + m))). destruct (existsb (Z.eqb 0) (slot_chars (ent B (j + m)))) eqn:Ex; [done|]. cbn [orb].
  rewrite until0_none by done. destruct (Z.eqb_spec (Z.land (d_name0 (ent B (j + m))) LAST_LONG_ENTRY_MASK) 0) as [Ez|Ez]; cbn [negb].
  - assert (m <> 0%nat) by (by apply E). rewrite IH by (try lia; rewrite length_app; unfold slot_chars; rewrite length_map; cbn [length slot_places]; lia). by rewrite <- app_assoc.
  - assert (m = 0%nat) by (destruct m; [done | exfalso; apply Ez, E; done]). subst m. change (until0 (concat (map slot_chars (rev (slots_at B j 0))))) with (@nil Z). by rewrite app_nil_r.
Qed.

Section search.
Context {BD : BlockDev}.

Definition buf_limit (d : fsdata) (base cc : Z) : Z := base + sect_size d * (if cc =? 0 then PREFETCH_BLOCKS else clust_size d).

Lemma get_vfatname_ok d vblock cc blk base p B j hi : buf_window blk p B j hi -> name_complete B j hi -> deleted (ent B j) = false -> is_volume (ent B j) = true -> starts_name (ent B j) = true ->
  p + 32 * Z.of_nat hi <= buf_limit d base cc ->
  let n := Z.to_nat (slot_number (ent B j)) in
  get_vfatname d vblock cc blk base (p + 32 * Z.of_nat j) =
    Some (0, long_name (slots_at B j n), patched blk (p + 32 * Z.of_nat j) (ent B (j + n)), vblock, d).
Proof.
  intros W Hc Hd Hv Hs Hl n. destruct (Hc Hd Hv Hs) as (Hn & Hh & Hnum & _). fold n in Hn, Hh, Hnum. destruct (buf_window_ent _ _ _ _ _ j W ltac:(lia)) as (_ & P0 & P1).
  destruct (buf_window_ent _ _ _ _ _ (j + n) W ltac:(lia)) as (L1 & _ & _). unfold get_vfatname. fold (buf_limit d base cc). rewrite (slice_id _ _ _ (W j ltac:(lia))). cbn [mbind option_bind].
  unfold VFAT_MAXSEQ. rewrite (proj2 (Z.ltb_ge _ _)) by lia. fold n.
  pose proof (slots_forward_ok blk p B j n hi (buf_limit d base cc) n W ltac:(lia) Hnum ltac:(lia) ltac:(lia)) as E. replace (j + (n - n))%nat with j in E by lia. rewrite E. cbn [mbind option_bind].
  rewrite (proj2 (Z.leb_gt _ _)) by lia. rewrite (W (j + n)%nat) by lia. cbn [mbind option_bind].
  rewrite (names_back_ok 21 blk p B j n hi n [] W) by (done || lia || (cbn [length]; unfold VFAT_MAXLEN_BYTES; lia)). cbn [mbind option_bind app].
  assert (Hlen : (length (until0 (concat (map slot_chars (rev (slots_at B j n))))) <= 13 * n)%nat).
  { etransitivity; [apply length_until0|]. assert (forall l, length (concat (map slot_chars l)) = 13 * length l)%nat as ->.
    - induction l as [|e l IH]; [done|]. cbn [map concat length]. rewrite length_app, IH. unfold slot_chars. rewrite length_map. cbn [length slot_places]. lia.
    - rewrite length_rev. unfold slots_at. rewrite length_map, length_seq. lia. }
  rewrite (proj2 (Z.leb_gt _ _)) by (unfold VFAT_MAXLEN_BYTES; lia). rewrite splice_patched by lia. done.
Qed.

Lemma buf_window_patched blk p B j hi e : buf_window blk p B j hi -> (j < hi)%nat -> length e = 32%nat -> buf_window (patched blk (p + 32 * Z.of_nat j) e) p B (S j) hi.
Proof.
  intros W Hj He i Hi. destruct (buf_window_ent _ _ _ _ _ j W ltac:(lia)) as (_ & P0 & _). destruct (buf_window_ent _ _ _ _ _ i W ltac:(lia)) as (_ & _ & P1).
  rewrite slice_patched_after by lia. apply W. lia.
Qed.

Lemma buf_window_S blk p B j hi : buf_window blk p B j hi -> buf_window blk p B (S j) hi.
Proof. intros W i Hi. apply W. lia. Qed.

(** An entry is judged as [verdict] says. *)
Lemma entry_lname_ok name d vblock cc blk base p B j hi : name <> [] -> buf_window blk p B j hi -> (j < hi)%nat -> name_complete B j hi -> p + 32 * Z.of_nat hi <= buf_limit d base cc ->
  exists l blk', entry_lname d vblock cc blk base (p + 32 * Z.of_nat j) = Some (l, blk', vblock, d) /\ length blk' = length blk /\ buf_window blk' p B (S j) hi /\
    match l with
    | None => verdict name B j = Next
    | Some ln => exists e, slice blk' (p + 32 * Z.of_nat j) 32 = Some e /\ ((d_name0 e =? 0) = true -> is_volume (ent B j) = false /\ e = ent B j) /\
        verdict name B j = (if d_name0 e =? 0 then Return_null else if bool_decide (name = get_name e) || bool_decide (name = ln) then Entry e else Next)
    end.
Proof.
  intros Hne W Hj Hc Hl. unfold entry_lname, verdict. rewrite (W j) by lia. cbn [mbind option_bind]. fold (deleted (ent B j)).
  destruct (deleted (ent B j)) eqn:Ed; [exists None, blk; split; [done|]; split; [done|]; split; [by apply buf_window_S | done]|].
  destruct (Z.eqb_spec (Z.land (d_attr (ent B j)) ATTR_VOLUME) 0) as [Ea|Ea].
  - assert (Ev : is_volume (ent B j) = false) by (unfold is_volume; by rewrite Ea). rewrite Ev. exists (Some []), blk. split; [done|]. split; [done|]. split; [by apply buf_window_S|].
    exists (ent B j). split; [apply W; lia|]. split; [done|]. destruct (d_name0 (ent B j) =? 0); [done|].
    rewrite (bool_decide_eq_false_2 (name = [])) by done. by rewrite orb_false_r.
  - assert (Ev : is_volume (ent B j) = true) by (unfold is_volume; by rewrite (proj2 (Z.eqb_neq _ _))). rewrite Ev. fold (starts_name (ent B j)).
    destruct (starts_name (ent B j)) eqn:Es; [|exists None, blk; split; [done|]; split; [done|]; split; [by apply buf_window_S | done]].
    destruct (Hc Ed Ev Es) as (Hn & Hh & Hnum & Hz). set (n := Z.to_nat (slot_number (ent B j))) in *. rewrite (get_vfatname_ok d vblock cc blk base p B j hi) by done. cbn [mbind option_bind]. fold n.
    destruct (buf_window_ent _ _ _ _ _ j W ltac:(lia)) as (_ & P0 & P1). destruct (buf_window_ent _ _ _ _ _ (j + n) W ltac:(lia)) as (L1 & _ & _).
    exists (Some (long_name (slots_at B j n))), (patched blk (p + 32 * Z.of_nat j) (ent B (j + n))). split; [done|]. split; [apply length_patched; lia|]. split; [by apply buf_window_patched|].
    exists (ent B (j + n)). rewrite (proj2 (Z.eqb_neq _ _)) by done. split; [|done].
    pose proof (slice_patched_at blk (p + 32 * Z.of_nat j) (ent B (j + n)) P0 ltac:(lia)) as E. by rewrite L1 in E.
Qed.

Lemma scan_dir_ok k name d vblock cc blk p B j hi : name <> [] -> buf_window blk p B j hi -> (j + k <= hi)%nat -> (forall i, (j <= i < j + k)%nat -> name_complete B i hi) ->
  p + 32 * Z.of_nat hi <= buf_limit d 0 cc ->
  exists blk', scan_dir k d vblock cc blk (p + 32 * Z.of_nat j) name = Some (dir_lookup name B j k, blk', vblock, d) /\ length blk' = length blk.
Proof.
  intros Hne. revert blk j. induction k as [|k IH]; intros blk j W Hk Hc Hl; cbn [scan_dir dir_lookup]; [by exists blk|].
  destruct (entry_lname_ok name d vblock cc blk 0 p B j hi Hne W ltac:(lia) (Hc j ltac:(lia)) Hl) as (l & blk1 & E & L & W1 & R). rewrite E. cbn [mbind option_bind].
  replace (p + 32 * Z.of_nat j + 32) with (p + 32 * Z.of_nat (S j)) by lia. destruct (IH blk1 (S j) W1 ltac:(lia)) as (blk2 & E2 & L2); [intros; apply Hc; lia | done |]. rewrite E2.
  destruct l as [ln|]; [|rewrite R; exists blk2; split; [done|lia]]. destruct R as (e & Ee & _ & ->). rewrite Ee. cbn [mbind option_bind].
  destruct (d_name0 e =? 0); [by exists blk1|]. destruct (_ || _); [by exists blk1 | exists blk2; split; [done|lia]].
Qed.

(** What the search in the root directory makes of an entry: a directory is needed. *)
Definition need_dir (isdir : bool) (s : scan_result) : scan_result :=
  match s with Entry e => if isdir && (Z.land (d_attr e) ATTR_DIR =? 0) then Return_null else Entry e | s => s end.

Lemma scan_root_ok k name isdir d vblock cc blk base p B j hi : name <> [] -> buf_window blk p B j hi -> (j + k <= hi)%nat -> (forall i, (j <= i < j + k)%nat -> name_complete B i hi) ->
  p + 32 * Z.of_nat hi <= buf_limit d base cc ->
  exists blk', scan_root k d vblock cc blk base (p + 32 * Z.of_nat j) name isdir = Some (need_dir isdir (dir_lookup name B j k), blk', vblock, d) /\ length blk' = length blk /\
    (dir_lookup name B j k = Next -> buf_window blk' p B (j + k) hi).
Proof.
  intros Hne. revert blk j. induction k as [|k IH]; intros blk j W Hk Hc Hl; cbn [scan_root dir_lookup]; [exists blk; rewrite Nat.add_0_r; done|].
  rewrite (W j) by lia. cbn [mbind option_bind].
  destruct (entry_lname_ok name d vblock cc blk base p B j hi Hne W ltac:(lia) (Hc j ltac:(lia)) Hl) as (l & blk1 & E & L & W1 & R). rewrite E.
  destruct ((Z.land (d_attr (ent B j)) ATTR_VOLUME =? 0) && (d_name0 (ent B j) =? 0)) eqn:Ez.
  { apply andb_prop in Ez as [Ez1 Ez2]. assert (Ev : is_volume (ent B j) = false) by (unfold is_volume; by rewrite Ez1). assert (Ed : deleted (ent B j) = false) by (unfold deleted; apply Z.eqb_eq in Ez2; by rewrite Ez2).
    unfold verdict. rewrite Ed, Ev, Ez2. by exists blk. }
  cbn [mbind option_bind]. replace (p + 32 * Z.of_nat j + 32) with (p + 32 * Z.of_nat (S j)) by lia. destruct (IH blk1 (S j) W1 ltac:(lia)) as (blk2 & E2 & L2 & W2); [intros; apply Hc; lia | done |].
  replace (S j + k)%nat with (j + S k)%nat in W2 by lia. rewrite E2.
  destruct l as [ln|]; [|rewrite R; exists blk2; split; [done|]; split; [lia | done]]. destruct R as (e & Ee & Hz & R). rewrite Ee. cbn [mbind option_bind]. rewrite R.
  destruct (d_name0 e =? 0) eqn:E0.
  { destruct (Hz eq_refl) as [Hv ->]. unfold is_volume in Hv. apply negb_false_iff in Hv. rewrite Hv, E0 in Ez. done. }
  destruct (bool_decide (name = get_name e)), (bool_decide (name = ln)); cbn [negb andb orb need_dir]; try (exists blk1; destruct (isdir && (Z.land (d_attr e) ATTR_DIR =? 0)); done).
  exists blk2. split; [done|]. split; [lia | done].
Qed.
End search.

(** ** Directories on a volume *)

Fixpoint dir_search (name : cstr) (parts : list (list Z)) : option dir_entry :=
  match parts with
  | [] => None
  | p :: parts => match dir_lookup name p 0 (length p / 32) with Entry e => Some e | Return_null => None | Next => dir_search name parts end
  end.

(** Every long name lies in one part. *)
Definition names_complete (p : list Z) : Prop := forall i, (i < length p / 32)%nat -> name_complete p i (length p / 32).

(** The last cluster of a chain. *)
Definition chain_end (d : fsdata) (x : Z) : Prop := CHECK_CLUST x (fatsize d) = true.

Section dirs.
Context {BD : BlockDev} {disk : list Z} {DOk : BlockDevOk BD disk}.
Context (d0 : fsdata) (CS : 0 < clust_size d0) (SS : sect_size d0 = dev_blksz) (PS : 0 <= part_start).
Abbreviation bpc := (bytesperclust d0).
Abbreviation cbytes := (cluster_bytes (BD := BD) (disk := disk) d0).

Record is_dir (c : Z) (cs : list Z) : Prop := {
  dir_chain : cluster_chain (disk := disk) d0 c cs;
  dir_end : chain_end d0 (next_cluster (disk := disk) d0 (List.last (c :: cs) 0));
  dir_names : Forall names_complete (map cbytes (c :: cs));
  dir_len : Z.of_nat (length cs) <= fatlength d0 * sect_size d0 }.

Lemma buf_window_cluster arr B hi : (32 * hi <= length B)%nat -> (length B <= length arr)%nat -> buf_window (patched arr 0 B) 0 B 0 hi.
Proof. intros H1 H2 j Hj. rewrite Z.add_0_l, slice_patched by lia. unfold ent. do 3 f_equal. lia. Qed.

Lemma take_cluster c cs : cluster_chain (disk := disk) d0 c cs -> take (Z.to_nat bpc) (content (disk := disk) d0 (c :: cs)) = cbytes c.
Proof.
  intros Hc. pose proof (length_cluster d0 CS SS PS c (cluster_chain_good _ _ _ Hc)) as L. unfold content. cbn [map concat].
  rewrite take_app_le, take_ge by lia. done.
Qed.

Lemma dent_loop_ok fuel name d vblock dblock c cs : name <> [] -> vol (disk := disk) d0 d -> cluster_chain (disk := disk) d0 c cs ->
  chain_end d0 (next_cluster (disk := disk) d0 (List.last (c :: cs) 0)) -> Forall names_complete (map cbytes (c :: cs)) -> (length cs < fuel)%nat ->
  bpc < 2 ^ 31 -> bpc <= Z.of_nat (length dblock) ->
  exists db' d', dent_loop fuel d vblock dblock c name = Some (dir_search name (map cbytes (c :: cs)), vblock, db', d') /\ length db' = length dblock /\ vol (disk := disk) d0 d'.
Proof.
  intros Hne. destruct (bpc_eq d0 CS SS) as [Eb Hb]. revert d dblock c cs. induction fuel as [|fuel IH]; intros d dblock c cs V Hc He Hn Hf Hb1 Hb2; [lia|].
  cbn [dent_loop map dir_search]. pose proof V as (_ & _ & Sm). assert (Es : bytesperclust d = bpc /\ sect_size d = sect_size d0 /\ clust_size d = clust_size d0) by (rewrite Sm; done). destruct Es as (-> & Es1 & Es2).
  pose proof (cluster_chain_good _ _ _ Hc) as Hg. pose proof (length_cluster d0 CS SS PS c Hg) as L. pose proof (good_range _ _ Hg) as Rc.
  rewrite (get_cluster_run d0 CS SS PS d c cs 0 0 dblock 0 bpc); [|done|done|lia|by rewrite Z.add_0_r, drop_0|unfold content; cbn [take map concat]; by rewrite app_nil_r, Z.add_0_r, Z.mul_1_l|lia..].
  rewrite (take_cluster c cs Hc). cbn [mbind option_bind]. change (negb (0 =? 0)) with false. cbn iota.
  assert (Hper : Z.to_nat (bpc / 32) = (length (cbytes c) / 32)%nat) by (rewrite <- L; change 32 with (Z.of_nat 32); rewrite <- Nat2Z.inj_div, Nat2Z.id; done). rewrite Hper. set (per := (length (cbytes c) / 32)%nat).
  assert (Hper2 : (32 * per <= length (cbytes c))%nat) by (apply Nat.Div0.mul_div_le). inversion Hn as [|? ? Hn1 Hn2]; subst.
  destruct (scan_dir_ok per name d vblock c (patched dblock 0 (cbytes c)) 0 (cbytes c) 0 per Hne) as (db1 & E1 & L1).
  { apply buf_window_cluster; lia. } { lia. } { intros i Hi. apply Hn1. fold per. lia. }
  { unfold buf_limit. rewrite (proj2 (Z.eqb_neq c 0)) by lia. rewrite Es1, Es2. unfold bytesperclust in L. lia. }
  rewrite Z.add_0_l, Z.mul_0_r in E1. rewrite E1. cbn [mbind option_bind]. rewrite length_patched in L1 by lia.
  destruct (dir_lookup name (cbytes c) 0 per) eqn:El; [|exists db1, d; done..].
  destruct (get_fatent_vol d0 d c V) as (d2 & E2 & V2); [apply Hg|]. rewrite E2. cbn [mbind option_bind]. pose proof V2 as (_ & _ & Sm2). replace (fatsize d2) with (fatsize d0) by (rewrite Sm2; done).
  destruct cs as [|c2 cs]; [cbn [List.last] in He; rewrite He; exists db1, d2; done|]. destruct Hc as (_ & Hn3 & C2). rewrite Hn3, (proj1 (cluster_chain_good _ _ _ C2)).
  cbn [length] in Hf. destruct (IH d2 db1 c2 cs V2 C2 He Hn2 ltac:(lia) Hb1 ltac:(lia)) as (db3 & d3 & E3 & L3 & V3). exists db3, d3. rewrite E3. split; [done|]. split; [lia | done].
Qed.

Lemma get_dentfromdir_ok name d vblock dblock dent cs : name <> [] -> vol (disk := disk) d0 d -> is_dir (START d0 dent) cs -> bpc < 2 ^ 31 -> bpc <= Z.of_nat (length dblock) ->
  exists db' d', get_dentfromdir d vblock dblock name dent = Some (dir_search name (map cbytes (START d0 dent :: cs)), vblock, db', d') /\
    length db' = length dblock /\ vol (disk := disk) d0 d'.
Proof.
  intros Hne V [H1 H2 H3 H4] Hb1 Hb2. unfold get_dentfromdir. pose proof V as (_ & _ & Sm). replace (START d dent) with (START d0 dent) by (rewrite Sm; done).
  replace (chain_fuel d) with (chain_fuel d0) by (rewrite Sm; done). apply dent_loop_ok; try done. unfold chain_fuel. lia.
Qed.

(** ** The root directory *)

Definition as_dent (s : scan_result) : option dir_entry := match s with Entry e => Some e | _ => None end.

(** The entry found, which has to be a directory when the path goes on. *)
Definition dir_guard (isdir : bool) (e : option dir_entry) : option dir_entry := e ← e; if isdir && (Z.land (d_attr e) ATTR_DIR =? 0) then None else Some e.

Lemma as_dent_guard isdir s : as_dent (need_dir isdir s) = dir_guard isdir (as_dent s).
Proof. destruct s; cbn; try done. by destruct (isdir && _). Qed.

Lemma dir_lookup_app name B j k1 k2 : dir_lookup name B j (k1 + k2) = match dir_lookup name B j k1 with Next => dir_lookup name B (j + k1) k2 | v => v end.
Proof.
  revert j. induction k1 as [|k1 IH]; intros j; cbn [dir_lookup Nat.add]; [by rewrite Nat.add_0_r|]. destruct (verdict name B j); [|done..].
  rewrite IH. by replace (S j + k1)%nat with (j + S k1)%nat by lia.
Qed.

Lemma name_complete_less B j hi hi' : name_complete B j hi -> (j + 9 < hi')%nat -> name_complete B j hi'.
Proof. intros H Hj H1 H2 H3 n. destruct (H H1 H2 H3) as (A1 & A2 & A3 & A4). fold n in A1, A2, A3, A4. split; [done|]. split; [lia | done]. Qed.

(** The fixed root directory of FAT12 and FAT16: [rs] sectors from [rootdir_sect] on. *)
Record is_root16 (rs : Z) : Prop := {
  r16_type : fatsize d0 <> 32;
  r16_size : 1 <= rs;
  r16_start : 0 <= rootdir_sect d0;
  r16_end : (part_start + rootdir_sect d0 + rs + 1) * dev_blksz <= Z.of_nat (length disk);
  r16_names : names_complete (sector_bytes (disk := disk) (rootdir_sect d0) (rs * dev_blksz)) }.

Context (S32 : dev_blksz mod 32 = 0) (S9 : 9 < dev_blksz / 32).
Abbreviation eps := (Z.to_nat (dev_blksz / 32)).

Lemma eps_eq : Z.of_nat eps * 32 = dev_blksz /\ (9 < eps)%nat.
Proof. pose proof (Z.div_exact dev_blksz 32 ltac:(lia)) as E. apply E in S32. lia. Qed.

Lemma eps_mul i : 0 <= i -> Z.of_nat (Z.to_nat i * eps) * 32 = i * dev_blksz.
Proof. intros Hi. destruct eps_eq as [E _]. rewrite Nat2Z.inj_mul, (Z2Nat.id i), <- Z.mul_assoc, E by lia. done. Qed.

Lemma sect_le i j : i <= j -> i * dev_blksz <= j * dev_blksz.
Proof. intros H. destruct (bd_pos (BD := BD) (disk := disk)). apply Z.mul_le_mono_nonneg_r; lia. Qed.

(** Two sectors in the buffer are a buf_window on a region of the disk. *)
Lemma buf_window_sectors arr off s n i k : 0 <= part_start + s -> 0 <= i -> 0 <= off -> 0 <= k -> i + k <= n -> (part_start + s + n) * dev_blksz <= Z.of_nat (length disk) ->
  forall m, k <= m -> (part_start + s + i + m) * dev_blksz <= Z.of_nat (length disk) -> off + m * dev_blksz <= Z.of_nat (length arr) ->
  buf_window (patched arr off (sector_bytes (disk := disk) (s + i) (m * dev_blksz))) (off - i * dev_blksz) (sector_bytes (disk := disk) s (n * dev_blksz)) (Z.to_nat i * eps) (Z.to_nat (i + k) * eps).
Proof.
  intros Hs Hi Ho Hk Hn Hd m Hm Hd2 Ha j Hj. destruct eps_eq as [Ee _]. destruct (bd_pos (BD := BD) (disk := disk)) as [Hb _].
  pose proof (eps_mul i Hi) as M1. pose proof (eps_mul (i + k) ltac:(lia)) as M2.
  assert (Hj1 : i * dev_blksz <= 32 * Z.of_nat j) by lia. assert (Hj2 : 32 * Z.of_nat j + 32 <= (i + k) * dev_blksz) by lia.
  pose proof (sect_le 0 (part_start + s) Hs) as Hx. pose proof (sect_le 0 i Hi) as Hy. pose proof (sect_le k m Hm) as Hkm. pose proof (sect_le (i + k) n Hn) as Hin. pose proof (sect_le 0 k Hk) as Hk0.
  assert (L : Z.of_nat (length (sector_bytes (disk := disk) (s + i) (m * dev_blksz))) = m * dev_blksz) by (apply length_sector; lia).
  assert (L2 : length (patched arr off (sector_bytes (disk := disk) (s + i) (m * dev_blksz))) = length arr) by (apply length_patched; lia).
  rewrite slice_some by lia. f_equal. unfold ent, patched. rewrite drop_app_ge by (rewrite length_take; lia). rewrite length_take.
  rewrite drop_app_le by lia. rewrite take_app_le by (rewrite length_drop; lia). unfold sector_bytes. rewrite !skipn_firstn_comm, !take_take, !drop_drop. f_equal; [lia|]. f_equal. lia.
Qed.

Lemma root16_loop_ok rs name isdir vblock : name <> [] -> is_root16 rs -> forall fuel d blk i dent cnt, vol (disk := disk) d0 d -> 0 <= i < rs -> rs - i <= Z.of_nat fuel -> 3 * dev_blksz <= Z.of_nat (length blk) ->
  exists blk', root_loop fuel d vblock blk rs (mk_root (i =? 0) cnt (rootdir_sect d0 + i) 0 dent) name isdir =
      Some (dir_guard isdir (as_dent (dir_lookup name (sector_bytes (disk := disk) (rootdir_sect d0) (rs * dev_blksz)) (Z.to_nat i * eps) (Z.to_nat (rs - i) * eps))), vblock, blk', d) /\
    length blk' = length blk.
Proof.
  intros Hne [R1 R2 R3 R4 R5]. set (R := sector_bytes (rootdir_sect d0) (rs * dev_blksz)) in *. destruct eps_eq as [Ee Ee2]. destruct (bd_pos (BD := BD) (disk := disk)) as [Hb _]. pose proof (bd_size (BD := BD) (disk := disk)) as Hsz.
  assert (Hsum : part_start + rootdir_sect d0 + rs + 1 <= 2 ^ 31) by nia.
  assert (HR : (length R / 32 = Z.to_nat rs * eps)%nat).
  { assert (Z.of_nat (length R) = rs * dev_blksz) by (apply length_sector; [lia | apply (sect_le 0); lia | lia]). pose proof (eps_mul rs ltac:(lia)) as M. rewrite <- (Nat.div_mul (Z.to_nat rs * eps) 32) by lia. f_equal. lia. }
  unfold names_complete in R5. rewrite HR in R5.
  induction fuel as [|fuel IH]; intros d blk i dent cnt V Hi Hf Hl; [lia|]. cbn [root_loop firsttime buffer_blk_cnt cursect root_cluster dentptr].
  pose proof V as (_ & _ & Sm). assert (Es : fatsize d = fatsize d0 /\ sect_size d = dev_blksz /\ rootdir_sect d = rootdir_sect d0) by (rewrite Sm; done). destruct Es as (-> & Es & Er).
  rewrite (proj2 (Z.eqb_neq (fatsize d0) 32)) by done. cbn [orb andb]. rewrite Es.
  assert (E1 : exists dp blk1, (if i =? 0 then Some (0, blk) else b ← slice blk dev_blksz dev_blksz; blk ← splice blk 0 b; Some (dev_blksz, blk)) = Some (dp, blk1) /\
     length blk1 = length blk /\ 0 <= dp /\ dp <= dev_blksz).
  { destruct (i =? 0); [by exists 0, blk; (split; [done|]); lia|]. rewrite slice_some by lia. cbn [mbind option_bind]. rewrite splice_patched by (rewrite ?length_take, ?length_drop; lia). cbn [mbind option_bind].
    eexists _, _. split; [done|]. split; [apply length_patched; rewrite ?length_take, ?length_drop; lia | lia]. }
  destruct E1 as (dp & blk1 & E1 & L1 & Hdp). rewrite E1. cbn [mbind option_bind]. clear E1.
  change PREFETCH_BLOCKS with 2. assert (Hd2 : (part_start + (rootdir_sect d0 + i) + 2) * dev_blksz <= (part_start + rootdir_sect d0 + rs + 1) * dev_blksz) by (apply sect_le; lia). rewrite disk_read_patched by lia. cbn [mbind option_bind]. change (2 <? 0) with false. cbn iota.
  set (blk2 := patched blk1 dp _). assert (L2 : length blk2 = length blk).
  { unfold blk2. rewrite length_patched; [done | lia |]. rewrite length_sector; lia. }
  set (k := Z.min 2 (rs - i)). pose proof (eps_mul i ltac:(lia)) as M1. pose proof (eps_mul (i + k) ltac:(lia)) as M2. pose proof (eps_mul (i + 1) ltac:(lia)) as M3. pose proof (eps_mul rs ltac:(lia)) as M4. pose proof (eps_mul (rs - i) ltac:(lia)) as M5. pose proof (eps_mul (rs - (i + 1)) ltac:(lia)) as M6.
  pose proof (sect_le (i + k) rs ltac:(lia)) as S1. pose proof (sect_le (i + 1) (i + k) ltac:(lia)) as S2. pose proof (sect_le k 2 ltac:(lia)) as S3.
  assert (W : buf_window blk2 (dp - i * dev_blksz) R (Z.to_nat i * eps) (Z.to_nat (i + k) * eps)) by (apply buf_window_sectors; lia).
  destruct (scan_root_ok eps name isdir d vblock 0 blk2 dp (dp - i * dev_blksz) R (Z.to_nat i * eps) (Z.to_nat (i + k) * eps) Hne W) as (blk3 & E3 & L3 & _).
  { lia. } { intros j Hj. destruct (Z.min_spec 2 (rs - i)) as [[_ Ek]|[Hk Ek]]; fold k in Ek.
    - apply (name_complete_less R j (Z.to_nat rs * eps)); [apply R5; lia | lia].
    - replace (i + k) with rs by lia. apply R5. lia. }
  { unfold buf_limit, PREFETCH_BLOCKS. rewrite Es. cbn [Z.eqb]. lia. }
  replace (dp - i * dev_blksz + 32 * Z.of_nat (Z.to_nat i * eps)) with dp in E3 by lia. rewrite E3. cbn [mbind option_bind].
  replace (Z.to_nat (rs - i) * eps)%nat with (eps + Z.to_nat (rs - (i + 1)) * eps)%nat by lia. rewrite dir_lookup_app.
  destruct (dir_lookup name R (Z.to_nat i * eps) eps) as [| |e] eqn:El; cbn [need_dir].
  - rewrite Er, (u32_small (rootdir_sect d0 + i + 1)), (u32_small rs), (u32_small (_ - _)) by lia. destruct (Z.leb_spec rs (rootdir_sect d0 + i + 1 - rootdir_sect d0)) as [H1|H1].
    + replace (Z.to_nat (rs - (i + 1))) with 0%nat by lia. cbn [Nat.mul dir_lookup as_dent]. exists blk3. split; [done | lia].
    + destruct (IH d blk3 (i + 1) (dp + 32 * (dev_blksz / 32)) (if cnt + 1 =? 2 then 0 else cnt + 1) V ltac:(lia) ltac:(lia) ltac:(lia)) as (blk4 & E4 & L4).
      rewrite (proj2 (Z.eqb_neq (i + 1) 0)) in E4 by lia. replace (rootdir_sect d0 + i + 1) with (rootdir_sect d0 + (i + 1)) by lia. rewrite E4.
      replace (Z.to_nat i * eps + eps)%nat with (Z.to_nat (i + 1) * eps)%nat by lia. exists blk4. split; [done | lia].
  - exists blk3. split; [done | lia].
  - exists blk3. split; [|lia]. cbn [as_dent dir_guard mbind option_bind]. by destruct (isdir && _).
Qed.

(** What is left of a search when a part has been judged. *)
Definition search_rest (name : cstr) (v : scan_result) (parts : list (list Z)) : option dir_entry :=
  match v with Entry e => Some e | Return_null => None | Next => dir_search name parts end.

Lemma search_rest_need name isdir v parts : v <> Next -> dir_guard isdir (search_rest name v parts) = as_dent (need_dir isdir v).
Proof. destruct v; cbn; try done. intros _. by destruct (isdir && _). Qed.

Lemma per_cluster c : good_cluster (disk := disk) d0 c -> (length (cbytes c) / 32 = Z.to_nat (clust_size d0) * eps)%nat.
Proof.
  intros Hg. destruct (bpc_eq d0 CS SS) as [Eb _]. pose proof (length_cluster d0 CS SS PS c Hg) as L. pose proof (eps_mul (clust_size d0) ltac:(lia)) as M.
  rewrite <- (Nat.div_mul (Z.to_nat (clust_size d0) * eps) 32) by lia. f_equal. lia.
Qed.

Lemma good_sect c : good_cluster (disk := disk) d0 c -> 0 <= clust_sect d0 c <= 2 ^ 31.
Proof.
  intros (_ & _ & G1 & G2). destruct (bd_pos (BD := BD) (disk := disk)) as [Hd _]. pose proof (bd_size (BD := BD) (disk := disk)) as Hsz.
  assert (part_start + clust_sect d0 (c + 1) <= 2 ^ 31) by (apply (Z.mul_le_mono_pos_r _ _ dev_blksz); lia). unfold clust_sect in *. lia.
Qed.

(** The root directory of FAT32, a chain of clusters: sector [cnt] of the cluster [c] is next. *)
Lemma root32_loop_ok name isdir vblock rs : name <> [] -> fatsize d0 = 32 -> bpc < 2 ^ 31 -> forall fuel d blk c cs cnt sect ft dent, vol (disk := disk) d0 d -> cluster_chain (disk := disk) d0 c cs ->
  chain_end d0 (next_cluster (disk := disk) d0 (List.last (c :: cs) 0)) -> Forall names_complete (map cbytes (c :: cs)) ->
  0 <= cnt < clust_size d0 -> (length cs * Z.to_nat (clust_size d0) + Z.to_nat (clust_size d0 - cnt) <= fuel)%nat -> bpc <= Z.of_nat (length blk) ->
  (cnt = 0 -> sect = clust_sect d0 c) -> (cnt <> 0 -> dent = cnt * dev_blksz /\ buf_window blk 0 (cbytes c) (Z.to_nat cnt * eps) (length (cbytes c) / 32)) ->
  exists blk' d', root_loop fuel d vblock blk rs (mk_root ft cnt sect c dent) name isdir =
      Some (dir_guard isdir (search_rest name (dir_lookup name (cbytes c) (Z.to_nat cnt * eps) (Z.to_nat (clust_size d0 - cnt) * eps)) (map cbytes cs)), vblock, blk', d') /\
    length blk' = length blk /\ vol (disk := disk) d0 d'.
Proof.
  intros Hne Ht Hb1. destruct (bpc_eq d0 CS SS) as [Eb Hb]. destruct (bd_pos (BD := BD) (disk := disk)) as [Hd _]. pose proof (bd_size (BD := BD) (disk := disk)) as Hsz.
  induction fuel as [|fuel IH]; intros d blk c cs cnt sect ft dent V Hc He Hn Hcnt Hf Hl H0 H1; [lia|]. cbn [root_loop firsttime buffer_blk_cnt cursect root_cluster dentptr].
  pose proof V as (_ & _ & Sm). assert (Es : fatsize d = 32 /\ sect_size d = dev_blksz /\ clust_size d = clust_size d0) by (rewrite Sm; done). destruct Es as (E32 & Es1 & Es2).
  rewrite E32, Es1. cbn [Z.eqb Pos.eqb orb mbind option_bind andb]. pose proof (cluster_chain_good _ _ _ Hc) as Hg. pose proof (length_cluster d0 CS SS PS c Hg) as L. pose proof (per_cluster c Hg) as Ep. pose proof (good_range _ _ Hg) as Rc.
  assert (E1 : exists blk1, (if negb (cnt =? 0) then Some (Some dent, blk) else '(n, blk) ← disk_read sect (clust_size d) blk 0; Some (if n <? 0 then None else Some 0, blk)) = Some (Some (cnt * dev_blksz), blk1) /\
     length blk1 = length blk /\ buf_window blk1 0 (cbytes c) (Z.to_nat cnt * eps) (length (cbytes c) / 32)).
  { destruct (Z.eqb_spec cnt 0) as [-> |Hcn]; cbn [negb].
    - rewrite (H0 eq_refl), Es2. destruct Hg as (_ & _ & G1 & G2). unfold clust_sect in G1, G2.
      assert (G3 : (part_start + (data_begin d0 + c * clust_size d0) + clust_size d0) * dev_blksz <= Z.of_nat (length disk)) by lia.
      assert (clust_size d0 <= bpc) by (rewrite Eb; clear -CS Hd; nia). rewrite disk_read_patched by (unfold clust_sect; lia). cbn [mbind option_bind]. rewrite (proj2 (Z.ltb_ge _ 0)) by lia.
      unfold clust_sect. rewrite <- Eb. fold (clust_sect d0 c). fold (cbytes c). eexists. split; [done|]. split; [apply length_patched; lia|]. apply buf_window_cluster; [apply Nat.Div0.mul_div_le | lia].
    - destruct (H1 Hcn) as [-> W]. by exists blk. }
  destruct E1 as (blk1 & E1 & L1 & W). rewrite E1. cbn [mbind option_bind]. clear E1 H0 H1.
  inversion Hn as [|? ? Hn1 Hn2]; subst. unfold names_complete in Hn1. rewrite Ep in W, Hn1.
  pose proof (eps_mul cnt ltac:(lia)) as M1. pose proof (eps_mul (cnt + 1) ltac:(lia)) as M2. pose proof (eps_mul (clust_size d0) ltac:(lia)) as M3. pose proof (sect_le (cnt + 1) (clust_size d0) ltac:(lia)) as S1.
  pose proof (eps_mul (clust_size d0 - cnt) ltac:(lia)) as M4. pose proof (eps_mul (clust_size d0 - (cnt + 1)) ltac:(lia)) as M5. destruct eps_eq as [Ee _].
  destruct (scan_root_ok eps name isdir d vblock c blk1 0 0 (cbytes c) (Z.to_nat cnt * eps) (Z.to_nat (clust_size d0) * eps) Hne W) as (blk2 & E2 & L2 & W2).
  { lia. } { intros i Hi. apply Hn1. lia. } { unfold buf_limit. rewrite (proj2 (Z.eqb_neq c 0)), Es1, Es2 by lia. lia. }
  replace (0 + 32 * Z.of_nat (Z.to_nat cnt * eps)) with (cnt * dev_blksz) in E2 by lia. rewrite E2. cbn [mbind option_bind].
  replace (Z.to_nat (clust_size d0 - cnt) * eps)%nat with (eps + Z.to_nat (clust_size d0 - (cnt + 1)) * eps)%nat by lia. rewrite dir_lookup_app.
  destruct (dir_lookup name (cbytes c) (Z.to_nat cnt * eps) eps) as [| |e] eqn:El; cbn [need_dir]; [| |].
  2: { exists blk2, d. split; [done|]. split; [lia | done]. }
  2: { exists blk2, d. split; [|split; [lia | done]]. cbn [search_rest dir_guard mbind option_bind]. by destruct (isdir && _). }
  rewrite Es2. specialize (W2 eq_refl). destruct (Z.eqb_spec (cnt + 1) (clust_size d0)) as [Ec|Ec].
  - replace (Z.to_nat (clust_size d0 - (cnt + 1))) with 0%nat by lia. cbn [Nat.mul dir_lookup search_rest].
    destruct (get_fatent_vol d0 d c V) as (d2 & E3 & V2); [apply Hg|]. rewrite E3. cbn [mbind option_bind].
    destruct cs as [|c2 cs]; [cbn [List.last] in He; unfold chain_end in He; rewrite Ht in He; rewrite He; exists blk2, d2; split; [done|]; split; [lia | done]|].
    destruct Hc as (_ & Hn3 & C2). pose proof (cluster_chain_good _ _ _ C2) as Hg2. pose proof (proj1 Hg2) as Hck. rewrite Ht in Hck. rewrite Hn3, Hck.
    pose proof V2 as (_ & _ & Sm2). assert (Es : data_begin d2 = data_begin d0 /\ clust_size d2 = clust_size d0) by (rewrite Sm2; done). destruct Es as [-> ->].
    cbn [length] in Hf. pose proof (good_range _ _ Hg2) as Rc2. pose proof (good_sect c2 Hg2) as G1. unfold clust_sect in G1. rewrite u32_small by lia.
    destruct (IH d2 blk2 c2 cs 0 (clust_sect d0 c2) false (cnt * dev_blksz + 32 * (dev_blksz / 32)) V2 C2 He Hn2) as (blk3 & d3 & E4 & L4 & V4); [lia..|done|done|].
    unfold clust_sect in E4. rewrite E4. exists blk3, d3. split; [|split; [lia | done]]. do 4 f_equal. cbn [map dir_search Nat.mul Z.to_nat]. rewrite Z.sub_0_r, (per_cluster c2) by (by apply cluster_chain_good in C2). done.
  - replace (Z.to_nat cnt * eps + eps)%nat with (Z.to_nat (cnt + 1) * eps)%nat by lia. destruct (IH d blk2 c cs (cnt + 1) sect false (cnt * dev_blksz + 32 * (dev_blksz / 32)) V Hc He Hn) as (blk3 & d3 & E4 & L4 & V4); [lia..| |].
    + intros _. split; [lia|]. rewrite Ep. replace (Z.to_nat (cnt + 1) * eps)%nat with (Z.to_nat cnt * eps + eps)%nat by lia. done.
    + rewrite E4. exists blk3, d3. split; [done|]. split; [lia | done].
Qed.

(** ** Paths *)

Definition flush (w : cstr) : list cstr := match w with [] => [] | _ => [w] end.

(** The components of a path: its runs of characters that are no delimiters. *)
Fixpoint path_words (w s : cstr) : list cstr :=
  match s with
  | [] => flush w
  | c :: s => if ISDIRDELIM c then flush w ++ path_words [] s else path_words (w ++ [c]) s
  end.

Definition path_end (s : cstr) : Prop := s <> [] /\ ISDIRDELIM (List.last s 0) = false.

Lemma path_words_delim w s : match dirdelim s with Some (a, b) => path_words w s = flush (w ++ a) ++ path_words [] b | None => path_words w s = flush (w ++ s) end.
Proof.
  revert w. induction s as [|c s IH]; intros w; cbn [dirdelim path_words]; [by rewrite app_nil_r|]. destruct (ISDIRDELIM c); [by rewrite app_nil_r|].
  specialize (IH (w ++ [c])). destruct (dirdelim s) as [[a b]|]; cbn [mbind option_bind]; rewrite IH, <- app_assoc; done.
Qed.

Lemma path_words_skip s : path_words [] (skip_delims s) = path_words [] s.
Proof. induction s as [|c s IH]; [done|]. cbn [skip_delims path_words]. destruct (ISDIRDELIM c) eqn:E; [done|]. cbn [path_words]. by rewrite E. Qed.

Lemma dirdelim_spec s a b : dirdelim s = Some (a, b) -> exists c, s = a ++ c :: b /\ ISDIRDELIM c = true.
Proof.
  revert a b. induction s as [|c s IH]; intros a b; cbn [dirdelim]; [done|]. destruct (ISDIRDELIM c) eqn:E; [by intros [= <- <-]; exists c|].
  destruct (dirdelim s) as [[a' b']|]; cbn [mbind option_bind]; [|done]. intros [= <- <-]. destruct (IH _ _ eq_refl) as (x & -> & Hx). by exists x.
Qed.

Lemma skip_delims_end s : path_end s -> path_end (skip_delims s) /\ (length (skip_delims s) <= length s)%nat.
Proof.
  induction s as [|c s IH]; intros [H1 H2]; [done|]. cbn [skip_delims]. destruct (ISDIRDELIM c) eqn:E; [|split; [done|lia]].
  destruct s as [|c2 s]; [cbn [List.last] in H2; congruence|]. assert (Hp : path_end (c2 :: s)) by (split; [discriminate | exact H2]). destruct (IH Hp) as [A B]. split; [done|]. cbn [length] in *. lia.
Qed.

(** A path with a delimiter goes on behind it. *)
Lemma path_end_tail s a b : path_end s -> dirdelim s = Some (a, b) -> path_end (skip_delims b) /\ (length (skip_delims b) < length s)%nat.
Proof.
  intros [H1 H2] H. destruct (dirdelim_spec _ _ _ H) as (c & -> & Hc). destruct b as [|x b].
  - rewrite List.last_last in H2. congruence.
  - assert (path_end (x :: b)) as Hb. { split; [done|]. rewrite (List.app_removelast_last (l := x :: b) 0) in H2 by done. rewrite app_comm_cons, app_assoc, List.last_last in H2. done. }
    destruct (skip_delims_end _ Hb) as [A B]. split; [done|]. rewrite length_app. cbn [length] in *. lia.
Qed.

(** The entry that a path names in a directory; the parts of a directory are the bytes of its clusters. *)
Inductive resolve : list (list Z) -> list cstr -> option dir_entry -> Prop :=
| resolve_last parts n : n <> [] -> resolve parts [n] (dir_search n parts)
| resolve_none parts n n' ns : n <> [] -> dir_search n parts = None -> resolve parts (n :: n' :: ns) None
| resolve_file parts n n' ns e : n <> [] -> dir_search n parts = Some e -> Z.land (d_attr e) ATTR_DIR = 0 -> resolve parts (n :: n' :: ns) None
| resolve_dir parts n n' ns e cs r : n <> [] -> dir_search n parts = Some e -> Z.land (d_attr e) ATTR_DIR <> 0 -> is_dir (START d0 e) cs ->
    resolve (map cbytes (START d0 e :: cs)) (n' :: ns) r -> resolve parts (n :: n' :: ns) r.

Lemma resolve_shape parts ws r : resolve parts ws r -> exists n ns, ws = n :: ns /\ n <> [] /\
  (ns = [] /\ r = dir_search n parts \/ ns <> [] /\ match dir_guard true (dir_search n parts) with
    | None => r = None
    | Some e => exists cs, is_dir (START d0 e) cs /\ resolve (map cbytes (START d0 e :: cs)) ns r
    end).
Proof.
  destruct 1 as [|? ? ? ? Hn Hd|? ? ? ? ? Hn Hd Ha|? ? ? ? ? ? ? Hn Hd Ha Hc Hr]; eexists _, _; (split; [done|]); (split; [done|]); [by left|right; split; [done|]; rewrite Hd; cbn [dir_guard mbind option_bind andb]..].
  - done.
  - by rewrite Ha.
  - rewrite (proj2 (Z.eqb_neq _ 0)) by done. by exists cs.
Qed.

Lemma flush_ne (w : cstr) : flush w <> [] -> flush w = [w] /\ w <> [].
Proof. by destruct w. Qed.

(** The first component of a path and the rest, as [dirdelim] cuts it. *)
Lemma path_words_first s parts r : path_end s -> resolve parts (path_words [] s) r ->
  match dirdelim s with
  | None => s <> [] /\ r = dir_search s parts
  | Some (a, b) => a <> [] -> path_end (skip_delims b) /\ match dir_guard true (dir_search a parts) with
      | None => r = None
      | Some e => exists cs, is_dir (START d0 e) cs /\ resolve (map cbytes (START d0 e :: cs)) (path_words [] (skip_delims b)) r
      end
  end.
Proof.
  intros He Hr. pose proof (path_words_delim [] s) as W. destruct (dirdelim s) as [[a b]|] eqn:Ed; cbn [app] in W.
  - intros Ha. destruct (path_end_tail s a b He Ed) as [Hb _]. split; [done|]. rewrite path_words_skip. rewrite W in Hr. assert (Ef : flush a = [a]) by (by destruct a). rewrite Ef in Hr. cbn [app] in Hr.
    assert (Hne : path_words [] b <> []).
    { rewrite <- path_words_skip. destruct Hb as [Hb1 Hb2]. destruct (skip_delims b) as [|x t] eqn:Es; [done|]. assert (Hx : ISDIRDELIM x = false) by (clear -Es; induction b as [|y b IH]; [done|]; cbn in Es; destruct (ISDIRDELIM y) eqn:E; [auto | by injection Es as -> ->]).
      pose proof (path_words_delim [] (x :: t)) as W2. cbn [dirdelim] in W2. rewrite Hx in W2. destruct (dirdelim t) as [[a2 b2]|]; cbn [mbind option_bind app] in W2; rewrite W2; done. }
    destruct (resolve_shape _ _ _ Hr) as (n & ns & [= <- <-] & _ & [[H _]|[_ H]]); done.
  - destruct He as [H1 _]. split; [done|]. rewrite W in Hr. assert (Ef : flush s = [s]) by (by destruct s). rewrite Ef in Hr.
    destruct (resolve_shape _ _ _ Hr) as (n & ns & [= <- <-] & _ & [[_ H]|[H _]]); done.
Qed.

Lemma path_loop_ok fuel d vblock dblock dent cs s r : vol (disk := disk) d0 d -> is_dir (START d0 dent) cs -> path_end s -> ISDIRDELIM (hd 0 s) = false ->
  resolve (map cbytes (START d0 dent :: cs)) (path_words [] s) r -> (length s < fuel)%nat -> bpc < 2 ^ 31 -> bpc <= Z.of_nat (length dblock) ->
  exists db' d', path_loop fuel d vblock dblock dent s = Some (r, vblock, db', d') /\ length db' = length dblock /\ vol (disk := disk) d0 d'.
Proof.
  revert d dblock dent cs s. induction fuel as [|fuel IH]; intros d dblock dent cs s V Hdir He Hh Hr Hf Hb1 Hb2; [lia|]. cbn [path_loop].
  pose proof (path_words_first s _ r He Hr) as W. destruct (dirdelim s) as [[a b]|] eqn:Ed.
  - assert (Ha : a <> []) by (destruct (dirdelim_spec _ _ _ Ed) as (c & -> & Hc); destruct a; [cbn in Hh; congruence | done]).
    destruct (path_end_tail s a b He Ed) as [_ Hlt]. destruct (W Ha) as [Hb W2]. destruct (get_dentfromdir_ok a d vblock dblock dent cs Ha V Hdir Hb1 Hb2) as (db1 & d1 & E1 & L1 & V1).
    rewrite E1. cbn [mbind option_bind]. destruct (dir_search a _) as [e|]; cbn [dir_guard mbind option_bind andb] in W2; [|subst r; exists db1, d1; done].
    destruct (Z.land (d_attr e) ATTR_DIR =? 0); [subst r; by exists db1, d1|]. destruct W2 as (cs2 & Hd2 & Hr2).
    assert (Hh2 : ISDIRDELIM (hd 0 (skip_delims b)) = false) by (clear; induction b as [|y b IH]; [done|]; cbn; destruct (ISDIRDELIM y) eqn:E; done).
    destruct (IH d1 db1 e cs2 (skip_delims b) V1 Hd2 Hb Hh2 Hr2 ltac:(lia) Hb1 ltac:(lia)) as (db3 & d3 & E3 & L3 & V3). exists db3, d3. split; [done|]. split; [lia | done].
  - destruct W as [Hs ->]. destruct (get_dentfromdir_ok s d vblock dblock dent cs Hs V Hdir Hb1 Hb2) as (db1 & d1 & E1 & L1 & V1).
    rewrite E1. cbn [mbind option_bind]. destruct (dir_search s _); by exists db1, d1.
Qed.
End dirs.

(** ** Directories as lists of files *)

(** What a directory is made of: deleted entries, labels and stray slots, and files with the slots of their long name. *)
Inductive item := Gone (e : dir_entry) | Label (e : dir_entry) | File (slots : list dir_entry) (e : dir_entry).

Definition item_entries (it : item) : list dir_entry := match it with Gone e | Label e => [e] | File slots e => slots ++ [e] end.

Definition item_ok (it : item) : Prop :=
  Forall (fun e : dir_entry => length e = 32%nat) (item_entries it) /\
  match it with
  | Gone e => deleted e = true
  | Label e => deleted e = false /\ is_volume e = true /\ starts_name e = false
  | File slots e => deleted e = false /\ is_volume e = false /\ d_name0 e <> 0 /\
      (length slots <= 9)%nat /\ down_numbered slots /\ Forall (fun s => Z.land (d_attr s) ATTR_VFAT = ATTR_VFAT) slots
  end.

(** The names of a file. *)
Definition has_name (name : cstr) (it : item) : bool :=
  match it with
  | File slots e => bool_decide (name = get_name e) || (negb (length slots =? 0)%nat && bool_decide (name = long_name slots))
  | _ => false
  end.
Definition item_dent (it : item) : dir_entry := match it with Gone e | Label e | File _ e => e end.
Definition find_file (name : cstr) (items : list item) : option dir_entry := item_dent <$> List.find (has_name name) items.

(** An entry that ends the directory. *)
Definition unused (e : dir_entry) : Prop := length e = 32%nat /\ d_name0 e = 0 /\ is_volume e = false.

Definition part_entries (items : list item) (rest : list dir_entry) : list dir_entry := concat (map item_entries items) ++ rest.

(** The clusters of a directory: full ones, and the one where it ends. *)
Inductive dir_layout : list (list Z) -> list item -> Prop :=
| layout_nil : dir_layout [] []
| layout_full items parts more : Forall item_ok items -> dir_layout parts more -> dir_layout (concat (part_entries items []) :: parts) (items ++ more)
| layout_end items rest parts : Forall item_ok items -> Forall unused rest -> rest <> [] -> Forall names_complete parts -> dir_layout (concat (part_entries items rest) :: parts) items.

Definition has_entries (B : list Z) (E : list dir_entry) : Prop := forall i e, E !! i = Some e -> ent B i = e.

Lemma ent_concat E : Forall (fun e : dir_entry => length e = 32%nat) E -> has_entries (concat E) E /\ length (concat E) = (32 * length E)%nat.
Proof.
  induction 1 as [|e E He HE [IH L]]; [by split|]. cbn [concat length]. rewrite length_app, He, L. split; [|lia]. intros [|i] x Hx; unfold ent.
  - injection Hx as <-. rewrite Nat.mul_0_r, drop_0. by rewrite <- He, take_app_length.
  - rewrite drop_app_ge by lia. rewrite He. replace (32 * S i - 32)%nat with (32 * i)%nat by lia. by apply IH.
Qed.

Lemma lookup_next name B j k : (forall i, (j <= i < j + k)%nat -> verdict name B i = Next) -> dir_lookup name B j k = Next.
Proof. revert j. induction k as [|k IH]; intros j H; cbn [dir_lookup]; [done|]. rewrite H by lia. apply IH. intros i Hi. apply H. lia. Qed.

Lemma slot_facts slots s i : (length slots <= 9)%nat -> down_numbered slots -> Forall (fun s => Z.land (d_attr s) ATTR_VFAT = ATTR_VFAT) slots -> slots !! i = Some s ->
  deleted s = false /\ is_volume s = true /\ starts_name s = bool_decide (i = 0%nat) /\ Z.to_nat (slot_number s) = (length slots - i)%nat.
Proof.
  intros Hl Hn Ha Hs. destruct (Hn i s Hs) as [N1 N2]. pose proof (lookup_lt_Some _ _ _ Hs) as Hi. rewrite Forall_lookup in Ha. specialize (Ha i s Hs).
  split; [unfold deleted, slot_number in *; destruct (Z.eqb_spec (d_name0 s) DELETED_FLAG) as [E|]; [rewrite E in N1; vm_compute (Z.land DELETED_FLAG _) in N1; lia | done]|].
  split. { unfold is_volume. destruct (Z.eqb_spec (Z.land (d_attr s) ATTR_VOLUME) 0) as [E|]; [|done]. exfalso. apply (f_equal (fun z => Z.testbit z 3)) in E, Ha. cbv beta in E, Ha. rewrite Z.land_spec in E, Ha.
    change (Z.testbit ATTR_VOLUME 3) with true in E. change (Z.testbit ATTR_VFAT 3) with true in Ha. change (Z.testbit 0 3) with false in E. rewrite andb_true_r in E, Ha. congruence. }
  split; [|lia]. unfold starts_name. rewrite Ha, Z.eqb_refl. cbn [andb]. case_bool_decide as E.
  - destruct (Z.eqb_spec (Z.land (d_name0 s) LAST_LONG_ENTRY_MASK) 0) as [E2|]; [by apply N2 in E2 | done].
  - by rewrite (proj2 N2 E).
Qed.

Lemma agrees_slots B j n slots pre rest : has_entries B (pre ++ slots ++ rest) -> length pre = j -> length slots = n -> slots_at B j n = slots.
Proof.
  intros H <- <-. apply list_eq. intros i. destruct (Nat.lt_ge_cases i (length slots)) as [Hi|Hi].
  - rewrite slots_at_lookup by done. destruct (lookup_lt_is_Some_2 slots i Hi) as [s Es]. rewrite Es. f_equal. apply H. rewrite lookup_app_r by lia. rewrite lookup_app_l by lia. rewrite <- Es. f_equal. lia.
  - rewrite !lookup_ge_None_2; [done | lia | unfold slots_at; rewrite length_map, length_seq; lia].
Qed.

(** One item is judged by its names. *)
Lemma item_lookup name B pre it rest : name <> [] -> item_ok it -> has_entries B (pre ++ item_entries it ++ rest) ->
  dir_lookup name B (length pre) (length (item_entries it)) = if has_name name it then Entry (item_dent it) else Next.
Proof.
  intros Hne [_ Hi] Hag. assert (E : forall i e, item_entries it !! i = Some e -> ent B (length pre + i) = e).
  { intros i e He. apply Hag. rewrite lookup_app_r by lia. replace (length pre + i - length pre)%nat with i by lia. by apply lookup_app_l_Some. }
  destruct it as [e|e|slots e]; cbn [item_entries has_name item_dent length] in *; cbn [dir_lookup].
  - unfold verdict. specialize (E 0%nat e eq_refl). rewrite Nat.add_0_r in E. by rewrite E, Hi.
  - unfold verdict. specialize (E 0%nat e eq_refl). rewrite Nat.add_0_r in E. destruct Hi as (H1 & H2 & H3). by rewrite E, H1, H2, H3.
  - destruct Hi as (H1 & H2 & H3 & H4 & H5 & H6). assert (Ee : ent B (length pre + length slots) = e) by (apply E; rewrite lookup_app_r, Nat.sub_diag by lia; done).
    assert (Ve : verdict name B (length pre + length slots) = if bool_decide (name = get_name e) then Entry e else Next) by (unfold verdict; rewrite Ee, H1, H2, (proj2 (Z.eqb_neq _ 0)); done).
    rewrite length_app. cbn [length]. destruct slots as [|s slots]; [cbn [length] in *; rewrite Nat.add_0_r in Ve; cbn [Nat.add dir_lookup Nat.eqb negb andb]; rewrite Ve, orb_false_r; by destruct (bool_decide _)|].
    destruct (slot_facts (s :: slots) s 0 H4 H5 H6 eq_refl) as (F1 & F2 & F3 & F4). assert (Es : ent B (length pre) = s) by (rewrite <- (Nat.add_0_r (length pre)); by apply E).
    cbn [length Nat.add dir_lookup Nat.eqb negb andb]. unfold verdict at 1. rewrite Es, F1, F2, F3, F4. rewrite bool_decide_eq_true_2 by done. rewrite Nat.sub_0_r, Ee.
    rewrite (agrees_slots B _ _ (s :: slots) pre ([e] ++ rest)) by (done || by rewrite app_assoc in Hag |- *; rewrite <- ?app_assoc in *).
    destruct (bool_decide (name = get_name e)) eqn:En; cbn [orb]; [done|]. destruct (bool_decide (name = long_name (s :: slots))); [done|].
    apply lookup_next. intros i Hi. destruct (Nat.eq_dec i (length pre + S (length slots))%nat) as [-> |Hne2]; [exact Ve|].
    set (k := (i - length pre)%nat). destruct (lookup_lt_is_Some_2 (s :: slots) k ltac:(cbn [length]; lia)) as [x Ex]. destruct (slot_facts (s :: slots) x k H4 H5 H6 Ex) as (X1 & X2 & X3 & _).
    assert (Ei : ent B i = x) by (replace i with (length pre + k)%nat by lia; apply E; by apply lookup_app_l_Some). unfold verdict. rewrite Ei, X1, X2, X3. rewrite bool_decide_eq_false_2 by lia. done.
Qed.

Lemma items_lookup name B pre items rest : name <> [] -> Forall item_ok items -> has_entries B (pre ++ part_entries items rest) ->
  dir_lookup name B (length pre) (length (concat (map item_entries items))) = match find_file name items with Some e => Entry e | None => Next end.
Proof.
  intros Hne H. revert pre. induction H as [|it items Hi _ IH]; intros pre Hag; [done|]. unfold part_entries in *. cbn [map concat] in *. rewrite <- app_assoc in Hag. rewrite length_app, dir_lookup_app.
  rewrite (item_lookup name B pre it _ Hne Hi Hag). unfold find_file. cbn [List.find]. destruct (has_name name it); [done|].
  rewrite <- (length_app pre). rewrite app_assoc in Hag. exact (IH (pre ++ item_entries it) Hag).
Qed.

Lemma item_lengths items : Forall item_ok items -> Forall (fun e : dir_entry => length e = 32%nat) (concat (map item_entries items)).
Proof. induction 1 as [|it items [Hi _] _ IH]; [by constructor|]. cbn [map concat]. by apply Forall_app. Qed.

Lemma find_file_app name l1 l2 : find_file name (l1 ++ l2) = match find_file name l1 with Some e => Some e | None => find_file name l2 end.
Proof. unfold find_file. induction l1 as [|it l1 IH]; [done|]. cbn [app List.find]. by destruct (has_name name it). Qed.

(** Searching the clusters finds the first file with the name. *)
Lemma layout_search name parts items : name <> [] -> dir_layout parts items -> dir_search name parts = find_file name items.
Proof.
  intros Hne H. induction H as [|items parts more Hi _ IH|items rest parts Hi Hr Hne2 _]; [done| |]; cbn [dir_search].
  - destruct (ent_concat (part_entries items [])) as [A L]; [unfold part_entries; rewrite app_nil_r; by apply item_lengths|]. rewrite L, Nat.mul_comm, Nat.div_mul by lia.
    unfold part_entries at 2. rewrite app_nil_r. rewrite (items_lookup name _ [] items [] Hne Hi A : dir_lookup name _ 0 _ = _).
    rewrite IH, find_file_app. by destruct (find_file name items).
  - destruct (ent_concat (part_entries items rest)) as [A L]; [unfold part_entries; apply Forall_app; split; [by apply item_lengths | eapply Forall_impl; [exact Hr | by intros e []]]|]. rewrite L, Nat.mul_comm, Nat.div_mul by lia.
    unfold part_entries at 2. rewrite length_app, dir_lookup_app. rewrite (items_lookup name _ [] items rest Hne Hi A : dir_lookup name _ 0 _ = _).
    destruct (find_file name items); [done|]. destruct rest as [|z rest]; [done|]. cbn [length dir_lookup Nat.add]. inversion Hr as [|? ? (Z1 & Z2 & Z3) _]; subst.
    assert (Ez : ent (concat (part_entries items (z :: rest))) (length (concat (map item_entries items))) = z) by (apply A; unfold part_entries; rewrite lookup_app_r, Nat.sub_diag by lia; done).
    unfold verdict. rewrite Ez, Z3. assert (Hd : deleted z = false) by (unfold deleted; by rewrite Z2). by rewrite Hd, Z2.
Qed.

(** Long names in files are complete. *)
Lemma item_names B pre it rest hi : item_ok it -> has_entries B (pre ++ item_entries it ++ rest) -> (length pre + length (item_entries it) <= hi)%nat ->
  forall i, (length pre <= i < length pre + length (item_entries it))%nat -> name_complete B i hi.
Proof.
  intros [_ Hi] Hag Hh i Ri D V S. assert (E : forall k e, item_entries it !! k = Some e -> ent B (length pre + k) = e).
  { intros k e He. apply Hag. rewrite lookup_app_r by lia. replace (length pre + k - length pre)%nat with k by lia. by apply lookup_app_l_Some. }
  set (k := (i - length pre)%nat). replace i with (length pre + k)%nat in D, V, S |- * by lia. destruct it as [e|e|slots e]; cbn [item_entries length] in *.
  - rewrite (E k e) in D by (replace k with 0%nat by lia; done). congruence.
  - rewrite (E k e) in S by (replace k with 0%nat by lia; done). destruct Hi as (_ & _ & Hi). congruence.
  - destruct Hi as (H1 & H2 & H3 & H4 & H5 & H6). rewrite length_app in Ri, Hh. cbn [length] in Ri, Hh. destruct (Nat.lt_ge_cases k (length slots)) as [Hk|Hk].
    + destruct (lookup_lt_is_Some_2 slots k Hk) as [s Es]. destruct (slot_facts slots s k H4 H5 H6 Es) as (F1 & F2 & F3 & F4). assert (Ei : ent B (length pre + k) = s) by (apply E; by apply lookup_app_l_Some).
      rewrite Ei in *. rewrite S in F3. symmetry in F3. apply bool_decide_eq_true_1 in F3. rewrite F3, Nat.sub_0_r in F4. rewrite F3, Nat.add_0_r, F4. split; [lia|]. split; [lia|].
      rewrite (agrees_slots B _ _ slots pre ([e] ++ rest)) by (done || by rewrite <- app_assoc in Hag). split; [done|]. rewrite (E (length slots) e) by (rewrite lookup_app_r, Nat.sub_diag by lia; done). done.
    + rewrite (E k e) in V by (replace k with (length slots) by lia; rewrite lookup_app_r, Nat.sub_diag by lia; done). congruence.
Qed.

Lemma items_names B pre items rest hi : Forall item_ok items -> has_entries B (pre ++ part_entries items rest) -> (length pre + length (concat (map item_entries items)) <= hi)%nat ->
  forall i, (length pre <= i < length pre + length (concat (map item_entries items)))%nat -> name_complete B i hi.
Proof.
  intros H. revert pre. induction H as [|it items Hi _ IH]; intros pre Hag Hh i Ri; unfold part_entries in *; cbn [map concat length] in *; [lia|]. rewrite <- app_assoc in Hag. rewrite length_app in Hh, Ri.
  destruct (Nat.lt_ge_cases i (length pre + length (item_entries it))) as [Hlt|Hge]; [apply (item_names B pre it _ hi Hi Hag); lia|].
  rewrite app_assoc in Hag. apply (IH (pre ++ item_entries it) Hag); rewrite length_app; lia.
Qed.

Lemma layout_names parts items : dir_layout parts items -> Forall names_complete parts.
Proof.
  intros H. induction H as [|items parts more Hi _ IH|items rest parts Hi Hr _ Hp]; constructor; try done.
  - destruct (ent_concat (part_entries items [])) as [A L]; [unfold part_entries; rewrite app_nil_r; by apply item_lengths|]. unfold names_complete. rewrite L, Nat.mul_comm, Nat.div_mul by lia.
    unfold part_entries at 1 3. rewrite app_nil_r. intros i Hi2. apply (items_names _ [] items [] _ Hi A); cbn [length]; lia.
  - destruct (ent_concat (part_entries items rest)) as [A L]; [unfold part_entries; apply Forall_app; split; [by apply item_lengths | eapply Forall_impl; [exact Hr | by intros e []]]|]. unfold names_complete. rewrite L, Nat.mul_comm, Nat.div_mul by lia.
    intros i Hi2. destruct (Nat.lt_ge_cases i (length (concat (map item_entries items)))) as [Hlt|Hge]; [apply (items_names _ [] items rest _ Hi A); cbn [length]; [unfold part_entries; rewrite length_app; lia | lia]|].
    intros D V. exfalso. destruct (lookup_lt_is_Some_2 (part_entries items rest) i Hi2) as [e Ee]. rewrite (A i e Ee) in V. unfold part_entries in Ee. rewrite lookup_app_r in Ee by done.
    rewrite Forall_lookup in Hr. destruct (Hr _ _ Ee) as (_ & _ & Hv). congruence.
Qed.
(** ** Reading by path *)

Section fatfs.
Context {BD : BlockDev} {disk : list Z} {DOk : BlockDevOk BD disk} {MA : Memalign}.

(** The first sector of the partition describes a file system with entries of [w] bits. *)
Definition boot_sign (bs : boot_sector) (w : Z) : Prop :=
  let b := sector_bytes (disk := disk) 0 dev_blksz in
  bs = bs_of (take 64 b) /\
  (w = 32 /\ bs_fat_length bs = 0 /\ take 8 (drop 82 b) = FAT32_SIGN \/
   w = 12 /\ bs_fat_length bs <> 0 /\ take 8 (drop 54 b) = FAT12_SIGN \/
   w = 16 /\ bs_fat_length bs <> 0 /\ take 8 (drop 54 b) = FAT16_SIGN).

(** A file system on the device, with the parts of its root directory; memory is available. *)
Record fat_volume (bs : boot_sector) (w : Z) (d : fsdata) (rs : Z) (parts : list (list Z)) : Prop := {
  v_mem : forall n, memalign n = true;
  v_boot : boot_sign bs w;
  v_fs : fs_of bs w = Some (d, rs);
  v_geom : geometry (disk := disk) d;
  v_part : part_blksz = dev_blksz;
  v_sect : dev_blksz mod 32 = 0 /\ 320 <= dev_blksz /\ 3 * dev_blksz <= MAX_CLUSTSIZE;
  v_clust : 0 < clust_size d /\ bytesperclust d <= MAX_CLUSTSIZE;
  v_root : w <> 32 /\ is_root16 (disk := disk) d rs /\ parts = [sector_bytes (disk := disk) (rootdir_sect d) (rs * dev_blksz)] \/
    w = 32 /\ exists cs, is_dir (disk := disk) d (bs_root_cluster bs) cs /\ clust_sect d (bs_root_cluster bs) = rootdir_sect d /\
      parts = map (cluster_bytes (disk := disk) d) (bs_root_cluster bs :: cs) }.

(** The buffers have the size of the largest cluster. *)
Definition buffers_ok (B : blocks) : Prop :=
  Z.of_nat (length (root_blk B)) = MAX_CLUSTSIZE /\ Z.of_nat (length (dent_blk B)) = MAX_CLUSTSIZE /\ Z.of_nat (length (vfat_blk B)) = MAX_CLUSTSIZE.

Lemma read_bootsectandvi_ok bs w : (forall n, memalign n = true) -> boot_sign bs w -> 320 <= dev_blksz -> 0 <= part_start -> (part_start + 1) * dev_blksz <= Z.of_nat (length disk) ->
  read_bootsectandvi = Some (Some (bs, w)).
Proof.
  intros Hm [-> Hw] Hb Hp Hd. unfold read_bootsectandvi. rewrite (bd_dev (BD := BD) (disk := disk)), Hm. cbn [negb]. rewrite disk_read_one by lia. cbn [mbind option_bind]. change (1 <? 0) with false. cbn iota.
  set (b := sector_bytes 0 dev_blksz) in *. assert (L : Z.of_nat (length b) = dev_blksz) by (apply length_sector; lia).
  rewrite (slice_some b 0 64) by lia. change (drop (Z.to_nat 0) b) with b. change (Z.to_nat 64) with 64%nat. cbn [mbind option_bind].
  assert (Et : forall o (l : list Z), length l = 64%nat -> (o + 26 <= 64)%nat -> take 8 (drop 18 (take 26 (drop o l))) = take 8 (drop (o + 18) l)) by (intros; rewrite skipn_firstn_comm, take_take, drop_drop; done).
  destruct Hw as [(-> & H1 & H2)|[(-> & H1 & H2)|(-> & H1 & H2)]].
  - rewrite H1. cbn [Z.eqb]. rewrite slice_some by lia. cbn [mbind option_bind]. change (Z.to_nat 26) with 26%nat. change (Z.to_nat 64) with 64%nat.
    rewrite skipn_firstn_comm, take_take, drop_drop. change (8 `min` (26 - 18))%nat with 8%nat. change (64 + 18)%nat with 82%nat. rewrite H2. by rewrite bool_decide_eq_true_2.
  - rewrite (proj2 (Z.eqb_neq _ 0)) by done. assert (L2 : length (take 64 b) = 64%nat) by (rewrite length_take; lia). rewrite slice_some by lia. cbn [mbind option_bind]. change (Z.to_nat 26) with 26%nat. change (Z.to_nat 36) with 36%nat.
    rewrite Et by (done || lia). rewrite skipn_firstn_comm, take_take. change (8 `min` (64 - (36 + 18)))%nat with 8%nat. change (36 + 18)%nat with 54%nat. rewrite H2. by rewrite bool_decide_eq_true_2.
  - rewrite (proj2 (Z.eqb_neq _ 0)) by done. assert (L2 : length (take 64 b) = 64%nat) by (rewrite length_take; lia). rewrite slice_some by lia. cbn [mbind option_bind]. change (Z.to_nat 26) with 26%nat. change (Z.to_nat 36) with 36%nat.
    rewrite Et by (done || lia). rewrite skipn_firstn_comm, take_take. change (8 `min` (64 - (36 + 18)))%nat with 8%nat. change (36 + 18)%nat with 54%nat. rewrite H2. rewrite bool_decide_eq_false_2 by (vm_compute; discriminate). by rewrite bool_decide_eq_true_2.
Qed.

Lemma fs_of_fields bs w d rs : fs_of bs w = Some (d, rs) -> fatsize d = w /\ sect_size d = bs_sector_size bs /\ coherent (disk := disk) d.
Proof.
  unfold fs_of. destruct (w =? 32); [|destruct (bs_sector_size bs =? 0); [done|]]; cbn [mbind option_bind]; intros [= <- <-]; (split; [done|]); (split; [done|]); by left.
Qed.

Lemma vol_refl d : geometry (disk := disk) d -> coherent (disk := disk) d -> vol (disk := disk) d d.
Proof. intros G C. split; [done|]. split; [done|]. by destruct d. Qed.

(** The search in the root directory. *)
Lemma root_ok bs w d rs parts B name isdir : fat_volume bs w d rs parts -> buffers_ok B -> name <> [] ->
  exists blk' d', root_loop (S (Z.to_nat rs) + chain_fuel d * Z.to_nat (clust_size d)) d (vfat_blk B) (root_blk B) rs
      (mk_root true 0 (rootdir_sect d) (if fatsize d =? 32 then bs_root_cluster bs else 0) 0) name isdir =
    Some (dir_guard isdir (dir_search name parts), vfat_blk B, blk', d') /\ Z.of_nat (length blk') = MAX_CLUSTSIZE /\ vol (disk := disk) d d'.
Proof.
  intros [V1 V2 V3 G V5 (V6 & V7 & V8) (V9 & V10) VR] (B1 & B2 & B3) Hne. destruct (fs_of_fields _ _ _ _ V3) as (Ew & Es & C). pose proof (vol_refl d G C) as V.
  pose proof (g_part _ G) as PS. pose proof (g_ss _ G) as SS. assert (S9 : 9 < dev_blksz / 32) by (apply (Z.lt_le_trans _ 10); [lia | apply Z.div_le_lower_bound; lia]). destruct VR as [(H1 & H2 & ->)|(H1 & cs & H2 & H3 & ->)].
  - rewrite Ew, (proj2 (Z.eqb_neq w 32)) by done. pose proof (r16_size _ _ H2) as Hrs.
    destruct (root16_loop_ok d SS PS V6 S9 rs name isdir (vfat_blk B) Hne H2 (S (Z.to_nat rs) + chain_fuel d * Z.to_nat (clust_size d))%nat d (root_blk B) 0 0 0 V ltac:(lia) ltac:(lia) ltac:(lia)) as (blk' & E & L).
    rewrite Z.add_0_r in E. cbn [Z.eqb] in E. exists blk', d. split; [|split; [lia | done]]. rewrite E. do 4 f_equal. cbn [dir_search Nat.mul Z.to_nat]. rewrite Z.sub_0_r.
    assert (HR : Z.of_nat (length (sector_bytes (disk := disk) (rootdir_sect d) (rs * dev_blksz))) = rs * dev_blksz) by (apply length_sector; [pose proof (r16_start _ _ H2); lia | nia | pose proof (r16_end _ _ H2); lia]).
    pose proof (eps_mul V6 S9 rs ltac:(lia)) as M. replace (length _ / 32)%nat with (Z.to_nat rs * Z.to_nat (dev_blksz / 32))%nat; [by destruct (dir_lookup _ _ _ _)|].
    rewrite <- (Nat.div_mul (Z.to_nat rs * _) 32) by lia. f_equal. lia.
  - rewrite Ew, H1. cbn [Z.eqb Pos.eqb]. destruct H2 as [D1 D2 D3 D4]. unfold MAX_CLUSTSIZE in *.
    destruct (root32_loop_ok d V9 SS PS V6 S9 name isdir (vfat_blk B) rs Hne ltac:(congruence) ltac:(lia) (S (Z.to_nat rs) + chain_fuel d * Z.to_nat (clust_size d))%nat d (root_blk B) (bs_root_cluster bs) cs 0
      (rootdir_sect d) true 0 V D1 D2 D3 ltac:(lia)) as (blk' & d' & E & L & V'); [unfold chain_fuel; rewrite Z.sub_0_r; nia | lia | done | done |].
    exists blk', d'. split; [|split; [lia | done]]. rewrite E. do 4 f_equal. cbn [map dir_search Nat.mul Z.to_nat]. rewrite Z.sub_0_r, (per_cluster d V9 SS PS V6 S9) by (by apply cluster_chain_good in D1). done.
Qed.

Lemma tolower_delim c : ISDIRDELIM (tolower c) = ISDIRDELIM c.
Proof.
  unfold tolower. destruct (isupper c) eqn:Eu; [|done].
  assert (K : forallb (fun b => implb (isupper (Z.of_nat b)) (negb (ISDIRDELIM (u8 (Z.of_nat b + 32))))) (seq 0 256) = true) by by vm_compute.
  rewrite forallb_forall in K. pose proof (u8_range c) as R. specialize (K (Z.to_nat (u8 c))). rewrite Z2Nat.id in K by lia.
  assert (Eu2 : isupper (u8 c) = true) by (unfold isupper, has_class, __ismask in *; by rewrite (u8_small (u8 c))). rewrite Eu2 in K. cbn [implb] in K.
  assert (E8 : u8 (u8 c + 32) = u8 (c - (65 - 97))) by (unfold u8; rewrite Zplus_mod_idemp_l; done). rewrite E8 in K. apply negb_true_iff in K; [|apply in_seq; lia]. rewrite K.
  unfold ISDIRDELIM. destruct (Z.eqb_spec c 47) as [-> |]; [by vm_compute in Eu|]. destruct (Z.eqb_spec c 92) as [-> |]; [by vm_compute in Eu | done].
Qed.

Lemma downcase_skip s : downcase (skip_delims s) = skip_delims (downcase s).
Proof. induction s as [|c s IH]; [done|]. unfold downcase in *. cbn [skip_delims map]. rewrite tolower_delim. by destruct (ISDIRDELIM c). Qed.

Lemma downcase_end s : path_end s -> path_end (downcase s).
Proof.
  intros [H1 H2]. split; [by destruct s|]. destruct (exists_last H1) as (l & x & ->). unfold downcase. rewrite map_app. cbn [map]. rewrite List.last_last in *. by rewrite tolower_delim.
Qed.

Lemma skip_hd s : ISDIRDELIM (hd 0 (skip_delims s)) = false.
Proof. induction s as [|c s IH]; [done|]. cbn [skip_delims]. by destruct (ISDIRDELIM c) eqn:E. Qed.

(** The bytes of the file of an entry. *)
Definition file_data (d : fsdata) (e : dir_entry) (data : list Z) : Prop :=
  d_size e = 0 /\ data = [] \/
  exists cs, cluster_chain (disk := disk) d (START d e) cs /\ 0 < d_size e < 2 ^ 31 /\ d_size e <= (1 + Z.of_nat (length cs)) * bytesperclust d /\
    data = take (Z.to_nat (d_size e)) (content (disk := disk) d (START d e :: cs)).

(** What a call returns for the entry a path names. *)
Definition fat_result (dogetsize : bool) (r : option dir_entry) (data : list Z) (pos : Z) (arr : list Z) (maxsize : Z) : Z * option Z * list Z :=
  match r with
  | None => (-1, None, arr)
  | Some e =>
      if dogetsize then (0, Some (d_size e), arr) else
      let n := read_size (d_size e) pos maxsize in (0, Some n, patched arr 0 (take (Z.to_nat n) (drop (Z.to_nat pos) data)))
  end.

Lemma read_size_bound size pos maxsize : 0 <= pos -> 0 <= size -> 0 <= read_size size pos maxsize /\ (pos <= size -> pos + read_size size pos maxsize <= size).
Proof. intros Hp Hs. unfold read_size. destruct (Z.leb_spec size pos), (Z.ltb_spec 0 maxsize), (Z.ltb_spec (pos + maxsize) size); cbn [andb]; lia. Qed.

Lemma contents_data d0 d vblock e data pos addr arr maxsize : vol (disk := disk) d0 d -> 0 < clust_size d0 -> file_data d0 e data -> bytesperclust d0 <= Z.of_nat (length vblock) -> 0 <= pos ->
  let n := read_size (d_size e) pos maxsize in n <= Z.of_nat (length arr) ->
  exists v' d', get_contents d vblock e pos addr arr maxsize = Some (0, n, patched arr 0 (take (Z.to_nat n) (drop (Z.to_nat pos) data)), v', d') /\ length v' = length vblock.
Proof.
  intros (G & C & Sm) CS Hf Hv Hp n Hn. destruct Hf as [[Hz ->]|(cs & Hc & Hs & Hl & ->)].
  - unfold get_contents, n, read_size. rewrite Hz, (proj2 (Z.leb_le 0 pos)) by lia. exists vblock, d. by rewrite patched_nil.
  - pose proof Hc as Hc'. assert (Hch : cluster_chain (disk := disk) d (START d e) cs).
    { replace (START d e) with (START d0 e) by (rewrite Sm; done). rewrite Sm. revert Hc'. generalize (START d0 e). clear. induction cs as [|c' cs IH]; intros c; [exact id|]. intros (H1 & H2 & H3). split; [exact H1|]. split; [exact H2 | by apply IH]. }
    assert (Es : bytesperclust d = bytesperclust d0 /\ clust_size d = clust_size d0 /\ START d e = START d0 e /\ content (disk := disk) d (START d0 e :: cs) = content (disk := disk) d0 (START d0 e :: cs)) by (rewrite Sm; done). destruct Es as (E1 & E2 & E3 & E4).
    destruct (get_contents_ok d vblock e cs pos addr arr maxsize G C ltac:(rewrite E2; exact CS) Hch ltac:(rewrite E1; exact Hl) ltac:(lia) ltac:(rewrite E1; exact Hv) Hp Hn) as (v' & d' & E & _ & L). fold n in E. exists v', d'. split; [|done]. rewrite E, E3, E4. do 4 f_equal. f_equal.
    destruct (read_size_bound (d_size e) pos maxsize Hp ltac:(lia)) as [N1 N2]. fold n in N1, N2. destruct (Z.le_gt_cases pos (d_size e)) as [H|H].
    + rewrite skipn_firstn_comm, take_take. f_equal. lia.
    + replace n with 0 by (unfold n, read_size; by rewrite (proj2 (Z.leb_le _ _)) by lia). done.
Qed.

Lemma find_path_ok bs w d rs parts B s r : fat_volume bs w d rs parts -> buffers_ok B -> path_end s -> ISDIRDELIM (hd 0 s) = false -> resolve (disk := disk) d parts (path_words [] s) r ->
  exists B' d', find_path d B rs (if fatsize d =? 32 then bs_root_cluster bs else 0) s = Some (r, B', d') /\ buffers_ok B' /\ vol (disk := disk) d d'.
Proof.
  intros FV BO Pe Hh Hr. pose proof FV as [_ _ _ G _ _ (V9 & V10) _]. pose proof (g_part _ G) as PS. pose proof (g_ss _ G) as SS. pose proof BO as (B1 & B2 & B3). unfold MAX_CLUSTSIZE in *.
  unfold find_path. pose proof (path_words_first d s parts r Pe Hr) as W. destruct (dirdelim s) as [[a b]|] eqn:Ed.
  - assert (Ha : a <> []) by (destruct (dirdelim_spec _ _ _ Ed) as (c & -> & Hc); destruct a; [cbn in Hh; congruence | done]). destruct (W Ha) as [Hb W2].
    destruct (root_ok bs w d rs parts B a true FV BO Ha) as (blk & d1 & E1 & L1 & V1'). rewrite E1. cbn [mbind option_bind].
    destruct (dir_guard true (dir_search a parts)) as [e|]; [|subst r; eexists _, d1; done]. destruct W2 as (cs & Hdir & Hr2).
    destruct (path_loop_ok d V9 SS PS (S (length (skip_delims b))) d1 (vfat_blk B) (dent_blk B) e cs (skip_delims b) r V1' Hdir Hb (skip_hd b) Hr2 ltac:(lia) ltac:(lia) ltac:(lia)) as (db & d2 & E2 & L2 & V2').
    rewrite E2. cbn [mbind option_bind]. eexists _, d2. split; [done|]. split; [|done]. split; [done|]. cbn [dent_blk vfat_blk]. unfold MAX_CLUSTSIZE. lia.
  - destruct W as [Hs ->]. destruct (root_ok bs w d rs parts B s false FV BO Hs) as (blk & d1 & E1 & L1 & V1'). rewrite E1. cbn [mbind option_bind].
    assert (Eg : dir_guard false (dir_search s parts) = dir_search s parts) by (by destruct (dir_search s parts)). rewrite Eg. eexists _, d1. split; [by destruct (dir_search s parts)|]. done.
Qed.

Lemma boot_on_disk bs w d rs parts : fat_volume bs w d rs parts -> (part_start + 1) * dev_blksz <= Z.of_nat (length disk).
Proof.
  intros [_ _ _ G _ _ (V9 & _) VR]. destruct (bd_pos (BD := BD) (disk := disk)) as [Hb _]. destruct VR as [(_ & R & _)|(_ & cs & R & _)].
  - destruct R as [_ R2 R3 R4 _]. etransitivity; [|exact R4]. apply Z.mul_le_mono_nonneg_r; lia.
  - destruct R as [R _ _ _]. apply cluster_chain_good in R as (_ & _ & R1 & R2). etransitivity; [|exact R2]. unfold clust_sect in *. apply Z.mul_le_mono_nonneg_r; lia.
Qed.

Lemma do_fat_read_at_ok bs w d rs parts B filename pos addr arr maxsize dogetsize r data : fat_volume bs w d rs parts -> buffers_ok B ->
  path_end filename -> Z.of_nat (length filename) < 2048 -> resolve (disk := disk) d parts (path_words [] (downcase filename)) r -> 0 <= pos ->
  (dogetsize = false -> forall e, r = Some e -> file_data d e data /\ read_size (d_size e) pos maxsize <= Z.of_nat (length arr)) ->
  exists B', do_fat_read_at B filename pos addr arr maxsize dogetsize = Some (fat_result dogetsize r data pos arr maxsize, B') /\ buffers_ok B'.
Proof.
  intros FV BO Pe Hl Hr Hp Hd. pose proof FV as [V1 V2 V3 G V5 (V6 & V7 & V8) (V9 & V10) VR]. destruct (fs_of_fields _ _ _ _ V3) as (Ew & Es & C). pose proof (g_part _ G) as PS. pose proof (g_ss _ G) as SS.
  unfold do_fat_read_at. rewrite (read_bootsectandvi_ok bs w V1 V2 V7 PS (boot_on_disk _ _ _ _ _ FV)). cbn [mbind option_bind]. rewrite <- Es, SS, V5, Z.eqb_refl. cbn [negb]. rewrite V3. cbn [mbind option_bind]. rewrite V1. cbn [negb].
  destruct (skip_delims_end _ Pe) as [Pe2 Hl2]. rewrite (proj2 (Z.leb_gt 2048 _)) by lia. rewrite downcase_skip. rewrite <- path_words_skip in Hr.
  assert (Pe3 : path_end (skip_delims (downcase filename))) by (rewrite <- downcase_skip; by apply downcase_end). pose proof (skip_hd (downcase filename)) as Hh.
  set (s := skip_delims (downcase filename)) in *. clearbody s. destruct (find_path_ok bs w d rs parts B s r FV BO Pe3 Hh Hr) as (B' & d' & E & BO' & V').
  destruct s as [|c t]; [by destruct Pe3|]. rewrite E. cbn [mbind option_bind]. destruct r as [e|]; [|by exists B']. cbn [fat_result]. destruct dogetsize; [by exists B'|].
  destruct (Hd eq_refl e eq_refl) as [Hf Hn]. pose proof BO' as (B1 & B2 & B3).
  destruct (contents_data d d' (vfat_blk B') e data pos addr arr maxsize V' V9 Hf ltac:(lia) Hp Hn) as (v' & d2 & E2 & L2). rewrite E2. cbn [mbind option_bind].
  eexists. split; [done|]. split; [done|]. split; [done|]. cbn [vfat_blk]. lia.
Qed.

(** ** Files and directories *)

(** The items of the directory of an entry. *)
Definition directory (d : fsdata) (e : dir_entry) (items : list item) : Prop :=
  exists cs, cluster_chain (disk := disk) d (START d e) cs /\ chain_end d (next_cluster (disk := disk) d (List.last (START d e :: cs) 0)) /\
    Z.of_nat (length cs) <= fatlength d * sect_size d /\ dir_layout (map (cluster_bytes (disk := disk) d) (START d e :: cs)) items.

(** The file that a path names, from the items of a directory on. *)
Inductive names_file (d : fsdata) : list item -> list cstr -> option dir_entry -> Prop :=
| names_last items n : n <> [] -> names_file d items [n] (find_file n items)
| names_none items n n' ns : n <> [] -> find_file n items = None -> names_file d items (n :: n' :: ns) None
| names_no_dir items n n' ns e : n <> [] -> find_file n items = Some e -> Z.land (d_attr e) ATTR_DIR = 0 -> names_file d items (n :: n' :: ns) None
| names_dir items n n' ns e items' r : n <> [] -> find_file n items = Some e -> Z.land (d_attr e) ATTR_DIR <> 0 -> directory d e items' ->
    names_file d items' (n' :: ns) r -> names_file d items (n :: n' :: ns) r.

Lemma directory_is_dir d e items : directory d e items -> exists cs, is_dir (disk := disk) d (START d e) cs /\ dir_layout (map (cluster_bytes (disk := disk) d) (START d e :: cs)) items.
Proof. intros (cs & H1 & H2 & H3 & H4). exists cs. split; [|done]. split; try done. by apply layout_names in H4. Qed.

Lemma names_file_resolve d items ws r : names_file d items ws r -> forall parts, dir_layout parts items -> resolve (disk := disk) d parts ws r.
Proof.
  induction 1 as [items n Hn|items n n' ns Hn Hf|items n n' ns e Hn Hf Ha|items n n' ns e items' r Hn Hf Ha Hd _ IH]; intros parts L.
  - rewrite <- (layout_search n parts items Hn L). by constructor.
  - apply resolve_none; [done|]. by rewrite (layout_search n parts items Hn L).
  - apply (resolve_file _ _ _ _ _ e); [done| |done]. by rewrite (layout_search n parts items Hn L).
  - destruct (directory_is_dir _ _ _ Hd) as (cs & D & L'). apply (resolve_dir _ _ _ _ _ e cs); [done| |done|done|by apply IH]. by rewrite (layout_search n parts items Hn L).
Qed.


Lemma read_path_ok bs w d rs parts items B filename pos addr arr maxsize r data : fat_volume bs w d rs parts -> dir_layout parts items -> buffers_ok B ->
  path_end filename -> Z.of_nat (length filename) < 2048 -> names_file d items (path_words [] (downcase filename)) r -> 0 <= pos ->
  (forall e, r = Some e -> file_data d e data /\ read_size (d_size e) pos maxsize <= Z.of_nat (length arr)) ->
  exists B', file_fat_read_at B filename pos addr arr maxsize = Some (fat_result false r data pos arr maxsize, B') /\ buffers_ok B'.
Proof.
  intros FV L BO Pe Hl Hn Hp Hd. apply (do_fat_read_at_ok bs w d rs parts); try done. by apply (names_file_resolve d items).
Qed.

(** C8: [file_fat_read_at] follows the path from the root directory through directories and stores the bytes of the file it names, from [pos] on; it returns
    -1 and changes nothing when a component is missing or is not a directory.  For FAT12, FAT16 and FAT32 volumes, with the boot sector, the root directory, the
    other directories, the FAT and the clusters as they are on the disk. *)
Theorem file_fat_read_at_correct bs w d rs parts items B filename pos addr arr maxsize r data : fat_volume bs w d rs parts -> dir_layout parts items -> buffers_ok B ->
  path_end filename -> Z.of_nat (length filename) < 2048 -> names_file d items (path_words [] (downcase filename)) r -> 0 <= pos ->
  (forall e, r = Some e -> file_data d e data /\ read_size (d_size e) pos maxsize <= Z.of_nat (length arr)) ->
  exists B', file_fat_read_at B filename pos addr arr maxsize = Some (fat_result false r data pos arr maxsize, B') /\ buffers_ok B'.
Proof. apply read_path_ok. Qed.

(** A volume with the boot signature is selected. *)
Lemma fat_set_blk_dev_ok bs w d rs parts : fat_volume bs w d rs parts -> 512 <= dev_blksz -> take 2 (drop 510 (sector_bytes (disk := disk) 0 dev_blksz)) = [0x55; 0xAA] -> fat_set_blk_dev = Some (0, true).
Proof.
  intros FV Hs Hm. pose proof (g_part _ (v_geom _ _ _ _ _ FV)) as PS. pose proof (boot_on_disk _ _ _ _ _ FV) as Hd. destruct (v_boot _ _ _ _ _ FV) as [_ Hb].
  unfold fat_set_blk_dev. rewrite disk_read_one by lia. cbn [mbind option_bind]. change (negb (1 =? 1)) with false. cbn iota. set (b := sector_bytes 0 dev_blksz) in *.
  assert (L : Z.of_nat (length b) = dev_blksz) by (apply length_sector; lia). rewrite (slice_some b 0x1fe 2) by lia. cbn [mbind option_bind]. change (Z.to_nat 0x1fe) with 510%nat. change (Z.to_nat 2) with 2%nat. rewrite Hm.
  rewrite bool_decide_eq_true_2 by done. cbn [negb]. rewrite (slice_some b 0x36 3) by lia. cbn [mbind option_bind]. change (Z.to_nat 0x36) with 54%nat. change (Z.to_nat 3) with 3%nat.
  assert (T : forall (l : list Z) n s, (n <= 8)%nat -> take 8 l = s -> take n l = take n s) by (intros l n s Hn <-; rewrite take_take; f_equal; lia).
  destruct Hb as [(_ & _ & H)|[(_ & _ & H)|(_ & _ & H)]].
  - destruct (bool_decide _); [done|]. rewrite (slice_some b 0x52 5) by lia. cbn [mbind option_bind]. change (Z.to_nat 0x52) with 82%nat. change (Z.to_nat 5) with 5%nat. rewrite (T _ 5%nat _ ltac:(lia) H). by rewrite bool_decide_eq_true_2.
  - rewrite (T _ 3%nat _ ltac:(lia) H). by rewrite bool_decide_eq_true_2.
  - rewrite (T _ 3%nat _ ltac:(lia) H). by rewrite bool_decide_eq_true_2.
Qed.

(** [fat_size] and [fat_exists]. *)
Lemma fat_size_exists_ok bs w d rs parts items B filename r : fat_volume bs w d rs parts -> dir_layout parts items -> buffers_ok B ->
  path_end filename -> Z.of_nat (length filename) < 2048 -> names_file d items (path_words [] (downcase filename)) r ->
  exists B', fat_size B filename = Some (match r with Some e => (0, Some (d_size e), B') | None => (-1, None, B') end) /\
    fat_exists B filename = Some (match r with Some _ => true | None => false end, B') /\ buffers_ok B'.
Proof.
  intros FV L BO Pe Hl Hn. destruct (do_fat_read_at_ok bs w d rs parts B filename 0 0 [] 0 true r [] FV BO Pe Hl (names_file_resolve _ _ _ _ Hn _ L) ltac:(lia) ltac:(done)) as (B' & E & BO').
  exists B'. unfold fat_size, fat_exists. rewrite E. by destruct r.
Qed.
End fatfs.

(** ** What the search does with unusual directories *)

(** A slot that is marked as the last one and has number 0 makes [get_vfatname] read slots before it; in the first entry of
    the buffer they are outside of it. *)
Lemma vfat_number_0 {BD : BlockDev} d vblock cc blk e : slice blk 0 32 = Some e -> slot_number e = 0 -> 0 < buf_limit d 0 cc -> get_vfatname d vblock cc blk 0 0 = None.
Proof.
  intros He Hn Hl. unfold get_vfatname. fold (buf_limit d 0 cc). rewrite (slice_id _ _ _ He), Hn. cbn [mbind option_bind]. change (VFAT_MAXSEQ <? 0) with false. cbn iota.
  assert (F : slots_forward (Z.to_nat 0) blk 0 (buf_limit d 0 cc) = Some (Some (0, 0%nat))) by (change (Z.to_nat 0) with 0%nat; unfold slots_forward; by destruct (buf_limit d 0 cc <=? 0)).
  rewrite F. cbn [mbind option_bind]. rewrite (proj2 (Z.leb_gt (buf_limit d 0 cc) 0)) by lia. rewrite He. done.
Qed.

(** The empty name, which a path with a delimiter at its end has, is that of the first entry without a long name. *)
Lemma empty_name_found {BD : BlockDev} n d vblock cc blk e : slice blk 0 32 = Some e -> deleted e = false -> is_volume e = false -> d_name0 e <> 0 ->
  scan_dir (S n) d vblock cc blk 0 [] = Some (Entry e, blk, vblock, d).
Proof.
  intros He Hd Hv H0. cbn [scan_dir]. unfold entry_lname. rewrite He. cbn [mbind option_bind]. fold (deleted e). rewrite Hd. unfold is_volume in Hv. apply negb_false_iff in Hv. rewrite Hv. cbn [mbind option_bind].
  rewrite He. cbn [mbind option_bind]. rewrite (proj2 (Z.eqb_neq _ 0)) by done. rewrite (bool_decide_eq_true_2 ([] = [])) by done. by rewrite orb_true_r.
Qed.

(** ** An example volume *)

(** FAT16 with sectors of 512 bytes: boot sector, FAT, root directory with the directory SUB, and in it a file with a long name. *)
Module Example.
Definition padded (n : nat) (l : list Z) : list Z := l ++ replicate (n - length l) 0.
Definition boot : list Z := padded 510 (padded 54 (replicate 11 0 ++ [0; 2; 1; 1; 0; 1; 16; 0; 0; 0; 0; 1; 0]) ++ str "FAT16   ") ++ [85; 170].
Definition fat : list Z := padded 512 [248; 255; 255; 255; 255; 255; 4; 0; 255; 255].
Definition entry (name : string) (attr start size : Z) : dir_entry := str name ++ [attr] ++ replicate 14 0 ++ [start; 0; size mod 256; size / 256; 0; 0].
Definition wide (l : list Z) : list Z := flat_map (fun c => [c; 0]) l.
Definition mk_slot (id : Z) (l : list Z) : dir_entry := [id] ++ wide (take 5 l) ++ [15; 0; 0] ++ wide (take 6 (drop 5 l)) ++ [0; 0] ++ wide (drop 11 l).
Definition long : list Z := padded 26 (str "A long name.text").
Definition long_slots : list dir_entry := [mk_slot 0x42 (drop 13 long); mk_slot 1 (take 13 long)].
Definition file_ent : dir_entry := entry "ALONGN~1TEX" 32 3 600.
Definition root_items : list item := [Label (entry "VOLUME     " 8 0 0); Gone (229 :: drop 1 (entry "OLD     TXT" 32 9 9)); File [] (entry "SUB        " 16 2 0)].
Definition sub_items : list item := [File [] (entry ".          " 16 2 0); File long_slots file_ent; File [] (entry "README  TXT" 32 3 10)].
Definition blank : dir_entry := replicate 32 0.
Definition root_dir : list Z := concat (part_entries root_items (replicate 13 blank)).
Definition sub_dir : list Z := concat (part_entries sub_items (replicate 11 blank)).
Definition file_text : list Z := map (fun i => Z.of_nat i mod 251) (seq 0 1024).
(** A master boot record with one partition. *)
Definition mbr : list Z := replicate 446 0 ++ [0; 0; 0; 0; 14; 0; 0; 0; 1; 0; 0; 0; 5; 0; 0; 0] ++ replicate 48 0 ++ [85; 170].
Definition disk : list Z := mbr ++ boot ++ fat ++ root_dir ++ sub_dir ++ file_text.
#[export] Instance dev : BlockDev := ram_dev disk 512 1.
#[export] Instance mem : Memalign := fun _ => true.
Definition bs : boot_sector := mk_bs 512 1 1 1 16 1 0 0.
Definition fs : fsdata := mk_fs (replicate 3072 0) 16 1 1 2 512 1 1 (-1).
Definition bufs : blocks := let b := replicate (Z.to_nat MAX_CLUSTSIZE) 0 in mk_blocks b b b.
Definition file_path : cstr := str "/Sub//A Long Name.TEXT".

#[export] Instance dev_ok : BlockDevOk dev disk.
Proof.
  split; [done| |unfold byte_list; apply (bool_decide_unpack _); by vm_compute | done | by vm_compute].
  intros s n Hs Hn H. cbn [dev ram_dev block_read dev_blksz] in *. by rewrite (proj2 (Z.leb_le _ _)) by exact H.
Qed.

Lemma slots_down : down_numbered long_slots.
Proof. intros [|[|i]] s H; [injection H as <- | injection H as <- | done]; (split; [by vm_compute|]); split; vm_compute; congruence. Qed.

Lemma no_slots : down_numbered [].
Proof. by intros i s H. Qed.

Lemma file_ok long_slots e : Forall (fun e : dir_entry => length e = 32%nat) (long_slots ++ [e]) -> (deleted e || is_volume e || (d_name0 e =? 0)) = false -> (length long_slots <= 9)%nat -> down_numbered long_slots ->
  Forall (fun s => Z.land (d_attr s) ATTR_VFAT = ATTR_VFAT) long_slots -> item_ok (File long_slots e).
Proof. intros H1 H2 H3 H4 H5. apply orb_false_elim in H2 as [H2 H6]. apply orb_false_elim in H2 as [H2 H7]. apply Z.eqb_neq in H6. split; [done|]. do 5 (split; [done|]). done. Qed.

Lemma items_ok : Forall item_ok root_items /\ Forall item_ok sub_items.
Proof.
  split; repeat apply Forall_cons_2; try apply Forall_nil_2;
    first [apply file_ok; [by repeat constructor | done | cbn; lia | first [apply no_slots | apply slots_down] | by repeat constructor] | by split; [repeat constructor|]].
Qed.

Lemma blanks_ok n : Forall unused (replicate n blank).
Proof. apply Forall_replicate. by repeat split. Qed.

Lemma fs_ok : geometry (disk := disk) fs /\ coherent (disk := disk) fs.
Proof. split; [|by left]. split; try (vm_compute; intuition congruence). Qed.

Lemma sub_ok : directory (disk := disk) fs (entry "SUB        " 16 2 0) sub_items.
Proof.
  exists []. split; [vm_compute; intuition congruence|]. split; [by vm_compute|]. split; [by vm_compute|].
  assert (E : map (cluster_bytes (disk := disk) fs) [2] = [concat (part_entries sub_items (replicate 11 blank))]) by by vm_compute. change (START fs _) with 2. rewrite E.
  apply layout_end; [apply items_ok | apply blanks_ok | done | by constructor].
Qed.

Lemma root_layout : dir_layout [root_dir] root_items.
Proof. apply layout_end; [apply items_ok | apply blanks_ok | done | by constructor]. Qed.

Lemma volume_ok : fat_volume (disk := disk) bs 16 fs 1 [root_dir].
Proof.
  split; try done; [|apply fs_ok|].
  - split; [by vm_compute|]. right; right. split; [done|]. split; [done | by vm_compute].
  - left. split; [done|]. assert (E : sector_bytes (disk := disk) (rootdir_sect fs) (1 * dev_blksz) = root_dir) by by vm_compute. rewrite E. split; [|done]. split; try (vm_compute; congruence).
    rewrite E. pose proof (layout_names _ _ root_layout) as H. by inversion H.
Qed.
End Example.
Import Example.


(** 100 bytes of the file with the long name, across two clusters. *)
Lemma file_fat_read_at_correct_witness : exists B', file_fat_read_at Example.bufs Example.file_path 480 0 (replicate 200 7) 100 =
  Some (0, Some 100, patched (replicate 200 7) 0 (take 100 (drop 480 Example.file_text)), B') /\ buffers_ok B'.
Proof.
  destruct (file_fat_read_at_correct (disk := Example.disk) Example.bs 16 Example.fs 1 [Example.root_dir] Example.root_items Example.bufs Example.file_path 480 0 (replicate 200 7) 100
    (Some Example.file_ent) (take 600 Example.file_text) Example.volume_ok Example.root_layout) as (B' & E & BO).
  - unfold buffers_ok, Example.bufs. cbn [root_blk dent_blk vfat_blk]. rewrite length_replicate, Z2Nat.id by done. done.
  - by split.
  - by vm_compute.
  - change (path_words [] (downcase Example.file_path)) with [str "sub"; str "a long name.text"]. apply (names_dir _ _ _ _ _ (Example.entry "SUB        " 16 2 0) Example.sub_items); [done|by vm_compute|done|apply Example.sub_ok|].
    replace (Some Example.file_ent) with (find_file (str "a long name.text") Example.sub_items) by by vm_compute. by constructor.
  - done.
  - intros e [= <-]. split; [|by vm_compute]. right. exists [4]. split; [vm_compute; intuition congruence|]. split; [by vm_compute|]. split; [by vm_compute|]. by vm_compute.
  - exists B'. split; [|done]. rewrite E. by vm_compute.
Defined.
