(* ===== verification/PartDos.v ===== *)
(** * PartDos: partition tables ([disk/part_dos.c], [disk/part_dos.h], parts of [disk/part.c], [fat_register_device])

    Partitions of a disk with a DOS partition table: the master boot record has four
    primary partitions, one of which may be an extended one, in which tables are
    chained.  The name of a partition, which only messages show, is left out, and
    its type is the same for all of them. *)
From Stdlib Require Import String.
From S2P Require Import Prelude CString Hashtable EnvFlags Fat FatDir.
From stdpp Require Import list.
#[local] Open Scope Z_scope.

(** A block device. *)
Class RawDev := { raw_read : Z -> Z -> Z * list Z; raw_blksz : Z; raw_lba : Z }.

Definition DOS_PART_DEFAULT_SECTOR : Z := 512.
Definition DOS_PART_TBL_OFFSET : Z := 0x1be.
Definition DOS_PART_MAGIC_OFFSET : Z := 0x1fe.
Definition DOS_PBR_FSTYPE_OFFSET : Z := 0x36.
Definition DOS_PBR32_FSTYPE_OFFSET : Z := 0x52.
Definition DOS_MBR : Z := 0.
Definition DOS_PBR : Z := 1.
Definition PART_TYPE_UNKNOWN : Z := 0x00.
Definition PART_TYPE_DOS : Z := 0x02.
Definition MAX_SEARCH_PARTITIONS : nat := 16.

(** The fields of an entry of a table that are used. *)
Record dos_partition := mk_dp { boot_ind : Z; sys_ind : Z; start4 : Z; size4 : Z }.

Definition le32_to_int (l : list Z) : Z := s32 (le_num l).
Definition dp_of (l : list Z) : dos_partition := mk_dp (nth 0 l 0) (nth 4 l 0) (le32_to_int (take 4 (drop 8 l))) (le32_to_int (take 4 (drop 12 l))).

Definition is_extended (part_type : Z) : bool := (part_type =? 0x5) || (part_type =? 0xf) || (part_type =? 0x85).
Definition is_bootable (p : dos_partition) : bool := boot_ind p =? 0x80.

(** [start], [size], [blksz] and [bootable] of [disk_partition_t]. *)
Record disk_partition := mk_info { info_start : Z; info_size : Z; info_blksz : Z; info_bootable : bool }.

(** Entry [i] of the table in a sector. *)
Definition pt_at (buffer : list Z) (i : Z) : option dos_partition := l ← slice buffer (DOS_PART_TBL_OFFSET + 16 * i) 16; Some (dp_of l).

(** [for (slot = 0; slot < 3; slot++)]: the entry tested is the first one each time. *)
Fixpoint test_slots (n : nat) (slot : Z) (buffer : list Z) : option Z :=
  match n with
  | O => Some DOS_MBR
  | S n =>
      p ← pt_at buffer 0;
      if negb (boot_ind p =? 0) && negb (boot_ind p =? 0x80) then
        t ← slice buffer DOS_PBR_FSTYPE_OFFSET 3;
        t32 ← slice buffer DOS_PBR32_FSTYPE_OFFSET 5;
        Some (if (slot =? 0) && (bool_decide (t = str "FAT") || bool_decide (t32 = str "FAT32")) then DOS_PBR else -1)
      else test_slots n (slot + 1) buffer
  end.

Definition has_magic (buffer : list Z) : option bool :=
  m ← slice buffer DOS_PART_MAGIC_OFFSET 2; Some (bool_decide (m = [0x55; 0xaa])).

Definition test_block_type (buffer : list Z) : option Z :=
  m ← has_magic buffer;
  if negb m then Some (-1) else test_slots 3 0 buffer.

(** The loop over a table: the partition found, or the number of the next one. *)
Fixpoint scan_table (pts : list dos_partition) (ext_part_sector part_num which_part : Z) : disk_partition + Z :=
  match pts with
  | [] => inr part_num
  | pt :: pts =>
      if (Z.land (boot_ind pt) (Z.lnot 0x80) =? 0) && negb (sys_ind pt =? 0) && (part_num =? which_part) && negb (is_extended (sys_ind pt)) then
        inl (mk_info (u32 (ext_part_sector + start4 pt)) (u32 (size4 pt)) DOS_PART_DEFAULT_SECTOR (is_bootable pt))
      else
        scan_table pts ext_part_sector
          (if (ext_part_sector =? 0) || (negb (sys_ind pt =? 0) && negb (is_extended (sys_ind pt))) then part_num + 1 else part_num) which_part
  end.

(** The first extended partition of a table. *)
Definition next_table (pts : list dos_partition) : option dos_partition := List.find (fun pt => is_extended (sys_ind pt)) pts.

Section part.
Context {RD : RawDev}.

(** One sector in a buffer of [blksz] bytes. *)
Definition read_sector (s : Z) : option (Z * list Z) :=
  let '(r, data) := raw_read (u32 s) 1 in
  buffer ← splice (replicate (Z.to_nat raw_blksz) 0) 0 data;
  Some (r, buffer).

Definition test_part_dos : option Z :=
  '(r, buffer) ← read_sector 0;
  if negb (r =? 1) then Some (-1) else
  t ← test_block_type buffer;
  Some (if negb (t =? DOS_MBR) then -1 else 0).

(** The partition, or -1; the chain of tables has no bound in the code. *)
Fixpoint get_partition_info_extended (fuel : nat) (ext_part_sector relative part_num which_part : Z) : option (option disk_partition) :=
  match fuel with
  | O => None
  | S fuel =>
      '(r, buffer) ← read_sector ext_part_sector;
      if negb (r =? 1) then Some None else
      m ← has_magic buffer;
      if negb m then Some None else
      pt0 ← pt_at buffer 0; pt1 ← pt_at buffer 1; pt2 ← pt_at buffer 2; pt3 ← pt_at buffer 3;
      let pts := [pt0; pt1; pt2; pt3] in
      match scan_table pts ext_part_sector part_num which_part with
      | inl info => Some (Some info)
      | inr part_num =>
          match next_table pts with
          | Some pt =>
              let lba_start := s32 (start4 pt + relative) in
              get_partition_info_extended fuel lba_start (if ext_part_sector =? 0 then lba_start else relative) part_num which_part
          | None =>
              dos_type ← test_block_type buffer;
              Some (if dos_type =? DOS_PBR then Some (mk_info 0 raw_lba DOS_PART_DEFAULT_SECTOR false) else None)
          end
      end
  end.

Definition get_partition_info_dos (fuel : nat) (part : Z) : option (option disk_partition) := get_partition_info_extended fuel 0 0 1 part.

(** The type of the table, as the configuration has it. *)
Definition init_part : option Z := t ← test_part_dos; Some (if t =? 0 then PART_TYPE_DOS else PART_TYPE_UNKNOWN).

Definition get_partition_info (fuel : nat) (part_type part : Z) : option (option disk_partition) :=
  if part_type =? PART_TYPE_DOS then get_partition_info_dos fuel part else Some None.

(** The search for a bootable partition of [get_device_and_partition], from [p] on: [part] and [tmpinfo] are those of the best one so far.
    The number and the partition, or nothing when there is none. *)
Fixpoint find_auto (fuel : nat) (n : nat) (part_type p : Z) (best : option (Z * disk_partition)) : option (option (Z * disk_partition)) :=
  match n with
  | O => Some best
  | S n =>
      i ← get_partition_info fuel part_type p;
      match i with
      | None => find_auto fuel n part_type (p + 1) best
      | Some info =>
          if info_bootable info then Some (Some (p, info))
          else find_auto fuel n part_type (p + 1) (match best with Some b => Some b | None => Some (p, info) end)
      end
  end.

(** The device with a partition selected, as [fs/fat/fat.c] sees it. *)
Definition on_part (info : disk_partition) : BlockDev := {|
  cur_dev := true; block_read := raw_read; part_start := info_start info; part_blksz := info_blksz info; dev_blksz := raw_blksz |}.

(** The return code and the partition when a file system was found. *)
Definition fat_register_device (fuel : nat) (part_type part_no : Z) : option (Z * option disk_partition) :=
  i ← get_partition_info fuel part_type part_no;
  let set info := '(r, sel) ← fat_set_blk_dev (BD := on_part info); Some (r, if (sel : bool) then Some info else None) in
  match i with
  | None => if negb (part_no =? 0) then Some (-1, None) else set (mk_info 0 raw_lba raw_blksz false)
  | Some info => set info
  end.
End part.

(** ** Partitions and their numbers *)

(** An entry that is a partition, and one that the code accepts. *)
Definition used (pt : dos_partition) : bool := negb (sys_ind pt =? 0) && negb (is_extended (sys_ind pt)).
Definition part_ok (pt : dos_partition) : bool := (Z.land (boot_ind pt) (Z.lnot 0x80) =? 0) && used pt.
Definition part_info (s : Z) (pt : dos_partition) : disk_partition := mk_info (u32 (s + start4 pt)) (u32 (size4 pt)) DOS_PART_DEFAULT_SECTOR (is_bootable pt).

(** The logical partitions of a chain of tables, with the sectors of their tables. *)
Definition logicals (ts : list (Z * list dos_partition)) : list (Z * dos_partition) :=
  concat (map (fun '(s, pts) => map (pair s) (List.filter used pts)) ts).

(** Numbers 1 to 4 are the entries of the master boot record, the logical partitions follow from 5 on. *)
Definition partition_no (mbr : list dos_partition) (ts : list (Z * list dos_partition)) (n : Z) : option (Z * dos_partition) :=
  if n <? 1 then None else if n <=? 4 then pair 0 <$> mbr !! Z.to_nat (n - 1) else logicals ts !! Z.to_nat (n - 5).

(** An accepted partition or another answer. *)
Definition accept (p : option (Z * dos_partition)) (other : option (option disk_partition)) : option (option disk_partition) :=
  match p with Some (s, pt) => if part_ok pt then Some (Some (part_info s pt)) else other | None => other end.

Definition counted (s : Z) (pt : dos_partition) : bool := (s =? 0) || used pt.
Definition from_no {A} (n which : Z) (l : list A) : option A := if which <? n then None else l !! Z.to_nat (which - n).

Lemma from_no_app {A} n which (l1 l2 : list A) :
  from_no n which (l1 ++ l2) = match from_no n which l1 with Some x => Some x | None => from_no (n + Z.of_nat (length l1)) which l2 end.
Proof.
  unfold from_no. destruct (Z.ltb_spec which n); [by rewrite (proj2 (Z.ltb_lt _ _)) by lia|]. destruct (Nat.lt_ge_cases (Z.to_nat (which - n)) (length l1)) as [H1|H1].
  - rewrite lookup_app_l by done. destruct (lookup_lt_is_Some_2 l1 _ H1) as [x ->]. done.
  - rewrite lookup_app_r by done. rewrite (lookup_ge_None_2 l1) by done. rewrite (proj2 (Z.ltb_ge _ _)) by lia. f_equal. lia.
Qed.

Lemma scan_table_ok pts s n which : scan_table pts s n which =
  match from_no n which (List.filter (counted s) pts) with
  | Some pt => if part_ok pt then inl (part_info s pt) else inr (n + Z.of_nat (length (List.filter (counted s) pts)))
  | None => inr (n + Z.of_nat (length (List.filter (counted s) pts)))
  end.
Proof.
  revert n. induction pts as [|pt pts IH]; intros n; cbn [scan_table List.filter]; [unfold from_no; destruct (which <? n); cbn; f_equal; lia|].
  assert (Eg : (Z.land (boot_ind pt) (Z.lnot 0x80) =? 0) && negb (sys_ind pt =? 0) && (n =? which) && negb (is_extended (sys_ind pt)) = (n =? which) && part_ok pt).
  { unfold part_ok, used. destruct (Z.land _ _ =? 0), (sys_ind pt =? 0), (n =? which), (is_extended _); done. }
  rewrite Eg. clear Eg. fold (used pt). fold (counted s pt). destruct (counted s pt) eqn:Ec.
  - change (pt :: List.filter (counted s) pts) with ([pt] ++ List.filter (counted s) pts). rewrite from_no_app. cbn [length app]. rewrite IH. destruct (Z.eqb_spec n which) as [<-|Hne]; cbn [andb].
    + assert (E1 : from_no n n [pt] = Some pt) by (unfold from_no; rewrite Z.ltb_irrefl, Z.sub_diag; done). rewrite E1. destruct (part_ok pt); [done|].
      unfold from_no. rewrite (proj2 (Z.ltb_lt _ _)) by lia. f_equal. lia.
    + assert (E1 : from_no n which [pt] = None) by (unfold from_no; destruct (Z.ltb_spec which n); [done|]; destruct (Z.to_nat (which - n)) as [|k] eqn:Ek; [lia | done]). rewrite E1. change (Z.of_nat 1) with 1.
      replace (n + Z.of_nat (S (length (List.filter (counted s) pts)))) with (n + 1 + Z.of_nat (length (List.filter (counted s) pts))) by lia. done.
  - assert (Eu : part_ok pt = false) by (unfold part_ok; unfold counted in Ec; apply orb_false_elim in Ec as [_ ->]; apply andb_false_r). rewrite Eu, andb_false_r. apply IH.
Qed.

Section chain.
Context {RD : RawDev}.

(** A sector with a table. *)
Definition table_at (s : Z) (buffer : list Z) (pts : list dos_partition) : Prop :=
  read_sector s = Some (1, buffer) /\ has_magic buffer = Some true /\ exists p0 p1 p2 p3, pts = [p0; p1; p2; p3] /\
    pt_at buffer 0 = Some p0 /\ pt_at buffer 1 = Some p1 /\ pt_at buffer 2 = Some p2 /\ pt_at buffer 3 = Some p3.

(** A chain of tables from a sector on, with the buffer of the last one. *)
Inductive tables : Z -> Z -> list (Z * list dos_partition) -> list Z -> Prop :=
| tables_last s rel b pts : table_at s b pts -> next_table pts = None -> tables s rel [(s, pts)] b
| tables_next s rel b pts pt ts b' : table_at s b pts -> next_table pts = Some pt -> s32 (start4 pt + rel) <> 0 ->
    tables (s32 (start4 pt + rel)) (if s =? 0 then s32 (start4 pt + rel) else rel) ts b' -> tables s rel ((s, pts) :: ts) b'.

(** The answer when no table has the partition: a disk without tables that starts with a file system is a partition. *)
Definition whole_disk (b : list Z) : option (option disk_partition) :=
  t ← test_block_type b; Some (if t =? DOS_PBR then Some (mk_info 0 raw_lba DOS_PART_DEFAULT_SECTOR false) else None).

Lemma tables_ok s rel ts b fuel n which : tables s rel ts b -> (length ts <= fuel)%nat -> 
  get_partition_info_extended fuel s rel n which =
    match ts with
    | [] => None
    | (_, pts) :: ts' => accept (pair s <$> from_no n which (List.filter (counted s) pts))
        (accept (from_no (n + Z.of_nat (length (List.filter (counted s) pts))) which (logicals ts')) (whole_disk b))
    end.
Proof.
  intros H. revert fuel n. induction H as [s rel b pts (T1 & T2 & p0 & p1 & p2 & p3 & -> & T3 & T4 & T5 & T6) Hn|s rel b pts pt ts b' (T1 & T2 & p0 & p1 & p2 & p3 & -> & T3 & T4 & T5 & T6) Hn H0 H IH];
    intros [|fuel] n Hf; cbn [length] in Hf; try lia; cbn [get_partition_info_extended]; rewrite T1; cbn [mbind option_bind]; change (negb (1 =? 1)) with false; cbn iota; rewrite T2; cbn [mbind option_bind negb];
    rewrite T3, T4, T5, T6; cbn [mbind option_bind]; rewrite scan_table_ok, Hn; set (l := List.filter (counted s) _).
  - assert (E : forall m, accept (from_no m which (logicals [])) (whole_disk b) = whole_disk b) by (intros m; unfold logicals, from_no; cbn; by destruct (which <? m)). rewrite E.
    destruct (from_no n which l) as [pt|]; cbn [fmap option_fmap option_map accept]; [destruct (part_ok pt)|]; done.
  - assert (E : forall m, match ts with [] => None | (_, pts') :: ts' =>
        accept (pair (s32 (start4 pt + rel)) <$> from_no m which (List.filter (counted (s32 (start4 pt + rel))) pts'))
          (accept (from_no (m + Z.of_nat (length (List.filter (counted (s32 (start4 pt + rel))) pts'))) which (logicals ts')) (whole_disk b')) end =
        accept (from_no m which (logicals ts)) (whole_disk b')).
    { intros m. destruct ts as [|[s' pts'] ts']; [inversion H|]. assert (Es : s' = s32 (start4 pt + rel)) by (by inversion H). rewrite <- Es in *. clear Es.
      assert (Ef : List.filter (counted s') pts' = List.filter used pts') by (apply List.filter_ext; intros x; unfold counted; by rewrite (proj2 (Z.eqb_neq s' 0))). rewrite Ef.
      unfold logicals. cbn [map concat]. rewrite from_no_app, length_map. unfold from_no at 1 3. destruct (Z.ltb_spec which m); [done|]. rewrite list_lookup_fmap.
      destruct (List.filter used pts' !! Z.to_nat (which - m)) as [x|] eqn:Ex; cbn [fmap option_fmap option_map accept]; [|done]. destruct (part_ok x); [done|].
      assert (Hx : (Z.to_nat (which - m) < length (List.filter used pts'))%nat) by (by apply lookup_lt_Some in Ex). unfold from_no. rewrite (proj2 (Z.ltb_lt _ _)) by lia. done. }
    destruct (from_no n which l) as [x|]; cbn [fmap option_fmap option_map accept]; [destruct (part_ok x); [done|]|]; rewrite IH by lia; apply E.
Qed.

Lemma get_partition_info_dos_ok fuel mbr ts b which : tables 0 0 ((0, mbr) :: ts) b -> (length ts < fuel)%nat ->
  get_partition_info_dos fuel which = accept (partition_no mbr ts which) (whole_disk b).
Proof.
  intros H Hf. unfold get_partition_info_dos. rewrite (tables_ok _ _ _ _ fuel 1 which H) by (cbn [length]; lia).
  assert (L : length mbr = 4%nat) by (inversion H as [? ? ? ? (_ & _ & ? & ? & ? & ? & -> & _)|? ? ? ? ? ? ? (_ & _ & ? & ? & ? & ? & -> & _)]; done).
  assert (Ef : List.filter (counted 0) mbr = mbr) by (clear; induction mbr as [|x l IH]; [done|]; cbn; by rewrite IH). rewrite Ef, L. change (1 + Z.of_nat 4) with 5. unfold partition_no, from_no.
  destruct (Z.ltb_spec which 1); [by rewrite (proj2 (Z.ltb_lt which 5)) by lia|]. destruct (Z.leb_spec which 4) as [H4|H4].
  - rewrite (proj2 (Z.ltb_lt which 5)) by lia. done.
  - rewrite (proj2 (Z.ltb_ge which 5)) by lia. rewrite (lookup_ge_None_2 mbr) by lia. done.
Qed.

(** C25: [get_partition_info_dos] gives the partition with the number that fdisk gives it: 1 to 4 are the entries of the master boot record, the used entries of the chain of
    extended tables follow from 5 on, with their start counted from their table.  Other numbers are rejected, except on a disk that is one file system. *)
Theorem get_partition_info_dos_correct fuel mbr ts b which : tables 0 0 ((0, mbr) :: ts) b -> (length ts < fuel)%nat ->
  get_partition_info_dos fuel which = accept (partition_no mbr ts which) (whole_disk b).
Proof. apply get_partition_info_dos_ok. Qed.
End chain.

(** ** Booting and files *)

Section use.
Context {RD : RawDev}.

(** The first of the partitions from [p] on that satisfies a test. *)
Definition first_part (f : Z -> option disk_partition) (test : disk_partition -> bool) (p n : Z) : option (Z * disk_partition) :=
  head (omap (fun q => i ← f q; if test i then Some (q, i) else None) (seqZ p n)).

(** The first bootable partition is chosen, or else the first one. *)
Lemma find_auto_ok fuel ty f n p best : (forall q, p <= q < p + Z.of_nat n -> get_partition_info fuel ty q = Some (f q)) ->
  find_auto fuel n ty p best = Some (match first_part f info_bootable p (Z.of_nat n) with Some x => Some x
    | None => match best with Some b => Some b | None => first_part f (fun _ => true) p (Z.of_nat n) end end).
Proof.
  revert p best. induction n as [|n IH]; intros p best H; cbn [find_auto]; [by destruct best|]. rewrite H by lia. cbn [mbind option_bind].
  unfold first_part in *. rewrite (seqZ_cons p (Z.of_nat (S n))) by lia. replace (Z.pred (Z.of_nat (S n))) with (Z.of_nat n) by lia. replace (Z.succ p) with (p + 1) by lia. cbn [omap list_omap].
  destruct (f p) as [i|] eqn:Ef; cbn [mbind option_bind]; [|apply IH; intros; apply H; lia]. destruct (info_bootable i) eqn:Eb; [done|].
  rewrite IH by (intros; apply H; lia). cbn [head]. by destruct best.
Qed.

(** C9: a file of a FAT file system on a partition: [fat_register_device] finds the partition of that number and its file system, and [file_fat_read_at]
    then stores the bytes of the file that the path names, or fails without effect. *)
Theorem partition_file_correct fuel mbr ts b which s pt disk (DOk : BlockDevOk (on_part (part_info s pt)) disk) bs w d rs parts items B filename pos addr arr maxsize r data (MA : Memalign) :
  tables 0 0 ((0, mbr) :: ts) b -> (length ts < fuel)%nat -> partition_no mbr ts which = Some (s, pt) -> part_ok pt = true ->
  fat_volume (BD := on_part (part_info s pt)) (disk := disk) bs w d rs parts -> 512 <= raw_blksz -> take 2 (drop 510 (sector_bytes (BD := on_part (part_info s pt)) (disk := disk) 0 raw_blksz)) = [0x55; 0xAA] ->
  dir_layout parts items -> buffers_ok B -> path_end filename -> Z.of_nat (length filename) < 2048 ->
  names_file (BD := on_part (part_info s pt)) (disk := disk) d items (path_words [] (downcase filename)) r -> 0 <= pos ->
  (forall e, r = Some e -> file_data (BD := on_part (part_info s pt)) (disk := disk) d e data /\ read_size (d_size e) pos maxsize <= Z.of_nat (length arr)) ->
  fat_register_device fuel PART_TYPE_DOS which = Some (0, Some (part_info s pt)) /\
  exists B', file_fat_read_at (BD := on_part (part_info s pt)) B filename pos addr arr maxsize = Some (fat_result false r data pos arr maxsize, B') /\ buffers_ok B'.
Proof.
  intros HT Hf Hp Hok FV H5 Hm L BO Pe Hl Hn Hpos Hd. split.
  - unfold fat_register_device, get_partition_info. cbn [Z.eqb PART_TYPE_DOS Pos.eqb]. rewrite (get_partition_info_dos_ok fuel mbr ts b which HT Hf), Hp. cbn [accept]. rewrite Hok. cbn [mbind option_bind].
    by rewrite (fat_set_blk_dev_ok (BD := on_part (part_info s pt)) (disk := disk) bs w d rs parts FV H5 Hm).
  - apply (read_path_ok (BD := on_part (part_info s pt)) (disk := disk) bs w d rs parts items); done.
Qed.
End use.

(** ** Examples *)

(** The disk of [FatDir.Example], whose first partition has the file system. *)
#[local] Instance raw_dev : RawDev := {| raw_read := block_read (BlockDev := Example.dev); raw_blksz := 512; raw_lba := 7 |}.
Definition dos_entry (start size : Z) : dos_partition := mk_dp 0 14 start size.
Definition no_entry : dos_partition := mk_dp 0 0 0 0.

Lemma raw_tables : tables 0 0 [(0, [dos_entry 1 5; no_entry; no_entry; no_entry])] Example.mbr.
Proof. apply tables_last; [|done]. split; [by vm_compute|]. split; [by vm_compute|]. exists (dos_entry 1 5), no_entry, no_entry, no_entry. by repeat split; vm_compute. Qed.

Lemma partition_file_correct_witness : fat_register_device 1 PART_TYPE_DOS 1 = Some (0, Some (mk_info 1 5 512 false)) /\
  exists B', file_fat_read_at (BD := on_part (mk_info 1 5 512 false)) (MA := Example.mem) Example.bufs Example.file_path 480 0 (replicate 200 7) 100 =
    Some (0, Some 100, patched (replicate 200 7) 0 (take 100 (drop 480 Example.file_text)), B') /\ buffers_ok B'.
Proof.
  destruct (partition_file_correct (RD := raw_dev) 1 [dos_entry 1 5; no_entry; no_entry; no_entry] [] Example.mbr 1 0 (dos_entry 1 5) Example.disk Example.dev_ok Example.bs 16 Example.fs 1 [Example.root_dir] Example.root_items
    Example.bufs Example.file_path 480 0 (replicate 200 7) 100 (Some Example.file_ent) (take 600 Example.file_text) Example.mem) as (R & B' & E & BO).
  - apply raw_tables.
  - cbn; lia.
  - by vm_compute.
  - by vm_compute.
  - apply Example.volume_ok.
  - by vm_compute.
  - by vm_compute.
  - apply Example.root_layout.
  - unfold buffers_ok, Example.bufs. cbn [root_blk dent_blk vfat_blk]. rewrite length_replicate, Z2Nat.id by done. done.
  - by split.
  - by vm_compute.
  - change (path_words [] (downcase Example.file_path)) with [str "sub"; str "a long name.text"]. apply (names_dir _ _ _ _ _ (Example.entry "SUB        " 16 2 0) Example.sub_items); [done|by vm_compute|done|apply Example.sub_ok|].
    replace (Some Example.file_ent) with (find_file (str "a long name.text") Example.sub_items) by by vm_compute. by constructor.
  - done.
  - intros e [= <-]. split; [|by vm_compute]. right. exists [4]. split; [vm_compute; intuition congruence|]. split; [by vm_compute|]. split; [by vm_compute|]. by vm_compute.
  - split; [exact R|]. exists B'. split; [|done]. etransitivity; [exact E|]. by vm_compute.
Defined.

(** A logical partition: the extended partition has one table, in sector 1, and the partition starts 3 sectors behind it. *)
Definition sector_with (entries : list Z) : list Z := replicate 446 0 ++ entries ++ replicate (64 - length entries) 0 ++ [85; 170].
Definition ext_disk : list Z := sector_with [0; 0; 0; 0; 5; 0; 0; 0; 1; 0; 0; 0; 9; 0; 0; 0] ++ sector_with [128; 0; 0; 0; 14; 0; 0; 0; 3; 0; 0; 0; 6; 0; 0; 0].
Definition ext_dev : RawDev := {| raw_read := fun s n => (n, take (Z.to_nat (n * 512)) (drop (Z.to_nat (s * 512)) ext_disk)); raw_blksz := 512; raw_lba := 10 |}.

Lemma get_partition_info_dos_correct_witness : get_partition_info_dos (RD := ext_dev) 2 5 = Some (Some (mk_info 4 6 512 true)).
Proof.
  rewrite (get_partition_info_dos_correct (RD := ext_dev) 2 [mk_dp 0 5 1 9; no_entry; no_entry; no_entry] [(1, [mk_dp 128 14 3 6; no_entry; no_entry; no_entry])] (sector_with [128; 0; 0; 0; 14; 0; 0; 0; 3; 0; 0; 0; 6; 0; 0; 0])).
  - by vm_compute.
  - apply (tables_next 0 0 (sector_with [0; 0; 0; 0; 5; 0; 0; 0; 1; 0; 0; 0; 9; 0; 0; 0]) _ (mk_dp 0 5 1 9)); [|done|by vm_compute|].
    + split; [by vm_compute|]. split; [by vm_compute|]. exists (mk_dp 0 5 1 9), no_entry, no_entry, no_entry. by repeat split; vm_compute.
    + apply tables_last; [|done]. split; [by vm_compute|]. split; [by vm_compute|]. exists (mk_dp 128 14 3 6), no_entry, no_entry, no_entry. by repeat split; vm_compute.
  - cbn; lia.
Defined.

(** A second entry with an invalid flag is not noticed: the test looks at the first entry three times. *)
Lemma test_block_type_first : test_block_type (sector_with (replicate 16 0 ++ [1])) = Some DOS_MBR.
Proof. by vm_compute. Qed.
